(* ===== verification/_CoqProject ===== *)
-Q . S2P
Prelude.v
Hash.v
ProbeIndex.v
ProbeRemove.v
ChainIndex.v
SlotChains.v
KeyedMap.v
Seq.v
IncrSync.v
RateLimit.v
Json.v
JsonText.v
JsonEscape.v
JsonKeys.v
Models.v
OwnedTable.v
Friend.v
RpcNames.v
FriendRpc.v
Group.v
GroupRpc.v
Conversation.v
ConversationSpec.v
User.v
ObjectStore.v
Third.v
ImMessage.v
MsgStore.v
MsgStoreInv.v
MsgStoreSpec.v
Bytes.v
RpcFrame.v
Base64.v
Sha1.v
Token.v
TokenSpec.v
Pb.v
WebSocket.v
WsServer.v
Atomic.v
MsgService.v
MsgRpc.v
MsgServiceInv.v
MsgRpcSafe.v
MsgDeliver.v
Auth.v
ApiCore.v
ApiGate.v
ApiHandlers.v
ApiMsg.v
ApiLogic.v
ApiSafe.v
ApiConv.v
ApiThird.v
WsSub.v
GwTable.v
GwSend.v
GwOps.v
GwIo.v
GwInv.v
GwSafe.v
GwDeliver.v
HashMap.v
Uuid.v
Http.v
Middleware.v
HttpConns.v
HttpServer.v
HttpClient.v
ApiMain.v
Ring.v
Channel.v
SessionCache.v
Cache.v
Discovery.v
Cron.v
Transfer.v
