(* ===== verification/Prelude.v ===== *)
(** * Miku IM server: verification library (root file)

    Miku is an instant-messaging server in C.  Clients reach it through two
    gateways: the API gateway (HTTP, [gateway/api]) and the message gateway
    (WebSocket, [gateway/msggateway]).  Both call services that keep their data
    in memory behind a lock each: users, friends and blacklists, groups,
    conversations, messages, objects, tokens.  The services share a few data
    structures (hash indexes by open addressing, owner chains through an array,
    slot tables with a free stack), and everything that crosses a process
    boundary goes through a codec: JSON, HTTP, RPC frames, protocol buffers,
    WebSocket frames, Base64, tokens.  Beside them run programs that move
    messages from a queue to the store and purge old data.

    ** Files and sources (paths below src/src unless they begin with cmd/)

    Foundations.  This file: fixed-width integers, C strings, arrays indexed by
    [Z], sequences of operations.  Hash (foundation/miku_hash.c).  ProbeIndex,
    ProbeRemove, ChainIndex, SlotChains, KeyedMap, OwnedTable: the indexes that
    the services repeat, each with its invariant and its abstract value; the
    services instantiate them.  HashMap (foundation/miku_hashmap.c), with the
    class [StringMap] that its clients use.  Uuid (foundation/miku_uuid.c).
    Bytes: byte buffers.  Ring: ring buffers.  Channel (runtime/miku_channel.c).

    Codecs.  Json, JsonText, JsonEscape, JsonKeys (protocol/miku_json.c,
    foundation/miku_json_util.h); RpcFrame (protocol/miku_rpc.c); Pb
    (protocol/miku_pb.c); Base64, Sha1 (foundation); WebSocket, WsServer
    (protocol/miku_websocket.c); Token, TokenSpec (foundation/miku_token.c);
    Models (models/miku_models.c); ImMessage (gateway/msggateway/miku_im_message.c).

    HTTP.  Http (protocol/miku_http.c), Middleware (protocol/miku_middleware.c,
    foundation/miku_stats.c), HttpConns and HttpServer
    (protocol/miku_http_server.c), HttpClient (protocol/miku_http_client.c).

    Storage.  Seq (storage/miku_seq.c), IncrSync (storage/miku_incr_sync.c),
    RateLimit (protocol/miku_ratelimit.c), MsgStore with MsgStoreInv and
    MsgStoreSpec (storage/miku_msg_store.c), ObjectStore
    (storage/miku_object_store.c), SessionCache (storage/miku_session_cache.c),
    Cache (storage/miku_cache.c), Discovery (discovery/miku_discovery.c).

    Services.  Friend, FriendRpc, Group, GroupRpc, Conversation,
    ConversationSpec, User, Third, Auth, and MsgService, MsgRpc with
    MsgServiceInv, MsgRpcSafe and MsgDeliver (below services).  RpcNames has the
    tables of method names.

    Gateways.  ApiCore, ApiGate, ApiHandlers, ApiMsg: the API gateway
    (gateway/api/miku_api.c); ApiLogic, ApiSafe, ApiConv, ApiThird: its
    theorems.  WsSub (gateway/msggateway/miku_ws_subscription.c).  GwTable,
    GwSend, GwIo (gateway/msggateway/miku_msggateway.c and the admin requests of
    cmd/miku-msggateway/main.c), GwOps (gateway/msggateway/miku_msggw_ws_ops.c);
    GwInv, GwSafe, GwDeliver: their theorems.  ApiMain (cmd/miku-api/main.c): the
    callbacks with which the API process tells the gateway process.

    Background programs.  Cron (gateway/crontask), Transfer
    (gateway/msgtransfer, cmd/miku-msgtransfer/main.c).

    ** Conventions

    A definition has the name of the C function or type it models.  A record is
    the struct; an array is a list or a finite map from indexes, a hash table of
    int16_t or int32_t cells is a [gmap Z Z] read by [t.[i]], where a cell that
    was never written is -1.  A pointer that may be NULL is an [option]; where a
    function returns [option] instead of a status, None is the failure, or, when
    its comment says so, an access outside a buffer or other undefined
    behaviour, which theorems exclude.  [char] arrays are strings without NUL;
    [strncpy] into a buffer is [strn].  Integers are [Z] with the wrap-around
    written ([u32], [i16], ...).  Texts built with [snprintf] are lists of
    characters, cut where the buffer ends.

    The clock, random identifiers and environment variables are arguments.
    Failing allocations are not modelled.  What runs under one lock is a
    function on the state.  A handler that takes several locks is a program of
    atomic actions (Atomic.v); its theorems hold for every interleaving.  The
    API gateway runs its handlers in a state, output and exit monad (ApiCore).
    Sockets are byte streams and events.

    ** What is proved

    - Indexes: a table with its hash chains and free lists is a finite map under
      any sequence of operations; lookups terminate and find what was stored
      ([seq_refines], [friend_refines], [msg_store_refines],
      [object_store_refines], [json_object_refines], [ws_sub_refines],
      [conv_cells], [group_reach_correct], [hashmap_refines],
      [conn_table_refines], [session_cache_refines], [discovery_refines]); the
      cache of linked entries is a list, and frees each value once
      ([lru_refines], [cache_ownership]).
    - Codecs: what is written is read back, readers stay inside their buffers,
      printed JSON is well formed ([json_roundtrip], [json_parse_total],
      [json_escape_safe], [pb_roundtrip], [ws_frame_roundtrip],
      [ws_decode_safe], [token_roundtrip], [sha1_padding],
      [http_request_roundtrip], [http_response_framed]).
    - Authorization: tokens, revocation, group roles, friends and blacklists,
      isolation of conversations and objects between users, at the services and
      at the gateways ([token_revoked_stays], [friend_access_iff],
      [group_rpc_authorized], [group_rpc_owner_kept], [conv_rpc_isolated],
      [msg_rpc_authorized],
      [msg_rpc_discloses], [api_requires_token], [api_conv_isolated],
      [api_objects_owned], [http_handler_authenticated],
      [gw_sessions_genuine], [gw_send_gated], [gw_pull_gated]).
    - Concurrency: the message service and the message gateway keep their
      invariants however requests interleave ([msg_rpc_interleaved],
      [gw_table_ok]); a channel is a queue that wakes who can go on
      ([channel_fifo], [channel_progress]).
    - Behaviour of single operations on every branch, errors included
      ([ratelimit_allow_spec], [msg_send_delivered], [gw_kick_complete],
      [gw_push_exact], [gw_single_chat_refused], [http_serves],
      [partial_request_dropped]).
    - Processes together: a logout at the API reaches the sessions of the gateway
      ([kick_arrives]); the transfer program hands every message to the store
      once and in order ([transfer_exactly_once], [transfer_drains]); tasks keep
      to their intervals and purge what is old ([cron_spacing],
      [cron_retention]).

    Many fields are C arrays of fixed length: what is longer is cut when it is
    stored and compared in full when it is looked up.  The theorems say which
    lengths they assume, and examples show what happens beyond them
    ([seq_next_long_repeats], [ratelimit_long_key_unlimited],
    [long_owner_shared], [long_id_twice], [long_id_duplicates],
    [si_conversation_collision]).

    ** Fuel and bounds

    Probe loops run at most the size of the table; the tables hold fewer
    entries than cells, so that a probe ends at a free cell before.  Chain walks
    have one step more than the slots of their table (8192 messages, 4096
    connections, the length of the list elsewhere), and the invariants bound the
    chains by the slots.  The JSON parser has two units per character and two
    more, which [json_parse_total] shows to be enough.  Decimal numbers have 20
    digits (64 bits), varints 10 bytes, doubling loops 64 steps (64-bit sizes).
    The frames of an event take at least two bytes each, so that one step per
    byte is enough.  A fuel that is too small is never used to define away an
    outcome: the theorems are stated on the functions with their fuel.

    ** Not modelled

    Memory addresses and release, except in Cache; failing allocations; the
    exhaustion of the C stack by the recursive JSON parser, which does not bound
    the nesting; the poller, listening sockets and the poll loops; the socket
    loops of the RPC server and client; TLS (the HTTP server is the build
    without it); the message store with a database (with one, an operation ends
    in the request that it sends); gzip and CRC-32; coroutines, timers and the
    thread pool (context switches, pthread); the red-black tree and the
    intrusive list, which no modelled part uses; the Redis, Mongo and Kafka
    clients, push and webhooks, which talk to external services; configuration,
    logging, signal handling and other start-up code. *)

From Stdlib Require Export ZArith Lia.
From stdpp Require Export base gmap strings list fin_maps numbers.
#[global] Open Scope Z_scope.

Declare Scope miku_scope.
Delimit Scope miku_scope with miku.

(** ** Fixed-width integers *)

(** Conversion to an unsigned C integer of [w] bits. *)
Definition uwrap (w z : Z) : Z := z mod 2 ^ w.

(** Conversion to a two's complement C integer of [w] bits. *)
Definition swrap (w z : Z) : Z := (z + 2 ^ (w - 1)) mod 2 ^ w - 2 ^ (w - 1).

Abbreviation u8 := (uwrap 8).
Abbreviation u16 := (uwrap 16).
Abbreviation u32 := (uwrap 32).
Abbreviation u64 := (uwrap 64).
Abbreviation i16 := (swrap 16).
Abbreviation i32 := (swrap 32).
Abbreviation i64 := (swrap 64).

Definition is_byte (z : Z) : Prop := 0 <= z < 256.

Lemma uwrap_bound w z : 0 <= w -> 0 <= uwrap w z < 2 ^ w.
Proof. intros Hw. apply Z.mod_pos_bound. by apply Z.pow_pos_nonneg. Qed.

Lemma uwrap_small w z : 0 <= z < 2 ^ w -> uwrap w z = z.
Proof. apply Z.mod_small. Qed.

Lemma swrap_small w z : - 2 ^ (w - 1) <= z < 2 ^ (w - 1) -> 0 < w -> swrap w z = z.
Proof.
  intros Hz Hw. unfold swrap.
  assert (2 ^ w = 2 ^ (w - 1) + 2 ^ (w - 1)) as E.
  { replace w with ((w - 1) + 1) at 1 by lia. rewrite Z.pow_add_r by lia. lia. }
  rewrite Z.mod_small; lia.
Qed.

Lemma i16_small z : 0 <= z < 32768 -> i16 z = z.
Proof. intros H. apply swrap_small; [change (2 ^ (16 - 1)) with 32768|]; lia. Qed.

Lemma i32_small z : -2147483648 <= z < 2147483648 -> i32 z = z.
Proof. intros H. apply swrap_small; [change (2 ^ (32 - 1)) with 2147483648|]; lia. Qed.

Lemma i64_small z : - 2 ^ 63 <= z < 2 ^ 63 -> i64 z = z.
Proof. intros H. apply swrap_small; [change (64 - 1) with 63|]; lia. Qed.

Lemma land_mask k x : 0 <= k -> Z.land x (2 ^ k - 1) = x mod 2 ^ k.
Proof. intros Hk. rewrite <- Z.land_ones by done. by rewrite Z.ones_equiv, Z.sub_1_r. Qed.

(** ** C strings *)

(** A [const char *] that is not NULL is the character sequence before its
    terminating NUL.  [strn n s] is what a zero-filled buffer holds after
    [strncpy(buf, s, n)]. *)
Fixpoint strn (n : nat) (s : string) : string :=
  match n, s with
  | S n', String c s' => String c (strn n' s')
  | _, _ => ""%string
  end.

(** [strcmp(a, b) == 0]. *)
Definition streq (a b : string) : bool := String.eqb a b.

(** [s[0] != '\0']. *)
Definition nonempty (s : string) : bool := negb (streq s "").

(** [p && p[0]] for a pointer that may be NULL. *)
Definition given (p : option string) : bool :=
  match p with Some s => nonempty s | None => false end.

Lemma streq_eq a b : streq a b = true <-> a = b.
Proof. apply String.eqb_eq. Qed.

Lemma streq_refl a : streq a a = true.
Proof. by apply streq_eq. Qed.

Lemma streq_neq a b : a <> b -> streq a b = false.
Proof. apply String.eqb_neq. Qed.

Lemma streq_bool a b : streq a b = bool_decide (a = b).
Proof.
  case_bool_decide as H; [subst; apply streq_refl | by apply streq_neq].
Qed.

Lemma strn_short n s : (String.length s <= n)%nat -> strn n s = s.
Proof.
  revert s. induction n as [|n IH]; intros [|c s]; simpl; try done; try lia.
  intros H. f_equal. apply IH. lia.
Qed.

Lemma strn_length n s : String.length (strn n s) = min n (String.length s).
Proof. revert s. induction n as [|n IH]; intros [|c s]; simpl; auto. Qed.

(** A string that does not fit its buffer never equals what is stored. *)
Lemma strn_long_neq n m s : (n < String.length s)%nat -> (m <= n)%nat -> strn m s <> s.
Proof.
  intros Hs Hm E. assert (String.length (strn m s) = String.length s) as L by by rewrite E.
  rewrite strn_length in L. lia.
Qed.

#[global] Arguments strn : simpl never.

(** ** C arrays of [int] whose untouched cells hold -1 *)

Definition cell (t : gmap Z Z) (i : Z) : Z := default (-1) (t !! i).

Notation "t .[ i ]" := (cell t i) (at level 1, left associativity, format "t .[ i ]") : miku_scope.
#[global] Open Scope miku_scope.

Lemma cell_insert_eq t i v : (<[i:=v]> t).[i] = v.
Proof. unfold cell. by rewrite lookup_insert_eq. Qed.

Lemma cell_insert_ne t i j v : i <> j -> (<[i:=v]> t).[j] = t.[j].
Proof. intros H. unfold cell. by rewrite lookup_insert_ne. Qed.

Lemma cell_empty i : cell ∅ i = -1.
Proof. unfold cell. by rewrite lookup_empty. Qed.

(** ** Element access by a C index *)

Definition at_ {A} (l : list A) (i : Z) : option A :=
  if i <? 0 then None else l !! Z.to_nat i.

Lemma at_Some {A} (l : list A) i x :
  at_ l i = Some x <-> 0 <= i /\ l !! Z.to_nat i = Some x.
Proof. unfold at_. destruct (Z.ltb_spec i 0); naive_solver lia. Qed.

Lemma at_lt {A} (l : list A) i x : at_ l i = Some x -> 0 <= i < Z.of_nat (length l).
Proof. rewrite at_Some. intros [H1 H2]. apply lookup_lt_Some in H2. lia. Qed.

Lemma at_is_Some {A} (l : list A) i : 0 <= i < Z.of_nat (length l) -> is_Some (at_ l i).
Proof.
  intros H. unfold at_. destruct (Z.ltb_spec i 0); [lia|]. apply lookup_lt_is_Some. lia.
Qed.

Lemma at_app_l {A} (l k : list A) i :
  i < Z.of_nat (length l) -> at_ (l ++ k) i = at_ l i.
Proof.
  intros H. unfold at_. destruct (Z.ltb_spec i 0); [done|]. apply lookup_app_l. lia.
Qed.

Lemma at_snoc {A} (l : list A) x : at_ (l ++ [x]) (Z.of_nat (length l)) = Some x.
Proof.
  apply at_Some. split; [lia|]. rewrite Nat2Z.id.
  apply list_lookup_middle. done.
Qed.

Lemma at_of_nat {A} (l : list A) (n : nat) : at_ l (Z.of_nat n) = l !! n.
Proof. unfold at_. destruct (Z.ltb_spec (Z.of_nat n) 0); [lia|]. by rewrite Nat2Z.id. Qed.

Create HintDb miku discriminated.
Create Rewrite HintDb miku.
#[export] Hint Rewrite streq_refl cell_empty cell_insert_eq @at_snoc @at_of_nat : miku.

(** Case analysis on the boolean tests of the translated code. *)
Ltac bool_case :=
  match goal with
  | |- context [Z.ltb ?a ?b] => destruct (Z.ltb_spec a b)
  | |- context [Z.leb ?a ?b] => destruct (Z.leb_spec a b)
  | |- context [Z.eqb ?a ?b] => destruct (Z.eqb_spec a b)
  | H : context [Z.ltb ?a ?b] |- _ => destruct (Z.ltb_spec a b)
  | H : context [Z.leb ?a ?b] |- _ => destruct (Z.leb_spec a b)
  | H : context [Z.eqb ?a ?b] |- _ => destruct (Z.eqb_spec a b)
  end.

(** ** Records updated in place *)

(** [l[i] = f(l[i])]. *)
Definition upd_at {A} (f : A -> A) (i : Z) (l : list A) : list A := alter f (Z.to_nat i) l.

Lemma length_upd_at {A} (f : A -> A) i l : length (upd_at f i l) = length l.
Proof. apply length_alter. Qed.

Lemma at_upd_eq {A} (f : A -> A) i l x : at_ l i = Some x -> at_ (upd_at f i l) i = Some (f x).
Proof.
  rewrite !at_Some. intros [H0 H]. split; [done|]. unfold upd_at.
  rewrite list_lookup_alter_eq. by rewrite H.
Qed.

Lemma at_upd_ne {A} (f : A -> A) i j l :
  i <> j -> 0 <= i -> at_ (upd_at f i l) j = at_ l j.
Proof.
  intros Hne Hi. unfold at_, upd_at. destruct (Z.ltb_spec j 0); [done|].
  apply list_lookup_alter_ne. lia.
Qed.

Lemma fmap_upd_at {A B} (g : A -> B) (f : A -> A) i l :
  (forall x, at_ l i = Some x -> g (f x) = g x) -> 0 <= i -> g <$> upd_at f i l = g <$> l.
Proof.
  intros H Hi. apply list_eq. intros n. rewrite !list_lookup_fmap. unfold upd_at.
  destruct (decide (Z.to_nat i = n)) as [<-|Hne].
  - rewrite list_lookup_alter_eq. destruct (l !! Z.to_nat i) as [x|] eqn:E; [|done].
    cbn. f_equal. apply H. by apply at_Some.
  - by rewrite list_lookup_alter_ne.
Qed.

Lemma at_fmap {A B} (g : A -> B) l i : at_ (g <$> l) i = g <$> at_ l i.
Proof. unfold at_. destruct (i <? 0); [done|]. apply list_lookup_fmap. Qed.

Lemma NoDup_snoc {A} (l : list A) x : NoDup l -> x ∉ l -> NoDup (l ++ [x]).
Proof.
  intros Hl Hx. apply list.NoDup_app. split_and!; [done| |apply NoDup_singleton].
  intros y Hy Hy2%list_elem_of_singleton. by subst.
Qed.

Lemma at_split {A} (l : list A) i x :
  at_ l i = Some x -> exists l1 l2, l = l1 ++ x :: l2 /\ i = Z.of_nat (length l1).
Proof.
  intros [Hi H]%at_Some. exists (take (Z.to_nat i) l), (drop (S (Z.to_nat i)) l).
  split; [by symmetry; apply take_drop_middle|].
  apply lookup_lt_Some in H. rewrite length_take. lia.
Qed.

Lemma upd_at_app {A} (f : A -> A) l1 x l2 :
  upd_at f (Z.of_nat (length l1)) (l1 ++ x :: l2) = l1 ++ f x :: l2.
Proof. unfold upd_at. rewrite Nat2Z.id. induction l1 as [|y l1 IH]; cbn; [done|]. by f_equal. Qed.

Lemma filter_all {A} (P : A -> Prop) `{forall x, Decision (P x)} (l : list A) :
  (forall x, x ∈ l -> P x) -> filter P l = l.
Proof.
  induction l as [|x l IH]; intros Hl; [done|]. rewrite filter_cons_True by (apply Hl; by left).
  f_equal. apply IH. intros y Hy. apply Hl. by right.
Qed.

Lemma NoDup_fmap_filter {A B} (f : A -> B) (P : A -> Prop) `{forall x, Decision (P x)} (l : list A) :
  NoDup (f <$> l) -> NoDup (f <$> filter P l).
Proof.
  induction l as [|x l IH]; [done|]. rewrite fmap_cons. intros [Hx Hl]%list.NoDup_cons.
  destruct (decide (P x)); [rewrite filter_cons_True by done|rewrite filter_cons_False by done; auto].
  rewrite fmap_cons. apply list.NoDup_cons. split; [|auto]. intros Hin. apply Hx.
  apply list_elem_of_fmap in Hin as (y & -> & Hy). apply list_elem_of_fmap_2.
  by apply list_elem_of_filter in Hy as [_ Hy].
Qed.

(** A property kept by every step of a loop over a list. *)
Lemma foldl_inv {A B} (P : A -> Prop) (f : A -> B -> A) l a :
  P a -> (forall a b, b ∈ l -> P a -> P (f a b)) -> P (foldl f a l).
Proof.
  revert a. induction l as [|b l IH]; intros a Ha Hf; [done|]. apply IH; [apply Hf; [by left|done]|].
  intros a' b' Hb. apply Hf. by right.
Qed.

(** ** Runs *)

(** Status codes and final state of a sequence of operations. *)
Definition run_steps {S O : Type} (step : S -> O -> Z * S) (s : S) (ops : list O) : list Z * S :=
  foldl (fun acc op => let '(rc, s') := step acc.2 op in (acc.1 ++ [rc], s')%list) ([], s) ops.

Lemma run_steps_snoc {S O} (step : S -> O -> Z * S) s ops op :
  run_steps step s (ops ++ [op])%list =
  let '(rcs, s1) := run_steps step s ops in let '(rc, s2) := step s1 op in ((rcs ++ [rc])%list, s2).
Proof. unfold run_steps. rewrite foldl_app. cbn. by destruct (foldl _ _ ops). Qed.
