(* ===== verification/Hash.v ===== *)
(** * FNV-1a hashing and the slot functions built on it

    [fnv1a_64] is [miku_fnv1a_64] of foundation/miku_hash.c over a C string
    and [strlen]; the same loop is [fnv1a] of foundation/miku_hashmap.c.  Every
    index table of the server takes its start slot from it with a
    power-of-two mask; [mask_slot] and [pair_slot_of] are the two shapes. *)
From S2P Require Import Prelude.

Definition fnv_offset : Z := 14695981039346656037.
Definition fnv_prime : Z := 1099511628211.

Definition byte_of (c : Ascii.ascii) : Z := Z.of_N (Ascii.N_of_ascii c).

Fixpoint fnv1a_loop (s : string) (h : Z) : Z :=
  match s with
  | EmptyString => h
  | String c s' => fnv1a_loop s' (u64 (Z.lxor h (byte_of c) * fnv_prime))
  end.

Definition fnv1a_64 (s : string) : Z := fnv1a_loop s fnv_offset.

(** [(uint32_t)(hash & (SIZE - 1))]. *)
Definition mask_slot (size h : Z) : Z := u32 (Z.land h (size - 1)).

Definition golden : Z := 11400714819323198485. (* 0x9e3779b97f4a7c15 *)

(** [(uint32_t)((a ^ (b * 0x9e3779b97f4a7c15ULL)) & (SIZE - 1))]. *)
Definition pair_slot_of (size a b : Z) : Z :=
  mask_slot size (Z.lxor a (u64 (b * golden))).

Lemma mask_slot_bound k h : 0 <= k <= 32 -> 0 <= mask_slot (2 ^ k) h < 2 ^ k.
Proof.
  intros Hk. unfold mask_slot. rewrite land_mask by lia.
  pose proof (Z.mod_pos_bound h (2 ^ k)) as B.
  assert (0 < 2 ^ k) by (apply Z.pow_pos_nonneg; lia).
  assert (2 ^ k <= 2 ^ 32) by (apply Z.pow_le_mono_r; lia).
  rewrite uwrap_small; lia.
Qed.

Example fnv1a_64_empty : fnv1a_64 "" = fnv_offset.
Proof. reflexivity. Qed.
(* The published FNV-1a 64 test vector for "a". *)
Example fnv1a_64_a : fnv1a_64 "a" = 12638187200555641996.
Proof. reflexivity. Qed.
