(* ===== verification/ProbeIndex.v ===== *)
(** * Open addressing: linear probing in power-of-two tables of indices

    Most components of the server keep an array of records and find a record
    through a table of [int]/[int16_t] cells, -1 when empty and otherwise the
    index of a record, scanned from a hash slot with
    [idx = (idx + 1) & (SIZE - 1)] for at most SIZE steps.  The loop is written
    out again in every component; [probe] is that loop, and the components'
    insert, find and find-or-create functions are case analyses of its result.

    The theory: [indexed] is the no-gap invariant of a table, [kindex] its
    instance for a list of keys, and [kfind_spec] says that a hashed lookup
    returns what a linear scan of the records returns. *)
From S2P Require Import Prelude Hash.

(** A table size that is a power of two, small enough for 32-bit slots. *)
Class Pow2 (sz : Z) : Prop := pow2 : exists k, 0 <= k <= 31 /\ sz = 2 ^ k.

(** [(idx + 1) & (SIZE - 1)]. *)
Definition next_slot (sz idx : Z) : Z := Z.land (idx + 1) (sz - 1).

(** What a scan of the table finds: an occupied cell whose entry matches,
    the first empty cell, or neither within [fuel] cells. *)
Inductive probe_result := Found (idx ei : Z) | Vacant (idx : Z) | Exhausted.

Fixpoint probe (sz : Z) (fuel : nat) (t : gmap Z Z) (m : Z -> bool) (idx : Z) : probe_result :=
  match fuel with
  | O => Exhausted
  | S fuel' =>
      let ei := t.[idx] in
      if ei <? 0 then Vacant idx
      else if m ei then Found idx ei
      else probe sz fuel' t m (next_slot sz idx)
  end.

(** The whole loop, [for (n = 0; n < SIZE; n++)]. *)
Definition scan (sz : Z) (t : gmap Z Z) (m : Z -> bool) (h : Z) : probe_result :=
  probe sz (Z.to_nat sz) t m h.

(** The lookup loops return the index they find, -1 otherwise. *)
Definition scan_find (sz : Z) (t : gmap Z Z) (m : Z -> bool) (h : Z) : Z :=
  match scan sz t m h with Found _ ei => ei | _ => -1 end.

(** The insertion loops store [v] in the first empty cell. *)
Definition scan_insert (sz : Z) (t : gmap Z Z) (h v : Z) : gmap Z Z :=
  match scan sz t (fun _ => false) h with Vacant p => <[p:=v]> t | _ => t end.

(** The cell reached after [d] steps from slot [h]. *)
Definition slot_at (sz h d : Z) : Z := (h + d) mod sz.

(** Cells [d .. e) of the probe sequence of [h] are occupied and not matched. *)
Definition passed (sz : Z) (t : gmap Z Z) (m : Z -> bool) (h d e : Z) : Prop :=
  forall x, d <= x < e -> 0 <= t.[slot_at sz h x] /\ m t.[slot_at sz h x] = false.

(** The invariant of a table that indexes the live entries: every used cell
    holds a live index, no index is held twice, and the cells from an entry's
    home slot to its cell have no gap. *)
Record indexed (sz : Z) (t : gmap Z Z) (home : Z -> Z) (live : Z -> Prop) : Prop := {
  ix_cell : forall p v, t !! p = Some v -> 0 <= p < sz /\ 0 <= v /\ live v;
  ix_reach : forall v, live v -> exists d, 0 <= d < sz /\
      t !! slot_at sz (home v) d = Some v /\
      forall x, 0 <= x < d -> is_Some (t !! slot_at sz (home v) x);
  ix_inj : forall p q v, t !! p = Some v -> t !! q = Some v -> p = q }.

Section Probe.
Context {sz : Z} {Hsz : Pow2 sz}.
Implicit Types (t : gmap Z Z) (m : Z -> bool) (h d p v : Z).

Lemma pow2_pos : 0 < sz.
Proof. destruct Hsz as (k & Hk & ->). apply Z.pow_pos_nonneg; lia. Qed.

Lemma slot_at_bound h d : 0 <= slot_at sz h d < sz.
Proof. apply Z.mod_pos_bound, pow2_pos. Qed.

Lemma slot_at_0 h : 0 <= h < sz -> slot_at sz h 0 = h.
Proof. intros H. unfold slot_at. rewrite Z.add_0_r. by apply Z.mod_small. Qed.

Lemma next_slot_at h d : next_slot sz (slot_at sz h d) = slot_at sz h (d + 1).
Proof.
  pose proof pow2_pos. unfold next_slot, slot_at.
  destruct Hsz as (k & Hk & Ek). rewrite Ek, land_mask by lia. rewrite <- Ek.
  rewrite Z.add_mod_idemp_l by lia. f_equal. lia.
Qed.

Lemma slot_at_inv h p : 0 <= p < sz -> exists d, 0 <= d < sz /\ slot_at sz h d = p.
Proof.
  intros Hp. exists ((p - h) mod sz). split; [apply Z.mod_pos_bound, pow2_pos|].
  unfold slot_at. pose proof pow2_pos. rewrite Z.add_mod_idemp_r by lia.
  replace (h + (p - h)) with p by lia. by apply Z.mod_small.
Qed.

Lemma probe_run fuel t m h d :
  match probe sz fuel t m (slot_at sz h d) with
  | Found p v => exists e, d <= e < d + Z.of_nat fuel /\ p = slot_at sz h e /\
      t.[p] = v /\ 0 <= v /\ m v = true /\ passed sz t m h d e
  | Vacant p => exists e, d <= e < d + Z.of_nat fuel /\ p = slot_at sz h e /\
      t.[p] < 0 /\ passed sz t m h d e
  | Exhausted => passed sz t m h d (d + Z.of_nat fuel)
  end.
Proof.
  revert d. induction fuel as [|fuel IH]; intros d; cbn [probe].
  { intros x Hx. lia. }
  destruct (Z.ltb_spec t.[slot_at sz h d] 0) as [Hv|Hv].
  { exists d. split_and!; try done; try lia. intros x Hx. lia. }
  destruct (m t.[slot_at sz h d]) eqn:Em.
  { exists d. split_and!; try done; try lia. intros x Hx. lia. }
  rewrite next_slot_at. specialize (IH (d + 1)).
  assert (forall e, passed sz t m h (d + 1) e -> passed sz t m h d e) as Hp.
  { intros e He x Hx. destruct (decide (x = d)) as [->|]; [done|]. apply He. lia. }
  destruct (probe _ _ _ _ _) as [p v|p|].
  - destruct IH as (e & ? & ? & ? & ? & ? & ?). exists e. split_and!; auto; lia.
  - destruct IH as (e & ? & ? & ? & ?). exists e. split_and!; auto; lia.
  - apply Hp. intros x Hx. apply IH. lia.
Qed.

Lemma scan_run t m h :
  0 <= h < sz ->
  match scan sz t m h with
  | Found p v => exists e, 0 <= e < sz /\ p = slot_at sz h e /\
      t.[p] = v /\ 0 <= v /\ m v = true /\ passed sz t m h 0 e
  | Vacant p => exists e, 0 <= e < sz /\ p = slot_at sz h e /\
      t.[p] < 0 /\ passed sz t m h 0 e
  | Exhausted => passed sz t m h 0 sz
  end.
Proof.
  intros Hh. pose proof (probe_run (Z.to_nat sz) t m h 0) as R.
  rewrite slot_at_0 in R by done. pose proof pow2_pos.
  rewrite Z2Nat.id, Z.add_0_l in R by lia. exact R.
Qed.

Lemma scan_ext t m m' h : (forall v, m v = m' v) -> scan sz t m h = scan sz t m' h.
Proof.
  intros E. unfold scan. generalize (Z.to_nat sz) as fuel. intros fuel.
  revert h. induction fuel as [|f IH]; intros h; [done|]. cbn. rewrite E.
  rewrite IH. done.
Qed.

(** The test only matters on the indices the table holds. *)
Lemma scan_ext_cells t m m' h :
  (forall p v, t !! p = Some v -> m v = m' v) -> scan sz t m h = scan sz t m' h.
Proof.
  intros E. unfold scan. generalize (Z.to_nat sz) as fuel. intros fuel.
  revert h. induction fuel as [|f IH]; intros h; [done|]. cbn.
  destruct (Z.ltb_spec t.[h] 0) as [|Hp]; [done|]. rewrite IH.
  destruct (t !! h) as [v|] eqn:Ev; unfold cell in Hp |- *; rewrite Ev in Hp |- *; cbn in Hp |- *; [|lia].
  by rewrite (E h v).
Qed.

(** A table with fewer used cells than SIZE always has a vacant cell to find. *)
Lemma scan_room t m h : 0 <= h < sz -> Z.of_nat (size t) < sz -> scan sz t m h <> Exhausted.
Proof.
  intros Hh Hroom E. pose proof (scan_run t m h Hh) as R. rewrite E in R.
  assert ((list_to_set (seqZ 0 sz) : gset Z) ⊆ dom t) as Hsub.
  { intros p Hp. apply elem_of_list_to_set, elem_of_seqZ in Hp.
    destruct (slot_at_inv h p) as (d & Hd & <-); [lia|].
    destruct (R d) as [Hc _]; [lia|]. unfold cell in Hc. apply elem_of_dom.
    destruct (t !! slot_at sz h d); [done|cbn in Hc; lia]. }
  apply subseteq_size in Hsub.
  rewrite size_list_to_set in Hsub by apply NoDup_seqZ.
  rewrite length_seqZ in Hsub. rewrite size_dom in Hsub. lia.
Qed.

Lemma indexed_empty home : indexed sz ∅ home (fun _ => False).
Proof.
  split.
  - intros p v H. by rewrite lookup_empty in H.
  - done.
  - intros p q v H. by rewrite lookup_empty in H.
Qed.

Lemma indexed_ext t home home' live live' :
  (forall v, live v <-> live' v) -> (forall v, live v -> home v = home' v) ->
  indexed sz t home live -> indexed sz t home' live'.
Proof.
  intros HL HH [H1 H2 H3]. split; [|
    intros v Hv; rewrite <- HH by (by apply HL); apply H2; by apply HL | done].
  intros p v Hp. destruct (H1 p v Hp) as (? & ? & ?). split_and!; try lia. by apply HL.
Qed.

Section Inv.
Context {t : gmap Z Z} {home : Z -> Z} {live : Z -> Prop} (I : indexed sz t home live).

Lemma ix_used p : 0 <= t.[p] <-> is_Some (t !! p).
Proof using I.
  unfold cell. destruct (t !! p) as [v|] eqn:E; cbn.
  - apply I in E. split; [eauto|lia].
  - split; [lia|intros [? ?]; done].
Qed.

Lemma ix_vacant p : t.[p] < 0 <-> t !! p = None.
Proof using I.
  pose proof (ix_used p) as U. destruct (t !! p) as [v|] eqn:E.
  - split; [|done]. assert (0 <= t.[p]) by (apply U; eauto). lia.
  - unfold cell. by rewrite E.
Qed.

Lemma ix_cell_Some p v : 0 <= v -> t.[p] = v -> t !! p = Some v.
Proof using I.
  intros Hv E. assert (is_Some (t !! p)) as [w Hw] by (apply ix_used; lia).
  unfold cell in E. rewrite Hw in E. cbn in E. by subst.
Qed.

(** A match found by the scan is a live entry that satisfies the test. *)
Lemma scan_found m h p v :
  0 <= h < sz -> scan sz t m h = Found p v -> t !! p = Some v /\ live v /\ m v = true.
Proof using I Hsz.
  intros Hh E. pose proof (scan_run t m h Hh) as R. rewrite E in R.
  destruct R as (e & _ & -> & Hv & H0 & Hm & _).
  assert (t !! slot_at sz h e = Some v) as L by (by apply ix_cell_Some).
  split_and!; try done. by apply I in L as (_ & _ & ?).
Qed.

(** The scan finds every live entry it is asked for: it stops at an entry
    that satisfies the test before an empty cell. *)
Lemma scan_reaches m h v :
  0 <= h < sz -> live v -> home v = h -> m v = true ->
  exists p w, scan sz t m h = Found p w.
Proof using I Hsz.
  intros Hh Hl Eh Hm. destruct (ix_reach _ _ _ _ I v Hl) as (d & Hd & Hv & Hgap). rewrite Eh in *.
  pose proof (scan_run t m h Hh) as R. destruct (scan sz t m h) as [p w|p|]; [eauto|exfalso..].
  - destruct R as (e & He & -> & Hneg & Hp). apply ix_vacant in Hneg.
    destruct (Z.lt_trichotomy e d) as [C|[->|C]].
    + destruct (Hgap e ltac:(lia)) as [? Hx]. congruence.
    + congruence.
    + destruct (Hp d ltac:(lia)) as [_ Hx]. unfold cell in Hx. rewrite Hv in Hx. cbn in Hx. congruence.
  - destruct (R d ltac:(lia)) as [_ Hx]. unfold cell in Hx. rewrite Hv in Hx. cbn in Hx. congruence.
Qed.

Lemma scan_hit m h v :
  0 <= h < sz -> live v -> home v = h -> m v = true ->
  (forall w, live w -> m w = true -> w = v) ->
  exists p, scan sz t m h = Found p v /\ t !! p = Some v.
Proof using I Hsz.
  intros Hh Hl Eh Hm Huniq. destruct (scan_reaches m h v) as (p & w & E); try done.
  destruct (scan_found m h p w Hh E) as (? & ? & ?).
  exists p. assert (w = v) as -> by auto. done.
Qed.

Lemma scan_miss m h :
  0 <= h < sz -> Z.of_nat (size t) < sz -> (forall w, live w -> m w = false) ->
  exists p, scan sz t m h = Vacant p.
Proof using I Hsz.
  intros Hh Hroom Hno. destruct (scan sz t m h) as [p v|p|] eqn:E; [|by eauto|].
  - apply scan_found in E as (_ & Hl & Hm); [|done]. by rewrite Hno in Hm.
  - by apply scan_room in E.
Qed.

Lemma indexed_vals_bound n : (forall v, live v -> 0 <= v < Z.of_nat n) -> (size t <= n)%nat.
Proof using I.
  intros HL. rewrite <- length_map_to_list, <- (length_fmap snd).
  rewrite <- (Nat2Z.id n), <- (length_seqZ 0 (Z.of_nat n)).
  apply submseteq_length, NoDup_submseteq.
  - apply NoDup_fmap_2_strong; [|apply NoDup_map_to_list].
    intros [p v] [q w] Hp Hq E. cbn in E. subst.
    apply elem_of_map_to_list in Hp, Hq. f_equal. by eapply I.
  - intros v. rewrite elem_of_seqZ, list_elem_of_fmap.
    intros ([p w] & -> & Hp). apply elem_of_map_to_list, I in Hp as (_ & _ & Hp).
    apply HL in Hp. cbn. lia.
Qed.

(** The table has as many used cells as there are live entries. *)
Lemma indexed_size n :
  (forall v, live v <-> 0 <= v < Z.of_nat n) -> size t = n.
Proof using I.
  intros HL. rewrite <- length_map_to_list, <- (length_fmap snd).
  rewrite <- (Nat2Z.id n), <- (length_seqZ 0 (Z.of_nat n)). apply Permutation_length.
  apply NoDup_Permutation; [|apply NoDup_seqZ|].
  - apply NoDup_fmap_2_strong; [|apply NoDup_map_to_list].
    intros [p v] [q w] Hp Hq E. cbn in E. subst.
    apply elem_of_map_to_list in Hp, Hq. f_equal. by eapply I.
  - intros v. rewrite elem_of_seqZ, list_elem_of_fmap. split.
    + intros ([p w] & -> & Hp). apply elem_of_map_to_list, I in Hp as (_ & _ & Hp).
      apply HL in Hp. cbn. lia.
    + intros Hv. destruct (ix_reach _ _ _ _ I v) as (d & _ & Ed & _); [apply HL; lia|].
      exists (slot_at sz (home v) d, v). split; [done|]. by apply elem_of_map_to_list.
Qed.

Lemma indexed_insert m p v :
  0 <= home v < sz -> scan sz t m (home v) = Vacant p -> ~ live v -> 0 <= v ->
  t !! p = None /\ indexed sz (<[p:=v]> t) home (fun w => live w \/ w = v).
Proof using I Hsz.
  intros Hh E Hnl Hv. pose proof (scan_run t m _ Hh) as R. rewrite E in R.
  destruct R as (e & He & -> & Hneg & Hp). apply ix_vacant in Hneg. split; [done|].
  set (q := slot_at sz (home v) e) in *.
  destruct I as [I1 I2 I3]. split.
  - intros p w. rewrite lookup_insert_Some. intros [[<- <-]|[Hne Hw]].
    + pose proof (slot_at_bound (home v) e). auto.
    + apply I1 in Hw as (? & ? & ?). auto.
  - intros w [Hw| ->].
    + destruct (I2 w Hw) as (d & Hd & Hwd & Hg). exists d. split; [done|].
      assert (forall s, is_Some (t !! s) -> is_Some (<[q:=v]> t !! s)) as Hk.
      { intros s Hs. rewrite lookup_insert_is_Some'. by right. }
      split; [|intros x Hx; by apply Hk, Hg].
      rewrite lookup_insert_ne; [done|]. intros Eq. rewrite <- Eq in Hwd. congruence.
    + exists e. split; [done|]. split; [by rewrite lookup_insert_eq|].
      intros x Hx. rewrite lookup_insert_is_Some'. right. apply ix_used. by apply Hp.
  - intros p1 p2 w. rewrite !lookup_insert_Some.
    intros [[<- <-]|[? H1]] [[<- E2]|[? H2]]; subst; try done.
    + exfalso. apply Hnl. by apply I1 in H2 as (_ & _ & ?).
    + exfalso. apply Hnl. by apply I1 in H1 as (_ & _ & ?).
    + by eapply I3.
Qed.

(** Overwriting the cell of entry [w] with entry [v] of the same home slot. *)
Lemma indexed_replace m p w v :
  0 <= home v < sz -> scan sz t m (home v) = Found p w -> ~ live v -> 0 <= v ->
  indexed sz (<[p:=v]> t) home (fun x => (live x /\ x <> w) \/ x = v).
Proof using I Hsz.
  intros Hh E Hnl Hv. destruct (scan_found _ _ _ _ Hh E) as (Hpw & Hlw & _).
  pose proof (scan_run t m _ Hh) as R. rewrite E in R.
  destruct R as (e & He & -> & _ & _ & _ & Hp). set (q := slot_at sz (home v) e) in *.
  assert (forall s, is_Some (t !! s) -> is_Some (<[q:=v]> t !! s)) as Hk.
  { intros s Hs. rewrite lookup_insert_is_Some'. by right. }
  destruct I as [I1 I2 I3]. split.
  - intros p x. rewrite lookup_insert_Some. intros [[<- <-]|[Hne Hx]].
    + pose proof (slot_at_bound (home v) e). auto.
    + pose proof (I1 _ _ Hx) as (? & ? & ?). split_and!; auto; try lia. left. split; [done|].
      intros ->. apply Hne. by eapply I3.
  - intros x [[Hx Hxw]| ->].
    + destruct (I2 x Hx) as (d & Hd & Hxd & Hg). exists d. split; [done|].
      split; [|intros y Hy; by apply Hk, Hg].
      rewrite lookup_insert_ne; [done|]. intros Eq. rewrite <- Eq in Hxd. congruence.
    + exists e. split; [done|]. split; [by rewrite lookup_insert_eq|].
      intros x Hx. apply Hk, ix_used. by apply Hp.
  - intros p1 p2 x. rewrite !lookup_insert_Some.
    intros [[<- <-]|[? H1]] [[<- E2]|[? H2]]; subst; try done.
    + exfalso. apply Hnl. by apply I1 in H2 as (_ & _ & ?).
    + exfalso. apply Hnl. by apply I1 in H1 as (_ & _ & ?).
    + by eapply I3.
Qed.
End Inv.
End Probe.

(** ** Tables that index a list of keys *)

Section Keyed.
Context {sz : Z} {Hsz : Pow2 sz} {K : Type} {HK : EqDecision K}.
Context (hash : K -> Z) (hash_bound : forall x, 0 <= hash x < sz).
Implicit Types (ks : list K) (x : K) (t : gmap Z Z).

(** The test of a lookup loop: the record at the cell's index has key [x]. *)
Definition kmatch ks x (ei : Z) : bool :=
  match at_ ks ei with Some y => bool_decide (y = x) | None => false end.

Definition khome ks (v : Z) : Z :=
  match at_ ks v with Some y => hash y | None => 0 end.

(** Table [t] indexes the records whose keys are [ks]. *)
Record kindex t ks : Prop := {
  ki_ix : indexed sz t (khome ks) (fun v => 0 <= v < Z.of_nat (length ks));
  ki_size : size t = length ks }.

Lemma khome_bound ks v : 0 <= khome ks v < sz.
Proof using hash_bound Hsz.
  unfold khome. destruct (at_ ks v); [done|]. pose proof (pow2_pos (sz:=sz)). lia.
Qed.

Lemma kmatch_true ks x v : kmatch ks x v = true <-> at_ ks v = Some x.
Proof.
  unfold kmatch. destruct (at_ ks v) as [y|]; [|done].
  rewrite bool_decide_eq_true. naive_solver.
Qed.

Lemma kindex_empty : kindex ∅ [].
Proof.
  split; [|done]. eapply indexed_ext; [| |apply (indexed_empty (khome []))]; cbn; [|done].
  intros v. lia.
Qed.

Lemma kindex_of_indexed t ks :
  indexed sz t (khome ks) (fun v => 0 <= v < Z.of_nat (length ks)) -> kindex t ks.
Proof. intros I. split; [done|]. by apply (indexed_size I). Qed.

(** The scan misses a key that is not there, and stops at an empty cell. *)
Lemma kscan_miss t ks x :
  kindex t ks -> x ∉ ks -> Z.of_nat (length ks) < sz ->
  exists p, scan sz t (kmatch ks x) (hash x) = Vacant p.
Proof using hash_bound Hsz.
  intros [I S] Hx Hroom. apply (scan_miss I); [done| |].
  - rewrite S. done.
  - intros w _. destruct (kmatch ks x w) eqn:E; [|done].
    apply kmatch_true, at_Some in E as [_ E]. exfalso. apply Hx. by eapply list_elem_of_lookup_2.
Qed.

(** The scan finds the record of a key that is there. *)
Lemma kscan_hit t ks x i :
  kindex t ks -> NoDup ks -> at_ ks i = Some x ->
  exists p, scan sz t (kmatch ks x) (hash x) = Found p i.
Proof using hash_bound Hsz.
  intros [I S] Hnd Hi. edestruct (scan_hit I (kmatch ks x) (hash x) i) as (p & E & _); eauto.
  - by eapply at_lt.
  - unfold khome. by rewrite Hi.
  - by apply kmatch_true.
  - intros w _ Hw. apply kmatch_true in Hw. apply at_Some in Hw as [? Hw], Hi as [? Hi].
    assert (Z.to_nat w = Z.to_nat i) by (eapply NoDup_lookup; eauto). lia.
Qed.

(** Without distinct keys, the scan still finds some record of the key. *)
Lemma kscan_found t ks x p i :
  kindex t ks -> scan sz t (kmatch ks x) (hash x) = Found p i -> at_ ks i = Some x.
Proof using hash_bound Hsz.
  intros [I S] E. apply (scan_found I) in E as (_ & _ & E); [|done]. by apply kmatch_true.
Qed.

Lemma kscan_some t ks x :
  kindex t ks -> x ∈ ks -> exists p i, scan sz t (kmatch ks x) (hash x) = Found p i.
Proof using hash_bound Hsz.
  intros [I S] Hx. apply list_elem_of_lookup in Hx as [n Hn].
  rewrite <- at_of_nat in Hn.
  apply (scan_reaches I) with (v := Z.of_nat n); [done| | |].
  - by eapply at_lt.
  - unfold khome. by rewrite Hn.
  - by apply kmatch_true.
Qed.

(** Equivalence of the hashed lookup with a linear scan of the records. *)
Lemma kfind_spec t ks x :
  kindex t ks -> NoDup ks ->
  scan_find sz t (kmatch ks x) (hash x) =
  match list_find (fun y => y = x) ks with Some (i, _) => Z.of_nat i | None => -1 end.
Proof using hash_bound Hsz.
  intros I Hnd. destruct (list_find _ ks) as [[i y]|] eqn:E.
  - apply list_find_Some in E as (E & -> & _). rewrite <- at_of_nat in E.
    destruct (kscan_hit t ks x (Z.of_nat i) I Hnd E) as [p F].
    unfold scan_find. by rewrite F.
  - unfold scan_find. destruct (scan _ _ _ _) as [p i|p|] eqn:F; try done.
    apply kscan_found in F; [|done]. apply at_Some in F as [_ F].
    apply list_find_None in E. by eapply Forall_lookup_1 in E.
Qed.

Lemma kfind_nonneg t ks x :
  kindex t ks -> (0 <= scan_find sz t (kmatch ks x) (hash x) <-> x ∈ ks).
Proof using hash_bound Hsz.
  intros I. unfold scan_find. split.
  - destruct (scan _ _ _ _) as [p i|p|] eqn:F; [|lia..]. intros _.
    apply kscan_found in F; [|done]. apply at_Some in F as [_ F]. by eapply list_elem_of_lookup_2.
  - intros Hx. destruct (kscan_some t ks x I Hx) as (p & i & F). rewrite F.
    apply kscan_found in F; [|done]. apply at_lt in F. lia.
Qed.

Lemma kfind_hit t ks x i :
  kindex t ks -> NoDup ks -> at_ ks i = Some x ->
  scan_find sz t (kmatch ks x) (hash x) = i.
Proof using hash_bound Hsz.
  intros I Hnd Hi. destruct (kscan_hit t ks x i I Hnd Hi) as [p E].
  unfold scan_find. by rewrite E.
Qed.

Lemma kfind_at t ks x :
  kindex t ks -> 0 <= scan_find sz t (kmatch ks x) (hash x) ->
  at_ ks (scan_find sz t (kmatch ks x) (hash x)) = Some x.
Proof using hash_bound Hsz.
  intros I. unfold scan_find. destruct (scan _ _ _ _) as [p i|p|] eqn:F; [|lia..].
  intros _. by eapply kscan_found.
Qed.

(** Storing the next index in the cell a scan stopped at. *)
Lemma kindex_snoc t ks x m p :
  kindex t ks -> scan sz t m (hash x) = Vacant p ->
  kindex (<[p:=Z.of_nat (length ks)]> t) (ks ++ [x]).
Proof using hash_bound Hsz.
  intros [I S] E.
  assert (khome (ks ++ [x]) (Z.of_nat (length ks)) = hash x) as Eh by (unfold khome; by rewrite at_snoc).
  assert (indexed sz t (khome (ks ++ [x])) (fun v => 0 <= v < Z.of_nat (length ks))) as I'.
  { eapply indexed_ext; [| |exact I]; [done|]. intros v [? ?]. unfold khome. by rewrite at_app_l by lia. }
  rewrite <- Eh in E. destruct (indexed_insert I' m p _ (khome_bound _ _) E) as [Hn I2]; [lia|lia|].
  split.
  - eapply indexed_ext; [| |exact I2]; [|done]. intros v. rewrite length_app. cbn. lia.
  - rewrite map_size_insert_None, length_app by done. cbn. lia.
Qed.

Lemma kindex_insert t ks x :
  kindex t ks -> Z.of_nat (length ks) < sz ->
  kindex (scan_insert sz t (hash x) (Z.of_nat (length ks))) (ks ++ [x]).
Proof using hash_bound Hsz.
  intros I Hroom. unfold scan_insert.
  destruct (scan_miss (ki_ix _ _ I) (fun _ => false) (hash x)) as [p E]; try done.
  - by rewrite (ki_size _ _ I).
  - rewrite E. by eapply kindex_snoc.
Qed.
End Keyed.

(** ** Loops over an index range *)

(** [for (i = 0; i < n; i++) s = f(s, i)]. *)
Definition for_range {S : Type} (n : Z) (f : S -> Z -> S) (s : S) : S :=
  foldl f s (seqZ 0 n).

Lemma for_range_ind {S} (P : Z -> S -> Prop) n f s :
  0 <= n -> P 0 s -> (forall i s, 0 <= i < n -> P i s -> P (i + 1) (f s i)) ->
  P n (for_range n f s).
Proof.
  intros Hn H0 Hstep. unfold for_range.
  assert (forall m : nat, Z.of_nat m <= n -> P (Z.of_nat m) (foldl f s (seqZ 0 (Z.of_nat m)))) as H.
  { induction m as [|m IH]; intros Hm; [done|].
    rewrite Nat2Z.inj_succ, <- Z.add_1_r. rewrite seqZ_app by lia. rewrite foldl_app. cbn.
    apply Hstep; [lia|]. apply IH. lia. }
  specialize (H (Z.to_nat n)). rewrite Z2Nat.id in H by lia. apply H. lia.
Qed.

(** A loop that enters the records [0 .. n) one after the other fills an empty table. *)
Lemma kindex_fill {sz} `{Pow2 sz} {K S} `{EqDecision K} (hash : K -> Z) (P : S -> Prop) (tab : S -> gmap Z Z) f ks s :
  (forall x, 0 <= hash x < sz) -> Z.of_nat (length ks) <= sz -> P s -> tab s = ∅ ->
  (forall s i x, P s -> at_ ks i = Some x -> P (f s i) /\ tab (f s i) = scan_insert sz (tab s) (hash x) i) ->
  P (for_range (Z.of_nat (length ks)) f s) /\
  kindex (sz:=sz) hash (tab (for_range (Z.of_nat (length ks)) f s)) ks.
Proof.
  intros Hh Hl Hs He Hf.
  assert (P (for_range (Z.of_nat (length ks)) f s) /\
    kindex (sz:=sz) hash (tab (for_range (Z.of_nat (length ks)) f s)) (take (Z.to_nat (Z.of_nat (length ks))) ks)) as R.
  { apply (for_range_ind (fun i s => P s /\ kindex (sz:=sz) hash (tab s) (take (Z.to_nat i) ks))); [lia| |].
    - split; [done|]. rewrite He. apply kindex_empty.
    - intros i s' Hi [Ps I]. destruct (at_is_Some ks i Hi) as [x Hx]. destruct (Hf s' i x Ps Hx) as [Ps' ->].
      split; [done|]. apply at_Some in Hx as [_ Hx]. replace (Z.to_nat (i + 1)) with (Datatypes.S (Z.to_nat i)) by lia.
      rewrite (take_S_r _ _ x) by done. pose proof (kindex_insert hash Hh _ _ x I) as R.
      rewrite length_take, Nat.min_l, Z2Nat.id in R by lia. apply R. lia. }
  by rewrite Nat2Z.id, firstn_all in R.
Qed.

(** Conversion compares scans by their arguments before it runs them. *)
#[global] Strategy 1000 [scan].
