(* ===== verification/ProbeRemove.v ===== *)
(** * Removal from an open-addressing table with cluster repair

    Two components delete a key from their table without tombstones
    ([hash_remove_key] of protocol/miku_ratelimit.c, [id_hash_del] of
    storage/miku_msg_store.c): the cell is emptied, and every entry of the rest
    of the cluster is taken out and inserted again, until an empty cell.
    [scan_remove_ok] says that the table then indexes exactly the other
    entries. *)
From S2P Require Import Prelude ProbeIndex.

(** [while (t[i] >= 0) { e = t[i]; t[i] = -1; insert(e); i = next(i); }]. *)
Fixpoint repair (sz : Z) (home : Z -> Z) (fuel : nat) (t : gmap Z Z) (i : Z) : gmap Z Z :=
  match fuel with
  | O => t
  | S fuel' =>
      let e := t.[i] in
      if e <? 0 then t
      else repair sz home fuel' (scan_insert sz (delete i t) (home e) e) (next_slot sz i)
  end.

Definition scan_remove (sz : Z) (home : Z -> Z) (t : gmap Z Z) (m : Z -> bool) (h : Z) : gmap Z Z :=
  match scan sz t m h with
  | Found p _ => repair sz home (Z.to_nat sz) (delete p t) (next_slot sz p)
  | _ => t
  end.

Section Remove.
Context {sz : Z} {Hsz : Pow2 sz}.
Implicit Types (t : gmap Z Z) (p v w x y : Z).

(** Distance of slot [h] from [p], and of the cell [y] steps after it. *)
Definition off p h : Z := (h - p) mod sz.
Definition dl (a y : Z) : Z := if a + y <? sz then a + y else a + y - sz.

Lemma off_bound p h : 0 <= off p h < sz.
Proof. apply Z.mod_pos_bound, pow2_pos. Qed.

Lemma slot_at_mod h x : slot_at sz h (x mod sz) = slot_at sz h x.
Proof. unfold slot_at. apply Z.add_mod_idemp_r. pose proof (pow2_pos (sz:=sz)). lia. Qed.

Lemma slot_off p h y : 0 <= y < sz -> slot_at sz h y = slot_at sz p (dl (off p h) y).
Proof.
  intros Hy. pose proof (off_bound p h) as B. pose proof (pow2_pos (sz:=sz)).
  assert (slot_at sz p (off p h + y) = slot_at sz h y) as E.
  { unfold slot_at, off. rewrite Z.add_assoc.
    rewrite <- (Z.add_mod_idemp_l (p + _)) by lia. rewrite Z.add_mod_idemp_r by lia.
    rewrite Z.add_mod_idemp_l by lia. f_equal. lia. }
  rewrite <- E. unfold dl. destruct (Z.ltb_spec (off p h + y) sz); [done|].
  rewrite <- (slot_at_mod p (off p h + y)), <- (slot_at_mod p (off p h + y - sz)). f_equal.
  replace (off p h + y - sz) with (off p h + y + (-1) * sz) by lia. by rewrite Z.mod_add by lia.
Qed.

Lemma slot_inj p x y : 0 <= x < sz -> 0 <= y < sz -> slot_at sz p x = slot_at sz p y -> x = y.
Proof.
  intros Hx Hy E. unfold slot_at in E.
  assert ((p + x - p) mod sz = (p + y - p) mod sz) as E2.
  { rewrite <- (Zminus_mod_idemp_l (p + x)), E, Zminus_mod_idemp_l. done. }
  replace (p + x - p) with x in E2 by lia. replace (p + y - p) with y in E2 by lia.
  rewrite !Z.mod_small in E2 by lia. done.
Qed.

Lemma dl_bound a y : 0 <= a < sz -> 0 <= y < sz -> 0 <= dl a y < sz.
Proof. intros Ha Hy. unfold dl. destruct (Z.ltb_spec (a + y) sz); lia. Qed.

Section Loop.
Context (t0 : gmap Z Z) (home : Z -> Z) (live : Z -> Prop) (I0 : indexed sz t0 home live).
Context (Hhome : forall v, 0 <= home v < sz).
(** [w] at cell [p] is removed; the run of used cells after [p] ends at
    distance [r]. *)
Context (p w r : Z) (Hw : t0 !! p = Some w) (Hr : 0 <= r /\ r + 1 < sz).
Context (Hrun : forall x, 0 <= x <= r -> is_Some (t0 !! slot_at sz p x)).
Context (Hend : t0 !! slot_at sz p (r + 1) = None).

Definition settled t j v x : Prop :=
  exists d, 0 <= d < sz /\ slot_at sz (home v) d = slot_at sz p x /\
    (forall y, 0 <= y < d -> is_Some (t !! slot_at sz (home v) y)) /\
    (forall y, 0 <= y <= d -> ~ j <= dl (off p (home v)) y <= r).

Record rinv t j : Prop := {
  ri_same : forall x, j <= x < sz -> t !! slot_at sz p x = t0 !! slot_at sz p x;
  ri_cell : forall q v, t !! q = Some v -> 0 <= q < sz /\ 0 <= v /\ live v /\ v <> w;
  ri_inj : forall q q' v, t !! q = Some v -> t !! q' = Some v -> q = q';
  ri_all : forall v, live v -> v <> w -> exists x, 0 <= x < sz /\
      t !! slot_at sz p x = Some v /\ (x < j -> settled t j v x) }.

Lemma p_slot : p = slot_at sz p 0.
Proof using I0 Hw Hsz. symmetry. apply slot_at_0. by apply I0 in Hw as (? & _). Qed.

(** The probe path of an entry in the original table, by distance from [p]. *)
Lemma path0 v x :
  live v -> 0 <= x < sz -> t0 !! slot_at sz p x = Some v ->
  exists d, 0 <= d < sz /\ slot_at sz (home v) d = slot_at sz p x /\ dl (off p (home v)) d = x /\
    (forall y, 0 <= y < d -> is_Some (t0 !! slot_at sz (home v) y)) /\
    (forall y, 0 <= y < d -> dl (off p (home v)) y <> r + 1).
Proof using I0 Hend Hsz.
  intros Hv Hx E. destruct (ix_reach _ _ _ _ I0 v Hv) as (d & Hd & Ed & Hg).
  pose proof (off_bound p (home v)) as B.
  assert (slot_at sz (home v) d = slot_at sz p x) as Es by (by eapply I0).
  exists d. split_and!; try done; try lia.
  - apply (slot_inj p); [apply dl_bound; lia|lia|]. rewrite <- slot_off by lia. done.
  - intros y Hy C. destruct (Hg y Hy) as [? G]. rewrite (slot_off p) in G by lia.
    rewrite C in G. congruence.
Qed.

Lemma rinv_init : rinv (delete p t0) 1.
Proof using All.
  assert (forall q v, delete p t0 !! q = Some v -> q <> p /\ t0 !! q = Some v) as HD.
  { intros q v. rewrite lookup_delete_Some. naive_solver. }
  split.
  - intros x Hx. rewrite lookup_delete_ne; [done|]. intros E. rewrite p_slot in E at 1.
    apply slot_inj in E; lia.
  - intros q v [Hne Hq]%HD. destruct (ix_cell _ _ _ _ I0 _ _ Hq) as (? & ? & ?).
    split_and!; auto; try lia. intros ->. apply Hne. by eapply I0.
  - intros q q' v [_ H1]%HD [_ H2]%HD. by eapply I0.
  - intros v Hv Hvw. destruct (ix_reach _ _ _ _ I0 v Hv) as (d & Hd & Ed & Hg).
    destruct (slot_at_inv p (slot_at sz (home v) d)) as (x & Hx & Ex); [apply slot_at_bound|].
    rewrite <- Ex in Ed. exists x. split; [done|].
    assert (slot_at sz p x <> p) as Hne by (intros E; rewrite E in Ed; congruence).
    split; [by rewrite lookup_delete_ne|]. intros H1. exfalso. apply Hne.
    assert (x = 0) as -> by lia. symmetry. apply p_slot.
Qed.

(** A path that starts at distance at most [r] and ends beyond [r + 1], or
    behind its start, goes through distance [r + 1]. *)
Lemma dl_crosses a y d :
  0 <= a < sz -> 0 <= y < d -> d < sz -> dl a y <= r -> r + 1 < dl a d \/ dl a d < dl a y ->
  exists y', y < y' < d /\ dl a y' = r + 1.
Proof using Hr.
  intros Ha Hy Hd H1 H2. exists (y + (r + 1 - dl a y)). unfold dl in *.
  destruct (Z.ltb_spec (a + y) sz), (Z.ltb_spec (a + d) sz);
    repeat match goal with |- context [Z.ltb ?u ?z] => destruct (Z.ltb_spec u z) end; lia.
Qed.

(** Where the entry taken out at distance [j] is inserted again: not beyond
    [j], with no gap on the way, and without touching the cells from [j + 1]
    to [r]. *)
Lemma reinsert_lands t j e :
  1 <= j <= r -> rinv t j -> t !! slot_at sz p j = Some e ->
  let t1 := delete (slot_at sz p j) t in
  exists y0, 0 <= y0 < sz /\
    scan sz t1 (fun _ => false) (home e) = Vacant (slot_at sz (home e) y0) /\
    t1 !! slot_at sz (home e) y0 = None /\ dl (off p (home e)) y0 <= j /\
    (forall y, 0 <= y < y0 -> is_Some (t1 !! slot_at sz (home e) y)) /\
    (forall y, 0 <= y <= y0 -> ~ j + 1 <= dl (off p (home e)) y <= r).
Proof using All.
  intros Hj R Ti t1. set (i := slot_at sz p j) in *.
  destruct (ri_cell _ _ R _ _ Ti) as (_ & _ & Hle & _).
  assert (t0 !! i = Some e) as T0i
    by (rewrite <- Ti; unfold i; symmetry; apply (ri_same _ _ R); lia).
  destruct (path0 e j Hle ltac:(lia) T0i) as (d & Hd & Ed & Dd & Hg & Hav). fold i in Ed.
  pose proof (off_bound p (home e)) as B. set (a := off p (home e)) in *.
  assert (forall s, t1.[s] < 0 <-> t1 !! s = None) as Hvac.
  { intros s. unfold cell. destruct (t1 !! s) as [z|] eqn:G; [|done]. cbn.
    apply lookup_delete_Some in G as [_ G]. apply (ri_cell _ _ R) in G. split; [lia|done]. }
  assert (t1 !! i = None) as Hi by apply lookup_delete_eq.
  pose proof (scan_run t1 (fun _ => false) _ (Hhome e)) as S.
  destruct (scan sz t1 (fun _ => false) (home e)) as [q u|q|] eqn:F.
  1: by destruct S as (? & _ & _ & _ & _ & ? & _).
  2: { exfalso. destruct (S d Hd) as [S1 _]. apply Hvac in Hi. rewrite Ed in S1. lia. }
  destruct S as (y0 & Hy0 & -> & Hneg & Hp). apply Hvac in Hneg.
  assert (y0 <= d) as Hyd.
  { destruct (Z_le_gt_dec y0 d); [done|]. destruct (Hp d ltac:(lia)) as [S1 _].
    apply Hvac in Hi. rewrite Ed in S1. lia. }
  exists y0. split_and!; try done; try lia.
  - destruct (decide (y0 = d)) as [->|]; [lia|]. destruct (Z_le_gt_dec (dl a y0) j); [done|exfalso].
    destruct (Hg y0 ltac:(lia)) as [z G]. pose proof (dl_bound a y0 B ltac:(lia)).
    rewrite (slot_off p) in G, Hneg by lia. fold a in G, Hneg. unfold t1 in Hneg.
    rewrite lookup_delete_ne, (ri_same _ _ R) in Hneg; [congruence|lia|].
    unfold i. intros C. apply slot_inj in C; lia.
  - intros y Hy. destruct (Hp y Hy) as [S1 _]. destruct (t1 !! slot_at sz (home e) y) eqn:G; [done|].
    apply Hvac in G. lia.
  - intros y Hy C. assert (y < d) by (destruct (decide (y = d)) as [->|]; lia).
    destruct (dl_crosses a y d) as (y' & Hy' & Ey'); try lia. eapply Hav; [|exact Ey']. lia.
Qed.

Lemma settled_mono t t' j j' v x :
  j <= j' -> (forall y, ~ j <= dl (off p (home v)) y <= r -> 0 <= y < sz ->
     is_Some (t !! slot_at sz (home v) y) -> is_Some (t' !! slot_at sz (home v) y)) ->
  settled t j v x -> settled t' j' v x.
Proof.
  intros Hj Hm (d & Hd & Ed & Hg & Ha). exists d. split_and!; try done; try lia.
  - intros y Hy. apply Hm; [apply Ha; lia|lia|by apply Hg].
  - intros y Hy C. apply (Ha y); lia.
Qed.

Lemma rinv_step t j e :
  1 <= j <= r -> rinv t j -> t.[slot_at sz p j] = e -> 0 <= e ->
  rinv (scan_insert sz (delete (slot_at sz p j) t) (home e) e) (j + 1).
Proof using All.
  intros Hj R Ee He. assert (t !! slot_at sz p j = Some e) as Ti.
  { unfold cell in Ee. destruct (t !! slot_at sz p j); cbn in Ee; [by subst|lia]. }
  destruct (ri_cell _ _ R _ _ Ti) as (_ & _ & Hle & Hew).
  destruct (reinsert_lands t j e Hj R Ti) as (y0 & Hy0 & F & Hq & Hland & Hgap & Havoid).
  unfold scan_insert. rewrite F. pose proof (off_bound p (home e)) as B.
  pose proof (dl_bound _ y0 B Hy0) as By.
  set (i := slot_at sz p j) in *. set (q := slot_at sz (home e) y0) in *.
  assert (q = slot_at sz p (dl (off p (home e)) y0)) as Eq by (apply slot_off; lia).
  assert (forall s, is_Some (delete i t !! s) -> is_Some (<[q:=e]> (delete i t) !! s)) as Hk.
  { intros s Hs. rewrite lookup_insert_is_Some'. by right. }
  assert (forall s v, delete i t !! s = Some v -> s <> i /\ v <> e /\ t !! s = Some v) as HD.
  { intros s v. rewrite lookup_delete_Some. intros [Hne Hv]. split_and!; try done.
    intros ->. apply Hne. by eapply (ri_inj _ _ R). }
  split.
  - intros x Hx. rewrite lookup_insert_ne, lookup_delete_ne; [apply (ri_same _ _ R); lia|..].
    + unfold i. intros C. apply slot_inj in C; lia.
    + rewrite Eq. intros C. apply slot_inj in C; lia.
  - intros q' v. rewrite lookup_insert_Some. intros [[<- <-]|[_ (_ & _ & Hv)%HD]].
    + split_and!; auto; apply slot_at_bound.
    + by apply (ri_cell _ _ R) in Hv.
  - intros q1 q2 v. rewrite !lookup_insert_Some.
    intros [[<- <-]|[? (_ & Hn1 & H1)%HD]] [[<- E2]|[? (_ & Hn2 & H2)%HD]]; try done.
    by eapply (ri_inj _ _ R).
  - intros v Hv Hvw. destruct (decide (v = e)) as [->|Hve].
    + exists (dl (off p (home e)) y0). rewrite <- Eq, lookup_insert_eq. split_and!; try lia; [done|].
      intros _. exists y0. split_and!; try done; try lia. intros y Hy. by apply Hk, Hgap.
    + destruct (ri_all _ _ R v Hv Hvw) as (x & Hx & Tx & Hset). exists x.
      assert (x <> j) as Hxj by (intros ->; unfold i in Ti; congruence).
      assert (delete i t !! slot_at sz p x = Some v) as T1x.
      { rewrite lookup_delete_ne; [done|]. unfold i. intros C. apply slot_inj in C; lia. }
      split; [done|]. split; [rewrite lookup_insert_ne; congruence|].
      intros Hlt. eapply settled_mono; [| |apply Hset; lia]; [lia|].
      intros y Hny Hy Hs. apply Hk. rewrite lookup_delete_ne; [done|].
      rewrite (slot_off p) by lia. unfold i. intros C. pose proof (off_bound p (home v)) as Bv.
      apply slot_inj in C; [lia|lia|by apply dl_bound].
Qed.

Lemma rinv_done t : rinv t (r + 1) -> indexed sz t home (fun v => live v /\ v <> w).
Proof using All.
  intros R. split.
  - intros q v Hq. apply (ri_cell _ _ R) in Hq as (? & ? & ? & ?). done.
  - intros v [Hv Hvw]. destruct (ri_all _ _ R v Hv Hvw) as (x & Hx & Tx & Hset).
    destruct (Z_lt_ge_dec x (r + 1)) as [Hlt|Hge].
    { destruct (Hset Hlt) as (d & Hd & Ed & Hg & _). exists d. rewrite Ed. auto. }
    assert (t0 !! slot_at sz p x = Some v) as T0 by (rewrite <- (ri_same _ _ R) by lia; done).
    assert (x <> r + 1) by (intros ->; congruence).
    destruct (path0 v x Hv Hx T0) as (d & Hd & Ed & Dd & Hg & Hav). exists d. rewrite Ed.
    split_and!; try done; try lia. intros y Hy. pose proof (off_bound p (home v)) as B.
    pose proof (dl_bound _ y B ltac:(lia)). rewrite (slot_off p) by lia.
    rewrite (ri_same _ _ R); [rewrite <- slot_off by lia; by apply Hg|]. split; [|lia].
    destruct (Z_lt_ge_dec (dl (off p (home v)) y) (r + 1)) as [C|C]; [exfalso|lia].
    destruct (dl_crosses (off p (home v)) y d) as (y' & Hy' & Ey'); try lia. eapply Hav; [|exact Ey']. lia.
  - apply R.
Qed.

Lemma repair_ok fuel t j :
  1 <= j <= r + 1 -> rinv t j -> r + 1 - j < Z.of_nat fuel ->
  indexed sz (repair sz home fuel t (slot_at sz p j)) home (fun v => live v /\ v <> w).
Proof using All.
  revert t j. induction fuel as [|fuel IH]; intros t j Hj R Hf; [lia|].
  cbn [repair]. destruct (Z.ltb_spec t.[slot_at sz p j] 0) as [Hneg|Hpos].
  - assert (j = r + 1) as ->.
    { destruct (decide (j = r + 1)); [done|exfalso]. destruct (Hrun j ltac:(lia)) as [v Hv].
      pose proof (ri_same _ _ R j ltac:(lia)) as E. unfold cell in Hneg. rewrite E, Hv in Hneg. cbn in Hneg.
      apply I0 in Hv. lia. }
    by apply rinv_done.
  - assert (j <> r + 1).
    { intros ->. unfold cell in Hpos. rewrite (ri_same _ _ R), Hend in Hpos by lia. cbn in Hpos. lia. }
    rewrite next_slot_at. apply IH; [lia| |lia]. apply rinv_step; auto; lia.
Qed.
End Loop.

(** After the removal of the entry that the scan finds, the table indexes
    exactly the other live entries. *)
Lemma scan_remove_ok t home live m h p w :
  indexed sz t home live -> (forall v, 0 <= home v < sz) -> 0 <= h < sz ->
  Z.of_nat (size t) < sz -> scan sz t m h = Found p w ->
  indexed sz (scan_remove sz home t m h) home (fun v => live v /\ v <> w).
Proof.
  intros I Hh Hb Hroom F. unfold scan_remove. rewrite F.
  destruct (scan_found I _ _ _ _ Hb F) as (Hp & _ & _).
  assert (0 <= p < sz) as Bp by (by apply I in Hp as (? & _)).
  pose proof (scan_run t (fun _ => false) p Bp) as S.
  destruct (scan sz t (fun _ => false) p) as [q u|q|] eqn:G.
  1: by destruct S as (? & _ & _ & _ & _ & ? & _).
  2: by apply scan_room in G.
  destruct S as (e & He & -> & Hneg & Hpass).
  assert (t !! slot_at sz p e = None) as Hend by (by apply (ix_vacant I)).
  assert (e <> 0) by (intros ->; rewrite slot_at_0 in Hend by done; congruence).
  rewrite <- (slot_at_0 p Bp) at 2. rewrite next_slot_at.
  assert (forall x, 0 <= x <= e - 1 -> is_Some (t !! slot_at sz p x)) as Hrun.
  { intros x Hx. apply (ix_used I). apply Hpass. lia. }
  assert (t !! slot_at sz p (e - 1 + 1) = None) as Hend' by (by replace (e - 1 + 1) with e by lia).
  assert (0 <= e - 1 /\ e - 1 + 1 < sz) as Hr by lia.
  apply (repair_ok t home live I Hh p w (e - 1) Hp Hr Hrun Hend'); [lia| |lia].
  by apply (rinv_init t home live I Hh p w (e - 1)).
Qed.
End Remove.
