(* ===== verification/ChainIndex.v ===== *)
(** * Intrusive chains of the records of one owner

    Several components thread the records of one owner (a user's friends, a
    target's subscribers) on a chain: a hashed table gives the newest record
    of an owner, and an array [next] gives the record before it.  [chain_link]
    is the linking loop, [chain_walk] the traversal
    [for (i = head; i >= 0; i = next[i])].

    [chain_ok] is the invariant, and [chain_walk_ok] says that the traversal
    visits exactly the records of the owner, newest first. *)
From S2P Require Import Prelude ProbeIndex.

(** Link record [fi], whose owner hashes to [h], in front of its owner's
    chain; [m] tests whether a head belongs to that owner. *)
Definition chain_link (sz : Z) (hd nx : gmap Z Z) (m : Z -> bool) (h fi : Z) : gmap Z Z * gmap Z Z :=
  match scan sz hd m h with
  | Vacant p => (<[p:=fi]> hd, <[fi:=-1]> nx)
  | Found p head => (<[p:=fi]> hd, <[fi:=head]> nx)
  | Exhausted => (hd, nx)
  end.

Fixpoint chain_walk (fuel : nat) (nx : gmap Z Z) (i : Z) : list Z :=
  match fuel with
  | O => []
  | S fuel' => if i <? 0 then [] else i :: chain_walk fuel' nx nx.[i]
  end.

Section Chain.
Context {sz : Z} {Hsz : Pow2 sz} {K : Type} {HK : EqDecision K}.
Context (hash : K -> Z) (hash_bound : forall x, 0 <= hash x < sz).

(** The records, by owner; [None] for a record that is not on any chain. *)
Implicit Types (os : list (option K)) (o : K) (hd nx : gmap Z Z).

(** The records of owner [o], newest first: a left-to-right pass that puts
    the index of each record of [o] in front of those before it. *)
Fixpoint idxs_from (n : Z) os o (acc : list Z) : list Z :=
  match os with
  | [] => acc
  | x :: os' => idxs_from (n + 1) os' o (if decide (x = Some o) then n :: acc else acc)
  end.

Definition idxs os o : list Z := idxs_from 0 os o [].

Definition first_of (l : list Z) : Z := default (-1) (head l).

(** Every element's [next] is the following element, -1 for the last one. *)
Fixpoint linked nx (l : list Z) : Prop :=
  match l with
  | [] => True
  | i :: l' => nx.[i] = first_of l' /\ linked nx l'
  end.

Definition omatch os o (ei : Z) : bool :=
  match at_ os ei with Some (Some o') => bool_decide (o' = o) | _ => false end.

Definition ohome os (v : Z) : Z :=
  match at_ os v with Some (Some o) => hash o | _ => 0 end.

Definition is_head os (v : Z) : Prop := exists o, head (idxs os o) = Some v.

Record chain_ok hd nx os : Prop := {
  co_ix : indexed sz hd (ohome os) (is_head os);
  co_size : (size hd <= length os)%nat;
  co_link : forall o, linked nx (idxs os o) }.

Lemma idxs_from_app os1 os2 n o acc :
  idxs_from n (os1 ++ os2) o acc =
  idxs_from (n + Z.of_nat (length os1)) os2 o (idxs_from n os1 o acc).
Proof.
  revert n acc. induction os1 as [|x os1 IH]; intros n acc; cbn.
  { by rewrite Z.add_0_r. }
  rewrite IH. f_equal. lia.
Qed.

Lemma idxs_snoc os x o :
  idxs (os ++ [x]) o =
  if decide (x = Some o) then Z.of_nat (length os) :: idxs os o else idxs os o.
Proof. unfold idxs. rewrite idxs_from_app. by rewrite Z.add_0_l. Qed.

Lemma elem_of_idxs os o i : i ∈ idxs os o <-> at_ os i = Some (Some o).
Proof using Type.
  induction os as [|x os IH] using rev_ind.
  { split; [by intros ?%elem_of_nil|]. intros H%at_lt. cbn in H. lia. }
  rewrite idxs_snoc. destruct (decide (i = Z.of_nat (length os))) as [->|Hne].
  - rewrite at_snoc. case_decide as Hx.
    + subst. split; [done|]. intros _. by left.
    + rewrite IH. split; [intros H%at_lt; lia|]. congruence.
  - assert (at_ (os ++ [x]) i = Some (Some o) <-> at_ os i = Some (Some o)) as ->.
    { split; intros H.
      - pose proof (at_lt _ _ _ H) as L. rewrite length_app in L. cbn in L. rewrite at_app_l in H by lia. done.
      - pose proof (at_lt _ _ _ H). by rewrite at_app_l by lia. }
    rewrite <- IH. case_decide; [|done]. rewrite elem_of_cons. split; [by intros [?|?]|by right].
Qed.

Lemma idxs_head_at os o v : head (idxs os o) = Some v -> at_ os v = Some (Some o).
Proof using Type. intros H. apply elem_of_idxs. destruct (idxs os o); [done|]. cbn in H. simplify_eq. by left. Qed.

Lemma is_head_omatch os o v :
  is_head os v -> omatch os o v = true -> head (idxs os o) = Some v.
Proof using Type.
  intros [o' H] E. pose proof (idxs_head_at _ _ _ H) as A. unfold omatch in E.
  rewrite A, bool_decide_eq_true in E. by subst.
Qed.

Lemma idxs_nonneg os o i : i ∈ idxs os o -> 0 <= i < Z.of_nat (length os).
Proof using Type. rewrite elem_of_idxs. apply at_lt. Qed.

Lemma ohome_bound os v : 0 <= ohome os v < sz.
Proof using hash_bound Hsz.
  unfold ohome. destruct (at_ os v) as [[o|]|]; [done|..]; pose proof (pow2_pos (sz:=sz)); lia.
Qed.

Lemma chain_ok_empty nx : chain_ok ∅ nx [].
Proof.
  split; [|cbn; by rewrite map_size_empty|done].
  eapply indexed_ext; [| |apply (indexed_empty (ohome []))]; [|done].
  intros v. split; [done|]. by intros [o Ho].
Qed.

(** The head lookup loop returns the newest record of the owner, or -1. *)
Lemma chain_head_ok hd nx os o :
  chain_ok hd nx os ->
  scan_find sz hd (omatch os o) (hash o) = first_of (idxs os o).
Proof using hash_bound Hsz.
  intros [I _ _]. unfold scan_find, first_of.
  destruct (head (idxs os o)) as [v|] eqn:E.
  - pose proof (idxs_head_at _ _ _ E) as A.
    destruct (scan_hit I (omatch os o) (hash o) v) as (p & -> & _); try done.
    + by exists o.
    + unfold ohome. by rewrite A.
    + unfold omatch. rewrite A. by apply bool_decide_eq_true.
    + intros w Hw Hm. eapply is_head_omatch in Hm; [|done]. congruence.
  - destruct (scan _ _ _ _) as [p v|p|] eqn:F; try done.
    apply (scan_found I) in F as (_ & Hv & Hm); [|done].
    eapply is_head_omatch in Hm; [|done]. congruence.
Qed.

Lemma linked_insert nx l i v : i ∉ l -> linked nx l -> linked (<[i:=v]> nx) l.
Proof using Type.
  induction l as [|a l IH]; cbn; [done|]. rewrite not_elem_of_cons. intros [Ha Hl] [H1 H2].
  rewrite cell_insert_ne by done. auto.
Qed.

Lemma idxs_fresh os o : Z.of_nat (length os) ∉ idxs os o.
Proof using Type. intros H%idxs_nonneg. lia. Qed.

Lemma is_head_snoc_None os v : is_head (os ++ [None]) v <-> is_head os v.
Proof using Type. unfold is_head. setoid_rewrite idxs_snoc. split; intros [o H]; exists o; by destruct (decide _). Qed.

Lemma is_head_snoc os o v :
  is_head (os ++ [Some o]) v <->
  v = Z.of_nat (length os) \/ (exists o', o' <> o /\ head (idxs os o') = Some v).
Proof using Type.
  unfold is_head. setoid_rewrite idxs_snoc. split.
  - intros [o' H]. case_decide as E; [cbn in H; simplify_eq; by left|]. right. exists o'. split; congruence.
  - intros [->|(o' & Hne & H)].
    + exists o. by rewrite decide_True.
    + exists o'. rewrite decide_False by congruence. done.
Qed.

(** A record that is on no chain leaves the index as it is. *)
Lemma chain_ok_skip hd nx os : chain_ok hd nx os -> chain_ok hd nx (os ++ [None]).
Proof.
  intros [I S L]. split.
  - eapply indexed_ext; [| |exact I]; cbn.
    + intros v. by rewrite is_head_snoc_None.
    + intros v [o Hv]. apply idxs_head_at in Hv. unfold ohome.
      rewrite at_app_l; [done|]. apply at_lt in Hv. lia.
  - rewrite length_app. lia.
  - intros o. rewrite idxs_snoc. case_decide; [done|]. apply L.
Qed.

(** The linking loop extends the chains with the next record. *)
Lemma chain_ok_link hd nx os o :
  chain_ok hd nx os -> Z.of_nat (length os) < sz ->
  chain_ok (chain_link sz hd nx (omatch os o) (hash o) (Z.of_nat (length os))).1
           (chain_link sz hd nx (omatch os o) (hash o) (Z.of_nat (length os))).2
           (os ++ [Some o]).
Proof using hash_bound Hsz.
  intros C Hroom. pose proof C as [I S L]. set (n := Z.of_nat (length os)).
  pose proof (chain_head_ok _ _ _ o C) as Hd. unfold scan_find in Hd.
  assert (ohome (os ++ [Some o]) n = hash o) as Eh by (unfold ohome, n; by rewrite at_snoc).
  assert (forall v, is_head os v -> ohome os v = ohome (os ++ [Some o]) v) as Hhome.
  { intros v [o' Hv]. apply idxs_head_at in Hv. unfold ohome. pose proof (at_lt _ _ _ Hv).
    by rewrite at_app_l by lia. }
  assert (~ is_head os n) as Hn.
  { intros [o' Hv]. apply idxs_head_at, at_lt in Hv. lia. }
  assert (indexed sz hd (ohome (os ++ [Some o])) (is_head os)) as I'.
  { by eapply indexed_ext; [| |exact I]. }
  assert (forall h, linked (<[n:=h]> nx) (idxs os o) -> h = first_of (idxs os o) ->
            forall o', linked (<[n:=h]> nx) (idxs (os ++ [Some o]) o')) as HL.
  { intros h Ho E o'. rewrite idxs_snoc. case_decide as Eo; cbn.
    - simplify_eq. by rewrite cell_insert_eq.
    - apply linked_insert; [apply idxs_fresh|apply L]. }
  assert (forall h, linked (<[n:=h]> nx) (idxs os o)) as Hlk.
  { intros h. apply linked_insert; [apply idxs_fresh|apply L]. }
  unfold chain_link. destruct (scan sz hd (omatch os o) (hash o)) as [p w|p|] eqn:F; cbn.
  - destruct (scan_found I _ _ _ _ (hash_bound o) F) as (Hp & Hw & Hm).
    pose proof (is_head_omatch _ _ _ Hw Hm) as Ho. rewrite <- Eh in F.
    pose proof (indexed_replace I' _ _ _ _ (ohome_bound _ _) F Hn ltac:(lia)) as I2. split.
    + eapply indexed_ext; [| |exact I2]; [|done]. intros v. cbn. rewrite is_head_snoc. split.
      * intros [[[o' Hv] Hvw]| ->]; [right|by left]. exists o'. split; [|done]. congruence.
      * intros [->|(o' & Hne & Hv)]; [by right|left]. split; [by exists o'|].
        intros ->. apply Hne. apply idxs_head_at in Hv, Ho. congruence.
    + rewrite map_size_insert_Some by eauto. rewrite length_app. cbn. lia.
    + apply HL; auto.
  - rewrite <- Eh in F.
    destruct (indexed_insert I' _ _ _ (ohome_bound _ _) F Hn ltac:(lia)) as [Hp I2]. split.
    + eapply indexed_ext; [| |exact I2]; [|done]. intros v. cbn. rewrite is_head_snoc. split.
      * intros [[o' Hv]| ->]; [right|by left]. exists o'. split; [|done].
        intros ->. unfold first_of in Hd. rewrite Hv in Hd. cbn in Hd.
        apply idxs_head_at, at_lt in Hv. lia.
      * intros [->|(o' & _ & Hv)]; [by right|left; by exists o'].
    + rewrite map_size_insert_None by done. rewrite length_app. cbn. lia.
    + apply HL; auto.
  - exfalso. eapply (scan_room (sz:=sz)); [| |exact F]; [done|]. lia.
Qed.

Lemma chain_walk_linked nx l fuel :
  linked nx l -> Forall (fun i => 0 <= i) l -> (length l < fuel)%nat ->
  chain_walk fuel nx (first_of l) = l.
Proof using Type.
  revert fuel. induction l as [|a l IH]; intros [|fuel] HL HF Hf; cbn in *; try lia.
  { done. }
  destruct HL as [Ha HL]. inversion HF; subst.
  destruct (Z.ltb_spec a 0); [lia|].
  f_equal. rewrite Ha. apply IH; auto. lia.
Qed.

Lemma idxs_length os o : (length (idxs os o) <= length os)%nat.
Proof using Type.
  induction os as [|x os IH] using rev_ind; [done|].
  rewrite idxs_snoc, length_app. cbn. case_decide; cbn; lia.
Qed.

(** The traversal from an owner's head visits exactly its records. *)
Lemma chain_walk_ok hd nx os o fuel :
  chain_ok hd nx os -> (length os < fuel)%nat ->
  chain_walk fuel nx (scan_find sz hd (omatch os o) (hash o)) = idxs os o.
Proof using hash_bound Hsz.
  intros C Hf. erewrite chain_head_ok by done. apply chain_walk_linked.
  - apply C.
  - apply list.Forall_forall. intros i Hi. apply idxs_nonneg in Hi. lia.
  - pose proof (idxs_length os o). lia.
Qed.

(** The records on a chain, for records [l] with the owner [own]. *)
Lemma omap_idxs {A} (own : A -> option K) (l : list A) o :
  omap (at_ l) (idxs (own <$> l) o) = reverse (filter (fun x => own x = Some o) l).
Proof using Type.
  assert (forall l', omap (at_ (l ++ l')) (idxs (own <$> l) o) = reverse (filter (fun x => own x = Some o) l)) as H.
  { induction l as [|f l IH] using rev_ind; intros l'; [done|].
    rewrite fmap_app. cbn [fmap list_fmap]. rewrite idxs_snoc, length_fmap.
    rewrite list.filter_app, reverse_app. rewrite <- app_assoc.
    case_decide as E.
    - rewrite filter_cons_True, filter_nil by done. cbn [omap list_omap].
      assert (at_ (l ++ [f] ++ l') (Z.of_nat (length l)) = Some f) as ->.
      { rewrite at_of_nat. by apply list_lookup_middle. }
      by rewrite IH.
    - rewrite filter_cons_False, filter_nil by done. apply IH. }
  specialize (H []). by rewrite app_nil_r in H.
Qed.
End Chain.

(** ** Chains from an array of heads *)

(** [hd[o]] is the newest record of owner [o], for the owners below [cnt]. *)
Definition heads_ok (cnt : Z) (hd nx : gmap Z Z) (os : list (option Z)) : Prop :=
  (forall o, 0 <= o < cnt -> hd.[o] = first_of (idxs os o)) /\ (forall o, linked nx (idxs os o)).

Lemma heads_ok_empty cnt hd nx : (forall o, 0 <= o < cnt -> hd.[o] = -1) -> heads_ok cnt hd nx [].
Proof. intros H. split; [exact H|done]. Qed.

Lemma heads_skip cnt hd nx os v :
  heads_ok cnt hd nx os -> heads_ok cnt hd (<[Z.of_nat (length os) := v]> nx) (os ++ [None]).
Proof.
  intros [H1 H2]. split; intros o; rewrite idxs_snoc; case_decide; try done; [apply H1|].
  apply linked_insert; [apply idxs_fresh|apply H2].
Qed.

Lemma heads_push cnt hd nx os gi :
  heads_ok cnt hd nx os -> 0 <= gi < cnt ->
  heads_ok cnt (<[gi := Z.of_nat (length os)]> hd) (<[Z.of_nat (length os) := hd.[gi]]> nx) (os ++ [Some gi]).
Proof.
  intros [H1 H2] Hg. split; intros o; rewrite idxs_snoc; case_decide as E.
  - intros _. simplify_eq. by rewrite cell_insert_eq.
  - intros Ho. rewrite cell_insert_ne by congruence. by apply H1.
  - simplify_eq. split; [rewrite cell_insert_eq; by apply H1|].
    apply linked_insert; [apply idxs_fresh|apply H2].
  - apply linked_insert; [apply idxs_fresh|apply H2].
Qed.

(** A write to the cell of the next record does not matter yet. *)
Lemma heads_pre cnt hd nx os v :
  heads_ok cnt hd nx os -> heads_ok cnt hd (<[Z.of_nat (length os) := v]> nx) os.
Proof. intros [H1 H2]. split; [done|]. intros o. apply linked_insert; [apply idxs_fresh|apply H2]. Qed.

Lemma heads_walk cnt hd nx os o fuel :
  heads_ok cnt hd nx os -> 0 <= o < cnt -> (length os < fuel)%nat ->
  chain_walk fuel nx hd.[o] = idxs os o.
Proof.
  intros [H1 H2] Ho Hf. rewrite H1 by done. apply chain_walk_linked; [apply H2| |].
  - apply list.Forall_forall. intros i Hi. apply idxs_nonneg in Hi. lia.
  - pose proof (idxs_length os o). lia.
Qed.
