(* ===== verification/SlotChains.v ===== *)
(** * Chains of reusable slots: linking, unlinking and the head table

    Like ChainIndex.v, but the records live in slots that are freed and taken
    again (storage/miku_msg_store.c): a record is also taken off its chain,
    which moves the head, bridges the record before it, or, when the chain
    becomes empty, removes the head's cell and repairs its cluster. *)
From S2P Require Import Prelude ProbeIndex ProbeRemove ChainIndex.

(** The repair loop of ProbeRemove.v, for code that drops entries that [keep]
    refuses. *)
Fixpoint repair_if (sz : Z) (keep : Z -> bool) (home : Z -> Z) (fuel : nat) (t : gmap Z Z) (i : Z) : gmap Z Z :=
  match fuel with
  | O => t
  | S fuel' =>
      let e := t.[i] in
      if e <? 0 then t
      else repair_if sz keep home fuel'
             (if keep e then scan_insert sz (delete i t) (home e) e else delete i t) (next_slot sz i)
  end.

(** [for (cur = next[head]; cur >= 0; prev = cur, cur = next[cur])] up to the
    slot, which is bridged. *)
Fixpoint unlink_walk (fuel : nat) (nx : gmap Z Z) (prev cur slot : Z) : gmap Z Z :=
  match fuel with
  | O => nx
  | S fuel' =>
      if cur <? 0 then nx
      else if cur =? slot then <[slot:=-1]> (<[prev:=nx.[slot]]> nx)
      else unlink_walk fuel' nx cur nx.[cur] slot
  end.

(** Take [slot], whose owner hashes to [h], off its chain. *)
Definition chain_unlink (sz : Z) (keep : Z -> bool) (home : Z -> Z) (cap : nat)
    (hd nx : gmap Z Z) (m : Z -> bool) (h slot : Z) : gmap Z Z * gmap Z Z :=
  match scan sz hd m h with
  | Found p head =>
      if head =? slot then
        let nxt := nx.[slot] in
        (if nxt <? 0 then repair_if sz keep home (Z.to_nat sz) (delete p hd) (next_slot sz p) else <[p:=nxt]> hd,
         <[slot:=-1]> nx)
      else (hd, unlink_walk cap nx head nx.[head] slot)
  | _ => (hd, nx)
  end.

Lemma scan_insert_vals sz t h e p v :
  scan_insert sz t h e !! p = Some v -> v = e \/ exists q, t !! q = Some v.
Proof.
  unfold scan_insert. destruct (scan _ _ _ _) as [| q|]; [eauto| |eauto].
  rewrite lookup_insert_Some. intros [[_ <-]|[_ H]]; eauto.
Qed.

(** When every entry is kept, and [home] is right on the entries, this is
    the repair of ProbeRemove.v. *)
Lemma repair_if_all sz keep home home' fuel : forall t i,
  (forall p v, t !! p = Some v -> keep v = true /\ home v = home' v) ->
  repair_if sz keep home fuel t i = repair sz home' fuel t i.
Proof.
  induction fuel as [|fuel IH]; intros t i Hk; [done|]. cbn [repair repair_if].
  destruct (Z.ltb_spec t.[i] 0) as [|Hp]; [done|].
  assert (t !! i = Some t.[i]) as Hi by (unfold cell in *; destruct (t !! i); [done|cbn in Hp; lia]).
  destruct (Hk i _ Hi) as [-> ->]. apply IH. intros p v Hv. apply scan_insert_vals in Hv as [->|[q Hq]]; [by eapply Hk|].
  apply lookup_delete_Some in Hq as [_ Hq]. by eapply Hk.
Qed.

Section SlotChains.
Context {sz : Z} {Hsz : Pow2 sz} {K : Type} {HK : EqDecision K}.
Context (hash : K -> Z) (hash_bound : forall x, 0 <= hash x < sz).

(** The owner of every used slot. *)
Implicit Types (own : gmap Z K) (o : K) (hd nx : gmap Z Z) (ch : K -> list Z).

Definition shome own (v : Z) : Z := match own !! v with Some o => hash o | None => 0 end.
Definition smatch own o (v : Z) : bool := bool_decide (own !! v = Some o).
Definition heads ch (v : Z) : Prop := exists o, head (ch o) = Some v.

Lemma shome_bound own v : 0 <= shome own v < sz.
Proof using hash_bound Hsz.
  unfold shome. destruct (own !! v); [done|]. pose proof (pow2_pos (sz:=sz)). lia.
Qed.

Context (cap : nat) (cap_room : Z.of_nat cap < sz).

(** [ch o] is the chain of [o], from its head. *)
Record chains hd nx own ch : Prop := {
  sc_mem : forall o i, i ∈ ch o <-> own !! i = Some o;
  sc_nodup : forall o, NoDup (ch o);
  sc_link : forall o, linked nx (ch o);
  sc_bound : forall i o, own !! i = Some o -> 0 <= i < Z.of_nat cap;
  sc_ix : indexed sz hd (shome own) (heads ch) }.

Lemma head_elem ch o v : head (ch o) = Some v -> v ∈ ch o.
Proof. destruct (ch o); [done|]. cbn. intros [= ->]. by left. Qed.

Lemma chains_empty nx : chains ∅ nx ∅ (fun _ => []).
Proof.
  split; try done.
  - intros o i. rewrite lookup_empty. split; [by intros ?%elem_of_nil|done].
  - intros o. constructor.
  - eapply indexed_ext; [| |apply (indexed_empty (shome ∅))]; [|done]. intros v. split; [done|]. by intros [o Ho].
Qed.

Section Inv.
Context {hd nx : gmap Z Z} {own : gmap Z K} {ch : K -> list Z} (C : chains hd nx own ch).

Lemma heads_own v : heads ch v -> exists o, head (ch o) = Some v /\ own !! v = Some o.
Proof using C. intros [o Ho]. exists o. split; [done|]. apply (sc_mem _ _ _ _ C). by apply head_elem. Qed.

Lemma chains_size : Z.of_nat (size hd) < sz.
Proof using C cap_room.
  pose proof (indexed_vals_bound (sc_ix _ _ _ _ C) cap) as B.
  enough (size hd <= cap)%nat by lia. apply B. intros v (o & _ & Ho)%heads_own. by eapply (sc_bound _ _ _ _ C).
Qed.

(** The head that the lookup of an owner finds. *)
Lemma chains_scan o :
  match ch o with
  | [] => exists p, scan sz hd (smatch own o) (hash o) = Vacant p
  | v :: _ => exists p, scan sz hd (smatch own o) (hash o) = Found p v
  end.
Proof using C cap_room hash_bound Hsz.
  destruct (ch o) as [|v l] eqn:E.
  - apply (scan_miss (sc_ix _ _ _ _ C)); [done|apply chains_size|].
    intros w (o' & Hh & Ho)%heads_own. unfold smatch. apply bool_decide_eq_false. intros Eo.
    apply (sc_mem _ _ _ _ C) in Eo. rewrite E in Eo. by apply elem_of_nil in Eo.
  - assert (own !! v = Some o) as Ho by (apply (sc_mem _ _ _ _ C); rewrite E; by left).
    destruct (scan_hit (sc_ix _ _ _ _ C) (smatch own o) (hash o) v) as (p & F & _); [done| | | | |by eauto].
    + exists o. by rewrite E.
    + unfold shome. by rewrite Ho.
    + by apply bool_decide_eq_true.
    + intros w (o' & Hh & Ho')%heads_own Hm%bool_decide_eq_true. assert (o' = o) as -> by congruence.
      rewrite E in Hh. cbn in Hh. congruence.
Qed.

(** The traversal from the head visits the chain of the owner. *)
Lemma chains_walk o :
  chain_walk (S cap) nx (match scan sz hd (smatch own o) (hash o) with Found _ v => v | _ => -1 end) = ch o.
Proof using C cap_room hash_bound Hsz.
  assert (match scan sz hd (smatch own o) (hash o) with Found _ v => v | _ => -1 end = first_of (ch o)) as ->.
  { pose proof (chains_scan o) as S. destruct (ch o); destruct S as [p ->]; done. }
  apply chain_walk_linked; [apply (sc_link _ _ _ _ C)| |].
  - apply list.Forall_forall. intros i Hi%(sc_mem _ _ _ _ C). apply (sc_bound _ _ _ _ C) in Hi. lia.
  - apply Nat.lt_succ_r. rewrite <- (Nat2Z.id cap), <- (length_seqZ 0 (Z.of_nat cap)).
    apply submseteq_length, NoDup_submseteq; [apply (sc_nodup _ _ _ _ C)|].
    intros i Hi%(sc_mem _ _ _ _ C). apply elem_of_seqZ. apply (sc_bound _ _ _ _ C) in Hi. lia.
Qed.

(** ** Linking *)

Definition ch_push o (slot : Z) o' : list Z := if decide (o' = o) then slot :: ch o else ch o'.

Lemma heads_push_iff o slot v :
  heads (ch_push o slot) v <-> (heads ch v /\ head (ch o) <> Some v) \/ v = slot.
Proof using C.
  unfold heads, ch_push. split.
  - intros [o' Hv]. case_decide as E; [cbn in Hv; right; congruence|]. left. split; [by exists o'|].
    intros Hv2. apply E. apply head_elem, (sc_mem _ _ _ _ C) in Hv, Hv2. congruence.
  - intros [[[o' Hv] Hne]| ->]; [|exists o; by rewrite decide_True].
    exists o'. rewrite decide_False; [done|]. by intros ->.
Qed.

Lemma chains_link o slot :
  own !! slot = None -> 0 <= slot < Z.of_nat cap ->
  let '(hd', nx') := chain_link sz hd nx (smatch own o) (hash o) slot in
  chains hd' nx' (<[slot:=o]> own) (ch_push o slot).
Proof using C cap_room hash_bound Hsz.
  intros Hs Hb. assert (forall o', slot ∉ ch o') as Hf by (intros o' Hi%(sc_mem _ _ _ _ C); congruence).
  assert (~ heads ch slot) as Hnh by (intros (o' & _ & ?)%heads_own; congruence).
  set (own' := <[slot:=o]> own). set (v0 := first_of (ch o)).
  assert (shome own' slot = hash o) as Eh by (unfold shome, own'; by rewrite lookup_insert_eq).
  assert (indexed sz hd (shome own') (heads ch)) as I'.
  { eapply indexed_ext; [| |exact (sc_ix _ _ _ _ C)]; [done|]. intros v Hv. unfold shome, own'.
    rewrite lookup_insert_ne; [done|]. by intros <-. }
  assert (forall hd', indexed sz hd' (shome own') (heads (ch_push o slot)) ->
    chains hd' (<[slot:=v0]> nx) own' (ch_push o slot)) as fin.
  { intros hd' Ix. split; [| | | |exact Ix].
    - intros o' i. unfold ch_push, own'. destruct (decide (i = slot)) as [->|Hne].
      + rewrite lookup_insert_eq. case_decide as E; [subst; split; [done|by left]|].
        split; [by intros ?%Hf|congruence].
      + rewrite lookup_insert_ne by done. rewrite <- (sc_mem _ _ _ _ C). case_decide as E; [|done].
        subst. rewrite elem_of_cons. naive_solver.
    - intros o'. unfold ch_push. case_decide; [constructor; [apply Hf|]|]; apply (sc_nodup _ _ _ _ C).
    - intros o'. unfold ch_push. case_decide; cbn [linked]; [rewrite cell_insert_eq; split; [done|]|];
        apply linked_insert; [apply Hf|apply (sc_link _ _ _ _ C)|apply Hf|apply (sc_link _ _ _ _ C)].
    - intros i o'. unfold own'. rewrite lookup_insert_Some. intros [[<- _]|[_ Hi]]; [done|].
      by eapply (sc_bound _ _ _ _ C). }
  unfold chain_link. pose proof (chains_scan o) as S. unfold v0 in fin. destruct (ch o) as [|v l] eqn:Ec.
  - destruct S as [p F]. rewrite F. apply fin.
    rewrite <- Eh in F. destruct (indexed_insert I' _ _ _ (shome_bound own' slot) F Hnh) as [_ Ix]; [lia|].
    eapply indexed_ext; [| |exact Ix]; [|done]. intros w. rewrite heads_push_iff, Ec. naive_solver.
  - destruct S as [p F]. rewrite F. apply fin.
    rewrite <- Eh in F. pose proof (indexed_replace I' _ _ _ _ (shome_bound own' slot) F Hnh ltac:(lia)) as Ix.
    eapply indexed_ext; [| |exact Ix]; [|done]. intros w. rewrite heads_push_iff, Ec. cbn. naive_solver.
Qed.

(** ** Unlinking *)

Definition ch_drop (slot : Z) o' : list Z := filter (fun i => i <> slot) (ch o').

Lemma filter_ne_id (l : list Z) slot : slot ∉ l -> filter (fun i => i <> slot) l = l.
Proof using Type. intros H. apply filter_all. intros x Hx ->. done. Qed.

Lemma linked_ext nx' (l : list Z) : (forall i, i ∈ l -> nx'.[i] = nx.[i]) -> linked nx l -> linked nx' l.
Proof.
  induction l as [|i l IH]; [done|]. intros He [H1 H2]. split; [rewrite He by (by left); done|].
  apply IH; [|done]. intros j Hj. apply He. by right.
Qed.

Lemma unlink_walk_ok slot (l : list Z) : forall prev fuel,
  slot ∈ l -> NoDup (prev :: l) -> Forall (fun i => 0 <= i) l -> (length l <= fuel)%nat -> linked nx (prev :: l) ->
  linked (unlink_walk fuel nx prev (first_of l) slot) (prev :: filter (fun i => i <> slot) l) /\
  forall i, i ∉ prev :: l -> (unlink_walk fuel nx prev (first_of l) slot).[i] = nx.[i].
Proof using Type.
  clear - nx.
  induction l as [|c l IH]; intros prev fuel Hs Hnd Hpos Hf HL; [by apply elem_of_nil in Hs|].
  destruct fuel as [|fuel]; [cbn in Hf; lia|]. cbn [unlink_walk first_of head default].
  apply list.Forall_cons in Hpos as [Hc Hpos]. unfold first_of. cbn [head default from_option id].
  destruct (Z.ltb_spec c 0); [lia|]. apply list.NoDup_cons in Hnd as [Hp Hnd]. destruct HL as [E1 HL].
  destruct (Z.eqb_spec c slot) as [->|Hne].
  - apply list.NoDup_cons in Hnd as [Hsl Hnd]. destruct HL as [E2 HL].
    rewrite filter_cons_False by tauto. rewrite filter_ne_id by done.
    assert (prev <> slot) as Hps by (intros ->; apply Hp; by left). split.
    + split; [by rewrite cell_insert_ne, cell_insert_eq by done|].
      apply linked_insert; [done|]. apply linked_insert; [|done]. intros Hin. apply Hp. by right.
    + intros i Hi. rewrite !not_elem_of_cons in Hi. by rewrite !cell_insert_ne by naive_solver.
  - apply elem_of_cons in Hs as [?|Hs]; [done|]. rewrite filter_cons_True by done.
    destruct (IH c fuel Hs Hnd Hpos ltac:(cbn in Hf; lia) HL) as [R1 R2].
    destruct HL as [E2 HL]. rewrite E2. split; [|intros i Hi; apply R2; rewrite !not_elem_of_cons in *; naive_solver].
    split; [|exact R1]. rewrite R2 by done. exact E1.
Qed.

(** What remains to show for each branch of the unlinking. *)
Lemma chains_drop hd' nx' slot :
  (forall o, linked nx' (ch_drop slot o)) -> indexed sz hd' (shome own) (heads (ch_drop slot)) ->
  chains hd' nx' (delete slot own) (ch_drop slot).
Proof using C hash_bound.
  intros HL Ix. split; [| |exact HL| |].
  - intros o' i. unfold ch_drop. rewrite list_elem_of_filter, (sc_mem _ _ _ _ C), lookup_delete_Some. naive_solver.
  - intros o'. apply list.NoDup_filter, (sc_nodup _ _ _ _ C).
  - intros i o' [_ Hi]%lookup_delete_Some. by eapply (sc_bound _ _ _ _ C).
  - eapply indexed_ext; [| |exact Ix]; [done|]. intros v [o' Hv]. unfold shome. rewrite lookup_delete_ne; [done|].
    intros <-. apply head_elem in Hv. unfold ch_drop in Hv. apply list_elem_of_filter in Hv as [Hv _]. done.
Qed.

Lemma ch_drop_other o slot o' : own !! slot = Some o -> o' <> o -> ch_drop slot o' = ch o'.
Proof using C. intros Ho Hne. apply filter_ne_id. intros Hi%(sc_mem _ _ _ _ C). congruence. Qed.
End Inv.

Section Unlink.
Context {hd nx : gmap Z Z} {own : gmap Z K} {ch : K -> list Z} (C : chains hd nx own ch).
Context {o : K} {slot : Z} (Ho : own !! slot = Some o).
Let drop : K -> list Z := ch_drop (ch:=ch) slot.

Lemma chain_length : (length (ch o) <= cap)%nat.
Proof using C.
  rewrite <- (Nat2Z.id cap), <- (length_seqZ 0 (Z.of_nat cap)).
  apply submseteq_length, NoDup_submseteq; [apply (sc_nodup _ _ _ _ C)|].
  intros i Hi%(sc_mem _ _ _ _ C). apply elem_of_seqZ. apply (sc_bound _ _ _ _ C) in Hi. lia.
Qed.

Lemma chain_nonneg i : i ∈ ch o -> 0 <= i.
Proof using C. intros Hi%(sc_mem _ _ _ _ C). apply (sc_bound _ _ _ _ C) in Hi. lia. Qed.

(** The slot is the head, [l] the rest of its chain. *)
Lemma drop_head l : ch o = slot :: l -> drop o = l /\ slot ∉ l.
Proof using C.
  intros Ec. pose proof (sc_nodup _ _ _ _ C o) as Hnd. rewrite Ec in Hnd. apply list.NoDup_cons in Hnd as [Hsl _].
  split; [|done]. unfold drop, ch_drop. rewrite Ec, filter_cons_False by tauto. by apply filter_ne_id.
Qed.

Lemma heads_drop_head l v : ch o = slot :: l -> heads drop v <-> (heads ch v /\ v <> slot) \/ head l = Some v.
Proof using C Ho HK.
  intros Ec. destruct (drop_head l Ec) as [Ed _]. split.
  - intros [o' Hv]. destruct (decide (o' = o)) as [->|Ho']; [right; by rewrite <- Ed|left].
    unfold drop in Hv. rewrite (ch_drop_other C o) in Hv by done. split; [by exists o'|]. intros ->.
    apply head_elem, (sc_mem _ _ _ _ C) in Hv. congruence.
  - intros [[[o' Hv] Hne]|Hv]; [|exists o; by rewrite Ed]. exists o'. unfold drop. rewrite (ch_drop_other C o); [done..|].
    intros ->. rewrite Ec in Hv. cbn in Hv. congruence.
Qed.

Lemma unlink_head l hd' :
  ch o = slot :: l -> indexed sz hd' (shome own) (heads drop) ->
  chains hd' (<[slot:=-1]> nx) (delete slot own) drop.
Proof using C Ho HK hash_bound.
  intros Ec Ix. apply (chains_drop C); [|done]. intros o'. apply linked_insert.
  - unfold drop, ch_drop. rewrite list_elem_of_filter. tauto.
  - pose proof (sc_link _ _ _ _ C o') as HL. destruct (decide (o' = o)) as [->|Ho'].
    + fold drop. rewrite (proj1 (drop_head l Ec)). rewrite Ec in HL. apply HL.
    + by rewrite (ch_drop_other C o).
Qed.

(** The last slot of its chain: the cell of the head is removed. *)
Lemma unlink_last keep home p :
  ch o = [slot] -> scan sz hd (smatch own o) (hash o) = Found p slot ->
  (forall v, is_Some (own !! v) -> keep v = true /\ home v = shome own v) ->
  indexed sz (repair_if sz keep home (Z.to_nat sz) (delete p hd) (next_slot sz p)) (shome own) (heads drop).
Proof using C Ho HK cap_room hash_bound Hsz.
  intros Ec F Hk. pose proof (sc_ix _ _ _ _ C) as I. rewrite (repair_if_all _ _ _ (shome own)).
  2: { intros q v [_ Hq]%lookup_delete_Some. apply I in Hq as (_ & _ & (o' & _ & Hv)%(heads_own C)). eauto. }
  pose proof (scan_remove_ok _ _ _ _ _ _ _ I (shome_bound own) (hash_bound o) (chains_size C) F) as Ix.
  unfold scan_remove in Ix. rewrite F in Ix. eapply indexed_ext; [| |exact Ix]; [|done].
  intros v. rewrite (heads_drop_head [] v Ec). cbn. naive_solver.
Qed.

(** The next slot of the chain becomes its head. *)
Lemma unlink_moves x l p :
  ch o = slot :: x :: l -> scan sz hd (smatch own o) (hash o) = Found p slot ->
  indexed sz (<[p:=x]> hd) (shome own) (heads drop).
Proof using C Ho HK hash_bound Hsz.
  intros Ec F. assert (own !! x = Some o) as Hx by (apply (sc_mem _ _ _ _ C); rewrite Ec; right; by left).
  assert (shome own x = hash o) as Ex by (unfold shome; by rewrite Hx).
  assert (~ heads ch x) as Hnx.
  { intros (o' & Hv & Hx')%(heads_own C). assert (o' = o) as -> by congruence. rewrite Ec in Hv. cbn in Hv.
    apply (proj2 (drop_head _ Ec)). simplify_eq. by left. }
  assert (0 <= x) by (apply chain_nonneg; rewrite Ec; right; by left).
  rewrite <- Ex in F. pose proof (indexed_replace (sc_ix _ _ _ _ C) _ _ _ x (shome_bound own x) F Hnx ltac:(lia)) as Ix.
  eapply indexed_ext; [| |exact Ix]; [|done]. intros v. rewrite (heads_drop_head _ v Ec). cbn. naive_solver.
Qed.

(** The slot is further down the chain of [h]. *)
Lemma unlink_inner h l :
  ch o = h :: l -> h <> slot -> chains hd (unlink_walk cap nx h nx.[h] slot) (delete slot own) drop.
Proof using C Ho HK hash_bound.
  intros Ec Hne. assert (slot ∈ l) as Hin.
  { apply (sc_mem _ _ _ _ C) in Ho as Hi. rewrite Ec in Hi. by apply elem_of_cons in Hi as [->|?]. }
  assert (drop o = h :: filter (fun i => i <> slot) l) as Ed by (unfold drop, ch_drop; by rewrite Ec, filter_cons_True).
  pose proof (sc_link _ _ _ _ C o) as HLo. pose proof (sc_nodup _ _ _ _ C o) as Hnd. pose proof chain_length as Hlen.
  rewrite Ec in HLo, Hnd, Hlen. destruct (unlink_walk_ok (nx:=nx) slot l h cap Hin Hnd) as [R1 R2]; [|cbn in Hlen; lia|done|].
  { apply list.Forall_forall. intros i Hi. apply chain_nonneg. rewrite Ec. by right. }
  destruct HLo as [En _]. rewrite En. apply (chains_drop C).
  - intros o'. fold drop. destruct (decide (o' = o)) as [->|Ho']; [by rewrite Ed|]. unfold drop. rewrite (ch_drop_other C o) by done.
    apply (linked_ext (nx:=nx)); [|apply (sc_link _ _ _ _ C)]. intros i Hi. apply R2. intros Hi2. rewrite <- Ec in Hi2.
    apply (sc_mem _ _ _ _ C) in Hi, Hi2. congruence.
  - eapply indexed_ext; [| |exact (sc_ix _ _ _ _ C)]; [|done]. fold drop. intros v. split.
    + intros [o' Hv]. exists o'. destruct (decide (o' = o)) as [->|Ho']; [rewrite Ed; by rewrite Ec in Hv|].
      unfold drop. by rewrite (ch_drop_other C o).
    + intros [o' Hv]. exists o'. destruct (decide (o' = o)) as [->|Ho']; [rewrite Ec; by rewrite Ed in Hv|].
      unfold drop in Hv. by rewrite (ch_drop_other C o) in Hv.
Qed.
End Unlink.

Lemma chains_unlink {hd nx own ch} keep home o slot :
  chains hd nx own ch -> own !! slot = Some o ->
  (forall v, is_Some (own !! v) -> keep v = true /\ home v = shome own v) ->
  let '(hd', nx') := chain_unlink sz keep home cap hd nx (smatch own o) (hash o) slot in
  chains hd' nx' (delete slot own) (ch_drop (ch:=ch) slot).
Proof using cap_room hash_bound Hsz.
  intros C Ho Hk. pose proof (chains_scan C o) as S. unfold chain_unlink. destruct (ch o) as [|h l] eqn:Ec.
  { apply (sc_mem _ _ _ _ C) in Ho. rewrite Ec in Ho. by apply elem_of_nil in Ho. }
  destruct S as [p F]. rewrite F. destruct (Z.eqb_spec h slot) as [->|Hne]; [|by apply (unlink_inner C Ho h l)].
  pose proof (sc_link _ _ _ _ C o) as HL. rewrite Ec in HL. destruct HL as [-> _]. unfold first_of.
  destruct l as [|x l]; cbn [head default from_option id].
  - cbn [Z.ltb Z.compare]. apply (unlink_head C Ho []); [done|]. by apply (unlink_last C Ho).
  - assert (0 <= x) by (apply (chain_nonneg C (o:=o)); rewrite Ec; right; by left).
    destruct (Z.ltb_spec x 0); [lia|]. apply (unlink_head C Ho (x :: l)); [done|]. by apply (unlink_moves C Ho x l).
Qed.
End SlotChains.
