(* ===== verification/KeyedMap.v ===== *)
(** * The map that a list of keyed records represents

    The components keep their records in arrays; their abstract value is a
    finite map from keys to values.  [kmap] is that map, and the lemmas say
    how it changes when a record is appended, updated in place or removed.
    [ktable] is the contract between a component and its index: the records
    have distinct keys, there are at most [max] of them, and the table
    indexes them; [ktable_find] and [ktable_append] are what a lookup and an
    insertion promise. *)
From S2P Require Import Prelude ProbeIndex.

Section KMap.
Context {E K V : Type} `{Countable K} (key : E -> K) (val : E -> V).
Implicit Types (l : list E) (e : E).

Definition kmap l : gmap K V := list_to_map ((fun e => (key e, val e)) <$> l).

Lemma kmap_keys l : ((fun e => (key e, val e)) <$> l).*1 = key <$> l.
Proof. rewrite <- list_fmap_compose. done. Qed.

Lemma kmap_at l i e :
  NoDup (key <$> l) -> at_ l i = Some e -> kmap l !! key e = Some (val e).
Proof.
  intros Hnd [_ He]%at_Some. apply elem_of_list_to_map.
  - by rewrite kmap_keys.
  - apply list_elem_of_fmap. exists e. split; [done|]. by eapply list_elem_of_lookup_2.
Qed.

Lemma kmap_None l x : x ∉ key <$> l -> kmap l !! x = None.
Proof. intros Hx. apply not_elem_of_list_to_map. by rewrite kmap_keys. Qed.

Lemma kmap_lookup_Some l x v :
  NoDup (key <$> l) -> kmap l !! x = Some v -> exists i e, at_ l i = Some e /\ key e = x /\ val e = v.
Proof.
  intros Hnd Hx. apply elem_of_list_to_map_2, list_elem_of_fmap in Hx as (e & Ee & He).
  apply list_elem_of_lookup in He as [n Hn]. simplify_eq.
  exists (Z.of_nat n), e. by rewrite at_of_nat.
Qed.

Lemma kmap_is_Some l x : NoDup (key <$> l) -> (is_Some (kmap l !! x) <-> x ∈ key <$> l).
Proof.
  intros Hnd. split.
  - intros [v Hv]. apply kmap_lookup_Some in Hv as (i & e & He & <- & _); [|done].
    apply at_Some in He as [_ He]. apply list_elem_of_fmap. exists e. split; [done|].
    by eapply list_elem_of_lookup_2.
  - intros (e & -> & He)%list_elem_of_fmap. apply list_elem_of_lookup in He as [n Hn].
    rewrite <- at_of_nat in Hn. rewrite (kmap_at l (Z.of_nat n) e) by done. by eexists.
Qed.

Lemma kmap_size l : NoDup (key <$> l) -> size (kmap l) = length l.
Proof.
  intros Hnd. unfold kmap. rewrite map_size_list_to_map by by rewrite kmap_keys.
  apply length_fmap.
Qed.

Lemma kmap_snoc l e : key e ∉ key <$> l -> kmap (l ++ [e]) = <[key e := val e]> (kmap l).
Proof.
  intros Hx. unfold kmap. rewrite fmap_app. cbn. rewrite list_to_map_snoc; [done|].
  by rewrite kmap_keys.
Qed.

(** An entry whose lookup in the list is decided by its key. *)
Lemma kmap_ext l l' :
  (fun e => (key e, val e)) <$> l = (fun e => (key e, val e)) <$> l' -> kmap l = kmap l'.
Proof. intros E1. unfold kmap. by rewrite E1. Qed.

Lemma kmap_upd f l i e :
  NoDup (key <$> l) -> at_ l i = Some e -> key (f e) = key e ->
  kmap (upd_at f i l) = <[key e := val (f e)]> (kmap l).
Proof.
  intros Hnd He Hk. assert (key <$> upd_at f i l = key <$> l) as Ek.
  { apply fmap_upd_at; [|apply at_lt in He; lia]. intros x Hx. congruence. }
  assert (NoDup (key <$> upd_at f i l)) as Hnd' by by rewrite Ek.
  apply map_eq. intros x. destruct (decide (x = key e)) as [->|Hne].
  - rewrite lookup_insert_eq. rewrite <- Hk. apply (kmap_at _ i); [done|]. by apply at_upd_eq.
  - rewrite lookup_insert_ne by done. destruct (kmap l !! x) as [v|] eqn:Ex.
    + apply kmap_lookup_Some in Ex as (j & e' & Hj & <- & <-); [|done].
      apply (kmap_at _ j); [done|]. rewrite at_upd_ne; [done|congruence|apply at_lt in He; lia].
    + apply kmap_None. rewrite Ek. intros Hin.
      apply (kmap_is_Some l x Hnd) in Hin as [? ?]. congruence.
Qed.

Lemma kmap_remove l1 e l2 :
  NoDup (key <$> l1 ++ e :: l2) -> kmap (l1 ++ l2) = delete (key e) (kmap (l1 ++ e :: l2)).
Proof.
  intros Hnd. unfold kmap. rewrite !fmap_app, fmap_cons. rewrite !list_to_map_app. cbn.
  rewrite fmap_app, fmap_cons in Hnd. apply list.NoDup_app in Hnd as (_ & Hd & Hc).
  apply list.NoDup_cons in Hc as [He _].
  assert (key e ∉ key <$> l1) as He1 by (intros Hin; apply (Hd _ Hin); by left).
  rewrite delete_union. rewrite delete_insert_eq.
  rewrite !delete_id; [done|..]; apply not_elem_of_list_to_map; by rewrite kmap_keys.
Qed.

(** A record overwritten with one of a fresh key. *)
Lemma kmap_replace l i old e :
  NoDup (key <$> l) -> at_ l i = Some old -> key e ∉ key <$> l ->
  NoDup (key <$> upd_at (fun _ => e) i l) /\
  kmap (upd_at (fun _ => e) i l) = <[key e := val e]> (delete (key old) (kmap l)).
Proof.
  intros Hnd (l1 & l2 & -> & ->)%at_split Hf. rewrite upd_at_app.
  assert (forall x, (key <$> l1 ++ x :: l2) ≡ₚ key x :: (key <$> l1 ++ l2)) as Hp.
  { intros x. rewrite !fmap_app, fmap_cons. symmetry. apply Permutation_middle. }
  rewrite (Hp old) in Hnd, Hf. apply list.NoDup_cons in Hnd as [Ho Hn2].
  apply not_elem_of_cons in Hf as [_ Hf2].
  assert (NoDup (key <$> l1 ++ e :: l2)) as Hn1 by (rewrite Hp; by apply list.NoDup_cons).
  split; [done|]. rewrite <- kmap_remove by (rewrite Hp; by apply list.NoDup_cons).
  change (<[key e:=val e]> (kmap (l1 ++ l2))) with (kmap (e :: l1 ++ l2)).
  unfold kmap. apply list_to_map_proper.
  - by rewrite kmap_keys.
  - symmetry. apply fmap_Permutation, Permutation_middle.
Qed.
End KMap.

Arguments kmap : simpl never.

(** ** Records with an index table *)

Section KTable.
Context {sz : Z} {Hsz : Pow2 sz} {E K V : Type} `{Countable K}.
Context (key : E -> K) (val : E -> V) (hash : K -> Z) (max : Z).
Context (hash_bound : forall x, 0 <= hash x < sz) (max_room : max < sz).
Implicit Types (l : list E) (t : gmap Z Z) (e : E) (x : K).

Record ktable t l : Prop := {
  kt_index : kindex (sz:=sz) hash t (key <$> l);
  kt_nodup : NoDup (key <$> l);
  kt_max : Z.of_nat (length l) <= max }.

(** [m] is the test of a lookup loop for key [x]. *)
Definition tests l x (m : Z -> bool) : Prop :=
  forall ei, m ei = match at_ l ei with Some e => bool_decide (key e = x) | None => false end.

Lemma tests_scan t l x m : tests l x m -> scan sz t m (hash x) = scan sz t (kmatch (key <$> l) x) (hash x).
Proof.
  intros Hm. apply scan_ext. intros v. rewrite Hm. unfold kmatch. rewrite at_fmap.
  by destruct (at_ l v).
Qed.

Lemma ktable_empty : 0 <= max -> ktable ∅ [].
Proof. intros. split; [apply kindex_empty|constructor|cbn; lia]. Qed.

(** A lookup stops at the record of its key, or at an empty cell when the
    key is unbound. *)
Lemma ktable_find t l x m :
  ktable t l -> tests l x m ->
  (exists p i e, scan sz t m (hash x) = Found p i /\ at_ l i = Some e /\ key e = x /\
                 kmap key val l !! x = Some (val e)) \/
  (exists p, scan sz t m (hash x) = Vacant p /\ kmap key val l !! x = None /\ x ∉ key <$> l).
Proof using hash_bound max_room Hsz.
  intros [I Hnd Hmax] Hm. rewrite (tests_scan _ l) by done.
  destruct (decide (x ∈ key <$> l)) as [Hin|Hnin].
  - left. apply list_elem_of_lookup in Hin as [n Hn]. rewrite <- at_of_nat in Hn.
    destruct (kscan_hit hash hash_bound _ _ x _ I Hnd Hn) as [p F].
    rewrite at_fmap in Hn. destruct (at_ l (Z.of_nat n)) as [e|] eqn:Ee; [|done].
    cbn in Hn. simplify_eq. exists p, (Z.of_nat n), e. split_and!; try done.
    by apply (kmap_at key val l (Z.of_nat n)).
  - right. destruct (kscan_miss hash hash_bound _ _ x I Hnin) as [p F].
    { rewrite length_fmap. lia. }
    exists p. split_and!; try done. by apply kmap_None.
Qed.

(** A record stored at the empty cell where the lookup of its key stopped. *)
Lemma ktable_append t l e m p :
  ktable t l -> scan sz t m (hash (key e)) = Vacant p -> key e ∉ key <$> l ->
  Z.of_nat (length l) < max ->
  ktable (<[p:=Z.of_nat (length l)]> t) (l ++ [e]) /\
  kmap key val (l ++ [e]) = <[key e := val e]> (kmap key val l).
Proof using hash_bound Hsz.
  intros [I Hnd Hmax] F Hnin Hlt. split; [|by apply kmap_snoc]. split.
  - rewrite fmap_app. replace (length l) with (length (key <$> l)) by apply length_fmap.
    by eapply kindex_snoc.
  - rewrite fmap_app. by apply NoDup_snoc.
  - rewrite length_app. cbn. lia.
Qed.

(** The same through a separate insertion loop. *)
Lemma ktable_insert t l e :
  ktable t l -> key e ∉ key <$> l -> Z.of_nat (length l) < max ->
  ktable (scan_insert sz t (hash (key e)) (Z.of_nat (length l))) (l ++ [e]) /\
  kmap key val (l ++ [e]) = <[key e := val e]> (kmap key val l).
Proof using hash_bound max_room Hsz.
  intros T Hnin Hlt. unfold scan_insert.
  destruct (scan_miss (ki_ix _ _ _ (kt_index _ _ T)) (fun _ => false) (hash (key e))) as [p F]; try done.
  - rewrite (ki_size _ _ _ (kt_index _ _ T)), length_fmap. lia.
  - rewrite F. by eapply ktable_append.
Qed.

(** An update in place that keeps the key. *)
Lemma ktable_upd t l i e f :
  ktable t l -> at_ l i = Some e -> key (f e) = key e ->
  ktable t (upd_at f i l) /\ kmap key val (upd_at f i l) = <[key e := val (f e)]> (kmap key val l).
Proof.
  intros [I Hnd Hmax] He Hk. assert (key <$> upd_at f i l = key <$> l) as Ek.
  { apply fmap_upd_at; [|apply at_lt in He; lia]. intros y Hy. congruence. }
  split; [split|].
  - by rewrite Ek.
  - by rewrite Ek.
  - by rewrite length_upd_at.
  - by apply kmap_upd.
Qed.
End KTable.

(** ** The record with the smallest value *)

Section Oldest.
Context {E : Type} (f : E -> Z).

(** [for (i = 1; i < n; i++) if (a[i] < a[oldest]) oldest = i]. *)
Fixpoint oldest_from (l : list E) (i oldest w : Z) : Z :=
  match l with
  | [] => oldest
  | e :: l' => if f e <? w then oldest_from l' (i + 1) i (f e) else oldest_from l' (i + 1) oldest w
  end.

Lemma oldest_from_min l : forall pre i oldest w,
  i = Z.of_nat (length pre) -> (exists e, at_ pre oldest = Some e /\ f e = w) -> (forall e, e ∈ pre -> w <= f e) ->
  exists e, at_ (pre ++ l) (oldest_from l i oldest w) = Some e /\ forall e', e' ∈ pre ++ l -> f e <= f e'.
Proof.
  induction l as [|x l IH]; intros pre i oldest w -> (e & He & <-) Hmin; cbn.
  { rewrite app_nil_r. eauto. }
  rewrite (cons_middle x), app_assoc. rewrite <- (Nat2Z.inj_add _ 1). change 1%nat with (length [x]).
  rewrite <- length_app. destruct (Z.ltb_spec (f x) (f e)).
  - apply IH; [done|exists x; by rewrite at_snoc|].
    intros e' [He'|He']%elem_of_app; [apply Hmin in He'; lia|].
    apply list_elem_of_singleton in He'. by subst.
  - apply IH; [done| |].
    + exists e. split; [|done]. rewrite at_app_l; [done|apply at_lt in He; lia].
    + intros e' [He'|He']%elem_of_app; [by apply Hmin|]. apply list_elem_of_singleton in He'. by subst.
Qed.

Lemma oldest_min e l :
  exists o, at_ (e :: l) (oldest_from l 1 0 (f e)) = Some o /\ forall e', e' ∈ e :: l -> f o <= f e'.
Proof.
  apply (oldest_from_min l [e] 1 0); [done|by exists e|].
  intros e' He'. apply list_elem_of_singleton in He'. by subst.
Qed.
End Oldest.
