(* ===== verification/Seq.v ===== *)
(** * Conversation sequence numbers and read positions (storage/miku_seq.c)

    Each operation runs under the allocator's mutex, so it is one step of the
    state.  [entries] and [user_reads] are the used prefixes of the C arrays
    ([entry_count] and [user_read_count] are their lengths).  The abstract
    values are [seq_map] (conversation to last sequence number) and
    [read_map] (user and conversation to read position). *)
From S2P Require Import Prelude Hash ProbeIndex KeyedMap.

Definition MK_SEQ_HASH : Z := 131072.
Definition MK_SEQ_MAX_CONVERSATIONS : Z := 65536.

Record seq_entry := SeqEntry { se_conv_id : string; se_current : Z }.

Record user_read_entry := UserRead { ur_user_id : string; ur_conv_id : string; ur_read_seq : Z }.

Record miku_seq := MikuSeq {
  entries : list seq_entry;
  conv_hash : gmap Z Z;
  user_reads : list user_read_entry;
  read_hash : gmap Z Z }.

Definition conv_hash_slot (conv_id : string) : Z := mask_slot MK_SEQ_HASH (fnv1a_64 conv_id).

Definition read_hash_slot (user_id conv_id : string) : Z :=
  pair_slot_of MK_SEQ_HASH (fnv1a_64 user_id) (fnv1a_64 conv_id).

Definition miku_seq_create : miku_seq := MikuSeq [] ∅ [] ∅.

(** [strcmp(seq->entries[ei].conv_id, conv_id) == 0]. *)
Definition conv_match (s : miku_seq) (conv_id : string) (ei : Z) : bool :=
  match at_ (entries s) ei with Some e => streq (se_conv_id e) conv_id | None => false end.

Definition find_or_create_seq (s : miku_seq) (conv_id : string) : option Z * miku_seq :=
  match scan MK_SEQ_HASH (conv_hash s) (conv_match s conv_id) (conv_hash_slot conv_id) with
  | Vacant idx =>
      let n := Z.of_nat (length (entries s)) in
      if MK_SEQ_MAX_CONVERSATIONS <=? n then (None, s)
      else (Some n, MikuSeq (entries s ++ [SeqEntry (strn 127 conv_id) 0])
                            (<[idx:=n]> (conv_hash s)) (user_reads s) (read_hash s))
  | Found _ ei => (Some ei, s)
  | Exhausted => (None, s)
  end.

Definition find_seq (s : miku_seq) (conv_id : string) : option Z :=
  match scan MK_SEQ_HASH (conv_hash s) (conv_match s conv_id) (conv_hash_slot conv_id) with
  | Found _ ei => Some ei
  | _ => None
  end.

Definition set_current (f : Z -> Z) (ei : Z) (s : miku_seq) : miku_seq :=
  MikuSeq (upd_at (fun e => SeqEntry (se_conv_id e) (f (se_current e))) ei (entries s))
          (conv_hash s) (user_reads s) (read_hash s).

Definition current_at (s : miku_seq) (ei : Z) : Z :=
  match at_ (entries s) ei with Some e => se_current e | None => 0 end.

Definition miku_seq_next (s : miku_seq) (conversation_id : option string) : Z * miku_seq :=
  match conversation_id with
  | None => (-1, s)
  | Some c =>
      if negb (nonempty c) then (-1, s) else
      match find_or_create_seq s c with
      | (None, s') => (-1, s')
      | (Some ei, s') =>
          let s'' := set_current (fun v => i64 (v + 1)) ei s' in (current_at s'' ei, s'')
      end
  end.

Definition miku_seq_current (s : miku_seq) (conversation_id : option string) : Z :=
  match conversation_id with
  | None => 0
  | Some c => match find_seq s c with Some ei => current_at s ei | None => 0 end
  end.

Definition miku_seq_set (s : miku_seq) (conversation_id : option string) (val : Z) : Z * miku_seq :=
  match conversation_id with
  | None => (-1, s)
  | Some c =>
      if negb (nonempty c) then (-1, s) else
      match find_or_create_seq s c with
      | (None, s') => (-1, s')
      | (Some ei, s') => (0, set_current (fun _ => val) ei s')
      end
  end.

Definition read_match (s : miku_seq) (user_id conv_id : string) (ei : Z) : bool :=
  match at_ (user_reads s) ei with
  | Some ur => streq (ur_user_id ur) user_id && streq (ur_conv_id ur) conv_id
  | None => false
  end.

Definition find_or_create_read (s : miku_seq) (user_id conv_id : string) : option Z * miku_seq :=
  match scan MK_SEQ_HASH (read_hash s) (read_match s user_id conv_id)
             (read_hash_slot user_id conv_id) with
  | Vacant idx =>
      let n := Z.of_nat (length (user_reads s)) in
      if MK_SEQ_MAX_CONVERSATIONS <=? n then (None, s)
      else (Some n, MikuSeq (entries s) (conv_hash s)
                            (user_reads s ++ [UserRead (strn 63 user_id) (strn 127 conv_id) 0])
                            (<[idx:=n]> (read_hash s)))
  | Found _ ei => (Some ei, s)
  | Exhausted => (None, s)
  end.

Definition find_read (s : miku_seq) (user_id conv_id : string) : option Z :=
  match scan MK_SEQ_HASH (read_hash s) (read_match s user_id conv_id)
             (read_hash_slot user_id conv_id) with
  | Found _ ei => Some ei
  | _ => None
  end.

(** [ur->read_seq = read_seq > ur->read_seq ? read_seq : ur->read_seq]. *)
Definition raise_read (read_seq : Z) (ur : user_read_entry) : user_read_entry :=
  UserRead (ur_user_id ur) (ur_conv_id ur)
           (if ur_read_seq ur <? read_seq then read_seq else ur_read_seq ur).

Definition miku_seq_set_user_read (s : miku_seq) (user_id conversation_id : option string)
    (read_seq : Z) : Z * miku_seq :=
  match user_id, conversation_id with
  | Some u, Some c =>
      match find_or_create_read s u c with
      | (None, s') => (-1, s')
      | (Some ei, s') =>
          (0, MikuSeq (entries s') (conv_hash s')
                      (upd_at (raise_read read_seq) ei (user_reads s')) (read_hash s'))
      end
  | _, _ => (-1, s)
  end.

Definition miku_seq_get_user_read (s : miku_seq) (user_id conversation_id : option string) : Z :=
  match user_id, conversation_id with
  | Some u, Some c =>
      match find_read s u c with
      | Some ei => match at_ (user_reads s) ei with Some ur => ur_read_seq ur | None => 0 end
      | None => 0
      end
  | _, _ => 0
  end.

(** A history of [miku_seq_next] calls, one per conversation identifier. *)
Fixpoint run_next (s : miku_seq) (cs : list string) : list Z * miku_seq :=
  match cs with
  | [] => ([], s)
  | c :: cs' =>
      let '(v, s1) := miku_seq_next s (Some c) in
      let '(vs, s2) := run_next s1 cs' in (v :: vs, s2)
  end.

(** ** Abstract values and invariant *)

Definition read_key (ur : user_read_entry) : string * string := (ur_user_id ur, ur_conv_id ur).
Definition read_hash_of (k : string * string) : Z := read_hash_slot k.1 k.2.

Definition seq_map (s : miku_seq) : gmap string Z := kmap se_conv_id se_current (entries s).
Definition read_map (s : miku_seq) : gmap (string * string) Z := kmap read_key ur_read_seq (user_reads s).

Definition conv_table := ktable (sz:=MK_SEQ_HASH) se_conv_id conv_hash_slot MK_SEQ_MAX_CONVERSATIONS.
Definition read_table := ktable (sz:=MK_SEQ_HASH) read_key read_hash_of MK_SEQ_MAX_CONVERSATIONS.

(** Identifiers that fit the C buffers [conv_id[128]] and [user_id[64]]. *)
Definition fits_conv (c : string) : Prop := (String.length c <= 127)%nat.
Definition fits_user (u : string) : Prop := (String.length u <= 63)%nat.

Record seq_ok (s : miku_seq) : Prop := {
  so_conv : conv_table (conv_hash s) (entries s);
  so_fits : Forall fits_conv (se_conv_id <$> entries s);
  so_read : read_table (read_hash s) (user_reads s) }.

(** The conversation has an entry or there is room for one. *)
Definition conv_room (s : miku_seq) (c : string) : Prop :=
  is_Some (seq_map s !! c) \/ Z.of_nat (length (entries s)) < MK_SEQ_MAX_CONVERSATIONS.
Definition read_room (s : miku_seq) (k : string * string) : Prop :=
  is_Some (read_map s !! k) \/ Z.of_nat (length (user_reads s)) < MK_SEQ_MAX_CONVERSATIONS.

(** ** The abstract specification *)

(** The operations, with the arguments the C functions take. *)
Inductive seq_op :=
  | OpNext (c : option string)
  | OpCurrent (c : option string)
  | OpSet (c : option string) (v : Z)
  | OpSetRead (u c : option string) (r : Z)
  | OpGetRead (u c : option string).

Definition run_op (s : miku_seq) (o : seq_op) : Z * miku_seq :=
  match o with
  | OpNext c => miku_seq_next s c
  | OpCurrent c => (miku_seq_current s c, s)
  | OpSet c v => miku_seq_set s c v
  | OpSetRead u c r => miku_seq_set_user_read s u c r
  | OpGetRead u c => (miku_seq_get_user_read s u c, s)
  end.

(** Binding [x] keeps the map within MK_SEQ_MAX_CONVERSATIONS bindings. *)
Definition bounded {K} `{Countable K} (m : gmap K Z) (x : K) : bool :=
  bool_decide (is_Some (m !! x)) || (Z.of_nat (size m) <? MK_SEQ_MAX_CONVERSATIONS).

Definition spec_op (a : gmap string Z * gmap (string * string) Z) (o : seq_op) :
    Z * (gmap string Z * gmap (string * string) Z) :=
  let '(m, r) := a in
  match o with
  | OpNext None | OpSet None _ | OpSetRead None _ _ | OpSetRead _ None _ => (-1, a)
  | OpCurrent None | OpGetRead None _ | OpGetRead _ None => (0, a)
  | OpNext (Some c) =>
      if negb (nonempty c) then (-1, a)
      else if bounded m c then
        let n := i64 (default 0 (m !! c) + 1) in (n, (<[c := n]> m, r))
      else (-1, a)
  | OpCurrent (Some c) => (default 0 (m !! c), a)
  | OpSet (Some c) v =>
      if negb (nonempty c) then (-1, a)
      else if bounded m c then (0, (<[c := v]> m, r)) else (-1, a)
  | OpSetRead (Some u) (Some c) v =>
      if bounded r (u, c) then (0, (m, <[(u, c) := Z.max (default 0 (r !! (u, c))) v]> r)) else (-1, a)
  | OpGetRead (Some u) (Some c) => (default 0 (r !! (u, c)), a)
  end.

(** The identifiers of an operation fit the C buffers. *)
Definition op_fits (o : seq_op) : Prop :=
  match o with
  | OpNext (Some c) | OpSet (Some c) _ => fits_conv c
  | OpSetRead (Some u) (Some c) _ => fits_user u /\ fits_conv c
  | _ => True
  end.

Definition valid_conv (c : string) : Prop := nonempty c = true /\ fits_conv c.

(** How often [c] occurs among the first [i + 1] calls. *)
Definition calls_for (c : string) (cs : list string) (i : nat) : Z :=
  Z.of_nat (length (filter (fun y => y = c) (take (S i) cs))).

Fixpoint rep (n : nat) (c s : string) : string :=
  match n with O => s | S n' => c +:+ rep n' c s end.

(** The single-chat identifier of two users with 63-character identifiers. *)
Definition long_si_id : string :=
  ("si_63_" +:+ rep 63 "a" ("_" +:+ rep 63 "b" ""))%string.

#[export] Instance pow2_seq : Pow2 MK_SEQ_HASH.
Proof. by exists 17. Qed.

Lemma conv_hash_slot_bound c : 0 <= conv_hash_slot c < MK_SEQ_HASH.
Proof. apply (mask_slot_bound 17). lia. Qed.

Lemma read_hash_of_bound k : 0 <= read_hash_of k < MK_SEQ_HASH.
Proof. apply (mask_slot_bound 17). lia. Qed.

Lemma conv_tests s c : tests se_conv_id (entries s) c (conv_match s c).
Proof. intros ei. unfold conv_match. destruct (at_ _ ei); [|done]. apply streq_bool. Qed.

Lemma read_tests s u c : tests read_key (user_reads s) (u, c) (read_match s u c).
Proof.
  intros ei. unfold read_match, read_key. destruct (at_ _ ei) as [ur|]; [|done].
  rewrite !streq_bool. repeat case_bool_decide; naive_solver.
Qed.

Lemma seq_ok_create : seq_ok miku_seq_create.
Proof. split; [by apply ktable_empty|constructor|by apply ktable_empty]. Qed.

Lemma conv_find s c : seq_ok s ->
  (exists p i e, scan MK_SEQ_HASH (conv_hash s) (conv_match s c) (conv_hash_slot c) = Found p i /\
     at_ (entries s) i = Some e /\ se_conv_id e = c /\ seq_map s !! c = Some (se_current e)) \/
  (exists p, scan MK_SEQ_HASH (conv_hash s) (conv_match s c) (conv_hash_slot c) = Vacant p /\
     seq_map s !! c = None /\ c ∉ se_conv_id <$> entries s).
Proof. intros O. apply (ktable_find se_conv_id se_current conv_hash_slot MK_SEQ_MAX_CONVERSATIONS); 
    [apply conv_hash_slot_bound|done|apply so_conv, O|apply conv_tests]. Qed.

Lemma read_find s u c : seq_ok s ->
  (exists p i e, scan MK_SEQ_HASH (read_hash s) (read_match s u c) (read_hash_slot u c) = Found p i /\
     at_ (user_reads s) i = Some e /\ read_key e = (u, c) /\ read_map s !! (u, c) = Some (ur_read_seq e)) \/
  (exists p, scan MK_SEQ_HASH (read_hash s) (read_match s u c) (read_hash_slot u c) = Vacant p /\
     read_map s !! (u, c) = None /\ (u, c) ∉ read_key <$> user_reads s).
Proof.
  intros O. apply (ktable_find read_key ur_read_seq read_hash_of MK_SEQ_MAX_CONVERSATIONS) with (x := (u, c));
    [apply read_hash_of_bound|done|apply so_read, O|apply read_tests].
Qed.

(** [find_or_create_seq] finds the conversation, or appends it with number 0. *)
Lemma find_or_create_seq_ok s c :
  seq_ok s -> fits_conv c -> conv_room s c ->
  exists ei e s', find_or_create_seq s c = (Some ei, s') /\ seq_ok s' /\
    at_ (entries s') ei = Some e /\ se_conv_id e = c /\ se_current e = default 0 (seq_map s !! c) /\
    seq_map s' = <[c := default 0 (seq_map s !! c)]> (seq_map s) /\ read_map s' = read_map s.
Proof.
  intros O Hc Hroom. unfold find_or_create_seq.
  destruct (conv_find s c O) as [(p & i & e & -> & Hi & <- & M)|(p & F & M & Hn)].
  - exists i, e, s. rewrite M. split_and!; try done. cbn. by rewrite insert_id.
  - rewrite F. assert (Z.of_nat (length (entries s)) < MK_SEQ_MAX_CONVERSATIONS) as Hr.
    { destruct Hroom as [[? ?]|]; [congruence|done]. }
    destruct (Z.leb_spec MK_SEQ_MAX_CONVERSATIONS (Z.of_nat (length (entries s)))); [lia|].
    rewrite strn_short by done.
    destruct (ktable_append se_conv_id se_current conv_hash_slot MK_SEQ_MAX_CONVERSATIONS
      conv_hash_slot_bound _ _ (SeqEntry c 0) _ p (so_conv s O) F Hn Hr) as [T M2].
    eexists _, (SeqEntry c 0), _. split; [done|]. rewrite M. split_and!; try done.
    + split; [done| |apply O]. cbn. rewrite fmap_app.
      apply Forall_app. split; [apply O|]. by constructor.
    + apply at_snoc.
Qed.

Lemma find_or_create_seq_full s c :
  seq_ok s -> ~ conv_room s c -> find_or_create_seq s c = (None, s).
Proof.
  intros O Hroom. unfold find_or_create_seq, conv_room in *.
  destruct (conv_find s c O) as [(p & i & e & -> & Hi & <- & M)|(p & -> & M & Hn)].
  - exfalso. apply Hroom. left. by eexists.
  - destruct (Z.leb_spec MK_SEQ_MAX_CONVERSATIONS (Z.of_nat (length (entries s)))); [done|].
    exfalso. apply Hroom. by right.
Qed.

Lemma set_current_ok f s ei e :
  seq_ok s -> at_ (entries s) ei = Some e ->
  seq_ok (set_current f ei s) /\ current_at (set_current f ei s) ei = f (se_current e) /\
  seq_map (set_current f ei s) = <[se_conv_id e := f (se_current e)]> (seq_map s) /\
  read_map (set_current f ei s) = read_map s.
Proof.
  intros O He. destruct (ktable_upd se_conv_id se_current conv_hash_slot MK_SEQ_MAX_CONVERSATIONS
    _ _ ei e (fun e => SeqEntry (se_conv_id e) (f (se_current e))) (so_conv s O) He eq_refl) as [T M].
  split_and!; try done.
  - split; [done| |apply O]. cbn.
    rewrite fmap_upd_at; [|done|apply at_lt in He; lia]. apply O.
  - unfold current_at, set_current. cbn. by rewrite (at_upd_eq _ _ _ e).
Qed.

Lemma miku_seq_next_ok s c :
  seq_ok s -> nonempty c = true -> fits_conv c -> conv_room s c ->
  exists s', let n := i64 (default 0 (seq_map s !! c) + 1) in
    miku_seq_next s (Some c) = (n, s') /\ seq_ok s' /\
    seq_map s' = <[c := n]> (seq_map s) /\ read_map s' = read_map s.
Proof.
  intros O Hne Hc Hr. unfold miku_seq_next. rewrite Hne. cbn [negb].
  destruct (find_or_create_seq_ok s c O Hc Hr) as (ei & e & s1 & -> & O1 & He & Ek & Ecur & M1 & R1).
  destruct (set_current_ok (fun v => i64 (v + 1)) s1 ei e O1 He) as (O2 & Cur & M2 & R2).
  rewrite Ecur in Cur, M2. eexists. cbn zeta. rewrite Cur. split_and!; try done.
  rewrite M2, M1, Ek. by rewrite insert_insert_eq.
Qed.

Lemma miku_seq_next_full s c :
  seq_ok s -> ~ conv_room s c -> miku_seq_next s (Some c) = (-1, s).
Proof.
  intros O Hr. unfold miku_seq_next. destruct (nonempty c); [|done]. cbn.
  by rewrite find_or_create_seq_full.
Qed.

Lemma miku_seq_current_ok s c :
  seq_ok s -> miku_seq_current s (Some c) = default 0 (seq_map s !! c).
Proof.
  intros O. unfold miku_seq_current, find_seq, current_at.
  destruct (conv_find s c O) as [(p & i & e & -> & Hi & <- & ->)|(p & -> & -> & _)]; [|done].
  by rewrite Hi.
Qed.

Lemma miku_seq_set_ok s c v :
  seq_ok s -> nonempty c = true -> fits_conv c -> conv_room s c ->
  exists s', miku_seq_set s (Some c) v = (0, s') /\ seq_ok s' /\
    seq_map s' = <[c := v]> (seq_map s) /\ read_map s' = read_map s.
Proof.
  intros O Hne Hc Hr. unfold miku_seq_set. rewrite Hne. cbn.
  destruct (find_or_create_seq_ok s c O Hc Hr) as (ei & e & s1 & -> & O1 & He & Ek & Ecur & M1 & R1).
  destruct (set_current_ok (fun _ => v) s1 ei e O1 He) as (O2 & _ & M2 & R2).
  eexists. split_and!; try done. rewrite M2, M1, Ek. by rewrite insert_insert_eq.
Qed.

Lemma find_or_create_read_ok s u c :
  seq_ok s -> fits_user u -> fits_conv c -> read_room s (u, c) ->
  exists ei e s', find_or_create_read s u c = (Some ei, s') /\ seq_ok s' /\
    at_ (user_reads s') ei = Some e /\ read_key e = (u, c) /\
    ur_read_seq e = default 0 (read_map s !! (u, c)) /\
    read_map s' = <[(u, c) := default 0 (read_map s !! (u, c))]> (read_map s) /\ seq_map s' = seq_map s.
Proof.
  intros O Hu Hc Hroom. unfold find_or_create_read.
  destruct (read_find s u c O) as [(p & i & e & -> & Hi & <- & M)|(p & F & M & Hn)].
  - exists i, e, s. rewrite M. split_and!; try done. cbn. by rewrite insert_id.
  - rewrite F. assert (Z.of_nat (length (user_reads s)) < MK_SEQ_MAX_CONVERSATIONS) as Hr.
    { destruct Hroom as [[? ?]|]; [congruence|done]. }
    destruct (Z.leb_spec MK_SEQ_MAX_CONVERSATIONS (Z.of_nat (length (user_reads s)))); [lia|].
    rewrite !strn_short by done.
    destruct (ktable_append read_key ur_read_seq read_hash_of MK_SEQ_MAX_CONVERSATIONS
      read_hash_of_bound _ _ (UserRead u c 0) _ p (so_read s O) F Hn Hr) as [T M2].
    eexists _, (UserRead u c 0), _. split; [done|]. rewrite M. split_and!; try done.
    + split; [apply O|apply O|done].
    + apply at_snoc.
Qed.

Lemma find_or_create_read_full s u c :
  seq_ok s -> ~ read_room s (u, c) -> find_or_create_read s u c = (None, s).
Proof.
  intros O Hroom. unfold find_or_create_read, read_room in *.
  destruct (read_find s u c O) as [(p & i & e & -> & Hi & _ & M)|(p & -> & M & Hn)].
  - exfalso. apply Hroom. left. by eexists.
  - destruct (Z.leb_spec MK_SEQ_MAX_CONVERSATIONS (Z.of_nat (length (user_reads s)))); [done|].
    exfalso. apply Hroom. by right.
Qed.

Lemma miku_seq_set_user_read_ok s u c r :
  seq_ok s -> fits_user u -> fits_conv c -> read_room s (u, c) ->
  exists s', miku_seq_set_user_read s (Some u) (Some c) r = (0, s') /\ seq_ok s' /\
    read_map s' = <[(u, c) := Z.max (default 0 (read_map s !! (u, c))) r]> (read_map s) /\
    seq_map s' = seq_map s.
Proof.
  intros O Hu Hc Hr. unfold miku_seq_set_user_read.
  destruct (find_or_create_read_ok s u c O Hu Hc Hr) as (ei & e & s1 & -> & O1 & He & Ek & Ecur & M1 & S1).
  destruct (ktable_upd read_key ur_read_seq read_hash_of MK_SEQ_MAX_CONVERSATIONS
    _ _ ei e (raise_read r) (so_read s1 O1) He eq_refl) as [T M2].
  eexists. split; [done|]. split_and!; try done.
  - split; [apply O1|apply O1|done].
  - unfold read_map at 1. cbn [user_reads]. rewrite M2. fold (read_map s1). rewrite M1, Ek, insert_insert_eq.
    f_equal. cbn. rewrite Ecur. destruct (Z.ltb_spec (default 0 (read_map s !! (u, c))) r); lia.
Qed.

Lemma miku_seq_get_user_read_ok s u c :
  seq_ok s -> miku_seq_get_user_read s (Some u) (Some c) = default 0 (read_map s !! (u, c)).
Proof.
  intros O. unfold miku_seq_get_user_read, find_read.
  destruct (read_find s u c O) as [(p & i & e & -> & Hi & _ & ->)|(p & -> & -> & _)]; [|done].
  by rewrite Hi.
Qed.

Lemma seq_map_length s : seq_ok s -> size (seq_map s) = length (entries s).
Proof. intros O. apply kmap_size, (kt_nodup _ _ _ _ _ (so_conv s O)). Qed.

Lemma read_map_length s : seq_ok s -> size (read_map s) = length (user_reads s).
Proof. intros O. apply kmap_size, (kt_nodup _ _ _ _ _ (so_read s O)). Qed.

Lemma bounded_room {K} `{Countable K} (m : gmap K Z) x (n : nat) :
  size m = n -> (bounded m x = true <-> is_Some (m !! x) \/ Z.of_nat n < MK_SEQ_MAX_CONVERSATIONS).
Proof. intros <-. unfold bounded. rewrite orb_true_iff, bool_decide_eq_true, Z.ltb_lt. done. Qed.

Lemma conv_room_dec s c : seq_ok s -> (bounded (seq_map s) c = true <-> conv_room s c).
Proof. intros O. by apply bounded_room, seq_map_length. Qed.

Lemma read_room_dec s k : seq_ok s -> (bounded (read_map s) k = true <-> read_room s k).
Proof. intros O. by apply bounded_room, read_map_length. Qed.

(** C1: refinement.  On identifiers that fit their buffers, every operation of
    the allocator, on every branch, returns what the abstract operation on two
    finite maps returns and leaves the state that represents its result. *)
Theorem seq_refines s o :
  seq_ok s -> op_fits o ->
  seq_ok (run_op s o).2 /\
  spec_op (seq_map s, read_map s) o =
    ((run_op s o).1, (seq_map (run_op s o).2, read_map (run_op s o).2)).
Proof.
  intros O Hf. destruct o as [[c|]|[c|]|[c|] v|[u|] [c|] r|[u|] [c|]];
    cbn [run_op spec_op op_fits fst snd] in Hf |- *; try done.
  - destruct (nonempty c) eqn:Ne; cbn [negb orb]; [|by unfold miku_seq_next; rewrite Ne].
    destruct (bounded (seq_map s) c) eqn:B.
    + apply conv_room_dec in B; [|done].
      destruct (miku_seq_next_ok s c O Ne Hf B) as (s' & E & O' & M & R).
      rewrite E. cbn [fst snd]. by rewrite M, R.
    + rewrite miku_seq_next_full; [done..|]. rewrite <- conv_room_dec by done. congruence.
  - by rewrite miku_seq_current_ok.
  - destruct (nonempty c) eqn:Ne; cbn [negb orb]; [|by unfold miku_seq_set; rewrite Ne].
    destruct (bounded (seq_map s) c) eqn:B.
    + apply conv_room_dec in B; [|done].
      destruct (miku_seq_set_ok s c v O Ne Hf B) as (s' & E & O' & M & R).
      rewrite E. cbn [fst snd]. by rewrite M, R.
    + unfold miku_seq_set. rewrite Ne, find_or_create_seq_full; [done..|].
      rewrite <- conv_room_dec by done. congruence.
  - destruct (bounded (read_map s) (u, c)) eqn:B.
    + apply read_room_dec in B; [|done].
      destruct (miku_seq_set_user_read_ok s u c r O (proj1 Hf) (proj2 Hf) B) as (s' & E & O' & M & R).
      rewrite E. cbn [fst snd]. by rewrite M, R.
    + unfold miku_seq_set_user_read. rewrite find_or_create_read_full; [done..|].
      rewrite <- read_room_dec by done. congruence.
  - by rewrite miku_seq_get_user_read_ok.
Qed.

(** ** Histories *)

Lemma entries_grow s s' c n :
  seq_ok s -> seq_ok s' -> seq_map s' = <[c := n]> (seq_map s) ->
  (length (entries s') <= S (length (entries s)))%nat.
Proof.
  intros O O' M. rewrite <- !seq_map_length, M by done.
  destruct (seq_map s !! c) eqn:E.
  - rewrite map_size_insert_Some by eauto. lia.
  - by rewrite map_size_insert_None.
Qed.

Lemma run_next_counts cs : forall s vs s', seq_ok s -> Forall valid_conv cs ->
  Z.of_nat (length (entries s) + length cs) <= MK_SEQ_MAX_CONVERSATIONS ->
  (forall c, 0 <= default 0 (seq_map s !! c) < 2 ^ 63 - 1 - Z.of_nat (length cs)) ->
  run_next s cs = (vs, s') -> forall i c, cs !! i = Some c ->
  vs !! i = Some (default 0 (seq_map s !! c) + calls_for c cs i).
Proof.
  induction cs as [|c0 cs IH]; intros s vs s' O Hv Hl Hb Hrun i c Hi; [done|].
  inversion Hv as [|? ? [Hne Hfit] Hv']; subst. cbn [length] in *.
  pose proof (Hb c0) as Hb0.
  assert (conv_room s c0) as Hroom by (right; unfold MK_SEQ_MAX_CONVERSATIONS in *; lia).
  destruct (miku_seq_next_ok s c0 O Hne Hfit Hroom) as (s1 & E1 & O1 & M1 & _).
  rewrite i64_small in E1, M1 by lia.
  cbn [run_next] in Hrun. rewrite E1 in Hrun. destruct (run_next s1 cs) as [vs1 s2] eqn:E2.
  simplify_eq. pose proof (entries_grow _ _ _ _ O O1 M1) as Hg.
  destruct i as [|i]; cbn in Hi.
  { simplify_eq. cbn. unfold calls_for. cbn [take]. rewrite firstn_O.
    rewrite filter_cons_True by done. done. }
  cbn [lookup list_lookup]. rewrite (IH s1 vs1 s' O1 Hv' ltac:(lia)) with (c := c); try done.
  - f_equal. rewrite M1. unfold calls_for. rewrite (firstn_cons (S i)).
    destruct (decide (c0 = c)) as [->|Hn].
    + rewrite lookup_insert_eq, filter_cons_True by done. cbn [default length]. cbn. lia.
    + rewrite lookup_insert_ne, filter_cons_False by done. done.
  - intros c'. rewrite M1. destruct (decide (c0 = c')) as [->|Hn].
    + rewrite lookup_insert_eq. cbn. lia.
    + rewrite lookup_insert_ne by done. specialize (Hb c'). lia.
Qed.

(** Sequence numbers have no gap and no repetition.  From an empty
    allocator, after any interleaving of at most MK_SEQ_MAX_CONVERSATIONS
    [miku_seq_next] calls, the k-th call for a conversation returned k. *)
Theorem run_next_gap_free cs vs s' :
  Forall valid_conv cs -> Z.of_nat (length cs) <= MK_SEQ_MAX_CONVERSATIONS ->
  run_next miku_seq_create cs = (vs, s') ->
  forall i c, cs !! i = Some c -> vs !! i = Some (calls_for c cs i).
Proof.
  intros Hv Hl Hrun i c Hi.
  apply (run_next_counts cs miku_seq_create vs s' seq_ok_create Hv); try done.
  intros c'. change (seq_map miku_seq_create) with (∅ : gmap string Z). rewrite lookup_empty. cbn.
  unfold MK_SEQ_MAX_CONVERSATIONS in Hl. lia.
Qed.

Lemma run_next_gap_free_witness :
  run_next miku_seq_create ["a"; "b"; "a"; "a"]%string =
    ([1; 1; 2; 3], (run_next miku_seq_create ["a"; "b"; "a"; "a"]%string).2) /\
  [1; 1; 2; 3] !! 3%nat = Some (calls_for "a" ["a"; "b"; "a"; "a"]%string 3).
Proof.
  split; [vm_compute; reflexivity|].
  apply (run_next_gap_free ["a"; "b"; "a"; "a"]%string _ (run_next miku_seq_create ["a"; "b"; "a"; "a"]%string).2).
  - repeat constructor; cbn; unfold fits_conv; cbn; lia.
  - vm_compute. discriminate.
  - vm_compute. reflexivity.
  - reflexivity.
Defined.

Lemma seq_refines_witness :
  seq_ok (run_op miku_seq_create (OpNext (Some "si_1_a_b"%string))).2 /\
  spec_op (∅, ∅) (OpNext (Some "si_1_a_b"%string)) =
    (1, (<["si_1_a_b"%string := 1]> ∅, ∅)).
Proof.
  destruct (seq_refines miku_seq_create (OpNext (Some "si_1_a_b"%string))) as [H1 H2].
  - apply seq_ok_create.
  - cbn. unfold fits_conv. cbn. lia.
  - split; [exact H1|]. vm_compute. reflexivity.
Defined.

(** ** Identifiers that do not fit *)

Lemma conv_match_long s c ei :
  Forall fits_conv (se_conv_id <$> entries s) -> (127 < String.length c)%nat -> conv_match s c ei = false.
Proof.
  intros Hf Hc. unfold conv_match. destruct (at_ (entries s) ei) as [e|] eqn:E; [|done].
  apply streq_neq. intros Ec. subst c. apply at_Some in E as [_ E].
  eapply Forall_lookup_1 in Hf; [|rewrite list_lookup_fmap, E; reflexivity].
  unfold fits_conv in Hf. lia.
Qed.

(** A state in which long identifiers may have been used. *)
Record seq_weak (s : miku_seq) : Prop := {
  sw_fits : Forall fits_conv (se_conv_id <$> entries s);
  sw_size : (size (conv_hash s) <= length (entries s))%nat }.

Lemma seq_next_long s c :
  seq_weak s -> (127 < String.length c)%nat ->
  Z.of_nat (length (entries s)) < MK_SEQ_MAX_CONVERSATIONS ->
  exists s', miku_seq_next s (Some c) = (1, s') /\ seq_weak s' /\
    length (entries s') = S (length (entries s)).
Proof.
  intros [Hf Hs] Hc Hr. unfold miku_seq_next, find_or_create_seq.
  assert (nonempty c = true) as -> by (destruct c; [cbn in Hc; lia|done]). cbn [negb].
  rewrite (scan_ext _ _ (fun _ => false)) by (intros v; by apply conv_match_long).
  pose proof (scan_run (conv_hash s) (fun _ => false) _ (conv_hash_slot_bound c)) as R.
  pose proof (scan_room (conv_hash s) (fun _ => false) _ (conv_hash_slot_bound c)) as Hx.
  unfold MK_SEQ_HASH, MK_SEQ_MAX_CONVERSATIONS in *.
  destruct (scan _ _ _ _) as [p v|p|]; [destruct R as (? & ? & ? & ? & ? & ? & ?); done| |
    exfalso; apply Hx; [lia|done]].
  destruct (Z.leb_spec 65536 (Z.of_nat (length (entries s)))); [lia|].
  eexists. split; [|split; [split|]].
  - unfold current_at, set_current. cbn. rewrite (at_upd_eq _ _ _ (SeqEntry (strn 127 c) 0)); [done|].
    apply at_snoc.
  - cbn. rewrite fmap_upd_at; [|done|lia]. rewrite fmap_app. apply Forall_app. split; [done|].
    constructor; [|constructor]. cbn. unfold fits_conv. rewrite strn_length. lia.
  - cbn. rewrite length_upd_at, length_app. cbn. destruct (conv_hash s !! p) eqn:Ep.
    + rewrite map_size_insert_Some by eauto. lia.
    + rewrite map_size_insert_None by done. lia.
  - cbn. rewrite length_upd_at, length_app. cbn. lia.
Qed.

(** A conversation identifier longer than 127 characters is stored
    truncated and never found again: every [miku_seq_next] call for it takes
    a new entry and returns 1, so two messages get the same number. *)
Theorem seq_next_long_repeats s c :
  seq_ok s -> (127 < String.length c)%nat ->
  Z.of_nat (length (entries s)) + 1 < MK_SEQ_MAX_CONVERSATIONS ->
  exists s1 s2, miku_seq_next s (Some c) = (1, s1) /\ miku_seq_next s1 (Some c) = (1, s2).
Proof.
  intros O Hc Hr. assert (seq_weak s) as W.
  { split; [apply O|]. rewrite (ki_size _ _ _ (kt_index _ _ _ _ _ (so_conv s O))). by rewrite length_fmap. }
  destruct (seq_next_long s c W Hc ltac:(lia)) as (s1 & E1 & W1 & L1).
  destruct (seq_next_long s1 c W1 Hc ltac:(lia)) as (s2 & E2 & _). eauto.
Qed.

Lemma seq_next_long_repeats_witness :
  exists s1 s2, miku_seq_next miku_seq_create (Some long_si_id) = (1, s1) /\
                miku_seq_next s1 (Some long_si_id) = (1, s2).
Proof.
  apply seq_next_long_repeats.
  - apply seq_ok_create.
  - vm_compute. lia.
  - vm_compute. reflexivity.
Defined.
