(* ===== verification/IncrSync.v ===== *)
(** * Incremental-sync version counters (storage/miku_incr_sync.c)

    One counter per (type, owner).  [entries] is the used prefix of the C
    array; the abstract value is the map [version_map].  The result string of
    [miku_incr_get_changes] is returned as an option. *)
From S2P Require Import Prelude Hash ProbeIndex KeyedMap.

Definition MK_INCR_HASH : Z := 32768.
Definition MK_INCR_MAX_VERSIONS : Z := 16384.

Inductive miku_incr_type :=
  MK_INCR_FRIENDS | MK_INCR_BLACKS | MK_INCR_GROUPS | MK_INCR_GROUP_MEMBERS | MK_INCR_CONVERSATIONS.

(** The enumerators' values. *)
Definition incr_type_int (ty : miku_incr_type) : Z :=
  match ty with
  | MK_INCR_FRIENDS => 1
  | MK_INCR_BLACKS => 2
  | MK_INCR_GROUPS => 3
  | MK_INCR_GROUP_MEMBERS => 4
  | MK_INCR_CONVERSATIONS => 5
  end.

Record version_entry := VersionEntry { ve_owner_id : string; ve_type : Z; ve_version : Z }.

Record miku_incr_sync := IncrSync { entries : list version_entry; pair_hash : gmap Z Z }.

Definition incr_pair_slot (type : Z) (owner_id : string) : Z :=
  mask_slot MK_INCR_HASH (Z.lxor (fnv1a_64 owner_id) (u64 (u32 type * golden))).

(** The entry at [ei] is read from [entries], the slot from its own fields. *)
Definition incr_hash_insert (sy : miku_incr_sync) (ei : Z) : miku_incr_sync :=
  match at_ (entries sy) ei with
  | Some e => IncrSync (entries sy)
      (scan_insert MK_INCR_HASH (pair_hash sy) (incr_pair_slot (ve_type e) (ve_owner_id e)) (i16 ei))
  | None => sy
  end.

Definition entry_match (sy : miku_incr_sync) (type : Z) (owner_id : string) (ei : Z) : bool :=
  match at_ (entries sy) ei with
  | Some e => (ve_type e =? type) && streq (ve_owner_id e) owner_id
  | None => false
  end.

Definition find_entry (sy : miku_incr_sync) (ty : miku_incr_type) (owner_id : string) : Z :=
  scan_find MK_INCR_HASH (pair_hash sy) (entry_match sy (incr_type_int ty) owner_id)
    (incr_pair_slot (incr_type_int ty) owner_id).

Definition miku_incr_sync_create : miku_incr_sync := IncrSync [] ∅.

Definition version_at (sy : miku_incr_sync) (ei : Z) : Z :=
  match at_ (entries sy) ei with Some e => ve_version e | None => 0 end.

Definition miku_incr_version (sy : miku_incr_sync) (ty : miku_incr_type) (owner_id : option string) : Z :=
  match owner_id with
  | None => 0
  | Some o => let ei := find_entry sy ty o in if 0 <=? ei then version_at sy ei else 0
  end.

(** The entry found, or a fresh one with version 0; -1 when there is no room. *)
Definition find_or_add (sy : miku_incr_sync) (ty : miku_incr_type) (o : string) : Z * miku_incr_sync :=
  let ei := find_entry sy ty o in
  if 0 <=? ei then (ei, sy)
  else
    let n := Z.of_nat (length (entries sy)) in
    if MK_INCR_MAX_VERSIONS <=? n then (-1, sy)
    else
      let is1 := IncrSync (entries sy ++ [VersionEntry (strn 63 o) (incr_type_int ty) 0]) (pair_hash sy) in
      (n, incr_hash_insert is1 n).

Definition set_version_at (f : Z -> Z) (ei : Z) (sy : miku_incr_sync) : miku_incr_sync :=
  IncrSync (upd_at (fun e => VersionEntry (ve_owner_id e) (ve_type e) (f (ve_version e))) ei (entries sy))
           (pair_hash sy).

Definition miku_incr_bump (sy : miku_incr_sync) (ty : miku_incr_type) (owner_id : option string) :
    Z * miku_incr_sync :=
  match owner_id with
  | None => (-1, sy)
  | Some o =>
      let '(ei, is1) := find_or_add sy ty o in
      if ei <? 0 then (-1, is1)
      else let is2 := set_version_at (fun v => i64 (v + 1)) ei is1 in (version_at is2 ei, is2)
  end.

Definition miku_incr_set_version (sy : miku_incr_sync) (ty : miku_incr_type)
    (owner_id : option string) (version : Z) : Z * miku_incr_sync :=
  match owner_id with
  | None => (-1, sy)
  | Some o =>
      let '(ei, is1) := find_or_add sy ty o in
      if ei <? 0 then (-1, is1) else (0, set_version_at (fun _ => version) ei is1)
  end.

(** Both exits after the lookup return 0, whatever the version is; the result
    is always the empty list. *)
Definition miku_incr_get_changes (sy : miku_incr_sync) (ty : miku_incr_type)
    (owner_id : option string) (since_version : Z) : Z * option string :=
  match owner_id with
  | None => (-1, None)
  | Some o =>
      let ei := find_entry sy ty o in
      if (0 <=? ei) && (version_at sy ei <=? since_version) then (0, Some "[]"%string)
      else (0, Some "[]"%string)
  end.

(** ** Abstract specification *)

Definition ve_key (e : version_entry) : Z * string := (ve_type e, ve_owner_id e).
Definition ve_hash (k : Z * string) : Z := incr_pair_slot k.1 k.2.
Definition version_map (sy : miku_incr_sync) : gmap (Z * string) Z := kmap ve_key ve_version (entries sy).

Definition incr_ok (sy : miku_incr_sync) : Prop :=
  ktable (sz:=MK_INCR_HASH) ve_key ve_hash MK_INCR_MAX_VERSIONS (pair_hash sy) (entries sy).

Inductive incr_op :=
  | OpVersion (ty : miku_incr_type) (o : option string)
  | OpBump (ty : miku_incr_type) (o : option string)
  | OpSetVersion (ty : miku_incr_type) (o : option string) (v : Z)
  | OpGetChanges (ty : miku_incr_type) (o : option string) (since : Z).

Definition run_op (sy : miku_incr_sync) (op : incr_op) : Z * miku_incr_sync :=
  match op with
  | OpVersion ty o => (miku_incr_version sy ty o, sy)
  | OpBump ty o => miku_incr_bump sy ty o
  | OpSetVersion ty o v => miku_incr_set_version sy ty o v
  | OpGetChanges ty o v => ((miku_incr_get_changes sy ty o v).1, sy)
  end.

Definition bounded (m : gmap (Z * string) Z) (x : Z * string) : bool :=
  bool_decide (is_Some (m !! x)) || (Z.of_nat (size m) <? MK_INCR_MAX_VERSIONS).

Definition spec_op (m : gmap (Z * string) Z) (op : incr_op) : Z * gmap (Z * string) Z :=
  match op with
  | OpVersion _ None => (0, m)
  | OpBump _ None | OpSetVersion _ None _ | OpGetChanges _ None _ => (-1, m)
  | OpVersion ty (Some o) => (default 0 (m !! (incr_type_int ty, o)), m)
  | OpBump ty (Some o) =>
      let k := (incr_type_int ty, o) in
      if bounded m k then let v := i64 (default 0 (m !! k) + 1) in (v, <[k := v]> m) else (-1, m)
  | OpSetVersion ty (Some o) v =>
      let k := (incr_type_int ty, o) in
      if bounded m k then (0, <[k := v]> m) else (-1, m)
  | OpGetChanges _ (Some _) _ => (0, m)
  end.

(** The owner identifier fits [owner_id[64]]. *)
Definition op_fits (op : incr_op) : Prop :=
  match op with
  | OpBump _ (Some o) | OpSetVersion _ (Some o) _ => (String.length o <= 63)%nat
  | _ => True
  end.

(** ** Proofs *)

#[export] Instance pow2_incr : Pow2 MK_INCR_HASH.
Proof. by exists 15. Qed.

Lemma ve_hash_bound k : 0 <= ve_hash k < MK_INCR_HASH.
Proof. apply (mask_slot_bound 15). lia. Qed.

Lemma entry_tests sy ty o :
  tests ve_key (entries sy) (ty, o) (entry_match sy ty o).
Proof.
  intros ei. unfold entry_match, ve_key. destruct (at_ _ ei) as [e|]; [|done].
  rewrite streq_bool. destruct (Z.eqb_spec (ve_type e) ty); repeat case_bool_decide; naive_solver.
Qed.

Lemma incr_ok_create : incr_ok miku_incr_sync_create.
Proof. by apply ktable_empty. Qed.

Lemma version_map_length sy : incr_ok sy -> size (version_map sy) = length (entries sy).
Proof. intros O. apply kmap_size, O. Qed.

Lemma find_entry_ok sy ty o :
  incr_ok sy ->
  (exists e, at_ (entries sy) (find_entry sy ty o) = Some e /\ ve_key e = (incr_type_int ty, o) /\
     version_map sy !! (incr_type_int ty, o) = Some (ve_version e)) \/
  (find_entry sy ty o = -1 /\ version_map sy !! (incr_type_int ty, o) = None /\
     (incr_type_int ty, o) ∉ ve_key <$> entries sy).
Proof.
  intros O. unfold find_entry, scan_find.
  destruct (ktable_find ve_key ve_version ve_hash MK_INCR_MAX_VERSIONS ve_hash_bound ltac:(done)
    _ _ (incr_type_int ty, o) _ O (entry_tests sy _ o)) as [(p & i & e & F & Hi & Hk & M)|(p & F & M & Hn)];
    unfold ve_hash in F; cbn in F; rewrite F; [left|right]; eauto.
Qed.

(** [find_or_add] gives an entry of the key, creating it with version 0. *)
Lemma find_or_add_ok sy ty o :
  let k := (incr_type_int ty, o) in
  incr_ok sy -> (String.length o <= 63)%nat ->
  if bounded (version_map sy) k then
    exists ei e sy', find_or_add sy ty o = (ei, sy') /\ incr_ok sy' /\ at_ (entries sy') ei = Some e /\
      ve_key e = k /\ ve_version e = default 0 (version_map sy !! k) /\
      version_map sy' = <[k := default 0 (version_map sy !! k)]> (version_map sy)
  else find_or_add sy ty o = (-1, sy).
Proof.
  intros k O Ho. subst k. unfold find_or_add, bounded. rewrite version_map_length by done.
  destruct (find_entry_ok sy ty o O) as [(e & He & Hk & M)|(-> & M & Hn)]; rewrite M.
  - rewrite bool_decide_true by eauto. cbn [orb]. pose proof (at_lt _ _ _ He).
    destruct (Z.leb_spec 0 (find_entry sy ty o)); [|lia].
    eexists _, e, sy. split_and!; try done. cbn. by rewrite insert_id.
  - rewrite bool_decide_false by (by intros [? ?]). cbn [orb Z.leb Z.compare].
    destruct (Z.ltb_spec (Z.of_nat (length (entries sy))) MK_INCR_MAX_VERSIONS) as [Hr|Hr];
      destruct (Z.leb_spec MK_INCR_MAX_VERSIONS (Z.of_nat (length (entries sy)))); try lia; [|done].
    rewrite strn_short by done. set (e := VersionEntry o (incr_type_int ty) 0).
    destruct (ktable_insert ve_key ve_version ve_hash MK_INCR_MAX_VERSIONS ve_hash_bound ltac:(done)
      _ _ e O Hn Hr) as [T M2].
    assert (i16 (Z.of_nat (length (entries sy))) = Z.of_nat (length (entries sy))) as Ei.
    { apply i16_small. unfold MK_INCR_MAX_VERSIONS in *. lia. }
    unfold incr_hash_insert. cbn [entries pair_hash]. rewrite at_snoc, Ei.
    eexists _, e, _. split_and!; try done. cbn. apply at_snoc.
Qed.

Lemma set_version_at_ok f sy ei e :
  incr_ok sy -> at_ (entries sy) ei = Some e ->
  incr_ok (set_version_at f ei sy) /\ version_at (set_version_at f ei sy) ei = f (ve_version e) /\
  version_map (set_version_at f ei sy) = <[ve_key e := f (ve_version e)]> (version_map sy).
Proof.
  intros O He. destruct (ktable_upd ve_key ve_version ve_hash MK_INCR_MAX_VERSIONS _ _ ei e
    (fun e => VersionEntry (ve_owner_id e) (ve_type e) (f (ve_version e))) O He eq_refl) as [T M].
  split_and!; try done. unfold version_at, set_version_at. cbn. by rewrite (at_upd_eq _ _ _ e).
Qed.

Lemma miku_incr_version_ok sy ty o :
  incr_ok sy -> miku_incr_version sy ty (Some o) = default 0 (version_map sy !! (incr_type_int ty, o)).
Proof.
  intros O. unfold miku_incr_version, version_at.
  destruct (find_entry_ok sy ty o O) as [(e & He & Hk & M)|(E & M & Hn)]; rewrite M.
  - rewrite He. pose proof (at_lt _ _ _ He). by rewrite (proj2 (Z.leb_le _ _)) by lia.
  - by rewrite E.
Qed.

Lemma miku_incr_get_changes_ok sy ty o v : (miku_incr_get_changes sy ty (Some o) v).1 = 0.
Proof. unfold miku_incr_get_changes. by destruct (_ && _). Qed.

Lemma miku_incr_bump_ok sy ty o :
  incr_ok sy -> (String.length o <= 63)%nat ->
  incr_ok (miku_incr_bump sy ty (Some o)).2 /\
  spec_op (version_map sy) (OpBump ty (Some o)) =
    ((miku_incr_bump sy ty (Some o)).1, version_map (miku_incr_bump sy ty (Some o)).2).
Proof.
  intros O Hf. unfold miku_incr_bump. pose proof (find_or_add_ok sy ty o O Hf) as F.
  cbv zeta in F. cbn [spec_op]. destruct (bounded _ _); [|by rewrite F].
  destruct F as (ei & e & sy' & -> & O' & He & Hk & Hv & M).
  pose proof (at_lt _ _ _ He). rewrite (proj2 (Z.ltb_ge _ _)) by lia.
  destruct (set_version_at_ok (fun v => i64 (v + 1)) sy' ei e O' He) as (O2 & V2 & M2).
  cbn [fst snd]. rewrite V2, M2, M, Hk, Hv, insert_insert_eq. done.
Qed.

Lemma miku_incr_set_version_ok sy ty o v :
  incr_ok sy -> (String.length o <= 63)%nat ->
  incr_ok (miku_incr_set_version sy ty (Some o) v).2 /\
  spec_op (version_map sy) (OpSetVersion ty (Some o) v) =
    ((miku_incr_set_version sy ty (Some o) v).1, version_map (miku_incr_set_version sy ty (Some o) v).2).
Proof.
  intros O Hf. unfold miku_incr_set_version. pose proof (find_or_add_ok sy ty o O Hf) as F.
  cbv zeta in F. cbn [spec_op]. destruct (bounded _ _); [|by rewrite F].
  destruct F as (ei & e & sy' & -> & O' & He & Hk & Hv & M).
  pose proof (at_lt _ _ _ He). rewrite (proj2 (Z.ltb_ge _ _)) by lia.
  destruct (set_version_at_ok (fun _ => v) sy' ei e O' He) as (O2 & V2 & M2).
  cbn [fst snd]. rewrite M2, M, Hk, insert_insert_eq. done.
Qed.

(** Refinement.  On owner identifiers that fit, every operation of the
    version table, on every branch, is the operation on a finite map from
    (type, owner) to version with at most MK_INCR_MAX_VERSIONS bindings. *)
Theorem incr_refines sy op :
  incr_ok sy -> op_fits op ->
  incr_ok (run_op sy op).2 /\
  spec_op (version_map sy) op = ((run_op sy op).1, version_map (run_op sy op).2).
Proof.
  intros O Hf. destruct op as [ty [o|]|ty [o|]|ty [o|] v|ty [o|] v]; cbn [op_fits] in Hf.
  - cbn [run_op spec_op fst snd]. by rewrite miku_incr_version_ok.
  - by split.
  - by apply miku_incr_bump_ok.
  - by split.
  - by apply miku_incr_set_version_ok.
  - by split.
  - assert (run_op sy (OpGetChanges ty (Some o) v) = (0, sy)) as ->; [|done].
    unfold run_op. by rewrite miku_incr_get_changes_ok.
  - by split.
Qed.

Definition demo_op : incr_op := OpBump MK_INCR_GROUPS (Some "u1"%string).

Lemma incr_refines_witness :
  spec_op (version_map miku_incr_sync_create) demo_op =
    ((run_op miku_incr_sync_create demo_op).1, version_map (run_op miku_incr_sync_create demo_op).2) /\
  (run_op miku_incr_sync_create demo_op).1 = 1.
Proof.
  split; [|vm_compute; reflexivity].
  apply (incr_refines miku_incr_sync_create demo_op).
  - apply incr_ok_create.
  - cbn. lia.
Defined.
