(* ===== verification/RateLimit.v ===== *)
(** * Fixed-window rate limiter (protocol/miku_ratelimit.c)

    One window per key, at most MK_RL_MAX_WINDOWS of them; a new key takes the
    entry with the oldest window when the table is full.  Every operation runs
    under the limiter's mutex; [now] is the value of [miku_timestamp_ms()]. *)
From S2P Require Import Prelude Hash ProbeIndex ProbeRemove KeyedMap.

Definition MK_RL_HASH : Z := 8192.
Definition MK_RL_MAX_WINDOWS : Z := 4096.

Record rl_entry := RlEntry { re_key : string; re_count : Z; re_window_start : Z }.

Record miku_ratelimit := RateLimiter {
  entries : list rl_entry;
  key_hash : gmap Z Z;
  window_ms : Z;
  max_requests : Z }.

Definition rl_hash_slot (key : string) : Z := mask_slot MK_RL_HASH (fnv1a_64 key).

(** The home slot of entry [ei], from the key stored in it. *)
Definition rl_home (l : list rl_entry) (ei : Z) : Z :=
  match at_ l ei with Some e => rl_hash_slot (re_key e) | None => 0 end.

Definition hash_insert_ei (rl : miku_ratelimit) (ei : Z) : miku_ratelimit :=
  RateLimiter (entries rl)
    (scan_insert MK_RL_HASH (key_hash rl) (rl_home (entries rl) ei) (i16 ei))
    (window_ms rl) (max_requests rl).

Definition key_match (l : list rl_entry) (key : string) (ei : Z) : bool :=
  match at_ l ei with Some e => streq (re_key e) key | None => false end.

Definition hash_remove_key (rl : miku_ratelimit) (key : string) : miku_ratelimit :=
  RateLimiter (entries rl)
    (scan_remove MK_RL_HASH (rl_home (entries rl)) (key_hash rl) (key_match (entries rl) key) (rl_hash_slot key))
    (window_ms rl) (max_requests rl).

Definition find_entry (rl : miku_ratelimit) (key : string) : Z :=
  scan_find MK_RL_HASH (key_hash rl) (key_match (entries rl) key) (rl_hash_slot key).

(** The window with the oldest start. *)
Definition evict_oldest_idx (rl : miku_ratelimit) : Z :=
  match entries rl with
  | [] => -1
  | e :: l => oldest_from re_window_start l 1 0 (re_window_start e)
  end.

Definition miku_ratelimit_create (window max : Z) : miku_ratelimit := RateLimiter [] ∅ window max.

(** The entry of a new key: a fresh index, or that of the evicted window. *)
Definition new_entry (rl : miku_ratelimit) (key : string) (now : Z) : Z * miku_ratelimit :=
  let e := RlEntry (strn 127 key) 0 now in
  let n := Z.of_nat (length (entries rl)) in
  if MK_RL_MAX_WINDOWS <=? n then
    let ei := evict_oldest_idx rl in
    let rl1 := match at_ (entries rl) ei with
               | Some old => hash_remove_key rl (re_key old)
               | None => rl end in
    (ei, hash_insert_ei (RateLimiter (upd_at (fun _ => e) ei (entries rl1)) (key_hash rl1)
                                     (window_ms rl1) (max_requests rl1)) ei)
  else
    (n, hash_insert_ei (RateLimiter (entries rl ++ [e]) (key_hash rl) (window_ms rl) (max_requests rl)) n).

(** Reset an elapsed window, then count the request. *)
Definition count_request (window now : Z) (e : rl_entry) : rl_entry :=
  let e1 := if window <=? now - re_window_start e then RlEntry (re_key e) 0 now else e in
  RlEntry (re_key e1) (re_count e1 + 1) (re_window_start e1).

Definition miku_ratelimit_allow (rl : miku_ratelimit) (now : Z) (key : option string) : Z * miku_ratelimit :=
  match key with
  | None => (0, rl)
  | Some k =>
      let ei0 := find_entry rl k in
      let '(ei, rl1) := if 0 <=? ei0 then (ei0, rl) else new_entry rl k now in
      let rl2 := RateLimiter (upd_at (count_request (window_ms rl1) now) ei (entries rl1))
                             (key_hash rl1) (window_ms rl1) (max_requests rl1) in
      match at_ (entries rl2) ei with
      | Some e => (if re_count e <=? max_requests rl2 then 1 else 0, rl2)
      | None => (0, rl2)
      end
  end.

Definition miku_ratelimit_remaining (rl : miku_ratelimit) (now : Z) (key : option string) : Z :=
  match key with
  | None => 0
  | Some k =>
      match at_ (entries rl) (find_entry rl k) with
      | None => max_requests rl
      | Some e =>
          if window_ms rl <=? now - re_window_start e then max_requests rl
          else Z.max 0 (max_requests rl - i32 (re_count e))
      end
  end.

Definition miku_ratelimit_reset (rl : miku_ratelimit) : miku_ratelimit :=
  RateLimiter [] ∅ (window_ms rl) (max_requests rl).

Definition miku_ratelimit_window_ms (rl : miku_ratelimit) : Z := window_ms rl.

(** ** Abstract value and invariant *)

(** Count and start of the window of each key. *)
Definition re_val (e : rl_entry) : Z * Z := (re_count e, re_window_start e).
Definition rl_map (rl : miku_ratelimit) : gmap string (Z * Z) := kmap re_key re_val (entries rl).

Definition rl_table := ktable (sz:=MK_RL_HASH) re_key rl_hash_slot MK_RL_MAX_WINDOWS.
Definition rl_ok (rl : miku_ratelimit) : Prop := rl_table (key_hash rl) (entries rl).

Definition fits_key (k : string) : Prop := (String.length k <= 127)%nat.

(** What one allowed or refused request does to the window of its key. *)
Definition bump (window now : Z) (o : option (Z * Z)) : Z * Z :=
  match o with
  | None => (1, now)
  | Some (c, w) => if window <=? now - w then (1, now) else (c + 1, w)
  end.

(** The windows left when a new key arrives: all of them, or all but one with
    the oldest start when the table is full. *)
Definition makes_room (m m' : gmap string (Z * Z)) : Prop :=
  if Z.of_nat (size m) <? MK_RL_MAX_WINDOWS then m' = m
  else exists k c w, m !! k = Some (c, w) /\
         (forall k' c' w', m !! k' = Some (c', w') -> w <= w') /\ m' = delete k m.

(** A burst of calls, each with its time, and the answers. *)
Fixpoint run_allow (rl : miku_ratelimit) (calls : list (Z * string)) : list Z * miku_ratelimit :=
  match calls with
  | [] => ([], rl)
  | (now, k) :: calls' =>
      let '(r, rl1) := miku_ratelimit_allow rl now (Some k) in
      let '(rs, rl2) := run_allow rl1 calls' in (r :: rs, rl2)
  end.

(** The answers a per-key counter gives: the [n]th request of a key passes
    when [n <= max]. *)
Fixpoint counter_answers (max : Z) (seen : gmap string Z) (calls : list (Z * string)) : list Z :=
  match calls with
  | [] => []
  | (_, k) :: calls' =>
      let n := default 0 (seen !! k) + 1 in
      (if n <=? max then 1 else 0) :: counter_answers max (<[k:=n]> seen) calls'
  end.

(** ** Proofs *)

#[export] Instance pow2_rl : Pow2 MK_RL_HASH.
Proof. by exists 13. Qed.

Lemma rl_hash_slot_bound k : 0 <= rl_hash_slot k < MK_RL_HASH.
Proof. apply (mask_slot_bound 13). lia. Qed.

Lemma rl_home_khome l v : rl_home l v = khome rl_hash_slot (re_key <$> l) v.
Proof. unfold rl_home, khome. rewrite at_fmap. by destruct (at_ l v). Qed.

Lemma rl_home_bound l v : 0 <= rl_home l v < MK_RL_HASH.
Proof. rewrite rl_home_khome. apply khome_bound, rl_hash_slot_bound. Qed.

Lemma key_tests l k : tests re_key l k (key_match l k).
Proof. intros ei. unfold key_match. destruct (at_ l ei); [|done]. apply streq_bool. Qed.

Lemma rl_ok_create w m : rl_ok (miku_ratelimit_create w m).
Proof. by apply ktable_empty. Qed.

Lemma rl_map_length rl : rl_ok rl -> size (rl_map rl) = length (entries rl).
Proof. intros O. apply kmap_size, O. Qed.

Lemma limit_entry_ok rl k :
  rl_ok rl ->
  (exists e, at_ (entries rl) (find_entry rl k) = Some e /\ re_key e = k /\ rl_map rl !! k = Some (re_val e)) \/
  (find_entry rl k = -1 /\ rl_map rl !! k = None /\ k ∉ re_key <$> entries rl).
Proof.
  intros O. unfold find_entry, scan_find.
  destruct (ktable_find re_key re_val rl_hash_slot MK_RL_MAX_WINDOWS rl_hash_slot_bound ltac:(done)
    _ _ k _ O (key_tests (entries rl) k)) as [(p & i & e & F & Hi & Hk & M)|(p & F & M & Hn)];
    rewrite F; [left|right]; eauto.
Qed.

Lemma evict_oldest_ok rl :
  entries rl <> [] ->
  exists e, at_ (entries rl) (evict_oldest_idx rl) = Some e /\
    forall e', e' ∈ entries rl -> re_window_start e <= re_window_start e'.
Proof.
  unfold evict_oldest_idx. destruct (entries rl) as [|e l]; [done|]. intros _. apply (oldest_min re_window_start).
Qed.

(** Taking entry [ei] out of the index. *)
Lemma remove_ok t l ei old :
  rl_table t l -> at_ l ei = Some old ->
  indexed MK_RL_HASH
    (scan_remove MK_RL_HASH (rl_home l) t (key_match l (re_key old)) (rl_hash_slot (re_key old)))
    (rl_home l) (fun v => 0 <= v < Z.of_nat (length l) /\ v <> ei).
Proof.
  intros T Hei. pose proof T as [[I S] Hnd Hmax]. rewrite length_fmap in I, S.
  assert (indexed MK_RL_HASH t (rl_home l) (fun v => 0 <= v < Z.of_nat (length l))) as I0.
  { eapply indexed_ext; [| |exact I]; [done|]. intros v _. symmetry. apply rl_home_khome. }
  assert (at_ (re_key <$> l) ei = Some (re_key old)) as Hk by (by rewrite at_fmap, Hei).
  destruct (kscan_hit _ rl_hash_slot_bound _ _ _ _ (kt_index _ _ _ _ _ T) Hnd Hk) as [p F].
  rewrite <- (tests_scan _ _ _ _ _ _ (key_tests l (re_key old))) in F.
  apply (scan_remove_ok _ _ _ _ _ p); [done|apply rl_home_bound|apply rl_hash_slot_bound| |done].
  unfold MK_RL_HASH, MK_RL_MAX_WINDOWS in *. lia.
Qed.

(** Replacing the evicted window: the old key leaves the index, the entry
    gets the new key, and the index gains it again. *)
Lemma replace_ok t l ei old e :
  rl_table t l -> at_ l ei = Some old -> re_key e ∉ re_key <$> l ->
  let t1 := scan_remove MK_RL_HASH (rl_home l) t (key_match l (re_key old)) (rl_hash_slot (re_key old)) in
  let l' := upd_at (fun _ => e) ei l in
  rl_table (scan_insert MK_RL_HASH t1 (rl_home l' ei) ei) l' /\
  kmap re_key re_val l' = <[re_key e := re_val e]> (delete (re_key old) (kmap re_key re_val l)).
Proof.
  intros T Hei Hfresh t1 l'. pose proof (at_lt _ _ _ Hei) as Bei. pose proof (kt_max _ _ _ _ _ T) as Hmax.
  destruct (kmap_replace re_key re_val l ei old e (kt_nodup _ _ _ _ _ T) Hei Hfresh) as [Hnd' M].
  split; [|done]. fold l' in Hnd'. assert (length l' = length l) as EL by apply length_upd_at.
  assert (indexed MK_RL_HASH t1 (rl_home l') (fun v => 0 <= v < Z.of_nat (length l) /\ v <> ei)) as I1.
  { eapply indexed_ext; [| |exact (remove_ok t l ei old T Hei)]; [done|].
    intros v [_ Hv]. unfold rl_home, l'. rewrite at_upd_ne; [done|congruence|lia]. }
  split; [|done|by rewrite EL]. apply kindex_of_indexed. rewrite length_fmap.
  assert (size t1 <= length l)%nat as S1 by (apply (indexed_vals_bound I1); tauto).
  unfold scan_insert. destruct (scan_miss I1 (fun _ => false) (rl_home l' ei)) as [p F].
  { apply rl_home_bound. } { unfold MK_RL_HASH, MK_RL_MAX_WINDOWS in *. lia. } { done. }
  rewrite F. destruct (indexed_insert I1 _ _ ei (rl_home_bound _ _) F) as [_ I2]; [tauto|lia|].
  eapply indexed_ext; [| |exact I2]; cbn.
  - intros v. rewrite EL. split; [intros [[? ?]| ->]; lia|].
    destruct (decide (v = ei)); [by right|left; lia].
  - intros v _. apply rl_home_khome.
Qed.

(** A new key gets an entry with an empty window that starts now. *)
Lemma new_entry_ok rl k now :
  rl_ok rl -> fits_key k -> k ∉ re_key <$> entries rl ->
  exists ei rl' m', new_entry rl k now = (ei, rl') /\ rl_ok rl' /\
    at_ (entries rl') ei = Some (RlEntry k 0 now) /\
    makes_room (rl_map rl) m' /\ rl_map rl' = <[k := (0, now)]> m' /\
    window_ms rl' = window_ms rl /\ max_requests rl' = max_requests rl.
Proof.
  intros O Hk Hn. unfold new_entry, makes_room. rewrite rl_map_length, strn_short by done.
  set (e := RlEntry k 0 now). set (n := Z.of_nat (length (entries rl))).
  assert (0 <= n <= MK_RL_MAX_WINDOWS) as Hmax by (unfold n; pose proof (kt_max _ _ _ _ _ O); lia).
  unfold MK_RL_MAX_WINDOWS in Hmax.
  destruct (Z.leb_spec MK_RL_MAX_WINDOWS n) as [Hfull|Hroom];
    destruct (Z.ltb_spec n MK_RL_MAX_WINDOWS) as [Hx|Hx]; try lia; unfold MK_RL_MAX_WINDOWS in *.
  - destruct (evict_oldest_ok rl) as (old & Hold & Hmin).
    { intros E. unfold n in Hfull. rewrite E in Hfull. cbn in Hfull. lia. }
    set (ei := evict_oldest_idx rl) in *. pose proof (at_lt _ _ _ Hold) as Bei.
    destruct (replace_ok _ _ ei old e O Hold Hn) as [T M]. rewrite Hold.
    unfold hash_insert_ei. cbn [entries key_hash window_ms max_requests hash_remove_key].
    rewrite (i16_small ei) by lia. eexists ei, _, (delete (re_key old) (rl_map rl)).
    split_and!; try done.
    + cbn. by apply (at_upd_eq _ _ _ old).
    + exists (re_key old), (re_count old), (re_window_start old). split_and!; [|intros k' c' w' Hk'|done].
      * by apply (kmap_at re_key re_val _ ei); [apply O|].
      * apply kmap_lookup_Some in Hk' as (i & x & Hi & _ & [= <- <-]); [|apply O].
        apply Hmin. apply at_Some in Hi as [_ Hi]. by eapply list_elem_of_lookup_2.
  - destruct (ktable_insert re_key re_val rl_hash_slot 4096 rl_hash_slot_bound ltac:(done) _ _ e O Hn Hroom)
      as [T M].
    unfold hash_insert_ei, rl_home. cbn [entries key_hash window_ms max_requests]. fold n.
    unfold n. rewrite at_snoc. fold n. rewrite (i16_small n) by lia.
    eexists n, _, (rl_map rl). split_and!; try done. apply at_snoc.
Qed.

Lemma count_request_key w now e : re_key (count_request w now e) = re_key e.
Proof. unfold count_request. by case_match. Qed.

Lemma count_request_val w now e : re_val (count_request w now e) = bump w now (Some (re_val e)).
Proof. unfold count_request, bump. cbn. by case_match. Qed.

Lemma allow_ok rl k now :
  rl_ok rl -> fits_key k ->
  exists rl' m', let '(c, w) := bump (window_ms rl) now (rl_map rl !! k) in
    miku_ratelimit_allow rl now (Some k) = ((if c <=? max_requests rl then 1 else 0), rl') /\
    match rl_map rl !! k with Some _ => m' = rl_map rl | None => makes_room (rl_map rl) m' end /\
    rl_map rl' = <[k := (c, w)]> m' /\ rl_ok rl' /\
    window_ms rl' = window_ms rl /\ max_requests rl' = max_requests rl.
Proof.
  intros O Hk. unfold miku_ratelimit_allow.
  assert (exists ei rl1 m' e, (if 0 <=? find_entry rl k then (find_entry rl k, rl) else new_entry rl k now) = (ei, rl1) /\
    rl_ok rl1 /\ at_ (entries rl1) ei = Some e /\ re_key e = k /\
    bump (window_ms rl) now (Some (re_val e)) = bump (window_ms rl) now (rl_map rl !! k) /\
    match rl_map rl !! k with Some _ => m' = rl_map rl | None => makes_room (rl_map rl) m' end /\
    rl_map rl1 = <[k := re_val e]> m' /\
    window_ms rl1 = window_ms rl /\ max_requests rl1 = max_requests rl)
    as (ei & rl1 & m' & e & -> & O1 & He & Ek & B & R & M & -> & ->).
  { destruct (limit_entry_ok rl k O) as [(e & He & Ek & M)|(-> & M & Hn)]; rewrite M.
    - destruct (Z.leb_spec 0 (find_entry rl k)) as [_|Hx]; [|apply at_lt in He; lia].
      eexists _, rl, (rl_map rl), e. split_and!; try done. by rewrite insert_id.
    - destruct (new_entry_ok rl k now O Hk Hn) as (ei & rl1 & m' & E1 & ? & ? & ? & ? & ? & ?).
      exists ei, rl1, m', (RlEntry k 0 now). split_and!; try done. cbn. by case_match. }
  cbn [entries max_requests]. rewrite (at_upd_eq _ _ _ e He).
  set (e' := count_request _ _ e). assert (re_val e' = bump (window_ms rl) now (rl_map rl !! k)) as V.
  { by rewrite <- B, <- count_request_val. }
  clear B. destruct (bump _ _ (rl_map rl !! k)) as [c w]. 
  assert (re_count e' = c) as Vc by exact (f_equal fst V).
  assert (re_window_start e' = w) as Vw by exact (f_equal snd V). rewrite Vc.
  eexists _, m'. split_and!; [done|done| | |done|done].
  - unfold rl_map. cbn [entries]. rewrite (kmap_upd _ _ _ _ _ e); [|apply O1|done|apply count_request_key].
    fold e'. unfold re_val at 1. rewrite Vc, Vw. fold (rl_map rl1). rewrite M, Ek. by rewrite insert_insert_eq.
  - eapply (ktable_upd re_key re_val); [exact O1|exact He|apply count_request_key].
Qed.

(** C37: one call of [miku_ratelimit_allow] with a key of at most 127 characters
    (a longer one is never limited: [ratelimit_long_key_unlimited]).  It answers
    1 exactly when the
    number of requests of the key in its current window, this one included, is
    at most [max_requests]; a window that has elapsed starts again; a new key
    gets a window, at the expense of one with the oldest start when the
    limiter is full; other windows do not change. *)
Theorem ratelimit_allow_spec rl k now :
  rl_ok rl -> fits_key k ->
  exists rl' m', let '(c, w) := bump (window_ms rl) now (rl_map rl !! k) in
    miku_ratelimit_allow rl now (Some k) = ((if c <=? max_requests rl then 1 else 0), rl') /\
    match rl_map rl !! k with Some _ => m' = rl_map rl | None => makes_room (rl_map rl) m' end /\
    rl_map rl' = <[k := (c, w)]> m' /\ rl_ok rl' /\
    window_ms rl' = window_ms rl /\ max_requests rl' = max_requests rl.
Proof.
  intros O Hk. by apply allow_ok.
Qed.

(** The windows of a burst: those of the counter, all started in the burst. *)
Lemma run_allow_ok t0 calls : forall rl seen,
  rl_ok rl -> fst <$> rl_map rl = seen ->
  (forall k c w, rl_map rl !! k = Some (c, w) -> t0 <= w) ->
  Forall (fun '(now, k) => t0 <= now < t0 + window_ms rl /\ fits_key k) calls ->
  Z.of_nat (size (dom seen ∪ list_to_set (snd <$> calls))) <= MK_RL_MAX_WINDOWS ->
  (run_allow rl calls).1 = counter_answers (max_requests rl) seen calls.
Proof.
  induction calls as [|[now k] calls IH]; intros rl seen O Hs Hw Hc Hd; [done|].
  apply list.Forall_cons in Hc as [[Ht Hk] Hc].
  destruct (allow_ok rl k now O Hk) as (rl' & m' & A). cbn [run_allow counter_answers].
  destruct (bump _ _ _) as [c w] eqn:B. destruct A as (-> & R & M & O' & Ew & Em).
  assert (c = default 0 (seen !! k) + 1 /\ t0 <= w) as [-> Htw].
  { rewrite <- Hs, lookup_fmap. destruct (rl_map rl !! k) as [[c0 w0]|] eqn:E0; cbn in B |- *.
    - specialize (Hw _ _ _ E0). destruct (Z.leb_spec (window_ms rl) (now - w0)); [lia|]. by simplify_eq.
    - simplify_eq. split; [done|lia]. }
  assert (m' = rl_map rl) as ->.
  { destruct (rl_map rl !! k) eqn:E0; [done|]. unfold makes_room in R.
    destruct (Z.ltb_spec (Z.of_nat (size (rl_map rl))) MK_RL_MAX_WINDOWS) as [|Hfull]; [done|].
    exfalso. assert (size (dom seen) < size (dom seen ∪ list_to_set (snd <$> (now, k) :: calls)))%nat; cycle 1.
    { rewrite size_dom in *. rewrite <- Hs in *. rewrite map_size_fmap in *. lia. }
    apply subset_size. split; [set_solver|]. intros Hsub.
    assert (k ∈ dom seen) as Hin by (apply Hsub; set_solver).
    rewrite <- Hs, dom_fmap in Hin. apply elem_of_dom in Hin as [? ?]. congruence. }
  rewrite surjective_pairing with (p := run_allow rl' calls). cbn. rewrite <- Em. f_equal.
  apply IH; [done| | |by rewrite Ew|].
  - rewrite M, fmap_insert. by rewrite <- Hs.
  - intros k' c' w'. rewrite M. destruct (decide (k' = k)) as [->|].
    + rewrite lookup_insert_eq. by intros [= <- <-].
    + rewrite lookup_insert_ne by done. apply Hw.
  - rewrite dom_insert_L. etransitivity; [|exact Hd]. apply inj_le.
    apply subseteq_size. cbn. set_solver.
Qed.

(** A burst of calls whose times fit one window, by at most
    MK_RL_MAX_WINDOWS different keys, is answered as by a counter per key: the
    first [max_requests] requests of each key pass and the others are refused,
    however the calls of different keys interleave. *)
Theorem ratelimit_burst window max t0 calls :
  Forall (fun '(now, k) => t0 <= now < t0 + window /\ fits_key k) calls ->
  Z.of_nat (size (list_to_set (C:=gset string) (snd <$> calls))) <= MK_RL_MAX_WINDOWS ->
  (run_allow (miku_ratelimit_create window max) calls).1 = counter_answers max ∅ calls.
Proof.
  intros Hc Hd. apply (run_allow_ok t0).
  - apply rl_ok_create.
  - apply fmap_empty.
  - intros k c w. unfold rl_map. cbn. done.
  - done.
  - rewrite dom_empty_L, left_id_L by apply _. done.
Qed.

(** Whatever was called before, no entry holds a key of 128 characters. *)
Definition keys_cut (rl : miku_ratelimit) : Prop := Forall (fun e => fits_key (re_key e)) (entries rl).

Lemma find_long rl k : keys_cut rl -> (127 < String.length k)%nat -> find_entry rl k = -1.
Proof.
  intros W Hk. unfold find_entry, scan_find.
  pose proof (scan_run (key_hash rl) (key_match (entries rl) k) _ (rl_hash_slot_bound k)) as R.
  destruct (scan _ _ _ _) as [p v|p|]; [|done..]. destruct R as (_ & _ & _ & _ & _ & Hm & _).
  unfold key_match in Hm. destruct (at_ (entries rl) v) as [e|] eqn:E; [|done].
  apply streq_eq in Hm. apply at_Some in E as [_ E].
  unfold keys_cut in W. rewrite list.Forall_lookup in W. apply W in E. unfold fits_key in E. subst. lia.
Qed.

Lemma cut_fits k : fits_key (strn 127 k).
Proof. unfold fits_key. rewrite strn_length. lia. Qed.

Lemma new_entry_cut rl k now :
  keys_cut rl -> exists ei rl', new_entry rl k now = (ei, rl') /\ keys_cut rl' /\
    at_ (entries rl') ei = Some (RlEntry (strn 127 k) 0 now) /\
    window_ms rl' = window_ms rl /\ max_requests rl' = max_requests rl.
Proof.
  intros W. unfold new_entry. pose proof (cut_fits k).
  destruct (Z.leb_spec MK_RL_MAX_WINDOWS (Z.of_nat (length (entries rl)))) as [Hfull|_].
  - destruct (evict_oldest_ok rl) as (old & Hold & _).
    { intros E. rewrite E in Hfull. done. }
    rewrite Hold. eexists _, _. split_and!; [done| |by apply (at_upd_eq _ _ _ old)|done|done].
    apply Forall_alter; done.
  - eexists _, _. split_and!; [done| |apply at_snoc|done|done].
    apply list.Forall_app. by split; [|constructor].
Qed.

Lemma allow_cut rl k now : keys_cut rl ->
  keys_cut (miku_ratelimit_allow rl now (Some k)).2 /\
  max_requests (miku_ratelimit_allow rl now (Some k)).2 = max_requests rl.
Proof.
  intros W. unfold miku_ratelimit_allow.
  assert (exists ei rl', (if 0 <=? find_entry rl k then (find_entry rl k, rl) else new_entry rl k now) = (ei, rl') /\
    keys_cut rl' /\ max_requests rl' = max_requests rl) as (ei & rl' & -> & W' & <-).
  { destruct (0 <=? find_entry rl k); [eauto|].
    destruct (new_entry_cut rl k now W) as (? & ? & ? & ? & ? & ? & ?). eauto. }
  assert (keys_cut (RateLimiter (upd_at (count_request (window_ms rl') now) ei (entries rl'))
                                (key_hash rl') (window_ms rl') (max_requests rl'))) as W2.
  { apply Forall_alter; [done|]. intros x _ Hx. by rewrite count_request_key. }
  by case_match.
Qed.

Lemma run_allow_cut calls : forall rl, keys_cut rl ->
  keys_cut (run_allow rl calls).2 /\ max_requests (run_allow rl calls).2 = max_requests rl.
Proof.
  induction calls as [|[now k] calls IH]; intros rl W; [done|].
  cbn [run_allow]. destruct (allow_cut rl k now W) as [W1 <-]. destruct (miku_ratelimit_allow rl now (Some k)) as [r rl1].
  specialize (IH rl1 W1). destruct (run_allow rl1 calls). exact IH.
Qed.

(** A key of 128 characters or more is stored truncated and never found
    again: whatever the limiter served before, each of its requests opens a
    new window and passes. *)
Theorem ratelimit_long_key_unlimited window max calls k now :
  (127 < String.length k)%nat -> 1 <= max ->
  (miku_ratelimit_allow (run_allow (miku_ratelimit_create window max) calls).2 now (Some k)).1 = 1.
Proof.
  intros Hk Hm. destruct (run_allow_cut calls (miku_ratelimit_create window max)) as [W E]; [constructor|].
  cbn in E. set (rl := (run_allow _ calls).2) in *. unfold miku_ratelimit_allow. rewrite find_long by done.
  destruct (new_entry_cut rl k now W) as (ei & rl' & E1 & _ & He & _ & Em). cbn [Z.leb Z.compare]. rewrite E1.
  cbn [entries max_requests]. rewrite (at_upd_eq _ _ _ _ He), Em, E. cbn [fst].
  assert (re_count (count_request (window_ms rl') now (RlEntry (strn 127 k) 0 now)) = 1) as ->.
  { unfold count_request. by case_match. }
  by destruct (Z.leb_spec 1 max); [|lia].
Qed.

(** A peer sends three requests in one window of two, another peer one. *)
Definition burst3 : list (Z * string) := [(5, "a"); (6, "b"); (7, "a"); (9, "a")]%string.

Lemma ratelimit_allow_spec_witness :
  exists rl' m', miku_ratelimit_allow (miku_ratelimit_create 10 2) 5 (Some "a"%string) = (1, rl') /\
    makes_room ∅ m' /\ rl_map rl' = <["a"%string := (1, 5)]> m' /\ rl_ok rl' /\
    window_ms rl' = 10 /\ max_requests rl' = 2.
Proof.
  exact (ratelimit_allow_spec (miku_ratelimit_create 10 2) "a" 5 (rl_ok_create 10 2) ltac:(vm_compute; lia)).
Defined.

Lemma ratelimit_burst_witness :
  (run_allow (miku_ratelimit_create 10 2) burst3).1 = counter_answers 2 ∅ burst3 /\
  counter_answers 2 ∅ burst3 = [1; 1; 1; 0].
Proof.
  split; [|vm_compute; reflexivity]. apply (ratelimit_burst 10 2 0).
  - unfold burst3, fits_key. repeat (apply list.Forall_cons; split); [cbn; lia..|constructor].
  - vm_compute. discriminate.
Defined.

Definition long_key : string := String.concat "" (repeat "k"%string 128).

Lemma ratelimit_long_key_unlimited_witness :
  (miku_ratelimit_allow (run_allow (miku_ratelimit_create 10 1) [(0, long_key); (1, long_key)]).2 2 (Some long_key)).1 = 1.
Proof. apply ratelimit_long_key_unlimited; vm_compute; [lia|discriminate]. Defined.
