(* ===== verification/Json.v ===== *)
(** * JSON values and objects (protocol/miku_json.c, foundation/miku_json_util.h)

    A value is a tree: the C code hands every value to exactly one owner
    ([miku_json_array_push] and [miku_json_object_set] take the reference), so
    an update in place is a function on trees.  An object keeps its pairs in
    insertion order, with an open-addressing index [kh] from key to pair.
    Values that the C code reads may be NULL: they are [option json].  A
    failing allocation is not modelled.

    [obj_wf] is the invariant of objects; [get_ok] and [set_ok] say that the
    indexed object is a finite map that remembers insertion order. *)
From Stdlib Require Import Floats.SpecFloat.
From S2P Require Import Prelude Hash ProbeIndex KeyedMap.

Inductive miku_json_type_t :=
  MK_JSON_NULL | MK_JSON_BOOL | MK_JSON_INT | MK_JSON_DOUBLE | MK_JSON_STRING | MK_JSON_ARRAY | MK_JSON_OBJECT.

#[local] Set Warnings "-register-all".

#[export] Instance json_type_eq_dec : EqDecision miku_json_type_t.
Proof. solve_decision. Defined.

Record jobject (A : Type) := JObject {
  pairs : list (string * A);
  capacity : Z;
  kh : gmap Z Z;
  kh_mask : Z }.

Arguments JObject {A}.
Arguments pairs {A}.
Arguments capacity {A}.
Arguments kh {A}.
Arguments kh_mask {A}.

Inductive json :=
  | JNull
  | JBool (b : bool)
  | JInt (z : Z)
  | JDouble (d : spec_float)
  | JStr (s : string)
  | JArr (items : list json)
  | JObj (o : jobject json).

Definition count {A} (o : jobject A) : Z := Z.of_nat (length (pairs o)).

(** [while (p < n) p <<= 1] on [size_t]. *)
Fixpoint pow2_from (fuel : nat) (p n : Z) : Z :=
  match fuel with
  | O => p
  | S fuel' => if p <? n then pow2_from fuel' (u64 (p * 2)) n else p
  end.

Definition json_pow2 (n : Z) : Z := pow2_from 64 16 n.

Definition obj_kh_alloc {A} (o : jobject A) (min_slots : Z) : jobject A :=
  let sz := json_pow2 (if min_slots <? 16 then 16 else min_slots) in
  JObject (pairs o) (capacity o) ∅ (sz - 1).

Definition kh_slot (mask : Z) (key : string) : Z := mask_slot (mask + 1) (fnv1a_64 key).

Definition obj_kh_insert {A} (o : jobject A) (pair_i : Z) : jobject A :=
  match at_ (pairs o) pair_i with
  | Some (key, _) =>
      JObject (pairs o) (capacity o)
        (scan_insert (kh_mask o + 1) (kh o) (kh_slot (kh_mask o) key) (i32 pair_i)) (kh_mask o)
  | None => o
  end.

Definition obj_kh_rebuild {A} (o : jobject A) : jobject A :=
  for_range (count o) obj_kh_insert (obj_kh_alloc o (capacity o * 2)).

Definition pair_match {A} (l : list (string * A)) (key : string) (pi : Z) : bool :=
  match at_ l pi with Some (k, _) => streq k key | None => false end.

Definition obj_kh_find {A} (o : jobject A) (key : string) : Z :=
  scan_find (kh_mask o + 1) (kh o) (pair_match (pairs o) key) (kh_slot (kh_mask o) key).

(** The linear search after a missed index lookup. *)
Fixpoint pairs_find {A} (l : list (string * A)) (key : string) : option A :=
  match l with
  | [] => None
  | (k, v) :: l' => if streq k key then Some v else pairs_find l' key
  end.

Definition miku_json_get (obj : option json) (key : option string) : option json :=
  match obj, key with
  | Some (JObj o), Some k =>
      let pi := obj_kh_find o k in
      if 0 <=? pi then snd <$> at_ (pairs o) pi else pairs_find (pairs o) k
  | _, _ => None
  end.

Definition miku_json_at (arr : option json) (index : Z) : option json :=
  match arr with Some (JArr items) => at_ items index | _ => None end.

Definition miku_json_size (v : option json) : Z :=
  match v with
  | Some (JArr items) => Z.of_nat (length items)
  | Some (JObj o) => count o
  | _ => 0
  end.

Definition miku_json_type (v : option json) : miku_json_type_t :=
  match v with
  | None | Some JNull => MK_JSON_NULL
  | Some (JBool _) => MK_JSON_BOOL
  | Some (JInt _) => MK_JSON_INT
  | Some (JDouble _) => MK_JSON_DOUBLE
  | Some (JStr _) => MK_JSON_STRING
  | Some (JArr _) => MK_JSON_ARRAY
  | Some (JObj _) => MK_JSON_OBJECT
  end.

Definition miku_json_bool (v : option json) : bool :=
  match v with Some (JBool b) => b | _ => false end.

Definition miku_json_int (v : option json) : Z :=
  match v with Some (JInt z) => z | _ => 0 end.

Definition miku_json_dbl (v : option json) : spec_float :=
  match v with Some (JDouble d) => d | _ => S754_zero false end.

Definition miku_json_str (v : option json) : option string :=
  match v with Some (JStr s) => Some s | _ => None end.

Definition miku_json_create_null : json := JNull.
Definition miku_json_create_bool (b : bool) : json := JBool b.
Definition miku_json_create_int (z : Z) : json := JInt z.
Definition miku_json_create_dbl (d : spec_float) : json := JDouble d.
Definition miku_json_create_str (val : option string) : json := JStr (default ""%string val).
Definition miku_json_create_array : json := JArr [].

Definition empty_object {A} : jobject A := obj_kh_alloc (JObject [] 8 ∅ 0) 16.
Definition miku_json_create_object : json := JObj empty_object.

Definition miku_json_array_push (arr item : json) : Z * json :=
  match arr with JArr items => (0, JArr (items ++ [item])) | _ => (-1, arr) end.

(** [miku_json_object_set] on the object part. *)
Definition obj_set {A} (o : jobject A) (k : string) (v : A) : jobject A :=
  let pi := obj_kh_find o k in
  if 0 <=? pi then
    JObject (upd_at (fun p => (p.1, v)) pi (pairs o)) (capacity o) (kh o) (kh_mask o)
  else
    let o1 := if capacity o <=? count o
              then obj_kh_rebuild (JObject (pairs o) (capacity o * 2) (kh o) (kh_mask o)) else o in
    let idx := count o1 in
    let o2 := JObject (pairs o1 ++ [(k, v)]) (capacity o1) (kh o1) (kh_mask o1) in
    if kh_mask o2 + 1 <? count o2 * 2 then obj_kh_rebuild o2 else obj_kh_insert o2 idx.

Definition miku_json_object_set (obj : json) (key : option string) (v : json) : Z * json :=
  match obj, key with
  | JObj o, Some k => (0, JObj (obj_set o k v))
  | _, _ => (-1, obj)
  end.

Definition json_object_clear (obj : json) : json :=
  match obj with
  | JObj o => JObj (JObject [] (capacity o) ∅ (kh_mask o))
  | _ => obj
  end.

Fixpoint miku_json_clone (v : json) : json :=
  match v with
  | JNull => miku_json_create_null
  | JBool b => miku_json_create_bool b
  | JInt z => miku_json_create_int z
  | JDouble d => miku_json_create_dbl d
  | JStr s => miku_json_create_str (Some s)
  | JArr items =>
      (fix push (a : json) (l : list json) : json :=
         match l with
         | [] => a
         | x :: l' => push (miku_json_array_push a (miku_json_clone x)).2 l'
         end) miku_json_create_array items
  | JObj (JObject ps _ _ _) =>
      (fix set (o : json) (l : list (string * json)) : json :=
         match l with
         | [] => o
         | (k, x) :: l' => set (miku_json_object_set o (Some k) (miku_json_clone x)).2 l'
         end) miku_json_create_object ps
  end.

Definition miku_json_object_assign (dst src : json) : json :=
  match dst, src with
  | JObj _, JObj s =>
      foldl (fun d p => (miku_json_object_set d (Some p.1) (miku_json_clone p.2)).2)
            (json_object_clear dst) (pairs s)
  | _, _ => dst
  end.

(** ** The helpers of miku_json_util.h *)

Definition miku_ji (o : json) (k : string) (v : Z) : json :=
  (miku_json_object_set o (Some k) (miku_json_create_int v)).2.

Definition miku_jss (o : json) (k : string) (v : option string) : json :=
  match v with
  | Some _ => (miku_json_object_set o (Some k) (miku_json_create_str v)).2
  | None => o
  end.

Definition miku_jerr (o : json) (code : Z) (msg : string) : json :=
  miku_jss (miku_jss (miku_ji o "errCode" code) "errMsg" (Some msg)) "errDmg" (Some "").

(** [miku_json_str(miku_json_get(req, key))] and its integer sibling, the
    way request fields are read. *)
Definition jstr (req : option json) (key : string) : option string :=
  miku_json_str (miku_json_get req (Some key)).

Definition jint (req : option json) (key : string) : Z :=
  miku_json_int (miku_json_get req (Some key)).

(** [miku_json_object_set(o, key, v)] with the status ignored. *)
Definition jset (o : json) (key : string) (v : json) : json :=
  (miku_json_object_set o (Some key) v).2.

(** [miku_json_array_push(a, v)] with the status ignored. *)
Definition jpush (a v : json) : json := (miku_json_array_push a v).2.

(** ** Abstract value and invariant *)

Definition obj_map {A} (o : jobject A) : gmap string A := kmap fst snd (pairs o).

Definition kh_size {A} (o : jobject A) : Z := kh_mask o + 1.

Record obj_wf {A} (o : jobject A) : Prop := {
  ow_pow2 : Pow2 (kh_size o);
  ow_cap : 8 <= capacity o <= 2 ^ 29;
  ow_count : count o <= capacity o;
  ow_load : 2 * capacity o <= kh_size o;
  ow_index : kindex (sz:=kh_size o) (kh_slot (kh_mask o)) (kh o) (fst <$> pairs o);
  ow_nodup : NoDup (fst <$> pairs o) }.

(** [v] is a well-formed object with the contents [m]. *)
Definition obj_is (v : json) (m : gmap string json) : Prop :=
  exists o, v = JObj o /\ obj_wf o /\ obj_map o = m.

(** The order of the pairs after a [set]. *)
Fixpoint alist_set {A} (l : list (string * A)) (k : string) (v : A) : list (string * A) :=
  match l with
  | [] => [(k, v)]
  | (k', v') :: l' => if streq k' k then (k', v) :: l' else (k', v') :: alist_set l' k v
  end.

(** A value without the bookkeeping of its objects. *)
Fixpoint erase (v : json) : json :=
  match v with
  | JArr items => JArr (erase <$> items)
  | JObj (JObject ps _ _ _) => JObj (JObject ((fun p => (p.1, erase p.2)) <$> ps) 0 ∅ 0)
  | _ => v
  end.

(** Distinct keys in every object, of a size the index can hold. *)
Fixpoint keys_distinct (v : json) : Prop :=
  match v with
  | JArr items =>
      (fix all (l : list json) := match l with [] => True | x :: l' => keys_distinct x /\ all l' end) items
  | JObj (JObject ps _ _ _) =>
      NoDup (fst <$> ps) /\ Z.of_nat (length ps) < 2 ^ 28 /\
      (fix all (l : list (string * json)) :=
         match l with [] => True | (_, x) :: l' => keys_distinct x /\ all l' end) ps
  | _ => True
  end.

(** The object built by a sequence of [miku_json_object_set] calls. *)
Definition set_all (v : json) (kvs : list (string * json)) : json :=
  foldl (fun o p => jset o p.1 p.2) v kvs.

(** ** Proofs *)

Lemma json_nested_ind (P : json -> Prop) :
  P JNull -> (forall b, P (JBool b)) -> (forall z, P (JInt z)) -> (forall d, P (JDouble d)) ->
  (forall s, P (JStr s)) -> (forall l, Forall P l -> P (JArr l)) ->
  (forall ps c t m, Forall (fun p => P p.2) ps -> P (JObj (JObject ps c t m))) -> forall v, P v.
Proof.
  intros H1 H2 H3 H4 H5 H6 H7. fix IH 1. intros [|b|z|d|s|l|[ps c t m]];
    [apply H1|apply H2|apply H3|apply H4|apply H5|apply H6|apply H7].
  - induction l; constructor; [apply IH|done].
  - induction ps as [|[k x] ps IHp]; constructor; [apply IH|done].
Qed.

Section Obj.
Context {A : Type}.
Implicit Types (o : jobject A) (l : list (string * A)) (k : string) (v : A).

Lemma pow2_from_ok fuel j n :
  4 <= j <= 30 -> n <= 2 ^ 30 -> 30 - j <= Z.of_nat fuel ->
  exists i, 4 <= i <= 30 /\ pow2_from fuel (2 ^ j) n = 2 ^ i /\ n <= 2 ^ i.
Proof.
  revert j. induction fuel as [|fuel IH]; intros j Hj Hn Hf; cbn [pow2_from].
  - exists j. replace j with 30 in * by lia. eauto.
  - destruct (Z.ltb_spec (2 ^ j) n) as [H|H]; [|eauto].
    assert (j < 30) by (apply (Z.pow_lt_mono_r_iff 2); lia).
    replace (2 ^ j * 2) with (2 ^ (j + 1)) by (rewrite Z.pow_add_r; lia).
    rewrite uwrap_small; [apply IH; lia|]. split; [apply Z.pow_nonneg; lia|].
    apply Z.pow_lt_mono_r; lia.
Qed.

Lemma json_pow2_ok n : n <= 2 ^ 30 -> Pow2 (json_pow2 n) /\ n <= json_pow2 n /\ 16 <= json_pow2 n.
Proof.
  intros Hn. destruct (pow2_from_ok 64 4 n ltac:(lia) Hn ltac:(lia)) as (i & Hi & E & Hle).
  change (2 ^ 4) with 16 in E. unfold json_pow2. rewrite E. split_and!; [|done|].
  - exists i. lia.
  - change 16 with (2 ^ 4). apply Z.pow_le_mono_r; lia.
Qed.

Lemma kh_slot_bound mask : Pow2 (mask + 1) -> forall k, 0 <= kh_slot mask k < mask + 1.
Proof. intros (j & Hj & E) k. unfold kh_slot. rewrite E. apply mask_slot_bound. lia. Qed.

Lemma pair_match_kmatch l k pi : pair_match l k pi = kmatch (fst <$> l) k pi.
Proof.
  unfold pair_match, kmatch. rewrite at_fmap. destruct (at_ l pi) as [[k' v]|]; cbn; [|done].
  apply streq_bool.
Qed.

(** The index insertion of the next pair. *)
Lemma kh_insert_ok o (n : nat) p :
  Pow2 (kh_size o) -> pairs o !! n = Some p -> Z.of_nat n < kh_size o ->
  kindex (sz:=kh_size o) (kh_slot (kh_mask o)) (kh o) (take n (fst <$> pairs o)) ->
  exists t', obj_kh_insert o (Z.of_nat n) = JObject (pairs o) (capacity o) t' (kh_mask o) /\
    kindex (sz:=kh_size o) (kh_slot (kh_mask o)) t' (take (S n) (fst <$> pairs o)).
Proof.
  intros P Hn Hlt I. destruct p as [k v]. unfold obj_kh_insert. rewrite at_of_nat, Hn.
  eexists. split; [done|]. assert (n < length (pairs o))%nat by by eapply lookup_lt_Some.
  pose proof (kindex_insert (kh_slot (kh_mask o)) (kh_slot_bound _ P) _ _ k I) as I2.
  rewrite length_take, length_fmap, Nat.min_l in I2 by lia.
  destruct P as (j & Hj & Ej). assert (2 ^ j <= 2 ^ 31) by (apply Z.pow_le_mono_r; lia).
  unfold kh_size in *. rewrite i32_small by lia.
  rewrite (take_S_r _ _ k) by (rewrite list_lookup_fmap, Hn; done). by apply I2.
Qed.

Lemma obj_kh_rebuild_ok o :
  count o <= capacity o -> 8 <= capacity o <= 2 ^ 29 ->
  exists t' mask, obj_kh_rebuild o = JObject (pairs o) (capacity o) t' mask /\
    Pow2 (mask + 1) /\ 2 * capacity o <= mask + 1 /\
    kindex (sz:=mask + 1) (kh_slot mask) t' (fst <$> pairs o).
Proof.
  intros Hc Hcap. unfold obj_kh_rebuild, obj_kh_alloc.
  destruct (Z.ltb_spec (capacity o * 2) 16) as [|_]; [lia|].
  destruct (json_pow2_ok (capacity o * 2)) as (P & Hle & _); [change (2 ^ 30) with (2 ^ 29 * 2); lia|].
  set (mask := json_pow2 (capacity o * 2) - 1).
  assert (mask + 1 = json_pow2 (capacity o * 2)) as Em by (unfold mask; lia). rewrite <- Em in P, Hle.
  assert (exists t', for_range (count o) obj_kh_insert (JObject (pairs o) (capacity o) ∅ mask)
            = JObject (pairs o) (capacity o) t' mask /\
            kindex (sz:=mask + 1) (kh_slot mask) t' (take (Z.to_nat (count o)) (fst <$> pairs o)))
    as (t' & E1 & I).
  { apply (for_range_ind (fun i s => exists t', s = JObject (pairs o) (capacity o) t' mask /\
            kindex (sz:=mask + 1) (kh_slot mask) t' (take (Z.to_nat i) (fst <$> pairs o)))).
    - unfold count. lia.
    - exists ∅. split; [done|]. apply kindex_empty.
    - intros i s Hi (t' & -> & I). destruct (at_is_Some (pairs o) i Hi) as [p Hp].
      apply at_Some in Hp as [_ Hp].
      destruct (kh_insert_ok (JObject (pairs o) (capacity o) t' mask) (Z.to_nat i) p P Hp) as (t2 & E2 & I2).
      + unfold kh_size. cbn. lia.
      + done.
      + exists t2. rewrite Z2Nat.id in E2 by lia. split; [done|].
        replace (Z.to_nat (i + 1)) with (S (Z.to_nat i)) by lia. done. }
  rewrite take_ge in I by (rewrite length_fmap; unfold count; lia).
  exists t', mask. split_and!; [done..|lia|done].
Qed.

Lemma empty_object_wf : obj_wf (empty_object (A:=A)).
Proof.
  split.
  - by exists 4.
  - done.
  - done.
  - done.
  - apply kindex_empty.
  - constructor.
Qed.

Lemma obj_find_ok o k : obj_wf o ->
  (exists v, at_ (pairs o) (obj_kh_find o k) = Some (k, v) /\ obj_map o !! k = Some v) \/
  (obj_kh_find o k = -1 /\ obj_map o !! k = None /\ k ∉ fst <$> pairs o).
Proof.
  intros [P Hc1 Hc2 Hl I Hnd]. unfold obj_kh_find, scan_find.
  rewrite (scan_ext _ _ _ _ (pair_match_kmatch (pairs o) k)). unfold kh_size in *.
  destruct (decide (k ∈ fst <$> pairs o)) as [Hin|Hnin].
  - left. apply list_elem_of_lookup in Hin as [n Hn]. rewrite <- at_of_nat in Hn.
    destruct (kscan_hit _ (kh_slot_bound _ P) _ _ k _ I Hnd Hn) as [p F]. rewrite F.
    rewrite at_fmap in Hn. destruct (at_ (pairs o) (Z.of_nat n)) as [[k' v]|] eqn:Ee; [|done].
    cbn in Hn. simplify_eq. exists v. split; [done|].
    apply (kmap_at fst snd (pairs o) (Z.of_nat n) (k, v)); done.
  - right. destruct (kscan_miss _ (kh_slot_bound _ P) _ _ k I Hnin) as [p F].
    { rewrite length_fmap. unfold count in *. lia. }
    rewrite F. split_and!; [done| |done]. by apply kmap_None.
Qed.

Lemma alist_set_fresh l k v : k ∉ fst <$> l -> alist_set l k v = l ++ [(k, v)].
Proof.
  induction l as [|[k' v'] l IH]; cbn; [done|]. rewrite not_elem_of_cons. intros [Hne Hn].
  rewrite streq_neq by done. by rewrite IH.
Qed.

Lemma alist_set_at l k v v0 i :
  NoDup (fst <$> l) -> at_ l i = Some (k, v0) -> alist_set l k v = upd_at (fun p => (p.1, v)) i l.
Proof.
  intros Hnd (l1 & l2 & -> & ->)%at_split. rewrite upd_at_app. cbn.
  rewrite fmap_app in Hnd. apply list.NoDup_app in Hnd as (_ & Hd & _).
  induction l1 as [|[k' v'] l1 IH]; cbn; [by rewrite streq_refl|].
  rewrite streq_neq; [f_equal; apply IH; intros x Hx; apply Hd; by right|].
  intros ->. apply (Hd k); [by left|]. cbn. by left.
Qed.

Lemma obj_set_ok o k v :
  obj_wf o -> count o < 2 ^ 28 ->
  obj_wf (obj_set o k v) /\ obj_map (obj_set o k v) = <[k := v]> (obj_map o) /\
  pairs (obj_set o k v) = alist_set (pairs o) k v.
Proof.
  intros W Hb. pose proof W as [P Hc1 Hc2 Hl I Hnd]. unfold obj_set.
  destruct (obj_find_ok o k W) as [(v0 & Hf & M)|(-> & M & Hn)].
  - destruct (Z.leb_spec 0 (obj_kh_find o k)) as [_|Hx]; [|apply at_lt in Hf; lia].
    set (pi := obj_kh_find o k) in *.
    assert (fst <$> upd_at (fun p => (p.1, v)) pi (pairs o) = fst <$> pairs o) as Ek
      by (apply fmap_upd_at; [done|apply at_lt in Hf; lia]).
    split_and!.
    + split; cbn; rewrite ?Ek; try done. unfold count. cbn. by rewrite length_upd_at.
    + unfold obj_map. cbn. by rewrite (kmap_upd _ _ _ _ _ (k, v0)).
    + cbn. symmetry. by eapply alist_set_at.
  - assert (exists o1, (if capacity o <=? count o
              then obj_kh_rebuild (JObject (pairs o) (capacity o * 2) (kh o) (kh_mask o)) else o) = o1 /\
              pairs o1 = pairs o /\ obj_wf o1 /\ count o1 < capacity o1) as (o1 & -> & Ep & W1 & Hlt).
    { destruct (Z.leb_spec (capacity o) (count o)) as [Hfull|Hroom]; [|eauto].
      destruct (obj_kh_rebuild_ok (JObject (pairs o) (capacity o * 2) (kh o) (kh_mask o)))
        as (t' & mask & -> & P' & Hl' & I'); cbn [capacity]; [unfold count in *; cbn; lia|lia|].
      eexists. split_and!; [done..| |]; [split|]; unfold kh_size, count in *; cbn in *; try done; lia. }
    cbn [Z.leb Z.compare]. clear M. rewrite <- Ep in Hn. rewrite <- Ep. clear Hc1 Hc2 Hl I Hnd P.
    destruct W1 as [P Hc1 Hc2 Hl I Hnd]. cbn [kh_mask pairs capacity kh].
    set (o2 := JObject _ _ _ _). assert (count o2 = count o1 + 1) as Ec.
    { unfold count, o2. cbn. rewrite length_app. cbn. lia. }
    destruct (Z.ltb_spec (kh_mask o1 + 1) (count o2 * 2)) as [Hx|_]; [unfold kh_size in *; lia|].
    destruct (kh_insert_ok o2 (length (pairs o1)) (k, v)) as (t' & E1 & I').
    + exact P.
    + apply list_lookup_middle. done.
    + unfold count, kh_size, o2 in *. cbn. lia.
    + cbn. rewrite fmap_app. rewrite take_app_le by (rewrite length_fmap; lia).
      rewrite take_ge by (rewrite length_fmap; lia). exact I.
    + change (count o1) with (Z.of_nat (length (pairs o1))). rewrite E1. rewrite take_ge in I'
        by (unfold o2; cbn; rewrite length_fmap, length_app; cbn; lia).
      split_and!; [split| |].
      * exact P.
      * exact Hc1.
      * change (count o2 <= capacity o1). lia.
      * exact Hl.
      * exact I'.
      * cbn. rewrite fmap_app. by apply NoDup_snoc.
      * unfold obj_map. rewrite <- Ep. by apply (kmap_snoc fst snd _ (k, v)).
      * cbn. symmetry. by apply alist_set_fresh.
Qed.
End Obj.

Lemma pairs_find_None {A} (l : list (string * A)) k : k ∉ fst <$> l -> pairs_find l k = None.
Proof.
  induction l as [|[k' v] l IH]; cbn; [done|]. rewrite not_elem_of_cons. intros [Hne Hn].
  rewrite streq_neq by done. auto.
Qed.

Lemma get_ok o k : obj_wf o -> miku_json_get (Some (JObj o)) (Some k) = obj_map o !! k.
Proof.
  intros W. cbn. destruct (obj_find_ok o k W) as [(v & Hf & ->)|(-> & -> & Hn)].
  - rewrite Hf. destruct (Z.leb_spec 0 (obj_kh_find o k)); [done|apply at_lt in Hf; lia].
  - cbn. by apply pairs_find_None.
Qed.

Lemma obj_map_size {A} (o : jobject A) : obj_wf o -> Z.of_nat (size (obj_map o)) = count o.
Proof. intros W. unfold obj_map, count. rewrite kmap_size; [done|apply W]. Qed.

Lemma obj_is_new : obj_is miku_json_create_object ∅.
Proof. exists empty_object. split_and!; [done|apply empty_object_wf|done]. Qed.

Lemma obj_is_set v m k x :
  obj_is v m -> Z.of_nat (size m) < 2 ^ 28 -> obj_is (jset v k x) (<[k:=x]> m).
Proof.
  intros (o & -> & W & <-) Hs. rewrite obj_map_size in Hs by done.
  destruct (obj_set_ok o k x W Hs) as (W' & M & _). by exists (obj_set o k x).
Qed.

Lemma obj_is_get v m k : obj_is v m -> miku_json_get (Some v) (Some k) = m !! k.
Proof. intros (o & -> & W & <-). by apply get_ok. Qed.

Lemma size_insert_le {A} (m : gmap string A) k x : (size (<[k:=x]> m) <= S (size m))%nat.
Proof.
  destruct (m !! k) eqn:E; [rewrite map_size_insert_Some by eauto; lia|].
  by rewrite map_size_insert_None.
Qed.

Lemma set_all_ok kvs : forall v o, v = JObj o -> obj_wf o ->
  count o + Z.of_nat (length kvs) <= 2 ^ 28 ->
  exists o', set_all v kvs = JObj o' /\ obj_wf o' /\
    obj_map o' = foldl (fun m p => <[p.1 := p.2]> m) (obj_map o) kvs /\
    pairs o' = foldl (fun l p => alist_set l p.1 p.2) (pairs o) kvs.
Proof.
  induction kvs as [|[k x] kvs IH]; intros v o -> W Hb; [eauto|].
  cbn [length] in Hb. destruct (obj_set_ok o k x W ltac:(lia)) as (W' & M & Ep).
  destruct (IH _ _ eq_refl W') as (o' & E1 & W2 & M2 & E2).
  - rewrite <- obj_map_size, M by done. rewrite <- obj_map_size in Hb by done.
    pose proof (size_insert_le (obj_map o) k x). lia.
  - exists o'. unfold set_all in *. cbn. rewrite E1, M2, E2, M, Ep. done.
Qed.

Lemma set_all_distinct (kvs l : list (string * json)) :
  NoDup (fst <$> l ++ kvs) -> foldl (fun l p => alist_set l p.1 p.2) l kvs = l ++ kvs.
Proof.
  revert l. induction kvs as [|[k x] kvs IH]; intros l Hnd; cbn [foldl]; [by rewrite app_nil_r|].
  rewrite alist_set_fresh; cbn [fst snd].
  - rewrite IH; [by rewrite <- app_assoc|by rewrite <- app_assoc].
  - rewrite fmap_app in Hnd. apply list.NoDup_app in Hnd as (_ & Hd & _).
    intros Hin. apply (Hd k Hin). by left.
Qed.

Lemma keys_distinct_arr l : keys_distinct (JArr l) <-> Forall keys_distinct l.
Proof. induction l as [|x l IH]; [done|]. rewrite list.Forall_cons, <- IH. done. Qed.

Lemma keys_distinct_obj ps c t m :
  keys_distinct (JObj (JObject ps c t m)) <->
  NoDup (fst <$> ps) /\ Z.of_nat (length ps) < 2 ^ 28 /\ Forall (fun p => keys_distinct p.2) ps.
Proof.
  cbn [keys_distinct]. do 2 (apply and_iff_compat_l). induction ps as [|[k x] ps IH]; [done|].
  rewrite list.Forall_cons, <- IH. done.
Qed.

Lemma clone_arr l : miku_json_clone (JArr l) = JArr (miku_json_clone <$> l).
Proof.
  cbn [miku_json_clone]. change (JArr (miku_json_clone <$> l)) with (JArr ([] ++ (miku_json_clone <$> l))).
  change miku_json_create_array with (JArr []). generalize (@nil json) as acc.
  induction l as [|x l IH]; intros acc; [by rewrite app_nil_r|]. cbn [miku_json_array_push snd].
  rewrite IH, <- app_assoc. done.
Qed.

Lemma clone_obj ps c t m :
  miku_json_clone (JObj (JObject ps c t m)) =
  set_all miku_json_create_object ((fun p => (p.1, miku_json_clone p.2)) <$> ps).
Proof.
  cbn [miku_json_clone]. generalize miku_json_create_object as o.
  induction ps as [|[k x] ps IH]; intros o; [done|]. rewrite IH. done.
Qed.

Lemma clone_keys (ps : list (string * json)) :
  fst <$> ((fun p => (p.1, miku_json_clone p.2)) <$> ps) = fst <$> ps.
Proof. rewrite <- list_fmap_compose. done. Qed.

Lemma clone_ok v : keys_distinct v -> erase (miku_json_clone v) = erase v.
Proof.
  induction v as [| | | | |l IH|ps c t m IH] using json_nested_ind; try done.
  - rewrite keys_distinct_arr, clone_arr. intros Hd. cbn. f_equal.
    induction IH as [|x l Hx IH IH2]; [done|]. apply list.Forall_cons in Hd as [? ?]. cbn. f_equal; auto.
  - rewrite keys_distinct_obj, clone_obj. intros (Hnd & Hlen & Hd).
    set (qs := (fun p => (p.1, miku_json_clone p.2)) <$> ps).
    assert (length qs = length ps) as El by apply length_fmap.
    destruct (set_all_ok qs _ empty_object eq_refl empty_object_wf) as (o' & E1 & _ & _ & Ep).
    { unfold count. cbn. lia. }
    unfold miku_json_create_object. rewrite E1. change (pairs empty_object) with (@nil (string * json)) in Ep.
    rewrite set_all_distinct in Ep by (cbn; unfold qs; by rewrite clone_keys).
    destruct o' as [ps' c' t' m']. cbn in Ep |- *. subst ps'. do 2 f_equal. clear E1 El Hnd Hlen.
    unfold qs. induction IH as [|[k x] ps Hx IH IH2]; [done|]. apply list.Forall_cons in Hd as [? ?].
    cbn. f_equal; [|auto]. f_equal. cbn in Hx. auto.
Qed.

(** An object built by any sequence of [miku_json_object_set] calls is a
    finite map that remembers insertion order: [miku_json_get] returns the
    last value stored under a key and NULL for every other key,
    [miku_json_size] is the number of keys, and the pairs keep the order in
    which their keys were first set, through every growth of the index. *)
Theorem json_object_refines kvs k :
  Z.of_nat (length kvs) <= 2 ^ 28 ->
  let v := set_all miku_json_create_object kvs in
  let m := foldl (fun m p => <[p.1 := p.2]> m) (∅ : gmap string json) kvs in
  miku_json_get (Some v) (Some k) = m !! k /\ miku_json_size (Some v) = Z.of_nat (size m) /\
  exists o, v = JObj o /\ pairs o = foldl (fun l p => alist_set l p.1 p.2) [] kvs.
Proof.
  intros Hb v m. destruct (set_all_ok kvs miku_json_create_object empty_object eq_refl empty_object_wf)
    as (o & Eo & W & M & Ep); [done|].
  assert (obj_map o = m) as Em by exact M. unfold v. rewrite Eo, <- Em, obj_map_size by done.
  split_and!; [by apply get_ok|done|eauto].
Qed.

Lemma json_object_refines_witness :
  let v := set_all miku_json_create_object [("a", JInt 1); ("b", JNull); ("a", JInt 2)]%string in
  miku_json_get (Some v) (Some "a"%string) = Some (JInt 2) /\ miku_json_size (Some v) = 2.
Proof.
  destruct (json_object_refines [("a", JInt 1); ("b", JNull); ("a", JInt 2)]%string "a" ltac:(done)) as (H1 & H2 & _).
  split; [exact H1|exact H2].
Defined.

(** A clone has the same contents, at every depth, as a value whose
    objects have distinct keys. *)
Theorem json_clone_same v : keys_distinct v -> erase (miku_json_clone v) = erase v.
Proof. apply clone_ok. Qed.

Lemma json_clone_same_witness :
  let v := JArr [set_all miku_json_create_object [("k", JArr [JInt 1; JNull])]%string; JBool true] in
  erase (miku_json_clone v) = erase v.
Proof.
  apply json_clone_same. apply keys_distinct_arr. constructor; [|constructor; [done|constructor]].
  apply (keys_distinct_obj [("k", JArr [JInt 1; JNull])]%string).
  split_and!; [apply NoDup_singleton|done|repeat constructor].
Defined.
