(* ===== verification/JsonText.v ===== *)
(** * JSON text: the serialiser and the parser (protocol/miku_json.c)

    A char buffer is a list of characters; the parser's state is what it has
    not read yet ([src + pos .. src + len]).  A string value is a C string, so
    decoded text ends at the first NUL ([cstr]).  The recursive descent takes
    fuel: [json_parse_total] shows that twice the length of the input plus two
    is always enough; the C stack, which deep nesting can exhaust, is not
    modelled.  Doubles are binary64 values ([spec_float] of the
    Standard Library), read by [strtod] and printed by [fmt_g17] as the C
    library does ("%.17g", round to nearest even).

    [json_roundtrip] says that parsing what the serialiser printed gives the
    value back; [stringify_str_spec] that the serialiser's spans are the
    character-by-character escape. *)
From Stdlib Require Import Ascii String SpecFloat.
From S2P Require Import Prelude Hash ProbeIndex KeyedMap Json.
#[local] Open Scope char_scope.
#[local] Open Scope Z_scope.

Definition text := list ascii.
Definition str (s : string) : text := list_ascii_of_string s.
Definition code (c : ascii) : Z := byte_of c.
Definition chr (z : Z) : ascii := ascii_of_N (Z.to_N z).
Definition NUL : ascii := "000".
Definition QUOTE : ascii := "034".

(** The C string at the start of a buffer. *)
Fixpoint cstr (t : text) : string :=
  match t with
  | [] => EmptyString
  | c :: t' => if Ascii.eqb c NUL then EmptyString else String c (cstr t')
  end.

(** ** Decimal integers *)

Definition digit (d : Z) : ascii := chr (48 + d).
Definition is_digit (c : ascii) : bool := (48 <=? code c) && (code c <=? 57).

(** The decimal digits of [n], most significant first. *)
Fixpoint dec_digits (fuel : nat) (n : Z) : text :=
  match fuel with
  | O => []
  | S fuel' => if n <? 10 then [digit n] else dec_digits fuel' (n / 10) ++ [digit (n mod 10)]
  end.

(** [snprintf("%lld")]: 20 digits cover 64 bits. *)
Definition fmt_lld (z : Z) : text :=
  if z <? 0 then "-" :: dec_digits 20 (- z) else dec_digits 20 z.

Definition digits_val (t : text) : Z := foldl (fun v c => v * 10 + (code c - 48)) 0 t.

Fixpoint span_digits (t : text) : text * text :=
  match t with
  | c :: t' => if is_digit c then let '(a, b) := span_digits t' in (c :: a, b) else ([], t)
  | [] => ([], [])
  end.

Definition LLONG_MAX : Z := 9223372036854775807.
Definition LLONG_MIN : Z := -9223372036854775808.

(** [if (pos < len && f(src[pos])) pos++]. *)
Definition take_if (f : ascii -> bool) (t : text) : text * text :=
  match t with
  | c :: t' => if f c then ([c], t') else ([], t)
  | [] => ([], [])
  end.

Definition nil_b (t : text) : bool := match t with [] => true | _ => false end.

Definition is_exp (c : ascii) : bool := Ascii.eqb c "e" || Ascii.eqb c "E".
Definition is_sign (c : ascii) : bool := Ascii.eqb c "+" || Ascii.eqb c "-".

(** [strtoll(buf, NULL, 10)] on an optional sign and digits: saturates. *)
Definition strtoll (t : text) : Z :=
  let '(sg, t') := take_if (Ascii.eqb "-") t in
  let v := digits_val (span_digits t').1 in
  if nil_b sg then Z.min LLONG_MAX v else Z.max LLONG_MIN (- v).

(** ** Doubles *)

(** [m * 10^e], rounded to nearest even; beyond the range of binary64 the
    result is known without the power. *)
Definition dbl_of_decimal (neg : bool) (m e : Z) : spec_float :=
  match m with
  | Zpos p =>
      if 330 <? e then S754_infinity neg
      else if e <? -400 then S754_zero neg
      else if 0 <=? e then binary_normalize 53 1024 ((if neg then -1 else 1) * (m * 10 ^ e)) 0 neg
      else SFdiv 53 1024 (S754_finite neg p 0) (S754_finite false (Z.to_pos (10 ^ (- e))) 0)
  | _ => S754_zero neg
  end.

(** [strtod(buf, NULL)] on [[-]digits[.digits][(e|E)[+-]digits]]. *)
Definition strtod (t : text) : spec_float :=
  let '(sg, t0) := take_if (Ascii.eqb "-") t in
  let '(ip, t1) := span_digits t0 in
  let '(dot, t2) := take_if (Ascii.eqb ".") t1 in
  let '(fp, t3) := if nil_b dot then ([], t2) else span_digits t2 in
  let '(ee, t4) := take_if is_exp t3 in
  let '(sx, t5) := if nil_b ee then ([], t4) else take_if is_sign t4 in
  let xv := if nil_b ee then 0 else digits_val (span_digits t5).1 in
  let ex := if bool_decide (sx = ["-"]) then - xv else xv in
  if nil_b (ip ++ fp) then S754_zero false
  else dbl_of_decimal (negb (nil_b sg)) (digits_val (ip ++ fp)) (ex - Z.of_nat (length fp)).

(** [num / den], rounded to nearest even. *)
Definition round_div (num den : Z) : Z :=
  let q := num / den in let r := 2 * (num mod den) in
  if (den <? r) || ((r =? den) && Z.odd q) then q + 1 else q.

Fixpoint strip_zeros (t : text) : text :=
  match t with
  | [] => []
  | c :: t' => match strip_zeros t' with
               | [] => if Ascii.eqb c "0" then [] else [c]
               | u => c :: u
               end
  end.

Definition with_point (ip fp : text) : text :=
  match strip_zeros fp with [] => ip | f => ip ++ "." :: f end.

(** The text of the digits [ds] (17 of them) with decimal exponent [x]. *)
Definition fmt_g_digits (ds : text) (x : Z) : text :=
  if (x <? -4) || (17 <=? x) then
    with_point (take 1 ds) (drop 1 ds) ++ "e" :: (if x <? 0 then "-" else "+") ::
      (if Z.abs x <? 10 then "0" :: dec_digits 3 (Z.abs x) else dec_digits 3 (Z.abs x))
  else if x <? 0 then with_point ["0"] (replicate (Z.to_nat (- x - 1)) "0" ++ ds)
  else with_point (take (Z.to_nat (x + 1)) ds) (drop (Z.to_nat (x + 1)) ds).

(** [snprintf("%.17g")]. *)
Definition fmt_g17 (d : spec_float) : text :=
  let sign (neg : bool) (t : text) := if neg then "-" :: t else t in
  match d with
  | S754_nan => str "nan"
  | S754_infinity neg => sign neg (str "inf")
  | S754_zero neg => sign neg ["0"]
  | S754_finite neg m e =>
      let num := if 0 <=? e then Zpos m * 2 ^ e else Zpos m in
      let den := if 0 <=? e then 1 else 2 ^ (- e) in
      let nd (z : Z) := Z.of_nat (length (dec_digits 400 z)) in
      let x0 := nd num - nd den in
      let ge := if 0 <=? x0 then den * 10 ^ x0 <=? num else den <=? num * 10 ^ (- x0) in
      let x := if ge then x0 else x0 - 1 in
      let k := 16 - x in
      let v := if 0 <=? k then round_div (num * 10 ^ k) den else round_div num (den * 10 ^ (- k)) in
      let '(v, x) := if v =? 10 ^ 17 then (10 ^ 16, x + 1) else (v, x) in
      sign neg (fmt_g_digits (dec_digits 17 v) x)
  end.

(** ** Serialiser *)

Definition hex_digit (d : Z) : ascii := if d <? 10 then chr (48 + d) else chr (87 + d).

(** The escape of a character, if it has one. *)
Definition esc_of (c : ascii) : option text :=
  match c with
  | "034" => Some ["\"; "034"]
  | "\" => Some ["\"; "\"]
  | "010" => Some ["\"; "n"]
  | "013" => Some ["\"; "r"]
  | "009" => Some ["\"; "t"]
  | "008" => Some ["\"; "b"]
  | "012" => Some ["\"; "f"]
  | _ => if code c <? 32 then
           Some ["\"; "u"; "0"; "0"; hex_digit (code c / 16); hex_digit (code c mod 16)]
         else None
  end.

(** The loop of [stringify_str]: [s] is the output, [run] the span of
    characters without an escape that is not copied yet. *)
Fixpoint stringify_loop (s run : text) (p : string) : text :=
  match p with
  | EmptyString => s ++ run
  | String c p' =>
      if Ascii.eqb c NUL then s ++ run
      else match esc_of c with
           | None => stringify_loop s (run ++ [c]) p'
           | Some e => stringify_loop ((s ++ run) ++ e) [] p'
           end
  end.

Definition stringify_str (p : string) : text := QUOTE :: stringify_loop [] [] p ++ [QUOTE].

Fixpoint stringify_val (v : json) : text :=
  match v with
  | JNull => str "null"
  | JBool true => str "true"
  | JBool false => str "false"
  | JInt z => fmt_lld z
  | JDouble d => fmt_g17 d
  | JStr s => stringify_str s
  | JArr items =>
      "[" :: (fix go (first : bool) (l : list json) : text :=
                match l with
                | [] => []
                | x :: l' => (if first then [] else [","]) ++ stringify_val x ++ go false l'
                end) true items ++ ["]"]
  | JObj (JObject ps _ _ _) =>
      "{" :: (fix go (first : bool) (l : list (string * json)) : text :=
                match l with
                | [] => []
                | (k, x) :: l' =>
                    (if first then [] else [","]) ++ stringify_str k ++ ":" :: stringify_val x ++ go false l'
                end) true ps ++ ["}"]
  end.

Definition miku_json_stringify (v : option json) : text :=
  match v with Some v => stringify_val v | None => str "null" end.

(** ** Parser *)

(** A parse either consumes a prefix of the input or rejects it; [NoFuel]
    marks a recursion that was cut off. *)
Inductive parsed (A : Type) := NoFuel | Reject | Parsed (a : A) (rest : text).
Arguments NoFuel {A}.
Arguments Reject {A}.
Arguments Parsed {A}.

Definition is_ws (c : ascii) : bool :=
  Ascii.eqb c " " || Ascii.eqb c "009" || Ascii.eqb c "013" || Ascii.eqb c "010".

Fixpoint skip_ws (p : text) : text :=
  match p with
  | c :: p' => if is_ws c then skip_ws p' else p
  | [] => []
  end.

(** [peek] returns NUL at the end of the input, and leaves the white space
    skipped. *)
Definition peek (p : text) : ascii * text :=
  match skip_ws p with [] => (NUL, []) | c :: p' => (c, c :: p') end.

Definition next (p : text) : ascii * text :=
  match skip_ws p with [] => (NUL, []) | c :: p' => (c, p') end.

Definition hex_val (c : ascii) : option Z :=
  let z := code c in
  if (48 <=? z) && (z <=? 57) then Some (z - 48)
  else if (97 <=? z) && (z <=? 102) then Some (z - 97 + 10)
  else if (65 <=? z) && (z <=? 70) then Some (z - 65 + 10)
  else None.

Definition decode_hex4 (a b c d : ascii) : option Z :=
  match hex_val a, hex_val b, hex_val c, hex_val d with
  | Some x, Some y, Some z, Some w =>
      Some (Z.lor (Z.shiftl (Z.lor (Z.shiftl (Z.lor (Z.shiftl x 4) y) 4) z) 4) w)
  | _, _, _, _ => None
  end.

Definition encode_utf8 (cp : Z) : text :=
  if cp <? 0x80 then [chr cp]
  else if cp <? 0x800 then
    [chr (Z.lor 0xC0 (Z.shiftr cp 6)); chr (Z.lor 0x80 (Z.land cp 0x3F))]
  else if cp <? 0x10000 then
    [chr (Z.lor 0xE0 (Z.shiftr cp 12)); chr (Z.lor 0x80 (Z.land (Z.shiftr cp 6) 0x3F));
     chr (Z.lor 0x80 (Z.land cp 0x3F))]
  else
    [chr (Z.lor 0xF0 (Z.shiftr cp 18)); chr (Z.lor 0x80 (Z.land (Z.shiftr cp 12) 0x3F));
     chr (Z.lor 0x80 (Z.land (Z.shiftr cp 6) 0x3F)); chr (Z.lor 0x80 (Z.land cp 0x3F))].

(** A lone surrogate or NUL becomes U+FFFD. *)
Definition fix_cp (cp : Z) : Z :=
  if (cp =? 0) || ((0xD800 <=? cp) && (cp <=? 0xDFFF)) then 0xFFFD else cp.

(** The text up to the closing quote, whether it has a backslash, and what
    follows the quote. *)
Fixpoint raw_scan (p : text) : option (text * bool * text) :=
  match p with
  | [] => None
  | c :: p' =>
      if Ascii.eqb c QUOTE then Some ([], false, p')
      else if Ascii.eqb c "\" then
        match p' with
        | [] => None
        | d :: p2 => match raw_scan p2 with
                     | Some (raw, _, r) => Some (c :: d :: raw, true, r)
                     | None => None
                     end
        end
      else match raw_scan p' with
           | Some (raw, e, r) => Some (c :: raw, e, r)
           | None => None
           end
  end.

(** The decoding loop over the raw text. *)
Fixpoint unescape (raw : text) : text :=
  match raw with
  | [] => []
  | c :: r =>
      if negb (Ascii.eqb c "\") then c :: unescape r
      else match r with
           | [] => [c]
           | d :: r1 =>
               match d with
               | "b" => "008" :: unescape r1
               | "f" => "012" :: unescape r1
               | "n" => "010" :: unescape r1
               | "r" => "013" :: unescape r1
               | "t" => "009" :: unescape r1
               | "u" =>
                   match r1 with
                   | h1 :: h2 :: h3 :: h4 :: r2 =>
                       match decode_hex4 h1 h2 h3 h4 with
                       | None => "u" :: unescape r1
                       | Some cp =>
                           if (0xD800 <=? cp) && (cp <=? 0xDBFF) then
                             match r2 with
                             | b :: u :: g1 :: g2 :: g3 :: g4 :: r3 =>
                                 match decode_hex4 g1 g2 g3 g4 with
                                 | Some lo =>
                                     if Ascii.eqb b "\" && Ascii.eqb u "u" && (0xDC00 <=? lo) && (lo <=? 0xDFFF)
                                     then encode_utf8 (0x10000 + Z.shiftl (cp - 0xD800) 10 + (lo - 0xDC00)) ++ unescape r3
                                     else encode_utf8 (fix_cp cp) ++ unescape r2
                                 | None => encode_utf8 (fix_cp cp) ++ unescape r2
                                 end
                             | _ => encode_utf8 (fix_cp cp) ++ unescape r2
                             end
                           else encode_utf8 (fix_cp cp) ++ unescape r2
                       end
                   | _ => "u" :: unescape r1
                   end
               | _ => d :: unescape r1
               end
           end
  end.

Definition decode_string (p : text) : parsed string :=
  let '(c, p1) := next p in
  if negb (Ascii.eqb c QUOTE) then Reject
  else match raw_scan p1 with
       | None => Reject
       | Some (raw, false, r) => Parsed (cstr raw) r
       | Some (raw, true, r) => Parsed (cstr (unescape raw)) r
       end.

(** The text of a number, whether it is a float, and the rest. *)
Definition number_text (p : text) : text * bool * text :=
  let '(sg, p0) := take_if (Ascii.eqb "-") p in
  let '(ip, p1) := span_digits p0 in
  let '(dot, p2) := take_if (Ascii.eqb ".") p1 in
  let '(fp, p3) := if nil_b dot then ([], p2) else span_digits p2 in
  let '(ee, p4) := take_if is_exp p3 in
  let '(sx, p5) := if nil_b ee then ([], p4) else take_if is_sign p4 in
  let '(xp, p6) := if nil_b ee then ([], p5) else span_digits p5 in
  (sg ++ ip ++ dot ++ fp ++ ee ++ sx ++ xp, negb (nil_b dot) || negb (nil_b ee), p6).

Definition parse_number (p : text) : parsed json :=
  let '(t, is_float, rest) := number_text p in
  let buf := take 63 t in
  Parsed (if is_float then JDouble (strtod buf) else JInt (strtoll buf)) rest.

Definition starts_with (w p : text) : bool :=
  bool_decide (take (length w) p = w).

(** [strstr(s, w) != NULL]. *)
Fixpoint has_sub (w t : text) : bool :=
  starts_with w t || match t with [] => false | _ :: t' => has_sub w t' end.

(** A pair added by the parser: the index is built at the closing brace. *)
Definition obj_append (o : jobject json) (k : string) (v : json) : jobject json :=
  JObject (pairs o ++ [(k, v)]) (if capacity o <=? count o then capacity o * 2 else capacity o)
          (kh o) (kh_mask o).

Fixpoint parse_value (fuel : nat) (p : text) : parsed json :=
  match fuel with
  | O => NoFuel
  | S fuel' =>
      let '(c, p1) := peek p in
      match c with
      | "034" => match decode_string p1 with
                 | Parsed s r => Parsed (JStr s) r
                 | _ => Reject end
      | "{" =>
          let '(_, p2) := next p1 in
          let '(c2, p3) := peek p2 in
          if Ascii.eqb c2 "}" then Parsed (JObj empty_object) (next p3).2
          else parse_members fuel' empty_object p3
      | "[" =>
          let '(_, p2) := next p1 in
          let '(c2, p3) := peek p2 in
          if Ascii.eqb c2 "]" then Parsed (JArr []) (next p3).2
          else parse_items fuel' [] p3
      | "t" | "f" =>
          if starts_with (str "true") p1 then Parsed (JBool true) (drop 4 p1)
          else if starts_with (str "false") p1 then Parsed (JBool false) (drop 5 p1)
          else Reject
      | "n" => if starts_with (str "null") p1 then Parsed JNull (drop 4 p1) else Reject
      | "-" => parse_number p1
      | _ => if is_digit c then parse_number p1 else Reject
      end
  end
with parse_items (fuel : nat) (items : list json) (p : text) : parsed json :=
  match fuel with
  | O => NoFuel
  | S fuel' =>
      match parse_value fuel' p with
      | Parsed item p1 =>
          let '(c, p2) := peek p1 in
          if Ascii.eqb c "," then parse_items fuel' (items ++ [item]) (next p2).2
          else if Ascii.eqb c "]" then Parsed (JArr (items ++ [item])) (next p2).2
          else Reject
      | Reject => Reject
      | NoFuel => NoFuel
      end
  end
with parse_members (fuel : nat) (o : jobject json) (p : text) : parsed json :=
  match fuel with
  | O => NoFuel
  | S fuel' =>
      match decode_string p with
      | Parsed key p1 =>
          let '(c, p2) := next p1 in
          if negb (Ascii.eqb c ":") then Reject
          else match parse_value fuel' p2 with
               | Parsed v p3 =>
                   let o' := obj_append o key v in
                   let '(c2, p4) := peek p3 in
                   if Ascii.eqb c2 "," then parse_members fuel' o' (next p4).2
                   else if Ascii.eqb c2 "}" then Parsed (JObj (obj_kh_rebuild o')) (next p4).2
                   else Reject
               | Reject => Reject
               | NoFuel => NoFuel
               end
      | _ => Reject
      end
  end.

Definition parse_fuel (p : text) : nat := 2 * length p + 2.

(** What follows the value in the buffer is ignored. *)
Definition miku_json_parse (json : option text) : option Json.json :=
  match json with
  | None => None
  | Some t => match parse_value (parse_fuel t) t with Parsed v _ => Some v | _ => None end
  end.

Definition miku_json_parse_str (json : option string) : option Json.json :=
  miku_json_parse (str <$> json).

(** ** Specification *)

(** The escaped text of a string, one character at a time. *)
Fixpoint esc_text (p : string) : text :=
  match p with
  | EmptyString => []
  | String c p' => if Ascii.eqb c NUL then [] else default [c] (esc_of c) ++ esc_text p'
  end.

(** A C string: no NUL inside. *)
Definition no_nul (s : string) : Prop := NUL ∉ str s.

(** The values whose text is read back exactly: 64-bit integers, C strings,
    no doubles. *)
Fixpoint printable (v : json) : Prop :=
  match v with
  | JNull | JBool _ => True
  | JInt z => LLONG_MIN <= z <= LLONG_MAX
  | JDouble _ => False
  | JStr s => no_nul s
  | JArr items =>
      (fix all (l : list json) := match l with [] => True | x :: l' => printable x /\ all l' end) items
  | JObj (JObject ps _ _ _) =>
      (fix all (l : list (string * json)) :=
         match l with [] => True | (k, x) :: l' => no_nul k /\ printable x /\ all l' end) ps
  end.

(** [r] is what is left of [p] after at least one character was read. *)
Definition consumed (r p : text) : Prop := exists c k, p = c :: k ++ r.

(** ** Proofs: consumption and fuel *)

Lemma consumed_cons c p : consumed p (c :: p).
Proof. by exists c, []. Qed.

Lemma consumed_trans r q p : consumed r q -> consumed q p -> consumed r p.
Proof. intros (c & k & ->) (d & l & ->). exists d, (l ++ c :: k). by rewrite <- app_assoc. Qed.

Lemma consumed_suffix r q p : suffix r q -> consumed q p -> consumed r p.
Proof. intros [l ->] (c & k & ->). exists c, (k ++ l). by rewrite <- app_assoc. Qed.

Lemma suffix_consumed r q p : consumed r q -> suffix q p -> consumed r p.
Proof.
  intros (c & k & ->) [l ->]. destruct l as [|d l]; [by exists c, k|].
  exists d, (l ++ c :: k). cbn. by rewrite <- app_assoc.
Qed.

Lemma consumed_length r p : consumed r p -> (length r < length p)%nat.
Proof. intros (c & k & ->). cbn. rewrite length_app. lia. Qed.

Lemma skip_ws_suffix p : suffix (skip_ws p) p.
Proof. induction p as [|c p IH]; cbn; [done|]. destruct (is_ws c); [by apply suffix_cons_r|done]. Qed.

Lemma peek_suffix p c q : peek p = (c, q) -> suffix q p /\ (c <> NUL -> exists t, q = c :: t).
Proof.
  unfold peek. pose proof (skip_ws_suffix p) as H. destruct (skip_ws p) as [|d t]; intros [= <- <-].
  - split; [apply suffix_nil|done].
  - split; [done|eauto].
Qed.

Lemma next_suffix p c q : next p = (c, q) -> suffix q p /\ (c <> NUL -> consumed q p).
Proof.
  unfold next. pose proof (skip_ws_suffix p) as H. destruct (skip_ws p) as [|d t]; intros [= <- <-].
  - split; [apply suffix_nil|done].
  - split; [by apply suffix_cons_l in H|]. intros _. eapply suffix_consumed; [apply consumed_cons|done].
Qed.

Lemma next_snd_suffix p : suffix (next p).2 p.
Proof. destruct (next p) as [c q] eqn:E. by apply next_suffix in E as [? _]. Qed.

Lemma raw_scan_suffix n p raw e r :
  (length p <= n)%nat -> raw_scan p = Some (raw, e, r) -> consumed r p.
Proof.
  revert p raw e r. induction n as [|n IH]; intros [|c p] raw e r Hn; try done; [cbn in Hn; lia|].
  cbn in Hn. cbn [raw_scan]. case_match.
  { intros [= <- <- <-]. apply consumed_cons. }
  case_match.
  - destruct p as [|d p]; [done|]. destruct (raw_scan p) as [[[raw' e'] r']|] eqn:E; [|done].
    intros [= <- <- <-]. cbn in Hn. apply IH in E; [|lia].
    eapply consumed_trans; [exact E|]. by exists c, [d].
  - destruct (raw_scan p) as [[[raw' e'] r']|] eqn:E; [|done].
    intros [= <- <- <-]. apply IH in E; [|lia]. eapply consumed_trans; [exact E|apply consumed_cons].
Qed.

Lemma decode_string_consumed p s r : decode_string p = Parsed s r -> consumed r p.
Proof.
  unfold decode_string. destruct (next p) as [c p1] eqn:En. apply next_suffix in En as [Hs _].
  case_match; [done|]. destruct (raw_scan p1) as [[[raw e] r']|] eqn:E; [|done].
  apply (raw_scan_suffix (length p1)) in E; [|done]. intros H2.
  assert (r = r') as -> by (destruct e; by simplify_eq). by eapply suffix_consumed.
Qed.

Lemma span_digits_app p a b : span_digits p = (a, b) -> p = a ++ b.
Proof.
  revert a b. induction p as [|c p IH]; intros a b; cbn; [by intros [= <- <-]|].
  case_match; [|by intros [= <- <-]].
  destruct (span_digits p) as [a' b'] eqn:E. intros [= <- <-]. cbn. f_equal. by apply IH.
Qed.

Lemma take_if_app f p a b : take_if f p = (a, b) -> p = a ++ b.
Proof. destruct p as [|c p]; cbn; [by intros [= <- <-]|]. case_match; by intros [= <- <-]. Qed.

Lemma number_text_app p t fl r : number_text p = (t, fl, r) -> p = t ++ r.
Proof.
  unfold number_text. intros H.
  destruct (take_if _ p) as [sg p0] eqn:E0. destruct (span_digits p0) as [ip p1] eqn:E1.
  destruct (take_if _ p1) as [dot p2] eqn:E2.
  assert (p2 = (if nil_b dot then ([], p2) else span_digits p2).1 ++ (if nil_b dot then ([], p2) else span_digits p2).2) as E3.
  { destruct (nil_b dot); [done|]. destruct (span_digits p2) eqn:E. by apply span_digits_app. }
  destruct (if nil_b dot then _ else _) as [fp p3]. cbn in E3. destruct (take_if _ p3) as [ee p4] eqn:E4.
  assert (p4 = (if nil_b ee then ([], p4) else take_if is_sign p4).1 ++ (if nil_b ee then ([], p4) else take_if is_sign p4).2) as E5.
  { destruct (nil_b ee); [done|]. destruct (take_if _ p4) eqn:E. by apply take_if_app in E. }
  destruct (if nil_b ee then ([], p4) else _) as [sx p5]. cbn in E5.
  assert (p5 = (if nil_b ee then ([], p5) else span_digits p5).1 ++ (if nil_b ee then ([], p5) else span_digits p5).2) as E6.
  { destruct (nil_b ee); [done|]. destruct (span_digits p5) eqn:E. by apply span_digits_app. }
  destruct (if nil_b ee then ([], p5) else _) as [xp p6]. cbn in E6. simplify_eq.
  apply take_if_app in E0, E2, E4. apply span_digits_app in E1. subst.
  by rewrite <- !app_assoc.
Qed.

Lemma parse_number_consumed c p v r : 
  is_digit c || Ascii.eqb c "-" = true -> parse_number (c :: p) = Parsed v r -> consumed r (c :: p).
Proof.
  intros Hc. unfold parse_number. destruct (number_text (c :: p)) as [[t fl] r'] eqn:E.
  intros [= _ <-]. pose proof (number_text_app _ _ _ _ E) as Ea.
  destruct t as [|d t]; [exfalso|by exists d, t].
  unfold number_text in E. cbn [take_if] in E. destruct (Ascii.eqb "-" c) eqn:Em.
  - repeat case_match; simplify_eq.
  - assert (is_digit c = true) as Hd.
    { rewrite Ascii.eqb_sym in Em. rewrite Em, orb_false_r in Hc. done. }
    cbn [span_digits] in E. rewrite Hd in E. repeat case_match; simplify_eq.
Qed.

(** What the dispatch on the first character of a value can be. *)
Inductive dispatch (f : nat) : ascii -> text -> parsed json -> Prop :=
  | d_str t : dispatch f QUOTE t
      match decode_string t with Parsed s r => Parsed (JStr s) r | _ => Reject end
  | d_obj t : dispatch f "{" t
      (let '(_, p2) := next t in let '(c2, p3) := peek p2 in
       if Ascii.eqb c2 "}" then Parsed (JObj empty_object) (next p3).2 else parse_members f empty_object p3)
  | d_arr t : dispatch f "[" t
      (let '(_, p2) := next t in let '(c2, p3) := peek p2 in
       if Ascii.eqb c2 "]" then Parsed (JArr []) (next p3).2 else parse_items f [] p3)
  | d_word c n v t : (0 < n)%nat -> c <> NUL -> (forall o, v <> JObj o) -> dispatch f c t (Parsed v (drop n t))
  | d_num c t : is_digit c || Ascii.eqb c "-" = true -> dispatch f c t (parse_number t)
  | d_bad c t : dispatch f c t Reject.

Lemma parse_value_dispatch f p c t :
  peek p = (c, t) -> dispatch f c t (parse_value (S f) p).
Proof.
  intros E. cbn [parse_value]. rewrite E. clear E.
  destruct c as [[] [] [] [] [] [] [] []]; try apply d_bad; try apply d_str; try apply d_obj;
    try apply d_arr; try (by apply d_num); repeat case_match; try apply d_bad; by (apply d_word; [lia|..]).
Qed.

Lemma number_not_nul c : is_digit c || Ascii.eqb c "-" = true -> c <> NUL.
Proof. by intros H ->. Qed.

(** A successful parse reads at least one character and stops inside the
    buffer. *)
Lemma parse_consumed f :
  (forall p v r, parse_value f p = Parsed v r -> consumed r p) /\
  (forall l p v r, parse_items f l p = Parsed v r -> consumed r p) /\
  (forall o p v r, parse_members f o p = Parsed v r -> consumed r p).
Proof.
  induction f as [|f (IHv & IHi & IHm)]; [done|]. split_and!.
  - intros p v r H. destruct (peek p) as [c t] eqn:E. pose proof (peek_suffix _ _ _ E) as [Hs Hc].
    revert H. destruct (parse_value_dispatch f p c t E) as [t|t|t|c n v' t Hn Hnul Hw|c t Hd|c t];
      intros Eq; [| | | | |done].
    + destruct (decode_string t) as [| |s r'] eqn:Ed; simplify_eq.
      eapply suffix_consumed; [by eapply decode_string_consumed|done].
    + destruct Hc as [t0 ->]; [done|]. cbn in Eq. destruct (peek t0) as [c2 p3] eqn:E3.
      apply peek_suffix in E3 as [Hs3 _]. eapply suffix_consumed; [|exact Hs].
      case_match; simplify_eq.
      * eapply consumed_suffix; [|apply consumed_cons]. etrans; [apply next_snd_suffix|done].
      * eapply consumed_trans; [by eapply IHm|]. eapply consumed_suffix; [done|apply consumed_cons].
    + destruct Hc as [t0 ->]; [done|]. cbn in Eq. destruct (peek t0) as [c2 p3] eqn:E3.
      apply peek_suffix in E3 as [Hs3 _]. eapply suffix_consumed; [|exact Hs].
      case_match; simplify_eq.
      * eapply consumed_suffix; [|apply consumed_cons]. etrans; [apply next_snd_suffix|done].
      * eapply consumed_trans; [by eapply IHi|]. eapply consumed_suffix; [done|apply consumed_cons].
    + destruct (Hc Hnul) as [t0 ->]. eapply suffix_consumed; [|exact Hs]. simplify_eq.
      destruct n as [|n]; [lia|]. apply (consumed_suffix _ t0); [exists (take n t0); cbn; by rewrite take_drop|apply consumed_cons].
    + destruct Hc as [t0 ->]; [by apply number_not_nul|]. eapply suffix_consumed; [|exact Hs].
      by eapply parse_number_consumed.
  - intros l p v r. cbn [parse_items]. destruct (parse_value f p) as [| |v1 p1] eqn:Ev; [done..|].
    apply IHv in Ev. destruct (peek p1) as [c p2] eqn:E2. apply peek_suffix in E2 as [Hs _].
    case_match; [|case_match; [|done]].
    + intros H2%IHi. eapply consumed_trans; [exact H2|]. eapply consumed_suffix; [|exact Ev].
      etrans; [apply next_snd_suffix|done].
    + intros [= _ <-]. eapply consumed_suffix; [|exact Ev]. etrans; [apply next_snd_suffix|done].
  - intros o p v r. cbn [parse_members]. destruct (decode_string p) as [| |s p1] eqn:Ed; [done..|].
    apply decode_string_consumed in Ed. destruct (next p1) as [c p2] eqn:E2.
    apply next_suffix in E2 as [Hs2 _]. case_match; [done|].
    destruct (parse_value f p2) as [| |v1 p3] eqn:Ev; [done..|]. apply IHv in Ev.
    destruct (peek p3) as [c2 p4] eqn:E4. apply peek_suffix in E4 as [Hs4 _].
    assert (consumed (next p4).2 p) as Hn.
    { eapply consumed_suffix; [etrans; [apply next_snd_suffix|exact Hs4]|].
      eapply consumed_trans; [exact Ev|]. by eapply consumed_suffix. }
    case_match; [|case_match; [|done]].
    + intros H2%IHm. by eapply consumed_trans.
    + by intros [= _ <-].
Qed.

(** Enough fuel: the recursion is never cut off. *)
Lemma parse_fuel_ok f :
  (forall p, (2 * length p + 1 <= f)%nat -> parse_value f p <> NoFuel) /\
  (forall l p, (2 * length p + 2 <= f)%nat -> parse_items f l p <> NoFuel) /\
  (forall o p, (2 * length p + 2 <= f)%nat -> parse_members f o p <> NoFuel).
Proof.
  induction f as [|f (IHv & IHi & IHm)]; [split_and!; intros; lia|]. split_and!.
  - intros p Hf. destruct (peek p) as [c t] eqn:E. pose proof (peek_suffix _ _ _ E) as [Hs Hc].
    apply suffix_length in Hs.
    destruct (parse_value_dispatch f p c t E) as [t|t|t|c n v t Hn Hnul|c t Hd|]; try done.
    + by destruct (decode_string t).
    + destruct Hc as [t0 ->]; [done|]. cbn. destruct (peek t0) as [c2 p3] eqn:E3.
      apply peek_suffix in E3 as [Hs3%suffix_length _]. cbn in Hs. case_match; [done|]. apply IHm. lia.
    + destruct Hc as [t0 ->]; [done|]. cbn. destruct (peek t0) as [c2 p3] eqn:E3.
      apply peek_suffix in E3 as [Hs3%suffix_length _]. cbn in Hs. case_match; [done|]. apply IHi. lia.
    + unfold parse_number. by destruct (number_text t) as [[? ?] ?].
  - intros l p Hf. cbn [parse_items]. destruct (parse_value f p) as [| |v1 p1] eqn:Ev; [|done|].
    { exfalso. eapply IHv; [|exact Ev]. lia. }
    apply (proj1 (parse_consumed f)), consumed_length in Ev.
    destruct (peek p1) as [c p2] eqn:E2. apply peek_suffix in E2 as [Hs%suffix_length _].
    pose proof (suffix_length _ _ (next_snd_suffix p2)).
    case_match; [|by case_match]. apply IHi. lia.
  - intros o p Hf. cbn [parse_members]. destruct (decode_string p) as [| |s p1] eqn:Ed; [done..|].
    apply decode_string_consumed, consumed_length in Ed. destruct (next p1) as [c p2] eqn:E2.
    apply next_suffix in E2 as [Hs2%suffix_length _]. case_match; [done|].
    destruct (parse_value f p2) as [| |v1 p3] eqn:Ev; [|done|].
    { exfalso. eapply IHv; [|exact Ev]. lia. }
    apply (proj1 (parse_consumed f)), consumed_length in Ev.
    destruct (peek p3) as [c2 p4] eqn:E4. apply peek_suffix in E4 as [Hs4%suffix_length _].
    pose proof (suffix_length _ _ (next_snd_suffix p4)).
    case_match; [|by case_match]. apply IHm. lia.
Qed.

(** More fuel does not change a result. *)
Lemma parse_value_fuel f g p :
  (forall l p, parse_items f l p <> NoFuel -> parse_items g l p = parse_items f l p) ->
  (forall o p, parse_members f o p <> NoFuel -> parse_members g o p = parse_members f o p) ->
  parse_value (S f) p <> NoFuel -> parse_value (S g) p = parse_value (S f) p.
Proof.
  intros Hi Hm. cbn [parse_value]. destruct (peek p) as [c t]. destruct (next t) as [c1 p2].
  destruct (peek p2) as [c2 p3]. destruct (Ascii.eqb c2 "}"), (Ascii.eqb c2 "]");
  destruct c as [[] [] [] [] [] [] [] []]; first [done|apply Hi|apply Hm].
Qed.

Lemma parse_fuel_mono f :
  (forall p, parse_value f p <> NoFuel -> parse_value (S f) p = parse_value f p) /\
  (forall l p, parse_items f l p <> NoFuel -> parse_items (S f) l p = parse_items f l p) /\
  (forall o p, parse_members f o p <> NoFuel -> parse_members (S f) o p = parse_members f o p).
Proof.
  induction f as [|f (IHv & IHi & IHm)]; [done|]. split_and!.
  - intros p. by apply parse_value_fuel.
  - intros l p Hn. remember (S f) as g. rewrite Heqg in Hn |- * at 2. cbn [parse_items] in Hn |- *.
    subst g. rewrite IHv by (intros E; by rewrite E in Hn).
    destruct (parse_value f p) as [| |v1 p1]; [done..|]. destruct (peek p1) as [c p2].
    destruct (Ascii.eqb c ","); [by apply IHi|done].
  - intros o p Hn. remember (S f) as g. rewrite Heqg in Hn |- * at 2. cbn [parse_members] in Hn |- *.
    subst g. destruct (decode_string p) as [| |s p1]; [done..|]. destruct (next p1) as [c p2].
    destruct (negb (Ascii.eqb c ":")); [done|]. rewrite IHv by (intros E; by rewrite E in Hn).
    destruct (parse_value f p2) as [| |v1 p3]; [done..|]. destruct (peek p3) as [c2 p4].
    destruct (Ascii.eqb c2 ","); [by apply IHm|done].
Qed.

(** C33: the recursive-descent parser terminates on every input: the chosen
    fuel, or any more, gives the same answer and is never exhausted; a value
    that is accepted took at least one character, all of them inside the
    buffer. *)
Theorem json_parse_total t fuel :
  (parse_fuel t <= fuel)%nat ->
  parse_value fuel t = parse_value (parse_fuel t) t /\ parse_value fuel t <> NoFuel /\
  (forall v r, parse_value fuel t = Parsed v r -> exists c k, t = c :: k ++ r).
Proof.
  intros Hle. assert (parse_value fuel t = parse_value (parse_fuel t) t) as E.
  { induction Hle as [|fuel Hle IH]; [done|]. rewrite <- IH. apply parse_fuel_mono.
    apply parse_fuel_ok. unfold parse_fuel in Hle. lia. }
  split_and!; [done| |].
  - apply parse_fuel_ok. unfold parse_fuel in Hle. lia.
  - apply parse_consumed.
Qed.

Lemma json_parse_total_witness :
  parse_value 20 (str "[1,2]") = Parsed (JArr [JInt 1; JInt 2]) [] /\
  parse_value 20 (str "[1,2]") = parse_value (parse_fuel (str "[1,2]")) (str "[1,2]").
Proof.
  split; [vm_compute; reflexivity|]. apply json_parse_total. vm_compute. lia.
Defined.

(** ** Proofs: round trip *)

Lemma stringify_loop_spec p : forall s run, stringify_loop s run p = s ++ run ++ esc_text p.
Proof.
  induction p as [|c p IH]; intros s run; cbn; [by rewrite app_nil_r|].
  destruct (Ascii.eqb c NUL); [by rewrite app_nil_r|].
  destruct (esc_of c) as [e|]; rewrite IH; cbn; by rewrite <- !app_assoc.
Qed.

Lemma stringify_str_text p : stringify_str p = QUOTE :: esc_text p ++ [QUOTE].
Proof. unfold stringify_str. by rewrite stringify_loop_spec. Qed.

(** The escape of one character is read as one character. *)
Lemma unescape_esc c t :
  Ascii.eqb c NUL = false -> unescape (default [c] (esc_of c) ++ t) = c :: unescape t.
Proof. destruct c as [[] [] [] [] [] [] [] []]; first [done|reflexivity]. Qed.

Lemma raw_scan_esc c t :
  Ascii.eqb c NUL = false ->
  exists e, raw_scan (default [c] (esc_of c) ++ t) =
    match raw_scan t with
    | Some (raw, e', r) => Some (default [c] (esc_of c) ++ raw, e || e', r)
    | None => None end.
Proof.
  destruct c as [[] [] [] [] [] [] [] []]; intros Hn; try done;
    match goal with |- context [esc_of ?c] =>
      let e := eval vm_compute in (default [c] (esc_of c)) in change (default [c] (esc_of c)) with e end;
    first [ exists false; cbn; destruct (raw_scan t) as [[[raw []] r]|]; reflexivity
          | exists true; cbn; destruct (raw_scan t) as [[[raw []] r]|]; reflexivity ].
Qed.

(** Without a backslash there is nothing to decode. *)
Lemma raw_scan_plain n p raw r :
  (length p <= n)%nat -> raw_scan p = Some (raw, false, r) -> unescape raw = raw.
Proof.
  revert p raw. induction n as [|n IH]; intros [|c p] raw Hn; try done; [cbn in Hn; lia|].
  cbn in Hn. cbn [raw_scan]. destruct (Ascii.eqb c QUOTE); [by intros [= <- <-]|].
  destruct (Ascii.eqb c "\") eqn:Eb.
  - destruct p as [|d p]; [done|]. destruct (raw_scan p) as [[[? ?] ?]|]; done.
  - destruct (raw_scan p) as [[[raw' e] r']|] eqn:E; [|done]. intros [= <- -> ->].
    cbn. rewrite Eb. cbn. f_equal. eapply IH; [|done]. lia.
Qed.

Lemma no_nul_cons c s : no_nul (String c s) -> Ascii.eqb c NUL = false /\ no_nul s.
Proof.
  unfold no_nul, str. cbn. rewrite not_elem_of_cons. intros [H1 H2]. split; [|done].
  apply Ascii.eqb_neq. congruence.
Qed.

Lemma esc_text_scan s r :
  no_nul s -> exists e, raw_scan (esc_text s ++ QUOTE :: r) = Some (esc_text s, e, r).
Proof.
  induction s as [|c s IH]; [by exists false|]. intros [Hc Hs]%no_nul_cons. cbn [esc_text]. rewrite Hc.
  destruct (IH Hs) as [e E]. rewrite <- app_assoc. destruct (raw_scan_esc c (esc_text s ++ QUOTE :: r) Hc) as [e' E'].
  rewrite E', E. eauto.
Qed.

Lemma esc_text_unescape s : no_nul s -> unescape (esc_text s) = str s.
Proof.
  induction s as [|c s IH]; [done|]. intros [Hc Hs]%no_nul_cons. cbn [esc_text]. rewrite Hc.
  rewrite unescape_esc by done. unfold str. cbn. f_equal. by apply IH.
Qed.

Lemma cstr_str s : no_nul s -> cstr (str s) = s.
Proof.
  induction s as [|c s IH]; [done|]. intros [Hc Hs]%no_nul_cons. unfold str in *. cbn. rewrite Hc. by rewrite IH.
Qed.

Lemma decode_stringify s r : no_nul s -> decode_string (stringify_str s ++ r) = Parsed s r.
Proof.
  intros Hs. rewrite stringify_str_text. unfold decode_string. cbn. rewrite <- app_assoc. cbn.
  destruct (esc_text_scan s r Hs) as [e E]. rewrite E. destruct e.
  - by rewrite esc_text_unescape, cstr_str.
  - apply (raw_scan_plain (length (esc_text s ++ QUOTE :: r))) in E; [|done].
    rewrite <- E. by rewrite esc_text_unescape, cstr_str.
Qed.

(** Decimal digits. *)
Lemma digit_ok d : 0 <= d < 10 -> is_digit (digit d) = true /\ code (digit d) - 48 = d.
Proof.
  intros H. assert (d ∈ seqZ 0 10) as Hin by (apply elem_of_seqZ; lia). cbn in Hin.
  repeat (apply elem_of_cons in Hin as [->|Hin]; [done|]). by apply elem_of_nil in Hin.
Qed.

Lemma dec_digits_ok fuel : forall n, 0 <= n < 10 ^ Z.of_nat fuel ->
  Forall (fun c => is_digit c = true) (dec_digits fuel n) /\ digits_val (dec_digits fuel n) = n /\
  (length (dec_digits fuel n) <= fuel)%nat /\ ((0 < fuel)%nat -> (0 < length (dec_digits fuel n))%nat).
Proof.
  induction fuel as [|fuel IH]; intros n Hn; [cbn in *; split_and!; [constructor|lia|lia|lia]|].
  cbn [dec_digits]. destruct (Z.ltb_spec n 10) as [Hs|Hb].
  - destruct (digit_ok n ltac:(lia)) as [Hd Hv]. split_and!.
    + by constructor.
    + unfold digits_val. cbn -[code]. lia.
    + cbn. lia.
    + cbn. lia.
  - rewrite Nat2Z.inj_succ, Z.pow_succ_r in Hn by lia.
    destruct (IH (n / 10)) as (H1 & H2 & H3 & _).
    { split; [apply Z.div_pos; lia|]. apply Z.div_lt_upper_bound; lia. }
    destruct (digit_ok (n mod 10)) as [Hd Hv]; [apply Z.mod_pos_bound; lia|]. split_and!.
    + apply list.Forall_app. by split; [|constructor].
    + unfold digits_val in *. rewrite foldl_app, H2. cbn -[code]. rewrite Hv.
      rewrite (Z.div_mod n 10) at 3 by lia. lia.
    + rewrite length_app. cbn. lia.
    + intros _. rewrite length_app. cbn. lia.
Qed.

(** What may follow a number. *)
Definition num_end (r : text) : Prop :=
  match r with [] => True | c :: _ => is_digit c = false /\ Ascii.eqb "." c = false /\ is_exp c = false end.

Lemma span_digits_run ds r :
  Forall (fun c => is_digit c = true) ds -> num_end r -> span_digits (ds ++ r) = (ds, r).
Proof.
  intros H Hr. induction H as [|c ds Hc _ IH]; cbn.
  - destruct r as [|c r]; [done|]. cbn in Hr |- *. by destruct Hr as (-> & _).
  - rewrite Hc, IH. done.
Qed.

Lemma fmt_lld_shape z :
  LLONG_MIN <= z <= LLONG_MAX ->
  exists sg ds, fmt_lld z = sg ++ ds /\ ((sg = [] /\ digits_val ds = z) \/ (sg = ["-"] /\ digits_val ds = - z)) /\
    Forall (fun c => is_digit c = true) ds /\ (0 < length ds <= 20)%nat.
Proof.
  unfold LLONG_MIN, LLONG_MAX. intros Hz. assert (10 ^ Z.of_nat 20 = 100000000000000000000) as E20 by done.
  unfold fmt_lld. destruct (Z.ltb_spec z 0).
  - destruct (dec_digits_ok 20 (- z)) as (H1 & H2 & H3 & H4); [lia|].
    revert H1 H2 H3 H4. generalize (dec_digits 20 (- z)) as ds. intros ds H1 H2 H3 H4.
    exists ["-"], ds. refine (conj eq_refl (conj (or_intror (conj eq_refl H2)) (conj H1 (conj (H4 _) H3)))). lia.
  - destruct (dec_digits_ok 20 z) as (H1 & H2 & H3 & H4); [lia|].
    revert H1 H2 H3 H4. generalize (dec_digits 20 z) as ds. intros ds H1 H2 H3 H4.
    exists [], ds. refine (conj eq_refl (conj (or_introl (conj eq_refl H2)) (conj H1 (conj (H4 _) H3)))). lia.
Qed.

Lemma is_digit_not_minus c : is_digit c = true -> Ascii.eqb "-" c = false.
Proof. intros H. apply Ascii.eqb_neq. by intros <-. Qed.

Lemma take_if_digits ds r :
  Forall (fun c => is_digit c = true) ds -> (0 < length ds)%nat -> take_if (Ascii.eqb "-") (ds ++ r) = ([], ds ++ r).
Proof.
  intros H Hl. destruct H as [|c ds Hc _]; [cbn in Hl; lia|]. cbn [take_if app].
  by rewrite is_digit_not_minus.
Qed.

Lemma take_if_end f r : match r with [] => True | c :: _ => f c = false end -> take_if f r = ([], r).
Proof. destruct r as [|c r]; cbn; [done|]. by intros ->. Qed.

Lemma parse_int z r :
  LLONG_MIN <= z <= LLONG_MAX -> num_end r -> parse_number (fmt_lld z ++ r) = Parsed (JInt z) r.
Proof.
  intros Hz Hr. destruct (fmt_lld_shape z Hz) as (sg & ds & -> & Hs & Hd & Hl).
  assert (number_text ((sg ++ ds) ++ r) = (sg ++ ds, false, r)) as E.
  { assert (take_if (Ascii.eqb "-") ((sg ++ ds) ++ r) = (sg, ds ++ r)) as E0.
    { destruct Hs as [[-> _]|[-> _]]; [apply take_if_digits; [done|lia]|done]. }
    unfold number_text. rewrite E0, (span_digits_run ds r) by done.
    rewrite (take_if_end (Ascii.eqb ".") r) by (destruct r; [done|apply Hr]). cbn [nil_b].
    rewrite (take_if_end is_exp r) by (destruct r; [done|apply Hr]). cbn [nil_b].
    by rewrite !app_nil_r. }
  unfold parse_number. rewrite E. f_equal. f_equal.
  assert (length (sg ++ ds) <= 63)%nat as L.
  { rewrite length_app. destruct Hs as [[-> _]|[-> _]]; cbn; lia. }
  rewrite take_ge by done. unfold strtoll.
  pose proof (span_digits_run ds [] Hd I) as Es. pose proof (take_if_digits ds [] Hd ltac:(lia)) as Et.
  rewrite app_nil_r in Es, Et. unfold LLONG_MIN, LLONG_MAX in *.
  destruct Hs as [[-> Hv]|[-> Hv]]; cbn [app].
  - rewrite Et, Es. cbn [nil_b fst]. lia.
  - cbn [take_if]. cbn [Ascii.eqb Bool.eqb]. rewrite Es. cbn [nil_b fst]. lia.
Qed.

Lemma parse_value_number f c t :
  is_digit c || Ascii.eqb c "-" = true -> parse_value (S f) (c :: t) = parse_number (c :: t).
Proof. destruct c as [[] [] [] [] [] [] [] []]; by intros. Qed.

Definition items_text : bool -> list json -> text :=
  fix go (first : bool) (l : list json) : text :=
    match l with
    | [] => []
    | x :: l' => (if first then [] else [","]) ++ stringify_val x ++ go false l'
    end.

Definition members_text : bool -> list (string * json) -> text :=
  fix go (first : bool) (l : list (string * json)) : text :=
    match l with
    | [] => []
    | (k, x) :: l' =>
        (if first then [] else [","]) ++ stringify_str k ++ ":" :: stringify_val x ++ go false l'
    end.

Lemma stringify_arr l : stringify_val (JArr l) = "[" :: items_text true l ++ ["]"].
Proof. reflexivity. Qed.

Lemma stringify_obj ps c t m : stringify_val (JObj (JObject ps c t m)) = "{" :: members_text true ps ++ ["}"].
Proof. reflexivity. Qed.

(** The first character of a printed value. *)
Lemma stringify_head v :
  printable v -> exists c t, stringify_val v = c :: t /\ is_ws c = false /\ Ascii.eqb c "]" = false.
Proof.
  destruct v as [|[]|z|d|s|l|[ps c t m]]; intros Hp; cbn in Hp; [..|contradiction| | |];
    try (eexists _, _; split; [reflexivity|]; by vm_compute).
  destruct (fmt_lld_shape z Hp) as (sg & ds & E & Hs & Hd & Hl). cbn [stringify_val]. rewrite E.
  destruct Hs as [[-> _]|[-> _]]; [|by exists "-", ds].
  destruct Hd as [|c ds Hc _]; [cbn in Hl; lia|]. exists c, ds. split; [done|].
  by destruct c as [[] [] [] [] [] [] [] []].
Qed.

Lemma peek_nonws c t : is_ws c = false -> peek (c :: t) = (c, c :: t).
Proof. unfold peek. cbn. by intros ->. Qed.

Lemma printable_arr l : printable (JArr l) <-> Forall printable l.
Proof. induction l as [|x l IH]; [done|]. rewrite list.Forall_cons, <- IH. done. Qed.

Lemma printable_obj ps c t m :
  printable (JObj (JObject ps c t m)) <-> Forall (fun p => no_nul p.1 /\ printable p.2) ps.
Proof.
  induction ps as [|[k x] ps IH]; [done|]. rewrite list.Forall_cons, <- IH. cbn. tauto.
Qed.

(** A value is read back from its own text, whatever non-number text follows. *)
Definition reads_back (v : json) : Prop := forall f r,
  printable v -> num_end r -> (2 * length (stringify_val v) + 1 <= f)%nat ->
  exists v', parse_value f (stringify_val v ++ r) = Parsed v' r /\ erase v' = erase v.

Lemma peek_value v r : printable v ->
  exists c t, peek (stringify_val v ++ r) = (c, stringify_val v ++ r) /\ stringify_val v = c :: t /\
    Ascii.eqb c "]" = false.
Proof.
  intros Hp. destruct (stringify_head v Hp) as (c & t & E & Hw & Hb). exists c, t. rewrite E.
  split_and!; [by apply peek_nonws|done|done].
Qed.

Lemma items_back l : forall f acc r, l <> [] ->
  Forall reads_back l -> Forall printable l -> (2 * length (items_text true l) + 4 <= f)%nat ->
  exists l', parse_items f acc (items_text true l ++ "]" :: r) = Parsed (JArr (acc ++ l')) r /\
    erase <$> l' = erase <$> l.
Proof.
  induction l as [|x l IH]; intros f acc r Hne Hb Hp Hf; [done|].
  apply list.Forall_cons in Hb as [Hx Hb]. apply list.Forall_cons in Hp as [Px Hp].
  destruct f as [|f]; [lia|]. cbn [parse_items]. change (items_text true (x :: l)) with (stringify_val x ++ items_text false l) in *.
  rewrite length_app in Hf. rewrite <- app_assoc.
  destruct (Hx f (items_text false l ++ "]" :: r) Px) as (x' & -> & Ex).
  { by destruct l. } { lia. }
  destruct l as [|y l].
  - cbn. exists [x']. split; [done|]. cbn. by rewrite Ex.
  - change (items_text false (y :: l)) with ("," :: items_text true (y :: l)) in *. cbn [app length] in Hf |- *.
    rewrite (peek_nonws ",") by done. change (Ascii.eqb "," ",") with true. cbn iota.
    destruct (IH f (acc ++ [x']) r ltac:(done) Hb Hp ltac:(lia)) as (l' & E & El).
    exists (x' :: l'). unfold next. cbn [skip_ws is_ws Ascii.eqb Bool.eqb orb snd]. rewrite E, <- app_assoc. split; [done|].
    change (erase x' :: (erase <$> l') = erase x :: (erase <$> y :: l)). by rewrite Ex, El.
Qed.

Lemma rebuild_pairs (o : jobject json) : pairs (obj_kh_rebuild o) = pairs o.
Proof.
  unfold obj_kh_rebuild. apply (for_range_ind (fun _ s => pairs s = pairs o)); [unfold count; lia|done|].
  intros i s _ <-. unfold obj_kh_insert. by destruct (at_ (pairs s) i) as [[? ?]|].
Qed.

Definition erase_pairs (ps : list (string * json)) : list (string * json) :=
  (fun p => (p.1, erase p.2)) <$> ps.

Lemma members_back ps : forall f o r, ps <> [] ->
  Forall (fun p => reads_back p.2) ps -> Forall (fun p => no_nul p.1 /\ printable p.2) ps ->
  (2 * length (members_text true ps) + 4 <= f)%nat ->
  exists o' ps', parse_members f o (members_text true ps ++ "}" :: r) = Parsed (JObj o') r /\
    pairs o' = pairs o ++ ps' /\ erase_pairs ps' = erase_pairs ps.
Proof.
  induction ps as [|[k x] ps IH]; intros f o r Hne Hb Hp Hf; [done|].
  apply list.Forall_cons in Hb as [Hx Hb]. apply list.Forall_cons in Hp as [[Pk Px] Hp]. cbn in Hx, Pk, Px.
  destruct f as [|f]; [lia|]. cbn [parse_members].
  change (members_text true ((k, x) :: ps)) with
    (stringify_str k ++ ":" :: stringify_val x ++ members_text false ps) in *.
  rewrite length_app in Hf. cbn [length] in Hf. rewrite length_app in Hf.
  replace ((stringify_str k ++ ":" :: stringify_val x ++ members_text false ps) ++ "}" :: r)
    with (stringify_str k ++ ":" :: stringify_val x ++ (members_text false ps ++ "}" :: r))
    by (by rewrite <- app_assoc, <- app_comm_cons, <- app_assoc).
  rewrite decode_stringify by done. unfold next at 1. cbn [skip_ws is_ws Ascii.eqb Bool.eqb orb negb].
  destruct (Hx f (members_text false ps ++ "}" :: r) Px) as (x' & -> & Ex).
  { by destruct ps as [|[? ?] ?]. } { lia. }
  destruct ps as [|[k2 y] ps].
  - exists (obj_kh_rebuild (obj_append o k x')), [(k, x')]. split_and!; [done|by rewrite rebuild_pairs|].
    unfold erase_pairs. cbn. by rewrite Ex.
  - change (members_text false ((k2, y) :: ps)) with ("," :: members_text true ((k2, y) :: ps)) in *.
    cbn [app length] in Hf |- *.
    rewrite (peek_nonws ",") by done. change (Ascii.eqb "," ",") with true. cbn iota.
    destruct (IH f (obj_append o k x') r ltac:(done) Hb Hp ltac:(lia)) as (o' & ps' & E & Ep & El).
    exists o', ((k, x') :: ps'). unfold next. cbn [skip_ws is_ws Ascii.eqb Bool.eqb orb snd]. rewrite E.
    split_and!; [done|rewrite Ep; cbn; by rewrite <- app_assoc|].
    change ((k, erase x') :: erase_pairs ps' = (k, erase x) :: erase_pairs ((k2, y) :: ps)). by rewrite Ex, El.
Qed.

Lemma value_back v : reads_back v.
Proof.
  induction v as [|b|z|d|s|l IH|ps c t m IH] using json_nested_ind;
    intros f r Hp Hr Hf; (destruct f as [|f]; [lia|]).
  - by exists JNull.
  - destruct b; by eexists.
  - exists (JInt z). split; [|done]. cbn [stringify_val] in *. rewrite <- (parse_int z r) by done.
    destruct (fmt_lld_shape z Hp) as (sg & ds & -> & Hs & Hd & Hl).
    destruct Hs as [[-> _]|[-> _]]; [|exact (parse_value_number f "-" (ds ++ r) eq_refl)].
    destruct Hd as [|c ds Hc _]; [cbn in Hl; lia|]. apply (parse_value_number f c (ds ++ r)). by rewrite Hc.
  - done.
  - exists (JStr s). split; [|done]. cbn [stringify_val].
    assert (parse_value (S f) (stringify_str s ++ r) =
      match decode_string (stringify_str s ++ r) with Parsed s r => Parsed (JStr s) r | _ => Reject end) as -> by done.
    by rewrite decode_stringify.
  - apply printable_arr in Hp. rewrite stringify_arr in *. cbn [length] in Hf. rewrite length_app in Hf. cbn in Hf.
    destruct l as [|x l]; [by exists (JArr [])|].
    assert (printable x) as Px by exact (List.Forall_inv Hp).
    destruct (peek_value x (items_text false l ++ "]" :: r) Px) as (c & t & E & _ & Hc).
    assert (peek (items_text true (x :: l) ++ "]" :: r) = (c, items_text true (x :: l) ++ "]" :: r)) as E'.
    { change (items_text true (x :: l)) with (stringify_val x ++ items_text false l). by rewrite <- app_assoc. }
    destruct (items_back (x :: l) f [] r ltac:(done) IH Hp ltac:(cbn in *; lia)) as (l' & El & Er).
    exists (JArr l'). split; [|cbn; by rewrite Er].
    rewrite <- app_comm_cons, <- app_assoc. cbn [parse_value]. rewrite (peek_nonws "[") by done.
    cbn iota. change (next ("[" :: (items_text true (x :: l) ++ ["]"] ++ r)))
      with ("[", items_text true (x :: l) ++ "]" :: r). cbn iota. rewrite E', Hc. exact El.
  - apply printable_obj in Hp. rewrite stringify_obj in *. cbn [length] in Hf. rewrite length_app in Hf. cbn in Hf.
    destruct ps as [|[k x] ps]; [by eexists|].
    destruct (members_back ((k, x) :: ps) f empty_object r ltac:(done) IH Hp ltac:(cbn in *; lia))
      as (o' & ps' & El & Ep & Er).
    exists (JObj o'). split.
    + rewrite <- app_comm_cons, <- app_assoc. cbn [parse_value]. rewrite (peek_nonws "{") by done.
      cbn iota. change (next ("{" :: (members_text true ((k, x) :: ps) ++ ["}"] ++ r)))
        with ("{", members_text true ((k, x) :: ps) ++ "}" :: r). cbn iota.
      assert (peek (members_text true ((k, x) :: ps) ++ "}" :: r) =
                (QUOTE, members_text true ((k, x) :: ps) ++ "}" :: r)) as -> by done.
      exact El.
    + destruct o' as [ps2 ? ? ?]. cbn in Ep |- *. subst ps2. do 2 f_equal. exact Er.
Qed.

(** C32: parsing the text that the serialiser prints for a value gives the
    value back, at every depth: 64-bit integers, strings with any characters
    but NUL (quotes, control characters and UTF-8 bytes included), arrays, and
    objects with their pairs in order. *)
Theorem json_roundtrip v :
  printable v ->
  exists v', miku_json_parse (Some (miku_json_stringify (Some v))) = Some v' /\ erase v' = erase v.
Proof.
  intros Hp. destruct (value_back v (parse_fuel (stringify_val v)) [] Hp I) as (v' & E & Ev).
  { unfold parse_fuel. lia. }
  rewrite app_nil_r in E. exists v'. unfold miku_json_parse, miku_json_stringify. by rewrite E.
Qed.

Lemma json_roundtrip_witness :
  exists v', miku_json_parse (Some (miku_json_stringify (Some
      (JArr [JInt (-42); JStr "a~\b"; JObj (obj_set empty_object "k" JNull)])))) = Some v' /\
    erase v' = erase (JArr [JInt (-42); JStr "a~\b"; JObj (obj_set empty_object "k" JNull)]).
Proof.
  apply json_roundtrip. apply printable_arr. constructor; [vm_compute; split; discriminate|].
  constructor; [|constructor; [|constructor]].
  - unfold printable, no_nul. by apply (bool_decide_unpack _ (dec := _)); vm_compute.
  - apply (printable_obj [("k"%string, JNull)]). constructor; [|constructor]. split; [|done].
    by apply (bool_decide_unpack _ (dec := _)); vm_compute.
Defined.

(** A number that overflows binary64 is accepted and printed as [inf], which
    the parser rejects: the round trip does not extend to such doubles. *)
Theorem json_inf_not_reparsed :
  exists v, miku_json_parse_str (Some "1e999"%string) = Some v /\
    miku_json_parse (Some (miku_json_stringify (Some v))) = None.
Proof. exists (JDouble (S754_infinity false)). split; vm_compute; reflexivity. Qed.
