(* ===== verification/JsonEscape.v ===== *)
(** * Text helpers for JSON built by hand (foundation/miku_json_util.h)

    The storage and gateway code that does not go through JSON values prints
    JSON with [snprintf], after [miku_json_escape_str] has made each string
    safe for a fixed buffer.  [json_escape_safe] says that whatever the string
    and the buffer, the text stays in the buffer and reads back as a prefix of
    the string: no input ends the literal early.  [raw_object] is the text of
    an object printed this way, and [raw_object_reads] that the parser gets
    its pairs back. *)
From Stdlib Require Import Ascii String.
From S2P Require Import Prelude Hash ProbeIndex KeyedMap Json JsonText.
#[local] Open Scope char_scope.
#[local] Open Scope Z_scope.

(** The length of a text. *)
Definition tlen (t : text) : Z := Z.of_nat (length t).

(** ["\\u%04x"]. *)
Definition u_esc (c : ascii) : text :=
  ["\"; "u"; "0"; "0"; hex_digit (code c / 16); hex_digit (code c mod 16)].

(** The loop at [out + pos]. *)
Fixpoint escape_loop (p : string) (pos cap : Z) : text :=
  match p with
  | EmptyString => []
  | String c p' =>
      if Ascii.eqb c NUL || negb (pos + 2 <? cap) then []
      else if Ascii.eqb c QUOTE || Ascii.eqb c "\" then
        if cap <=? pos + 2 then [] else "\" :: c :: escape_loop p' (pos + 2) cap
      else if code c <? 32 then
        if cap <=? pos + 6 then [] else u_esc c ++ escape_loop p' (pos + 6) cap
      else c :: escape_loop p' (pos + 1) cap
  end.

(** What the buffer of [cap] bytes holds before its NUL. *)
Definition miku_json_escape_str (s : option string) (cap : Z) : text :=
  match s with Some p => escape_loop p 0 cap | None => [] end.

(** [snprintf(out, cap, ...)] of a text: what is stored, and the full length. *)
Definition snprintf (cap : Z) (t : text) : text * Z := (take (Z.to_nat (cap - 1)) t, tlen t).

(** One step of [miku_json_build_str_obj]: the text so far, None once a pair
    did not fit. *)
Definition build_pair (cap : Z) (acc : option (text * bool)) (kv : string * option string) : option (text * bool) :=
  '(out, first) ← acc;
  let ev := miku_json_escape_str (Some (default EmptyString kv.2)) 512 in
  let item := (if (first : bool) then [] else [","]) ++ QUOTE :: str kv.1 ++ QUOTE :: ":" :: QUOTE :: ev ++ [QUOTE] in
  let n := (snprintf (cap - tlen out) item).2 in
  if (n <=? 0) || (cap <=? tlen out + n) then None else Some (out ++ item, false).

(** None is the error -1. *)
Definition miku_json_build_str_obj (cap : Z) (kvs : list (string * option string)) : option text :=
  if cap <? 3 then None
  else '(out, _) ← foldl (build_pair cap) (Some (["{"], true)) kvs;
       if cap <? tlen out + 2 then None else Some (out ++ ["}"]).

(** ** Proofs: one literal *)

(** The escape of one character, when it fits. *)
Definition esc1 (c : ascii) : text :=
  if Ascii.eqb c QUOTE || Ascii.eqb c "\" then ["\"; c]
  else if code c <? 32 then u_esc c else [c].

Fixpoint esc1_text (s : string) : text :=
  match s with EmptyString => [] | String c s' => esc1 c ++ esc1_text s' end.

Lemma esc1_length c : (1 <= length (esc1 c) <= 6)%nat.
Proof. unfold esc1. repeat case_match; cbn; lia. Qed.

Lemma unescape_esc1 c t : Ascii.eqb c NUL = false -> unescape (esc1 c ++ t) = c :: unescape t.
Proof. destruct c as [[] [] [] [] [] [] [] []]; first [done|reflexivity]. Qed.

Lemma raw_scan_esc1 c t :
  Ascii.eqb c NUL = false ->
  exists e, raw_scan (esc1 c ++ t) =
    match raw_scan t with
    | Some (raw, e', r) => Some (esc1 c ++ raw, e || e', r)
    | None => None end.
Proof.
  destruct c as [[] [] [] [] [] [] [] []]; intros Hn; try done;
    match goal with |- context [esc1 ?c] =>
      let e := eval vm_compute in (esc1 c) in change (esc1 c) with e end;
    first [ exists false; cbn; destruct (raw_scan t) as [[[raw []] r]|]; reflexivity
          | exists true; cbn; destruct (raw_scan t) as [[[raw []] r]|]; reflexivity ].
Qed.

Lemma esc1_scan s r : no_nul s -> exists e, raw_scan (esc1_text s ++ QUOTE :: r) = Some (esc1_text s, e, r).
Proof.
  induction s as [|c s IH]; [by exists false|]. intros [Hc Hs]%no_nul_cons. cbn [esc1_text].
  destruct (IH Hs) as [e E]. rewrite <- app_assoc. destruct (raw_scan_esc1 c (esc1_text s ++ QUOTE :: r) Hc) as [e' E'].
  rewrite E', E. eauto.
Qed.

Lemma esc1_unescape s : no_nul s -> unescape (esc1_text s) = str s.
Proof.
  induction s as [|c s IH]; [done|]. intros [Hc Hs]%no_nul_cons. cbn [esc1_text].
  rewrite unescape_esc1 by done. unfold str. cbn. f_equal. by apply IH.
Qed.

Lemma decode_esc1 s r : no_nul s -> decode_string (QUOTE :: esc1_text s ++ QUOTE :: r) = Parsed s r.
Proof.
  intros Hs. unfold decode_string. cbn -[esc1_text]. destruct (esc1_scan s r Hs) as [e E]. rewrite E. destruct e.
  - by rewrite esc1_unescape, cstr_str.
  - apply (raw_scan_plain (length (esc1_text s ++ QUOTE :: r))) in E; [|done].
    rewrite <- E. by rewrite esc1_unescape, cstr_str.
Qed.

Lemma strn_0 s : strn 0 s = EmptyString.
Proof. by destruct s. Qed.

(** The loop escapes the longest prefix it can: it stops at the first
    character that may not fit. *)
Lemma escape_loop_spec p pos cap :
  no_nul p -> 0 <= pos -> pos < cap ->
  exists k, escape_loop p pos cap = esc1_text (strn k p) /\ pos + tlen (esc1_text (strn k p)) < cap /\
    (pos + 6 * Z.of_nat (String.length p) + 2 <= cap -> strn k p = p).
Proof.
  revert pos. induction p as [|c p IH]; intros pos Hn Hp Hc; [exists 0%nat; rewrite strn_0; unfold tlen; cbn; split_and!; [done|lia|done]|].
  apply no_nul_cons in Hn as [Hc0 Hn]. cbn [escape_loop]. rewrite Hc0. cbn [orb].
  assert (forall b : bool, (b = true -> cap < pos + 6 * Z.of_nat (String.length (String c p)) + 2) ->
    (b = false -> pos + tlen (esc1 c) < cap /\ (pos + 6 * Z.of_nat (String.length p) + 8 <= cap ->
      pos + tlen (esc1 c) + 6 * Z.of_nat (String.length p) + 2 <= cap)) ->
    exists k, (if b then [] else esc1 c ++ escape_loop p (pos + tlen (esc1 c)) cap) = esc1_text (strn k (String c p)) /\
      pos + tlen (esc1_text (strn k (String c p))) < cap /\
      (pos + 6 * Z.of_nat (String.length (String c p)) + 2 <= cap -> strn k (String c p) = String c p)) as step.
  { intros [] H1 H2.
    - exists 0%nat. rewrite strn_0. unfold tlen. cbn [esc1_text length]. split_and!; [done|lia|]. specialize (H1 eq_refl). lia.
    - destruct (H2 eq_refl) as [H3 H4]. destruct (IH (pos + tlen (esc1 c)) Hn) as (k & E & L & F); [unfold tlen; lia|lia|].
      exists (S k). unfold strn. fold strn. cbn [esc1_text]. rewrite E. unfold tlen in *. rewrite length_app.
      split_and!; [done|lia|]. cbn [String.length]. intros Hb. f_equal. apply F. lia. }
  cbn [String.length] in *. unfold esc1 in step.
  destruct (Z.ltb_spec (pos + 2) cap) as [H2|H2]; cbn [negb].
  2: { specialize (step true). cbn iota in step. apply step; [lia|done]. }
  destruct (Ascii.eqb c QUOTE || Ascii.eqb c "\").
  { rewrite (proj2 (Z.leb_gt cap (pos + 2))) by lia. specialize (step false). unfold tlen in step. cbn in step.
    apply step; [done|lia]. }
  destruct (code c <? 32).
  { destruct (Z.leb_spec cap (pos + 6)).
    - specialize (step true). cbn iota in step. apply step; [lia|done].
    - specialize (step false). cbn iota in step. change (tlen (u_esc c)) with 6 in step. apply step; [done|lia]. }
  specialize (step false). cbn iota in step. change (tlen [c]) with 1 in step. apply step; [done|lia].
Qed.

Lemma no_nul_strn k s : no_nul s -> no_nul (strn k s).
Proof.
  revert s. induction k as [|k IH]; intros [|c s]; try done; [by rewrite strn_0; intros _ ?%elem_of_nil|].
  intros [Hc Hs]%no_nul_cons. apply IH in Hs. unfold no_nul, str, strn in *. fold strn in *. cbn [list_ascii_of_string].
  apply not_elem_of_cons. split; [|done]. intros <-. by rewrite Ascii.eqb_refl in Hc.
Qed.

(** Whatever the string and the size of the buffer, the escaped text and
    its NUL fit the buffer, and between two quotes the parser reads it as a
    prefix of the string and stops at the second quote: no character of the
    string ends the literal or adds to it.  The prefix is the whole string
    when the buffer has six bytes per character and two more. *)
Theorem json_escape_safe s cap r :
  no_nul s -> 0 < cap ->
  exists k, decode_string (QUOTE :: miku_json_escape_str (Some s) cap ++ QUOTE :: r) = Parsed (strn k s) r /\
    tlen (miku_json_escape_str (Some s) cap) < cap /\
    (6 * Z.of_nat (String.length s) + 2 <= cap -> strn k s = s).
Proof.
  intros Hn Hc. destruct (escape_loop_spec s 0 cap Hn) as (k & E & L & F); [lia..|]. exists k.
  unfold miku_json_escape_str. rewrite E. split_and!; [|lia|exact F]. apply decode_esc1. by apply no_nul_strn.
Qed.

(** ** Proofs: objects printed by hand *)

(** [t] is the text of [v] for the parser, whatever non-number text follows. *)
Definition reads (t : text) (v : json) : Prop := forall f r,
  num_end r -> (2 * length t + 1 <= f)%nat -> parse_value f (t ++ r) = Parsed v r.

Lemma reads_int z : LLONG_MIN <= z <= LLONG_MAX -> reads (fmt_lld z) (JInt z).
Proof.
  intros Hz f r Hr Hf. destruct (value_back (JInt z) f r Hz Hr Hf) as (v & E & Ev).
  cbn [stringify_val] in E. rewrite E. destruct v as [| | | | | |[]]; try done. cbn in Ev. by simplify_eq.
Qed.

Definition quoted (t : text) : text := QUOTE :: t ++ [QUOTE].

Lemma reads_str s : no_nul s -> reads (quoted (esc1_text s)) (JStr s).
Proof.
  intros Hs f r _ Hf. destruct f as [|f]; [lia|]. unfold quoted. rewrite <- app_comm_cons, <- app_assoc.
  change (parse_value (S f) ?t) with match decode_string t with Parsed s r => Parsed (JStr s) r | _ => Reject end.
  cbn [app]. by rewrite decode_esc1.
Qed.

(** The members of an object as [snprintf] prints them: quoted keys, the texts
    of the values as they are. *)
Fixpoint raw_members (first : bool) (l : list (string * text)) : text :=
  match l with
  | [] => []
  | (k, t) :: l' => (if first then [] else [","]) ++ quoted (str k) ++ ":" :: t ++ raw_members false l'
  end.

Definition raw_object (l : list (string * text)) : text := "{" :: raw_members true l ++ ["}"].

(** A key without characters that need an escape. *)
Definition plain (k : string) : Prop := no_nul k /\ esc1_text k = str k.

Definition pair_reads (kt : string * text) (kv : string * json) : Prop :=
  kt.1 = kv.1 /\ plain kt.1 /\ reads kt.2 kv.2.

(** The room that the parser leaves in the array of pairs. *)
Definition roomy (o : jobject json) : Prop := count o <= capacity o /\ 8 <= capacity o <= 8 + 2 * count o.

Lemma obj_append_roomy o k v : roomy o -> roomy (obj_append o k v).
Proof.
  unfold roomy, obj_append, count. cbn. rewrite length_app. cbn. intros [H1 H2].
  bool_case; lia.
Qed.

(** The object after the parser has appended the pairs. *)
Definition appended (o : jobject json) (vs : list (string * json)) : jobject json :=
  foldl (fun o kv => obj_append o kv.1 kv.2) o vs.

Lemma appended_roomy vs : forall o, roomy o -> roomy (appended o vs) /\ pairs (appended o vs) = pairs o ++ vs.
Proof.
  induction vs as [|[k v] vs IH]; intros o Ro; [by rewrite app_nil_r|].
  destruct (IH (obj_append o k v) (obj_append_roomy o k v Ro)) as [R E]. split; [done|].
  change (appended o ((k, v) :: vs)) with (appended (obj_append o k v) vs). rewrite E. cbn. by rewrite <- app_assoc.
Qed.

Lemma raw_members_back l vs : Forall2 pair_reads l vs -> forall f o r, l <> [] ->
  (2 * length (raw_members true l) + 4 <= f)%nat ->
  parse_members f o (raw_members true l ++ "}" :: r) = Parsed (JObj (obj_kh_rebuild (appended o vs))) r.
Proof.
  induction 1 as [|[k t] [k' v] l vs (Hk & [Nk Ek] & Hv) H2 IH]; intros f o r Hne Hf; [done|].
  cbn in Hk, Nk, Ek, Hv. subst k'. destruct f as [|f]; [lia|]. cbn [parse_members].
  cbn [raw_members] in *. cbn [app] in *. rewrite length_app in Hf. cbn [length] in Hf. rewrite length_app in Hf.
  replace ((quoted (str k) ++ ":" :: t ++ raw_members false l) ++ "}" :: r)
    with (QUOTE :: esc1_text k ++ QUOTE :: ":" :: t ++ (raw_members false l ++ "}" :: r))
    by (rewrite Ek; unfold quoted; cbn; rewrite <- !app_assoc; cbn; by rewrite <- !app_assoc).
  rewrite decode_esc1 by done. unfold next at 1. cbn [skip_ws is_ws Ascii.eqb Bool.eqb orb negb].
  rewrite Hv; [|by destruct l as [|[? ?] ?]|lia]. cbn [appended foldl].
  destruct H2 as [|[k2 t2] [k2' v2] l vs P2 H2]; [done|].
  change (raw_members false ((k2, t2) :: l)) with ("," :: raw_members true ((k2, t2) :: l)) in *.
  cbn [app length] in Hf |- *.
  rewrite (peek_nonws ",") by done. change (Ascii.eqb "," ",") with true. cbn iota.
  unfold next. cbn [skip_ws is_ws Ascii.eqb Bool.eqb orb snd]. rewrite IH; [done|done|lia].
Qed.

(** The parser reads an object printed by hand as a well-formed object with
    exactly the printed pairs. *)
Lemma raw_object_reads l vs :
  Forall2 pair_reads l vs -> l <> [] -> NoDup vs.*1 -> Z.of_nat (length vs) < 2 ^ 27 ->
  exists v, reads (raw_object l) v /\ obj_is v (list_to_map vs).
Proof.
  intros H Hne Hnd Hl. set (o := appended empty_object vs).
  assert (roomy o /\ pairs o = vs) as [[R1 R2] Ep] by (by apply (appended_roomy vs empty_object)).
  assert (count o = Z.of_nat (length vs)) as Ec by (unfold count; by rewrite Ep).
  destruct (obj_kh_rebuild_ok o R1) as (t' & mask & Eo & P & Hld & I); [change (2 ^ 29) with (4 * 2 ^ 27); lia|].
  exists (JObj (obj_kh_rebuild o)). split.
  - intros f r Hr Hf. destruct f as [|f]; [lia|]. unfold raw_object in *. cbn [length] in Hf. rewrite length_app in Hf.
    cbn [length] in Hf. rewrite <- app_comm_cons, <- app_assoc. cbn [parse_value]. rewrite (peek_nonws "{") by done.
    cbn iota. change (next ("{" :: (raw_members true l ++ ["}"] ++ r)))
      with ("{", raw_members true l ++ "}" :: r). cbn iota.
    assert (peek (raw_members true l ++ "}" :: r) = (QUOTE, raw_members true l ++ "}" :: r)) as ->
      by (by destruct l as [|[? ?] ?]).
    change (Ascii.eqb QUOTE "}") with false. cbn iota. apply raw_members_back; [done|done|lia].
  - exists (obj_kh_rebuild o). split; [done|]. rewrite Eo. unfold obj_map. cbn [pairs]. rewrite Ep in *. split.
    + constructor; cbn; unfold kh_size, count; cbn; rewrite ?Ep; try done; change (2 ^ 29) with (4 * 2 ^ 27); lia.
    + unfold kmap. f_equal. rewrite <- (list_fmap_id vs) at 2. apply list_fmap_ext. by intros ? [? ?].
Qed.

(** The text that [snprintf("\"%s\"", escaped)] prints for a string. *)
Definition esc_field (s : string) (cap : Z) : text := quoted (miku_json_escape_str (Some s) cap).

Lemma esc_field_reads s cap :
  no_nul s -> 0 < cap -> exists k, reads (esc_field s cap) (JStr (strn k s)) /\
    (6 * Z.of_nat (String.length s) + 2 <= cap -> strn k s = s).
Proof.
  intros Hn Hc. destruct (escape_loop_spec s 0 cap Hn) as (k & E & L & F); [lia..|]. exists k.
  unfold esc_field, miku_json_escape_str. rewrite E. split; [|exact F]. apply reads_str. by apply no_nul_strn.
Qed.

Lemma escape_loop_length p : forall pos cap, 0 <= pos < cap -> pos + tlen (escape_loop p pos cap) < cap.
Proof.
  unfold tlen. induction p as [|c p IH]; intros pos cap H; cbn [escape_loop]; [cbn; lia|].
  destruct (Ascii.eqb c NUL); cbn [orb]; [cbn; lia|]. destruct (Z.ltb_spec (pos + 2) cap); cbn [negb]; [|cbn; lia].
  destruct (Ascii.eqb c QUOTE || Ascii.eqb c "\").
  { bool_case; cbn [length]; [lia|]. specialize (IH (pos + 2) cap). lia. }
  destruct (code c <? 32).
  { bool_case; [cbn; lia|]. rewrite length_app. change (length (u_esc c)) with 6%nat. specialize (IH (pos + 6) cap). lia. }
  cbn [length]. specialize (IH (pos + 1) cap). lia.
Qed.

Lemma esc_field_length s cap : 0 < cap -> tlen (esc_field s cap) <= cap + 1.
Proof.
  intros Hc. pose proof (escape_loop_length s 0 cap ltac:(lia)) as L.
  unfold esc_field, miku_json_escape_str, quoted. unfold tlen in *. cbn [length]. rewrite length_app. cbn. lia.
Qed.

Lemma dec_digits_length fuel : forall n, (length (dec_digits fuel n) <= fuel)%nat.
Proof.
  induction fuel as [|fuel IH]; intros n; [done|]. cbn [dec_digits]. case_match; [cbn; lia|].
  rewrite length_app. cbn. specialize (IH (n / 10)). lia.
Qed.

Lemma fmt_lld_length z : tlen (fmt_lld z) <= 21.
Proof.
  unfold tlen, fmt_lld. pose proof (dec_digits_length 20). destruct (z <? 0).
  - change (length ("-" :: dec_digits 20 (- z))) with (S (length (dec_digits 20 (- z)))). specialize (H (- z)). lia.
  - specialize (H z). lia.
Qed.

Definition pair_text (kv : string * option string) : string * text :=
  (kv.1, esc_field (default EmptyString kv.2) 512).

Lemma build_pairs_text cap kvs : forall out first o f,
  foldl (build_pair cap) (Some (out, first)) kvs = Some (o, f) ->
  o = out ++ raw_members first (pair_text <$> kvs).
Proof.
  induction kvs as [|[k v] kvs IH]; intros out first o f.
  { cbn. intros [= <- <-]. by rewrite app_nil_r. }
  cbn [foldl]. unfold build_pair at 2. cbn [mbind option_bind]. case_match.
  - intros E. exfalso. revert E. clear. induction kvs as [|x kvs IH]; [done|exact IH].
  - intros ->%IH. rewrite <- app_assoc. f_equal. cbn [fmap list_fmap raw_members pair_text fst snd].
    unfold quoted, esc_field, quoted. cbn [app]. rewrite <- !app_assoc. f_equal. cbn [app]. f_equal.
    rewrite <- !app_assoc. cbn [app]. f_equal. f_equal. f_equal. cbn [app]. f_equal. by rewrite <- app_assoc.
Qed.

(** When [miku_json_build_str_obj] succeeds, the text and its NUL fit the
    buffer and the parser reads it as an object with exactly the given keys,
    each bound to a prefix of its string (all of it up to 85 characters). *)
Theorem build_str_obj_reads cap kvs t :
  kvs <> [] -> NoDup kvs.*1 -> Z.of_nat (length kvs) < 2 ^ 27 ->
  Forall (fun kv => plain kv.1 /\ no_nul (default EmptyString kv.2)) kvs ->
  miku_json_build_str_obj cap kvs = Some t ->
  tlen t < cap /\
  exists v m, miku_json_parse (Some t) = Some v /\ obj_is v m /\ dom m = list_to_set kvs.*1 /\
    forall k s, (k, s) ∈ kvs -> exists n, m !! k = Some (JStr (strn n (default EmptyString s))) /\
      ((String.length (default EmptyString s) <= 85)%nat -> strn n (default EmptyString s) = default EmptyString s).
Proof.
  intros Hne Hnd Hlen Hok. unfold miku_json_build_str_obj. bool_case; [done|].
  destruct (foldl _ _ _) as [[out f]|] eqn:E; [|done]. cbn [mbind option_bind]. bool_case; [done|]. intros [= <-].
  split; [unfold tlen in *; rewrite length_app; cbn; lia|].
  apply build_pairs_text in E. subst out.
  assert (exists vs, Forall2 (fun kv vv => kv.1 = vv.1 /\ plain kv.1 /\ exists n, vv.2 = JStr (strn n (default EmptyString kv.2)) /\
    reads (pair_text kv).2 vv.2 /\
    ((String.length (default EmptyString kv.2) <= 85)%nat -> strn n (default EmptyString kv.2) = default EmptyString kv.2)) kvs vs) as [vs Hvs].
  { clear -Hok. induction Hok as [|[k s] kvs [Hp Hs] _ [vs IH]]; [by exists []|].
    destruct (esc_field_reads (default EmptyString s) 512 Hs) as (n & R & F); [lia|].
    exists ((k, JStr (strn n (default EmptyString s))) :: vs). constructor; [|done]. cbn in *. split_and!; [done|apply Hp..|].
    exists n. split_and!; [done|done|]. intros. apply F. lia. }
  assert (vs.*1 = kvs.*1) as Ek.
  { clear -Hvs. induction Hvs as [|? ? ? ? (E & _) _ IH]; [done|]. cbn. by rewrite E, IH. }
  assert (length vs = length kvs) as El by (by rewrite <- (length_fmap fst vs), Ek, length_fmap).
  destruct (raw_object_reads (pair_text <$> kvs) vs) as (v & R & Ov).
  { apply Forall2_fmap_l. eapply list.Forall2_impl; [exact Hvs|]. intros kv vv (? & ? & n & ? & ? & _). by split_and!. }
  { by destruct kvs. } { by rewrite Ek. } { by rewrite El. }
  exists v, (list_to_map vs). split_and!; [|done| |].
  - unfold miku_json_parse. pose proof (R (parse_fuel (raw_object (pair_text <$> kvs))) [] I) as P.
    rewrite app_nil_r in P. unfold raw_object in P. cbn [app]. rewrite P; [done|]. unfold parse_fuel. lia.
  - by rewrite dom_list_to_map_L, Ek.
  - intros k s [i Hi]%list_elem_of_lookup. destruct (Forall2_lookup_l _ _ _ _ _ Hvs Hi) as ([k' w] & Hw & Ek' & _ & n & En & _ & Hn).
    cbn in Ek', En, Hn. subst k' w. exists n. split; [|done]. apply elem_of_list_to_map_1; [by rewrite Ek|].
    by eapply list_elem_of_lookup_2.
Qed.

Lemma json_escape_safe_witness :
  exists k, decode_string (QUOTE :: miku_json_escape_str (Some "a\b"%string) 9 ++ QUOTE :: [","]) = Parsed (strn k "a\b") [","] /\
    tlen (miku_json_escape_str (Some "a\b"%string) 9) < 9 /\
    (6 * Z.of_nat (String.length "a\b") + 2 <= 9 -> strn k "a\b" = "a\b"%string).
Proof. apply (json_escape_safe "a\b" 9 [","]); [|lia]. unfold no_nul. by apply (bool_decide_unpack _). Defined.

Lemma build_str_obj_reads_witness :
  tlen (default [] (miku_json_build_str_obj 64 [("k"%string, Some "v"%string)])) < 64 /\
  exists v m, miku_json_parse (Some (default [] (miku_json_build_str_obj 64 [("k"%string, Some "v"%string)]))) = Some v /\ obj_is v m /\
    dom m = list_to_set ["k"%string] /\
    forall k s, (k, s) ∈ [("k"%string, Some "v"%string)] -> exists n, m !! k = Some (JStr (strn n (default EmptyString s))) /\
      ((String.length (default EmptyString s) <= 85)%nat -> strn n (default EmptyString s) = default EmptyString s).
Proof.
  apply (build_str_obj_reads 64 [("k"%string, Some "v"%string)]); [done|apply NoDup_singleton|done| |done].
  constructor; [|constructor]. split; [split|]; unfold no_nul; by apply (bool_decide_unpack _).
Defined.
