(* ===== verification/JsonKeys.v ===== *)
(** * Fields of a parsed object

    An object read by the parser may hold a key twice, so it is not
    [obj_wf]; its index is still complete ([obj_ix]).  On such an object a
    field that was set is the one that is read, and the other fields keep
    their values: what a handler relies on when it overwrites the identity
    fields of a request body. *)
From Stdlib Require Import Ascii String.
From S2P Require Import Prelude Hash ProbeIndex KeyedMap Json JsonText JsonEscape.
#[local] Open Scope list_scope.
#[local] Open Scope Z_scope.

(** ** Tables filled in the order of the keys *)

Section First.
Context {sz : Z} {Hsz : Pow2 sz} {K : Type} {HK : EqDecision K}.
Context (hash : K -> Z) (hash_bound : forall x, 0 <= hash x < sz).
Implicit Types (ks : list K) (x : K) (t : gmap Z Z).

(** The position of the first occurrence. *)
Definition first_of ks x : Z := match list_find (fun y => y = x) ks with Some (i, _) => Z.of_nat i | None => -1 end.

Record kfirst t ks : Prop := {
  kf_index : kindex (sz:=sz) hash t ks;
  kf_find : forall x, scan_find sz t (kmatch ks x) (hash x) = first_of ks x }.

Lemma kfirst_empty : kfirst ∅ [].
Proof using hash_bound Hsz.
  split; [apply kindex_empty|]. intros x. unfold scan_find. destruct (scan _ _ _ _) as [p i|p|] eqn:E; [|done..].
  apply (kscan_found hash hash_bound) in E; [|apply kindex_empty]. apply at_lt in E. cbn in E. lia.
Qed.

(** An entry in an empty cell does not hide a record that the scan found. *)
Lemma probe_insert_found fuel t m m' q v p i : t.[q] < 0 -> (forall s, 0 <= t.[s] -> m' t.[s] = m t.[s]) ->
  forall idx, probe sz fuel t m idx = Found p i -> probe sz fuel (<[q:=v]> t) m' idx = Found p i.
Proof.
  intros Hq Hm. induction fuel as [|f IH]; intros idx; [done|]. cbn [probe].
  destruct (Z.ltb_spec t.[idx] 0) as [|Hc]; [done|]. rewrite cell_insert_ne by (intros ->; lia).
  destruct (Z.ltb_spec t.[idx] 0); [lia|]. rewrite Hm by done. case_match; [done|]. apply IH.
Qed.

Lemma kmatch_snoc t ks x y s : kindex (sz:=sz) hash t ks -> 0 <= t.[s] -> kmatch (ks ++ [x]) y t.[s] = kmatch ks y t.[s].
Proof using Hsz.
  intros [I S] Hs. pose proof (proj1 (ix_used I s) Hs) as [w Hw].
  pose proof (ix_cell _ _ _ _ I _ _ Hw) as (_ & _ & Hl). unfold cell. rewrite Hw. cbn. unfold kmatch. by rewrite at_app_l by lia.
Qed.

Lemma first_of_snoc ks x y : first_of (ks ++ [x]) y =
  if decide (y ∈ ks) then first_of ks y else if decide (y = x) then Z.of_nat (length ks) else -1.
Proof.
  unfold first_of. destruct (list_find _ ks) as [[i z]|] eqn:E.
  - pose proof E as E'. apply list_find_Some in E' as (Hi & -> & _). rewrite decide_True by (by eapply list_elem_of_lookup_2).
    by rewrite (list_find_app_l _ _ _ _ _ E).
  - rewrite decide_False.
    2:{ intros Hin. apply list_find_None in E. by eapply list.Forall_forall in E. }
    rewrite list_find_app_r by done. cbn. destruct (decide (x = y)) as [->|Hn]; cbn.
    + rewrite decide_True by done. lia.
    + by rewrite decide_False by congruence.
Qed.

Lemma kfirst_insert t ks x : kfirst t ks -> Z.of_nat (length ks) < sz ->
  kfirst (scan_insert sz t (hash x) (Z.of_nat (length ks))) (ks ++ [x]).
Proof using hash_bound Hsz.
  intros [I F] Hroom. pose proof (kindex_insert hash hash_bound t ks x I Hroom) as I'. split; [done|]. intros y.
  rewrite first_of_snoc. destruct (decide (y ∈ ks)) as [Hin|Hnin].
  - rewrite <- F. unfold scan_insert. destruct (scan sz t (fun _ => false) (hash x)) as [|q|] eqn:Eq; [|..].
    2:{ destruct (kscan_some hash hash_bound t ks y I Hin) as (p & i & Es).
        pose proof (scan_run t (fun _ => false) (hash x) (hash_bound x)) as R. rewrite Eq in R. destruct R as (e & _ & _ & Hneg & _).
        unfold scan_find. rewrite Es. unfold scan in *.
        rewrite (probe_insert_found _ t (kmatch ks y) _ q _ p i Hneg); [done| |done]. intros s Hs. by apply (kmatch_snoc t). }
    all: unfold scan_find; f_equal; erewrite (scan_ext_cells t); [done|]; intros p v Hv;
      assert (t.[p] = v) as <- by (unfold cell; by rewrite Hv); apply (kmatch_snoc t); [done|];
      destruct I as [I _]; apply (ix_used I); unfold cell; rewrite Hv; eauto.
  - destruct (decide (y = x)) as [->|Hn].
    + pose proof (kfind_at hash hash_bound _ _ x I') as Ha.
      specialize (Ha (proj2 (kfind_nonneg hash hash_bound _ _ x I') ltac:(apply elem_of_app; right; by left))).
      apply at_Some in Ha as [H0 Ha]. apply lookup_app_Some in Ha as [Ha|[Hl Ha]].
      * exfalso. apply Hnin. by eapply list_elem_of_lookup_2.
      * apply list_lookup_singleton_Some in Ha as [Ha _]. lia.
    + set (r := scan_find _ _ _ _). assert (~ 0 <= r).
      { intros Hr. apply (kfind_nonneg hash hash_bound _ _ y I') in Hr. apply elem_of_app in Hr as [|Hr]; [done|].
        by apply list_elem_of_singleton in Hr. }
      unfold r, scan_find in *. destruct (scan _ _ _ _) as [p i|p|] eqn:E; [|done..].
      apply (kscan_found hash hash_bound) in E; [|done]. apply at_lt in E. lia.
Qed.
End First.

(** ** Objects *)

Record obj_ix {A} (o : jobject A) : Prop := {
  ox_pow2 : Pow2 (kh_size o);
  ox_cap : 8 <= capacity o <= 2 ^ 29;
  ox_count : count o <= capacity o;
  ox_load : 2 * capacity o <= kh_size o;
  ox_index : kfirst (sz:=kh_size o) (kh_slot (kh_mask o)) (kh o) (fst <$> pairs o) }.

Section Ix.
Context {A : Type}.
Implicit Types (o : jobject A) (k : string) (v : A).

(** A lookup finds the first pair with the key. *)
Lemma obj_find_first o k : obj_ix o -> obj_kh_find o k = first_of (fst <$> pairs o) k.
Proof.
  intros [P _ _ _ [_ F]]. unfold obj_kh_find, scan_find. rewrite (scan_ext _ _ _ _ (pair_match_kmatch (pairs o) k)). apply F.
Qed.

Lemma kh_insert_first o (n : nat) p :
  Pow2 (kh_size o) -> pairs o !! n = Some p -> Z.of_nat n < kh_size o ->
  kfirst (sz:=kh_size o) (kh_slot (kh_mask o)) (kh o) (take n (fst <$> pairs o)) ->
  exists t', obj_kh_insert o (Z.of_nat n) = JObject (pairs o) (capacity o) t' (kh_mask o) /\
    kfirst (sz:=kh_size o) (kh_slot (kh_mask o)) t' (take (S n) (fst <$> pairs o)).
Proof.
  intros P Hn Hlt I. destruct p as [k v]. unfold obj_kh_insert. rewrite at_of_nat, Hn.
  eexists. split; [done|]. assert (n < length (pairs o))%nat by by eapply lookup_lt_Some.
  pose proof (kfirst_insert (kh_slot (kh_mask o)) (kh_slot_bound _ P) _ _ k I) as I2.
  rewrite length_take, length_fmap, Nat.min_l in I2 by lia.
  destruct P as (j & Hj & Ej). assert (2 ^ j <= 2 ^ 31) by (apply Z.pow_le_mono_r; lia).
  unfold kh_size in *. rewrite i32_small by lia.
  rewrite (take_S_r _ _ k) by (rewrite list_lookup_fmap, Hn; done). by apply I2.
Qed.

Lemma obj_kh_rebuild_first o :
  count o <= capacity o -> 8 <= capacity o <= 2 ^ 29 ->
  obj_ix (obj_kh_rebuild o) /\ pairs (obj_kh_rebuild o) = pairs o /\ capacity (obj_kh_rebuild o) = capacity o.
Proof.
  intros Hc Hcap. unfold obj_kh_rebuild, obj_kh_alloc.
  destruct (Z.ltb_spec (capacity o * 2) 16) as [|_]; [lia|].
  destruct (json_pow2_ok (capacity o * 2)) as (P & Hle & _); [change (2 ^ 30) with (2 ^ 29 * 2); lia|].
  set (mask := json_pow2 (capacity o * 2) - 1).
  assert (mask + 1 = json_pow2 (capacity o * 2)) as Em by (unfold mask; lia). rewrite <- Em in P, Hle.
  assert (exists t', for_range (count o) obj_kh_insert (JObject (pairs o) (capacity o) ∅ mask)
            = JObject (pairs o) (capacity o) t' mask /\
            kfirst (sz:=mask + 1) (kh_slot mask) t' (take (Z.to_nat (count o)) (fst <$> pairs o)))
    as (t' & -> & I).
  { apply (for_range_ind (fun i s => exists t', s = JObject (pairs o) (capacity o) t' mask /\
            kfirst (sz:=mask + 1) (kh_slot mask) t' (take (Z.to_nat i) (fst <$> pairs o)))).
    - unfold count. lia.
    - exists ∅. split; [done|]. apply kfirst_empty. by apply kh_slot_bound.
    - intros i s Hi (t' & -> & I). destruct (at_is_Some (pairs o) i Hi) as [p Hp].
      apply at_Some in Hp as [_ Hp].
      destruct (kh_insert_first (JObject (pairs o) (capacity o) t' mask) (Z.to_nat i) p P Hp) as (t2 & E2 & I2).
      + unfold kh_size. cbn. lia.
      + done.
      + exists t2. rewrite Z2Nat.id in E2 by lia. split; [done|].
        replace (Z.to_nat (i + 1)) with (S (Z.to_nat i)) by lia. done. }
  rewrite take_ge in I by (rewrite length_fmap; unfold count; lia).
  split_and!; [split|done..]; unfold kh_size, count in *; cbn in *; try done; lia.
Qed.

(** Room for one more pair. *)
Lemma grow_ix o : obj_ix o -> count o < 2 ^ 28 ->
  let o1 := if capacity o <=? count o then obj_kh_rebuild (JObject (pairs o) (capacity o * 2) (kh o) (kh_mask o)) else o in
  obj_ix o1 /\ pairs o1 = pairs o /\ count o1 < capacity o1.
Proof.
  intros O Hb. pose proof O as [P Hc1 Hc2 Hl I]. destruct (Z.leb_spec (capacity o) (count o)) as [Hfull|Hroom]; [|done].
  destruct (obj_kh_rebuild_first (JObject (pairs o) (capacity o * 2) (kh o) (kh_mask o))) as (O' & Ep & Ec);
    cbn [capacity]; [unfold count in *; cbn; lia|lia|].
  cbn zeta. split_and!; [done..|]. rewrite Ec. unfold count in *. rewrite Ep. cbn in *. lia.
Qed.

Definition field o k : option A := snd <$> at_ (pairs o) (first_of (fst <$> pairs o) k).

Lemma first_of_at ks k : 0 <= first_of ks k -> at_ ks (first_of ks k) = Some k.
Proof.
  unfold first_of. destruct (list_find _ ks) as [[i y]|] eqn:E; [|lia]. intros _.
  apply list_find_Some in E as (Hi & -> & _). by rewrite at_of_nat.
Qed.

Lemma first_of_neg ks k : ~ 0 <= first_of ks k -> k ∉ ks.
Proof.
  unfold first_of. destruct (list_find _ ks) as [[i y]|] eqn:E; [lia|]. intros _ Hin.
  apply list_find_None in E. by eapply list.Forall_forall in E.
Qed.

Lemma obj_set_ix o k v : obj_ix o -> count o < 2 ^ 28 ->
  obj_ix (obj_set o k v) /\ count (obj_set o k v) <= count o + 1 /\
  forall k', field (obj_set o k v) k' = if decide (k' = k) then Some v else field o k'.
Proof.
  intros O Hb. unfold obj_set. rewrite (obj_find_first o k O). destruct (Z.leb_spec 0 (first_of (fst <$> pairs o) k)) as [H0|Hneg].
  - pose proof (first_of_at _ _ H0) as Ha. set (pi := first_of _ k) in *. rewrite at_fmap in Ha.
    destruct (at_ (pairs o) pi) as [[k0 v0]|] eqn:Ep; [|done]. cbn in Ha. simplify_eq.
    assert (fst <$> upd_at (fun p => (p.1, v)) pi (pairs o) = fst <$> pairs o) as Ek by (by apply fmap_upd_at).
    pose proof O as [P Hc1 Hc2 Hl I]. split_and!.
    + split; cbn; rewrite ?Ek; try done. unfold count. cbn. by rewrite length_upd_at.
    + unfold count. cbn. rewrite length_upd_at. lia.
    + intros k'. unfold field. cbn [pairs]. rewrite Ek. destruct (decide (k' = k)) as [->|Hn].
      * fold pi. by rewrite (at_upd_eq _ _ _ _ Ep).
      * destruct (decide (first_of (fst <$> pairs o) k' = pi)) as [E|E]; [|by rewrite at_upd_ne by congruence].
        exfalso. apply Hn. assert (at_ (fst <$> pairs o) pi = Some k') as H1 by (rewrite <- E; apply first_of_at; lia).
        rewrite at_fmap, Ep in H1. cbn in H1. congruence.
  - assert (k ∉ (fst <$> pairs o)) as Hnin by (apply first_of_neg; lia).
    destruct (grow_ix o O Hb) as (O1 & Ep & Hlt). set (o1 := if _ <=? _ then _ else _) in *. cbn zeta.
    pose proof O1 as [P Hc1 Hc2 Hl I]. set (o2 := JObject _ _ _ _). assert (count o2 = count o1 + 1) as Ec.
    { unfold count, o2. cbn. rewrite length_app. cbn. lia. }
    destruct (Z.ltb_spec (kh_mask o2 + 1) (count o2 * 2)) as [Hx|_]; [unfold kh_size in *; cbn in Hx; lia|].
    destruct (kh_insert_first o2 (length (pairs o1)) (k, v)) as (t' & E1 & I').
    + exact P.
    + apply list_lookup_middle. done.
    + unfold count, kh_size, o2 in *. cbn. lia.
    + cbn. rewrite fmap_app. rewrite take_app_le by (rewrite length_fmap; lia).
      rewrite take_ge by (rewrite length_fmap; lia). exact I.
    + change (count o1) with (Z.of_nat (length (pairs o1))). rewrite E1. rewrite take_ge in I'
        by (unfold o2; cbn; rewrite length_fmap, length_app; cbn; lia).
      split_and!.
      * split; [exact P|exact Hc1|change (count o2 <= capacity o1); lia|exact Hl|exact I'].
      * change (count o2 <= count o + 1). unfold count in *. rewrite Ep in *. lia.
      * intros k'. unfold field. cbn [pairs o2]. rewrite Ep, fmap_app. cbn. rewrite first_of_snoc, length_fmap.
        destruct (decide (k' = k)) as [->|Hn].
        -- rewrite decide_False by done. by rewrite at_snoc.
        -- destruct (decide (k' ∈ fst <$> pairs o)) as [Hin|Hnin'].
           ++ assert (0 <= first_of (fst <$> pairs o) k') as H1.
              { unfold first_of. destruct (list_find _ _) as [[]|] eqn:E; [lia|]. apply list_find_None in E.
                by eapply list.Forall_forall in E. }
              pose proof (first_of_at _ _ H1) as H2. rewrite at_fmap in H2. destruct (at_ (pairs o) _) eqn:E2; [|done].
              apply at_lt in E2 as E3. by rewrite at_app_l, E2 by lia.
           ++ symmetry. assert (first_of (fst <$> pairs o) k' = -1) as ->; [|done].
              unfold first_of. destruct (list_find _ _) as [[]|] eqn:E; [|done]. apply list_find_Some in E as (E & -> & _).
              exfalso. apply Hnin'. by eapply list_elem_of_lookup_2.
Qed.
End Ix.

Lemma get_ix o k : obj_ix o -> miku_json_get (Some (JObj o)) (Some k) = field o k.
Proof.
  intros O. cbn. rewrite (obj_find_first o k O). unfold field. destruct (Z.leb_spec 0 (first_of (fst <$> pairs o) k)) as [|Hn]; [done|].
  rewrite pairs_find_None by (apply first_of_neg; lia). unfold at_. by destruct (Z.ltb_spec (first_of (fst <$> pairs o) k) 0); [|lia].
Qed.

(** ** The parser *)

Lemma empty_object_ix : obj_ix (empty_object (A:=json)).
Proof.
  assert (Pow2 (kh_size (empty_object (A:=json)))) as P by (by exists 4).
  split; [done..|]. apply kfirst_empty. by apply kh_slot_bound.
Qed.

Lemma parse_members_ix f : forall o p v r,
  parse_members f o p = Parsed v r -> roomy o -> count o + tlen p < 2 ^ 27 ->
  exists o', v = JObj o' /\ obj_ix o' /\ count o' <= count o + tlen p.
Proof.
  unfold tlen. induction f as [|f IH]; intros o p v r; cbn [parse_members]; [done|].
  destruct (decode_string p) as [| |k p1] eqn:Ed; [done..|]. apply decode_string_consumed, consumed_length in Ed.
  destruct (next p1) as [c p2] eqn:E2. apply next_suffix in E2 as [Hs2%suffix_length _].
  destruct (negb _); [done|]. destruct (parse_value f p2) as [| |x p3] eqn:Ev; [done..|].
  apply parse_consumed, consumed_length in Ev. destruct (peek p3) as [c2 p4] eqn:E4. apply peek_suffix in E4 as [Hs4%suffix_length _].
  pose proof (suffix_length _ _ (next_snd_suffix p4)) as Hs5. intros H Ro Hb.
  pose proof (obj_append_roomy o k x Ro) as R'. assert (count (obj_append o k x) = count o + 1) as Ec.
  { unfold count, obj_append. cbn. rewrite length_app. cbn. lia. }
  destruct (Ascii.eqb c2 ","); [|destruct (Ascii.eqb c2 "}"); [|done]].
  - destruct (IH _ _ _ _ H R') as (o' & -> & O' & Hc); [lia|]. exists o'. split_and!; [done..|lia].
  - simplify_eq. destruct R' as [R1 R2].
    destruct (obj_kh_rebuild_first (obj_append o k x) R1) as (O' & Ep & _); [change (2 ^ 29) with (4 * 2 ^ 27); lia|].
    eexists. split_and!; [done..|]. unfold count in *. rewrite Ep. lia.
Qed.

(** A parsed object has a complete index and at most one pair per character. *)
Lemma parse_object_ix t o : miku_json_parse (Some t) = Some (JObj o) -> tlen t < 2 ^ 27 -> obj_ix o /\ count o <= tlen t.
Proof.
  unfold miku_json_parse, tlen. destruct (parse_value (parse_fuel t) t) as [| |v r] eqn:E; [done..|]. intros [= ->] Hb.
  destruct (parse_fuel t) as [|f]; [done|]. destruct (peek t) as [c p] eqn:Ep. pose proof (peek_suffix _ _ _ Ep) as [Hs%suffix_length Hc].
  revert E. destruct (parse_value_dispatch f t c p Ep) as [p|p|p|c n v' p Hn Hnul Hw|c p Hd|c p]; intros Eq.
  - by destruct (decode_string p).
  - destruct (next p) as [c1 p2] eqn:E2. apply next_suffix in E2 as [Hs2%suffix_length _].
    destruct (peek p2) as [c2 p3] eqn:E3. apply peek_suffix in E3 as [Hs3%suffix_length _].
    destruct (Ascii.eqb c2 "}").
    + simplify_eq. split; [apply empty_object_ix|]. change (count empty_object) with 0. lia.
    + destruct (parse_members_ix _ _ _ _ _ Eq) as (o' & Eo & O' & Hl); [done|unfold tlen; change (count empty_object) with 0; lia|].
      simplify_eq. split; [done|]. unfold tlen in Hl. change (count empty_object) with 0 in Hl. lia.
  - exfalso. destruct (next p) as [c1 p2]. destruct (peek p2) as [c2 p3]. destruct (Ascii.eqb c2 "]"); [by simplify_eq|].
    revert Eq. generalize (@nil json) as l. clear. revert p3. induction f as [|f IH]; intros p l; cbn [parse_items]; [done|].
    destruct (parse_value f p) as [| |x p1]; [done..|]. destruct (peek p1) as [c p2].
    destruct (Ascii.eqb c ","); [apply IH|]. by destruct (Ascii.eqb c "]").
  - simplify_eq. naive_solver.
  - unfold parse_number in Eq. destruct (number_text p) as [[? fl] ?]. by destruct fl.
  - done.
Qed.
