(* ===== verification/Models.v ===== *)
(** * Domain records and conversation identifiers (models/miku_models.c)

    The records as the C structs have them (a char array is the C string it
    holds; its size appears as the length of the copy), their JSON forms, and
    the conversation identifiers: [miku_conversation_id_resolve] names the
    conversation of a message and [miku_conversation_si_peer] recovers the
    other party of a single chat from its name. *)
From Stdlib Require Import Ascii String.
From S2P Require Import Prelude Hash ProbeIndex KeyedMap Json JsonText.
#[local] Open Scope char_scope.
#[local] Open Scope string_scope.
#[local] Open Scope Z_scope.

Record miku_user := User {
  u_user_id : string; u_nickname : string; u_face_url : string; u_gender : Z;
  u_phone_number : string; u_email : string; u_birth : Z; u_ex : string;
  u_create_time : Z; u_update_time : Z; u_app_mgr_level : Z; u_global_recv_msg_opt : Z }.

Record miku_friend := Friend {
  f_owner_user_id : string; f_friend_user_id : string; f_remark : string;
  f_add_source : Z; f_ex : string; f_create_time : Z }.

Record miku_group := Group {
  g_group_id : string; g_group_name : string; g_face_url : string; g_owner_user_id : string;
  g_group_type : Z; g_member_count : Z; g_status : Z; g_ex : string; g_create_time : Z }.

Record miku_group_member := Member {
  m_group_id : string; m_user_id : string; m_role_level : Z; m_join_source : Z;
  m_operator_id : string; m_join_time : Z; m_ex : string }.

Record miku_msg := Msg {
  server_msg_id : string; client_msg_id : string; send_id : string; recv_id : string;
  msg_group_id : string; msg_conversation_id : string; session_type : Z; msg_type : Z;
  content : string; seq : Z; send_time : Z; msg_create_time : Z; status : Z; is_read : Z;
  msg_ex : string }.

Record miku_conversation := Conversation {
  c_conversation_id : string; c_owner_user_id : string; c_conversation_type : Z;
  c_user_id : string; c_group_id : string; c_recv_msg_opt : Z; c_unread_count : Z;
  c_latest_msg_send_time : Z; c_latest_msg_content : string; c_draft_text_time : Z;
  c_draft_text : string; c_ex : string; c_is_pinned : Z; c_is_private_chat : Z;
  c_burn_duration : Z; c_is_not_in_group : Z; c_update_time : Z }.

(** [json_str(j, key, out, n + 1)]: what the buffer holds. *)
Definition json_str (j : json) (key : string) (n : nat) : string :=
  match miku_json_get (Some j) (Some key) with
  | Some (JStr s) => strn n s
  | _ => ""
  end.

Definition json_int (j : json) (key : string) : Z :=
  match miku_json_get (Some j) (Some key) with
  | Some v => miku_json_int (Some v)
  | None => 0
  end.

Definition set_str (key val : string) (obj : json) : json :=
  if nonempty val then jset obj key (miku_json_create_str (Some val)) else obj.

Definition set_int (key : string) (val : Z) (obj : json) : json := jset obj key (miku_json_create_int val).

#[local] Notation "x |> f" := (f x) (at level 50, left associativity, only parsing).

Definition miku_user_to_json (u : option miku_user) : json :=
  match u with
  | None => miku_json_create_object
  | Some u =>
      miku_json_create_object
      |> set_str "userID" (u_user_id u)
      |> set_str "nickname" (u_nickname u)
      |> set_str "faceURL" (u_face_url u)
      |> set_int "gender" (u_gender u)
      |> set_str "phoneNumber" (u_phone_number u)
      |> set_str "email" (u_email u)
      |> set_int "birth" (u_birth u)
      |> set_str "ex" (u_ex u)
      |> set_int "createTime" (u_create_time u)
      |> set_int "updateTime" (u_update_time u)
      |> set_int "appMgmtLevel" (u_app_mgr_level u)
      |> set_int "globalRecvMsgOpt" (u_global_recv_msg_opt u)
  end.

Definition miku_user_from_json (j : option json) : option miku_user :=
  match j with
  | None => None
  | Some j => Some
      {| u_user_id := json_str j "userID" 63;
         u_nickname := json_str j "nickname" 63;
         u_face_url := json_str j "faceURL" 255;
         u_gender := i32 (json_int j "gender");
         u_phone_number := json_str j "phoneNumber" 19;
         u_email := json_str j "email" 63;
         u_birth := json_int j "birth";
         u_ex := json_str j "ex" 1023;
         u_create_time := json_int j "createTime";
         u_update_time := json_int j "updateTime";
         u_app_mgr_level := i32 (json_int j "appMgmtLevel");
         u_global_recv_msg_opt := i32 (json_int j "globalRecvMsgOpt") |}
  end.

Definition miku_msg_to_json (m : option miku_msg) : json :=
  match m with
  | None => miku_json_create_object
  | Some m =>
      miku_json_create_object
      |> set_str "serverMsgID" (server_msg_id m)
      |> set_str "clientMsgID" (client_msg_id m)
      |> set_str "sendID" (send_id m)
      |> set_str "recvID" (recv_id m)
      |> set_str "groupID" (msg_group_id m)
      |> set_str "conversationID" (msg_conversation_id m)
      |> set_int "sessionType" (session_type m)
      |> set_int "contentType" (msg_type m)
      |> set_str "content" (content m)
      |> set_int "seq" (seq m)
      |> set_int "sendTime" (send_time m)
      |> set_int "createTime" (msg_create_time m)
      |> set_int "status" (status m)
      |> set_int "isRead" (is_read m)
      |> set_str "ex" (msg_ex m)
  end.

(** The enum has no negative enumerator: its type is [unsigned int]. *)
Definition miku_msg_from_json (j : option json) : option miku_msg :=
  match j with
  | None => None
  | Some j => Some
      {| server_msg_id := json_str j "serverMsgID" 63;
         client_msg_id := json_str j "clientMsgID" 63;
         send_id := json_str j "sendID" 63;
         recv_id := json_str j "recvID" 63;
         msg_group_id := json_str j "groupID" 63;
         msg_conversation_id := json_str j "conversationID" 127;
         session_type := i32 (json_int j "sessionType");
         msg_type := (let t := u32 (json_int j "contentType") in
                      if t =? 0 then u32 (json_int j "msgType") else t);
         content := json_str j "content" 1023;
         seq := json_int j "seq";
         send_time := json_int j "sendTime";
         msg_create_time := json_int j "createTime";
         status := i32 (json_int j "status");
         is_read := i32 (json_int j "isRead");
         msg_ex := json_str j "ex" 1023 |}
  end.

Definition miku_conversation_to_json (c : option miku_conversation) : json :=
  match c with
  | None => miku_json_create_object
  | Some c =>
      miku_json_create_object
      |> set_str "conversationID" (c_conversation_id c)
      |> set_str "ownerUserID" (c_owner_user_id c)
      |> set_int "conversationType" (c_conversation_type c)
      |> set_str "userID" (c_user_id c)
      |> set_str "groupID" (c_group_id c)
      |> set_int "recvMsgOpt" (c_recv_msg_opt c)
      |> set_int "unreadCount" (c_unread_count c)
      |> set_int "latestMsgSendTime" (c_latest_msg_send_time c)
      |> set_str "latestMsgContent" (c_latest_msg_content c)
      |> set_int "draftTextTime" (c_draft_text_time c)
      |> set_str "draftText" (c_draft_text c)
      |> set_str "ex" (c_ex c)
      |> set_int "isPinned" (c_is_pinned c)
      |> set_int "isPrivateChat" (c_is_private_chat c)
      |> set_int "burnDuration" (c_burn_duration c)
      |> set_int "isNotInGroup" (c_is_not_in_group c)
      |> set_int "updateTime" (c_update_time c)
  end.

Definition miku_conversation_from_json (j : option json) : option miku_conversation :=
  match j with
  | None => None
  | Some j => Some
      {| c_conversation_id := json_str j "conversationID" 127;
         c_owner_user_id := json_str j "ownerUserID" 63;
         c_conversation_type := i32 (json_int j "conversationType");
         c_user_id := json_str j "userID" 63;
         c_group_id := json_str j "groupID" 63;
         c_recv_msg_opt := json_int j "recvMsgOpt";
         c_unread_count := i32 (json_int j "unreadCount");
         c_latest_msg_send_time := json_int j "latestMsgSendTime";
         c_latest_msg_content := json_str j "latestMsgContent" 1023;
         c_draft_text_time := json_int j "draftTextTime";
         c_draft_text := json_str j "draftText" 1023;
         c_ex := json_str j "ex" 1023;
         c_is_pinned := i32 (json_int j "isPinned");
         c_is_private_chat := i32 (json_int j "isPrivateChat");
         c_burn_duration := i32 (json_int j "burnDuration");
         c_is_not_in_group := i32 (json_int j "isNotInGroup");
         c_update_time := json_int j "updateTime" |}
  end.

Definition miku_group_to_json (g : option miku_group) : json :=
  match g with
  | None => miku_json_create_object
  | Some g =>
      miku_json_create_object
      |> set_str "groupID" (g_group_id g)
      |> set_str "groupName" (g_group_name g)
      |> set_str "faceURL" (g_face_url g)
      |> set_str "ownerUserID" (g_owner_user_id g)
      |> set_int "groupType" (g_group_type g)
      |> set_int "memberCount" (g_member_count g)
      |> set_int "status" (g_status g)
      |> set_str "ex" (g_ex g)
      |> set_int "createTime" (g_create_time g)
  end.

Definition miku_group_member_to_json (gm : option miku_group_member) : json :=
  match gm with
  | None => miku_json_create_object
  | Some gm =>
      miku_json_create_object
      |> set_str "groupID" (m_group_id gm)
      |> set_str "userID" (m_user_id gm)
      |> set_int "roleLevel" (m_role_level gm)
      |> set_int "joinSource" (m_join_source gm)
      |> set_str "operatorID" (m_operator_id gm)
      |> set_int "joinTime" (m_join_time gm)
      |> set_str "ex" (m_ex gm)
  end.

(** ** Conversation identifiers *)

(** [strcmp(a, b) > 0]. *)
Definition strcmp_gt (a b : string) : bool :=
  match String.compare a b with Gt => true | _ => false end.

(** [snprintf("si_%zu_%s_%s", strlen(a), a, b)] without the truncation. *)
Definition si_format (a b : string) : string :=
  "si_" ++ string_of_list_ascii (dec_digits 20 (Z.of_nat (String.length a))) ++ "_" ++ a ++ "_" ++ b.

(** What a buffer of [out_sz] bytes holds afterwards, [out_sz] positive. *)
Definition miku_conversation_id_resolve (out_sz : Z)
    (conversation_id group_id send_id recv_id : option string) : string :=
  let n := Z.to_nat (out_sz - 1) in
  if given conversation_id then strn n (default "" conversation_id)
  else if given group_id then strn n ("sg_" ++ default "" group_id)
  else if given send_id && given recv_id then
    let s := default "" send_id in
    let r := default "" recv_id in
    let '(a, b) := if strcmp_gt s r then (r, s) else (s, r) in
    strn n (si_format a b)
  else if given recv_id then strn n (default "" recv_id)
  else if given send_id then strn n (default "" send_id)
  else strn n "default".

Definition ULONG_MAX : Z := 18446744073709551615.

Definition has_char (t : text) (i : nat) (c : ascii) : bool := bool_decide (t !! i = Some c).

(** The two parties of [<len>_<a>_<b>], the text after "si_". *)
Definition si_parts (p : text) : option (text * text) :=
  let '(ds, end_) := span_digits p in
  let alen := Z.min ULONG_MAX (digits_val ds) in
  if negb (has_char end_ 0 "_") || (alen =? 0) || (64 <=? alen) then None
  else
    let a := drop 1 end_ in
    let n := Z.to_nat alen in
    if (Z.of_nat (length a) <=? alen) || negb (has_char a n "_") then None
    else let b := drop (S n) a in
         if nil_b b then None else Some (take n a, b).

(** The peer, or [None] for the status -1. *)
Definition miku_conversation_si_peer (conv self : option string) (peer_sz : Z) : option string :=
  match conv, self with
  | Some conv, Some self =>
      if negb (nonempty self) || (peer_sz <=? 0) || negb (starts_with (str "si_") (str conv)) then None
      else
        let p := drop 3 (str conv) in
        let me := str self in
        let n := Z.to_nat (peer_sz - 1) in
        if match p with c :: _ => (49 <=? code c) && (code c <=? 57) | [] => false end then
          match si_parts p with
          | None => None
          | Some (a, b) =>
              if bool_decide (a = me) then Some (strn n (string_of_list_ascii b))
              else if bool_decide (b = me) then
                if peer_sz <=? Z.of_nat (length a) then None else Some (string_of_list_ascii a)
              else None
          end
        else
          let slen := length me in
          let rlen := length p in
          if (slen + 1 <? rlen)%nat && starts_with me p && has_char p slen "_" then
            let peer := strn n (string_of_list_ascii (drop (slen + 1) p)) in
            if nonempty peer then Some peer else None
          else if (slen + 1 <? rlen)%nat && has_char p (rlen - slen - 1) "_" &&
                  bool_decide (drop (rlen - slen) p = me) then
            let plen := (rlen - slen - 1)%nat in
            if peer_sz <=? Z.of_nat plen then None else Some (string_of_list_ascii (take plen p))
          else None
  | _, _ => None
  end.

(** ** Field ranges *)

(** Strings that fit their buffers and integers of the width of their field. *)
Definition fits (n : nat) (s : string) : Prop := (String.length s <= n)%nat.
Definition int32 (z : Z) : Prop := -2147483648 <= z < 2147483648.

Record user_fits (u : miku_user) : Prop := {
  uf_id : fits 63 (u_user_id u); uf_nick : fits 63 (u_nickname u); uf_face : fits 255 (u_face_url u);
  uf_phone : fits 19 (u_phone_number u); uf_email : fits 63 (u_email u); uf_ex : fits 1023 (u_ex u);
  uf_gender : int32 (u_gender u); uf_level : int32 (u_app_mgr_level u);
  uf_opt : int32 (u_global_recv_msg_opt u) }.

Record msg_fits (m : miku_msg) : Prop := {
  mf_sid : fits 63 (server_msg_id m); mf_cid : fits 63 (client_msg_id m); mf_send : fits 63 (send_id m);
  mf_recv : fits 63 (recv_id m); mf_group : fits 63 (msg_group_id m); mf_conv : fits 127 (msg_conversation_id m);
  mf_content : fits 1023 (content m); mf_ex : fits 1023 (msg_ex m);
  mf_session : int32 (session_type m); mf_type : 0 <= msg_type m < 4294967296;
  mf_status : int32 (status m); mf_read : int32 (is_read m) }.

Record conv_fits (c : miku_conversation) : Prop := {
  cf_id : fits 127 (c_conversation_id c); cf_owner : fits 63 (c_owner_user_id c);
  cf_user : fits 63 (c_user_id c); cf_group : fits 63 (c_group_id c);
  cf_latest : fits 1023 (c_latest_msg_content c); cf_draft : fits 1023 (c_draft_text c);
  cf_ex : fits 1023 (c_ex c); cf_type : int32 (c_conversation_type c);
  cf_unread : int32 (c_unread_count c); cf_pinned : int32 (c_is_pinned c);
  cf_private : int32 (c_is_private_chat c); cf_burn : int32 (c_burn_duration c);
  cf_ning : int32 (c_is_not_in_group c) }.

(** ** Proofs: JSON forms *)

Definition put_str (k s : string) (m : gmap string json) : gmap string json :=
  if nonempty s then <[k := JStr s]> m else m.

(** [obj_is] with a bound on the number of keys. *)
Definition obj_upto (n : nat) (v : json) (m : gmap string json) : Prop :=
  obj_is v m /\ (size m <= n)%nat /\ (n <= 1000)%nat.

Lemma upto_new : obj_upto 0 miku_json_create_object ∅.
Proof. split_and!; [apply obj_is_new|done|lia]. Qed.

Lemma upto_set n v m k x : obj_upto n v m -> (n < 1000)%nat -> obj_upto (S n) (jset v k x) (<[k:=x]> m).
Proof.
  intros (H & Hs & Hn) Hlt. split_and!; [|pose proof (size_insert_le m k x); lia|lia].
  apply obj_is_set; [done|]. lia.
Qed.

Lemma upto_get n v m k : obj_upto n v m -> miku_json_get (Some v) (Some k) = m !! k.
Proof. intros [H _]. by apply obj_is_get. Qed.

Lemma upto_set_int n v m k x :
  obj_upto n v m -> (n < 1000)%nat -> obj_upto (S n) (set_int k x v) (<[k:=JInt x]> m).
Proof. apply upto_set. Qed.

Lemma upto_set_str n v m k s :
  obj_upto n v m -> (n < 1000)%nat -> obj_upto (S n) (set_str k s v) (put_str k s m).
Proof.
  intros H Hlt. unfold set_str, put_str. destruct (nonempty s); [by apply upto_set|].
  destruct H as (? & ? & ?). split_and!; [done|lia|lia].
Qed.

Lemma put_str_ne k k' s m : k <> k' -> put_str k s m !! k' = m !! k'.
Proof. intros H. unfold put_str. destruct (nonempty s); [|done]. by rewrite lookup_insert_ne. Qed.

Lemma nonempty_false s : nonempty s = false -> s = "".
Proof. unfold nonempty. intros H. apply negb_false_iff in H. by apply streq_eq. Qed.

Lemma json_str_put v m k s n :
  obj_is v m -> fits n s -> (m !! k = put_str k s ∅ !! k) -> json_str v k n = s.
Proof.
  intros H Hf E. unfold json_str. rewrite (obj_is_get _ _ _ H), E. unfold put_str.
  destruct (nonempty s) eqn:Es.
  - rewrite lookup_insert_eq. by apply strn_short.
  - rewrite lookup_empty. symmetry. by apply nonempty_false.
Qed.

Lemma json_int_put v m k x : obj_is v m -> m !! k = Some (JInt x) -> json_int v k = x.
Proof. intros H E. unfold json_int. by rewrite (obj_is_get _ _ _ H), E. Qed.

Lemma json_int_none v m k : obj_is v m -> m !! k = None -> json_int v k = 0.
Proof. intros H E. unfold json_int. by rewrite (obj_is_get _ _ _ H), E. Qed.

Lemma put_str_eq k s m : m !! k = None -> put_str k s m !! k = put_str k s ∅ !! k.
Proof.
  intros H. unfold put_str. destruct (nonempty s); [by rewrite !lookup_insert_eq|]. by rewrite lookup_empty.
Qed.

(** The contents of an object built field by field. *)
Ltac build_obj :=
  lazymatch goal with
  | |- obj_upto _ (set_str _ _ _) _ => apply upto_set_str; [build_obj|lia]
  | |- obj_upto _ (set_int _ _ _) _ => apply upto_set_int; [build_obj|lia]
  | |- _ => apply upto_new
  end.

(** Look a field up in such contents. *)
Ltac look :=
  repeat first [ rewrite lookup_insert_eq | rewrite lookup_insert_ne by done | rewrite put_str_ne by done
               | rewrite put_str_eq | rewrite lookup_empty ]; try done.

(** A string field, an integer field. *)
Ltac field H :=
  first [ apply (json_str_put _ _ _ _ _ H); [assumption|look]
        | apply (json_int_put _ _ _ _ H); look
        | rewrite (json_int_put _ _ _ _ H) by look; by apply i32_small ].

Lemma user_json_ok u : user_fits u -> miku_user_from_json (Some (miku_user_to_json (Some u))) = Some u.
Proof.
  intros [? ? ? ? ? ? ? ? ?]. destruct u as [a b c d e f g h i j k l]. cbn in * |-.
  set (v := miku_user_to_json _). eassert (obj_upto 12 v _) as [H _].
  { unfold v, miku_user_to_json. cbn [u_user_id u_nickname u_face_url u_gender u_phone_number u_email
      u_birth u_ex u_create_time u_update_time u_app_mgr_level u_global_recv_msg_opt]. build_obj. }
  unfold miku_user_from_json. f_equal. f_equal; field H.
Qed.

Lemma conv_json_ok c :
  conv_fits c -> miku_conversation_from_json (Some (miku_conversation_to_json (Some c))) = Some c.
Proof.
  intros [? ? ? ? ? ? ? ? ? ? ? ? ?]. destruct c as [a b c d e f g h i j k l m n o p q]. cbn in * |-.
  set (v := miku_conversation_to_json _). eassert (obj_upto 17 v _) as [H _].
  { unfold v, miku_conversation_to_json. build_obj. }
  unfold miku_conversation_from_json. f_equal. f_equal; field H.
Qed.

Lemma msg_json_ok m : msg_fits m -> miku_msg_from_json (Some (miku_msg_to_json (Some m))) = Some m.
Proof.
  intros [? ? ? ? ? ? ? ? ? ? ? ?]. destruct m as [a b c d e f g h i j k l m n o]. cbn in * |-.
  set (v := miku_msg_to_json _). eassert (obj_upto 15 v _) as [H _].
  { unfold v, miku_msg_to_json. build_obj. }
  unfold miku_msg_from_json. f_equal. f_equal; try field H.
  rewrite (json_int_put _ _ "contentType" h H) by look. rewrite uwrap_small by done.
  rewrite (json_int_none _ _ "msgType" H) by look. destruct (Z.eqb_spec h 0) as [->|]; done.
Qed.

(** Messages, users and conversations survive their JSON form: reading
    back the object that [*_to_json] built gives the same record, when its
    strings fit the fields they are stored in (empty strings are omitted from
    the object and come back empty). *)
Theorem models_json_roundtrip m u c :
  msg_fits m -> user_fits u -> conv_fits c ->
  miku_msg_from_json (Some (miku_msg_to_json (Some m))) = Some m /\
  miku_user_from_json (Some (miku_user_to_json (Some u))) = Some u /\
  miku_conversation_from_json (Some (miku_conversation_to_json (Some c))) = Some c.
Proof. intros Hm Hu Hc. split_and!; [by apply msg_json_ok|by apply user_json_ok|by apply conv_json_ok]. Qed.

Definition ex_msg : miku_msg := Msg "s1" "c1" "alice" "bob" "" "si_5_alice_bob" 1 101 "hi" 7 1000 1000 1 0 "".
Definition ex_user : miku_user := User "alice" "Al" "" 2 "" "" 0 "{}" 5 6 0 1.
Definition ex_conv : miku_conversation := Conversation "sg_g1" "alice" 2 "" "g1" 1 3 9 "hi" 0 "" "" 1 0 0 0 9.

Lemma models_json_roundtrip_witness :
  miku_msg_from_json (Some (miku_msg_to_json (Some ex_msg))) = Some ex_msg /\
  miku_user_from_json (Some (miku_user_to_json (Some ex_user))) = Some ex_user /\
  miku_conversation_from_json (Some (miku_conversation_to_json (Some ex_conv))) = Some ex_conv.
Proof.
  apply models_json_roundtrip; split; unfold fits, int32; cbn; lia.
Defined.

(** ** Proofs: conversation identifiers *)

Lemma str_app a b : str (a ++ b)%string = (str a ++ str b)%list.
Proof. unfold str. induction a as [|c a IH]; [done|]. exact (f_equal (cons c) IH). Qed.

Lemma str_length s : length (str s) = String.length s.
Proof. unfold str. induction s as [|c s IH]; cbn; [done|]. by rewrite IH. Qed.

Lemma str_inj a b : str a = str b -> a = b.
Proof.
  intros H. rewrite <- (string_of_list_ascii_of_string a), <- (string_of_list_ascii_of_string b).
  by f_equal.
Qed.

Lemma of_str s : string_of_list_ascii (str s) = s.
Proof. apply string_of_list_ascii_of_string. Qed.

Lemma str_of t : str (string_of_list_ascii t) = t.
Proof. apply list_ascii_of_string_of_list_ascii. Qed.

Lemma nonempty_length s : nonempty s = true <-> (0 < String.length s)%nat.
Proof. destruct s; cbn; split; try done; lia. Qed.

Definition len_text (a : string) : text := dec_digits 20 (Z.of_nat (String.length a)).

Lemma si_format_text a b :
  str (si_format a b) = (str "si_" ++ len_text a ++ "_"%char :: str a ++ "_"%char :: str b)%list.
Proof. unfold si_format. rewrite !str_app, str_of. done. Qed.

Lemma len_text_ok a : (0 < String.length a < 64)%nat ->
  Forall (fun c => is_digit c = true) (len_text a) /\ digits_val (len_text a) = Z.of_nat (String.length a) /\
  (length (len_text a) <= 2)%nat /\
  exists c t, len_text a = c :: t /\ (49 <=? code c) && (code c <=? 57) = true.
Proof.
  intros H. unfold len_text. set (n := Z.of_nat (String.length a)). assert (n ∈ seqZ 1 63) as Hin.
  { apply elem_of_seqZ. unfold n. lia. }
  destruct (dec_digits_ok 20 n) as (H1 & H2 & _ & _); [unfold n; cbn; lia|].
  assert (forallb (fun n => (length (dec_digits 20 n) <=? 2)%nat &&
            match dec_digits 20 n with c :: _ => (49 <=? code c) && (code c <=? 57) | [] => false end)
            (seqZ 1 63) = true) as F by (vm_compute; reflexivity).
  rewrite forallb_forall in F. specialize (F n (proj1 (list_elem_of_In _ _) Hin)).
  apply andb_true_iff in F as [F1%Nat.leb_le F2]. split_and!; [done..|].
  destruct (dec_digits 20 n) as [|c t]; [done|eauto].
Qed.

(** The parse of the identifier that [si_format] prints. *)
Lemma si_parts_format a b :
  (0 < String.length a < 64)%nat -> (0 < String.length b)%nat ->
  si_parts (len_text a ++ "_"%char :: str a ++ "_"%char :: str b)%list = Some (str a, str b).
Proof.
  intros Ha Hb. destruct (len_text_ok a Ha) as (H1 & H2 & _). unfold si_parts.
  rewrite span_digits_run by done. rewrite H2. unfold ULONG_MAX. rewrite Z.min_r by lia.
  cbn [has_char bool_decide]. unfold has_char. cbn [lookup list_lookup]. rewrite bool_decide_true by done.
  destruct (Z.eqb_spec (Z.of_nat (String.length a)) 0); [lia|].
  destruct (Z.leb_spec 64 (Z.of_nat (String.length a))); [lia|]. cbn [negb orb drop].
  rewrite Nat2Z.id, drop_0, length_app. cbn [length]. rewrite str_length.
  destruct (Z.leb_spec (Z.of_nat (String.length a + S (length (str b)))) (Z.of_nat (String.length a))); [lia|].
  rewrite bool_decide_true by (apply list_lookup_middle; by rewrite str_length). cbn [negb orb].
  rewrite <- (str_length a), take_app_length.
  replace (S (length (str a))) with (length (str a) + 1)%nat by lia. rewrite drop_app_add. cbn [drop].
  destruct (str b) eqn:E; [|done]. rewrite <- str_length, E in Hb. cbn in Hb. lia.
Qed.

Lemma si_peer_format a b self :
  (0 < String.length a < 64)%nat -> (0 < String.length b < 64)%nat -> nonempty self = true ->
  miku_conversation_si_peer (Some (si_format a b)) (Some self) 64 =
  if streq a self then Some b else if streq b self then Some a else None.
Proof.
  intros Ha Hb Hs. unfold miku_conversation_si_peer. rewrite Hs, si_format_text.
  assert (starts_with (str "si_") (str "si_" ++ len_text a ++ "_"%char :: str a ++ "_"%char :: str b)%list = true) as -> by done.
  cbn [negb orb Z.leb Z.compare].
  assert (drop 3 (str "si_" ++ len_text a ++ "_"%char :: str a ++ "_"%char :: str b)%list =
            (len_text a ++ "_"%char :: str a ++ "_"%char :: str b)%list) as -> by done.
  rewrite si_parts_format by lia.
  destruct (len_text_ok a Ha) as (_ & _ & _ & c & t & -> & Hc). cbn [app]. rewrite Hc.
  rewrite !streq_bool, !of_str. rewrite strn_short by (cbn; lia). rewrite str_length.
  destruct (Z.leb_spec 64 (Z.of_nat (String.length a))); [lia|].
  repeat case_bool_decide; try done; exfalso;
    match goal with H : str _ = str _ |- _ => apply str_inj in H | _ => idtac end; congruence.
Qed.

Lemma strcmp_gt_flip a b : a <> b -> strcmp_gt b a = negb (strcmp_gt a b).
Proof.
  intros H. unfold strcmp_gt. rewrite String.compare_antisym.
  destruct (String.compare a b) eqn:E; [|done..]. apply String.compare_eq_iff in E. done.
Qed.

Lemma si_format_length a b : (0 < String.length a < 64)%nat ->
  (String.length (si_format a b) <= 7 + String.length a + String.length b)%nat.
Proof.
  intros Ha. rewrite <- !str_length, si_format_text. destruct (len_text_ok a Ha) as (_ & _ & L & _).
  rewrite !length_app. cbn [length]. rewrite length_app. cbn [length].
  change (length (str "si_")) with 3%nat. lia.
Qed.

(** Two user identifiers whose conversation identifier is not truncated. *)
Definition si_pair (a b : string) : Prop :=
  (0 < String.length a < 64)%nat /\ (0 < String.length b < 64)%nat /\
  (String.length a + String.length b <= 120)%nat.

Lemma resolve_si a b : si_pair a b ->
  miku_conversation_id_resolve 128 None None (Some a) (Some b) =
  if strcmp_gt a b then si_format b a else si_format a b.
Proof.
  intros (Ha & Hb & Hl). unfold miku_conversation_id_resolve. cbn [given default from_option id].
  rewrite (proj2 (nonempty_length a)), (proj2 (nonempty_length b)) by lia. cbn [andb].
  destruct (strcmp_gt a b); apply strn_short; [pose proof (si_format_length b a Hb)|pose proof (si_format_length a b Ha)];
    cbn; lia.
Qed.

Lemma resolve_si_peer a b self : si_pair a b -> nonempty self = true ->
  miku_conversation_si_peer (Some (miku_conversation_id_resolve 128 None None (Some a) (Some b))) (Some self) 64 =
  if streq a self then Some b else if streq b self then Some a else None.
Proof.
  intros P Hs. rewrite resolve_si by done. destruct P as (Ha & Hb & _).
  destruct (strcmp_gt a b); rewrite si_peer_format by done; [|done].
  rewrite !streq_bool. repeat case_bool_decide; subst; done.
Qed.

(** The conversation identifier of a single chat names the pair of users:
    it does not depend on who sends, each party recovers the other one from
    it, nobody else does, and two different pairs never share it, even when
    the user identifiers contain underscores or digits. *)
Theorem si_conversation_names_pair a b c d :
  si_pair a b -> si_pair c d ->
  let id := miku_conversation_id_resolve 128 None None (Some a) (Some b) in
  id = miku_conversation_id_resolve 128 None None (Some b) (Some a) /\
  miku_conversation_si_peer (Some id) (Some a) 64 = Some b /\
  miku_conversation_si_peer (Some id) (Some b) 64 = Some a /\
  (forall self, self <> a -> self <> b -> miku_conversation_si_peer (Some id) (Some self) 64 = None) /\
  (id = miku_conversation_id_resolve 128 None None (Some c) (Some d) ->
   (a = c /\ b = d) \/ (a = d /\ b = c)).
Proof.
  intros P Q id. pose proof P as (Ha & Hb & Hl). pose proof Q as (Hc & Hd & _).
  assert (si_pair b a) as P' by (split_and!; [lia..]).
  assert (nonempty a = true) as Na by (apply nonempty_length; lia).
  assert (nonempty b = true) as Nb by (apply nonempty_length; lia).
  split_and!.
  - unfold id. rewrite !resolve_si by done. destruct (decide (a = b)) as [->|Hne]; [done|].
    rewrite (strcmp_gt_flip a b) by done. by destruct (strcmp_gt a b).
  - unfold id. rewrite resolve_si_peer by done. by rewrite streq_refl.
  - unfold id. rewrite resolve_si_peer by done. rewrite streq_refl.
    destruct (streq a b) eqn:E; [|done]. apply streq_eq in E. by subst.
  - intros self Ea Eb. unfold id. destruct (nonempty self) eqn:Ns.
    + rewrite resolve_si_peer by done. by rewrite !streq_neq by done.
    + cbn. by rewrite Ns.
  - intros E. assert (nonempty c = true) as Nc by (apply nonempty_length; lia).
    pose proof (resolve_si_peer a b c P Nc) as H1. fold id in H1. rewrite E, resolve_si_peer, streq_refl in H1 by done.
    rewrite !streq_bool in H1. repeat case_bool_decide; simplify_eq; auto.
Qed.

Lemma si_conversation_names_pair_witness :
  let id := miku_conversation_id_resolve 128 None None (Some "u_1") (Some "1_u") in
  id = "si_3_1_u_u_1" /\
  miku_conversation_si_peer (Some id) (Some "u_1") 64 = Some "1_u" /\
  id <> miku_conversation_id_resolve 128 None None (Some "u_1_1") (Some "u").
Proof.
  intros id. assert (si_pair "u_1" "1_u") as P by (unfold si_pair; cbn; lia).
  assert (si_pair "u_1_1" "u") as Q by (unfold si_pair; cbn; lia).
  destruct (si_conversation_names_pair "u_1" "1_u" "u_1_1" "u" P Q) as (_ & H1 & _ & _ & H2).
  split_and!; [vm_compute; reflexivity|exact H1|]. intros E. apply H2 in E. destruct E as [[? ?]|[? ?]]; discriminate.
Defined.

Definition uid63 (c : ascii) : string := string_of_list_ascii (replicate 62 "a"%char ++ [c])%list.

(** Users with identifiers of the full 63 characters: the identifier does not
    fit MK_CONV_ID_LEN, is cut, and two different chats get the same one. *)
Theorem si_conversation_collision :
  exists a b b', b <> b' /\ String.length a = 63%nat /\ String.length b = 63%nat /\ String.length b' = 63%nat /\
    miku_conversation_id_resolve 128 None None (Some a) (Some b) =
    miku_conversation_id_resolve 128 None None (Some a) (Some b').
Proof.
  exists (uid63 "a"%char), (uid63 "b"%char), (uid63 "c"%char). split_and!; vm_compute; [discriminate|reflexivity..].
Qed.
