(* ===== verification/OwnedTable.v ===== *)
(** * Tables of records keyed by (owner, other)

    The friend list, the blacklist and the conversations of a user are kept in
    the same structure: the records (the used prefix of an array of
    [MK_PAIR_MAX]), an index of the (owner, other) pairs, the newest record of
    each owner, and the link from a record to the owner's previous one.
    services/friend/miku_friend.c has it twice and
    services/conversation/miku_conversation.c once, with the same sizes and
    the same code; [owned_table] is that code over any record type that has
    the two keys ([Owned]).

    [rel_ok] is the invariant; [has_pair_ok], [owner_walk_ok], [append_ok],
    [erase_ok] and [rel_update_ok] give each operation as an operation on a plain
    list of records with distinct keys. *)
From S2P Require Import Prelude Hash ProbeIndex KeyedMap ChainIndex.
#[local] Open Scope string_scope.
#[local] Open Scope list_scope.
#[local] Open Scope Z_scope.

Definition MK_PAIR_HASH : Z := 16384.
Definition MK_PAIR_MAX : Z := 8192.

(** The two strings a record is found by. *)
Class Owned (R : Type) := { ow_owner : R -> string; ow_other : R -> string }.

Record owned_table (R : Type) := RelTable {
  recs : list R;       (* the used prefix of the array *)
  pair_hash : gmap Z Z;
  owner_hash : gmap Z Z;
  owner_next : gmap Z Z }.

Arguments RelTable {_} _ _ _ _.
Arguments recs {_} _.
Arguments pair_hash {_} _.
Arguments owner_hash {_} _.
Arguments owner_next {_} _.

Definition pair_hash_slot (owner fuid : string) : Z :=
  pair_slot_of MK_PAIR_HASH (fnv1a_64 owner) (fnv1a_64 fuid).

Definition owner_slot (owner : string) : Z := mask_slot MK_PAIR_HASH (fnv1a_64 owner).

Section Table.
Context {R : Type} `{RO : Owned R}.

Definition pair_hash_insert (t : owned_table R) (fi : Z) : owned_table R :=
  match at_ (recs t) fi with
  | Some f =>
      RelTable (recs t)
        (scan_insert MK_PAIR_HASH (pair_hash t) (pair_hash_slot (ow_owner f) (ow_other f)) (i16 fi))
        (owner_hash t) (owner_next t)
  | None => t
  end.

Definition owner_match (l : list R) (owner : string) (head : Z) : bool :=
  match at_ l head with Some f => streq (ow_owner f) owner | None => false end.

Definition owner_link (t : owned_table R) (fi : Z) : owned_table R :=
  match at_ (recs t) fi with
  | Some f =>
      let owner := ow_owner f in
      match scan MK_PAIR_HASH (owner_hash t) (owner_match (recs t) owner) (owner_slot owner) with
      | Vacant p =>
          RelTable (recs t) (pair_hash t) (<[p := i16 fi]> (owner_hash t)) (<[fi := -1]> (owner_next t))
      | Found p head =>
          RelTable (recs t) (pair_hash t) (<[p := i16 fi]> (owner_hash t)) (<[fi := i16 head]> (owner_next t))
      | Exhausted => t
      end
  | None => t
  end.

Definition owner_head (t : owned_table R) (owner : string) : Z :=
  scan_find MK_PAIR_HASH (owner_hash t) (owner_match (recs t) owner) (owner_slot owner).

Definition indexes_rebuild (t : owned_table R) : owned_table R :=
  for_range (Z.of_nat (length (recs t))) (fun t i => owner_link (pair_hash_insert t i) i)
    (RelTable (recs t) ∅ ∅ ∅).

Definition pair_match (l : list R) (owner fuid : string) (fi : Z) : bool :=
  match at_ l fi with
  | Some f => streq (ow_owner f) owner && streq (ow_other f) fuid
  | None => false
  end.

Definition pair_hash_find (t : owned_table R) (owner fuid : string) : Z :=
  scan_find MK_PAIR_HASH (pair_hash t) (pair_match (recs t) owner fuid) (pair_hash_slot owner fuid).

Definition empty_table : owned_table R := RelTable [] ∅ ∅ ∅.

(** The record written by an add, appended and indexed. *)
Definition rel_append (t : owned_table R) (f : R) : owned_table R :=
  let fi := Z.of_nat (length (recs t)) in
  let t1 := RelTable (recs t ++ [f]) (pair_hash t) (owner_hash t) (owner_next t) in
  owner_link (pair_hash_insert t1 fi) fi.

(** [memmove] over record [fi], then the rebuild. *)
Definition rel_erase (t : owned_table R) (fi : Z) : owned_table R :=
  indexes_rebuild (RelTable (delete (Z.to_nat fi) (recs t)) (pair_hash t) (owner_hash t) (owner_next t)).


(** A record rewritten in place: no index is touched. *)
Definition rel_update (t : owned_table R) (fi : Z) (g : R -> R) : owned_table R :=
  RelTable (upd_at g fi (recs t)) (pair_hash t) (owner_hash t) (owner_next t).

(** The records on the chain of [owner]; the chain has at most one link per
    record. *)
Definition owner_walk (t : owned_table R) (owner : string) : list R :=
  omap (at_ (recs t)) (chain_walk (S (length (recs t))) (owner_next t) (owner_head t owner)).


Definition has_pair (t : owned_table R) (a b : string) : bool := 0 <=? pair_hash_find t a b.


(** ** Reference definitions: plain lists *)

Definition rel_key (f : R) : string * string := (ow_owner f, ow_other f).

Definition ref_has (l : list R) (a b : string) : bool := bool_decide ((a, b) ∈ rel_key <$> l).

(** The records of an owner, newest first. *)
Definition ref_list (l : list R) (o : string) : list R :=
  reverse (filter (fun f => ow_owner f = o) l).


(** The records of an owner in the order of insertion, the record of a key,
    and the two rewrites of a plain list. *)
Definition view (o : string) (l : list R) : list R := filter (fun f => ow_owner f = o) l.

Definition ref_get (l : list R) (a b : string) : option R := head (filter (fun x => rel_key x = (a, b)) l).

Definition ref_upd (k : string * string) (g : R -> R) (l : list R) : list R :=
  (fun x => if bool_decide (rel_key x = k) then g x else x) <$> l.

Definition ref_erase (k : string * string) (l : list R) : list R := filter (fun x => rel_key x <> k) l.

(** ** Proofs *)

#[export] Instance pow2_pair : Pow2 MK_PAIR_HASH.
Proof. by exists 14. Qed.

Definition key_slot (k : string * string) : Z := pair_hash_slot k.1 k.2.
Definition owners (l : list R) : list (option string) := (fun f => Some (ow_owner f)) <$> l.

Lemma rel_slot_bound k : 0 <= key_slot k < MK_PAIR_HASH.
Proof. apply (mask_slot_bound 14). lia. Qed.

Lemma owner_slot_bound o : 0 <= owner_slot o < MK_PAIR_HASH.
Proof. apply (mask_slot_bound 14). lia. Qed.

(** The first [n] records of [t] are indexed. *)
Record rel_upto (n : nat) (t : owned_table R) : Prop := {
  ru_pair : ktable (sz:=MK_PAIR_HASH) rel_key key_slot MK_PAIR_MAX (pair_hash t) (take n (recs t));
  ru_chain : chain_ok (sz:=MK_PAIR_HASH) owner_slot (owner_hash t) (owner_next t) (owners (take n (recs t))) }.

Definition rel_ok (t : owned_table R) : Prop := rel_upto (length (recs t)) t.

Lemma owner_match_omatch l n o p v (t : gmap Z Z) nx :
  chain_ok (sz:=MK_PAIR_HASH) owner_slot t nx (owners (take n l)) -> t !! p = Some v ->
  owner_match l o v = omatch (owners (take n l)) o v /\ 0 <= v < Z.of_nat (min n (length l)).
Proof.
  intros C Hp. destruct (co_ix _ _ _ _ C) as [Hc _ _]. destruct (Hc _ _ Hp) as (_ & _ & [o' Hv]).
  apply idxs_head_at in Hv. pose proof (at_lt _ _ _ Hv) as L. unfold owners in L. rewrite length_fmap, length_take in L.
  split; [|lia]. unfold owner_match, omatch, owners in *. rewrite at_fmap in *.
  assert (at_ (take n l) v = at_ l v) as ->.
  { unfold at_. destruct (v <? 0); [done|]. apply lookup_take_lt. lia. }
  destruct (at_ l v); cbn; [apply streq_bool|done].
Qed.

(** One step of the rebuild, and the end of an add. *)
Lemma link_step n t f :
  recs t !! n = Some f -> NoDup (rel_key <$> recs t) -> Z.of_nat n < MK_PAIR_MAX ->
  rel_upto n t ->
  let t' := owner_link (pair_hash_insert t (Z.of_nat n)) (Z.of_nat n) in
  recs t' = recs t /\ rel_upto (S n) t'.
Proof.
  intros Hf Hnd Hn [P C]. cbn zeta. pose proof (lookup_lt_Some _ _ _ Hf) as Hl.
  unfold pair_hash_insert. rewrite at_of_nat, Hf. unfold MK_PAIR_MAX in *.
  unfold owner_link. cbn [recs owner_hash pair_hash owner_next]. rewrite at_of_nat, Hf.
  assert (length (take n (recs t)) = n) as Lt by (rewrite length_take; lia).
  rewrite (scan_ext_cells _ _ (omatch (owners (take n (recs t))) (ow_owner f)));
    [|intros p v Hp; apply (owner_match_omatch _ _ _ _ _ _ _ C Hp)].
  assert (ktable (sz:=MK_PAIR_HASH) rel_key key_slot MK_PAIR_MAX
    (scan_insert MK_PAIR_HASH (pair_hash t) (pair_hash_slot (ow_owner f) (ow_other f)) (i16 (Z.of_nat n)))
    (take (S n) (recs t))) as P'.
  { rewrite i16_small by lia. rewrite (take_S_r _ _ f) by done.
    pose proof (ktable_insert rel_key (fun _ => tt) key_slot MK_PAIR_MAX rel_slot_bound ltac:(done) _ _ f P) as [K _].
    - rewrite <- (take_drop_middle _ _ _ Hf) in Hnd. rewrite fmap_app in Hnd.
      apply list.NoDup_app in Hnd as (_ & Hd & _). intros Hin. apply (Hd _ Hin). by left.
    - rewrite Lt. done.
    - rewrite Lt in K. exact K. }
  pose proof (chain_ok_link owner_slot owner_slot_bound _ _ _ (ow_owner f) C) as C'.
  assert (length (owners (take n (recs t))) = n) as Lo by (unfold owners; rewrite length_fmap; done).
  rewrite Lo in C'. specialize (C' ltac:(unfold MK_PAIR_HASH; lia)).
  assert ((owners (take n (recs t)) ++ [Some (ow_owner f)])%list = owners (take (S n) (recs t))) as Eo.
  { rewrite (take_S_r _ _ f) by done. unfold owners. by rewrite fmap_app. }
  rewrite Eo in C'. unfold chain_link in C'.
  destruct (scan MK_PAIR_HASH (owner_hash t) _ _) as [p head|p|] eqn:F; cbn in C'.
  - split; [done|]. destruct (scan_found (co_ix _ _ _ _ C) _ _ _ _ (owner_slot_bound _) F) as (Hp & _).
    destruct (owner_match_omatch _ _ "" _ _ _ _ C Hp) as [_ Hh]. split; [done|]. cbn.
    rewrite !i16_small by lia. done.
  - split; [done|]. split; [done|]. cbn. rewrite !i16_small by lia. done.
  - exfalso. eapply (scan_room (sz:=MK_PAIR_HASH)); [apply owner_slot_bound| |exact F].
    pose proof (co_size _ _ _ _ C) as Hs. rewrite Lo in Hs. unfold MK_PAIR_HASH. lia.
Qed.

Lemma rel_ok_empty : rel_ok empty_table.
Proof. split; [by apply ktable_empty|apply chain_ok_empty]. Qed.

Lemma rel_rebuild_ok l t : 
  NoDup (rel_key <$> l) -> Z.of_nat (length l) <= MK_PAIR_MAX -> recs t = l ->
  recs (indexes_rebuild t) = l /\ rel_ok (indexes_rebuild t).
Proof.
  intros Hnd Hlen Hr. unfold indexes_rebuild. rewrite Hr.
  assert (let t' := for_range (Z.of_nat (length l)) (fun t i => owner_link (pair_hash_insert t i) i) (RelTable l ∅ ∅ ∅) in
    recs t' = l /\ rel_upto (Z.to_nat (Z.of_nat (length l))) t') as [E U].
  { apply (for_range_ind (fun i t => recs t = l /\ rel_upto (Z.to_nat i) t)); [lia| |].
    - split; [done|]. split; [by apply ktable_empty|apply chain_ok_empty].
    - intros i s Hi [Es U]. destruct (at_is_Some l i Hi) as [f Hf]. apply at_Some in Hf as [_ Hf].
      rewrite <- Es in Hf. destruct (link_step (Z.to_nat i) s f Hf) as [E2 U2]; [by rewrite Es|lia|done|].
      rewrite Z2Nat.id in E2, U2 by lia. rewrite E2. split; [done|].
      by replace (Z.to_nat (i + 1)) with (S (Z.to_nat i)) by lia. }
  split; [done|]. unfold rel_ok. rewrite E. by rewrite Nat2Z.id in U.
Qed.

Lemma append_ok t f :
  rel_ok t -> rel_key f ∉ rel_key <$> recs t -> Z.of_nat (length (recs t)) < MK_PAIR_MAX ->
  recs (rel_append t f) = (recs t ++ [f])%list /\ rel_ok (rel_append t f).
Proof.
  intros [P C] Hn Hl. rewrite firstn_all in P, C. unfold rel_append.
  destruct (link_step (length (recs t)) (RelTable (recs t ++ [f]) (pair_hash t) (owner_hash t) (owner_next t)) f)
    as [E U]; cbn [recs].
  - by apply list_lookup_middle.
  - rewrite fmap_app. apply NoDup_snoc; [apply P|done].
  - done.
  - split; cbn [recs pair_hash owner_hash owner_next]; by rewrite take_app_length.
  - split; [done|]. unfold rel_ok. rewrite E. cbn [recs]. rewrite length_app, Nat.add_1_r. done.
Qed.

Lemma pair_find_ok t a b : rel_ok t ->
  (exists f, at_ (recs t) (pair_hash_find t a b) = Some f /\ rel_key f = (a, b)) \/
  (pair_hash_find t a b = -1 /\ (a, b) ∉ rel_key <$> recs t).
Proof.
  intros [P _]. rewrite firstn_all in P. unfold pair_hash_find, scan_find.
  assert (tests rel_key (recs t) (a, b) (pair_match (recs t) a b)) as T.
  { intros ei. unfold pair_match. destruct (at_ (recs t) ei) as [f|]; [|done].
    rewrite !streq_bool. unfold rel_key. repeat case_bool_decide; cbn; try done; naive_solver. }
  destruct (ktable_find rel_key (fun _ => tt) key_slot MK_PAIR_MAX rel_slot_bound ltac:(done) _ _ _ _ P T)
    as [(p & i & f & F & Hi & Hk & _)|(p & F & _ & Hn)];
    change (key_slot (a, b)) with (pair_hash_slot a b) in F; rewrite F; [left|right]; eauto.
Qed.

Lemma has_pair_ok t a b : rel_ok t -> has_pair t a b = ref_has (recs t) a b.
Proof.
  intros O. unfold has_pair, ref_has. destruct (pair_find_ok t a b O) as [(f & Hf & Ek)|(-> & Hn)].
  - rewrite bool_decide_true.
    + destruct (Z.leb_spec 0 (pair_hash_find t a b)); [done|apply at_lt in Hf; lia].
    + rewrite <- Ek. apply list_elem_of_fmap. exists f. split; [done|].
      apply at_Some in Hf as [_ Hf]. by eapply list_elem_of_lookup_2.
  - by rewrite bool_decide_false.
Qed.

Lemma filter_key_delete l i f :
  NoDup (rel_key <$> l) -> at_ l i = Some f ->
  delete (Z.to_nat i) l = filter (fun x => rel_key x <> rel_key f) l.
Proof.
  intros Hnd (l1 & l2 & -> & ->)%at_split. rewrite Nat2Z.id, delete_middle.
  rewrite fmap_app, fmap_cons in Hnd. apply list.NoDup_app in Hnd as (_ & Hd & Hc).
  apply list.NoDup_cons in Hc as [Hc _].
  rewrite list.filter_app, filter_cons_False by (intros H; by apply H).
  rewrite !filter_all; [done|..]; intros x Hx E.
  - apply Hc. rewrite <- E. by apply list_elem_of_fmap_2.
  - apply (Hd (rel_key x)); [by apply list_elem_of_fmap_2|]. rewrite E. by left.
Qed.

Lemma rel_ok_nodup t : rel_ok t -> NoDup (rel_key <$> recs t).
Proof. intros [P _]. rewrite firstn_all in P. apply P. Qed.

Lemma rel_ok_max t : rel_ok t -> Z.of_nat (length (recs t)) <= MK_PAIR_MAX.
Proof. intros [P _]. rewrite firstn_all in P. apply P. Qed.

Lemma erase_ok t f i :
  rel_ok t -> at_ (recs t) i = Some f ->
  recs (rel_erase t i) = filter (fun x => rel_key x <> rel_key f) (recs t) /\ rel_ok (rel_erase t i).
Proof.
  intros O Hf. pose proof (rel_ok_nodup t O) as Hnd. unfold rel_erase.
  set (l := filter (fun x => rel_key x <> rel_key f) (recs t)).
  apply rel_rebuild_ok; [..|by apply filter_key_delete].
  - by apply NoDup_fmap_filter.
  - pose proof (rel_ok_max t O). assert (length l <= length (recs t))%nat by apply length_filter. lia.
Qed.


Lemma owner_walk_ok t o : rel_ok t -> owner_walk t o = ref_list (recs t) o.
Proof.
  intros [_ C]. rewrite firstn_all in C. unfold owner_walk, owner_head, scan_find.
  rewrite (scan_ext_cells _ _ (omatch (owners (recs t)) o)).
  - change (match _ with Found _ ei => ei | _ => -1 end) with
      (scan_find MK_PAIR_HASH (owner_hash t) (omatch (owners (recs t)) o) (owner_slot o)).
    rewrite (chain_walk_ok owner_slot owner_slot_bound _ _ _ o _ C); [|unfold owners; rewrite length_fmap; lia].
    unfold owners. rewrite omap_idxs. unfold ref_list. f_equal. apply list_filter_iff. naive_solver.
  - intros p v Hp. replace (owners (recs t)) with (owners (take (length (recs t)) (recs t))) in *
      by by rewrite firstn_all. by apply (owner_match_omatch _ _ _ _ _ _ _ C Hp).
Qed.

(** The invariant depends on the keys of the records only. *)
Lemma rel_ok_ext t t' :
  rel_key <$> recs t' = rel_key <$> recs t -> pair_hash t' = pair_hash t -> owner_hash t' = owner_hash t ->
  owner_next t' = owner_next t -> rel_ok t -> rel_ok t'.
Proof.
  intros Ek Ep Eo En [P C]. rewrite firstn_all in P, C.
  assert (length (recs t') = length (recs t)) as El.
  { rewrite <- (length_fmap rel_key (recs t')), Ek. apply length_fmap. }
  assert (owners (recs t') = owners (recs t)) as Ew.
  { assert (forall l, owners l = (fun k => Some k.1) <$> (rel_key <$> l)) as E by (intros l; by rewrite <- list_fmap_compose).
    rewrite !E. by rewrite Ek. }
  split; rewrite firstn_all, ?Ep, ?Eo, ?En, ?Ew; [|done].
  destruct P as [K N M]. split; rewrite ?Ek, ?El; done.
Qed.

Lemma rel_update_ok t fi g :
  rel_ok t -> 0 <= fi -> (forall x, rel_key (g x) = rel_key x) -> rel_ok (rel_update t fi g).
Proof. intros O Hi Hg. eapply rel_ok_ext; [..|exact O]; try done. apply fmap_upd_at; auto. Qed.

Lemma fmap_fixed (h : R -> R) (l : list R) : (forall x, x ∈ l -> h x = x) -> h <$> l = l.
Proof.
  induction l as [|x l IH]; intros Hh; [done|]. rewrite fmap_cons, IH, Hh by set_solver. done.
Qed.

(** A rewrite of the record found under a key, as a map over the records. *)
Lemma update_key t fi f g :
  rel_ok t -> at_ (recs t) fi = Some f ->
  recs (rel_update t fi g) = (fun x => if bool_decide (rel_key x = rel_key f) then g x else x) <$> recs t.
Proof.
  intros O Hf. pose proof (rel_ok_nodup t O) as Hnd. cbn [recs rel_update].
  apply at_split in Hf as (l1 & l2 & Hl & ->). rewrite Hl in *.
  rewrite upd_at_app, fmap_app, fmap_cons, bool_decide_true by done.
  rewrite fmap_app, fmap_cons in Hnd. apply list.NoDup_app in Hnd as (_ & Hd & Hc).
  apply list.NoDup_cons in Hc as [Hc _]. 
  f_equal; [|f_equal]; symmetry; apply fmap_fixed; intros x Hx; (rewrite bool_decide_false; [done|]); intros E.
  - apply (Hd (rel_key x)); [by apply list_elem_of_fmap_2|]. rewrite E. by left.
  - apply Hc. rewrite <- E. by apply list_elem_of_fmap_2.
Qed.

(** ** The operations on plain lists *)

Lemma filter_none (P : R -> Prop) `{forall x, Decision (P x)} (l : list R) :
  (forall x, x ∈ l -> ~ P x) -> filter P l = [].
Proof.
  induction l as [|x l IH]; intros Hl; [done|]. rewrite filter_cons_False by (apply Hl; by left).
  apply IH. intros y Hy. apply Hl. by right.
Qed.

Lemma ref_get_Some l a b x : ref_get l a b = Some x -> x ∈ l /\ rel_key x = (a, b).
Proof.
  unfold ref_get. intros E. rewrite head_lookup in E. apply list_elem_of_lookup_2 in E.
  apply list_elem_of_filter in E. tauto.
Qed.

Lemma ref_get_None l a b : ref_get l a b = None <-> (a, b) ∉ rel_key <$> l.
Proof.
  unfold ref_get. split.
  - intros E (x & Ex & Hx)%list_elem_of_fmap. assert (x ∈ filter (fun x => rel_key x = (a, b)) l) as Hf.
    { by apply list_elem_of_filter. }
    destruct (filter _ l); [by apply not_elem_of_nil in Hf|done].
  - intros Hn. destruct (filter _ l) as [|x l'] eqn:E; [done|]. exfalso. apply Hn.
    assert (x ∈ filter (fun x => rel_key x = (a, b)) l) as [Hk Hx]%list_elem_of_filter by (rewrite E; by left).
    rewrite <- Hk. by apply list_elem_of_fmap_2.
Qed.

Lemma ref_get_In l a b x : NoDup (rel_key <$> l) -> x ∈ l -> rel_key x = (a, b) -> ref_get l a b = Some x.
Proof.
  intros Hnd (l1 & l2 & ->)%list_elem_of_split Hk. rewrite fmap_app, fmap_cons in Hnd.
  apply list.NoDup_app in Hnd as (_ & Hd & _). unfold ref_get.
  rewrite list.filter_app, (filter_cons_True _ x) by done. rewrite filter_none; [done|].
  intros y Hy E. apply (Hd (rel_key y)); [by apply list_elem_of_fmap_2|]. rewrite E, Hk. by left.
Qed.

Lemma ref_get_upd k g l a b : (forall x, rel_key x = k -> rel_key (g x) = k) ->
  ref_get (ref_upd k g l) a b = if bool_decide (k = (a, b)) then g <$> ref_get l a b else ref_get l a b.
Proof.
  intros Hg. unfold ref_get, ref_upd. induction l as [|x l IH]; [by case_bool_decide|]. cbn [fmap list_fmap].
  assert (rel_key (if bool_decide (rel_key x = k) then g x else x) = rel_key x) as Ek.
  { destruct (bool_decide_reflect (rel_key x = k)) as [Ek|]; [|done]. rewrite Ek. by apply Hg. }
  destruct (decide (rel_key x = (a, b))) as [Hx|Hx].
  - rewrite !filter_cons_True by congruence. cbn. rewrite Hx.
    destruct (decide (k = (a, b))) as [->|Hk]; [by rewrite !bool_decide_true|].
    by rewrite !bool_decide_false by congruence.
  - by rewrite !filter_cons_False by congruence.
Qed.

Lemma ref_get_erase k l a b :
  ref_get (ref_erase k l) a b = if bool_decide (k = (a, b)) then None else ref_get l a b.
Proof.
  unfold ref_get, ref_erase. rewrite list_filter_filter. case_bool_decide as Hk.
  - rewrite filter_none; [done|]. intros x _ [? ?]. congruence.
  - f_equal. apply list_filter_iff. intros x. naive_solver congruence.
Qed.

Lemma ref_get_app l f a b : ref_get l a b = None ->
  ref_get (l ++ [f]) a b = if bool_decide (rel_key f = (a, b)) then Some f else None.
Proof.
  unfold ref_get. intros E. rewrite list.filter_app. destruct (filter _ l); [|done]. cbn [app].
  by case_bool_decide; [rewrite filter_cons_True|rewrite filter_cons_False].
Qed.

Lemma ref_get_app_other l f a b : rel_key f <> (a, b) -> ref_get (l ++ [f]) a b = ref_get l a b.
Proof. intros Hk. unfold ref_get. by rewrite list.filter_app, filter_cons_False, app_nil_r. Qed.

Lemma ref_get_view l a b : ref_get (view a l) a b = ref_get l a b.
Proof.
  unfold ref_get, view. rewrite list_filter_filter. f_equal. apply list_filter_iff.
  intros x. unfold rel_key. naive_solver.
Qed.

Lemma view_upd o k g l : (forall x, rel_key x = k -> rel_key (g x) = k) -> view o (ref_upd k g l) = ref_upd k g (view o l).
Proof.
  intros Hg. unfold view, ref_upd. induction l as [|x l IH]; [done|]. cbn [fmap list_fmap].
  assert (ow_owner (if bool_decide (rel_key x = k) then g x else x) = ow_owner x) as Ek.
  { destruct (bool_decide_reflect (rel_key x = k)) as [Ek|]; [|done]. pose proof (Hg x Ek) as E. rewrite <- Ek in E. unfold rel_key in E. congruence. }
  destruct (decide (ow_owner x = o)) as [Hx|Hx].
  - rewrite !filter_cons_True by congruence. cbn [fmap list_fmap]. by rewrite IH.
  - by rewrite !filter_cons_False by congruence.
Qed.

Lemma ref_upd_absent k g l : k ∉ rel_key <$> l -> ref_upd k g l = l.
Proof.
  intros Hn. apply fmap_fixed. intros x Hx. rewrite bool_decide_false; [done|].
  intros <-. apply Hn. by apply list_elem_of_fmap_2.
Qed.

Lemma ref_erase_absent k l : k ∉ rel_key <$> l -> ref_erase k l = l.
Proof. intros Hn. apply filter_all. intros x Hx <-. apply Hn. by apply list_elem_of_fmap_2. Qed.

Lemma view_keys o l k : k ∈ rel_key <$> view o l -> k.1 = o.
Proof. intros (x & -> & Hx)%list_elem_of_fmap. by apply list_elem_of_filter in Hx as [? _]. Qed.

Lemma view_erase o k l : view o (ref_erase k l) = ref_erase k (view o l).
Proof. unfold view, ref_erase. rewrite !list_filter_filter. apply list_filter_iff. naive_solver. Qed.

Lemma view_app o l f : view o (l ++ [f]) = view o l ++ if bool_decide (ow_owner f = o) then [f] else [].
Proof. unfold view. rewrite list.filter_app. by case_bool_decide; [rewrite filter_cons_True|rewrite filter_cons_False]. Qed.

(** The table against the plain list. *)
Lemma rel_get_ok t a b : rel_ok t -> at_ (recs t) (pair_hash_find t a b) = ref_get (recs t) a b.
Proof.
  intros O. destruct (pair_find_ok t a b O) as [(f & Hf & Ek)|(-> & Hn)].
  - rewrite Hf. symmetry. apply ref_get_In; [by apply rel_ok_nodup| |done].
    apply at_Some in Hf as [_ Hf]. by eapply list_elem_of_lookup_2.
  - symmetry. by apply ref_get_None.
Qed.

Lemma find_get t a b : rel_ok t -> (pair_hash_find t a b <? 0) = bool_decide (ref_get (recs t) a b = None).
Proof.
  intros O. rewrite <- rel_get_ok by done. destruct (pair_find_ok t a b O) as [(f & Hf & _)|(-> & _)]; [|done].
  rewrite Hf. apply at_lt in Hf. rewrite bool_decide_false by done. lia.
Qed.

Lemma update_found t a b f g :
  rel_ok t -> ref_get (recs t) a b = Some f -> (forall x, rel_key x = (a, b) -> rel_key (g x) = (a, b)) ->
  recs (rel_update t (pair_hash_find t a b) g) = ref_upd (a, b) g (recs t) /\
  rel_ok (rel_update t (pair_hash_find t a b) g).
Proof.
  intros O Hf Hg. pose proof (proj2 (ref_get_Some _ _ _ _ Hf)) as Ek. rewrite <- rel_get_ok in Hf by done. split.
  - rewrite (update_key _ _ f) by done. by rewrite Ek.
  - eapply rel_ok_ext; [..|exact O]; try done. apply fmap_upd_at; [|apply at_lt in Hf; lia].
    intros x Hx. replace x with f by congruence. rewrite Ek. by apply Hg.
Qed.

Lemma erase_found t a b f :
  rel_ok t -> ref_get (recs t) a b = Some f ->
  recs (rel_erase t (pair_hash_find t a b)) = ref_erase (a, b) (recs t) /\
  rel_ok (rel_erase t (pair_hash_find t a b)).
Proof.
  intros O Hf. pose proof (proj2 (ref_get_Some _ _ _ _ Hf)) as Ek. rewrite <- rel_get_ok in Hf by done.
  unfold ref_erase. rewrite <- Ek. by apply erase_ok.
Qed.

End Table.
