(* ===== verification/Friend.v ===== *)
(** * Friend service: friends, blacklist and chat access (services/friend)

    The service keeps two tables with the same four arrays ([owned_table]),
    one for friends and one for the blacklist.  Every operation holds the service's lock for its whole
    duration, so operations are atomic steps.

    [friend_refines]: the indexed service behaves as two plain lists of
    records searched from end to end. *)
From S2P Require Import Prelude Hash ProbeIndex KeyedMap ChainIndex OwnedTable Json JsonText Models.
#[local] Open Scope string_scope.
#[local] Open Scope Z_scope.

Definition MK_MAX_FRIENDS : Z := MK_PAIR_MAX.

#[export] Instance owned_friend : Owned miku_friend :=
  {| ow_owner := f_owner_user_id; ow_other := f_friend_user_id |}.

Definition rel_table : Type := owned_table miku_friend.

Record miku_friend_service := FriendService { friends : rel_table; blacks : rel_table }.

Definition miku_friend_service_create : miku_friend_service := FriendService empty_table empty_table.

Definition friend_add_nolock (t : rel_table) (now : Z) (owner fuid remark : option string) : Z * rel_table :=
  if negb (given owner) || negb (given fuid) || (MK_MAX_FRIENDS <=? Z.of_nat (length (recs t))) then (-1, t)
  else
    let o := default "" owner in
    let f := default "" fuid in
    if streq o f then (-1, t)
    else if 0 <=? pair_hash_find t o f then (-2, t)
    else (0, rel_append t (Friend (strn 63 o) (strn 63 f) (strn 63 (default "" remark)) 0 "" now)).

Definition friend_delete_nolock (t : rel_table) (owner fuid : option string) : Z * rel_table :=
  match owner, fuid with
  | Some o, Some f =>
      let fi := pair_hash_find t o f in
      if fi <? 0 then (-2, t) else (0, rel_erase t fi)
  | _, _ => (-1, t)
  end.

Definition miku_friend_add (svc : miku_friend_service) (now : Z) (owner fuid remark : option string) :
    Z * miku_friend_service :=
  let '(rc, t) := friend_add_nolock (friends svc) now owner fuid remark in (rc, FriendService t (blacks svc)).

Definition miku_friend_delete (svc : miku_friend_service) (owner fuid : option string) : Z * miku_friend_service :=
  let '(rc, t) := friend_delete_nolock (friends svc) owner fuid in (rc, FriendService t (blacks svc)).

Definition miku_friend_get_list (svc : miku_friend_service) (owner : option string) (max : Z) : list miku_friend :=
  match owner with
  | None => []
  | Some o => take (Z.to_nat max) (owner_walk (friends svc) o)
  end.

Definition miku_friend_is_friend (svc : miku_friend_service) (uid1 uid2 : option string) : bool :=
  match uid1, uid2 with
  | Some a, Some b => has_pair (friends svc) a b || has_pair (friends svc) b a
  | _, _ => false
  end.

Definition miku_friend_is_mutual (svc : miku_friend_service) (uid1 uid2 : option string) : bool :=
  match uid1, uid2 with
  | Some a, Some b => has_pair (friends svc) a b && has_pair (friends svc) b a
  | _, _ => false
  end.

(** The blacklist functions are the friends functions over the other four
    arrays. *)
Definition black_pair_insert : rel_table -> Z -> rel_table := pair_hash_insert.
Definition black_owner_link : rel_table -> Z -> rel_table := owner_link.
Definition black_owner_head : rel_table -> string -> Z := owner_head.
Definition black_indexes_rebuild : rel_table -> rel_table := indexes_rebuild.
Definition black_pair_find : rel_table -> string -> string -> Z := pair_hash_find.

Definition black_add (t : rel_table) (now : Z) (owner uid : option string) : Z * rel_table :=
  if negb (given owner) || negb (given uid) || (MK_MAX_FRIENDS <=? Z.of_nat (length (recs t))) then (-1, t)
  else
    let o := default "" owner in
    let u := default "" uid in
    if streq o u then (-1, t)
    else if 0 <=? black_pair_find t o u then (0, t)
    else (0, rel_append t (Friend (strn 63 o) (strn 63 u) "" 0 "" now)).

Definition black_remove (t : rel_table) (owner uid : option string) : Z * rel_table :=
  match owner, uid with
  | Some o, Some u =>
      let bi := black_pair_find t o u in
      if bi <? 0 then (-2, t) else (0, rel_erase t bi)
  | _, _ => (-1, t)
  end.

Definition miku_friend_is_black (svc : miku_friend_service) (owner blocked_uid : option string) : bool :=
  match owner, blocked_uid with
  | Some o, Some u => 0 <=? black_pair_find (blacks svc) o u
  | _, _ => false
  end.

Definition miku_friend_add_black (svc : miku_friend_service) (now : Z) (owner blocked_uid : option string) :
    Z * miku_friend_service :=
  let '(rc, t) := black_add (blacks svc) now owner blocked_uid in (rc, FriendService (friends svc) t).

Definition miku_friend_remove_black (svc : miku_friend_service) (owner blocked_uid : option string) :
    Z * miku_friend_service :=
  let '(rc, t) := black_remove (blacks svc) owner blocked_uid in (rc, FriendService (friends svc) t).

Definition miku_friend_may_access_si_conv (svc : miku_friend_service) (uid conv : option string) : Z :=
  if negb (given uid) || negb (given conv) then 0
  else match miku_conversation_si_peer conv uid 64 with
       | None => 0
       | Some peer =>
           let u := default "" uid in
           if (0 <=? pair_hash_find (friends svc) u peer) && (0 <=? pair_hash_find (friends svc) peer u) &&
              (black_pair_find (blacks svc) u peer <? 0) && (black_pair_find (blacks svc) peer u <? 0)
           then 1 else 0
       end.

(** ** Reference definitions: plain lists *)

Definition ref_add (dup : Z) (l : list miku_friend) (now : Z) (owner fuid remark : option string) :
    Z * list miku_friend :=
  if negb (given owner) || negb (given fuid) || (MK_MAX_FRIENDS <=? Z.of_nat (length l)) then (-1, l)
  else
    let o := default "" owner in
    let f := default "" fuid in
    if streq o f then (-1, l)
    else if ref_has l o f then (dup, l)
    else (0, l ++ [Friend o f (strn 63 (default "" remark)) 0 "" now])%list.

Definition ref_del (l : list miku_friend) (owner fuid : option string) : Z * list miku_friend :=
  match owner, fuid with
  | Some o, Some f =>
      if ref_has l o f then (0, filter (fun x => rel_key x <> (o, f)) l) else (-2, l)
  | _, _ => (-1, l)
  end.

(** The operations that change the service. *)
Inductive friend_op :=
  | FAdd (now : Z) (owner fuid remark : option string)
  | FDelete (owner fuid : option string)
  | FAddBlack (now : Z) (owner uid : option string)
  | FRemoveBlack (owner uid : option string).

Definition friend_step (svc : miku_friend_service) (op : friend_op) : Z * miku_friend_service :=
  match op with
  | FAdd now o f r => miku_friend_add svc now o f r
  | FDelete o f => miku_friend_delete svc o f
  | FAddBlack now o u => miku_friend_add_black svc now o u
  | FRemoveBlack o u => miku_friend_remove_black svc o u
  end.

Definition ref_step (s : list miku_friend * list miku_friend) (op : friend_op) :
    Z * (list miku_friend * list miku_friend) :=
  match op with
  | FAdd now o f r => let '(rc, l) := ref_add (-2) s.1 now o f r in (rc, (l, s.2))
  | FDelete o f => let '(rc, l) := ref_del s.1 o f in (rc, (l, s.2))
  | FAddBlack now o u => let '(rc, l) := ref_add 0 s.2 now o u None in (rc, (s.1, l))
  | FRemoveBlack o u => let '(rc, l) := ref_del s.2 o u in (rc, (s.1, l))
  end.

Definition fits_id (p : option string) : Prop := fits 63 (default "" p).

Definition op_fits (op : friend_op) : Prop :=
  match op with
  | FAdd _ o f _ => fits_id o /\ fits_id f
  | FAddBlack _ o u => fits_id o /\ fits_id u
  | _ => True
  end.

(** ** Proofs *)

Lemma add_ok dup remark t now o f t' :
  rel_ok t -> fits_id o -> fits_id f -> 
  t' = (if negb (given o) || negb (given f) || (MK_MAX_FRIENDS <=? Z.of_nat (length (recs t))) then (-1, t)
        else if streq (default "" o) (default "" f) then (-1, t)
        else if 0 <=? pair_hash_find t (default "" o) (default "" f) then (dup, t)
        else (0, rel_append t (Friend (strn 63 (default "" o)) (strn 63 (default "" f))
                                      (strn 63 (default "" remark)) 0 "" now))) ->
  ref_add dup (recs t) now o f remark = (t'.1, recs t'.2) /\ rel_ok t'.2.
Proof.
  intros O Ho Hf ->. unfold ref_add. destruct (given o); [|done]. destruct (given f); [|done].
  cbn [negb orb]. destruct (Z.leb_spec MK_MAX_FRIENDS (Z.of_nat (length (recs t)))) as [|Hl]; [done|].
  destruct (streq (default "" o) (default "" f)); [done|].
  fold (has_pair t (default "" o) (default "" f)). rewrite has_pair_ok by done.
  destruct (ref_has (recs t) (default "" o) (default "" f)) eqn:E; [done|].
  rewrite (strn_short 63 (default "" o)), (strn_short 63 (default "" f)) by assumption. cbn [fst snd].
  apply bool_decide_eq_false in E.
  destruct (append_ok t (Friend (default "" o) (default "" f) (strn 63 (default "" remark)) 0 "" now) O E Hl) as [-> ?].
  done.
Qed.

Lemma del_ok t o f :
  rel_ok t -> ref_del (recs t) o f = ((friend_delete_nolock t o f).1, recs (friend_delete_nolock t o f).2) /\
  rel_ok (friend_delete_nolock t o f).2.
Proof.
  intros O. unfold ref_del, friend_delete_nolock. destruct o as [o|]; [|done]. destruct f as [f|]; [|done].
  rewrite <- has_pair_ok by done. unfold has_pair.
  destruct (pair_find_ok t o f O) as [(x & Hx & Ek)|(-> & _)]; [|done].
  pose proof (at_lt _ _ _ Hx) as Hb.
  destruct (Z.leb_spec 0 (pair_hash_find t o f)); [|lia]. destruct (Z.ltb_spec (pair_hash_find t o f) 0); [lia|].
  cbn [fst snd]. destruct (erase_ok t x _ O Hx) as [-> ?]. by rewrite Ek.
Qed.

Definition svc_ok (svc : miku_friend_service) : Prop := rel_ok (friends svc) /\ rel_ok (blacks svc).
Definition svc_lists (svc : miku_friend_service) : list miku_friend * list miku_friend :=
  (recs (friends svc), recs (blacks svc)).

Lemma svc_ok_create : svc_ok miku_friend_service_create.
Proof. split; apply rel_ok_empty. Qed.

Lemma step_ok svc op : svc_ok svc -> op_fits op ->
  ref_step (svc_lists svc) op = ((friend_step svc op).1, svc_lists (friend_step svc op).2) /\
  svc_ok (friend_step svc op).2.
Proof.
  intros [Of Ob] Hf. destruct op as [now o f r|o f|now o u|o u]; cbn [friend_step ref_step svc_lists fst snd].
  - destruct Hf as [Ho Hu]. 
    destruct (add_ok (-2) r _ now o f (friend_add_nolock (friends svc) now o f r) Of Ho Hu eq_refl) as [E O].
    unfold miku_friend_add. rewrite E. by destruct (friend_add_nolock (friends svc) now o f r).
  - destruct (del_ok (friends svc) o f Of) as [E O]. unfold miku_friend_delete.
    destruct (friend_delete_nolock (friends svc) o f) as [rc t]. by rewrite E.
  - destruct Hf as [Ho Hu]. 
    destruct (add_ok 0 None _ now o u (black_add (blacks svc) now o u) Ob Ho Hu eq_refl) as [E O].
    unfold miku_friend_add_black. rewrite E. by destruct (black_add (blacks svc) now o u).
  - destruct (del_ok (blacks svc) o u Ob) as [E O]. unfold miku_friend_remove_black.
    change (black_remove (blacks svc) o u) with (friend_delete_nolock (blacks svc) o u).
    destruct (friend_delete_nolock (blacks svc) o u) as [rc t]. by rewrite E.
Qed.

Lemma run_ok ops : Forall op_fits ops ->
  run_steps ref_step ([], []) ops =
    ((run_steps friend_step miku_friend_service_create ops).1,
     svc_lists (run_steps friend_step miku_friend_service_create ops).2) /\
  svc_ok (run_steps friend_step miku_friend_service_create ops).2.
Proof.
  induction ops as [|op ops IH] using rev_ind; intros Hf; [split; [done|apply svc_ok_create]|].
  apply list.Forall_app in Hf as [Hf Ho]. apply list.Forall_cons in Ho as [Ho _]. destruct (IH Hf) as [E O].
  rewrite !run_steps_snoc, E. destruct (run_steps friend_step _ ops) as [rcs svc]. cbn [fst snd] in *.
  destruct (step_ok svc op O Ho) as [E2 O2]. rewrite E2. by destruct (friend_step svc op).
Qed.

(** Membership and access in terms of the plain lists. *)
Definition ref_access (fs bs : list miku_friend) (a b : string) : bool :=
  ref_has fs a b && ref_has fs b a && negb (ref_has bs a b) && negb (ref_has bs b a).

Lemma ltb_negb_leb x : (x <? 0) = negb (0 <=? x).
Proof. destruct (Z.ltb_spec x 0), (Z.leb_spec 0 x); lia || done. Qed.

(** C29: after any sequence of adds and deletes (friends and blacklist), with
    identifiers that fit their fields, the service returns what a plain list
    of records searched from end to end returns: the same status codes, the
    same answers to the friend, mutual and blacklist predicates, and the same
    friend list, newest first. *)
Theorem friend_refines ops a b max :
  Forall op_fits ops ->
  let '(rcs, svc) := run_steps friend_step miku_friend_service_create ops in
  let '(rcs', (fs, bs)) := run_steps ref_step ([], []) ops in
  rcs = rcs' /\
  miku_friend_is_friend svc (Some a) (Some b) = ref_has fs a b || ref_has fs b a /\
  miku_friend_is_mutual svc (Some a) (Some b) = ref_has fs a b && ref_has fs b a /\
  miku_friend_is_black svc (Some a) (Some b) = ref_has bs a b /\
  miku_friend_get_list svc (Some a) max = take (Z.to_nat max) (ref_list fs a).
Proof.
  intros Hf. destruct (run_ok ops Hf) as [E [Of Ob]]. rewrite E.
  destruct (run_steps friend_step _ ops) as [rcs svc]. cbn [fst snd svc_lists] in *. split_and!.
  - done.
  - cbn. by rewrite !has_pair_ok.
  - cbn. by rewrite !has_pair_ok.
  - cbn. unfold black_pair_find. fold (has_pair (blacks svc) a b). by rewrite has_pair_ok.
  - unfold miku_friend_get_list. by rewrite owner_walk_ok.
Qed.

Lemma access_ok svc u conv peer :
  svc_ok svc -> given (Some u) = true -> given (Some conv) = true ->
  miku_conversation_si_peer (Some conv) (Some u) 64 = Some peer ->
  miku_friend_may_access_si_conv svc (Some u) (Some conv) =
  if ref_access (recs (friends svc)) (recs (blacks svc)) u peer then 1 else 0.
Proof.
  intros [Of Ob] Hu Hc Hp. unfold miku_friend_may_access_si_conv. rewrite Hu, Hc, Hp. cbn [negb orb].
  cbn [default from_option id]. unfold black_pair_find, ref_access. rewrite !ltb_negb_leb.
  fold (has_pair (friends svc) u peer) (has_pair (friends svc) peer u).
  fold (has_pair (blacks svc) u peer) (has_pair (blacks svc) peer u). by rewrite !has_pair_ok.
Qed.

Lemma ref_access_sym fs bs a b : ref_access fs bs a b = ref_access fs bs b a.
Proof. unfold ref_access. destruct (ref_has fs a b), (ref_has fs b a), (ref_has bs a b), (ref_has bs b a); done. Qed.

(** C28: access to the single chat of [a] and [b], in any state that the service
    reaches by operations whose user ids have at most 63 characters, when [a]
    and [b] are not empty and have at most 63 characters each and 120 together:
    granted to each of them exactly when both are on each other's friend list
    and neither has blocked the other, and to nobody else.  (Two longer names
    make a conversation identifier that is cut and that other users share:
    [Models.si_conversation_collision].) *)
Theorem friend_access_iff ops a b :
  Forall op_fits ops -> si_pair a b ->
  let svc := (run_steps friend_step miku_friend_service_create ops).2 in
  let '(fs, bs) := (run_steps ref_step ([], []) ops).2 in
  let conv := miku_conversation_id_resolve 128 None None (Some a) (Some b) in
  miku_friend_may_access_si_conv svc (Some a) (Some conv) = (if ref_access fs bs a b then 1 else 0) /\
  miku_friend_may_access_si_conv svc (Some b) (Some conv) = (if ref_access fs bs a b then 1 else 0) /\
  (forall c, c <> a -> c <> b -> miku_friend_may_access_si_conv svc (Some c) (Some conv) = 0).
Proof.
  intros Hf P svc. destruct (run_ok ops Hf) as [E O]. rewrite E. fold svc in O |- *. cbn [svc_lists snd].
  set (conv := miku_conversation_id_resolve _ _ _ _ _). pose proof P as (Ha & Hb & _).
  assert (given (Some conv) = true) as Hc.
  { unfold conv. rewrite resolve_si by done. by destruct (strcmp_gt a b). }
  assert (given (Some a) = true) as Na by (apply nonempty_length; lia).
  assert (given (Some b) = true) as Nb by (apply nonempty_length; lia). split_and!.
  - apply access_ok; try done. unfold conv. rewrite resolve_si_peer by done. by rewrite streq_refl.
  - rewrite ref_access_sym. apply access_ok; try done. unfold conv. rewrite resolve_si_peer by done.
    rewrite streq_refl. destruct (streq a b) eqn:Eab; [|done]. apply streq_eq in Eab. by subst.
  - intros c Hca Hcb. unfold miku_friend_may_access_si_conv. destruct (given (Some c)) eqn:Nc; [|done].
    rewrite Hc. cbn [negb orb]. unfold conv. rewrite resolve_si_peer by done. by rewrite !streq_neq by done.
Qed.

(** Alice and Bob become friends, then Bob blocks Alice. *)
Definition ex_ops : list friend_op :=
  [FAdd 1 (Some "alice") (Some "bob") None; FAdd 2 (Some "bob") (Some "alice") (Some "Al");
   FAdd 3 (Some "alice") (Some "carol") None; FAdd 4 (Some "alice") (Some "bob") None].

Lemma ex_ops_fit : Forall op_fits ex_ops.
Proof. repeat (apply list.Forall_cons; split; [unfold op_fits, fits_id, fits; cbn; lia|]). constructor. Qed.

Lemma friend_refines_witness :
  let svc := (run_steps friend_step miku_friend_service_create ex_ops).2 in
  (run_steps friend_step miku_friend_service_create ex_ops).1 = [0; 0; 0; -2] /\
  miku_friend_is_mutual svc (Some "alice") (Some "bob") = true.
Proof.
  pose proof (friend_refines ex_ops "alice" "bob" 10 ex_ops_fit) as H.
  destruct (run_steps friend_step miku_friend_service_create ex_ops) as [rcs svc].
  set (r := run_steps ref_step ([], []) ex_ops) in H. vm_compute in r. subst r.
  destruct H as (H1 & _ & H2 & _). split; [exact H1|]. exact H2.
Defined.

Lemma friend_access_iff_witness :
  let svc := (run_steps friend_step miku_friend_service_create ex_ops).2 in
  miku_friend_may_access_si_conv svc (Some "alice") (Some "si_5_alice_bob") = 1 /\
  miku_friend_may_access_si_conv svc (Some "carol") (Some "si_5_alice_bob") = 0.
Proof.
  intros svc. assert (si_pair "alice" "bob") as P by (unfold si_pair; cbn; lia).
  pose proof (friend_access_iff ex_ops "alice" "bob" ex_ops_fit P) as H.
  set (r := (run_steps ref_step ([], []) ex_ops).2) in H. vm_compute in r. subst r.
  destruct H as (H1 & _ & H2). split; [exact H1|]. apply (H2 "carol"); discriminate.
Defined.
