(* ===== verification/RpcNames.v ===== *)
(** * Method-name dispatch tables and request fields

    Every service resolves a method name to the number of its handler through
    a table of MK_*_RPC_HASH = 64 cells filled once from the list of names
    ([friend_rpc_init] / [friend_rpc_id] of services/friend/miku_friend.c,
    [group_rpc_init] / [group_rpc_id] of services/group/miku_group.c).
    [rpc_id_spec] says that the resolution is the position in the list. *)
From S2P Require Import Prelude Hash ProbeIndex KeyedMap Json.
#[local] Open Scope string_scope.
#[local] Open Scope Z_scope.

Definition MK_RPC_HASH : Z := 64.

Definition rpc_slot (m : string) : Z := mask_slot MK_RPC_HASH (fnv1a_64 m).

Definition rpc_init (names : list string) : gmap Z Z :=
  for_range (Z.of_nat (length names))
    (fun t i => match at_ names i with
                | Some m => scan_insert MK_RPC_HASH t (rpc_slot m) (i16 i)
                | None => t end) ∅.

Definition rpc_id (names : list string) (method : option string) : Z :=
  match method with
  | None => -1
  | Some m =>
      scan_find MK_RPC_HASH (rpc_init names)
        (fun id => match at_ names id with Some n => streq n m | None => false end) (rpc_slot m)
  end.

(** ** Reading requests and building responses *)

(** [if (!a || !a[0]) a = b]. *)
Definition or_empty (a b : option string) : option string := if given a then a else b.

(** [if (!a) a = b]. *)
Definition or_null (a b : option string) : option string := match a with Some _ => a | None => b end.

(** [miku_json_object_set(resp, "data", arr)]. *)
Definition with_data (resp : json) (items : list json) : json := jset resp "data" (foldl jpush miku_json_create_array items).

(** The items of an array value; none for a NULL or another type. *)
Definition json_items (v : option json) : list (option json) :=
  match miku_json_type v with
  | MK_JSON_ARRAY => (fun i => miku_json_at v i) <$> seqZ 0 (miku_json_size v)
  | _ => []
  end.

#[export] Instance pow2_rpc : Pow2 MK_RPC_HASH.
Proof. by exists 6. Qed.

Lemma rpc_slot_bound m : 0 <= rpc_slot m < MK_RPC_HASH.
Proof. apply (mask_slot_bound 6). lia. Qed.

Lemma rpc_init_ok names : Z.of_nat (length names) < MK_RPC_HASH ->
  kindex (sz:=MK_RPC_HASH) rpc_slot (rpc_init names) names.
Proof.
  intros Hl. unfold MK_RPC_HASH in Hl. unfold rpc_init.
  apply (kindex_fill rpc_slot (fun _ => True) id _ names ∅ rpc_slot_bound); [unfold MK_RPC_HASH; lia|done|done|].
  intros t i m _ Hm. split; [done|]. rewrite Hm. apply at_lt in Hm. by rewrite i16_small by lia.
Qed.

(** The position of a name in the list, -1 when it is not there. *)
Definition name_index (names : list string) (m : string) : Z :=
  match list_find (fun y => y = m) names with Some (i, _) => Z.of_nat i | None => -1 end.

Lemma rpc_id_ok names m :
  NoDup names -> Z.of_nat (length names) < MK_RPC_HASH -> rpc_id names (Some m) = name_index names m.
Proof.
  intros Hnd Hl. unfold rpc_id, scan_find.
  rewrite (scan_ext _ _ (kmatch names m)).
  - apply (kfind_spec rpc_slot rpc_slot_bound); [by apply rpc_init_ok|done].
  - intros v. unfold kmatch. destruct (at_ names v); [apply streq_bool|done].
Qed.
