(* ===== verification/FriendRpc.v ===== *)
(** * RPC handlers of the friend service (services/friend/miku_friend.c)

    [miku_friend_handle_rpc] resolves the method name and runs one case; each
    case is a definition here.  A handler takes the service, the clock (the
    value of [miku_timestamp_ms()] at the i-th record it writes), the request
    (NULL when absent) and the response object, and returns the service and
    the response. *)
From Stdlib Require Import Ascii.
From S2P Require Import Prelude Hash ProbeIndex KeyedMap ChainIndex OwnedTable Json JsonText Models RpcNames Friend.
#[local] Open Scope string_scope.
#[local] Open Scope Z_scope.

Definition g_friend_rpc_names : list string :=
  ["addFriend"; "deleteFriend"; "getFriendList"; "isFriend"; "addBlack"; "removeBlack"; "getBlackList";
   "getFriendApplyList"; "getSelfApplyList"; "getDesignatedFriendApply"; "acceptFriendApply";
   "refuseFriendApply"; "importFriend"; "syncFriend"; "getDesignatedFriends"; "getFriendIDs";
   "getFullFriendUserIDs"; "getIncrementalFriends"; "getIncrementalBlacks"; "getSelfUnhandledApplyCount";
   "getSpecifiedBlacks"; "getSpecifiedFriendsInfo"; "respondFriendApply"; "setFriendRemark"; "updateFriends"].

Definition friend_rpc_init : gmap Z Z := rpc_init g_friend_rpc_names.
Definition friend_rpc_id (method : option string) : Z := rpc_id g_friend_rpc_names method.

Definition handler : Type :=
  miku_friend_service -> (nat -> Z) -> option json -> json -> miku_friend_service * json.

Definition rpc_addFriend : handler := fun svc clock req resp =>
  let '(rc, svc') := miku_friend_add svc (clock 0%nat) (jstr req "ownerUserID") (jstr req "friendUserID")
                                     (jstr req "remark") in
  (svc', miku_ji resp "errCode" (if rc =? 0 then 0 else if rc =? -2 then 2001 else 500)).

Definition rpc_deleteFriend : handler := fun svc _ req resp =>
  let '(rc, svc') := miku_friend_delete svc (jstr req "ownerUserID") (jstr req "friendUserID") in
  (svc', miku_ji resp "errCode" (if rc =? 0 then 0 else 2002)).

(** The owner of the list requests. *)
Definition list_owner (req : option json) : option string :=
  or_empty (jstr req "ownerUserID") (jstr req "userID").

(** The records of the owner's chain, each as [f] prints it. *)
Definition walk_items (t : rel_table) (owner : option string) (f : miku_friend -> json) : list json :=
  match owner with Some o => f <$> owner_walk t o | None => [] end.

Definition friend_json (f : miku_friend) : json :=
  let j := miku_json_create_object in
  let j := miku_jss j "ownerUserID" (Some (f_owner_user_id f)) in
  let j := miku_jss j "friendUserID" (Some (f_friend_user_id f)) in
  let j := miku_jss j "remark" (Some (f_remark f)) in
  miku_ji j "createTime" (f_create_time f).

Definition rpc_getFriendList : handler := fun svc _ req resp =>
  let resp := miku_ji resp "errCode" 0 in
  (svc, with_data resp (walk_items (friends svc) (list_owner req) friend_json)).

Definition rpc_isFriend : handler := fun svc _ req resp =>
  let u1 := or_null (jstr req "userID") (jstr req "userID1") in
  let u2 := or_null (jstr req "friendUserID") (jstr req "userID2") in
  let resp := miku_ji resp "errCode" 0 in
  (svc, miku_ji resp "isFriend" (if miku_friend_is_friend svc u1 u2 then 1 else 0)).

Definition rpc_addBlack : handler := fun svc clock req resp =>
  let owner := jstr req "ownerUserID" in
  let uid := or_null (jstr req "friendUserID") (jstr req "userID") in
  let '(rc, svc') := match owner, uid with
                     | Some _, Some _ => miku_friend_add_black svc (clock 0%nat) owner uid
                     | _, _ => (-1, svc) end in
  (svc', miku_ji resp "errCode" (if rc =? 0 then 0 else 400)).

Definition rpc_removeBlack : handler := fun svc _ req resp =>
  let owner := jstr req "ownerUserID" in
  let uid := or_null (jstr req "friendUserID") (jstr req "userID") in
  let '(rc, svc') := match owner, uid with
                     | Some _, Some _ => miku_friend_remove_black svc owner uid
                     | _, _ => (-1, svc) end in
  (svc', miku_ji resp "errCode" (if rc =? 0 then 0 else 2002)).

Definition black_json (b : miku_friend) : json :=
  let j := miku_json_create_object in
  let j := miku_jss j "ownerUserID" (Some (f_owner_user_id b)) in
  let j := miku_jss j "blockUserID" (Some (f_friend_user_id b)) in
  let j := miku_jss j "userID" (Some (f_friend_user_id b)) in
  miku_ji j "createTime" (f_create_time b).

Definition rpc_getBlackList : handler := fun svc _ req resp =>
  let resp := miku_ji resp "errCode" 0 in
  (svc, with_data resp (walk_items (blacks svc) (list_owner req) black_json)).

(** [getFriendApplyList], [getSelfApplyList], [getDesignatedFriendApply] and
    the four requests that are not implemented yet answer an empty list. *)
Definition rpc_empty_list : handler := fun svc _ _ resp =>
  (svc, with_data (miku_ji resp "errCode" 0) []).

Definition rpc_handleFriendApply (method : string) : handler := fun svc clock req resp =>
  let owner := jstr req "ownerUserID" in
  let fuid := jstr req "fromUserID" in
  let svc' := match owner, fuid with
              | Some _, Some _ =>
                  if streq method "acceptFriendApply"
                  then (miku_friend_add svc (clock 0%nat) owner fuid None).2 else svc
              | _, _ => svc end in
  (svc', miku_ji resp "errCode" 0).

Definition rpc_importFriend : handler := fun svc clock req resp =>
  let owner := jstr req "ownerUserID" in
  let fl := miku_json_get req (Some "friendList") in
  let '(svc', imported, _) :=
    match owner with
    | None => (svc, 0, 0%nat)
    | Some _ =>
        foldl (fun acc item =>
                 let '(svc, n, i) := acc in
                 match miku_json_str item with
                 | Some u =>
                     let '(rc, svc') := miku_friend_add svc (clock i) owner (Some u) None in
                     (svc', if rc =? 0 then n + 1 else n, S i)
                 | None => (svc, n, S i)
                 end) (svc, 0, 0%nat) (json_items fl)
    end in
  (svc', miku_ji (miku_ji resp "errCode" 0) "imported" imported).

Definition rpc_syncFriend : handler := fun svc _ req resp =>
  let resp := miku_ji resp "errCode" 0 in
  (svc, with_data resp (walk_items (friends svc) (list_owner req)
          (fun f => miku_jss miku_json_create_object "friendUserID" (Some (f_friend_user_id f))))).

(** The records of the pairs (owner, id) for the listed ids, as [f] prints
    them. *)
Definition specified_items (svc : miku_friend_service) (owner : option string) (ids : option json)
    (f : miku_friend -> json) : list json :=
  match owner with
  | None => []
  | Some o =>
      omap (fun item =>
              match miku_json_str item with
              | Some u => f <$> at_ (recs (friends svc)) (pair_hash_find (friends svc) o u)
              | None => None
              end) (json_items ids)
  end.

Definition designated_json (f : miku_friend) : json :=
  let j := miku_json_create_object in
  let j := miku_jss j "ownerUserID" (Some (f_owner_user_id f)) in
  let j := miku_jss j "friendUserID" (Some (f_friend_user_id f)) in
  miku_jss j "remark" (Some (f_remark f)).

Definition rpc_getDesignatedFriends : handler := fun svc _ req resp =>
  let resp := miku_ji resp "errCode" 0 in
  (svc, with_data resp (specified_items svc (jstr req "ownerUserID")
          (miku_json_get req (Some "friendUserIDs")) designated_json)).

(** [getFriendIDs] and [getFullFriendUserIDs]. *)
Definition rpc_getFriendIDs : handler := fun svc _ req resp =>
  (svc, with_data (miku_ji resp "errCode" 0)
          (walk_items (friends svc) (list_owner req)
             (fun f => miku_json_create_str (Some (f_friend_user_id f))))).

Definition rpc_getSelfUnhandledApplyCount : handler := fun svc _ _ resp =>
  (svc, miku_ji (miku_ji resp "errCode" 0) "count" 0).

(** [(int)create_time]: the millisecond timestamp is cut to 32 bits. *)
Definition info_json (f : miku_friend) : json :=
  let j := miku_json_create_object in
  let j := miku_jss j "friendUserID" (Some (f_friend_user_id f)) in
  let j := miku_jss j "remark" (Some (f_remark f)) in
  miku_ji j "createTime" (i32 (f_create_time f)).

Definition rpc_getSpecifiedFriendsInfo : handler := fun svc _ req resp =>
  let resp := miku_ji resp "errCode" 0 in
  (svc, with_data resp (specified_items svc (jstr req "ownerUserID")
          (miku_json_get req (Some "friendUserIDs")) info_json)).

Definition to_lower (c : ascii) : ascii :=
  let z := code c in if (65 <=? z) && (z <=? 90) then chr (z + 32) else c.

(** [strcasecmp(a, b) == 0]. *)
Definition strcase_eq (a b : string) : bool :=
  bool_decide (to_lower <$> str a = to_lower <$> str b).

Definition rpc_respondFriendApply : handler := fun svc clock req resp =>
  let owner := jstr req "ownerUserID" in
  let fuid := jstr req "fromUserID" in
  let handle := jstr req "handleMsg" in
  let handle_result := jint req "handleResult" in
  let accept := if handle_result =? -1 then false
                else if given handle && (strcase_eq (default "" handle) "refuse" ||
                                         strcase_eq (default "" handle) "reject") then false
                else true in
  let svc' := match owner, fuid with
              | Some _, Some _ => if accept then (miku_friend_add svc (clock 0%nat) owner fuid None).2 else svc
              | _, _ => svc end in
  (svc', miku_ji resp "errCode" 0).

(** [if (remark) strncpy(friends[fi].remark, remark, 63)]. *)
Definition set_remark (svc : miku_friend_service) (fi : Z) (remark : option string) : miku_friend_service :=
  match remark with
  | None => svc
  | Some r =>
      FriendService
        (rel_update (friends svc) fi (fun f => Friend (f_owner_user_id f) (f_friend_user_id f) (strn 63 r)
                                                      (f_add_source f) (f_ex f) (f_create_time f)))
        (blacks svc)
  end.

Definition rpc_setFriendRemark : handler := fun svc _ req resp =>
  let '(found, svc') :=
    match jstr req "ownerUserID", jstr req "friendUserID" with
    | Some o, Some u =>
        let fi := pair_hash_find (friends svc) o u in
        if 0 <=? fi then (true, set_remark svc fi (jstr req "remark")) else (false, svc)
    | _, _ => (false, svc)
    end in
  (svc', miku_ji resp "errCode" (if found : bool then 0 else 2002)).

Definition rpc_updateFriends : handler := fun svc _ req resp =>
  let fl := miku_json_get req (Some "friendList") in
  let '(svc', updated) :=
    match jstr req "ownerUserID" with
    | None => (svc, 0)
    | Some o =>
        foldl (fun acc item =>
                 let '(svc, n) := acc in
                 match jstr item "friendUserID" with
                 | Some u =>
                     let fi := pair_hash_find (friends svc) o u in
                     if 0 <=? fi then (set_remark svc fi (jstr item "remark"), n + 1) else (svc, n)
                 | None => (svc, n)
                 end) (svc, 0) (json_items fl)
    end in
  (svc', miku_ji (miku_ji resp "errCode" 0) "updated" updated).

Definition miku_friend_handle_rpc (method : option string) : handler := fun svc clock req resp =>
  match method with
  | None => (svc, resp)
  | Some m =>
      match friend_rpc_id method with
      | 0 => rpc_addFriend svc clock req resp
      | 1 => rpc_deleteFriend svc clock req resp
      | 2 => rpc_getFriendList svc clock req resp
      | 3 => rpc_isFriend svc clock req resp
      | 4 => rpc_addBlack svc clock req resp
      | 5 => rpc_removeBlack svc clock req resp
      | 6 => rpc_getBlackList svc clock req resp
      | 7 | 8 | 9 => rpc_empty_list svc clock req resp
      | 10 | 11 => rpc_handleFriendApply m svc clock req resp
      | 12 => rpc_importFriend svc clock req resp
      | 13 => rpc_syncFriend svc clock req resp
      | 14 => rpc_getDesignatedFriends svc clock req resp
      | 15 | 16 => rpc_getFriendIDs svc clock req resp
      | 17 | 18 => rpc_empty_list svc clock req resp
      | 19 => rpc_getSelfUnhandledApplyCount svc clock req resp
      | 20 => rpc_empty_list svc clock req resp
      | 21 => rpc_getSpecifiedFriendsInfo svc clock req resp
      | 22 => rpc_respondFriendApply svc clock req resp
      | 23 => rpc_setFriendRemark svc clock req resp
      | 24 => rpc_updateFriends svc clock req resp
      | _ => (svc, miku_ji resp "errCode" 404)
      end
  end.

(** ** Proofs *)

(** The identifiers of a request fit the fields they are stored in. *)
Definition req_fits (req : option json) : Prop :=
  (forall k, fits_id (jstr req k)) /\
  (forall k item, item ∈ json_items (miku_json_get req (Some k)) ->
     fits_id (miku_json_str item) /\ forall k', fits_id (jstr item k')).

(** A response object that already holds at most [n] fields. *)
Definition resp_ok (n : nat) (resp : json) : Prop := exists m, obj_upto n resp m.

(** The handler keeps the service's invariant and sets [errCode]. *)
Definition answers (r : miku_friend_service * json) : Prop :=
  svc_ok r.1 /\ exists c, miku_json_get (Some r.2) (Some "errCode") = Some (JInt c).

Lemma answers_code svc resp n c :
  svc_ok svc -> resp_ok n resp -> (n < 900)%nat -> answers (svc, miku_ji resp "errCode" c).
Proof.
  intros O [m H] Hn. split; [done|]. exists c. cbn [snd].
  pose proof (upto_set n resp m "errCode" (JInt c) H ltac:(lia)) as H2. rewrite (upto_get _ _ _ _ H2).
  apply lookup_insert_eq.
Qed.

Lemma answers_field svc resp n c k x :
  svc_ok svc -> resp_ok n resp -> (n < 900)%nat -> k <> "errCode" ->
  answers (svc, jset (miku_ji resp "errCode" c) k x).
Proof.
  intros O [m H] Hn Hk. split; [done|]. exists c. cbn [snd].
  pose proof (upto_set n resp m "errCode" (JInt c) H ltac:(lia)) as H2.
  pose proof (upto_set _ _ _ k x H2 ltac:(lia)) as H3. rewrite (upto_get _ _ _ _ H3).
  rewrite lookup_insert_ne by congruence. apply lookup_insert_eq.
Qed.

Lemma set_remark_ok svc fi r : svc_ok svc -> 0 <= fi -> svc_ok (set_remark svc fi r).
Proof.
  intros [Of Ob] Hi. destruct r as [r|]; [|done]. split; [|done].
  by apply rel_update_ok.
Qed.

Lemma add_svc_ok svc now o f r : svc_ok svc -> fits_id o -> fits_id f -> svc_ok (miku_friend_add svc now o f r).2.
Proof. intros O Ho Hf. exact (proj2 (step_ok svc (FAdd now o f r) O (conj Ho Hf))). Qed.

Lemma import_ok svc clock owner items : svc_ok svc -> fits_id owner ->
  (forall item, item ∈ items -> fits_id (miku_json_str item)) ->
  svc_ok (foldl (fun acc item =>
                 let '(svc, n, i) := acc in
                 match miku_json_str item with
                 | Some u =>
                     let '(rc, svc') := miku_friend_add svc (clock i) owner (Some u) None in
                     (svc', if rc =? 0 then n + 1 else n, S i)
                 | None => (svc, n, S i)
                 end) (svc, 0, 0%nat) items).1.1.
Proof.
  intros O Ho Hi. apply (foldl_inv (fun acc => svc_ok acc.1.1)); [done|].
  intros [[s n] i] item Hin Hs. cbn in Hs. specialize (Hi item Hin).
  destruct (miku_json_str item) as [u|]; [|done].
  pose proof (add_svc_ok s (clock i) owner (Some u) None Hs Ho Hi) as H.
  by destruct (miku_friend_add s (clock i) owner (Some u) None).
Qed.

Lemma friends_update_ok svc o items : svc_ok svc ->
  svc_ok (foldl (fun acc item =>
                 let '(svc, n) := acc in
                 match jstr item "friendUserID" with
                 | Some u =>
                     let fi := pair_hash_find (friends svc) o u in
                     if 0 <=? fi then (set_remark svc fi (jstr item "remark"), n + 1) else (svc, n)
                 | None => (svc, n)
                 end) (svc, 0) items).1.
Proof.
  intros O. apply (foldl_inv (fun acc => svc_ok acc.1)); [done|].
  intros [s n] item _ Hs. cbn in Hs. destruct (jstr item "friendUserID") as [u|]; [|done].
  cbn zeta. destruct (Z.leb_spec 0 (pair_hash_find (friends s) o u)); [|done]. by apply set_remark_ok.
Qed.

Section Handlers.
Context (svc : miku_friend_service) (clock : nat -> Z) (req : option json) (resp : json) (n : nat).
Context (O : svc_ok svc) (F : req_fits req) (R : resp_ok n resp) (Hn : (n < 900)%nat).

Lemma or_null_fits k k' : fits_id (or_null (jstr req k) (jstr req k')).
Proof using F. unfold or_null. destruct (jstr req k) as [s|] eqn:E; [rewrite <- E|]; apply F. Qed.

Lemma addFriend_answers : answers (rpc_addFriend svc clock req resp).
Proof using All.
  unfold rpc_addFriend. pose proof (add_svc_ok svc (clock 0%nat) (jstr req "ownerUserID") (jstr req "friendUserID")
    (jstr req "remark") O ltac:(apply F) ltac:(apply F)) as O'.
  destruct (miku_friend_add _ _ _ _ _) as [rc s]. by apply (answers_code s resp n).
Qed.

Lemma deleteFriend_answers : answers (rpc_deleteFriend svc clock req resp).
Proof using All.
  unfold rpc_deleteFriend. pose proof (proj2 (step_ok svc (FDelete (jstr req "ownerUserID") (jstr req "friendUserID")) O I)) as O'.
  cbn [friend_step] in O'. destruct (miku_friend_delete _ _ _) as [rc s]. by apply (answers_code s resp n).
Qed.

Lemma addBlack_answers : answers (rpc_addBlack svc clock req resp).
Proof using All.
  unfold rpc_addBlack. set (u := or_null _ _). assert (fits_id u) as Fu by apply or_null_fits.
  pose proof (proj2 (step_ok svc (FAddBlack (clock 0%nat) (jstr req "ownerUserID") u) O
    (conj (proj1 F "ownerUserID") Fu))) as O'. cbn [friend_step] in O'.
  destruct (jstr req "ownerUserID") as [o|]; [|by apply (answers_code _ _ n)].
  destruct u as [u'|]; [|by apply (answers_code _ _ n)].
  destruct (miku_friend_add_black _ _ _ _) as [rc s]. by apply (answers_code s resp n).
Qed.

Lemma removeBlack_answers : answers (rpc_removeBlack svc clock req resp).
Proof using All.
  unfold rpc_removeBlack. set (u := or_null _ _).
  pose proof (proj2 (step_ok svc (FRemoveBlack (jstr req "ownerUserID") u) O I)) as O'. cbn [friend_step] in O'.
  destruct (jstr req "ownerUserID") as [o|]; [|by apply (answers_code _ _ n)].
  destruct u as [u'|]; [|by apply (answers_code _ _ n)].
  destruct (miku_friend_remove_black _ _ _) as [rc s]. by apply (answers_code s resp n).
Qed.

Lemma apply_answers m : answers (rpc_handleFriendApply m svc clock req resp).
Proof using All.
  unfold rpc_handleFriendApply.
  pose proof (add_svc_ok svc (clock 0%nat) (jstr req "ownerUserID") (jstr req "fromUserID") None O
    ltac:(apply F) ltac:(apply F)) as O'.
  apply (answers_code _ _ n); try done. repeat case_match; done.
Qed.

Lemma respond_answers : answers (rpc_respondFriendApply svc clock req resp).
Proof using All.
  unfold rpc_respondFriendApply.
  pose proof (add_svc_ok svc (clock 0%nat) (jstr req "ownerUserID") (jstr req "fromUserID") None O
    ltac:(apply F) ltac:(apply F)) as O'.
  apply (answers_code _ _ n); try done. set (acc := if _ =? -1 then _ else _).
  destruct (jstr req "ownerUserID"), (jstr req "fromUserID"); try done. by destruct acc.
Qed.

Lemma importFriend_answers : answers (rpc_importFriend svc clock req resp).
Proof using All.
  unfold rpc_importFriend. destruct (jstr req "ownerUserID") as [o|] eqn:Eo; [|by apply (answers_field _ _ n)].
  pose proof (import_ok svc clock (Some o) (json_items (miku_json_get req (Some "friendList"))) O) as H.
  rewrite <- Eo in H |- *. specialize (H ltac:(apply F) ltac:(intros item Hin; by apply (proj2 F "friendList"))).
  destruct (foldl _ _ _) as [[s k] i]. by apply (answers_field s resp n).
Qed.

Lemma setRemark_answers : answers (rpc_setFriendRemark svc clock req resp).
Proof using All.
  unfold rpc_setFriendRemark. destruct (jstr req "ownerUserID") as [o|]; [|by apply (answers_code _ _ n)].
  destruct (jstr req "friendUserID") as [u|]; [|by apply (answers_code _ _ n)].
  destruct (Z.leb_spec 0 (pair_hash_find (friends svc) o u)); [|by apply (answers_code _ _ n)].
  apply (answers_code _ _ n); [by apply set_remark_ok|done..].
Qed.

Lemma update_answers : answers (rpc_updateFriends svc clock req resp).
Proof using All.
  unfold rpc_updateFriends. destruct (jstr req "ownerUserID") as [o|]; [|by apply (answers_field _ _ n)].
  pose proof (friends_update_ok svc o (json_items (miku_json_get req (Some "friendList"))) O) as H.
  destruct (foldl _ _ _) as [s k]. by apply (answers_field s resp n).
Qed.
End Handlers.

(** Every request, known or not, is answered with an [errCode] and keeps
    the indexes of the service consistent, when its identifiers fit their
    fields. *)
Theorem friend_rpc_answers method svc clock req resp n :
  svc_ok svc -> req_fits req -> resp_ok n resp -> (n < 900)%nat ->
  answers (miku_friend_handle_rpc (Some method) svc clock req resp).
Proof.
  intros O F R Hn. unfold miku_friend_handle_rpc.
  repeat case_match; lazymatch goal with
    | |- answers (rpc_addFriend _ _ _ _) => by apply (addFriend_answers _ _ _ _ n)
    | |- answers (rpc_deleteFriend _ _ _ _) => by apply (deleteFriend_answers _ _ _ _ n)
    | |- answers (rpc_addBlack _ _ _ _) => by apply (addBlack_answers _ _ _ _ n)
    | |- answers (rpc_removeBlack _ _ _ _) => by apply (removeBlack_answers _ _ _ _ n)
    | |- answers (rpc_handleFriendApply _ _ _ _ _) => by apply (apply_answers _ _ _ _ n)
    | |- answers (rpc_respondFriendApply _ _ _ _) => by apply (respond_answers _ _ _ _ n)
    | |- answers (rpc_importFriend _ _ _ _) => by apply (importFriend_answers _ _ _ _ n)
    | |- answers (rpc_setFriendRemark _ _ _ _) => by apply (setRemark_answers _ _ _ _ n)
    | |- answers (rpc_updateFriends _ _ _ _) => by apply (update_answers _ _ _ _ n)
    | |- answers (_, miku_ji _ "errCode" _) => by apply (answers_code _ _ n)
    | |- _ => by apply (answers_field _ _ n)
    end.
Qed.

(** In every consistent state, [getFriendList] lists exactly the records
    whose owner is the requested user, newest first, and [isFriend] answers 1
    exactly when one of the two lists the other; a method name that is not in
    the table is answered 404; none of them changes the service. *)
Theorem friend_rpc_queries svc clock o a b m :
  svc_ok svc -> m ∉ g_friend_rpc_names ->
  let fresh := miku_json_create_object in
  let list_req := miku_jss miku_json_create_object "ownerUserID" (Some o) in
  let is_req := miku_jss (miku_jss miku_json_create_object "userID" (Some a)) "friendUserID" (Some b) in
  nonempty o = true ->
  miku_friend_handle_rpc (Some "getFriendList") svc clock (Some list_req) fresh =
    (svc, with_data (miku_ji fresh "errCode" 0) (friend_json <$> ref_list (recs (friends svc)) o)) /\
  miku_friend_handle_rpc (Some "isFriend") svc clock (Some is_req) fresh =
    (svc, miku_ji (miku_ji fresh "errCode" 0) "isFriend"
            (if ref_has (recs (friends svc)) a b || ref_has (recs (friends svc)) b a then 1 else 0)) /\
  miku_friend_handle_rpc (Some m) svc clock None fresh = (svc, miku_ji fresh "errCode" 404).
Proof.
  intros [Of Ob] Hm fresh list_req is_req Ho.
  assert (forall q, rpc_id g_friend_rpc_names (Some q) = name_index g_friend_rpc_names q) as D.
  { intros q. apply rpc_id_ok; [|done]. by apply (bool_decide_unpack _ (dec:=_)); vm_compute. }
  unfold miku_friend_handle_rpc, friend_rpc_id. rewrite !D. split_and!.
  - change (name_index g_friend_rpc_names "getFriendList") with 2. unfold rpc_getFriendList, walk_items, list_owner.
    assert (jstr (Some list_req) "ownerUserID" = Some o) as -> by done.
    unfold or_empty. cbn [given]. rewrite Ho, owner_walk_ok by done. done.
  - change (name_index g_friend_rpc_names "isFriend") with 3. unfold rpc_isFriend.
    assert (jstr (Some is_req) "userID" = Some a) as -> by done.
    assert (jstr (Some is_req) "friendUserID" = Some b) as -> by done.
    cbn [or_null]. unfold miku_friend_is_friend. by rewrite !has_pair_ok.
  - assert (name_index g_friend_rpc_names m = -1) as ->; [|done]. unfold name_index.
    destruct (list_find _ _) as [[i y]|] eqn:E; [|done]. apply list_find_Some in E as (E & -> & _).
    exfalso. apply Hm. by eapply list_elem_of_lookup_2.
Qed.

Definition ex_req : json :=
  miku_jss (miku_jss miku_json_create_object "ownerUserID" (Some "alice")) "friendUserID" (Some "bob").

Lemma fresh_resp_ok : resp_ok 0 miku_json_create_object.
Proof. exists ∅. apply upto_new. Qed.

Lemma ex_req_fits : req_fits (Some ex_req).
Proof.
  split.
  - intros k. unfold jstr, ex_req.
    rewrite (upto_get 2 _ (<["friendUserID" := JStr "bob"]> (<["ownerUserID" := JStr "alice"]> ∅))).
    + destruct (decide (k = "friendUserID")) as [->|]; [rewrite lookup_insert_eq; unfold fits_id, fits; cbn; lia|].
      rewrite lookup_insert_ne by done.
      destruct (decide (k = "ownerUserID")) as [->|]; [rewrite lookup_insert_eq; unfold fits_id, fits; cbn; lia|].
      rewrite lookup_insert_ne, lookup_empty by done. unfold fits_id, fits. cbn. lia.
    + apply upto_set; [|lia]. apply upto_set; [|lia]. apply upto_new.
  - intros k item Hin. unfold ex_req in Hin.
    rewrite (upto_get 2 _ (<["friendUserID" := JStr "bob"]> (<["ownerUserID" := JStr "alice"]> ∅))) in Hin.
    + exfalso. destruct (decide (k = "friendUserID")) as [->|]; [by apply elem_of_nil in Hin|].
      rewrite lookup_insert_ne in Hin by done.
      destruct (decide (k = "ownerUserID")) as [->|]; [by apply elem_of_nil in Hin|].
      rewrite lookup_insert_ne, lookup_empty in Hin by done. by apply elem_of_nil in Hin.
    + apply upto_set; [|lia]. apply upto_set; [|lia]. apply upto_new.
Qed.

Lemma friend_rpc_answers_witness :
  answers (miku_friend_handle_rpc (Some "addFriend") miku_friend_service_create (fun _ => 7) (Some ex_req)
             miku_json_create_object).
Proof.
  apply (friend_rpc_answers _ _ _ _ _ 0); [apply svc_ok_create|apply ex_req_fits|apply fresh_resp_ok|lia].
Defined.

Lemma friend_rpc_queries_witness :
  miku_friend_handle_rpc (Some "noSuchMethod") miku_friend_service_create (fun _ => 7) None miku_json_create_object =
  (miku_friend_service_create, miku_ji miku_json_create_object "errCode" 404).
Proof.
  apply (friend_rpc_queries miku_friend_service_create (fun _ => 7) "a" "a" "b" "noSuchMethod" svc_ok_create);
    [|reflexivity]. by apply (bool_decide_unpack _ (dec:=_)); vm_compute.
Defined.

Lemma ji_get n v m k x :
  obj_upto n v m -> (n < 1000)%nat -> miku_json_get (Some (miku_ji v k x)) (Some k) = Some (JInt x).
Proof.
  intros H Hn. rewrite (upto_get (S n) _ (<[k := JInt x]> m)); [apply lookup_insert_eq|by apply upto_set].
Qed.

(** [getSpecifiedFriendsInfo] cuts the creation time to 32 bits, while
    [getFriendList] returns it in full: the two disagree for every timestamp
    beyond 2^31 milliseconds, so for every date after January 1970. *)
Theorem info_create_time_truncated f :
  2147483648 <= f_create_time f ->
  miku_json_get (Some (friend_json f)) (Some "createTime") = Some (JInt (f_create_time f)) /\
  miku_json_get (Some (info_json f)) (Some "createTime") <> Some (JInt (f_create_time f)).
Proof.
  intros H. unfold friend_json, info_json.
  split; [eapply (ji_get 3); [|lia]; repeat (apply upto_set; [|lia]); apply upto_new|].
  erewrite (ji_get 2); [|repeat (apply upto_set; [|lia]); apply upto_new|lia].
  intros [= E]. unfold swrap in E. pose proof (Z.mod_pos_bound (f_create_time f + 2 ^ (32 - 1)) (2 ^ 32) ltac:(lia)).
  change (2 ^ (32 - 1)) with 2147483648 in *. lia.
Qed.
