(* ===== verification/Group.v ===== *)
(** * Group service: groups, members and their indexes (services/group)

    Groups and members are two arrays (their used prefixes here).  A group is
    found through [group_hash], a (group, user) pair through [member_hash];
    the members of a group are chained, newest first, from [member_head] of
    the group's index through [member_next].  A member whose group is not
    known locally (a gateway that syncs members) is on no chain and is found
    by a scan.  Every operation runs under the service's lock. *)
From S2P Require Import Prelude Hash ProbeIndex KeyedMap ChainIndex Json JsonText Models.
#[local] Open Scope string_scope.
#[local] Open Scope Z_scope.

Definition MK_GROUP_HASH : Z := 4096.
Definition MK_MEMBER_HASH : Z := 32768.
Definition MK_MAX_GROUPS : Z := 2048.
Definition MK_MAX_MEMBERS : Z := 16384.

Record miku_group_service := GroupService {
  groups : list miku_group;
  members : list miku_group_member;
  group_hash : gmap Z Z;
  member_hash : gmap Z Z;
  member_head : gmap Z Z;
  member_next : gmap Z Z }.

Definition group_hash_slot (group_id : string) : Z := mask_slot MK_GROUP_HASH (fnv1a_64 group_id).

Definition member_hash_slot (group_id user_id : string) : Z :=
  pair_slot_of MK_MEMBER_HASH (fnv1a_64 group_id) (fnv1a_64 user_id).

Definition group_hash_insert (svc : miku_group_service) (gi : Z) : miku_group_service :=
  match at_ (groups svc) gi with
  | Some g =>
      GroupService (groups svc) (members svc)
        (scan_insert MK_GROUP_HASH (group_hash svc) (group_hash_slot (g_group_id g)) (i16 gi))
        (member_hash svc) (member_head svc) (member_next svc)
  | None => svc
  end.

Definition group_match (l : list miku_group) (group_id : string) (gi : Z) : bool :=
  match at_ l gi with Some g => streq (g_group_id g) group_id | None => false end.

Definition group_index_find (svc : miku_group_service) (group_id : option string) : Z :=
  match group_id with
  | None => -1
  | Some gid => scan_find MK_GROUP_HASH (group_hash svc) (group_match (groups svc) gid) (group_hash_slot gid)
  end.

Definition member_hash_insert (svc : miku_group_service) (mi : Z) : miku_group_service :=
  match at_ (members svc) mi with
  | Some m =>
      GroupService (groups svc) (members svc) (group_hash svc)
        (scan_insert MK_MEMBER_HASH (member_hash svc) (member_hash_slot (m_group_id m) (m_user_id m)) (i16 mi))
        (member_head svc) (member_next svc)
  | None => svc
  end.

Definition member_match (l : list miku_group_member) (group_id user_id : string) (mi : Z) : bool :=
  match at_ l mi with
  | Some m => streq (m_group_id m) group_id && streq (m_user_id m) user_id
  | None => false
  end.

Definition member_index_find (svc : miku_group_service) (group_id user_id : string) : Z :=
  scan_find MK_MEMBER_HASH (member_hash svc) (member_match (members svc) group_id user_id)
    (member_hash_slot group_id user_id).

(** [member_next[mi] = member_head[gi]; member_head[gi] = (int16_t)mi]. *)
Definition push_chain (svc : miku_group_service) (gi mi : Z) : miku_group_service :=
  GroupService (groups svc) (members svc) (group_hash svc) (member_hash svc)
    (<[gi := i16 mi]> (member_head svc)) (<[mi := (member_head svc).[gi]]> (member_next svc)).

Definition end_chain (svc : miku_group_service) (mi : Z) : miku_group_service :=
  GroupService (groups svc) (members svc) (group_hash svc) (member_hash svc)
    (member_head svc) (<[mi := -1]> (member_next svc)).

(** The body of the rebuild loop. *)
Definition reindex_member (svc : miku_group_service) (mi : Z) : miku_group_service :=
  let svc := member_hash_insert (end_chain svc mi) mi in
  match at_ (members svc) mi with
  | Some m =>
      let gi := group_index_find svc (Some (m_group_id m)) in
      if gi <? 0 then svc else push_chain svc gi mi
  | None => svc
  end.

Definition rebuild_member_indexes (svc : miku_group_service) : miku_group_service :=
  let heads := for_range (Z.of_nat (length (groups svc))) (fun h i => <[i := -1]> h) (member_head svc) in
  for_range (Z.of_nat (length (members svc))) reindex_member
    (GroupService (groups svc) (members svc) (group_hash svc) ∅ heads (member_next svc)).

Definition miku_group_service_create : miku_group_service := GroupService [] [] ∅ ∅ ∅ ∅.

Definition group_find_nolock (svc : miku_group_service) (group_id : option string) : option miku_group :=
  let gi := group_index_find svc group_id in
  if 0 <=? gi then at_ (groups svc) gi else None.

Definition miku_group_find : miku_group_service -> option string -> option miku_group := group_find_nolock.

(** A write through the pointer [&groups[gi]]. *)
Definition upd_group (svc : miku_group_service) (gi : Z) (f : miku_group -> miku_group) : miku_group_service :=
  GroupService (upd_at f gi (groups svc)) (members svc) (group_hash svc) (member_hash svc)
    (member_head svc) (member_next svc).

Definition upd_member (svc : miku_group_service) (mi : Z) (f : miku_group_member -> miku_group_member) :
    miku_group_service :=
  GroupService (groups svc) (upd_at f mi (members svc)) (group_hash svc) (member_hash svc)
    (member_head svc) (member_next svc).

Definition set_members (svc : miku_group_service) (l : list miku_group_member) : miku_group_service :=
  GroupService (groups svc) l (group_hash svc) (member_hash svc) (member_head svc) (member_next svc).

Definition with_count (n : Z) (g : miku_group) : miku_group :=
  Group (g_group_id g) (g_group_name g) (g_face_url g) (g_owner_user_id g) (g_group_type g) n
        (g_status g) (g_ex g) (g_create_time g).

Definition group_add_member_nolock (svc : miku_group_service) (now : Z) (group_id user_id : option string)
    (role : Z) : Z * miku_group_service :=
  match group_id, user_id with
  | Some gid, Some uid =>
      if MK_MAX_MEMBERS <=? Z.of_nat (length (members svc)) then (-1, svc)
      else if 0 <=? member_index_find svc gid uid then (0, svc)
      else
        let gi := group_index_find svc group_id in
        let mi := Z.of_nat (length (members svc)) in
        let svc1 := set_members svc (members svc ++ [Member (strn 63 gid) (strn 63 uid) role 0 "" now ""])%list in
        let svc2 := member_hash_insert svc1 mi in
        if 0 <=? gi
        then (0, upd_group (push_chain svc2 gi mi) gi (fun g => with_count (g_member_count g + 1) g))
        else (0, end_chain svc2 mi)
  | _, _ => (-1, svc)
  end.

(** [members[mi] = members[count - 1]; count--]. *)
Definition swap_remove (l : list miku_group_member) (mi : Z) : list miku_group_member :=
  match at_ l (Z.of_nat (length l) - 1) with
  | Some m => take (length l - 1) (upd_at (fun _ => m) mi l)
  | None => l
  end.

Definition group_remove_member_nolock (svc : miku_group_service) (group_id user_id : option string) :
    Z * miku_group_service :=
  match group_id, user_id with
  | Some gid, Some uid =>
      let mi := member_index_find svc gid uid in
      if mi <? 0 then (-1, svc)
      else
        let svc1 := set_members svc (swap_remove (members svc) mi) in
        let svc2 := match group_find_nolock svc1 group_id with
                    | Some g => if 0 <? g_member_count g
                                then upd_group svc1 (group_index_find svc1 group_id) (with_count (g_member_count g - 1))
                                else svc1
                    | None => svc1 end in
        (0, rebuild_member_indexes svc2)
  | _, _ => (-1, svc)
  end.

(** [*g] holds the caller's fields on entry ([memset] to zero before) and the
    stored group on exit; [uuid] is what [miku_uuid_generate] wrote. *)
Definition group_create_nolock (svc : miku_group_service) (now : Z) (uuid : string) (g : miku_group)
    (owner_uid : option string) : Z * miku_group_service * miku_group :=
  match owner_uid with
  | None => (-1, svc, g)
  | Some owner =>
      if MK_MAX_GROUPS <=? Z.of_nat (length (groups svc)) then (-1, svc, g)
      else
        let g1 := Group uuid (g_group_name g) (g_face_url g) (strn 63 owner) (g_group_type g) 0 0 (g_ex g) now in
        let gi := Z.of_nat (length (groups svc)) in
        let svc1 := GroupService (groups svc ++ [g1])%list (members svc) (group_hash svc) (member_hash svc)
                      (<[gi := -1]> (member_head svc)) (member_next svc) in
        let svc2 := group_hash_insert svc1 gi in
        let svc3 := (group_add_member_nolock svc2 now (Some uuid) owner_uid 100).2 in
        let g2 := match group_find_nolock svc3 (Some uuid) with
                  | Some stored => with_count (g_member_count stored) g1
                  | None => g1 end in
        (0, svc3, g2)
  end.

(** The members on the chain of group index [gi]. *)
Definition chain_members (svc : miku_group_service) (gi : Z) : list miku_group_member :=
  omap (at_ (members svc)) (chain_walk (S (length (members svc))) (member_next svc) (member_head svc).[gi]).

(** The members a listing visits, in its order. *)
Definition visit_members (svc : miku_group_service) (gid : string) : list miku_group_member :=
  let gi := group_index_find svc (Some gid) in
  if 0 <=? gi then chain_members svc gi
  else filter (fun m => m_group_id m = gid) (members svc).

Definition group_get_members_nolock (svc : miku_group_service) (group_id : option string) (max : Z) :
    list miku_group_member :=
  match group_id with Some gid => take (Z.to_nat max) (visit_members svc gid) | None => [] end.

(** The calls of the callback, in order. *)
Definition group_foreach_member_nolock (svc : miku_group_service) (group_id : option string) : list (string * Z) :=
  match group_id with
  | Some gid => (fun m => (m_user_id m, m_role_level m)) <$> visit_members svc gid
  | None => []
  end.

Definition group_is_member_nolock (svc : miku_group_service) (group_id user_id : option string) : bool :=
  if given group_id && given user_id
  then 0 <=? member_index_find svc (default "" group_id) (default "" user_id) else false.

Definition group_member_role_nolock (svc : miku_group_service) (group_id user_id : option string) : Z :=
  if given group_id && given user_id then
    match at_ (members svc) (member_index_find svc (default "" group_id) (default "" user_id)) with
    | Some m => m_role_level m
    | None => -1
    end
  else -1.

(** The public operations take the lock around the above. *)
Definition miku_group_create := group_create_nolock.
Definition miku_group_add_member := group_add_member_nolock.
Definition miku_group_remove_member := group_remove_member_nolock.
Definition miku_group_get_members := group_get_members_nolock.
Definition miku_group_foreach_member := group_foreach_member_nolock.
Definition miku_group_is_member := group_is_member_nolock.
Definition miku_group_member_role := group_member_role_nolock.

(** ** Abstract value and invariant *)

Definition member_key (m : miku_group_member) : string * string := (m_group_id m, m_user_id m).

(** The role of every (group, user) membership. *)
Definition role_map (svc : miku_group_service) : gmap (string * string) Z :=
  kmap member_key m_role_level (members svc).

Definition in_group (gid : string) (m : miku_group_member) : Prop := m_group_id m = gid.
#[export] Instance in_group_dec gid m : Decision (in_group gid m).
Proof. unfold in_group. apply _. Defined.

(** The index of a group, by a linear search. *)
Definition ref_gi (gs : list miku_group) (gid : string) : option Z :=
  (fun p => Z.of_nat p.1) <$> list_find (fun g => g_group_id g = gid) gs.

Definition group_of (gs : list miku_group) (l : list miku_group_member) : list (option Z) :=
  (fun m => ref_gi gs (m_group_id m)) <$> l.

Arguments ref_gi : simpl never.
Arguments group_of : simpl never.

Definition key_slot (k : string * string) : Z := member_hash_slot k.1 k.2.

(** The first [n] members are indexed and chained. *)
Record indexed_upto (n : nat) (svc : miku_group_service) : Prop := {
  iu_groups : ktable (sz:=MK_GROUP_HASH) g_group_id group_hash_slot MK_MAX_GROUPS (group_hash svc) (groups svc);
  iu_members : ktable (sz:=MK_MEMBER_HASH) member_key key_slot MK_MAX_MEMBERS (member_hash svc) (take n (members svc));
  iu_chains : heads_ok (Z.of_nat (length (groups svc))) (member_head svc) (member_next svc)
                (group_of (groups svc) (take n (members svc))) }.

(** Every group's counter is its number of members. *)
Definition counts_exact (svc : miku_group_service) : Prop :=
  forall g, g ∈ groups svc -> g_member_count g = Z.of_nat (length (filter (in_group (g_group_id g)) (members svc))).

Record group_ok (svc : miku_group_service) : Prop := {
  go_index : indexed_upto (length (members svc)) svc;
  go_counts : counts_exact svc }.

(** A group without its counter. *)
Definition core (g : miku_group) : miku_group := with_count 0 g.

(** ** Proofs *)

#[export] Instance pow2_group : Pow2 MK_GROUP_HASH.
Proof. by exists 12. Qed.
#[export] Instance pow2_member : Pow2 MK_MEMBER_HASH.
Proof. by exists 15. Qed.

Lemma group_hash_slot_bound k : 0 <= group_hash_slot k < MK_GROUP_HASH.
Proof. apply (mask_slot_bound 12). lia. Qed.

Lemma member_slot_bound k : 0 <= key_slot k < MK_MEMBER_HASH.
Proof. apply (mask_slot_bound 15). lia. Qed.

Lemma ref_gi_Some gs gid gi : ref_gi gs gid = Some gi -> exists g, at_ gs gi = Some g /\ g_group_id g = gid.
Proof.
  unfold ref_gi. destruct (list_find _ gs) as [[i g]|] eqn:E; [|done]. cbn. intros [= <-].
  apply list_find_Some in E as (E & H & _). exists g. by rewrite at_of_nat.
Qed.

Lemma ref_gi_None gs gid : ref_gi gs gid = None -> gid ∉ g_group_id <$> gs.
Proof.
  unfold ref_gi. destruct (list_find _ gs) as [[i g]|] eqn:E; [done|]. intros _ Hin.
  apply list_elem_of_fmap in Hin as (g & -> & Hg). apply list_find_None in E.
  rewrite list.Forall_forall in E. by apply (E g).
Qed.

Lemma ref_gi_at gs gi g : NoDup (g_group_id <$> gs) -> at_ gs gi = Some g -> ref_gi gs (g_group_id g) = Some gi.
Proof.
  intros Hnd Hg. destruct (ref_gi gs (g_group_id g)) as [gj|] eqn:E.
  - apply ref_gi_Some in E as (g' & Hg' & Hid). f_equal.
    apply at_Some in Hg as [? Hg], Hg' as [? Hg'].
    assert (Z.to_nat gj = Z.to_nat gi); [|lia]. apply (NoDup_lookup (g_group_id <$> gs) _ _ (g_group_id g) Hnd);
      rewrite list_lookup_fmap; [rewrite Hg'|rewrite Hg]; cbn; congruence.
  - apply ref_gi_None in E. exfalso. apply E. apply list_elem_of_fmap. exists g. split; [done|].
    apply at_Some in Hg as [_ Hg]. by eapply list_elem_of_lookup_2.
Qed.

(** The hashed group lookup is the linear search. *)
Lemma group_index_ok svc n gid : indexed_upto n svc ->
  group_index_find svc (Some gid) = default (-1) (ref_gi (groups svc) gid).
Proof.
  intros [K _ _]. unfold group_index_find, scan_find.
  assert (tests g_group_id (groups svc) gid (group_match (groups svc) gid)) as T.
  { intros ei. unfold group_match. destruct (at_ (groups svc) ei); [apply streq_bool|done]. }
  destruct (ktable_find g_group_id (fun _ => tt) group_hash_slot MK_MAX_GROUPS group_hash_slot_bound ltac:(done) _ _ _ _ K T)
    as [(p & i & g & F & Hi & <- & _)|(p & F & _ & Hn)]; rewrite F.
  - by rewrite (ref_gi_at _ i g (kt_nodup _ _ _ _ _ K) Hi).
  - destruct (ref_gi (groups svc) gid) as [gi|] eqn:E; [|done]. exfalso. apply Hn.
    apply ref_gi_Some in E as (g & Hg & <-). apply list_elem_of_fmap_2. apply at_Some in Hg as [_ Hg].
    by eapply list_elem_of_lookup_2.
Qed.

(** The lookup reads the groups and their index only. *)
Lemma group_index_ext svc svc' gid :
  groups svc = groups svc' -> group_hash svc = group_hash svc' ->
  group_index_find svc gid = group_index_find svc' gid.
Proof. intros E1 E2. unfold group_index_find. by rewrite E1, E2. Qed.

Lemma ref_gi_bound gs gid gi : ref_gi gs gid = Some gi -> 0 <= gi < Z.of_nat (length gs).
Proof. intros (g & Hg & _)%ref_gi_Some. by apply at_lt in Hg. Qed.

Lemma member_find_ok svc g u : indexed_upto (length (members svc)) svc ->
  (exists m, at_ (members svc) (member_index_find svc g u) = Some m /\ member_key m = (g, u) /\
             role_map svc !! (g, u) = Some (m_role_level m)) \/
  (member_index_find svc g u = -1 /\ role_map svc !! (g, u) = None /\ (g, u) ∉ member_key <$> members svc).
Proof.
  intros [_ P _]. rewrite firstn_all in P. unfold member_index_find, scan_find.
  assert (tests member_key (members svc) (g, u) (member_match (members svc) g u)) as T.
  { intros ei. unfold member_match. destruct (at_ (members svc) ei) as [m|]; [|done].
    rewrite !streq_bool. unfold member_key. repeat case_bool_decide; cbn; try done; naive_solver. }
  destruct (ktable_find member_key m_role_level key_slot MK_MAX_MEMBERS member_slot_bound ltac:(done) _ _ _ _ P T)
    as [(p & i & m & F & Hi & Hk & M)|(p & F & M & Hn)];
    change (key_slot (g, u)) with (member_hash_slot g u) in F; rewrite F; [left|right]; eauto.
Qed.

(** The index insertion of member [n]. *)
Lemma member_insert_ok n svc m :
  members svc !! n = Some m -> NoDup (member_key <$> members svc) -> Z.of_nat n < MK_MAX_MEMBERS ->
  indexed_upto n svc ->
  member_hash_insert svc (Z.of_nat n) =
    GroupService (groups svc) (members svc) (group_hash svc)
      (scan_insert MK_MEMBER_HASH (member_hash svc) (key_slot (member_key m)) (Z.of_nat n))
      (member_head svc) (member_next svc) /\
  ktable (sz:=MK_MEMBER_HASH) member_key key_slot MK_MAX_MEMBERS
    (scan_insert MK_MEMBER_HASH (member_hash svc) (key_slot (member_key m)) (Z.of_nat n)) (take (S n) (members svc)).
Proof.
  intros Hm Hnd Hn [_ P _]. pose proof (lookup_lt_Some _ _ _ Hm) as Hl. unfold member_hash_insert.
  rewrite at_of_nat, Hm. unfold MK_MAX_MEMBERS in *. rewrite i16_small by lia. split; [done|].
  rewrite (take_S_r _ _ m) by done.
  assert (length (take n (members svc)) = n) as Lt by (rewrite length_take; lia).
  pose proof (ktable_insert member_key (fun _ => tt) key_slot 16384 member_slot_bound ltac:(done) _ _ m P) as [K _].
  - rewrite <- (take_drop_middle _ _ _ Hm) in Hnd. rewrite fmap_app in Hnd.
    apply list.NoDup_app in Hnd as (_ & Hd & _). intros Hin. apply (Hd _ Hin). by left.
  - by rewrite Lt.
  - by rewrite Lt in K.
Qed.

Lemma group_of_snoc gs l n m : l !! n = Some m ->
  group_of gs (take (S n) l) = (group_of gs (take n l) ++ [ref_gi gs (m_group_id m)])%list /\
  length (group_of gs (take n l)) = n.
Proof.
  intros Hm. pose proof (lookup_lt_Some _ _ _ Hm) as Hl. unfold group_of.
  rewrite (take_S_r _ _ m) by done. rewrite fmap_app, length_fmap, length_take. split; [done|lia].
Qed.

(** One step of the rebuild loop. *)
Lemma reindex_ok n svc m :
  members svc !! n = Some m -> NoDup (member_key <$> members svc) -> Z.of_nat n < MK_MAX_MEMBERS ->
  indexed_upto n svc ->
  let svc' := reindex_member svc (Z.of_nat n) in
  groups svc' = groups svc /\ members svc' = members svc /\ indexed_upto (S n) svc'.
Proof.
  intros Hm Hnd Hn U. cbn zeta. destruct (group_of_snoc (groups svc) _ n m Hm) as [Eo Lo].
  assert (indexed_upto n (end_chain svc (Z.of_nat n))) as U1.
  { destruct U as [K P C]. split; [done|done|]. cbn. rewrite <- Lo at 1. by apply heads_pre. }
  destruct (member_insert_ok n (end_chain svc (Z.of_nat n)) m Hm Hnd Hn U1) as [E P'].
  unfold reindex_member. rewrite E. cbn [members]. cbn [members end_chain] in *. rewrite at_of_nat, Hm.
  set (svc1 := GroupService _ _ _ _ _ _) in *.
  assert (group_index_find svc1 (Some (m_group_id m)) = default (-1) (ref_gi (groups svc) (m_group_id m))) as ->.
  { rewrite <- (group_index_ok svc n) by done. by apply group_index_ext. }
  destruct U as [K P C]. unfold MK_MAX_MEMBERS in Hn.
  destruct (ref_gi (groups svc) (m_group_id m)) as [gi|] eqn:Eg; cbn [default from_option id].
  - pose proof (ref_gi_bound _ _ _ Eg) as Hb. destruct (Z.ltb_spec gi 0); [lia|]. split_and!; [done..|].
    split; [done|unfold push_chain, svc1; cbn [member_hash members]; exact P'|]. cbn -[take]. rewrite i16_small by lia. rewrite Eo.
    assert (heads_ok (Z.of_nat (length (groups svc))) (member_head svc) (<[Z.of_nat n:=-1]> (member_next svc))
              (group_of (groups svc) (take n (members svc)))) as C' by (rewrite <- Lo at 1; by apply heads_pre).
    pose proof (heads_push _ _ _ _ gi C' Hb) as H2. rewrite Lo in H2. exact H2.
  - split_and!; [done..|]. split; [done|unfold svc1; cbn [member_hash members]; exact P'|]. cbn -[take]. rewrite Eo.
    pose proof (heads_skip _ _ _ _ (-1) C) as H2. rewrite Lo in H2. exact H2.
Qed.

(** Clearing the heads of the existing groups. *)
Lemma clear_heads n h o : 0 <= n -> 0 <= o < n -> (for_range n (fun h i => <[i := -1]> h) h).[o] = -1.
Proof.
  intros Hn. apply (for_range_ind (fun i h => 0 <= o < i -> h.[o] = -1)); [done|lia|].
  intros i s _ IH Ho. destruct (decide (i = o)) as [->|]; [apply cell_insert_eq|].
  rewrite cell_insert_ne by done. apply IH. lia.
Qed.

Lemma group_rebuild_ok svc :
  ktable (sz:=MK_GROUP_HASH) g_group_id group_hash_slot MK_MAX_GROUPS (group_hash svc) (groups svc) ->
  NoDup (member_key <$> members svc) -> Z.of_nat (length (members svc)) <= MK_MAX_MEMBERS ->
  let svc' := rebuild_member_indexes svc in
  groups svc' = groups svc /\ members svc' = members svc /\ indexed_upto (length (members svc)) svc'.
Proof.
  intros K Hnd Hlen. cbn zeta. unfold rebuild_member_indexes.
  set (init := GroupService (groups svc) (members svc) (group_hash svc) ∅ _ (member_next svc)).
  assert (let s := for_range (Z.of_nat (length (members svc))) reindex_member init in
    groups s = groups svc /\ members s = members svc /\ indexed_upto (Z.to_nat (Z.of_nat (length (members svc)))) s) as H.
  { apply (for_range_ind (fun i s => groups s = groups svc /\ members s = members svc /\ indexed_upto (Z.to_nat i) s)); [lia| |].
    - split_and!; [done..|]. split; [done|by apply ktable_empty|]. apply heads_ok_empty.
      intros o Ho. apply clear_heads; [lia|done].
    - intros i s Hi (Eg & Em & U). destruct (at_is_Some (members svc) i Hi) as [m Hm]. apply at_Some in Hm as [_ Hm].
      rewrite <- Em in Hm. destruct (reindex_ok (Z.to_nat i) s m Hm) as (E1 & E2 & U2); [by rewrite Em|lia|done|].
      rewrite Z2Nat.id in E1, E2, U2 by lia. split_and!; [congruence..|].
      by replace (Z.to_nat (i + 1)) with (S (Z.to_nat i)) by lia. }
  by rewrite Nat2Z.id in H.
Qed.

Lemma core_count n g : core (with_count n g) = core g.
Proof. done. Qed.

Lemma core_id (gs gs' : list miku_group) : core <$> gs = core <$> gs' -> g_group_id <$> gs = g_group_id <$> gs'.
Proof.
  intros E. assert (forall l, g_group_id <$> l = g_group_id <$> (core <$> l)) as H
    by (intros l; by rewrite <- list_fmap_compose).
  rewrite (H gs), (H gs'). by rewrite E.
Qed.

Lemma ref_gi_ext (gs gs' : list miku_group) gid : g_group_id <$> gs = g_group_id <$> gs' -> ref_gi gs gid = ref_gi gs' gid.
Proof.
  assert (forall gs, ref_gi gs gid = (fun p => Z.of_nat p.1) <$> list_find (fun x => x = gid) (g_group_id <$> gs)) as H.
  { intros l. unfold ref_gi. rewrite list_find_fmap. destruct (list_find _ l) as [[i g]|]; done. }
  intros E. by rewrite !H, E.
Qed.

Lemma group_of_ext (gs gs' : list miku_group) l : g_group_id <$> gs = g_group_id <$> gs' -> group_of gs l = group_of gs' l.
Proof. intros E. unfold group_of. apply list_fmap_ext. intros i m _. by apply ref_gi_ext. Qed.

(** The indexes depend on the identifiers only. *)
Lemma indexed_upto_ext n svc svc' :
  indexed_upto n svc -> g_group_id <$> groups svc' = g_group_id <$> groups svc ->
  member_key <$> members svc' = member_key <$> members svc ->
  group_hash svc' = group_hash svc -> member_hash svc' = member_hash svc ->
  member_head svc' = member_head svc -> member_next svc' = member_next svc -> indexed_upto n svc'.
Proof.
  intros [K P C] Ei Em E1 E2 E3 E4.
  assert (length (groups svc') = length (groups svc)) as El.
  { rewrite <- (length_fmap g_group_id (groups svc')), Ei. apply length_fmap. }
  assert (length (members svc') = length (members svc)) as Elm.
  { rewrite <- (length_fmap member_key (members svc')), Em. apply length_fmap. }
  assert (member_key <$> take n (members svc') = member_key <$> take n (members svc)) as Et
    by by rewrite !fmap_take, Em.
  split; rewrite ?E1, ?E2, ?E3, ?E4.
  - destruct K as [K1 K2 K3]. split; rewrite ?Ei, ?El; done.
  - destruct P as [P1 P2 P3]. split; rewrite ?Et; [done|done|]. rewrite length_take in *. lia.
  - rewrite El, (group_of_ext _ (groups svc)) by done.
    assert (forall l, group_of (groups svc) l = (fun k => ref_gi (groups svc) k.1) <$> (member_key <$> l)) as H
      by (intros l; by rewrite <- list_fmap_compose).
    rewrite H, Et, <- H. done.
Qed.

Lemma upd_count_core gs gi f : (forall g, core (f g) = core g) -> 0 <= gi -> core <$> upd_at f gi gs = core <$> gs.
Proof. intros H Hi. apply fmap_upd_at; [|done]. intros g _. apply H. Qed.

Lemma count_snoc gid l m :
  Z.of_nat (length (filter (in_group gid) (l ++ [m])%list)) =
  Z.of_nat (length (filter (in_group gid) l)) + (if decide (m_group_id m = gid) then 1 else 0).
Proof.
  rewrite list.filter_app, length_app. case_decide as E.
  - rewrite filter_cons_True by done. cbn. lia.
  - rewrite filter_cons_False by done. cbn. lia.
Qed.

(** An update of the counter of the group that gained (or lost) a member
    keeps the counters exact. *)
Lemma counts_upd svc gi g0 l d :
  counts_exact svc -> NoDup (g_group_id <$> groups svc) -> at_ (groups svc) gi = Some g0 ->
  (forall gid, Z.of_nat (length (filter (in_group gid) l)) =
     Z.of_nat (length (filter (in_group gid) (members svc))) + (if decide (g_group_id g0 = gid) then d else 0)) ->
  forall g, g ∈ upd_at (fun g => with_count (g_member_count g + d) g) gi (groups svc) ->
    g_member_count g = Z.of_nat (length (filter (in_group (g_group_id g)) l)).
Proof.
  intros C Hnd Hg Hl g Hin. apply list_elem_of_lookup in Hin as [j Hj]. rewrite <- at_of_nat in Hj.
  destruct (decide (Z.of_nat j = gi)) as [<-|Hne].
  - rewrite (at_upd_eq _ _ _ g0 Hg) in Hj. simplify_eq. cbn. rewrite Hl, decide_True by done.
    rewrite (C g0); [done|]. apply at_Some in Hg as [_ Hg]. by eapply list_elem_of_lookup_2.
  - rewrite at_upd_ne in Hj by (first [congruence|apply at_lt in Hg; lia]). rewrite Hl, decide_False.
    + rewrite (C g); [lia|]. apply at_Some in Hj as [_ Hj]. by eapply list_elem_of_lookup_2.
    + intros E. apply Hne. apply at_Some in Hj as [? Hj], Hg as [? Hg].
      assert (Z.to_nat (Z.of_nat j) = Z.to_nat gi); [|lia].
      apply (NoDup_lookup (g_group_id <$> groups svc) _ _ (g_group_id g) Hnd); rewrite list_lookup_fmap;
        [by rewrite Hj|rewrite Hg; cbn; congruence].
Qed.

Lemma group_ok_members svc : group_ok svc ->
  ktable (sz:=MK_MEMBER_HASH) member_key key_slot MK_MAX_MEMBERS (member_hash svc) (members svc).
Proof. intros [[_ P _] _]. by rewrite firstn_all in P. Qed.

Lemma group_ok_groups svc : group_ok svc ->
  ktable (sz:=MK_GROUP_HASH) g_group_id group_hash_slot MK_MAX_GROUPS (group_hash svc) (groups svc).
Proof. by intros [[K _ _] _]. Qed.

(** Appending a member: the array, the index and the chain. *)
Lemma add_index_ok svc m :
  group_ok svc -> member_key m ∉ member_key <$> members svc -> Z.of_nat (length (members svc)) < MK_MAX_MEMBERS ->
  let mi := Z.of_nat (length (members svc)) in
  let svc2 := member_hash_insert (set_members svc (members svc ++ [m])%list) mi in
  let gi := ref_gi (groups svc) (m_group_id m) in
  let svc3 := match gi with Some gi => push_chain svc2 gi mi | None => end_chain svc2 mi end in
  groups svc3 = groups svc /\ members svc3 = (members svc ++ [m])%list /\ group_hash svc2 = group_hash svc /\
  indexed_upto (length (members svc3)) svc3.
Proof.
  intros G Hn Hlt. cbn zeta. destruct G as [[K P C] _]. rewrite firstn_all in P, C.
  set (svc1 := set_members svc (members svc ++ [m])%list). set (n := length (members svc)) in *.
  assert (members svc1 !! n = Some m) as Hm by (by apply list_lookup_middle).
  assert (indexed_upto n svc1) as U.
  { split; [done|..]; cbn -[take]; unfold n; rewrite take_app_length; done. }
  destruct (member_insert_ok n svc1 m Hm) as [E P']; [|done..|].
  { cbn. rewrite fmap_app. apply NoDup_snoc; [apply P|done]. }
  rewrite E. destruct (group_of_snoc (groups svc) (members svc1) n m Hm) as [Eo Lo].
  assert (length (members svc1) = S n) as El by (cbn; rewrite length_app; cbn; unfold n; lia).
  assert (group_of (groups svc) (take n (members svc1)) = group_of (groups svc) (members svc)) as Ep.
  { cbn -[take]. unfold n. by rewrite take_app_length. }
  unfold MK_MAX_MEMBERS in Hlt. rewrite Ep in Eo, Lo.
  destruct (ref_gi (groups svc) (m_group_id m)) as [gi|] eqn:Eg; split_and!; try done.
  - change (indexed_upto (length (members svc1)) (push_chain (GroupService (groups svc1) (members svc1) (group_hash svc1)
      (scan_insert MK_MEMBER_HASH (member_hash svc1) (key_slot (member_key m)) (Z.of_nat n)) (member_head svc1)
      (member_next svc1)) gi (Z.of_nat n))). rewrite El.
    split; [done|unfold push_chain; cbn [member_hash members]; exact P'|].
    unfold push_chain. cbn [member_hash members member_head member_next groups]. rewrite i16_small by lia.
    change (groups svc1) with (groups svc). rewrite Eo.
    pose proof (heads_push _ _ _ _ gi C (ref_gi_bound _ _ _ Eg)) as H2. rewrite Lo in H2. exact H2.
  - change (indexed_upto (length (members svc1)) (end_chain (GroupService (groups svc1) (members svc1) (group_hash svc1)
      (scan_insert MK_MEMBER_HASH (member_hash svc1) (key_slot (member_key m)) (Z.of_nat n)) (member_head svc1)
      (member_next svc1)) (Z.of_nat n))). rewrite El.
    split; [done|unfold end_chain; cbn [member_hash members]; exact P'|].
    unfold end_chain. cbn [member_hash members member_head member_next groups].
    change (groups svc1) with (groups svc). rewrite Eo.
    pose proof (heads_skip _ _ _ _ (-1) C) as H2. rewrite Lo in H2. exact H2.
Qed.

Lemma role_map_snoc svc svc' m :
  group_ok svc -> member_key m ∉ member_key <$> members svc -> members svc' = (members svc ++ [m])%list ->
  role_map svc' = <[member_key m := m_role_level m]> (role_map svc).
Proof. intros G Hn E. unfold role_map. rewrite E. by apply kmap_snoc. Qed.

(** [group_add_member_nolock]: nothing happens to a member, a new one is
    recorded with its role, unless the table is full. *)
Lemma add_member_ok svc now g u role :
  group_ok svc -> fits 63 g -> fits 63 u ->
  let '(rc, svc') := group_add_member_nolock svc now (Some g) (Some u) role in
  group_ok svc' /\ core <$> groups svc' = core <$> groups svc /\
  (rc = -1 /\ svc' = svc /\ MK_MAX_MEMBERS <= Z.of_nat (length (members svc)) \/
   rc = 0 /\ role_map svc' = match role_map svc !! (g, u) with
                             | Some _ => role_map svc | None => <[(g, u) := role]> (role_map svc) end).
Proof.
  intros G Hg Hu. unfold group_add_member_nolock. rewrite (strn_short 63 g), (strn_short 63 u) by done.
  destruct (Z.leb_spec MK_MAX_MEMBERS (Z.of_nat (length (members svc)))) as [|Hlt]; [split_and!; auto|].
  destruct (member_find_ok svc g u (go_index _ G)) as [(m & Hm & _ & M)|(-> & M & Hn)]; rewrite M.
  { destruct (Z.leb_spec 0 (member_index_find svc g u)); [split_and!; auto|apply at_lt in Hm; lia]. }
  cbn [Z.leb Z.compare]. rewrite (group_index_ok svc _ g (go_index _ G)).
  set (m := Member g u role 0 "" now ""). set (mi := Z.of_nat (length (members svc))).
  pose proof (add_index_ok svc m G Hn Hlt) as A. cbn zeta in A. fold mi in A. cbn [m_group_id m] in A.
  set (svc2 := member_hash_insert _ mi) in *.
  destruct (ref_gi (groups svc) g) as [gi|] eqn:Eg; cbn [default from_option id].
  - pose proof (ref_gi_bound _ _ _ Eg) as Hb. destruct (Z.leb_spec 0 gi); [|lia].
    destruct A as (A1 & A2 & _ & A4). set (svc3 := push_chain svc2 gi mi) in *.
    set (f := fun g0 => with_count (g_member_count g0 + 1) g0).
    assert (core <$> groups (upd_group svc3 gi f) = core <$> groups svc) as Ec.
    { change (core <$> upd_at f gi (groups svc3) = core <$> groups svc). rewrite A1.
      apply upd_count_core; [done|lia]. }
    split_and!; [|done|right; split; [done|exact (role_map_snoc svc _ m G Hn A2)]].
    split.
    + eapply indexed_upto_ext; [exact A4|apply core_id; by rewrite Ec, A1|done..].
    + apply ref_gi_Some in Eg as (g0 & Hg0 & Hid). intros g1. cbn [groups upd_group]. rewrite A1.
      change (members (upd_group svc3 gi f)) with (members svc3). rewrite A2. revert g1.
      eapply counts_upd; [apply G|apply (group_ok_groups _ G)|exact Hg0|].
      intros gid. rewrite count_snoc. cbn. by rewrite Hid.
  - destruct A as (A1 & A2 & _ & A4). cbn [Z.leb Z.compare].
    split_and!; [|by rewrite A1|right; split; [done|exact (role_map_snoc svc _ m G Hn A2)]].
    split; [exact A4|]. intros g1. rewrite A1, A2. intros Hin. rewrite count_snoc, decide_False; [|cbn].
    + rewrite (go_counts _ G g1 Hin). lia.
    + apply ref_gi_None in Eg. intros ->. apply Eg. by apply list_elem_of_fmap_2.
Qed.

(** Swap-remove drops exactly the member at the index. *)
Lemma swap_remove_ok l1 m l2 :
  swap_remove (l1 ++ m :: l2)%list (Z.of_nat (length l1)) ≡ₚ (l1 ++ l2)%list.
Proof.
  unfold swap_remove. rewrite length_app. cbn [length].
  replace (Z.of_nat (length l1 + S (length l2)) - 1) with (Z.of_nat (length l1 + length l2)) by lia.
  replace (length l1 + S (length l2) - 1)%nat with (length l1 + length l2)%nat by lia. rewrite at_of_nat.
  destruct l2 as [|z l2 _] using rev_ind.
  - cbn [length]. rewrite Nat.add_0_r, list_lookup_middle by done. by rewrite upd_at_app, take_app_length, app_nil_r.
  - rewrite length_app. cbn [length]. rewrite app_comm_cons, app_assoc.
    rewrite list_lookup_middle by (rewrite length_app; cbn; lia).
    rewrite <- app_assoc, <- app_comm_cons, upd_at_app.
    replace (length l1 + (length l2 + 1))%nat with (length (l1 ++ z :: l2)) by (rewrite length_app; cbn; lia).
    replace (l1 ++ z :: l2 ++ [z])%list with ((l1 ++ z :: l2) ++ [z])%list by by rewrite <- app_assoc.
    rewrite take_app_length. apply Permutation_app_head. apply Permutation_cons_append.
Qed.

Lemma kmap_perm l l' : NoDup (member_key <$> l) -> l ≡ₚ l' ->
  kmap member_key m_role_level l = kmap member_key m_role_level l'.
Proof.
  intros Hnd Hp. unfold kmap. apply list_to_map_proper.
  - by rewrite <- list_fmap_compose.
  - by apply fmap_Permutation.
Qed.

Lemma length_filter_perm (P : miku_group_member -> Prop) `{forall x, Decision (P x)} l l' :
  l ≡ₚ l' -> length (filter P l) = length (filter P l').
Proof. intros Hp. by rewrite Hp. Qed.

(** The state after a removal: the member is gone, all indexes are rebuilt. *)
Lemma remove_member_ok svc g u :
  group_ok svc ->
  let '(rc, svc') := group_remove_member_nolock svc (Some g) (Some u) in
  group_ok svc' /\ core <$> groups svc' = core <$> groups svc /\ role_map svc' = delete (g, u) (role_map svc) /\
  rc = (if decide (is_Some (role_map svc !! (g, u))) then 0 else -1).
Proof.
  intros G. unfold group_remove_member_nolock.
  destruct (member_find_ok svc g u (go_index _ G)) as [(m & Hm & Hk & M)|(-> & M & Hn)]; rewrite M.
  2: { cbn. rewrite delete_id by done. rewrite decide_False by (by intros [? ?]). done. }
  destruct (Z.ltb_spec (member_index_find svc g u) 0); [apply at_lt in Hm; lia|].
  rewrite decide_True by eauto. set (mi := member_index_find svc g u) in *. clearbody mi.
  apply at_split in Hm as (l1 & l2 & El & ->). pose proof (swap_remove_ok l1 m l2) as Hp. rewrite <- El in Hp.
  set (l' := swap_remove (members svc) (Z.of_nat (length l1))) in *.
  assert (NoDup (member_key <$> (l1 ++ m :: l2)%list)) as Hnd by (rewrite <- El; apply (group_ok_members _ G)).
  assert (NoDup (member_key <$> l')) as Hnd'.
  { rewrite Hp. rewrite fmap_app in *. rewrite fmap_cons in Hnd. 
    rewrite <- Permutation_middle in Hnd. by apply list.NoDup_cons in Hnd as [_ ?]. }
  assert (length l' < length (members svc))%nat as Hl by (rewrite Hp, El, !length_app; cbn; lia).
  assert (forall gid, Z.of_nat (length (filter (in_group gid) l')) =
    Z.of_nat (length (filter (in_group gid) (members svc))) + (if decide (g = gid) then -1 else 0)) as Hcnt.
  { intros gid. rewrite (length_filter_perm _ _ _ Hp), El, !list.filter_app, !length_app. injection Hk as Hkg _.
    case_decide as E; [rewrite filter_cons_True by (unfold in_group; congruence)|
      rewrite filter_cons_False by (unfold in_group; congruence)]; cbn [length]; lia. }
  set (svc1 := set_members svc l').
  assert (exists svc2, match group_find_nolock svc1 (Some g) with
      | Some g0 => if 0 <? g_member_count g0
                   then upd_group svc1 (group_index_find svc1 (Some g)) (with_count (g_member_count g0 - 1)) else svc1
      | None => svc1 end = svc2 /\ core <$> groups svc2 = core <$> groups svc /\ members svc2 = l' /\
      group_hash svc2 = group_hash svc /\ counts_exact svc2) as (svc2 & -> & Ec & Em & Eh & Cn).
  { assert (group_index_find svc1 (Some g) = default (-1) (ref_gi (groups svc) g)) as Egi.
    { rewrite <- (group_index_ok svc _ g (go_index _ G)). by apply group_index_ext. }
    unfold group_find_nolock. rewrite Egi. destruct (ref_gi (groups svc) g) as [gi|] eqn:Eg; cbn [default from_option id].
    - pose proof (ref_gi_bound _ _ _ Eg) as Hb. destruct (Z.leb_spec 0 gi); [|lia].
      apply ref_gi_Some in Eg as (g0 & Hg0 & Hid). change (groups svc1) with (groups svc). rewrite Hg0.
      assert (g0 ∈ groups svc) as Hin by (apply at_Some in Hg0 as [_ Hg0]; by eapply list_elem_of_lookup_2).
      assert (0 < g_member_count g0) as Hpos.
      { rewrite (go_counts _ G g0 Hin), Hid. specialize (Hcnt g). rewrite decide_True in Hcnt by done. lia. }
      destruct (Z.ltb_spec 0 (g_member_count g0)); [|lia].
      assert (upd_at (with_count (g_member_count g0 - 1)) gi (groups svc) =
              upd_at (fun g => with_count (g_member_count g + -1) g) gi (groups svc)) as Eu.
      { apply at_split in Hg0 as (k1 & k2 & -> & ->). by rewrite !upd_at_app. }
      eexists. split; [done|]. split_and!; [cbn; apply upd_count_core; [done|lia]|done|done|].
      intros g1. cbn [groups upd_group members svc1 set_members]. rewrite Eu. revert g1.
      eapply counts_upd; [apply G|apply (group_ok_groups _ G)|exact Hg0|]. intros gid. by rewrite Hid.
    - eexists. cbn. split_and!; try done. intros g1 Hin. cbn. rewrite Hcnt, decide_False.
      + rewrite (go_counts _ G g1 Hin). lia.
      + apply ref_gi_None in Eg. intros ->. apply Eg. by apply list_elem_of_fmap_2. }
  destruct (group_rebuild_ok svc2) as (R1 & R2 & R3).
  - rewrite Eh. pose proof (group_ok_groups _ G) as [K1 K2 K3]. pose proof (core_id _ _ Ec) as Ei.
    assert (length (groups svc2) = length (groups svc)) as Elen
      by (rewrite <- (length_fmap core (groups svc2)), Ec; apply length_fmap).
    split; rewrite ?Ei, ?Elen; done.
  - by rewrite Em.
  - rewrite Em. pose proof (kt_max _ _ _ _ _ (group_ok_members _ G)). lia.
  - split_and!; [|by rewrite R1| |done].
    + split; [by rewrite R2|]. intros g1. rewrite R1, R2. apply Cn.
    + unfold role_map. rewrite R2, Em, (kmap_perm _ _ Hnd' Hp), El, <- Hk. by apply kmap_remove.
Qed.

(** A new group identifier: no group and no member has it. *)
Definition fresh_gid (svc : miku_group_service) (uuid : string) : Prop :=
  (uuid ∉ g_group_id <$> groups svc) /\ (forall m, m ∈ members svc -> m_group_id m <> uuid).

Lemma ref_gi_app gs g1 gid : gid <> g_group_id g1 -> ref_gi (gs ++ [g1])%list gid = ref_gi gs gid.
Proof.
  intros Hne. unfold ref_gi. induction gs as [|g gs IH]; cbn; [by rewrite decide_False by congruence|].
  case_decide; [done|]. destruct (list_find _ (gs ++ [g1])%list) as [[i x]|], (list_find _ gs) as [[j y]|];
    cbn in *; try done. injection IH as IH. f_equal. lia.
Qed.

Lemma idxs_unused gs l gi : Z.of_nat (length gs) <= gi -> idxs (group_of gs l) gi = [].
Proof.
  intros Hle. destruct (idxs (group_of gs l) gi) as [|i rest] eqn:E; [done|]. exfalso.
  assert (i ∈ idxs (group_of gs l) gi) as Hi by (rewrite E; by left). apply elem_of_idxs in Hi.
  unfold group_of in Hi. rewrite at_fmap in Hi. destruct (at_ l i) as [m|]; [|done]. cbn in Hi. simplify_eq.
  apply ref_gi_bound in Hi. lia.
Qed.

(** The group entry written by a creation. *)
Lemma new_group_ok svc g1 :
  group_ok svc -> fresh_gid svc (g_group_id g1) -> g_member_count g1 = 0 ->
  Z.of_nat (length (groups svc)) < MK_MAX_GROUPS ->
  let gi := Z.of_nat (length (groups svc)) in
  let svc2 := group_hash_insert (GroupService (groups svc ++ [g1])%list (members svc) (group_hash svc) (member_hash svc)
                                   (<[gi := -1]> (member_head svc)) (member_next svc)) gi in
  group_ok svc2 /\ groups svc2 = (groups svc ++ [g1])%list /\ members svc2 = members svc.
Proof.
  intros G [Hf1 Hf2] Hc Hlt. cbn zeta. unfold group_hash_insert. cbn [groups]. rewrite at_snoc.
  unfold MK_MAX_GROUPS in Hlt. rewrite i16_small by lia. split_and!; [|done|done].
  pose proof G as [[K P C] Cn]. split.
  - split; cbn [groups members group_hash member_hash member_head member_next].
    + exact (proj1 (ktable_insert g_group_id (fun _ => tt) group_hash_slot 2048 group_hash_slot_bound ltac:(done) _ _ g1 K Hf1 Hlt)).
    + exact P.
    + rewrite firstn_all in *. assert (group_of (groups svc ++ [g1])%list (members svc) = group_of (groups svc) (members svc)) as ->.
      { unfold group_of. apply list_fmap_ext. intros i m Hm. apply ref_gi_app. apply Hf2. by eapply list_elem_of_lookup_2. }
      destruct C as [C1 C2]. split; [|exact C2]. intros o Ho. rewrite length_app in Ho. cbn in Ho.
      destruct (decide (o = Z.of_nat (length (groups svc)))) as [->|Hne].
      * rewrite cell_insert_eq, idxs_unused by lia. done.
      * rewrite cell_insert_ne by done. apply C1. lia.
  - intros g. cbn [groups members]. intros [Hin|Hin]%elem_of_app; [by apply Cn|].
    apply list_elem_of_singleton in Hin as ->. rewrite Hc.
    destruct (filter (in_group (g_group_id g1)) (members svc)) as [|m l] eqn:E; [done|]. exfalso.
    assert (m ∈ filter (in_group (g_group_id g1)) (members svc)) as Hm by (rewrite E; by left).
    apply list_elem_of_filter in Hm as [Hm1 Hm2]. by apply (Hf2 m Hm2).
Qed.

Lemma create_ok svc now uuid g owner :
  group_ok svc -> fresh_gid svc uuid -> fits 63 uuid -> fits 63 owner ->
  let '(rc, svc', g') := group_create_nolock svc now uuid g (Some owner) in
  group_ok svc' /\
  (rc = -1 /\ svc' = svc /\ MK_MAX_GROUPS <= Z.of_nat (length (groups svc)) \/
   rc = 0 /\ g_group_id g' = uuid /\
   core <$> groups svc' = ((core <$> groups svc) ++ [Group uuid (g_group_name g) (g_face_url g) owner (g_group_type g) 0 0 (g_ex g) now])%list /\
   (role_map svc' = <[(uuid, owner) := 100]> (role_map svc) \/
    role_map svc' = role_map svc /\ MK_MAX_MEMBERS <= Z.of_nat (length (members svc)))).
Proof.
  intros G Hf Hu Ho. unfold group_create_nolock.
  destruct (Z.leb_spec MK_MAX_GROUPS (Z.of_nat (length (groups svc)))) as [|Hlt]; [split; [done|by left]|].
  rewrite (strn_short 63 owner) by done. set (g1 := Group uuid _ _ owner _ 0 0 _ now).
  destruct (new_group_ok svc g1 G Hf eq_refl Hlt) as (G2 & Eg2 & Em2). cbn zeta in *.
  set (svc2 := group_hash_insert _ _) in *. clearbody svc2.
  pose proof (add_member_ok svc2 now uuid owner 100 G2 Hu Ho) as A.
  destruct (group_add_member_nolock svc2 now (Some uuid) (Some owner) 100) as [rc3 svc3]. cbn [snd].
  destruct A as (G3 & Ec & A). split; [done|]. right. rewrite Ec, Eg2, fmap_app. split_and!; [done|by destruct (group_find_nolock svc3 (Some uuid))|done|].
  assert (role_map svc2 = role_map svc) as Er by (unfold role_map; by rewrite Em2).
  assert (role_map svc !! (uuid, owner) = None) as Hnone.
  { apply kmap_None. intros Hin. apply list_elem_of_fmap in Hin as (m & Hk & Hm). injection Hk as Hk _.
    by apply (proj2 Hf m Hm). }
  destruct A as [(_ & -> & Hfull)|(_ & A)].
  - right. rewrite Em2 in Hfull. done.
  - left. by rewrite A, Er, Hnone.
Qed.

(** ** Queries *)

Lemma is_member_ok svc g u : group_ok svc -> nonempty g = true -> nonempty u = true ->
  group_is_member_nolock svc (Some g) (Some u) = bool_decide (is_Some (role_map svc !! (g, u))).
Proof.
  intros G Hg Hu. unfold group_is_member_nolock. cbn [given default from_option id]. rewrite Hg, Hu. cbn [andb].
  destruct (member_find_ok svc g u (go_index _ G)) as [(m & Hm & _ & M)|(-> & M & _)]; rewrite M.
  - rewrite bool_decide_true by eauto. destruct (Z.leb_spec 0 (member_index_find svc g u)); [done|apply at_lt in Hm; lia].
  - rewrite bool_decide_false by (by intros [? ?]). done.
Qed.

Lemma member_role_ok svc g u : group_ok svc -> nonempty g = true -> nonempty u = true ->
  group_member_role_nolock svc (Some g) (Some u) = default (-1) (role_map svc !! (g, u)).
Proof.
  intros G Hg Hu. unfold group_member_role_nolock. cbn [given default from_option id]. rewrite Hg, Hu. cbn [andb].
  destruct (member_find_ok svc g u (go_index _ G)) as [(m & -> & _ & ->)|(-> & -> & _)]; done.
Qed.

(** The listing visits exactly the members of the group, each once. *)
Lemma visit_ok svc gid : group_ok svc ->
  visit_members svc gid ≡ₚ filter (in_group gid) (members svc).
Proof.
  intros G. unfold visit_members. rewrite (group_index_ok svc _ gid (go_index _ G)).
  destruct (ref_gi (groups svc) gid) as [gi|] eqn:Eg; cbn [default from_option id]; [|done].
  pose proof (ref_gi_bound _ _ _ Eg) as Hb. destruct (Z.leb_spec 0 gi); [|lia]. unfold chain_members.
  destruct G as [[K _ C] _]. rewrite firstn_all in C.
  rewrite (heads_walk _ _ _ _ gi _ C Hb) by (unfold group_of; rewrite length_fmap; lia).
  unfold group_of. rewrite omap_idxs, reverse_Permutation.
  rewrite (list_filter_iff _ (in_group gid)); [done|]. intros m. unfold in_group.
  apply ref_gi_Some in Eg as (g & Hg & <-). split.
  - intros (g' & Hg' & Hid)%ref_gi_Some. congruence.
  - intros ->. apply ref_gi_at; [apply K|done].
Qed.

Lemma foreach_ok svc gid u r : group_ok svc ->
  (u, r) ∈ group_foreach_member_nolock svc (Some gid) <-> role_map svc !! (gid, u) = Some r.
Proof.
  intros G. cbn. rewrite list_elem_of_fmap.
  pose proof (kt_nodup _ _ _ _ _ (group_ok_members _ G)) as Hnd. split.
  - intros (m & [= -> ->] & Hm). rewrite (visit_ok svc gid G) in Hm.
    apply list_elem_of_filter in Hm as [<- Hm]. apply list_elem_of_lookup in Hm as [i Hi]. rewrite <- at_of_nat in Hi.
    exact (kmap_at member_key m_role_level _ _ m Hnd Hi).
  - intros H. apply kmap_lookup_Some in H as (i & m & Hi & Hk & <-); [|done]. injection Hk as Hg <-.
    exists m. split; [done|]. rewrite (visit_ok svc gid G). apply list_elem_of_filter. split; [done|].
    apply at_Some in Hi as [_ Hi]. by eapply list_elem_of_lookup_2.
Qed.

Lemma find_count_ok svc gid g : group_ok svc ->
  group_find_nolock svc (Some gid) = Some g ->
  g_group_id g = gid /\ g_member_count g = Z.of_nat (length (group_foreach_member_nolock svc (Some gid))).
Proof.
  intros G. unfold group_find_nolock. rewrite (group_index_ok svc _ gid (go_index _ G)).
  destruct (ref_gi (groups svc) gid) as [gi|] eqn:Eg; cbn [default from_option id]; [|done].
  destruct (Z.leb_spec 0 gi); [|done]. intros Hg. apply ref_gi_Some in Eg as (g' & Hg' & Hid).
  assert (g' = g) as -> by congruence. split; [done|]. cbn. rewrite length_fmap, (visit_ok svc gid G), <- Hid.
  apply (go_counts _ G). apply at_Some in Hg as [_ Hg]. by eapply list_elem_of_lookup_2.
Qed.

Lemma group_ok_create : group_ok miku_group_service_create.
Proof.
  split; [|intros g Hg; by apply elem_of_nil in Hg].
  split; [by apply ktable_empty|by apply ktable_empty|]. apply heads_ok_empty. cbn. lia.
Qed.

(** Membership, roles, listings and counters of a consistent service are
    those of its role map. *)
Lemma members_correct svc gid u : group_ok svc -> nonempty gid = true -> nonempty u = true ->
  miku_group_is_member svc (Some gid) (Some u) = bool_decide (is_Some (role_map svc !! (gid, u))) /\
  miku_group_member_role svc (Some gid) (Some u) = default (-1) (role_map svc !! (gid, u)) /\
  (forall v r, (v, r) ∈ miku_group_foreach_member svc (Some gid) <-> role_map svc !! (gid, v) = Some r) /\
  NoDup (fst <$> miku_group_foreach_member svc (Some gid)) /\
  (forall g, miku_group_find svc (Some gid) = Some g ->
     g_member_count g = Z.of_nat (length (miku_group_foreach_member svc (Some gid)))).
Proof.
  intros G Hg Hu. split_and!.
  - by apply is_member_ok.
  - by apply member_role_ok.
  - intros v r. by apply foreach_ok.
  - cbn. rewrite <- list_fmap_compose. cbn. rewrite (visit_ok svc gid G).
    pose proof (kt_nodup _ _ _ _ _ (group_ok_members _ G)) as Hnd.
    assert (NoDup (member_key <$> filter (in_group gid) (members svc))) as H by by apply NoDup_fmap_filter.
    assert (snd <$> (member_key <$> filter (in_group gid) (members svc)) = m_user_id <$> filter (in_group gid) (members svc)) as E
      by (by rewrite <- list_fmap_compose).
    change (NoDup (m_user_id <$> filter (in_group gid) (members svc))). rewrite <- E.
    apply NoDup_fmap_2_strong; [|done]. intros [a b] [c d] Ha Hc. cbn. intros ->.
    apply list_elem_of_fmap in Ha as (x & [= -> ->] & [<- _]%list_elem_of_filter).
    apply list_elem_of_fmap in Hc as (y & [= -> ->] & [<- _]%list_elem_of_filter). done.
  - intros g Hf. by apply find_count_ok.
Qed.
