(* ===== verification/GroupRpc.v ===== *)
(** * RPC handlers of the group service (services/group/miku_group.c)

    [miku_group_handle_rpc] holds the write lock for the whole dispatch, so a
    request is one atomic step.  Each case of the switch is a definition; it
    takes the clock and the identifier [uuid] that [miku_uuid_generate] returns
    if it is called. *)
From S2P Require Import Prelude Hash ProbeIndex KeyedMap ChainIndex Json JsonText Models RpcNames Group.
#[local] Open Scope string_scope.
#[local] Open Scope Z_scope.

Definition g_group_rpc_names : list string :=
  ["createGroup"; "getGroupInfo"; "inviteToGroup"; "getGroupMemberList"; "getGroupsInfo"; "setGroupInfo";
   "setGroupMemberInfo"; "joinGroup"; "quitGroup"; "dismissGroup"; "muteGroup"; "cancelMuteGroup";
   "kickGroupMember"; "transferGroupOwner"; "getJoinedGroupList"; "getGroupApplicationList";
   "getGroupApplicantList"; "acceptGroupApplication"; "refuseGroupApplication"; "getGroupMemberUserID";
   "muteGroupMember"; "cancelMuteGroupMember"; "getFullGroupMemberUserIDs"; "getFullJoinGroupIDs";
   "getGroupAbstractInfo"; "getGroupApplicationUnhandledCount"; "getGroupUsersReqApplicationList";
   "getGroups"; "getIncrementalGroupMemberBatch"; "getIncrementalGroupMembers"; "getIncrementalJoinGroups";
   "getRecvGroupApplicationList"; "getSpecifiedUserGroupRequestInfo"; "getUserReqGroupApplicationList";
   "setGroupInfoEx"].

Definition group_rpc_init : gmap Z Z := rpc_init g_group_rpc_names.
Definition group_rpc_id (method : option string) : Z := rpc_id g_group_rpc_names method.

Definition handler : Type :=
  miku_group_service -> (nat -> Z) -> string -> option json -> json -> miku_group_service * json.

Definition err (svc : miku_group_service) (resp : json) (code : Z) : miku_group_service * json :=
  (svc, miku_ji resp "errCode" code).

(** The strings of an array value, NULL for an item that is not a string; none
    for a NULL or another type. *)
Definition json_strings (v : option json) : list (option string) :=
  match miku_json_type v with
  | MK_JSON_ARRAY => (fun i => miku_json_str (miku_json_at v i)) <$> seqZ 0 (miku_json_size v)
  | _ => []
  end.

(** The items with their positions. *)
Definition numbered {A} (l : list A) : list (nat * A) := imap pair l.

(** [gid ? group_find_nolock(svc, gid) : NULL], with its index. *)
Definition find_group (svc : miku_group_service) (gid : option string) : option (Z * miku_group) :=
  match group_find_nolock svc gid with
  | Some g => Some (group_index_find svc gid, g)
  | None => None
  end.

Definition get_or (req : option json) (k1 k2 : string) : option json :=
  match miku_json_get req (Some k1) with Some v => Some v | None => miku_json_get req (Some k2) end.

Definition rpc_createGroup : handler := fun svc clock uuid req resp =>
  let name := jstr req "groupName" in
  let owner := jstr req "ownerUserID" in
  let g0 := Group "" (strn 63 (default "" name)) "" "" 0 0 0 "" 0 in
  let '(rc, svc1, g) := group_create_nolock svc (clock 0%nat) uuid g0 owner in
  let svc2 :=
    if rc =? 0 then
      foldl (fun s p =>
               match p.2, owner with
               | Some u, Some o =>
                   if streq u o then s
                   else (group_add_member_nolock s (clock (S p.1)) (Some (g_group_id g)) (Some u) 20).2
               | _, _ => s
               end) svc1 (numbered (json_strings (get_or req "memberUserIDs" "invitedUserIDs")))
    else svc1 in
  let resp := miku_ji resp "errCode" (if rc =? 0 then 0 else 500) in
  (svc2, if rc =? 0 then miku_jss resp "data" (Some (g_group_id g)) else resp).

Definition rpc_getGroupInfo : handler := fun svc _ _ req resp =>
  match group_find_nolock svc (jstr req "groupID") with
  | Some g => (svc, jset (miku_ji resp "errCode" 0) "data" (miku_group_to_json (Some g)))
  | None => err svc resp 3001
  end.

Definition rpc_inviteToGroup : handler := fun svc clock _ req resp =>
  let gid := jstr req "groupID" in
  let from := or_empty (jstr req "fromUserID") (jstr req "opUserID") in
  match group_find_nolock svc gid with
  | None => err svc resp 3001
  | Some g =>
      if negb (g_status g =? 0) then err svc resp 3003
      else if negb (given from) || (group_member_role_nolock svc gid from <? 20) then err svc resp 3003
      else
        let uid := jstr req "userID" in
        let '(rc, svc1) := if given uid then group_add_member_nolock svc (clock 0%nat) gid uid 20 else (-1, svc) in
        let '(rc, svc2) :=
          foldl (fun acc p =>
                   let '(rc, s) := acc in
                   if given p.2 then
                     let '(r, s') := group_add_member_nolock s (clock (S p.1)) gid p.2 20 in
                     (if r =? 0 then 0 else rc, s')
                   else (rc, s)) (rc, svc1) (numbered (json_strings (miku_json_get req (Some "invitedUserIDs")))) in
        err svc2 resp (if rc =? 0 then 0 else 3002)
  end.

(** The members of a listing request, as [f] prints them. *)
Definition list_items (svc : miku_group_service) (gid : option string) (f : miku_group_member -> json) : list json :=
  match gid with Some g => f <$> visit_members svc g | None => [] end.

Definition rpc_getGroupMemberList : handler := fun svc _ _ req resp =>
  (svc, with_data (miku_ji resp "errCode" 0)
          (list_items svc (jstr req "groupID") (fun m => miku_group_member_to_json (Some m)))).

Definition rpc_getGroupsInfo : handler := fun svc _ _ req resp =>
  (svc, with_data (miku_ji resp "errCode" 0)
          (omap (fun gid => (fun g => miku_group_to_json (Some g)) <$> group_find_nolock svc gid)
                (json_strings (miku_json_get req (Some "groupIDList"))))).

(** The operator of an administrative request. *)
Definition req_op (req : option json) : option string :=
  or_empty (or_empty (jstr req "opUserID") (jstr req "fromUserID")) (jstr req "userID").

Definition set_name (name : option string) (g : miku_group) : miku_group :=
  match name with
  | Some n => Group (g_group_id g) (strn 63 n) (g_face_url g) (g_owner_user_id g) (g_group_type g)
                    (g_member_count g) (g_status g) (g_ex g) (g_create_time g)
  | None => g
  end.

Definition set_ex (ex : option string) (g : miku_group) : miku_group :=
  match ex with
  | Some e => Group (g_group_id g) (g_group_name g) (g_face_url g) (g_owner_user_id g) (g_group_type g)
                    (g_member_count g) (g_status g) (strn 1023 e) (g_create_time g)
  | None => g
  end.

Definition rpc_setGroupInfo : handler := fun svc _ _ req resp =>
  let gid := jstr req "groupID" in
  let op := req_op req in
  match find_group svc gid with
  | None => err svc resp 3001
  | Some (gi, _) =>
      if negb (given op) || (group_member_role_nolock svc gid op <? 60) then err svc resp 3003
      else err (upd_group svc gi (set_name (jstr req "groupName"))) resp 0
  end.

Definition rpc_setGroupMemberInfo : handler := fun svc _ _ req resp =>
  let gid := jstr req "groupID" in
  let op := req_op req in
  if negb (given gid) || negb (given op) || (group_member_role_nolock svc gid op <? 60) then err svc resp 3003
  else err svc resp 0.

Definition rpc_joinGroup : handler := fun svc _ _ req resp =>
  match group_find_nolock svc (jstr req "groupID") with
  | None => err svc resp 3001
  | Some _ => err svc resp 3003
  end.

Definition rpc_quitGroup : handler := fun svc _ _ req resp =>
  let gid := jstr req "groupID" in
  let uid := jstr req "userID" in
  match group_find_nolock svc gid with
  | None => err svc resp 3001
  | Some g =>
      if negb (g_status g =? 0) then err svc resp 3003
      else if negb (given uid) then err svc resp 400
      else if streq (default "" uid) (g_owner_user_id g) then err svc resp 3003
      else
        let '(rc, svc') := group_remove_member_nolock svc gid uid in
        err svc' resp (if rc =? 0 then 0 else 3002)
  end.

(** [strcmp(op, g->owner_user_id) == 0] and a member of the group. *)
Definition is_owner (svc : miku_group_service) (gid op : option string) (g : miku_group) : bool :=
  given op && streq (default "" op) (g_owner_user_id g) && group_is_member_nolock svc gid op.

Definition dismissed (g : miku_group) : miku_group :=
  Group (g_group_id g) (g_group_name g) (g_face_url g) (g_owner_user_id g) (g_group_type g) 0 2 (g_ex g)
        (g_create_time g).

Definition rpc_dismissGroup : handler := fun svc _ _ req resp =>
  let gid := jstr req "groupID" in
  let op := or_empty (jstr req "userID") (jstr req "fromUserID") in
  match find_group svc gid with
  | None => err svc resp 3001
  | Some (gi, g) =>
      if negb (is_owner svc gid op g) then err svc resp 3003
      else
        let svc1 := set_members svc (filter (fun m => m_group_id m <> default "" gid) (members svc)) in
        err (rebuild_member_indexes (upd_group svc1 gi dismissed)) resp 0
  end.

(** [muteGroup] and [cancelMuteGroup]. *)
Definition rpc_muteGroup : handler := fun svc _ _ req resp =>
  let gid := jstr req "groupID" in
  let op := req_op req in
  match group_find_nolock svc gid with
  | None => err svc resp 3001
  | Some g =>
      if negb (g_status g =? 0) then err svc resp 3003
      else if negb (given op) || (group_member_role_nolock svc gid op <? 60) then err svc resp 3003
      else err svc resp 0
  end.

(** The operator of a request on a member. *)
Definition member_op (req : option json) : option string :=
  or_empty (or_empty (jstr req "opUserID") (jstr req "fromUserID")) (jstr req "ownerUserID").

(** [u] may be removed by [op] whose role is [op_role]. *)
Definition kickable (svc : miku_group_service) (gid op : option string) (owner : string) (op_role : Z)
    (u : option string) : bool :=
  given u && negb (streq (default "" u) (default "" op)) && negb (streq (default "" u) owner) &&
  (group_member_role_nolock svc gid u <? op_role).

Definition rpc_kickGroupMember : handler := fun svc _ _ req resp =>
  let gid := jstr req "groupID" in
  let op := member_op req in
  let op_role := if given op then group_member_role_nolock svc gid op else -1 in
  match group_find_nolock svc gid with
  | None => err svc resp 3003
  | Some g =>
      if negb (g_status g =? 0) || (op_role <? 60) then err svc resp 3003
      else
        let uid := jstr req "userID" in
        let owner := g_owner_user_id g in
        let '(rc, svc1) := if kickable svc gid op owner op_role uid
                           then group_remove_member_nolock svc gid uid else (-1, svc) in
        let '(rc, svc2) :=
          foldl (fun acc u =>
                   let '(rc, s) := acc in
                   if kickable s gid op owner op_role u then
                     let '(r, s') := group_remove_member_nolock s gid u in (if r =? 0 then 0 else rc, s')
                   else (rc, s)) (rc, svc1) (json_strings (get_or req "kickedUserIDs" "invitedUserIDs")) in
        err svc2 resp (if rc =? 0 then 0 else 3002)
  end.

Definition set_role (role : Z) (m : miku_group_member) : miku_group_member :=
  Member (m_group_id m) (m_user_id m) role (m_join_source m) (m_operator_id m) (m_join_time m) (m_ex m).

Definition set_owner (owner : string) (g : miku_group) : miku_group :=
  Group (g_group_id g) (g_group_name g) (g_face_url g) (strn 63 owner) (g_group_type g)
        (g_member_count g) (g_status g) (g_ex g) (g_create_time g).

(** The writes of a transfer to the member at [new_mi]. *)
Definition transfer_owner (svc : miku_group_service) (gi : Z) (g : miku_group) (gid new_owner : string) (new_mi : Z) : miku_group_service :=
  let old_mi := member_index_find svc gid (g_owner_user_id g) in
  let svc1 := if 0 <=? old_mi then upd_member svc old_mi (set_role 20) else svc in
  let svc2 := upd_member svc1 new_mi (set_role 100) in
  upd_group svc2 gi (set_owner new_owner).

Definition rpc_transferGroupOwner : handler := fun svc _ _ req resp =>
  let gid := jstr req "groupID" in
  let op := or_empty (or_empty (jstr req "userID") (jstr req "fromUserID")) (jstr req "opUserID") in
  let new_owner := match jstr req "newOwnerUserID" with Some o => Some o | None => jstr req "ownerUserID" end in
  match find_group svc gid with
  | None => err svc resp 3001
  | Some (gi, g) =>
      if negb (given new_owner) then err svc resp 3001
      else if negb (is_owner svc gid op g) then err svc resp 3003
      else
        let new_mi := member_index_find svc (default "" gid) (default "" new_owner) in
        if new_mi <? 0 then err svc resp 3002
        else err (transfer_owner svc gi g (default "" gid) (default "" new_owner) new_mi) resp 0
  end.

Definition list_user (req : option json) : option string := or_empty (jstr req "ownerUserID") (jstr req "userID").

Definition rpc_getJoinedGroupList : handler := fun svc _ _ req resp =>
  let items :=
    match list_user req with
    | None => []
    | Some uid =>
        omap (fun m => match group_find_nolock svc (Some (m_group_id m)) with
                       | Some g => if g_status g =? 0 then Some (miku_group_to_json (Some g)) else None
                       | None => None end) (filter (fun m => m_user_id m = uid) (members svc))
    end in
  (svc, with_data (miku_ji resp "errCode" 0) items).

(** The requests that are answered with an empty list. *)
Definition rpc_empty_list : handler := fun svc _ _ _ resp => (svc, with_data (miku_ji resp "errCode" 0) []).

(** [acceptGroupApplication], [refuseGroupApplication],
    [getSpecifiedUserGroupRequestInfo]. *)
Definition rpc_ack : handler := fun svc _ _ _ resp => err svc resp 0.

(** [getGroupMemberUserID] and [getFullGroupMemberUserIDs]. *)
Definition rpc_getGroupMemberUserID : handler := fun svc _ _ req resp =>
  (svc, with_data (miku_ji resp "errCode" 0)
          (list_items svc (jstr req "groupID") (fun m => miku_json_create_str (Some (m_user_id m))))).

(** [muteGroupMember] and [cancelMuteGroupMember]. *)
Definition rpc_muteGroupMember : handler := fun svc _ _ req resp =>
  let gid := jstr req "groupID" in
  let op := member_op req in
  let op_role := if given op then group_member_role_nolock svc gid op else -1 in
  match group_find_nolock svc gid with
  | None => err svc resp 3003
  | Some g => if negb (g_status g =? 0) || (op_role <? 60) then err svc resp 3003 else err svc resp 0
  end.

Definition rpc_getFullJoinGroupIDs : handler := fun svc _ _ req resp =>
  let items :=
    match list_user req with
    | None => []
    | Some uid => (fun m => miku_json_create_str (Some (m_group_id m))) <$> filter (fun m => m_user_id m = uid) (members svc)
    end in
  (svc, with_data (miku_ji resp "errCode" 0) items).

Definition rpc_unhandledCount : handler := fun svc _ _ _ resp =>
  (svc, miku_ji (miku_ji resp "errCode" 0) "count" 0).

Definition rpc_setGroupInfoEx : handler := fun svc _ _ req resp =>
  let gid := jstr req "groupID" in
  let op := req_op req in
  match find_group svc gid with
  | None => err svc resp 3001
  | Some (gi, _) =>
      if negb (given op) || (group_member_role_nolock svc gid op <? 60) then err svc resp 3003
      else err (upd_group svc gi (fun g => set_ex (jstr req "ex") (set_name (jstr req "groupName") g))) resp 0
  end.

Definition group_handle_rpc_locked (method : option string) : handler := fun svc clock uuid req resp =>
  match group_rpc_id method with
  | 0 => rpc_createGroup svc clock uuid req resp
  | 1 => rpc_getGroupInfo svc clock uuid req resp
  | 2 => rpc_inviteToGroup svc clock uuid req resp
  | 3 => rpc_getGroupMemberList svc clock uuid req resp
  | 4 => rpc_getGroupsInfo svc clock uuid req resp
  | 5 => rpc_setGroupInfo svc clock uuid req resp
  | 6 => rpc_setGroupMemberInfo svc clock uuid req resp
  | 7 => rpc_joinGroup svc clock uuid req resp
  | 8 => rpc_quitGroup svc clock uuid req resp
  | 9 => rpc_dismissGroup svc clock uuid req resp
  | 10 | 11 => rpc_muteGroup svc clock uuid req resp
  | 12 => rpc_kickGroupMember svc clock uuid req resp
  | 13 => rpc_transferGroupOwner svc clock uuid req resp
  | 14 => rpc_getJoinedGroupList svc clock uuid req resp
  | 15 | 16 => rpc_empty_list svc clock uuid req resp
  | 17 | 18 => rpc_ack svc clock uuid req resp
  | 19 | 22 => rpc_getGroupMemberUserID svc clock uuid req resp
  | 20 | 21 => rpc_muteGroupMember svc clock uuid req resp
  | 23 => rpc_getFullJoinGroupIDs svc clock uuid req resp
  | 24 => rpc_empty_list svc clock uuid req resp
  | 25 => rpc_unhandledCount svc clock uuid req resp
  | 26 | 27 | 28 | 29 | 30 | 31 => rpc_empty_list svc clock uuid req resp
  | 32 => rpc_ack svc clock uuid req resp
  | 33 => rpc_empty_list svc clock uuid req resp
  | 34 => rpc_setGroupInfoEx svc clock uuid req resp
  | _ => err svc resp 404
  end.

Definition miku_group_handle_rpc (method : option string) : handler := fun svc clock uuid req resp =>
  match method with
  | None => (svc, resp)
  | Some _ => group_handle_rpc_locked method svc clock uuid req resp
  end.

(** ** Abstract view and permitted changes *)

(** Owner and status of every group. *)
Definition owner_map (svc : miku_group_service) : gmap string (string * Z) :=
  kmap g_group_id (fun g => (g_owner_user_id g, g_status g)) (groups svc).

Definition view : Type := gmap string (string * Z) * gmap (string * string) Z.
Definition view_of (svc : miku_group_service) : view := (owner_map svc, role_map svc).

(** One change that [actor] may make: a member invites; a member that does
    not own the group leaves; an administrator (60) removes a member of a lower
    role; the owner dismisses the group or hands it over to a member; anybody
    creates a group, which it then owns. *)
Inductive permitted (actor : string) : view -> view -> Prop :=
  | p_invite O R g o u r :
      O !! g = Some (o, 0) -> R !! (g, actor) = Some r -> 20 <= r -> R !! (g, u) = None ->
      permitted actor (O, R) (O, <[(g, u) := 20]> R)
  | p_quit O R g o :
      O !! g = Some (o, 0) -> actor <> o ->
      permitted actor (O, R) (O, delete (g, actor) R)
  | p_kick O R g o u r ru :
      O !! g = Some (o, 0) -> R !! (g, actor) = Some r -> 60 <= r -> R !! (g, u) = Some ru -> ru < r ->
      u <> o -> u <> actor -> permitted actor (O, R) (O, delete (g, u) R)
  | p_dismiss O R g st R' :
      O !! g = Some (actor, st) -> is_Some (R !! (g, actor)) ->
      (forall k, R' !! k = if decide (k.1 = g) then None else R !! k) ->
      permitted actor (O, R) (<[g := (actor, 2)]> O, R')
  | p_transfer O R g st new :
      O !! g = Some (actor, st) -> is_Some (R !! (g, actor)) -> is_Some (R !! (g, new)) ->
      permitted actor (O, R) (<[g := (new, st)]> O, <[(g, new) := 100]> (<[(g, actor) := 20]> R))
  | p_create O R g :
      O !! g = None -> (forall u, R !! (g, u) = None) ->
      permitted actor (O, R) (<[g := (actor, 0)]> O, <[(g, actor) := 100]> R).

(** The identifiers that a request can enter into the tables fit their fields
    of 64 bytes.  Other strings, such as the name of a group, are not
    restricted. *)
Definition req_fits (req : option json) : Prop :=
  (forall k, k ∈ ["groupID"; "userID"; "ownerUserID"; "newOwnerUserID"] -> fits 63 (default "" (jstr req k))) /\
  (forall k u, k ∈ ["memberUserIDs"; "invitedUserIDs"] -> u ∈ json_strings (miku_json_get req (Some k)) -> fits 63 (default "" u)).

(** The user in whose name a request acts, field by field as the handlers
    read it. *)
Definition acts_as (req : option json) (actor : string) : Prop :=
  exists k, k ∈ ["ownerUserID"; "fromUserID"; "opUserID"; "userID"] /\ jstr req k = Some actor.

(** ** Proofs *)

Lemma find_ok svc gid g : group_ok svc -> group_find_nolock svc gid = Some g ->
  exists s, gid = Some s /\ at_ (groups svc) (group_index_find svc gid) = Some g /\ g_group_id g = s /\
    owner_map svc !! s = Some (g_owner_user_id g, g_status g).
Proof.
  intros G. unfold group_find_nolock. destruct gid as [s|]; [|done].
  rewrite (group_index_ok svc _ s (go_index _ G)).
  destruct (ref_gi (groups svc) s) as [gi|] eqn:Eg; cbn [default from_option id]; [|done].
  destruct (Z.leb_spec 0 gi); [|done]. intros Hg. apply ref_gi_Some in Eg as (g' & Hg' & Hid).
  assert (g' = g) as -> by congruence. exists s. split_and!; try done. rewrite <- Hid.
  exact (kmap_at g_group_id (fun g => (g_owner_user_id g, g_status g)) _ gi g (kt_nodup _ _ _ _ _ (group_ok_groups _ G)) Hg).
Qed.

Lemma owner_map_core svc svc' : core <$> groups svc' = core <$> groups svc -> owner_map svc' = owner_map svc.
Proof.
  intros E. unfold owner_map. apply kmap_ext.
  assert (forall l, (fun e => (g_group_id e, (g_owner_user_id e, g_status e))) <$> l =
                    (fun e => (g_group_id e, (g_owner_user_id e, g_status e))) <$> (core <$> l)) as H
    by (intros l; by rewrite <- list_fmap_compose).
  rewrite (H (groups svc')), (H (groups svc)). by rewrite E.
Qed.

(** A write to a group that keeps its identifier and counter. *)
Lemma upd_group_ok svc gi g f :
  group_ok svc -> at_ (groups svc) gi = Some g ->
  (forall g, g_group_id (f g) = g_group_id g /\ g_member_count (f g) = g_member_count g) ->
  group_ok (upd_group svc gi f) /\ role_map (upd_group svc gi f) = role_map svc /\
  owner_map (upd_group svc gi f) = <[g_group_id g := (g_owner_user_id (f g), g_status (f g))]> (owner_map svc).
Proof.
  intros G Hg Hf. assert (0 <= gi) as Hi by (apply at_lt in Hg; lia).
  pose proof (kt_nodup _ _ _ _ _ (group_ok_groups _ G)) as Hnd. split_and!; [split| |].
  - eapply indexed_upto_ext; [apply G| |done..]. apply fmap_upd_at; [|done]. intros x _. apply Hf.
  - intros x Hx. cbn in Hx. apply list_elem_of_lookup in Hx as [j Hj]. rewrite <- at_of_nat in Hj.
    destruct (decide (Z.of_nat j = gi)) as [<-|Hne].
    + rewrite (at_upd_eq _ _ _ g Hg) in Hj. simplify_eq. destruct (Hf g) as [-> ->]. apply (go_counts _ G).
      apply at_Some in Hg as [_ Hg]. by eapply list_elem_of_lookup_2.
    + rewrite at_upd_ne in Hj by (congruence || lia). apply (go_counts _ G).
      apply at_Some in Hj as [_ Hj]. by eapply list_elem_of_lookup_2.
  - done.
  - unfold owner_map. cbn [groups upd_group].
    rewrite (kmap_upd g_group_id _ _ _ _ g Hnd Hg) by apply Hf. done.
Qed.

Lemma filter_upd_length gid mi m f (l : list miku_group_member) :
  (forall m, m_group_id (f m) = m_group_id m) -> at_ l mi = Some m ->
  length (filter (in_group gid) (upd_at f mi l)) = length (filter (in_group gid) l).
Proof.
  intros Hf (l1 & l2 & -> & ->)%at_split.
  rewrite upd_at_app, !list.filter_app, !length_app. f_equal. destruct (decide (in_group gid m)) as [H|H].
  - rewrite !filter_cons_True; [done|done|]. unfold in_group in *. by rewrite Hf.
  - rewrite !filter_cons_False; [done|done|]. unfold in_group in *. by rewrite Hf.
Qed.

(** A change of role. *)
Lemma set_role_ok svc mi m r :
  group_ok svc -> at_ (members svc) mi = Some m ->
  group_ok (upd_member svc mi (set_role r)) /\ owner_map (upd_member svc mi (set_role r)) = owner_map svc /\
  role_map (upd_member svc mi (set_role r)) = <[member_key m := r]> (role_map svc).
Proof.
  intros G Hm. assert (0 <= mi) as Hi by (apply at_lt in Hm; lia).
  pose proof (kt_nodup _ _ _ _ _ (group_ok_members _ G)) as Hnd. split_and!; [split| |].
  - cbn [members upd_member]. rewrite length_upd_at. eapply indexed_upto_ext; [apply G|done| |done..].
    by apply fmap_upd_at.
  - intros g Hg. cbn [members upd_member]. rewrite (filter_upd_length _ _ m) by done. by apply (go_counts _ G).
  - done.
  - unfold role_map. cbn [members upd_member]. by rewrite (kmap_upd member_key _ _ _ _ m Hnd Hm).
Qed.

(** Removing all members of a dismissed group. *)
Lemma dismiss_ok svc gi g gid :
  group_ok svc -> at_ (groups svc) gi = Some g -> g_group_id g = gid ->
  let svc' := rebuild_member_indexes (upd_group
    (set_members svc (filter (fun m => m_group_id m <> gid) (members svc))) gi dismissed) in
  group_ok svc' /\ owner_map svc' = <[gid := (g_owner_user_id g, 2)]> (owner_map svc) /\
  (forall k, role_map svc' !! k = if decide (k.1 = gid) then None else role_map svc !! k).
Proof.
  intros G Hg Hid. cbn zeta. set (l := filter (fun m => m_group_id m <> gid) (members svc)).
  assert (0 <= gi) as Hi by (apply at_lt in Hg; lia).
  pose proof (group_ok_groups _ G) as Kg. pose proof (group_ok_members _ G) as Km.
  pose proof (kt_nodup _ _ _ _ _ Km) as Hnd. pose proof (kt_nodup _ _ _ _ _ Kg) as Hndg.
  assert (NoDup (member_key <$> l)) as Hnd' by by apply NoDup_fmap_filter.
  assert (g_group_id <$> upd_at dismissed gi (groups svc) = g_group_id <$> groups svc) as Ei by by apply fmap_upd_at.
  destruct (group_rebuild_ok (upd_group (set_members svc l) gi dismissed)) as (R1 & R2 & R3).
  - cbn [groups group_hash upd_group set_members]. destruct Kg as [K1 K2 K3].
    split; rewrite ?Ei, ?length_upd_at; done.
  - done.
  - cbn [members upd_group set_members]. pose proof (kt_max _ _ _ _ _ Km).
    assert (length l <= length (members svc))%nat by apply length_filter. lia.
  - set (svc' := rebuild_member_indexes _) in *. cbn [groups members upd_group set_members] in R1, R2.
    assert (forall m, m ∈ l <-> m ∈ members svc /\ m_group_id m <> gid) as Hl.
    { intros m. unfold l. rewrite list_elem_of_filter. tauto. }
    assert (forall gid', length (filter (in_group gid') l) =
      if decide (gid' = gid) then 0%nat else length (filter (in_group gid') (members svc))) as Hc.
    { intros gid'. unfold l. rewrite list_filter_filter. case_decide as E.
      - rewrite (list_filter_iff _ (fun _ => False)); [|unfold in_group; naive_solver].
        clear. induction (members svc) as [|x t IH]; [done|]. rewrite filter_cons_False by tauto. exact IH.
      - f_equal. apply list_filter_iff. unfold in_group. naive_solver. }
    split_and!; [split| |].
    + by rewrite R2.
    + intros x. rewrite R1, R2, Hc. intros Hx. apply list_elem_of_lookup in Hx as [j Hj]. rewrite <- at_of_nat in Hj.
      destruct (decide (Z.of_nat j = gi)) as [<-|Hne].
      * rewrite (at_upd_eq _ _ _ g Hg) in Hj. simplify_eq. by rewrite decide_True.
      * rewrite at_upd_ne in Hj by (congruence || lia). rewrite decide_False.
        -- apply (go_counts _ G). apply at_Some in Hj as [_ Hj]. by eapply list_elem_of_lookup_2.
        -- intros E. apply Hne. rewrite <- Hid in E. pose proof (ref_gi_at _ _ _ Hndg Hj) as F1.
           pose proof (ref_gi_at _ _ _ Hndg Hg) as F2. congruence.
    + unfold owner_map. rewrite R1, (kmap_upd g_group_id _ _ _ _ g Hndg Hg) by done. by rewrite <- Hid.
    + intros k. unfold role_map. rewrite R2. apply option_eq. intros r. split.
      * intros H. apply kmap_lookup_Some in H as (i & m & Hm & <- & <-); [|done].
        apply at_Some in Hm as [_ Hm]. assert (m ∈ l) as Hin by by eapply list_elem_of_lookup_2.
        apply Hl in Hin as [Hin Hne]. cbn. rewrite decide_False by done.
        apply list_elem_of_lookup in Hin as [j Hj]. rewrite <- at_of_nat in Hj.
        exact (kmap_at member_key m_role_level _ _ m Hnd Hj).
      * case_decide as E; [done|]. intros H. apply kmap_lookup_Some in H as (i & m & Hm & <- & <-); [|done].
        apply at_Some in Hm as [_ Hm]. assert (m ∈ l) as Hin.
        { apply Hl. split; [by eapply list_elem_of_lookup_2|done]. }
        apply list_elem_of_lookup in Hin as [j Hj]. rewrite <- at_of_nat in Hj.
        exact (kmap_at member_key m_role_level _ _ m Hnd' Hj).
Qed.

Lemma role_given svc gid op r : group_ok svc -> 0 <= r -> r <= group_member_role_nolock svc gid op ->
  exists g u, gid = Some g /\ op = Some u /\ nonempty g = true /\ nonempty u = true /\
    exists r', role_map svc !! (g, u) = Some r' /\ r' = group_member_role_nolock svc gid op.
Proof.
  intros G Hr H. destruct gid as [g|]; [|cbn in H; lia]. destruct op as [u|].
  2: { unfold group_member_role_nolock in H. cbn in H. rewrite andb_false_r in H. lia. }
  destruct (nonempty g) eqn:Eg, (nonempty u) eqn:Eu;
    try (unfold group_member_role_nolock in H; cbn in H; rewrite Eg, Eu in H; cbn in H; lia).
  rewrite (member_role_ok svc g u G Eg Eu) in *. exists g, u. split_and!; try done.
  destruct (role_map svc !! (g, u)) as [r'|]; [|cbn in H; lia]. by exists r'.
Qed.

Lemma view_core svc svc' : core <$> groups svc' = core <$> groups svc -> view_of svc' = (owner_map svc, role_map svc').
Proof. intros E. unfold view_of. by rewrite (owner_map_core _ _ E). Qed.

(** One invitation by a member. *)
Lemma invite_step svc now g u actor o r :
  group_ok svc -> fits 63 g -> fits 63 u -> owner_map svc !! g = Some (o, 0) ->
  role_map svc !! (g, actor) = Some r -> 20 <= r ->
  let svc' := (group_add_member_nolock svc now (Some g) (Some u) 20).2 in
  group_ok svc' /\ rtc (permitted actor) (view_of svc) (view_of svc') /\ owner_map svc' = owner_map svc /\
  role_map svc' !! (g, actor) = Some r.
Proof.
  intros G Hg Hu Ho Hr Hge. cbn zeta. pose proof (add_member_ok svc now g u 20 G Hg Hu) as A.
  destruct (group_add_member_nolock svc now (Some g) (Some u) 20) as [rc s]. cbn [snd].
  destruct A as (G' & Ec & [(_ & -> & _)|(_ & R)]); [split_and!; [done|apply rtc_refl|done|done]|].
  rewrite (view_core _ _ Ec). unfold view_of. rewrite R. destruct (role_map svc !! (g, u)) eqn:Eu.
  - split_and!; [done|apply rtc_refl|by apply owner_map_core|done].
  - split_and!; [done|apply rtc_once; by eapply p_invite|by apply owner_map_core|].
    rewrite lookup_insert_ne by congruence. done.
Qed.

(** A removal by an administrator. *)
Lemma kick_step svc g u actor o r :
  group_ok svc -> nonempty g = true -> owner_map svc !! g = Some (o, 0) -> role_map svc !! (g, actor) = Some r -> 60 <= r ->
  kickable svc (Some g) (Some actor) o r u = true ->
  let svc' := (group_remove_member_nolock svc (Some g) u).2 in
  group_ok svc' /\ rtc (permitted actor) (view_of svc) (view_of svc') /\ owner_map svc' = owner_map svc /\
  role_map svc' !! (g, actor) = Some r.
Proof.
  intros G Hg Ho Hr Hge K. unfold kickable in K. rewrite !andb_true_iff, !negb_true_iff in K.
  destruct K as [[[Ku Ka] Ko] Kr]. destruct u as [u|]; [|done]. cbn [default from_option id given] in *.
  rewrite member_role_ok in Kr by done. apply Z.ltb_lt in Kr. cbn zeta.
  assert (u <> actor) as Hne by (intros ->; by rewrite streq_refl in Ka).
  assert (u <> o) as Hno by (intros ->; by rewrite streq_refl in Ko).
  pose proof (remove_member_ok svc g u G) as A.
  destruct (group_remove_member_nolock svc (Some g) (Some u)) as [rc s]. cbn [snd].
  destruct A as (G' & Ec & R & _). rewrite (view_core _ _ Ec), R. unfold view_of.
  destruct (role_map svc !! (g, u)) as [ru|] eqn:Eu.
  - split_and!; [done|apply rtc_once; by eapply p_kick|by apply owner_map_core|].
    rewrite lookup_delete_ne by congruence. done.
  - rewrite delete_id by done. split_and!; [done|apply rtc_refl|by apply owner_map_core|done].
Qed.

(** A transfer from the owner, who is a member, to the member [n]. *)
Lemma transfer_ok svc gi g s n mn :
  group_ok svc -> at_ (groups svc) gi = Some g -> g_group_id g = s -> fits 63 n ->
  at_ (members svc) (member_index_find svc s n) = Some mn -> member_key mn = (s, n) ->
  is_Some (role_map svc !! (s, g_owner_user_id g)) ->
  let svc' := transfer_owner svc gi g s n (member_index_find svc s n) in
  group_ok svc' /\ owner_map svc' = <[s := (n, g_status g)]> (owner_map svc) /\
  role_map svc' = <[(s, n) := 100]> (<[(s, g_owner_user_id g) := 20]> (role_map svc)).
Proof.
  intros G Hg Hid Fn Hmn Kn Hm. cbn zeta. unfold transfer_owner.
  destruct (member_find_ok svc s (g_owner_user_id g) (go_index _ G)) as [(mo & Hmo & Ko & Ro)|(_ & Ro & _)];
    [|rewrite Ro in Hm; by destruct Hm].
  destruct (Z.leb_spec 0 (member_index_find svc s (g_owner_user_id g))); [|apply at_lt in Hmo; lia].
  destruct (set_role_ok svc _ mo 20 G Hmo) as (G1 & O1 & R1). set (svc1 := upd_member svc _ (set_role 20)) in *.
  assert (exists mn', at_ (members svc1) (member_index_find svc s n) = Some mn' /\ member_key mn' = (s, n)) as (mn' & Hmn' & Kn').
  { cbn [members upd_member svc1]. destruct (decide (member_index_find svc s (g_owner_user_id g) = member_index_find svc s n)) as [E|E].
    - rewrite <- E. rewrite (at_upd_eq _ _ _ mo Hmo). eexists. split; [done|]. rewrite <- Kn. rewrite E in Hmo.
      assert (mo = mn) as -> by congruence. done.
    - rewrite at_upd_ne by assumption. exists mn. split; assumption. }
  destruct (set_role_ok svc1 _ mn' 100 G1 Hmn') as (G2 & O2 & R2). set (svc2 := upd_member svc1 _ (set_role 100)) in *.
  destruct (upd_group_ok svc2 _ g (set_owner n) G2 Hg) as (G3 & R3 & O3); [done|].
  rewrite R3, R2, R1, O3, O2, O1, Kn', Ko, Hid. cbn. rewrite strn_short by done. done.
Qed.

(** The outcome of a request: the service stays consistent, and what changed
    is a sequence of changes permitted to the user the request acts as. *)
Definition authorized (req : option json) (svc svc' : miku_group_service) : Prop :=
  group_ok svc' /\
  (view_of svc' = view_of svc \/
   exists actor, acts_as req actor /\ rtc (permitted actor) (view_of svc) (view_of svc')).

(** A group created while the member table is full: it has no member. *)
Definition orphaned (req : option json) (svc svc' : miku_group_service) : Prop :=
  group_ok svc' /\ MK_MAX_MEMBERS <= Z.of_nat (length (members svc)) /\
  exists g o, jstr req "ownerUserID" = Some o /\ owner_map svc !! g = None /\
    view_of svc' = (<[g := (o, 0)]> (owner_map svc), role_map svc).

Lemma numbered_in {A} (l : list A) p : p ∈ numbered l -> p.2 ∈ l.
Proof.
  intros Hp. apply list_elem_of_lookup in Hp as [i Hi]. unfold numbered in Hi. rewrite list_lookup_imap in Hi.
  destruct (l !! i) as [x|] eqn:E; [|done]. cbn in Hi. simplify_eq. by eapply list_elem_of_lookup_2.
Qed.

Lemma or_empty_given (req : option json) a b u :
  or_empty a (jstr req b) = Some u -> (exists k, a = jstr req k /\ k ∈ ["ownerUserID"; "fromUserID"; "opUserID"; "userID"]) ->
  b ∈ ["ownerUserID"; "fromUserID"; "opUserID"; "userID"] -> acts_as req u.
Proof.
  unfold or_empty. intros H (k & -> & Hk) Hb. destruct (given (jstr req k)); [by exists k|by exists b].
Qed.

Lemma or_empty2_given (req : option json) k1 k2 k3 u :
  or_empty (or_empty (jstr req k1) (jstr req k2)) (jstr req k3) = Some u ->
  Forall (fun k => k ∈ ["ownerUserID"; "fromUserID"; "opUserID"; "userID"]) [k1; k2; k3] -> acts_as req u.
Proof.
  intros H F. inversion F as [|? ? F1 F']; subst. inversion F' as [|? ? F2 F'']; subst. inversion F'' as [|? ? F3 _]; subst.
  unfold or_empty in H. repeat case_match; (by exists k1) || (by exists k2) || (by exists k3).
Qed.

Section Authorized.
Context (svc : miku_group_service) (clock : nat -> Z) (uuid : string) (req : option json) (resp : json).
Context (G : group_ok svc) (F : req_fits req) (U1 : fresh_gid svc uuid) (U2 : fits 63 uuid).

Lemma authorized_refl : authorized req svc svc.
Proof using G. split; [done|by left]. Qed.

Lemma same_info gi g f :
  at_ (groups svc) gi = Some g ->
  (forall g, g_group_id (f g) = g_group_id g /\ g_member_count (f g) = g_member_count g) ->
  (forall g, g_owner_user_id (f g) = g_owner_user_id g /\ g_status (f g) = g_status g) ->
  authorized req svc (upd_group svc gi f).
Proof using G.
  intros Hg Hf Ho. destruct (upd_group_ok svc gi g f G Hg Hf) as (G' & R & O). split; [done|]. left.
  unfold view_of. rewrite R, O. destruct (Ho g) as [-> ->]. rewrite insert_id; [done|].
  exact (kmap_at g_group_id (fun g => (g_owner_user_id g, g_status g)) _ gi g (kt_nodup _ _ _ _ _ (group_ok_groups _ G)) Hg).
Qed.

Lemma setInfo_auth : authorized req svc (rpc_setGroupInfo svc clock uuid req resp).1.
Proof using G.
  unfold rpc_setGroupInfo, find_group. destruct (group_find_nolock _ _) as [g|] eqn:Eg; [|apply authorized_refl].
  destruct (_ || _); [apply authorized_refl|]. destruct (find_ok _ _ _ G Eg) as (s & _ & Hg & _).
  apply (same_info _ g); [done|..]; intros x; unfold set_name; by destruct (jstr req "groupName").
Qed.

Lemma setInfoEx_auth : authorized req svc (rpc_setGroupInfoEx svc clock uuid req resp).1.
Proof using G.
  unfold rpc_setGroupInfoEx, find_group. destruct (group_find_nolock _ _) as [g|] eqn:Eg; [|apply authorized_refl].
  destruct (_ || _); [apply authorized_refl|]. destruct (find_ok _ _ _ G Eg) as (s & _ & Hg & _).
  apply (same_info _ g); [done|..]; intros x; unfold set_name, set_ex;
    by destruct (jstr req "groupName"), (jstr req "ex").
Qed.

Lemma quit_auth : authorized req svc (rpc_quitGroup svc clock uuid req resp).1.
Proof using All.
  unfold rpc_quitGroup. destruct (group_find_nolock _ _) as [g|] eqn:Eg; [|apply authorized_refl].
  destruct (Z.eqb_spec (g_status g) 0) as [Hs|]; [|apply authorized_refl].
  destruct (jstr req "userID") as [u|] eqn:Eu; [|apply authorized_refl]. cbn [given default from_option id negb].
  destruct (nonempty u); [|apply authorized_refl]. cbn [negb].
  destruct (streq u (g_owner_user_id g)) eqn:Eo; [apply authorized_refl|].
  destruct (find_ok _ _ _ G Eg) as (s & -> & Hg & Hid & HO). rewrite Hs in HO.
  pose proof (remove_member_ok svc s u G) as R. destruct (group_remove_member_nolock svc (Some s) (Some u)) as [rc svc'].
  destruct R as (G' & Ec & R & _). split; [done|]. right. exists u. split; [exists "userID"; split; [clear; set_solver|done]|].
  cbn [err fst]. rewrite (view_core _ _ Ec), R. apply rtc_once. eapply p_quit; [exact HO|].
  intros ->. by rewrite streq_refl in Eo.
Qed.

Lemma is_owner_ok gid op g : is_owner svc gid op g = true -> group_find_nolock svc gid = Some g ->
  exists s, gid = Some s /\ op = Some (g_owner_user_id g) /\ is_Some (role_map svc !! (s, g_owner_user_id g)) /\
    nonempty s = true /\ nonempty (g_owner_user_id g) = true.
Proof using G.
  unfold is_owner. rewrite !andb_true_iff. intros [[Hg Ho] Hm] Hf. destruct op as [o|]; [|done].
  cbn in Ho. apply streq_eq in Ho as ->. destruct (find_ok _ _ _ G Hf) as (s & -> & _).
  exists s. destruct (nonempty s) eqn:Es.
  - cbn in Hg. rewrite (is_member_ok svc s _ G Es Hg) in Hm. apply bool_decide_eq_true in Hm. done.
  - unfold group_is_member_nolock in Hm. cbn in Hm. by rewrite Es in Hm.
Qed.

Lemma dismiss_auth : authorized req svc (rpc_dismissGroup svc clock uuid req resp).1.
Proof using All.
  unfold rpc_dismissGroup, find_group. destruct (group_find_nolock _ _) as [g|] eqn:Eg; [|apply authorized_refl].
  set (op := or_empty _ _). destruct (is_owner svc _ op g) eqn:Ew; [|apply authorized_refl]. cbn [negb err fst].
  destruct (is_owner_ok _ _ _ Ew Eg) as (s & Es & Eo & Hm & _). rewrite Es in *. cbn [default from_option id].
  destruct (find_ok _ _ _ G Eg) as (s' & [= <-] & Hg & Hid & HO).
  destruct (dismiss_ok svc _ g s G Hg Hid) as (G' & O & R). split; [done|]. right.
  exists (g_owner_user_id g). split.
  - eapply (or_empty_given req _ "fromUserID"); [exact Eo|exists "userID"; split; [reflexivity|clear; set_solver]|clear; set_solver].
  - unfold view_of at 2. rewrite O. apply rtc_once. by eapply p_dismiss.
Qed.

Lemma transfer_auth : authorized req svc (rpc_transferGroupOwner svc clock uuid req resp).1.
Proof using All.
  unfold rpc_transferGroupOwner, find_group. destruct (group_find_nolock _ _) as [g|] eqn:Eg; [|apply authorized_refl].
  set (new := match jstr req "newOwnerUserID" with Some o => Some o | None => _ end).
  set (op := or_empty _ (jstr req "opUserID")). destruct new as [n|] eqn:En; [|apply authorized_refl].
  cbn [given negb default from_option id]. destruct (nonempty n); [|apply authorized_refl].
  destruct (is_owner svc _ op g) eqn:Ew; [|apply authorized_refl]. cbn [negb].
  destruct (is_owner_ok _ _ _ Ew Eg) as (s & Es & Eo & Hm & _). rewrite Es in *. cbn [default from_option id].
  destruct (find_ok _ _ _ G Eg) as (s' & [= <-] & Hg & Hid & HO).
  assert (fits 63 n) as Fn.
  { unfold new in En. destruct F as [F1 _]. pose proof (F1 "newOwnerUserID" ltac:(clear; set_solver)) as H1. pose proof (F1 "ownerUserID" ltac:(clear; set_solver)) as H2.
    destruct (jstr req "newOwnerUserID"); [by simplify_eq|by rewrite En in H2]. }
  destruct (member_find_ok svc s n (go_index _ G)) as [(mn & Hmn & Kn & Rn)|(-> & _)]; [|apply authorized_refl].
  destruct (Z.ltb_spec (member_index_find svc s n) 0); [apply at_lt in Hmn; lia|].
  destruct (transfer_ok svc _ g s n mn G Hg Hid Fn Hmn Kn Hm) as (G' & O' & R'). cbn [err fst]. split; [done|]. right.
  exists (g_owner_user_id g). split.
  - eapply or_empty2_given; [exact Eo|]. clear. repeat (constructor; [set_solver|]). constructor.
  - unfold view_of. rewrite O', R'. apply rtc_once. eapply p_transfer; [done|done|]. rewrite Rn. by eexists.
Qed.

Lemma get_or_fits u : u ∈ json_strings (get_or req "memberUserIDs" "invitedUserIDs") -> fits 63 (default "" u).
Proof using F.
  destruct F as [_ F2]. unfold get_or. destruct (miku_json_get req (Some "memberUserIDs")) eqn:E; [rewrite <- E|]; apply F2; clear; set_solver.
Qed.

Lemma invite_auth : authorized req svc (rpc_inviteToGroup svc clock uuid req resp).1.
Proof using All.
  unfold rpc_inviteToGroup. destruct (group_find_nolock _ _) as [g|] eqn:Eg; [|apply authorized_refl].
  destruct (Z.eqb_spec (g_status g) 0) as [Hs|]; [|apply authorized_refl]. cbn [negb].
  set (from := or_empty _ _). destruct (given from) eqn:Ef; [|apply authorized_refl]. cbn [negb orb].
  destruct (Z.ltb_spec (group_member_role_nolock svc (jstr req "groupID") from) 20) as [|Hr]; [apply authorized_refl|].
  destruct (role_given svc _ _ 20 G ltac:(lia) Hr) as (s & a & Es & Ea & _ & _ & r & HR & Er).
  rewrite <- Er in Hr. destruct (find_ok _ _ _ G Eg) as (s' & Es' & _ & _ & HO). rewrite Hs in HO.
  assert (s' = s) as -> by congruence. clear Es'.
  assert (fits 63 s) as Fs by (pose proof (proj1 F "groupID" ltac:(clear; set_solver)) as H; by rewrite Es in H).
  assert (acts_as req a) as Ha.
  { eapply (or_empty_given req _ "opUserID"); [exact Ea|exists "fromUserID"; split; [reflexivity|clear; set_solver]|clear; set_solver]. }
  set (inv := fun s1 => group_ok s1 /\ rtc (permitted a) (view_of svc) (view_of s1) /\
                owner_map s1 = owner_map svc /\ role_map s1 !! (s, a) = Some r).
  assert (forall s1 t u, inv s1 -> fits 63 u -> inv (group_add_member_nolock s1 t (Some s) (Some u) 20).2) as Hstep.
  { intros s1 t u (G1 & P1 & O1 & R1) Hu. destruct (invite_step s1 t s u a (g_owner_user_id g) r G1 Fs Hu) as (G2 & P2 & O2 & R2);
      [by rewrite O1|done|lia|]. split_and!; [done|by etrans|congruence|done]. }
  rewrite Es. set (p1 := if given (jstr req "userID") then _ else _).
  assert (inv p1.2) as H1.
  { unfold p1. pose proof (proj1 F "userID" ltac:(clear; set_solver)) as Fu. destruct (jstr req "userID") as [u|]; [|by split_and!; [done|apply rtc_refl|..]].
    cbn [given]. destruct (nonempty u); [by apply Hstep; [split_and!; [done|apply rtc_refl|..]|]|by split_and!; [done|apply rtc_refl|..]]. }
  destruct p1 as [rc1 svc1]. cbn [snd] in H1.
  match goal with |- context [foldl ?f (rc1, svc1) ?l] =>
    assert (inv (foldl f (rc1, svc1) l).2) as H2; [|destruct (foldl f (rc1, svc1) l) as [rc2 svc2]] end.
  { apply (foldl_inv (fun acc : Z * miku_group_service => inv acc.2)); [done|].
    intros [rc s1] [i u] Hin H. apply numbered_in in Hin. cbn [fst snd] in *. pose proof (proj2 F "invitedUserIDs" _ ltac:(clear; set_solver) Hin) as Fu.
    destruct u as [u|]; [|done]. cbn [given]. destruct (nonempty u); [|done].
    pose proof (Hstep s1 (clock (S i)) u H Fu) as H3.
    by destruct (group_add_member_nolock s1 (clock (S i)) (Some s) (Some u) 20). }
  destruct H2 as (G2 & P2 & _ & _). split; [done|]. right. by exists a.
Qed.

Lemma kick_auth : authorized req svc (rpc_kickGroupMember svc clock uuid req resp).1.
Proof using All.
  unfold rpc_kickGroupMember. destruct (group_find_nolock _ _) as [g|] eqn:Eg; [|apply authorized_refl].
  destruct (Z.eqb_spec (g_status g) 0) as [Hs|]; [|apply authorized_refl]. cbn [negb orb].
  set (op := member_op req). destruct (given op) eqn:Eop; [|apply authorized_refl].
  destruct (Z.ltb_spec (group_member_role_nolock svc (jstr req "groupID") op) 60) as [|Hr]; [apply authorized_refl|].
  destruct (role_given svc _ _ 60 G ltac:(lia) Hr) as (s & a & Es & Ea & Ns & _ & r & HR & Er).
  rewrite <- Er in *. clear Er. destruct (find_ok _ _ _ G Eg) as (s' & Es' & _ & _ & HO). rewrite Hs in HO.
  assert (s' = s) as -> by congruence. clear Es'.
  assert (acts_as req a) as Ha.
  { unfold op, member_op in Ea. eapply or_empty2_given; [exact Ea|]. clear. repeat (constructor; [set_solver|]). constructor. }
  set (inv := fun s1 => group_ok s1 /\ rtc (permitted a) (view_of svc) (view_of s1) /\
                owner_map s1 = owner_map svc /\ role_map s1 !! (s, a) = Some r).
  assert (forall s1 u, inv s1 -> kickable s1 (Some s) (Some a) (g_owner_user_id g) r u = true ->
            inv (group_remove_member_nolock s1 (Some s) u).2) as Hstep.
  { intros s1 u (G1 & P1 & O1 & R1) Hk. destruct (kick_step s1 s u a (g_owner_user_id g) r G1 Ns) as (G2 & P2 & O2 & R2);
      [by rewrite O1|done|lia|done|]. split_and!; [done|by etrans|congruence|done]. }
  rewrite Es, Ea. set (p1 := if kickable _ _ _ _ _ _ then _ else _).
  assert (inv svc) as H0 by (split_and!; [done|apply rtc_refl|done|done]).
  assert (inv p1.2) as H1.
  { unfold p1. destruct (kickable svc (Some s) (Some a) (g_owner_user_id g) r (jstr req "userID")) eqn:Ek; [by apply Hstep|done]. }
  destruct p1 as [rc1 svc1]. cbn [snd] in H1.
  match goal with |- context [foldl ?f (rc1, svc1) ?l] =>
    assert (inv (foldl f (rc1, svc1) l).2) as H2; [|destruct (foldl f (rc1, svc1) l) as [rc2 svc2]] end.
  { apply (foldl_inv (fun acc : Z * miku_group_service => inv acc.2)); [done|].
    intros [rc s1] u _ H. cbn [snd] in *. destruct (kickable s1 (Some s) (Some a) (g_owner_user_id g) r u) eqn:Ek; [|done].
    pose proof (Hstep s1 u H Ek) as H3. by destruct (group_remove_member_nolock s1 (Some s) u). }
  destruct H2 as (G2 & P2 & _ & _). split; [done|]. right. by exists a.
Qed.
Lemma fresh_view : owner_map svc !! uuid = None /\ forall u, role_map svc !! (uuid, u) = None.
Proof using U1.
  destruct U1 as [H1 H2]. split; [by apply kmap_None|]. intros u. apply kmap_None.
  intros (m & Hk & Hm)%list_elem_of_fmap. injection Hk as Hk _. by apply (H2 m Hm).
Qed.

Lemma create_auth : let svc' := (rpc_createGroup svc clock uuid req resp).1 in authorized req svc svc' \/ orphaned req svc svc'.
Proof using All.
  cbn zeta.
  unfold rpc_createGroup. set (g0 := Group _ _ _ _ _ _ _ _ _). destruct (jstr req "ownerUserID") as [o|] eqn:Eo.
  2: { left. apply authorized_refl. }
  assert (fits 63 o) as Fo by (pose proof (proj1 F "ownerUserID" ltac:(clear; set_solver)) as H; by rewrite Eo in H).
  pose proof (create_ok svc (clock 0%nat) uuid g0 o G U1 U2 Fo) as C.
  destruct (group_create_nolock svc (clock 0%nat) uuid g0 (Some o)) as [[rc svc1] g].
  destruct C as (G1 & [(-> & -> & _)|(-> & Eid & Ec & C)]); [left; apply authorized_refl|]. cbn [Z.eqb fst].
  rewrite Eid. destruct fresh_view as [Hf1 Hf2].
  assert (acts_as req o) as Ha by (exists "ownerUserID"; split; [clear; set_solver|done]).
  assert (owner_map svc1 = <[uuid := (o, 0)]> (owner_map svc)) as EO.
  { set (g1 := Group uuid (g_group_name g0) (g_face_url g0) o (g_group_type g0) 0 0 (g_ex g0) (clock 0%nat)) in Ec.
    rewrite (owner_map_core (GroupService (groups svc ++ [g1])%list [] ∅ ∅ ∅ ∅) svc1).
    - unfold owner_map. cbn [groups]. rewrite (kmap_snoc g_group_id _ _ g1); [done|]. exact (proj1 U1).
    - cbn [groups]. rewrite Ec, fmap_app. done. }
  match goal with |- authorized req svc (foldl ?f svc1 ?l) \/ _ => set (step := f); set (items := l) end.
  destruct C as [ER|[ER Hfull]].
  - set (inv := fun s1 => group_ok s1 /\ rtc (permitted o) (view_of svc) (view_of s1) /\
                  owner_map s1 !! uuid = Some (o, 0) /\ role_map s1 !! (uuid, o) = Some 100).
    assert (inv svc1) as H1.
    { split_and!; [done| |by rewrite EO, lookup_insert_eq|by rewrite ER, lookup_insert_eq].
      unfold view_of. rewrite EO, ER. apply rtc_once. by apply p_create. }
    assert (inv (foldl step svc1 items)) as (G2 & P2 & _).
    { apply (foldl_inv inv); [done|]. intros s1 [i u] Hin (G2 & P2 & O2 & R2). apply numbered_in in Hin. cbn in Hin.
      apply get_or_fits in Hin. unfold step. cbn [fst snd]. destruct u as [u|]; [|done].
      destruct (streq u o); [done|].
      destruct (invite_step s1 (clock (S i)) uuid u o o 100 G2 U2 Hin O2 R2 ltac:(lia)) as (G3 & P3 & O3 & R3).
      split_and!; [done|by etrans|by rewrite O3|done]. }
    left. split; [done|]. right. by exists o.
  - assert (forall s1, group_ok s1 -> length (members s1) = size (role_map s1)) as Hsz.
    { intros s1 Gs. unfold role_map. rewrite kmap_size; [done|apply (group_ok_members _ Gs)]. }
    assert (foldl step svc1 items = svc1) as ->.
    { apply (foldl_inv (fun s1 => s1 = svc1)); [done|]. intros s1 [i u] _ ->. unfold step. cbn [fst snd].
      destruct u as [u|]; [|done]. destruct (streq u o); [done|]. unfold group_add_member_nolock.
      rewrite (Hsz svc1 G1), ER, <- (Hsz svc G). by destruct (Z.leb_spec MK_MAX_MEMBERS (Z.of_nat (length (members svc)))); [|lia]. }
    right. split_and!; [done|done|]. exists uuid, o. unfold view_of. by rewrite EO, ER.
Qed.
End Authorized.

Lemma group_rpc_id_create m : group_rpc_id (Some m) = 0 -> m = "createGroup".
Proof.
  unfold group_rpc_id. rewrite rpc_id_ok by (by apply (bool_decide_unpack _)). unfold name_index.
  destruct (list_find _ _) as [[i x]|] eqn:E; [|done]. apply list_find_Some in E as (E & -> & _). intros Hi.
  assert (i = 0)%nat as -> by lia. by injection E as <-.
Qed.

Lemma handle_auth method svc clock uuid req resp :
  group_ok svc -> req_fits req -> fresh_gid svc uuid -> fits 63 uuid ->
  let svc' := (miku_group_handle_rpc (Some method) svc clock uuid req resp).1 in
  authorized req svc svc' \/ method = "createGroup" /\ orphaned req svc svc'.
Proof.
  intros G F U1 U2. cbn zeta. unfold miku_group_handle_rpc, group_handle_rpc_locked.
  destruct (Z.eqb_spec (group_rpc_id (Some method)) 0) as [E|E].
  { rewrite E. destruct (create_auth svc clock uuid req resp G F U1 U2) as [H|H]; [by left|right]. by split; [apply group_rpc_id_create|]. }
  left. repeat case_match; lazymatch goal with
    | |- authorized _ _ (rpc_createGroup _ _ _ _ _).1 => by destruct E
    | |- authorized _ _ (rpc_inviteToGroup _ _ _ _ _).1 => by apply invite_auth
    | |- authorized _ _ (rpc_setGroupInfo _ _ _ _ _).1 => by apply setInfo_auth
    | |- authorized _ _ (rpc_setGroupInfoEx _ _ _ _ _).1 => by apply setInfoEx_auth
    | |- authorized _ _ (rpc_quitGroup _ _ _ _ _).1 => by apply quit_auth
    | |- authorized _ _ (rpc_dismissGroup _ _ _ _ _).1 => by apply dismiss_auth
    | |- authorized _ _ (rpc_kickGroupMember _ _ _ _ _).1 => by apply kick_auth
    | |- authorized _ _ (rpc_transferGroupOwner _ _ _ _ _).1 => by apply transfer_auth
    | |- authorized _ _ (rpc_getGroupInfo _ _ _ _ _).1 =>
        unfold rpc_getGroupInfo; case_match; by apply authorized_refl
    | |- authorized _ _ (rpc_setGroupMemberInfo _ _ _ _ _).1 =>
        unfold rpc_setGroupMemberInfo; destruct (_ || _); by apply authorized_refl
    | |- authorized _ _ (rpc_joinGroup _ _ _ _ _).1 =>
        unfold rpc_joinGroup; case_match; by apply authorized_refl
    | |- authorized _ _ (rpc_muteGroup _ _ _ _ _).1 =>
        unfold rpc_muteGroup; destruct (group_find_nolock _ _); [|by apply authorized_refl];
        destruct (negb _); [by apply authorized_refl|]; destruct (_ || _); by apply authorized_refl
    | |- authorized _ _ (rpc_muteGroupMember _ _ _ _ _).1 =>
        unfold rpc_muteGroupMember; destruct (group_find_nolock _ _); [|by apply authorized_refl];
        destruct (_ || _); by apply authorized_refl
    | |- _ => by apply authorized_refl
    end.
Qed.

(** The owner of an active group is its member with role 100, and the only
    one with that role. *)
Definition owned (v : view) : Prop :=
  forall g o, v.1 !! g = Some (o, 0) -> v.2 !! (g, o) = Some 100 /\ forall u, v.2 !! (g, u) = Some 100 -> u = o.

Lemma permitted_owned a v v' : permitted a v v' -> owned v -> owned v'.
Proof.
  intros P W g1 o1. pose proof (W g1 o1) as W1. destruct P as
    [O R g o u r Ho Hr Hge Hu|O R g o Ho Hne|O R g o u r ru Ho Hr Hge Hu Hlt Hno Hna|O R g st R' Ho Hm HR
    |O R g st new Ho Hm Hn|O R g HO HR]; cbn [fst snd] in *.
  - intros H. destruct (W1 H) as [H1 H2]. split.
    + rewrite lookup_insert_ne; [done|]. intros [= -> ->]. congruence.
    + intros u1. destruct (decide ((g, u) = (g1, u1))) as [[= -> ->]|]; [by rewrite lookup_insert_eq|].
      rewrite lookup_insert_ne by done. apply H2.
  - intros H. destruct (W1 H) as [H1 H2]. split.
    + rewrite lookup_delete_ne; [done|]. intros [= -> ->]. congruence.
    + intros u1 [_ Hu1]%lookup_delete_Some. by apply H2.
  - intros H. destruct (W1 H) as [H1 H2]. split.
    + rewrite lookup_delete_ne; [done|]. intros [= -> ->]. congruence.
    + intros u1 [_ Hu1]%lookup_delete_Some. by apply H2.
  - destruct (decide (g = g1)) as [->|Hne]; [rewrite lookup_insert_eq; by intros [=]|].
    rewrite lookup_insert_ne by done. intros H. destruct (W1 H) as [H1 H2]. rewrite HR. cbn.
    rewrite decide_False by done. split; [done|]. intros u1. rewrite HR. cbn. rewrite decide_False by done. apply H2.
  - destruct (decide (g = g1)) as [->|Hne].
    + rewrite lookup_insert_eq. intros [= -> ->]. rewrite lookup_insert_eq. split; [done|].
      intros u1. destruct (decide (u1 = o1)) as [->|]; [done|]. rewrite lookup_insert_ne by congruence.
      destruct (decide (u1 = a)) as [->|]; [by rewrite lookup_insert_eq|]. rewrite lookup_insert_ne by congruence.
      intros Hu. destruct (W g1 a Ho) as [_ H2]. by apply H2 in Hu.
    + rewrite lookup_insert_ne by done. intros H. destruct (W1 H) as [H1 H2].
      rewrite !lookup_insert_ne by congruence. split; [done|]. intros u1. rewrite !lookup_insert_ne by congruence. apply H2.
  - destruct (decide (g = g1)) as [->|Hne].
    + rewrite lookup_insert_eq. intros [= <-]. rewrite lookup_insert_eq. split; [done|].
      intros u1. destruct (decide (u1 = a)) as [->|]; [done|]. rewrite lookup_insert_ne by congruence. by rewrite HR.
    + rewrite lookup_insert_ne by done. intros H. destruct (W1 H) as [H1 H2].
      rewrite !lookup_insert_ne by congruence. split; [done|]. intros u1. rewrite !lookup_insert_ne by congruence. apply H2.
Qed.

Lemma rtc_owned a v v' : rtc (permitted a) v v' -> owned v -> owned v'.
Proof. induction 1 as [|v v1 v' P _ IH]; [done|]. intros W. apply IH. by eapply permitted_owned. Qed.

(** C24: a request to any method of the group service, whose group and user
    identifiers (groupID, userID, ownerUserID, newOwnerUserID and the members
    of the arrays) have at most 63 characters and for which a new group gets a
    fresh identifier, leaves the service consistent (indexes, chains and
    counters), and memberships, roles and ownership change only by steps that
    the user named in the request is permitted to make: inviting as a member,
    leaving, removing somebody of a lower role as an administrator, dismissing
    or handing over a group it owns, or creating one.  One more change is
    possible: with a full member table a createGroup enters a group without
    members.  (Longer identifiers are cut when they are stored and then not
    found: see [long_id_twice].) *)
Theorem group_rpc_authorized method svc clock uuid req resp :
  group_ok svc -> req_fits req -> fresh_gid svc uuid -> fits 63 uuid ->
  let svc' := (miku_group_handle_rpc (Some method) svc clock uuid req resp).1 in
  group_ok svc' /\
  (view_of svc' = view_of svc \/
   (exists actor, acts_as req actor /\ rtc (permitted actor) (view_of svc) (view_of svc')) \/
   method = "createGroup" /\ orphaned req svc svc').
Proof.
  intros G F U1 U2. destruct (handle_auth method svc clock uuid req resp G F U1 U2) as [[G' [H|H]]|[H H']];
    [by split; [|left]|by split; [|right; left]|]. split; [apply H'|by right; right].
Qed.

(** C31: a request whose identifiers have at most 63 characters takes no active
    group away from its owner, unless it is a createGroup while the member table
    is full: the owner of every active group stays a member of it with role 100,
    and stays the only member with that role, across kicks, quits, invitations,
    transfers and dismissals. *)
Theorem group_rpc_owner_kept method svc clock uuid req resp :
  group_ok svc -> req_fits req -> fresh_gid svc uuid -> fits 63 uuid ->
  (method = "createGroup" -> Z.of_nat (length (members svc)) < MK_MAX_MEMBERS) -> owned (view_of svc) ->
  owned (view_of (miku_group_handle_rpc (Some method) svc clock uuid req resp).1).
Proof.
  intros G F U1 U2 Hl W. destruct (handle_auth method svc clock uuid req resp G F U1 U2) as [[_ [->|(a & _ & H)]]|[H (_ & Hf & _)]];
    [done|by eapply rtc_owned|]. specialize (Hl H). lia.
Qed.

(** ** A full member table *)

Lemma create_full_roles svc now uuid g owner :
  MK_MAX_MEMBERS <= Z.of_nat (length (members svc)) -> role_map (group_create_nolock svc now uuid g owner).1.2 = role_map svc.
Proof.
  intros Hm. unfold group_create_nolock. destruct owner as [owner|]; [|done]. destruct (_ <=? _); [done|]. cbn [fst snd].
  unfold group_add_member_nolock. set (svc2 := group_hash_insert _ _).
  assert (members svc2 = members svc) as Em by (unfold svc2, group_hash_insert; by destruct (at_ _ _)).
  destruct (Z.leb_spec MK_MAX_MEMBERS (Z.of_nat (length (members svc2)))) as [_|Hx]; [|rewrite Em in Hx; lia].
  cbn [snd]. unfold role_map. by rewrite Em.
Qed.

(** When the member table is full, [createGroup] reports success although the
    owner could not be added: the group exists and nobody is in it. *)
Theorem create_when_full_orphans svc now uuid g owner :
  group_ok svc -> fresh_gid svc uuid -> fits 63 uuid -> fits 63 owner ->
  Z.of_nat (length (groups svc)) < MK_MAX_GROUPS -> MK_MAX_MEMBERS <= Z.of_nat (length (members svc)) ->
  exists svc' g', group_create_nolock svc now uuid g (Some owner) = (0, svc', g') /\
    role_map svc' !! (uuid, owner) = None.
Proof.
  intros G U1 U2 Fo Hg Hm. pose proof (create_full_roles svc now uuid g (Some owner) Hm) as R.
  pose proof (create_ok svc now uuid g owner G U1 U2 Fo) as C.
  destruct (group_create_nolock svc now uuid g (Some owner)) as [[rc svc'] g']. destruct C as (_ & [(_ & _ & ?)|(-> & _)]); [lia|].
  exists svc', g'. split; [done|]. cbn in R. rewrite R. by apply (fresh_view svc uuid U1).
Qed.

(** ** Reachable states *)

(** The states that the operations reach, with the memberships they add up to:
    the public functions, and of the RPC methods those that write to the tables
    themselves (a change of the group's description, a transfer, a dismissal).
    [miku_uuid_generate] gives a fresh identifier, and the identifiers that
    are entered have at most 63 characters. *)
Inductive reach : miku_group_service -> gmap (string * string) Z -> Prop :=
  | reach_init : reach miku_group_service_create ∅
  | reach_create svc m now uuid g owner rc svc' g' :
      reach svc m -> fresh_gid svc uuid -> fits 63 uuid -> fits 63 owner ->
      miku_group_create svc now uuid g (Some owner) = (rc, svc', g') ->
      reach svc' (if (rc =? 0) && (Z.of_nat (length (members svc)) <? MK_MAX_MEMBERS) then <[(uuid, owner) := 100]> m else m)
  | reach_add svc m now g u role rc svc' :
      reach svc m -> fits 63 g -> fits 63 u ->
      miku_group_add_member svc now (Some g) (Some u) role = (rc, svc') ->
      reach svc' (if rc =? 0 then match m !! (g, u) with Some _ => m | None => <[(g, u) := role]> m end else m)
  | reach_remove svc m g u rc svc' :
      reach svc m -> miku_group_remove_member svc (Some g) (Some u) = (rc, svc') ->
      reach svc' (delete (g, u) m)
  | reach_describe svc m gid gi g name ex :
      reach svc m -> find_group svc gid = Some (gi, g) ->
      reach (upd_group svc gi (fun g => set_ex ex (set_name name g))) m
  | reach_transfer svc m gid gi g op new :
      reach svc m -> find_group svc (Some gid) = Some (gi, g) -> is_owner svc (Some gid) op g = true -> fits 63 new ->
      is_Some (m !! (gid, new)) ->
      reach (transfer_owner svc gi g gid new (member_index_find svc gid new))
        (<[(gid, new) := 100]> (<[(gid, g_owner_user_id g) := 20]> m))
  | reach_dismiss svc m gid gi g op :
      reach svc m -> find_group svc (Some gid) = Some (gi, g) -> is_owner svc (Some gid) op g = true ->
      reach (rebuild_member_indexes (upd_group (set_members svc (filter (fun x => m_group_id x <> gid) (members svc))) gi dismissed))
        (filter (fun kv => kv.1.1 <> gid) m).

Lemma find_group_ok svc gid gi g : group_ok svc -> find_group svc gid = Some (gi, g) ->
  exists s, gid = Some s /\ group_find_nolock svc gid = Some g /\ at_ (groups svc) gi = Some g /\ g_group_id g = s.
Proof.
  intros G. unfold find_group. destruct (group_find_nolock svc gid) as [g'|] eqn:E; [|done]. intros [= <- <-].
  destruct (find_ok svc gid g' G E) as (s & -> & Hg & Hid & _). by exists s.
Qed.

Lemma reach_ok svc m : reach svc m -> group_ok svc /\ role_map svc = m.
Proof.
  induction 1 as [|svc m now uuid g owner rc svc' g' _ [G E] Hf Hu Ho Hc|svc m now g u role rc svc' _ [G E] Hg Hu Ha|svc m g u rc svc' _ [G E] Hr
    |svc m gid gi g name ex _ [G E] Hg|svc m gid gi g op new _ [G E] Hg Hw Hn Hm|svc m gid gi g op _ [G E] Hg Hw].
  - split; [apply group_ok_create|done].
  - pose proof (create_ok svc now uuid g owner G Hf Hu Ho) as C. pose proof (create_full_roles svc now uuid g (Some owner)) as Cf.
    unfold miku_group_create in Hc. rewrite Hc in C, Cf. cbn [fst snd] in Cf.
    destruct C as (G' & [(-> & -> & _)|(-> & _ & _ & C)]); [by split|]. split; [done|]. cbn [Z.eqb andb].
    destruct (Z.ltb_spec (Z.of_nat (length (members svc))) MK_MAX_MEMBERS); [|by rewrite Cf]. destruct C as [->|[_ ?]]; [by subst|lia].
  - pose proof (add_member_ok svc now g u role G Hg Hu) as A. unfold miku_group_add_member in Ha. rewrite Ha in A.
    destruct A as (G' & _ & [(-> & -> & _)|(-> & ->)]); by subst.
  - pose proof (remove_member_ok svc g u G) as R. unfold miku_group_remove_member in Hr. rewrite Hr in R.
    destruct R as (G' & _ & -> & _). by subst.
  - destruct (find_group_ok _ _ _ _ G Hg) as (s & -> & _ & Hat & _).
    destruct (upd_group_ok svc gi g (fun g => set_ex ex (set_name name g)) G Hat) as (G' & R & _); [by destruct ex, name|]. by rewrite R.
  - destruct (find_group_ok _ _ _ _ G Hg) as (s & [= Es] & Hf & Hat & Hid). subst s.
    destruct (is_owner_ok svc G _ _ _ Hw Hf) as (s & [= <-] & _ & Ho & _). subst m.
    destruct (member_find_ok svc gid new (go_index _ G)) as [(mn & Hmn & Kn & _)|(_ & Rn & _)]; [|rewrite Rn in Hm; by destruct Hm].
    by destruct (transfer_ok svc gi g gid new mn G Hat Hid Hn Hmn Kn Ho) as (G' & _ & R).
  - destruct (find_group_ok _ _ _ _ G Hg) as (s & [= Es] & _ & Hat & Hid). subst s.
    destruct (dismiss_ok svc gi g gid G Hat Hid) as (G' & _ & R). split; [done|]. subst m. apply map_eq. intros [a b]. rewrite R.
    rewrite map_lookup_filter. cbn. case_decide as Ea.
    + rewrite Ea. destruct (role_map svc !! (gid, b)); [|done]. cbn. by rewrite option_guard_False by (intros H; by apply H).
    + destruct (role_map svc !! (a, b)); [|done]. cbn. by rewrite option_guard_True.
Qed.

Definition reached (svc : miku_group_service) : Prop := exists m, reach svc m.

Lemma reached_add svc now g u role : reached svc -> fits 63 g -> fits 63 u -> reached (group_add_member_nolock svc now (Some g) (Some u) role).2.
Proof.
  intros [m R] Hg Hu. destruct (group_add_member_nolock svc now (Some g) (Some u) role) as [rc svc'] eqn:E. eexists. exact (reach_add svc m now g u role rc svc' R Hg Hu E).
Qed.

Lemma reached_remove svc g u : reached svc -> reached (group_remove_member_nolock svc (Some g) u).2.
Proof.
  intros [m R]. destruct u as [u|]; [|by exists m]. destruct (group_remove_member_nolock svc (Some g) (Some u)) as [rc svc'] eqn:E.
  eexists. exact (reach_remove svc m g u rc svc' R E).
Qed.

Section Reached.
Context (svc : miku_group_service) (clock : nat -> Z) (uuid : string) (req : option json) (resp : json).
Context (R : reached svc) (F : req_fits req) (U1 : fresh_gid svc uuid) (U2 : fits 63 uuid).

Lemma reached_create : reached (rpc_createGroup svc clock uuid req resp).1.
Proof using All.
  unfold rpc_createGroup. destruct (jstr req "ownerUserID") as [o|] eqn:Eo; [|done].
  assert (fits 63 o) as Fo by (pose proof (proj1 F "ownerUserID" ltac:(clear; set_solver)) as H; by rewrite Eo in H).
  destruct (group_create_nolock svc (clock 0%nat) uuid _ (Some o)) as [[rc svc1] g] eqn:E. cbn [fst].
  destruct R as [m Rm]. assert (reached svc1) as R1 by (eexists; exact (reach_create svc m _ uuid _ o rc svc1 g Rm U1 U2 Fo E)).
  pose proof (proj1 (reach_ok svc m Rm)) as G. pose proof (create_ok svc (clock 0%nat) uuid (Group "" (strn 63 (default "" (jstr req "groupName"))) "" "" 0 0 0 "" 0) o G U1 U2 Fo) as C.
  rewrite E in C. destruct C as (_ & [(-> & _)|(-> & -> & _)]); [done|]. cbn [Z.eqb].
  apply (foldl_inv reached); [done|]. intros s1 [i u] Hin R2. apply numbered_in in Hin. cbn [fst snd] in *.
  apply (get_or_fits req F) in Hin. destruct u as [u|]; [|done]. destruct (streq u o); [done|]. by apply reached_add.
Qed.

Lemma reached_invite : reached (rpc_inviteToGroup svc clock uuid req resp).1.
Proof using R F.
  unfold rpc_inviteToGroup. destruct (group_find_nolock _ _) as [g|] eqn:Eg; [|done]. destruct (negb _); [done|]. destruct (_ || _); [done|].
  destruct R as [m Rm]. destruct (find_ok svc _ g (proj1 (reach_ok svc m Rm)) Eg) as (s & Es & _).
  assert (fits 63 s) as Fs by (pose proof (proj1 F "groupID" ltac:(clear; set_solver)) as H; by rewrite Es in H). rewrite Es.
  set (p1 := if given (jstr req "userID") then _ else _). assert (reached p1.2) as R1.
  { unfold p1. pose proof (proj1 F "userID" ltac:(clear; set_solver)) as Fu. destruct (jstr req "userID") as [u|]; [|done].
    destruct (given _); [by apply reached_add|done]. }
  destruct p1 as [rc1 svc1]. cbn [snd] in R1.
  match goal with |- context [foldl ?f (rc1, svc1) ?l] =>
    assert (reached (foldl f (rc1, svc1) l).2) as R2; [|by destruct (foldl f (rc1, svc1) l)] end.
  apply (foldl_inv (fun acc : Z * miku_group_service => reached acc.2)); [done|].
  intros [rc s1] [i u] Hin R2. apply numbered_in in Hin. cbn [fst snd] in *.
  pose proof (proj2 F "invitedUserIDs" _ ltac:(clear; set_solver) Hin) as Fu. destruct (given u) eqn:Eu; [|done]. destruct u as [u|]; [|done].
  pose proof (reached_add s1 (clock (S i)) s u 20 R2 Fs Fu) as R3. by destruct (group_add_member_nolock s1 (clock (S i)) (Some s) (Some u) 20).
Qed.

Lemma reached_quit : reached (rpc_quitGroup svc clock uuid req resp).1.
Proof using R.
  unfold rpc_quitGroup. destruct (group_find_nolock _ _) as [g|] eqn:Eg; [|done]. repeat (case_match; [done|]).
  destruct (jstr req "groupID") as [s|]; [|by destruct (jstr req "userID")].
  pose proof (reached_remove svc s (jstr req "userID") R) as H'. by destruct (group_remove_member_nolock svc (Some s) (jstr req "userID")).
Qed.

Lemma reached_kick : reached (rpc_kickGroupMember svc clock uuid req resp).1.
Proof using R.
  unfold rpc_kickGroupMember. destruct (group_find_nolock _ _) as [g|] eqn:Eg; [|done]. destruct (_ || _); [done|].
  set (op := member_op req). set (r := if given op then _ else _).
  destruct (jstr req "groupID") as [s|]; [|by destruct R as [m Rm]; destruct (find_ok svc _ g (proj1 (reach_ok svc m Rm)) Eg) as (? & ? & _)].
  set (p1 := if kickable _ _ _ _ _ _ then _ else _). assert (reached p1.2) as R1 by (unfold p1; destruct (kickable _ _ _ _ _ _); [by apply reached_remove|done]).
  destruct p1 as [rc1 svc1]. cbn [snd] in R1.
  match goal with |- context [foldl ?f (rc1, svc1) ?l] =>
    assert (reached (foldl f (rc1, svc1) l).2) as R2; [|by destruct (foldl f (rc1, svc1) l)] end.
  apply (foldl_inv (fun acc : Z * miku_group_service => reached acc.2)); [done|]. intros [rc s1] u _ R2. cbn [snd] in *.
  destruct (kickable _ _ _ _ _ _); [|done]. pose proof (reached_remove s1 s u R2) as R3. by destruct (group_remove_member_nolock s1 (Some s) u).
Qed.

Lemma reached_setInfo : reached (rpc_setGroupInfo svc clock uuid req resp).1 /\ reached (rpc_setGroupInfoEx svc clock uuid req resp).1.
Proof using R.
  unfold rpc_setGroupInfo, rpc_setGroupInfoEx. destruct (find_group _ _) as [[gi g]|] eqn:Eg; [|done]. destruct (_ || _); [done|].
  destruct R as [m Rm]. split; exists m; cbn [err fst]; [exact (reach_describe svc m _ gi g _ None Rm Eg)|by eapply reach_describe].
Qed.

Lemma reached_dismiss : reached (rpc_dismissGroup svc clock uuid req resp).1.
Proof using R.
  unfold rpc_dismissGroup. destruct (find_group _ _) as [[gi g]|] eqn:Eg; [|done]. destruct (is_owner _ _ _ _) eqn:Ew; [|done]. cbn [negb err fst].
  destruct R as [m Rm]. destruct (find_group_ok _ _ _ _ (proj1 (reach_ok _ _ Rm)) Eg) as (s & Es & _). rewrite Es in *. eexists. exact (reach_dismiss svc m s gi g _ Rm Eg Ew).
Qed.

Lemma reached_transfer : reached (rpc_transferGroupOwner svc clock uuid req resp).1.
Proof using R F.
  unfold rpc_transferGroupOwner. destruct (find_group _ _) as [[gi g]|] eqn:Eg; [|done].
  set (new := match jstr req "newOwnerUserID" with Some o => Some o | None => _ end).
  destruct (given new) eqn:En; [|done]. destruct (is_owner _ _ _ _) eqn:Ew; [|done]. cbn [negb].
  destruct R as [m Rm]. destruct (reach_ok _ _ Rm) as [G E]. destruct (find_group_ok _ _ _ _ G Eg) as (s & Es & _). rewrite Es in *. cbn [default from_option id].
  destruct new as [n|] eqn:Enew; [|done]. assert (fits 63 n) as Fn.
  { unfold new in Enew. pose proof (proj1 F "newOwnerUserID" ltac:(clear; set_solver)) as H1. pose proof (proj1 F "ownerUserID" ltac:(clear; set_solver)) as H2.
    destruct (jstr req "newOwnerUserID"); [by simplify_eq|by rewrite Enew in H2]. }
  cbn [default from_option id]. destruct (member_find_ok svc s n (go_index _ G)) as [(mn & Hmn & Kn & Rn)|(-> & _)]; [|by exists m].
  destruct (_ <? 0); [by exists m|]. eexists. eapply reach_transfer; [done|done|exact Ew|done|]. rewrite <- E, Rn. by eexists.
Qed.
End Reached.

(** No request leaves the reachable states. *)
Lemma reached_rpc method svc clock uuid req resp :
  reached svc -> req_fits req -> fresh_gid svc uuid -> fits 63 uuid -> reached (miku_group_handle_rpc method svc clock uuid req resp).1.
Proof.
  intros R F U1 U2. unfold miku_group_handle_rpc, group_handle_rpc_locked.
  repeat case_match; lazymatch goal with
    | |- reached (rpc_createGroup _ _ _ _ _).1 => by apply reached_create
    | |- reached (rpc_inviteToGroup _ _ _ _ _).1 => by apply reached_invite
    | |- reached (rpc_setGroupInfo _ _ _ _ _).1 => by apply reached_setInfo
    | |- reached (rpc_setGroupInfoEx _ _ _ _ _).1 => by apply reached_setInfo
    | |- reached (rpc_quitGroup _ _ _ _ _).1 => by apply reached_quit
    | |- reached (rpc_dismissGroup _ _ _ _ _).1 => by apply reached_dismiss
    | |- reached (rpc_kickGroupMember _ _ _ _ _).1 => by apply reached_kick
    | |- reached (rpc_transferGroupOwner _ _ _ _ _).1 => by apply reached_transfer
    | |- reached (rpc_getGroupInfo _ _ _ _ _).1 => unfold rpc_getGroupInfo; by case_match
    | |- reached (rpc_setGroupMemberInfo _ _ _ _ _).1 => unfold rpc_setGroupMemberInfo; by destruct (_ || _)
    | |- reached (rpc_joinGroup _ _ _ _ _).1 => unfold rpc_joinGroup; by case_match
    | |- reached (rpc_muteGroup _ _ _ _ _).1 => unfold rpc_muteGroup; repeat case_match; done
    | |- reached (rpc_muteGroupMember _ _ _ _ _).1 => unfold rpc_muteGroupMember; repeat case_match; done
    | |- _ => exact R
    end.
Qed.

(** C30: in every state that the group service reaches by creating groups,
    adding and removing members, transferring, dismissing and describing
    groups, successfully or not, with identifiers of at most 63 characters and
    fresh identifiers for new groups, membership, roles, member listings and
    counters agree with the memberships that these operations add up to: a
    user is a member exactly when it was added and not removed since, the
    listing of a group visits exactly its members, each once and with its role,
    and the group's counter is their number.  No request to any method, with
    such identifiers, leaves these states.  (A group created while the member
    table is full has no members; longer identifiers are cut when they are
    stored: [long_id_twice].) *)
Theorem group_reach_correct svc m gid u :
  reach svc m -> nonempty gid = true -> nonempty u = true ->
  miku_group_is_member svc (Some gid) (Some u) = bool_decide (is_Some (m !! (gid, u))) /\
  miku_group_member_role svc (Some gid) (Some u) = default (-1) (m !! (gid, u)) /\
  (forall v r, (v, r) ∈ miku_group_foreach_member svc (Some gid) <-> m !! (gid, v) = Some r) /\
  NoDup (fst <$> miku_group_foreach_member svc (Some gid)) /\
  (forall g, miku_group_find svc (Some gid) = Some g ->
     g_member_count g = Z.of_nat (length (miku_group_foreach_member svc (Some gid)))) /\
  (forall method clock uuid req resp, req_fits req -> fresh_gid svc uuid -> fits 63 uuid ->
     exists m', reach (miku_group_handle_rpc method svc clock uuid req resp).1 m').
Proof.
  intros R Hg Hu. destruct (reach_ok svc m R) as [G <-]. destruct (members_correct svc gid u G Hg Hu) as (H1 & H2 & H3 & H4 & H5).
  split_and!; [done..|]. intros method clock uuid req resp F U1 U2. by apply reached_rpc; [exists (role_map svc)|..].
Qed.

(** ** Examples *)

Definition ex_req : json := miku_jss miku_json_create_object "ownerUserID" (Some "alice").

Lemma ex_req_get k :
  miku_json_get (Some ex_req) (Some k) = (<["ownerUserID" := JStr "alice"]> ∅ : gmap string json) !! k.
Proof. apply obj_is_get. apply obj_is_set; [apply obj_is_new|done]. Qed.

Lemma group_ex_req_fits : req_fits (Some ex_req).
Proof.
  split; [intros k _|intros k u _]; unfold jstr; rewrite ex_req_get;
    (destruct (decide (k = "ownerUserID")) as [->|]; [rewrite lookup_insert_eq|rewrite lookup_insert_ne, lookup_empty by done]).
  - unfold fits. cbn. lia.
  - unfold fits. cbn. lia.
  - intros Hu. by apply elem_of_nil in Hu.
  - intros Hu. by apply elem_of_nil in Hu.
Qed.

Lemma empty_fresh : fresh_gid miku_group_service_create "g-1".
Proof. split; [apply not_elem_of_nil|]. intros m Hm. by apply elem_of_nil in Hm. Qed.

Lemma group_rpc_authorized_witness :
  let svc' := (miku_group_handle_rpc (Some "createGroup") miku_group_service_create (fun _ => 7) "g-1" (Some ex_req)
                 miku_json_create_object).1 in
  group_ok svc' /\
  (view_of svc' = view_of miku_group_service_create \/
   exists actor, acts_as (Some ex_req) actor /\
     rtc (permitted actor) (view_of miku_group_service_create) (view_of svc')).
Proof.
  destruct (group_rpc_authorized "createGroup" miku_group_service_create (fun _ => 7) "g-1" (Some ex_req) miku_json_create_object) as [G [H|[H|(_ & _ & H & _)]]];
    [apply group_ok_create|apply group_ex_req_fits|apply empty_fresh|unfold fits; cbn; lia| | |].
  - split; [exact G|left; exact H].
  - split; [exact G|right; exact H].
  - unfold MK_MAX_MEMBERS in H. cbn in H. lia.
Defined.

Lemma group_rpc_owner_kept_witness :
  owned (view_of (miku_group_handle_rpc (Some "createGroup") miku_group_service_create (fun _ => 7) "g-1" (Some ex_req)
                    miku_json_create_object).1).
Proof.
  apply group_rpc_owner_kept; [apply group_ok_create|apply group_ex_req_fits|apply empty_fresh|unfold fits; cbn; lia|done|].
  intros g o H. discriminate H.
Defined.

Definition zero_group : miku_group := Group "" "" "" "" 0 0 0 "" 0.
Definition ex_created : miku_group_service :=
  (miku_group_create miku_group_service_create 5 "g-1" zero_group (Some "alice")).1.2.
Definition ex_joined : miku_group_service := (miku_group_add_member ex_created 6 (Some "g-1") (Some "bob") 20).2.
Definition ex_handed : miku_group_service :=
  let g := default zero_group (group_find_nolock ex_joined (Some "g-1")) in
  transfer_owner ex_joined (group_index_find ex_joined (Some "g-1")) g "g-1" "bob" (member_index_find ex_joined "g-1" "bob").

(** alice creates the group, bob joins and becomes the owner. *)
Lemma group_reach_correct_witness :
  miku_group_member_role ex_handed (Some "g-1") (Some "bob") = 100 /\
  (forall v r, (v, r) ∈ miku_group_foreach_member ex_handed (Some "g-1") <->
     (<[("g-1", "bob") := 100]> (<[("g-1", "alice") := 20]> (<[("g-1", "bob") := 20]> (<[("g-1", "alice") := 100]> ∅))) : gmap (string * string) Z)
       !! ("g-1", v) = Some r).
Proof.
  assert (fits 63 "g-1" /\ fits 63 "alice" /\ fits 63 "bob") as (F1 & F2 & F3) by (unfold fits; cbn; lia).
  assert (exists g', miku_group_create miku_group_service_create 5 "g-1" zero_group (Some "alice") = (0, ex_created, g')) as [g' E1]
    by (eexists; vm_compute; reflexivity).
  pose proof (reach_create _ _ 5 "g-1" zero_group "alice" _ _ _ reach_init empty_fresh F1 F2 E1) as R1.
  assert (miku_group_add_member ex_created 6 (Some "g-1") (Some "bob") 20 = (0, ex_joined)) as E2 by (vm_compute; reflexivity).
  pose proof (reach_add ex_created _ 6 "g-1" "bob" 20 _ _ R1 F1 F3 E2) as R2.
  set (gi := group_index_find ex_joined (Some "g-1")). set (g := default zero_group (group_find_nolock ex_joined (Some "g-1"))).
  assert (find_group ex_joined (Some "g-1") = Some (gi, g)) as E3 by (vm_compute; reflexivity).
  assert (is_owner ex_joined (Some "g-1") (Some "alice") g = true) as Eo by (vm_compute; reflexivity).
  assert (g_owner_user_id g = "alice") as Ea by (vm_compute; reflexivity).
  pose proof (reach_transfer ex_joined _ "g-1" gi g (Some "alice") "bob" R2 E3 Eo F3 ltac:(by eexists)) as R3. rewrite Ea in R3.
  destruct (group_reach_correct ex_handed _ "g-1" "bob" R3 eq_refl eq_refl) as (_ & H1 & H2 & _). split; [exact H1|exact H2].
Defined.

(** A user identifier of 64 characters is stored with 63 and not found again:
    two invitations enter two members with the same name. *)
Example long_id_twice :
  let u := strn 64 "0123456789012345678901234567890123456789012345678901234567890123" in
  let s1 := (miku_group_add_member ex_created 6 (Some "g-1") (Some u) 20).2 in
  let s2 := (miku_group_add_member s1 7 (Some "g-1") (Some u) 20).2 in
  (fst <$> miku_group_foreach_member s2 (Some "g-1")) = [strn 63 u; strn 63 u; "alice"].
Proof. vm_compute. reflexivity. Qed.
