(* ===== verification/Conversation.v ===== *)
(** * Conversation service (services/conversation/miku_conversation.c)

    A conversation of a user is a record keyed by (owner, conversation id) in
    an [owned_table].  Every public operation holds the service's lock for its
    whole duration, so an operation is one atomic step on the table; the
    [_nolock] functions are the bodies.

    [miku_conv_handle_rpc] resolves the method name and runs one case; each
    case is a definition [rpc_...] here, from the service, the request (NULL
    when absent) and the response object to the service and the response. *)
From S2P Require Import Prelude Hash ProbeIndex KeyedMap ChainIndex OwnedTable Json JsonText Models RpcNames.
#[local] Open Scope string_scope.
#[local] Open Scope list_scope.
#[local] Open Scope Z_scope.

Definition MK_MAX_CONVS : Z := MK_PAIR_MAX.

#[export] Instance owned_conv : Owned miku_conversation :=
  {| ow_owner := c_owner_user_id; ow_other := c_conversation_id |}.

Definition miku_conv_service : Type := owned_table miku_conversation.

Definition conv_pair_slot : string -> string -> Z := pair_hash_slot.
Definition conv_hash_insert : miku_conv_service -> Z -> miku_conv_service := pair_hash_insert.
Definition conv_owner_link : miku_conv_service -> Z -> miku_conv_service := owner_link.
Definition conv_owner_head : miku_conv_service -> string -> Z := owner_head.
Definition conv_hash_find : miku_conv_service -> string -> string -> Z := pair_hash_find.
Definition conv_indexes_rebuild : miku_conv_service -> miku_conv_service := indexes_rebuild.

Definition miku_conv_service_create : miku_conv_service := empty_table.

(** [memset(&c, 0, sizeof(c))]. *)
Definition zero_conv : miku_conversation := Conversation "" "" 0 "" "" 0 0 0 "" 0 "" "" 0 0 0 0 0.

(** Assignments to the fields the service writes. *)
Definition set_owner (v : string) (c : miku_conversation) : miku_conversation :=
  Conversation (c_conversation_id c) v (c_conversation_type c) (c_user_id c) (c_group_id c)
    (c_recv_msg_opt c) (c_unread_count c) (c_latest_msg_send_time c) (c_latest_msg_content c)
    (c_draft_text_time c) (c_draft_text c) (c_ex c) (c_is_pinned c) (c_is_private_chat c)
    (c_burn_duration c) (c_is_not_in_group c) (c_update_time c).

Definition set_id_type (id : string) (ty : Z) (c : miku_conversation) : miku_conversation :=
  Conversation id (c_owner_user_id c) ty (c_user_id c) (c_group_id c)
    (c_recv_msg_opt c) (c_unread_count c) (c_latest_msg_send_time c) (c_latest_msg_content c)
    (c_draft_text_time c) (c_draft_text c) (c_ex c) (c_is_pinned c) (c_is_private_chat c)
    (c_burn_duration c) (c_is_not_in_group c) (c_update_time c).

Definition set_peer (user group : string) (c : miku_conversation) : miku_conversation :=
  Conversation (c_conversation_id c) (c_owner_user_id c) (c_conversation_type c) user group
    (c_recv_msg_opt c) (c_unread_count c) (c_latest_msg_send_time c) (c_latest_msg_content c)
    (c_draft_text_time c) (c_draft_text c) (c_ex c) (c_is_pinned c) (c_is_private_chat c)
    (c_burn_duration c) (c_is_not_in_group c) (c_update_time c).

Definition set_latest (unread time : Z) (text : string) (c : miku_conversation) : miku_conversation :=
  Conversation (c_conversation_id c) (c_owner_user_id c) (c_conversation_type c) (c_user_id c) (c_group_id c)
    (c_recv_msg_opt c) unread time text
    (c_draft_text_time c) (c_draft_text c) (c_ex c) (c_is_pinned c) (c_is_private_chat c)
    (c_burn_duration c) (c_is_not_in_group c) (c_update_time c).

Definition set_pin_ex (pin : Z) (ex : string) (c : miku_conversation) : miku_conversation :=
  Conversation (c_conversation_id c) (c_owner_user_id c) (c_conversation_type c) (c_user_id c) (c_group_id c)
    (c_recv_msg_opt c) (c_unread_count c) (c_latest_msg_send_time c) (c_latest_msg_content c)
    (c_draft_text_time c) (c_draft_text c) ex pin (c_is_private_chat c)
    (c_burn_duration c) (c_is_not_in_group c) (c_update_time c).

Definition set_unread (n : Z) (c : miku_conversation) : miku_conversation :=
  set_latest n (c_latest_msg_send_time c) (c_latest_msg_content c) c.

(** ** Operations *)

Definition miku_conv_create_nolock (svc : miku_conv_service) (c : option miku_conversation) :
    Z * miku_conv_service :=
  match c with
  | None => (-1, svc)
  | Some c =>
      if MK_MAX_CONVS <=? Z.of_nat (length (recs svc)) then (-1, svc)
      else if 0 <=? conv_hash_find svc (c_owner_user_id c) (c_conversation_id c) then (-2, svc)
      else (0, rel_append svc c)
  end.

(** The record [*out] is written only with status 0. *)
Definition miku_conv_get_nolock (svc : miku_conv_service) (owner conv_id : option string) :
    Z * option miku_conversation :=
  match owner, conv_id with
  | Some o, Some i =>
      let ci := conv_hash_find svc o i in
      if ci <? 0 then (-2, None) else (0, at_ (recs svc) ci)
  | _, _ => (-1, None)
  end.

(** The records on the chain of [owner]. *)
Definition conv_chain (svc : miku_conv_service) (owner : string) : list miku_conversation :=
  owner_walk svc owner.

Definition miku_conv_get_all_nolock (svc : miku_conv_service) (owner : option string) (max : Z) :
    list miku_conversation :=
  match owner with
  | None => []
  | Some o => take (Z.to_nat max) (conv_chain svc o)
  end.

Definition miku_conv_update_nolock (svc : miku_conv_service) (c : option miku_conversation) :
    Z * miku_conv_service :=
  match c with
  | None => (-1, svc)
  | Some c =>
      let ci := conv_hash_find svc (c_owner_user_id c) (c_conversation_id c) in
      if ci <? 0 then (-2, svc) else (0, rel_update svc ci (fun _ => c))
  end.

(** [if (v && v[0]) strncpy(field, v, n)]: the new value of the field. *)
Definition keep_or (n : nat) (v : option string) (old : string) : string :=
  if given v then strn n (default "" v) else old.

(** The record [touch_on_send] writes, from the one it read (or the zeroed
    record with the keys and the type set). *)
Definition touched (peer_user_id group_id : option string) (send_time : Z) (content : option string)
    (bump_unread : bool) (c : miku_conversation) : miku_conversation :=
  let c := set_peer (keep_or 63 peer_user_id (c_user_id c)) (keep_or 63 group_id (c_group_id c)) c in
  set_latest (if bump_unread then i32 (c_unread_count c + 1) else c_unread_count c)
             (if 0 <? send_time then send_time else c_latest_msg_send_time c)
             (keep_or 1023 content (c_latest_msg_content c)) c.

Definition fresh_conv (owner cid : string) (conv_type : Z) : miku_conversation :=
  set_id_type (strn 127 cid) conv_type (set_owner (strn 63 owner) zero_conv).

Definition conv_touch_on_send_nolock (svc : miku_conv_service) (owner cid : option string) (conv_type : Z)
    (peer_user_id group_id : option string) (send_time : Z) (content : option string) (bump_unread : bool) :
    miku_conv_service :=
  if negb (given owner) || negb (given cid) then svc
  else
    let c := match miku_conv_get_nolock svc owner cid with
             | (0, Some c) => c
             | _ => fresh_conv (default "" owner) (default "" cid) conv_type
             end in
    let c := touched peer_user_id group_id send_time content bump_unread c in
    let '(rc, svc') := miku_conv_update_nolock svc (Some c) in
    if rc =? -2 then (miku_conv_create_nolock svc' (Some c)).2 else svc'.

Definition conv_delete (svc : miku_conv_service) (owner cid : option string) : Z * miku_conv_service :=
  match owner, cid with
  | Some o, Some i =>
      let ci := conv_hash_find svc o i in
      if ci <? 0 then (-2, svc) else (0, rel_erase svc ci)
  | _, _ => (-1, svc)
  end.

(** The locked entry points are their bodies run as one step. *)
Definition miku_conv_create := miku_conv_create_nolock.
Definition miku_conv_get := miku_conv_get_nolock.
Definition miku_conv_get_all := miku_conv_get_all_nolock.
Definition miku_conv_update := miku_conv_update_nolock.
Definition miku_conv_delete := conv_delete.
Definition miku_conv_touch_on_send := conv_touch_on_send_nolock.

(** ** Requests *)

Definition conv_normalize_owner (c : miku_conversation) (req : option json) : miku_conversation :=
  if nonempty (c_owner_user_id c) then c
  else
    let uid := jstr req "userID" in
    if negb (given uid) then c
    else
      let u := default "" uid in
      let c' := set_owner (strn 63 u) c in
      if streq (c_user_id c) u then set_peer "" (c_group_id c) c' else c'.

Definition conv_req_owner (req : option json) : option string :=
  let owner := jstr req "ownerUserID" in
  if given owner then owner else jstr req "userID".

Definition conv_req_id (req : option json) : option string := jstr req "conversationID".

Definition g_conv_rpc_names : list string :=
  ["getAllConversations"; "getConversation"; "setConversation"; "setConversations"; "deleteConversation";
   "getConversationList"; "getConversations"; "getTotalUnreadMsgCount"; "setConversationMinSeq";
   "markConversationMessageAsRead"; "clearConversationMsg"; "pinConversation"; "deleteConversations";
   "getFullConversationIDs"; "getIncrementalConversation"; "getNotNotifyConversationIDs";
   "getOwnerConversation"; "getPinnedConversationIDs"; "getSortedConversationList";
   "updateConversationsByUser"; "getActiveConversations"].

Definition conv_rpc_init : gmap Z Z := rpc_init g_conv_rpc_names.
Definition conv_rpc_id (method : option string) : Z := rpc_id g_conv_rpc_names method.

(** [conv_owner_to_json_arr]: the records pushed to the array. *)
Definition conv_active (c : miku_conversation) : bool :=
  negb ((c_latest_msg_send_time c <=? 0) && (c_unread_count c <=? 0)).

Definition conv_owner_to_json_arr (svc : miku_conv_service) (owner : string) (max : Z) (active_only : bool) :
    list json :=
  if max <=? 0 then []
  else (fun c => miku_conversation_to_json (Some c)) <$>
       take (Z.to_nat max) (filter (fun c => (negb active_only || conv_active c) = true) (conv_chain svc owner)).

Definition handler : Type := miku_conv_service -> option json -> json -> miku_conv_service * json.

(** The list requests: [count] limits the answer when it is positive and
    below the capacity. *)
Definition rpc_list (active_only : bool) : handler := fun svc req resp =>
  let cnt := jint req "count" in
  let max := if (0 <? cnt) && (cnt <? MK_MAX_CONVS) then cnt else MK_MAX_CONVS in
  let resp := miku_ji resp "errCode" 0 in
  (svc, with_data resp (match conv_req_owner req with
                        | Some o => conv_owner_to_json_arr svc o max active_only
                        | None => [] end)).

Definition rpc_list_all : handler := fun svc req resp =>
  let resp := miku_ji resp "errCode" 0 in
  (svc, with_data resp (match conv_req_owner req with
                        | Some o => conv_owner_to_json_arr svc o MK_MAX_CONVS false
                        | None => [] end)).

Definition rpc_getConversation : handler := fun svc req resp =>
  let '(rc, c) := miku_conv_get_nolock svc (conv_req_owner req) (conv_req_id req) in
  let resp := miku_ji resp "errCode" (if rc =? 0 then 0 else 4001) in
  (svc, if rc =? 0 then jset resp "data" (miku_conversation_to_json c) else resp).

(** The record of a set request. *)
Definition req_conv (req : option json) : miku_conversation :=
  conv_normalize_owner (default zero_conv (miku_conversation_from_json req)) req.

(** Update, and create when there is no such conversation. *)
Definition conv_upsert (svc : miku_conv_service) (c : miku_conversation) : Z * miku_conv_service :=
  let '(rc, svc') := miku_conv_update_nolock svc (Some c) in
  if rc =? -2 then miku_conv_create_nolock svc' (Some c) else (rc, svc').

Definition rpc_setConversation : handler := fun svc req resp =>
  let '(rc, svc') := conv_upsert svc (req_conv req) in
  (svc', miku_ji resp "errCode" (if rc =? 0 then 0 else 500)).

Definition rpc_setConversations : handler := fun svc req resp =>
  ((conv_upsert svc (req_conv req)).2, miku_ji resp "errCode" 0).

Definition rpc_deleteConversation : handler := fun svc req resp =>
  let '(rc, svc') := conv_delete svc (conv_req_owner req) (conv_req_id req) in
  (svc', miku_ji resp "errCode" (if rc =? 0 then 0 else 4001)).

Definition rpc_getTotalUnreadMsgCount : handler := fun svc req resp =>
  let total := match conv_req_owner req with
               | Some o => foldl (fun n c => i64 (n + c_unread_count c)) 0 (conv_chain svc o)
               | None => 0 end in
  (svc, miku_ji (miku_ji resp "errCode" 0) "count" total).

Definition rpc_setConversationMinSeq : handler := fun svc _ resp => (svc, miku_ji resp "errCode" 0).

Definition rpc_markConversationMessageAsRead : handler := fun svc req resp =>
  let '(rc, svc') :=
    match conv_req_owner req, conv_req_id req with
    | Some o, Some i =>
        match miku_conv_get_nolock svc (Some o) (Some i) with
        | (0, Some c) => miku_conv_update_nolock svc (Some (set_unread 0 c))
        | _ => (-1, svc)
        end
    | _, _ => (-1, svc)
    end in
  (svc', miku_ji resp "errCode" (if rc =? 0 then 0 else 4001)).

(** The requests that find a record and write some of its fields in place. *)
Definition rpc_edit (g : miku_conversation -> miku_conversation) : handler := fun svc req resp =>
  let '(rc, svc') :=
    match conv_req_owner req, conv_req_id req with
    | Some o, Some i =>
        let ci := conv_hash_find svc o i in
        if 0 <=? ci then (0, rel_update svc ci g) else (-1, svc)
    | _, _ => (-1, svc)
    end in
  (svc', miku_ji resp "errCode" (if rc =? 0 then 0 else 4001)).

Definition rpc_clearConversationMsg : handler := rpc_edit (set_latest 0 0 "").

Definition rpc_pinConversation : handler := fun svc req resp =>
  let pinned := match req with Some _ => jint req "isPinned" | None => 1 end in
  rpc_edit (fun c => set_pin_ex (if pinned =? 0 then 0 else 1) (c_ex c) c) svc req resp.

Definition rpc_updateConversationsByUser : handler := fun svc req resp =>
  rpc_edit (fun c => match jstr req "ex" with Some e => set_pin_ex (c_is_pinned c) (strn 1023 e) c | None => c end)
           svc req resp.

(** [conversationIDs], or [conversationIDList] when it is absent. *)
Definition req_ids (req : option json) : option json :=
  match miku_json_get req (Some "conversationIDs") with
  | Some v => Some v
  | None => miku_json_get req (Some "conversationIDList")
  end.

(** The strings of an array value; none for a NULL or another type. *)
Definition id_strings (v : option json) : list string :=
  match miku_json_type v with
  | MK_JSON_ARRAY => omap (fun i => miku_json_str (miku_json_at v i)) (seqZ 0 (miku_json_size v))
  | _ => []
  end.

Definition delete_all (owner : string) (acc : miku_conv_service * Z) (ids : list string) : miku_conv_service * Z :=
  foldl (fun acc i =>
           let '(rc, svc') := conv_delete acc.1 (Some owner) (Some i) in
           (svc', if rc =? 0 then acc.2 + 1 else acc.2)) acc ids.

Definition rpc_deleteConversations : handler := fun svc req resp =>
  let '(svc', deleted) :=
    match conv_req_owner req with
    | Some o => delete_all o (svc, 0) (id_strings (req_ids req))
    | None => (svc, 0)
    end in
  (svc', miku_ji (miku_ji resp "errCode" 0) "deleted" deleted).

(** The identifiers of the owner's conversations that satisfy [p]. *)
Definition rpc_ids (p : miku_conversation -> bool) : handler := fun svc req resp =>
  let resp := miku_ji resp "errCode" 0 in
  (svc, with_data resp
     (match conv_req_owner req with
      | Some o => (fun c => miku_json_create_str (Some (c_conversation_id c))) <$>
                  filter (fun c => p c = true) (conv_chain svc o)
      | None => [] end)).

Definition rpc_getFullConversationIDs : handler := rpc_ids (fun _ => true).
Definition rpc_getNotNotifyConversationIDs : handler := rpc_ids (fun c => negb (c_recv_msg_opt c =? 0)).
Definition rpc_getPinnedConversationIDs : handler := rpc_ids (fun c => negb (c_is_pinned c =? 0)).

Definition rpc_getIncrementalConversation : handler := fun svc _ resp =>
  (svc, with_data (miku_ji resp "errCode" 0) []).

Definition conv_handle_rpc_nolock (method : option string) : handler := fun svc req resp =>
  match method with
  | None => (svc, resp)
  | Some _ =>
      match conv_rpc_id method with
      | 0 => rpc_list false svc req resp
      | 1 => rpc_getConversation svc req resp
      | 2 => rpc_setConversation svc req resp
      | 3 => rpc_setConversations svc req resp
      | 4 => rpc_deleteConversation svc req resp
      | 5 | 6 => rpc_list false svc req resp
      | 7 => rpc_getTotalUnreadMsgCount svc req resp
      | 8 => rpc_setConversationMinSeq svc req resp
      | 9 => rpc_markConversationMessageAsRead svc req resp
      | 10 => rpc_clearConversationMsg svc req resp
      | 11 => rpc_pinConversation svc req resp
      | 12 => rpc_deleteConversations svc req resp
      | 13 => rpc_getFullConversationIDs svc req resp
      | 14 => rpc_getIncrementalConversation svc req resp
      | 15 => rpc_getNotNotifyConversationIDs svc req resp
      | 16 => rpc_list_all svc req resp
      | 17 => rpc_getPinnedConversationIDs svc req resp
      | 18 => rpc_list_all svc req resp
      | 19 => rpc_updateConversationsByUser svc req resp
      | 20 => rpc_list true svc req resp
      | _ => (svc, miku_ji resp "errCode" 404)
      end
  end.

Definition miku_conv_handle_rpc := conv_handle_rpc_nolock.
