(* ===== verification/ConversationSpec.v ===== *)
(** * Conversation service: what it promises

    The abstract service is one independent cell per (owner, conversation id),
    empty or holding a record.  [op_edit] says which cell an operation rewrites
    and how; [conv_cells] proves that the indexed table behaves as those
    cells.  [conv_rpc_isolated] is the confidentiality and integrity of the
    RPC layer: a request reads and writes the conversations of its owner only.
    [conv_unread_since_read] follows the unread counter of a conversation
    through deliveries and reads. *)
From S2P Require Import Prelude Hash ProbeIndex KeyedMap ChainIndex OwnedTable Json JsonText Models RpcNames Conversation.
#[local] Open Scope string_scope.
#[local] Open Scope list_scope.
#[local] Open Scope Z_scope.

(** ** The abstract service *)

(** The operations that change the service. *)
Inductive conv_op :=
  | OCreate (c : miku_conversation)
  | OUpdate (c : miku_conversation)
  | ODelete (owner cid : option string)
  | OTouch (owner cid : option string) (conv_type : Z) (peer group : option string) (send_time : Z)
           (content : option string) (bump : bool)
  | ORpc (method : option string) (req : option json) (resp : json).

Definition conv_step (svc : miku_conv_service) (op : conv_op) : miku_conv_service :=
  match op with
  | OCreate c => (miku_conv_create svc (Some c)).2
  | OUpdate c => (miku_conv_update svc (Some c)).2
  | ODelete o i => (miku_conv_delete svc o i).2
  | OTouch o i ty p g time text bump => miku_conv_touch_on_send svc o i ty p g time text bump
  | ORpc m req resp => (miku_conv_handle_rpc m svc req resp).1
  end.

Definition conv_run (ops : list conv_op) : miku_conv_service := foldl conv_step miku_conv_service_create ops.

(** A rewrite of the cells. *)
Inductive conv_edit :=
  | ENop
  | EUpsert (o i : string) (f : option miku_conversation -> miku_conversation)
  | EEdit (o i : string) (g : miku_conversation -> miku_conversation)
  | EErase (o : string) (ids : list string).

(** What a rewrite does to the cell of (owner, id). *)
Definition cell_edit (o i : string) (cell : option miku_conversation) (e : conv_edit) : option miku_conversation :=
  match e with
  | ENop => cell
  | EUpsert o' i' f => if bool_decide ((o', i') = (o, i)) then Some (f cell) else cell
  | EEdit o' i' g => if bool_decide ((o', i') = (o, i)) then g <$> cell else cell
  | EErase o' ids => if bool_decide (o' = o /\ i ∈ ids) then None else cell
  end.

Definition on_key (req : option json) (e : string -> string -> conv_edit) : conv_edit :=
  match conv_req_owner req, conv_req_id req with Some o, Some i => e o i | _, _ => ENop end.

Definition put (c : miku_conversation) : conv_edit :=
  EUpsert (c_owner_user_id c) (c_conversation_id c) (fun _ => c).

(** The rewrite of a request. *)
Definition req_edit (method : option string) (req : option json) : conv_edit :=
  match method with
  | None => ENop
  | Some _ =>
      match conv_rpc_id method with
      | 2 | 3 => put (req_conv req)
      | 4 => on_key req (fun o i => EErase o [i])
      | 9 => on_key req (fun o i => EEdit o i (set_unread 0))
      | 10 => on_key req (fun o i => EEdit o i (set_latest 0 0 ""))
      | 11 => on_key req (fun o i => EEdit o i (fun c =>
                set_pin_ex (if match req with Some _ => jint req "isPinned" | None => 1 end =? 0 then 0 else 1)
                           (c_ex c) c))
      | 12 => match conv_req_owner req with Some o => EErase o (id_strings (req_ids req)) | None => ENop end
      | 19 => on_key req (fun o i => EEdit o i (fun c =>
                match jstr req "ex" with Some e => set_pin_ex (c_is_pinned c) (strn 1023 e) c | None => c end))
      | _ => ENop
      end
  end.

Definition op_edit (op : conv_op) : conv_edit :=
  match op with
  | OCreate c => EUpsert (c_owner_user_id c) (c_conversation_id c) (default c)
  | OUpdate c => EEdit (c_owner_user_id c) (c_conversation_id c) (fun _ => c)
  | ODelete (Some o) (Some i) => EErase o [i]
  | ODelete _ _ => ENop
  | OTouch o i ty p g time text bump =>
      if given o && given i
      then EUpsert (default "" o) (default "" i)
             (fun c => touched p g time text bump (default (fresh_conv (default "" o) (default "" i) ty) c))
      else ENop
  | ORpc m req _ => req_edit m req
  end.

(** The identifiers of a delivery fit the fields they are stored in. *)
Definition op_fits (op : conv_op) : Prop :=
  match op with
  | OTouch o i _ _ _ _ _ _ => fits 63 (default "" o) /\ fits 127 (default "" i)
  | _ => True
  end.

(** ** Rewrites of the plain list of records *)

Definition list_edit (l : list miku_conversation) (e : conv_edit) : list miku_conversation :=
  match e with
  | ENop => l
  | EUpsert o i f =>
      match ref_get l o i with
      | Some _ => ref_upd (o, i) (fun x => f (Some x)) l
      | None => if MK_MAX_CONVS <=? Z.of_nat (length l) then l else l ++ [f None]
      end
  | EEdit o i g => ref_upd (o, i) g l
  | EErase o ids => foldl (fun l i => ref_erase (o, i) l) l ids
  end.

(** A rewrite keeps the key of the record it rewrites. *)
Definition edit_wf (e : conv_edit) : Prop :=
  match e with
  | EUpsert o i f => rel_key (f None) = (o, i) /\ forall x, rel_key x = (o, i) -> rel_key (f (Some x)) = (o, i)
  | EEdit o i g => forall x, rel_key x = (o, i) -> rel_key (g x) = (o, i)
  | _ => True
  end.

Definition room (l : list miku_conversation) : Prop := Z.of_nat (length l) < MK_MAX_CONVS.

Lemma list_edit_cell l e o i : edit_wf e -> room l ->
  ref_get (list_edit l e) o i = cell_edit o i (ref_get l o i) e.
Proof.
  intros W Hr. destruct e as [|o' i' f|o' i' g|o' ids]; cbn [list_edit cell_edit edit_wf] in *.
  - done.
  - destruct W as [W1 W2]. destruct (ref_get l o' i') as [x|] eqn:E.
    + rewrite ref_get_upd by done. destruct (bool_decide_reflect ((o', i') = (o, i))) as [Ek|]; [|done].
      injection Ek as -> ->. by rewrite E.
    + unfold room in Hr. destruct (Z.leb_spec MK_MAX_CONVS (Z.of_nat (length l))); [lia|].
      destruct (bool_decide_reflect ((o', i') = (o, i))) as [Ek|Hk].
      * injection Ek as -> ->. rewrite ref_get_app by done. by rewrite bool_decide_true, E.
      * apply ref_get_app_other. congruence.
  - by apply ref_get_upd.
  - induction ids as [|i' ids IH] using rev_ind.
    + rewrite bool_decide_false; [done|]. intros [_ H]. by apply not_elem_of_nil in H.
    + rewrite foldl_app. cbn [foldl]. rewrite ref_get_erase, IH.
      repeat case_bool_decide; try done; set_solver.
Qed.

Lemma length_list_edit l e : (length (list_edit l e) <= S (length l))%nat.
Proof.
  destruct e as [|o i f|o i g|o ids]; cbn [list_edit].
  - lia.
  - destruct (ref_get l o i); [unfold ref_upd; rewrite length_fmap; lia|].
    destruct (_ <=? _); [lia|]. rewrite length_app. cbn. lia.
  - unfold ref_upd. rewrite length_fmap. lia.
  - enough (length (foldl (fun l i => ref_erase (o, i) l) l ids) <= length l)%nat by lia.
    induction ids as [|i ids IH] using rev_ind; [done|]. rewrite foldl_app. cbn.
    etrans; [apply length_filter|done].
Qed.

(** ** The operations as rewrites *)

(** [p] is the table after the rewrite [e] of [t]. *)
Definition does (t : miku_conv_service) (e : conv_edit) (t' : miku_conv_service) : Prop :=
  rel_ok t' /\ recs t' = list_edit (recs t) e.

Lemma does_nop t : rel_ok t -> does t ENop t.
Proof. done. Qed.

Lemma get_spec t o i : rel_ok t ->
  miku_conv_get_nolock t (Some o) (Some i) =
  match ref_get (recs t) o i with Some c => (0, Some c) | None => (-2, None) end.
Proof.
  intros O. cbn. unfold conv_hash_find. rewrite find_get, rel_get_ok by done. by destruct (ref_get (recs t) o i).
Qed.

Lemma update_spec t c : rel_ok t ->
  let e := EEdit (c_owner_user_id c) (c_conversation_id c) (fun _ => c) in
  let r := miku_conv_update_nolock t (Some c) in
  does t e r.2 /\ r.1 = match ref_get (recs t) (c_owner_user_id c) (c_conversation_id c) with Some _ => 0 | None => -2 end.
Proof.
  intros O. cbn zeta. cbn [miku_conv_update_nolock]. unfold conv_hash_find. rewrite find_get by done.
  destruct (ref_get (recs t) _ _) as [x|] eqn:E.
  - rewrite bool_decide_false by done. cbn [fst snd]. split; [|done].
    destruct (update_found t _ _ x (fun _ => c) O E) as [E2 O2]; [done|]. done.
  - rewrite bool_decide_true by done. cbn [fst snd]. split; [|done]. split; [done|].
    cbn. rewrite ref_upd_absent; [done|]. by apply ref_get_None.
Qed.

Lemma upsert_spec t c : rel_ok t ->
  let r := conv_upsert t c in
  does t (put c) r.2 /\
  r.1 = match ref_get (recs t) (c_owner_user_id c) (c_conversation_id c) with
        | Some _ => 0
        | None => if MK_MAX_CONVS <=? Z.of_nat (length (recs t)) then -1 else 0
        end.
Proof.
  intros O. cbn zeta. unfold conv_upsert. destruct (update_spec t c O) as [[O1 E1] E2].
  destruct (miku_conv_update_nolock t (Some c)) as [rc t1] eqn:E. cbn [fst snd] in *. subst rc.
  destruct (ref_get (recs t) _ _) as [x|] eqn:Eg.
  - cbn [fst snd Z.eqb]. split; [|done]. split; [done|]. cbn [list_edit put]. by rewrite Eg.
  - assert (recs t1 = recs t) as Er.
    { rewrite E1. cbn. apply ref_upd_absent. by apply ref_get_None. }
    cbn [Z.eqb Pos.eqb miku_conv_create_nolock]. unfold conv_hash_find. rewrite Er.
    unfold does. cbn [list_edit put]. rewrite Eg.
    destruct (Z.leb_spec MK_MAX_CONVS (Z.of_nat (length (recs t)))) as [|Hl]; cbn [fst snd]; [done|].
    destruct (Z.leb_spec 0 (pair_hash_find t1 (c_owner_user_id c) (c_conversation_id c))) as [Hp|_].
    + exfalso. pose proof (find_get t1 (c_owner_user_id c) (c_conversation_id c) O1) as F.
      rewrite Er, Eg, bool_decide_true in F by done. lia.
    + cbn [fst snd]. split; [|done]. destruct (append_ok t1 c O1) as [Ea Oa].
      * rewrite Er. by apply ref_get_None.
      * by rewrite Er.
      * split; [done|]. by rewrite Ea, Er.
Qed.

Lemma delete_spec t o i : rel_ok t ->
  let r := conv_delete t (Some o) (Some i) in
  does t (EErase o [i]) r.2 /\ r.1 = match ref_get (recs t) o i with Some _ => 0 | None => -2 end.
Proof.
  intros O. cbn zeta. cbn [conv_delete]. unfold conv_hash_find. rewrite find_get by done.
  destruct (ref_get (recs t) o i) as [x|] eqn:E.
  - rewrite bool_decide_false by done. cbn [fst snd]. split; [|done].
    destruct (erase_found t o i x O E) as [E2 O2]. done.
  - rewrite bool_decide_true by done. cbn [fst snd]. split; [|done]. split; [done|].
    cbn. rewrite ref_erase_absent; [done|]. by apply ref_get_None.
Qed.

Lemma create_spec t c : rel_ok t ->
  does t (EUpsert (c_owner_user_id c) (c_conversation_id c) (default c)) (miku_conv_create_nolock t (Some c)).2.
Proof.
  intros O. cbn [miku_conv_create_nolock]. unfold conv_hash_find, does. cbn [list_edit].
  pose proof (find_get t (c_owner_user_id c) (c_conversation_id c) O) as F.
  destruct (ref_get (recs t) _ _) as [x|] eqn:E.
  - rewrite bool_decide_false in F by done.
    destruct (Z.leb_spec 0 (pair_hash_find t (c_owner_user_id c) (c_conversation_id c))); [|lia].
    destruct (_ <=? _); cbn [snd]; split; try done; symmetry; apply fmap_fixed; intros y _; by case_bool_decide.
  - rewrite bool_decide_true in F by done.
    destruct (Z.leb_spec MK_MAX_CONVS (Z.of_nat (length (recs t)))) as [|Hl]; cbn [snd]; [done|].
    destruct (Z.leb_spec 0 (pair_hash_find t (c_owner_user_id c) (c_conversation_id c))); [lia|]. cbn [snd].
    destruct (append_ok t c O) as [Ea Oa]; [by apply ref_get_None|done|]. done.
Qed.

Lemma rpc_edit_spec g t req resp : rel_ok t -> (forall x, rel_key (g x) = rel_key x) ->
  does t (on_key req (fun o i => EEdit o i g)) (rpc_edit g t req resp).1 /\
  (rpc_edit g t req resp).2 =
    miku_ji resp "errCode" (match conv_req_owner req, conv_req_id req with
                            | Some o, Some i => match ref_get (recs t) o i with Some _ => 0 | None => 4001 end
                            | _, _ => 4001 end).
Proof.
  intros O Hg. unfold rpc_edit, on_key.
  destruct (conv_req_owner req) as [o|]; [|done]. destruct (conv_req_id req) as [i|]; [|done].
  pose proof (find_get t o i O) as F. unfold conv_hash_find.
  destruct (ref_get (recs t) o i) as [x|] eqn:E.
  - rewrite bool_decide_false in F by done. destruct (Z.leb_spec 0 (pair_hash_find t o i)); [|lia].
    cbn [fst snd]. split; [|done].
    destruct (update_found t o i x g O E) as [E2 O2]; [by intros y <-|]. done.
  - rewrite bool_decide_true in F by done. destruct (Z.leb_spec 0 (pair_hash_find t o i)); [lia|].
    cbn [fst snd]. split; [|done]. split; [done|]. cbn. rewrite ref_upd_absent; [done|]. by apply ref_get_None.
Qed.

Lemma ref_upd_const l o i (g : miku_conversation -> miku_conversation) x :
  NoDup (rel_key <$> l) -> ref_get l o i = Some x -> ref_upd (o, i) (fun _ => g x) l = ref_upd (o, i) g l.
Proof.
  intros Hnd E. apply list_fmap_ext. intros n y Hy. case_bool_decide as Ek; [|done].
  apply list_elem_of_lookup_2 in Hy. rewrite (ref_get_In l o i y) in E by done. congruence.
Qed.

(** Mark-as-read reads the record, clears the counter and stores it back. *)
Lemma mark_read_edit t req resp : rel_ok t ->
  does t (on_key req (fun o i => EEdit o i (set_unread 0))) (rpc_markConversationMessageAsRead t req resp).1 /\
  (rpc_markConversationMessageAsRead t req resp).2 =
    miku_ji resp "errCode" (match conv_req_owner req, conv_req_id req with
                            | Some o, Some i => match ref_get (recs t) o i with Some _ => 0 | None => 4001 end
                            | _, _ => 4001 end).
Proof.
  intros O. unfold rpc_markConversationMessageAsRead, on_key.
  destruct (conv_req_owner req) as [o|]; [|done]. destruct (conv_req_id req) as [i|]; [|done].
  rewrite get_spec by done. destruct (ref_get (recs t) o i) as [x|] eqn:E.
  - pose proof (proj2 (ref_get_Some _ _ _ _ E)) as Ek. cbn in Ek. injection Ek as Eo Ei.
    destruct (update_spec t (set_unread 0 x) O) as [[O1 E1] E2].
    destruct (miku_conv_update_nolock t (Some (set_unread 0 x))) as [rc t1]. cbn [fst snd] in *.
    cbn [c_owner_user_id c_conversation_id set_unread set_latest] in E1, E2. rewrite Eo, Ei in E1, E2.
    rewrite E in E2. subst rc. split; [|done]. split; [done|]. rewrite E1. cbn [list_edit].
    apply ref_upd_const; [by apply rel_ok_nodup|done].
  - cbn [fst snd]. split; [|done]. split; [done|]. cbn. rewrite ref_upd_absent; [done|]. by apply ref_get_None.
Qed.

Lemma touched_key p g time text bump c : rel_key (touched p g time text bump c) = rel_key c.
Proof. done. Qed.

Lemma touch_spec t o i ty p g time text bump : rel_ok t -> op_fits (OTouch o i ty p g time text bump) ->
  does t (op_edit (OTouch o i ty p g time text bump)) (conv_touch_on_send_nolock t o i ty p g time text bump).
Proof.
  intros O [Fo Fi]. cbn [op_edit]. unfold conv_touch_on_send_nolock.
  destruct (given o) eqn:Go; [|done]. destruct (given i) eqn:Gi; [|done]. cbn [negb orb andb].
  destruct o as [o|]; [|done]. destruct i as [i|]; [|done]. cbn [default from_option] in *. unfold id in *.
  rewrite get_spec by done.
  set (c := touched p g time text bump (default (fresh_conv o i ty) (ref_get (recs t) o i))).
  assert (rel_key c = (o, i)) as Ek.
  { unfold c. rewrite touched_key. destruct (ref_get (recs t) o i) as [x|] eqn:E; cbn [default from_option].
    - apply (ref_get_Some _ _ _ _ E).
    - change ((strn 63 o, strn 127 i) = (o, i)). by rewrite !strn_short. }
  assert (c_owner_user_id c = o) as Eo by exact (f_equal fst Ek).
  assert (c_conversation_id c = i) as Ei by exact (f_equal snd Ek).
  destruct (upsert_spec t c O) as [[O1 E1] _]. unfold conv_upsert in *.
  replace (touched p g time text bump _) with c by by (unfold c; destruct (ref_get (recs t) o i)).
  destruct (miku_conv_update_nolock t (Some c)) as [rc t1]. destruct (rc =? -2); (split; [exact O1|]);
    cbn [snd] in E1; rewrite E1; cbn [list_edit put]; rewrite Eo, Ei; unfold c;
    (destruct (ref_get (recs t) o i) as [x|] eqn:E; [|done]);
    cbn [default from_option]; unfold id;
    by apply (ref_upd_const _ _ _ (touched p g time text bump)); [apply rel_ok_nodup|].
Qed.

Lemma delete_all_does o ids t n : rel_ok t ->
  does t (EErase o ids) (delete_all o (t, n) ids).1.
Proof.
  revert t n. induction ids as [|i ids IH]; intros t n O; [done|].
  unfold delete_all in *. cbn [foldl fst snd].
  destruct (delete_spec t o i O) as [[O1 E1] _]. destruct (conv_delete t (Some o) (Some i)) as [rc t1].
  cbn [snd] in *. destruct (IH t1 (if rc =? 0 then n + 1 else n) O1) as [O2 E2]. split; [exact O2|].
  etrans; [exact E2|]. by rewrite E1.
Qed.

Lemma rpc_does m t req resp : rel_ok t -> does t (req_edit m req) (conv_handle_rpc_nolock m t req resp).1.
Proof.
  intros O. unfold conv_handle_rpc_nolock, req_edit. destruct m as [m|]; [|done].
  destruct (conv_rpc_id (Some m)) as [|p|p]; [done| |done].
  do 5 (try destruct p as [p|p|]); try exact (does_nop t O).
  - unfold rpc_updateConversationsByUser. apply rpc_edit_spec; [done|]. intros x. by destruct (jstr req "ex").
  - unfold rpc_pinConversation. by apply rpc_edit_spec.
  - by apply mark_read_edit.
  - by apply upsert_spec.
  - by apply rpc_edit_spec.
  - unfold rpc_deleteConversations. destruct (conv_req_owner req) as [o|]; [|done].
    pose proof (delete_all_does o (id_strings (req_ids req)) t 0 O) as D. by destruct (delete_all _ _ _).
  - unfold rpc_deleteConversation, on_key. destruct (conv_req_owner req) as [o|]; [|done].
    destruct (conv_req_id req) as [i|]; [|done].
    destruct (delete_spec t o i O) as [D _]. by destruct (conv_delete _ _ _).
  - unfold rpc_setConversation. destruct (upsert_spec t (req_conv req) O) as [D _]. by destruct (conv_upsert _ _).
  - unfold rpc_getConversation. by destruct (miku_conv_get_nolock _ _ _).
Qed.

Lemma step_does t op : rel_ok t -> op_fits op -> does t (op_edit op) (conv_step t op).
Proof.
  intros O F. destruct op as [c|c|o i|o i ty p g time text bump|m req resp].
  - by apply create_spec.
  - by apply update_spec.
  - destruct o as [o|]; [|done]. destruct i as [i|]; [|done]. by apply delete_spec.
  - by apply touch_spec.
  - by apply rpc_does.
Qed.

Lemma on_key_wf req e : (forall o i, edit_wf (e o i)) -> edit_wf (on_key req e).
Proof. intros H. unfold on_key. by destruct (conv_req_owner req), (conv_req_id req). Qed.

Lemma op_wf op : op_fits op -> edit_wf (op_edit op).
Proof.
  destruct op as [c|c|o i|o i ty p g time text bump|m req resp]; intros F; cbn [op_edit].
  - done.
  - done.
  - by destruct o, i.
  - destruct (given o && given i); [|done]. destruct F as [Fo Fi]. split; [|done].
    cbn [default from_option]. rewrite touched_key.
    change ((strn 63 (default "" o), strn 127 (default "" i)) = (default "" o, default "" i)). by rewrite !strn_short.
  - unfold req_edit. destruct m as [m|]; [|done].
    destruct (conv_rpc_id (Some m)) as [|q|q]; [done| |done].
    do 5 (try destruct q as [q|q|]); try exact I; try (apply on_key_wf; intros o i; first [exact I|intros x Hx; exact Hx]); try done.
    + apply on_key_wf. intros o i x Hx. by destruct (jstr req "ex").
    + by destruct (conv_req_owner req).
Qed.

Lemma run_inv ops : Forall op_fits ops -> rel_ok (conv_run ops) /\ (length (recs (conv_run ops)) <= length ops)%nat.
Proof.
  induction ops as [|op ops IH] using rev_ind; intros F; [by split; [apply rel_ok_empty|]|].
  apply list.Forall_app in F as [F Fo]. apply list.Forall_cons in Fo as [Fo _]. destruct (IH F) as [O L].
  unfold conv_run in *. rewrite foldl_app. cbn [foldl].
  destruct (step_does _ op O Fo) as [O2 E2]. split; [exact O2|]. rewrite E2, length_app.
  etrans; [apply length_list_edit|]. cbn. lia.
Qed.

Lemma run_cells ops o i : Forall op_fits ops -> Z.of_nat (length ops) <= MK_MAX_CONVS ->
  ref_get (recs (conv_run ops)) o i = foldl (cell_edit o i) None (op_edit <$> ops).
Proof.
  induction ops as [|op ops IH] using rev_ind; intros F L; [done|].
  apply list.Forall_app in F as [F Fo]. apply list.Forall_cons in Fo as [Fo _].
  rewrite length_app in L. cbn in L. destruct (run_inv ops F) as [O N].
  rewrite fmap_app, foldl_app. cbn [fmap list_fmap foldl]. rewrite <- IH by (done || lia).
  unfold conv_run. rewrite foldl_app. cbn [foldl]. fold (conv_run ops).
  destruct (step_does _ op O Fo) as [_ ->]. apply list_edit_cell; [by apply op_wf|]. unfold room. lia.
Qed.

(** C22: after any history of creates, updates, deletions, deliveries and RPC
    requests (at most as many as the table has slots), in which every delivery
    names an owner of at most 63 characters and a conversation of at most 127,
    reading the conversation [i] of [o] gives the content of its own cell: the fold of the
    rewrites the history makes to that cell, and status -2 when the cell is
    empty.  The hash index, the chains, the moves of records by deletions and
    the rebuilds of the indexes are not visible.  (A delivery to a longer owner
    writes the cell of its prefix of 63 characters: [long_owner_shared].) *)
Theorem conv_cells ops o i :
  Forall op_fits ops -> Z.of_nat (length ops) <= MK_MAX_CONVS ->
  miku_conv_get (conv_run ops) (Some o) (Some i) =
  match foldl (cell_edit o i) None (op_edit <$> ops) with
  | Some c => (0, Some c)
  | None => (-2, None)
  end.
Proof.
  intros F L. unfold miku_conv_get. rewrite get_spec by by apply run_inv. by rewrite run_cells.
Qed.

(** ** Isolation between owners *)

(** The rewrite touches conversations of [o] only. *)
Definition edits_of (o : string) (e : conv_edit) : Prop :=
  match e with
  | ENop => True
  | EUpsert o' _ _ | EEdit o' _ _ | EErase o' _ => o' = o
  end.

Lemma view_absent o o' i l : o' <> o -> (o', i) ∉ rel_key <$> view (R:=miku_conversation) o l.
Proof. intros Hn Hin. apply view_keys in Hin. done. Qed.

Lemma view_erase_all o o' ids l :
  view o (foldl (fun l i => ref_erase (o', i) l) l ids) =
  foldl (fun l i => ref_erase (R:=miku_conversation) (o', i) l) (view o l) ids.
Proof.
  induction ids as [|i ids IH] using rev_ind; [done|]. rewrite !foldl_app. cbn [foldl]. by rewrite view_erase, IH.
Qed.

Lemma view_edit_other o o' l e : edits_of o e -> edit_wf e -> o' <> o -> view o' (list_edit l e) = view o' l.
Proof.
  intros Ho W Hn. destruct e as [|o2 i f|o2 i g|o2 ids]; cbn in Ho; subst; cbn [list_edit edit_wf] in *.
  - done.
  - destruct W as [W1 W2]. destruct (ref_get l o i).
    + rewrite view_upd by done. apply ref_upd_absent, view_absent. congruence.
    + destruct (_ <=? _); [done|]. rewrite view_app, bool_decide_false, app_nil_r; [done|].
      cbn in W1. injection W1 as W1 _. cbn. congruence.
  - rewrite view_upd by done. apply ref_upd_absent, view_absent. congruence.
  - rewrite view_erase_all. induction ids as [|i ids IH] using rev_ind; [done|]. rewrite foldl_app. cbn [foldl].
    rewrite IH. apply ref_erase_absent, view_absent. congruence.
Qed.

Lemma view_edit_own o l1 l2 e : edits_of o e -> edit_wf e -> room l1 -> room l2 -> view o l1 = view o l2 ->
  view o (list_edit l1 e) = view o (list_edit l2 e).
Proof.
  unfold room. intros Ho W R1 R2 V.
  destruct e as [|o2 i f|o2 i g|o2 ids]; cbn in Ho; subst; cbn [list_edit edit_wf] in *.
  - done.
  - destruct W as [W1 W2].
    assert (ref_get l1 o i = ref_get l2 o i) as -> by (rewrite <- (ref_get_view l1), V; apply ref_get_view).
    destruct (ref_get l2 o i); [by rewrite !view_upd, V|].
    destruct (Z.leb_spec MK_MAX_CONVS (Z.of_nat (length l1))); [lia|].
    destruct (Z.leb_spec MK_MAX_CONVS (Z.of_nat (length l2))); [lia|]. by rewrite !view_app, V.
  - by rewrite !view_upd, V.
  - by rewrite !view_erase_all, V.
Qed.

Lemma req_conv_owner req o : conv_req_owner req = Some o -> fits 63 o -> c_owner_user_id (req_conv req) = o.
Proof.
  intros Ho Hf. unfold req_conv. destruct req as [j|]; [|done]. cbn [miku_conversation_from_json default from_option].
  unfold id, conv_normalize_owner. cbn [c_owner_user_id c_user_id c_group_id].
  assert (forall k n, json_str j k n = strn n (default "" (jstr (Some j) k))) as J.
  { intros k n. unfold json_str, jstr, miku_json_str. destruct (miku_json_get _ _) as [[]|]; done || by destruct n. }
  rewrite J. unfold conv_req_owner in Ho. destruct (given (jstr (Some j) "ownerUserID")) eqn:G.
  - rewrite Ho in G |- *. cbn [default from_option given] in *. unfold id. rewrite strn_short by done.
    by rewrite G.
  - assert (default "" (jstr (Some j) "ownerUserID") = "") as ->.
    { destruct (jstr (Some j) "ownerUserID") as [[|? ?]|]; done. }
    change (nonempty (strn 63 "")) with false. cbn iota. rewrite Ho. cbn [given].
    destruct o as [|a o]; [done|]. cbn [nonempty negb default from_option]. unfold id.
    destruct (streq _ _); cbn [c_owner_user_id set_owner set_peer]; exact (strn_short 63 _ Hf).
Qed.

Lemma req_edits_of m req o : conv_req_owner req = Some o -> fits 63 o -> edits_of o (req_edit m req).
Proof.
  intros Ho Hf. unfold req_edit, on_key. destruct m as [m|]; [|done]. rewrite Ho.
  destruct (conv_rpc_id (Some m)) as [|q|q]; [done| |done].
  do 5 (try destruct q as [q|q|]); try exact I; try (by destruct (conv_req_id req)); try done;
    by apply (req_conv_owner req o).
Qed.

(** Two services in which the conversations of [o] are the same. *)
Definition sees (o : string) (t1 t2 : miku_conv_service) : Prop :=
  rel_ok t1 /\ rel_ok t2 /\ view o (recs t1) = view o (recs t2).

Lemma sees_get o i t1 t2 : sees o t1 t2 -> ref_get (recs t1) o i = ref_get (recs t2) o i.
Proof. intros (_ & _ & V). rewrite <- (ref_get_view (recs t1)), V. apply ref_get_view. Qed.

Lemma sees_chain o t1 t2 : sees o t1 t2 -> conv_chain t1 o = conv_chain t2 o.
Proof.
  intros (O1 & O2 & V). unfold conv_chain. rewrite !owner_walk_ok by done. unfold ref_list. by f_equal.
Qed.

Lemma sees_delete_all o ids t1 t2 n : sees o t1 t2 ->
  (delete_all o (t1, n) ids).2 = (delete_all o (t2, n) ids).2.
Proof.
  revert t1 t2 n. induction ids as [|i ids IH]; intros t1 t2 n S; [done|]. unfold delete_all in *. cbn [foldl fst snd].
  pose proof S as (O1 & O2 & V). destruct (delete_spec t1 o i O1) as [[P1 E1] R1].
  destruct (delete_spec t2 o i O2) as [[P2 E2] R2]. rewrite (sees_get o i t1 t2 S) in R1.
  destruct (conv_delete t1 _ _) as [rc1 u1], (conv_delete t2 _ _) as [rc2 u2]. cbn [fst snd] in *.
  replace rc1 with rc2 by congruence. apply IH. split_and!; [done..|]. rewrite E1, E2. cbn [list_edit foldl].
  by rewrite !view_erase, V.
Qed.

Lemma rpc_answers_same m t1 t2 req resp o :
  sees o t1 t2 -> room (recs t1) -> room (recs t2) -> conv_req_owner req = Some o -> fits 63 o ->
  (conv_handle_rpc_nolock m t1 req resp).2 = (conv_handle_rpc_nolock m t2 req resp).2.
Proof.
  intros S R1 R2 Ho Hf. pose proof S as (O1 & O2 & _).
  assert (forall g, (forall x, rel_key (g x) = rel_key x) ->
            (rpc_edit g t1 req resp).2 = (rpc_edit g t2 req resp).2) as HE.
  { intros g Hg. rewrite (proj2 (rpc_edit_spec g t1 req resp O1 Hg)), (proj2 (rpc_edit_spec g t2 req resp O2 Hg)).
    rewrite Ho. destruct (conv_req_id req) as [i|]; [|done]. by rewrite (sees_get o i t1 t2). }
  assert (forall c, c_owner_user_id c = o -> (conv_upsert t1 c).1 = (conv_upsert t2 c).1) as HU.
  { intros c Hc. rewrite (proj2 (upsert_spec t1 c O1)), (proj2 (upsert_spec t2 c O2)), Hc, (sees_get o _ t1 t2) by done.
    unfold room in *. destruct (ref_get _ _ _); [done|].
    destruct (Z.leb_spec MK_MAX_CONVS (Z.of_nat (length (recs t1)))); [lia|].
    destruct (Z.leb_spec MK_MAX_CONVS (Z.of_nat (length (recs t2)))); [lia|done]. }
  unfold conv_handle_rpc_nolock. destruct m as [m|]; [|done].
  destruct (conv_rpc_id (Some m)) as [|q|q]; [| |done].
  { unfold rpc_list, conv_owner_to_json_arr. rewrite Ho. cbn [snd]. by rewrite (sees_chain o t1 t2). }
  do 5 (try destruct q as [q|q|]);
    unfold rpc_list, rpc_list_all, rpc_getTotalUnreadMsgCount, rpc_getFullConversationIDs,
      rpc_getNotNotifyConversationIDs, rpc_getPinnedConversationIDs, rpc_ids, conv_owner_to_json_arr;
    rewrite ?Ho; cbn [snd]; rewrite ?(sees_chain o t1 t2) by done; try done.
  - unfold rpc_updateConversationsByUser. apply HE. intros x. by destruct (jstr req "ex").
  - unfold rpc_pinConversation. apply HE. intros x. reflexivity.
  - rewrite (proj2 (mark_read_edit t1 req resp O1)), (proj2 (mark_read_edit t2 req resp O2)), Ho.
    destruct (conv_req_id req) as [i|]; [|done]. by rewrite (sees_get o i t1 t2).
  - unfold rpc_clearConversationMsg. apply HE. intros x. reflexivity.
  - unfold rpc_deleteConversations. rewrite Ho.
    pose proof (sees_delete_all o (id_strings (req_ids req)) t1 t2 0 S) as D.
    destruct (delete_all o (t1, 0) _), (delete_all o (t2, 0) _). cbn [snd] in *. by rewrite D.
  - unfold rpc_deleteConversation. rewrite Ho. destruct (conv_req_id req) as [i|]; [|done].
    pose proof (proj2 (delete_spec t1 o i O1)) as D1. pose proof (proj2 (delete_spec t2 o i O2)) as D2.
    rewrite (sees_get o i t1 t2) in D1 by done.
    destruct (conv_delete t1 _ _), (conv_delete t2 _ _). cbn [fst snd] in *. by rewrite D1, D2.
  - unfold rpc_setConversation. pose proof (HU (req_conv req) (req_conv_owner req o Ho Hf)) as D.
    destruct (conv_upsert t1 _), (conv_upsert t2 _). cbn [fst snd] in *. by rewrite D.
  - unfold rpc_getConversation. rewrite Ho. destruct (conv_req_id req) as [i|]; [|done].
    rewrite !get_spec by done. rewrite (sees_get o i t1 t2) by done. by destruct (ref_get _ _ _).
Qed.

Lemma get_all_view t o : rel_ok t ->
  miku_conv_get_all t (Some o) MK_MAX_CONVS = reverse (view o (recs t)).
Proof.
  intros O. unfold miku_conv_get_all, miku_conv_get_all_nolock, conv_chain. rewrite owner_walk_ok by done.
  apply take_ge. unfold ref_list. rewrite length_reverse. pose proof (rel_ok_max t O).
  etrans; [apply length_filter|]. unfold MK_MAX_CONVS. lia.
Qed.

(** C23: isolation of the RPC layer.  Take any two services that hold the same
    conversations of [o], whatever they hold for other users, and a request
    made for [o] to any method.  Both give the same response and leave the
    same conversations of [o], so that a response depends on no other user's
    conversations; and no other user's conversation list changes.  Two
    conditions: [o], and the owners of the deliveries in the two histories, have
    at most 63 characters (conversation identifiers 127), since a longer owner
    writes the cells of its prefix ([long_owner_shared]); and the tables are not
    full, since creating a conversation then fails. *)
Theorem conv_rpc_isolated ops1 ops2 m req resp o :
  Forall op_fits ops1 -> Forall op_fits ops2 ->
  let t1 := conv_run ops1 in
  let t2 := conv_run ops2 in
  room (recs t1) -> room (recs t2) ->
  conv_req_owner req = Some o -> fits 63 o ->
  miku_conv_get_all t1 (Some o) MK_MAX_CONVS = miku_conv_get_all t2 (Some o) MK_MAX_CONVS ->
  let r1 := miku_conv_handle_rpc m t1 req resp in
  let r2 := miku_conv_handle_rpc m t2 req resp in
  r1.2 = r2.2 /\
  miku_conv_get_all r1.1 (Some o) MK_MAX_CONVS = miku_conv_get_all r2.1 (Some o) MK_MAX_CONVS /\
  forall o', o' <> o -> miku_conv_get_all r1.1 (Some o') MK_MAX_CONVS = miku_conv_get_all t1 (Some o') MK_MAX_CONVS.
Proof.
  intros F1 F2 t1 t2 R1 R2 Ho Hf V r1 r2.
  pose proof (proj1 (run_inv ops1 F1) : rel_ok t1) as O1. pose proof (proj1 (run_inv ops2 F2) : rel_ok t2) as O2.
  rewrite !get_all_view in V by done. apply (inj reverse) in V.
  destruct (rpc_does m t1 req resp O1) as [P1 E1]. destruct (rpc_does m t2 req resp O2) as [P2 E2].
  pose proof (req_edits_of m req o Ho Hf) as Eo. pose proof (op_wf (ORpc m req resp) I) as W. cbn [op_edit] in W.
  split_and!.
  - by apply (rpc_answers_same m t1 t2 req resp o).
  - unfold r1, r2, miku_conv_handle_rpc. rewrite !get_all_view by done. f_equal. rewrite E1, E2.
    by apply (view_edit_own o).
  - intros o' Hn. unfold r1, miku_conv_handle_rpc. rewrite !get_all_view by done. f_equal. rewrite E1.
    by apply (view_edit_other o).
Qed.

(** ** The unread counter *)

Definition read_method : option string := Some "markConversationMessageAsRead".

(** Deliveries and reads. *)
Definition inbox_op (op : conv_op) : Prop :=
  match op with
  | OTouch o i _ _ _ _ _ _ => given o = true /\ given i = true
  | ORpc m _ _ => m = read_method
  | _ => False
  end.

(** The deliveries that count as unread since the last read of the
    conversation. *)
Definition unread_step (o i : string) (n : Z) (op : conv_op) : Z :=
  match op with
  | OTouch o' i' _ _ _ _ _ bump =>
      if bool_decide (o' = Some o /\ i' = Some i) && bump then n + 1 else n
  | ORpc _ req _ => if bool_decide (conv_req_owner req = Some o /\ conv_req_id req = Some i) then 0 else n
  | _ => n
  end.

Lemma unread_cell o i cell op n :
  inbox_op op -> 0 <= n < 2 ^ 31 - 1 -> default 0 (c_unread_count <$> cell) = n ->
  default 0 (c_unread_count <$> cell_edit o i cell (op_edit op)) = unread_step o i n op.
Proof.
  intros Hop Hn Hc. destruct op as [c|c|o' i'|o' i' ty p g time text bump|m req resp]; try done.
  - destruct Hop as [Go Gi]. cbn [op_edit unread_step]. rewrite Go, Gi. cbn [andb cell_edit].
    destruct o' as [o'|]; [|done]. destruct i' as [i'|]; [|done]. cbn [default from_option]. unfold id.
    destruct (decide (o' = o /\ i' = i)) as [[-> ->]|Hne].
    + rewrite !bool_decide_true by done. cbn [andb fmap option_fmap option_map default from_option]. unfold id.
      assert (c_unread_count (default (fresh_conv o i ty) cell) = n) as Eu by by destruct cell.
      cbn [touched set_latest set_peer c_unread_count]. unfold id in Eu. rewrite Eu.
      destruct bump; [|done]. apply i32_small. lia.
    + rewrite !bool_decide_false by naive_solver. done.
  - cbn in Hop. subst m. cbn [op_edit]. unfold req_edit, read_method.
    replace (conv_rpc_id (Some "markConversationMessageAsRead")) with 9 by (vm_compute; reflexivity).
    unfold on_key, unread_step. destruct (conv_req_owner req) as [o'|]; [|by rewrite bool_decide_false by naive_solver].
    destruct (conv_req_id req) as [i'|]; [|by rewrite bool_decide_false by naive_solver]. cbn [cell_edit].
    destruct (decide (o' = o /\ i' = i)) as [[-> ->]|Hne].
    + rewrite !bool_decide_true by done. by destruct cell.
    + by rewrite !bool_decide_false by naive_solver.
Qed.

Lemma unread_run o i ops : Forall inbox_op ops -> Z.of_nat (length ops) <= MK_MAX_CONVS ->
  default 0 (c_unread_count <$> foldl (cell_edit o i) None (op_edit <$> ops)) = foldl (unread_step o i) 0 ops /\
  0 <= foldl (unread_step o i) 0 ops <= Z.of_nat (length ops).
Proof.
  unfold MK_MAX_CONVS, MK_PAIR_MAX.
  induction ops as [|op ops IH] using rev_ind; intros F L; [done|].
  apply list.Forall_app in F as [F Fo]. apply list.Forall_cons in Fo as [Fo _].
  rewrite length_app in L |- *. cbn [length] in *. destruct (IH F ltac:(lia)) as [E B].
  rewrite fmap_app, !foldl_app. cbn [fmap list_fmap foldl]. split.
  - apply unread_cell; [done|lia|done].
  - set (n := foldl (unread_step o i) 0 ops) in *. clearbody n. clear -B.
    destruct op; cbn [unread_step]; repeat case_match; lia.
Qed.

(** In any history of deliveries and mark-as-read requests, for any users
    and conversations, the unread counter of a conversation is the number of
    counted deliveries to it since its last read. *)
Theorem conv_unread_since_read ops o i :
  Forall op_fits ops -> Forall inbox_op ops -> Z.of_nat (length ops) <= MK_MAX_CONVS ->
  default 0 (c_unread_count <$> (miku_conv_get (conv_run ops) (Some o) (Some i)).2) =
  foldl (unread_step o i) 0 ops.
Proof.
  intros F B L. unfold miku_conv_get. rewrite get_spec by by apply run_inv. rewrite run_cells by done.
  rewrite <- (proj1 (unread_run o i ops B L)). by destruct (foldl _ None _).
Qed.

(** ** Witnesses *)

Definition ex_owner64 : string := "0123456789012345678901234567890123456789012345678901234567890123".

Definition ex_req (fields : list (string * string)) : option json :=
  Some (foldl (fun o kv => miku_jss o kv.1 (Some kv.2)) miku_json_create_object fields).

Definition ex_touch (o i : string) (bump : bool) : conv_op :=
  OTouch (Some o) (Some i) 1 None None 5 (Some "hi") bump.

Definition ex_read (o i : string) : conv_op :=
  ORpc read_method (ex_req [("ownerUserID", o); ("conversationID", i)]) miku_json_create_object.

(** Two deliveries to alice, a read, one more delivery, and one to bob. *)
Definition ex_inbox : list conv_op :=
  [ex_touch "alice" "si_a" true; ex_touch "alice" "si_a" true; ex_read "alice" "si_a";
   ex_touch "alice" "si_a" true; ex_touch "bob" "si_a" true].

Lemma ex_inbox_fits : Forall op_fits ex_inbox.
Proof. repeat (apply list.Forall_cons; split; [cbn; unfold fits; cbn; lia || done|]). constructor. Qed.

Lemma conv_cells_witness :
  (miku_conv_get (conv_run ex_inbox) (Some "alice") (Some "si_a")).1 = 0 /\
  (miku_conv_get (conv_run ex_inbox) (Some "carol") (Some "si_a")).1 = -2.
Proof.
  rewrite !(conv_cells ex_inbox) by (exact ex_inbox_fits || vm_compute; done).
  split; vm_compute; reflexivity.
Defined.

Lemma conv_unread_since_read_witness :
  default 0 (c_unread_count <$> (miku_conv_get (conv_run ex_inbox) (Some "alice") (Some "si_a")).2) = 1.
Proof.
  rewrite (conv_unread_since_read ex_inbox).
  - vm_compute. reflexivity.
  - exact ex_inbox_fits.
  - repeat (apply list.Forall_cons; split; [done|]). constructor.
  - vm_compute. done.
Defined.

Lemma conv_rpc_isolated_witness :
  let req := ex_req [("ownerUserID", "bob"); ("conversationID", "si_a")] in
  let ops := [ex_touch "bob" "si_a" true] in
  (miku_conv_handle_rpc (Some "getConversation") (conv_run ex_inbox) req miku_json_create_object).2 =
  (miku_conv_handle_rpc (Some "getConversation") (conv_run ops) req miku_json_create_object).2.
Proof.
  intros req ops.
  apply (conv_rpc_isolated ex_inbox ops (Some "getConversation") req miku_json_create_object "bob").
  - exact ex_inbox_fits.
  - repeat (apply list.Forall_cons; split; [cbn; unfold fits; cbn; lia|]). constructor.
  - vm_compute. done.
  - vm_compute. done.
  - vm_compute. reflexivity.
  - unfold fits. cbn. lia.
  - vm_compute. reflexivity.
Defined.

(** An owner of 64 characters is stored with 63: its deliveries and its requests
    write the conversations of another user. *)
Example long_owner_shared :
  let o := strn 63 ex_owner64 in
  let req := ex_req [("ownerUserID", ex_owner64); ("conversationID", "si_b")] in
  (miku_conv_get (conv_run [ex_touch ex_owner64 "si_a" true]) (Some o) (Some "si_a")).1 = 0 /\
  (miku_conv_get (miku_conv_handle_rpc (Some "setConversation") miku_conv_service_create req miku_json_create_object).1 (Some o) (Some "si_b")).1 = 0.
Proof. vm_compute. split; reflexivity. Qed.
