(* ===== verification/User.v ===== *)
(** * User service (services/user/miku_user.c)

    The registered users are an array of records with an open-addressing index
    on the identifier.  The service has no lock: the server runs its requests
    one after the other in one thread, so a request is one step here.

    [user_refines]: the indexed service is a finite map from identifiers to
    records.  [user_update_replaces]: an update request replaces the whole
    record, including the fields the request does not carry. *)
From S2P Require Import Prelude Hash ProbeIndex KeyedMap Json JsonText Models RpcNames.
#[local] Open Scope string_scope.
#[local] Open Scope list_scope.
#[local] Open Scope Z_scope.

Definition MK_USER_HASH : Z := 8192.
Definition MK_MAX_USERS : Z := 4096.

Record miku_user_service := UserService { users : list miku_user; id_hash : gmap Z Z }.

Definition user_hash_slot (user_id : string) : Z := mask_slot MK_USER_HASH (fnv1a_64 user_id).

Definition user_hash_insert (svc : miku_user_service) (ui : Z) : miku_user_service :=
  match at_ (users svc) ui with
  | Some u => UserService (users svc) (scan_insert MK_USER_HASH (id_hash svc) (user_hash_slot (u_user_id u)) (i16 ui))
  | None => svc
  end.

Definition miku_user_service_create : miku_user_service := UserService [] ∅.

Definition user_match (l : list miku_user) (user_id : string) (ui : Z) : bool :=
  match at_ l ui with Some u => streq (u_user_id u) user_id | None => false end.

(** The index of the record [miku_user_find] points to; -1 for NULL. *)
Definition user_index (svc : miku_user_service) (user_id : option string) : Z :=
  match user_id with
  | Some i => scan_find MK_USER_HASH (id_hash svc) (user_match (users svc) i) (user_hash_slot i)
  | None => -1
  end.

Definition miku_user_find (svc : miku_user_service) (user_id : option string) : option miku_user :=
  at_ (users svc) (user_index svc user_id).

Definition with_create_time (now : Z) (u : miku_user) : miku_user :=
  User (u_user_id u) (u_nickname u) (u_face_url u) (u_gender u) (u_phone_number u) (u_email u) (u_birth u)
       (u_ex u) now (u_update_time u) (u_app_mgr_level u) (u_global_recv_msg_opt u).

Definition with_update_time (now : Z) (u : miku_user) : miku_user :=
  User (u_user_id u) (u_nickname u) (u_face_url u) (u_gender u) (u_phone_number u) (u_email u) (u_birth u)
       (u_ex u) (u_create_time u) now (u_app_mgr_level u) (u_global_recv_msg_opt u).

Definition miku_user_register (svc : miku_user_service) (now : Z) (user : option miku_user) : Z * miku_user_service :=
  match user with
  | None => (-1, svc)
  | Some u =>
      if MK_MAX_USERS <=? Z.of_nat (length (users svc)) then (-1, svc)
      else match miku_user_find svc (Some (u_user_id u)) with
           | Some _ => (-2, svc)
           | None =>
               let ui := Z.of_nat (length (users svc)) in
               (0, user_hash_insert (UserService (users svc ++ [with_create_time now u]) (id_hash svc)) ui)
           end
  end.

(** [*existing = *user; existing->update_time = now]. *)
Definition overwrite (svc : miku_user_service) (ui now : Z) (u : miku_user) : miku_user_service :=
  UserService (upd_at (fun _ => with_update_time now u) ui (users svc)) (id_hash svc).

Definition miku_user_update (svc : miku_user_service) (now : Z) (user : option miku_user) : Z * miku_user_service :=
  match user with
  | None => (-1, svc)
  | Some u =>
      let ui := user_index svc (Some (u_user_id u)) in
      if ui <? 0 then (-2, svc) else (0, overwrite svc ui now u)
  end.

Definition miku_user_get_users (svc : miku_user_service) (user_ids : list (option string)) (max_out : Z) :
    list miku_user :=
  take (Z.to_nat max_out) (omap (miku_user_find svc) user_ids).

Definition miku_user_count (svc : miku_user_service) : Z := Z.of_nat (length (users svc)).

(** ** Requests *)

Definition g_user_rpc_names : list string :=
  ["registerUser"; "getUserInfo"; "updateUserInfo"; "getUsersInfo"; "accountCheck"; "getAllUsers"; "getUserCount";
   "searchUser"; "getUsersOnlineStatus"; "setGlobalRecvMessageOpt"; "getGlobalRecvMessageOpt"; "updateUserStatus";
   "getUserStatus"; "setUserStatus"; "getSubscribeUsersStatus"; "subscribeOrCancelUserStatus"; "updateUserInfoEx";
   "getAllUsersUID"; "getUsersOnlineTokenDetail"; "addNotificationAccount"; "updateNotificationAccount";
   "searchNotificationAccount"; "setUserClientConfig"; "getUserClientConfig"; "delUserClientConfig";
   "pageUserClientConfig"; "processUserCommand"; "processUserCommandAdd"; "processUserCommandDelete";
   "processUserCommandUpdate"; "processUserCommandGet"; "processUserCommandGetAll"].

Definition user_rpc_init : gmap Z Z := rpc_init g_user_rpc_names.
Definition user_rpc_id (method : option string) : Z := rpc_id g_user_rpc_names method.

Definition zero_user : miku_user := User "" "" "" 0 "" "" 0 "" 0 0 0 0.

(** [memset(&u, 0, sizeof(u)); miku_user_from_json(req, &u)]. *)
Definition req_user (req : option json) : miku_user := default zero_user (miku_user_from_json req).

Definition user_json (u : miku_user) : json := miku_user_to_json (Some u).

Definition handler : Type := miku_user_service -> Z -> option json -> json -> miku_user_service * json.

Definition rpc_registerUser : handler := fun svc now req resp =>
  let '(rc, svc') := miku_user_register svc now (Some (req_user req)) in
  let resp := miku_ji resp "errCode" (if rc =? 0 then 0 else if rc =? -2 then 1002 else 500) in
  (svc', miku_jss resp "errMsg" (Some (if rc =? 0 then "" else if rc =? -2 then "user exists" else "register failed"))).

Definition rpc_getUserInfo : handler := fun svc _ req resp =>
  match miku_user_find svc (jstr req "userID") with
  | Some u => (svc, jset (miku_ji resp "errCode" 0) "data" (user_json u))
  | None => (svc, miku_ji resp "errCode" 1001)
  end.

Definition rpc_updateUserInfo : handler := fun svc now req resp =>
  let '(rc, svc') := miku_user_update svc now (Some (req_user req)) in
  (svc', miku_ji resp "errCode" (if rc =? 0 then 0 else 1001)).

Definition rpc_getUsersInfo : handler := fun svc _ req resp =>
  let items := json_items (miku_json_get req (Some "userIDList")) in
  (svc, with_data (miku_ji resp "errCode" 0) (user_json <$> omap (fun v => miku_user_find svc (miku_json_str v)) items)).

(** The requests that only answer success, and those that answer an empty
    list. *)
Definition rpc_ok : handler := fun svc _ _ resp => (svc, miku_ji resp "errCode" 0).
Definition rpc_empty_data : handler := fun svc _ _ resp => (svc, with_data (miku_ji resp "errCode" 0) []).

Definition rpc_getAllUsers : handler := fun svc _ _ resp =>
  (svc, with_data (miku_ji resp "errCode" 0) (user_json <$> users svc)).

Definition rpc_getUserCount : handler := fun svc _ _ resp =>
  (svc, miku_ji (miku_ji resp "errCode" 0) "count" (Z.of_nat (length (users svc)))).

Definition user_hit (kw : string) (u : miku_user) : bool :=
  has_sub (str kw) (str (u_nickname u)) || has_sub (str kw) (str (u_user_id u)).

Definition rpc_searchUser : handler := fun svc _ req resp =>
  let hits := match jstr req "keyword" with
              | Some kw => user_json <$> filter (fun u => user_hit kw u = true) (users svc)
              | None => [] end in
  (svc, with_data (miku_ji resp "errCode" 0) hits).

Definition rpc_updateUserInfoEx : handler := fun svc now req resp =>
  let u := req_user req in
  let ui := user_index svc (Some (u_user_id u)) in
  (if 0 <=? ui then overwrite svc ui now u else svc, miku_ji resp "errCode" (if 0 <=? ui then 0 else 1001)).

Definition rpc_getAllUsersUID : handler := fun svc _ _ resp =>
  (svc, with_data (miku_ji resp "errCode" 0) ((fun u => miku_json_create_str (Some (u_user_id u))) <$> users svc)).

Definition miku_user_handle_rpc (method : option string) : handler := fun svc now req resp =>
  match method with
  | None => (svc, resp)
  | Some _ =>
      match user_rpc_id method with
      | 0 => rpc_registerUser svc now req resp
      | 1 => rpc_getUserInfo svc now req resp
      | 2 => rpc_updateUserInfo svc now req resp
      | 3 => rpc_getUsersInfo svc now req resp
      | 4 => rpc_empty_data svc now req resp
      | 5 => rpc_getAllUsers svc now req resp
      | 6 => rpc_getUserCount svc now req resp
      | 7 => rpc_searchUser svc now req resp
      | 8 => rpc_empty_data svc now req resp
      | 9 | 10 | 11 | 12 | 13 | 14 | 15 => rpc_ok svc now req resp
      | 16 => rpc_updateUserInfoEx svc now req resp
      | 17 => rpc_getAllUsersUID svc now req resp
      | 18 | 19 | 20 => rpc_ok svc now req resp
      | 21 => rpc_empty_data svc now req resp
      | 22 | 23 | 24 => rpc_ok svc now req resp
      | 25 => rpc_empty_data svc now req resp
      | 26 | 27 | 28 | 29 | 30 => rpc_ok svc now req resp
      | 31 => rpc_empty_data svc now req resp
      | _ => (svc, miku_jss (miku_ji resp "errCode" 404) "errMsg" (Some "method not found"))
      end
  end.

(** ** Reference: a finite map *)

Inductive user_op :=
  | URegister (now : Z) (u : option miku_user)
  | UUpdate (now : Z) (u : option miku_user)
  | URpc (now : Z) (method : option string) (req : option json) (resp : json).

Definition ref_register (m : gmap string miku_user) (now : Z) (u : option miku_user) : Z * gmap string miku_user :=
  match u with
  | None => (-1, m)
  | Some u =>
      if MK_MAX_USERS <=? Z.of_nat (size m) then (-1, m)
      else match m !! u_user_id u with
           | Some _ => (-2, m)
           | None => (0, <[u_user_id u := with_create_time now u]> m)
           end
  end.

Definition ref_update (m : gmap string miku_user) (now : Z) (u : option miku_user) : Z * gmap string miku_user :=
  match u with
  | None => (-1, m)
  | Some u =>
      match m !! u_user_id u with
      | Some _ => (0, <[u_user_id u := with_update_time now u]> m)
      | None => (-2, m)
      end
  end.

(** Requests change the map as their operation does; the others leave it. *)
Definition ref_rpc (m : gmap string miku_user) (now : Z) (method : option string) (req : option json) :
    gmap string miku_user :=
  match method with
  | None => m
  | Some _ =>
      match user_rpc_id method with
      | 0 => (ref_register m now (Some (req_user req))).2
      | 2 | 16 => (ref_update m now (Some (req_user req))).2
      | _ => m
      end
  end.

Definition user_step (svc : miku_user_service) (op : user_op) : Z * miku_user_service :=
  match op with
  | URegister now u => miku_user_register svc now u
  | UUpdate now u => miku_user_update svc now u
  | URpc now m req resp => (0, (miku_user_handle_rpc m svc now req resp).1)
  end.

Definition ref_step (m : gmap string miku_user) (op : user_op) : Z * gmap string miku_user :=
  match op with
  | URegister now u => ref_register m now u
  | UUpdate now u => ref_update m now u
  | URpc now method req _ => (0, ref_rpc m now method req)
  end.

(** ** Proofs *)

#[export] Instance pow2_user : Pow2 MK_USER_HASH.
Proof. by exists 13. Qed.

Lemma user_slot_bound i : 0 <= user_hash_slot i < MK_USER_HASH.
Proof. apply (mask_slot_bound 13). lia. Qed.

Definition user_ok (svc : miku_user_service) : Prop :=
  ktable (sz:=MK_USER_HASH) u_user_id user_hash_slot MK_MAX_USERS (id_hash svc) (users svc).

Definition user_map (svc : miku_user_service) : gmap string miku_user := kmap u_user_id id (users svc).

Lemma user_tests l i : tests u_user_id l i (user_match l i).
Proof. intros ei. unfold user_match. destruct (at_ l ei); [apply streq_bool|done]. Qed.

Lemma user_index_ok svc i : user_ok svc ->
  match user_map svc !! i with
  | Some u => at_ (users svc) (user_index svc (Some i)) = Some u /\ u_user_id u = i
  | None => user_index svc (Some i) = -1 /\ i ∉ u_user_id <$> users svc
  end.
Proof.
  intros T. unfold user_index, scan_find, user_map.
  destruct (ktable_find u_user_id id user_hash_slot MK_MAX_USERS user_slot_bound ltac:(done) _ _ _ _ T (user_tests _ i))
    as [(p & j & u & -> & Hj & Hk & ->)|(p & -> & -> & Hn)]; done.
Qed.

Lemma user_find_ok svc i : user_ok svc -> miku_user_find svc (Some i) = user_map svc !! i.
Proof.
  intros T. unfold miku_user_find. pose proof (user_index_ok svc i T) as H.
  destruct (user_map svc !! i); [apply H|]. by destruct H as [-> _].
Qed.

Lemma register_ok svc now u : user_ok svc ->
  ref_register (user_map svc) now u = ((miku_user_register svc now u).1, user_map (miku_user_register svc now u).2) /\
  user_ok (miku_user_register svc now u).2.
Proof.
  intros T. destruct u as [u|]; [|done]. unfold ref_register, miku_user_register.
  assert (size (user_map svc) = length (users svc)) as -> by (apply kmap_size, T).
  destruct (Z.leb_spec MK_MAX_USERS (Z.of_nat (length (users svc)))) as [|Hl]; [done|].
  rewrite user_find_ok by done. pose proof (user_index_ok svc (u_user_id u) T) as H.
  destruct (user_map svc !! u_user_id u); [done|]. destruct H as [_ Hn].
  cbn [fst snd]. unfold user_hash_insert. cbn [users id_hash]. rewrite at_of_nat, list_lookup_middle by done.
  unfold MK_MAX_USERS in Hl. rewrite i16_small by lia.
  destruct (ktable_insert u_user_id id user_hash_slot MK_MAX_USERS user_slot_bound ltac:(done) _ _
              (with_create_time now u) T Hn Hl) as [T2 M2].
  split; [|exact T2]. f_equal. symmetry. exact M2.
Qed.

Lemma overwrite_ok svc now u v : user_ok svc -> user_map svc !! u_user_id u = Some v ->
  let svc' := overwrite svc (user_index svc (Some (u_user_id u))) now u in
  user_map svc' = <[u_user_id u := with_update_time now u]> (user_map svc) /\ user_ok svc'.
Proof.
  intros T Hv. pose proof (user_index_ok svc (u_user_id u) T) as H. rewrite Hv in H. destruct H as [Hi Hk].
  destruct (ktable_upd u_user_id id user_hash_slot MK_MAX_USERS _ _ _ _ (fun _ => with_update_time now u) T Hi)
    as [T2 M2]; [done|]. split; [|exact T2]. cbn zeta. unfold user_map, overwrite. cbn [users]. by rewrite M2, Hk.
Qed.

Lemma user_update_ok svc now u : user_ok svc ->
  ref_update (user_map svc) now u = ((miku_user_update svc now u).1, user_map (miku_user_update svc now u).2) /\
  user_ok (miku_user_update svc now u).2.
Proof.
  intros T. destruct u as [u|]; [|done]. unfold ref_update, miku_user_update.
  pose proof (user_index_ok svc (u_user_id u) T) as H. destruct (user_map svc !! u_user_id u) as [v|] eqn:Hv.
  - destruct H as [Hi _]. apply at_lt in Hi. rewrite (proj2 (Z.ltb_ge _ 0)) by lia. cbn [fst snd].
    destruct (overwrite_ok svc now u v T Hv) as [-> ?]. done.
  - by destruct H as [-> _].
Qed.

Lemma rpc_ok_step svc now method req resp : user_ok svc ->
  ref_rpc (user_map svc) now method req = user_map (miku_user_handle_rpc method svc now req resp).1 /\
  user_ok (miku_user_handle_rpc method svc now req resp).1.
Proof.
  intros T. unfold ref_rpc, miku_user_handle_rpc. destruct method as [m|]; [|done].
  destruct (user_rpc_id (Some m)) as [|p|p]; [| |done].
  { unfold rpc_registerUser. destruct (register_ok svc now (Some (req_user req)) T) as [-> O].
    by destruct (miku_user_register _ _ _). }
  do 6 (try destruct p as [p|p|]); try exact (conj eq_refl T).
  - unfold rpc_updateUserInfoEx. destruct (user_update_ok svc now (Some (req_user req)) T) as [-> O]. cbn [fst snd].
    unfold miku_user_update in *. rewrite Z.leb_antisym. destruct (_ <? 0); cbn [negb snd] in *; done.
  - unfold rpc_updateUserInfo. destruct (user_update_ok svc now (Some (req_user req)) T) as [-> O].
    by destruct (miku_user_update _ _ _).
  - unfold rpc_getUserInfo. by destruct (miku_user_find _ _).
Qed.

Lemma user_step_ok svc op : user_ok svc ->
  ref_step (user_map svc) op = ((user_step svc op).1, user_map (user_step svc op).2) /\ user_ok (user_step svc op).2.
Proof.
  intros T. destruct op as [now u|now u|now m req resp]; cbn [user_step ref_step].
  - by apply register_ok.
  - by apply user_update_ok.
  - destruct (rpc_ok_step svc now m req resp T) as [-> ?]. done.
Qed.

Lemma user_run_ok ops :
  let r := run_steps user_step miku_user_service_create ops in
  run_steps ref_step ∅ ops = (r.1, user_map r.2) /\ user_ok r.2.
Proof.
  induction ops as [|op ops IH] using rev_ind; [split; [done|by apply ktable_empty]|].
  cbn zeta in *. rewrite !run_steps_snoc. destruct IH as [-> T].
  destruct (run_steps user_step _ ops) as [rcs svc]. cbn [fst snd] in *.
  destruct (user_step_ok svc op T) as [-> O]. by destruct (user_step svc op).
Qed.

(** After any sequence of registrations, updates and RPC requests, the
    service answers as a finite map from identifiers to records does: the same
    status codes, the same record for every identifier (a registered user is
    found, and only a registered user), and as many users as the map has
    keys, each listed once. *)
Theorem user_refines ops i :
  let '(rcs, svc) := run_steps user_step miku_user_service_create ops in
  let '(rcs', m) := run_steps ref_step ∅ ops in
  rcs = rcs' /\ miku_user_find svc (Some i) = m !! i /\ miku_user_count svc = Z.of_nat (size m) /\
  NoDup (u_user_id <$> users svc).
Proof.
  destruct (user_run_ok ops) as [E T]. rewrite E. destruct (run_steps user_step _ ops) as [rcs svc].
  cbn [fst snd] in *. split_and!.
  - done.
  - by apply user_find_ok.
  - unfold miku_user_count. f_equal. symmetry. apply kmap_size, T.
  - apply T.
Qed.

(** An update request replaces the whole record: the creation time and every
    field the request does not carry are lost. *)
Theorem user_update_replaces :
  exists req u,
    let svc := (miku_user_register miku_user_service_create 1000
                  (Some (User "alice" "Al" "" 0 "" "" 0 "" 0 0 0 0))).2 in
    let svc' := (miku_user_handle_rpc (Some "updateUserInfo") svc 2000 req miku_json_create_object).1 in
    miku_user_find svc' (Some "alice") = Some u /\ u_create_time u = 0 /\ u_nickname u = "".
Proof.
  exists (Some (miku_jss (miku_jss miku_json_create_object "userID" (Some "alice")) "ex" (Some "x"))).
  eexists. split; [vm_compute; reflexivity|done].
Qed.
