(* ===== verification/ObjectStore.v ===== *)
(** * Object metadata store (storage/miku_object_store.c)

    Metadata of uploaded objects in [MK_OBJ_CAP] slots: a stack of free slots,
    an index of the names that is rebuilt after every change, and a cursor
    that selects the slot to reuse when all are taken.  A slot that is not in
    use is cleared when it is taken again and never read before, so that the
    slots in use are a finite map here.  Every operation holds the lock.

    [object_store_refines]: the store is a finite map from safe names to
    metadata that gives up one object when a new one does not fit.
    [name_safe_iff]: a name that passes the check cannot leave its directory. *)
From Stdlib Require Import Ascii.
From S2P Require Import Prelude Hash ProbeIndex SlotChains Json JsonText JsonEscape.
#[local] Open Scope string_scope.
#[local] Open Scope list_scope.
#[local] Open Scope Z_scope.

Definition MK_OBJ_CAP : Z := 4096.
Definition MK_OBJ_HASH : Z := 8192.

Record miku_object_meta := ObjectMeta {
  om_name : string; om_owner : string; om_content_type : string; om_upload_id : string;
  om_size : Z; om_created_ms : Z; om_expire_ms : Z; om_complete : Z }.

Record miku_object_store := ObjectStore {
  slots : gmap Z miku_object_meta;   (* the slots in use *)
  free_stack : list Z;               (* the top first *)
  name_hash : gmap Z Z;
  obj_count : Z;
  evict_cursor : Z }.

Definition name_char (c : ascii) : bool :=
  let z := code c in
  ((65 <=? z) && (z <=? 90)) || ((97 <=? z) && (z <=? 122)) || ((48 <=? z) && (z <=? 57)) ||
  (z =? 46) || (z =? 95) || (z =? 45).

(** The loop of [miku_object_name_is_safe] from character [n] on. *)
Fixpoint name_loop (t : text) (n : Z) (prev_slash : bool) (seg_dots seg_len : Z) : bool :=
  match t with
  | [] => negb prev_slash && negb ((seg_dots =? seg_len) && (1 <=? seg_len))
  | c :: t' =>
      if 255 <=? n then false
      else if code c =? 47 then
        if (n =? 0) || prev_slash then false
        else if (seg_dots =? seg_len) && (1 <=? seg_len) then false
        else name_loop t' (n + 1) true 0 0
      else if negb (name_char c) then false
      else name_loop t' (n + 1) false (if code c =? 46 then seg_dots + 1 else seg_dots) (seg_len + 1)
  end.

Definition miku_object_name_is_safe (name : option string) : bool :=
  if given name then name_loop (str (default "" name)) 0 false 0 0 else false.

Definition name_bucket (name : string) : Z := mask_slot MK_OBJ_HASH (fnv1a_64 name).

(** One round of the rebuild. *)
Definition index_slot (sl : gmap Z miku_object_meta) (t : gmap Z Z) (slot : Z) : gmap Z Z :=
  match sl !! slot with
  | Some m => scan_insert MK_OBJ_HASH t (name_bucket (om_name m)) slot
  | None => t
  end.

Definition name_hash_rebuild (s : miku_object_store) : miku_object_store :=
  ObjectStore (slots s) (free_stack s) (for_range MK_OBJ_CAP (index_slot (slots s)) ∅) (obj_count s) (evict_cursor s).

Definition name_test (sl : gmap Z miku_object_meta) (name : string) (slot : Z) : bool :=
  match sl !! slot with Some m => streq (om_name m) name | None => false end.

Definition name_find (s : miku_object_store) (name : string) : Z :=
  scan_find MK_OBJ_HASH (name_hash s) (name_test (slots s) name) (name_bucket name).

(** [used = 0], the count and the free stack. *)
Definition drop_slot (s : miku_object_store) (slot : Z) : miku_object_store :=
  ObjectStore (delete slot (slots s))
    (if Z.of_nat (length (free_stack s)) <? MK_OBJ_CAP then slot :: free_stack s else free_stack s)
    (name_hash s) (if 0 <? obj_count s then obj_count s - 1 else obj_count s) (evict_cursor s).

Definition free_slot (s : miku_object_store) (slot : Z) : miku_object_store :=
  match slots s !! slot with
  | Some _ => name_hash_rebuild (drop_slot s slot)
  | None => s
  end.

Definition zero_meta : miku_object_meta := ObjectMeta "" "" "" "" 0 0 0 0.

(** [None]: the top of the empty free stack is read. *)
Definition take_free (s : miku_object_store) : option (Z * miku_object_store) :=
  match free_stack s with
  | slot :: fs =>
      Some (slot, ObjectStore (<[slot := zero_meta]> (slots s)) fs (name_hash s) (obj_count s + 1) (evict_cursor s))
  | [] => None
  end.

Definition alloc_slot (s : miku_object_store) : option (Z * miku_object_store) :=
  match free_stack s with
  | _ :: _ => take_free s
  | [] =>
      let slot := evict_cursor s in
      let s1 := ObjectStore (slots s) (free_stack s) (name_hash s) (obj_count s) ((slot + 1) mod MK_OBJ_CAP) in
      take_free (match slots s1 !! slot with
                 | Some _ => name_hash_rebuild (drop_slot s1 slot)
                 | None => s1
                 end)
  end.

Definition miku_object_store_create : miku_object_store :=
  ObjectStore ∅ (seqZ 0 MK_OBJ_CAP) ∅ 0 0.

(** The stored record: the creation time is filled in when it is missing. *)
Definition stamped_meta (now : Z) (m : miku_object_meta) : miku_object_meta :=
  ObjectMeta (om_name m) (om_owner m) (om_content_type m) (om_upload_id m) (om_size m)
             (if om_created_ms m <=? 0 then now else om_created_ms m) (om_expire_ms m) (om_complete m).

Definition store_slot (s : miku_object_store) (slot : Z) (m : miku_object_meta) : miku_object_store :=
  name_hash_rebuild (ObjectStore (<[slot := m]> (slots s)) (free_stack s) (name_hash s) (obj_count s) (evict_cursor s)).

Definition miku_object_store_upsert (s : miku_object_store) (now : Z) (m : miku_object_meta) :
    option (Z * miku_object_store) :=
  if negb (miku_object_name_is_safe (Some (om_name m))) then Some (-1, s)
  else
    let slot := name_find s (om_name m) in
    if slot <? 0
    then '(slot, s1) ← alloc_slot s; Some (0, store_slot s1 slot (stamped_meta now m))
    else Some (0, store_slot s slot (stamped_meta now m)).

Definition miku_object_store_get (s : miku_object_store) (name : option string) : option miku_object_meta :=
  match name with
  | Some n => slots s !! name_find s n
  | None => None
  end.

Definition miku_object_store_delete (s : miku_object_store) (name : option string) : Z * miku_object_store :=
  match name with
  | Some n => let slot := name_find s n in (0, if 0 <=? slot then free_slot s slot else s)
  | None => (-1, s)
  end.

Definition purgeable (now_ms cutoff_ms : Z) (m : miku_object_meta) : bool :=
  ((0 <? om_expire_ms m) && (om_expire_ms m <? now_ms)) ||
  ((0 <? cutoff_ms) && (0 <? om_created_ms m) && (om_created_ms m <? cutoff_ms)).

(** One round of the purge. *)
Definition purge_slot (now_ms cutoff_ms : Z) (acc : Z * miku_object_store) (i : Z) : Z * miku_object_store :=
  match slots acc.2 !! i with
  | Some m => if purgeable now_ms cutoff_ms m then (acc.1 + 1, drop_slot acc.2 i) else acc
  | None => acc
  end.

Definition miku_object_store_purge_expired (s : miku_object_store) (clock now_ms cutoff_ms : Z) :
    Z * miku_object_store :=
  let now := if now_ms <=? 0 then clock else now_ms in
  let '(removed, s') := for_range MK_OBJ_CAP (purge_slot now cutoff_ms) (0, s) in
  (removed, if removed =? 0 then s' else name_hash_rebuild s').

Definition miku_object_store_count (s : miku_object_store) : Z := obj_count s.

(** ** Names *)

(** The segments between the slashes. *)
Fixpoint segments (t : text) : list text :=
  match t with
  | [] => [[]]
  | c :: t' =>
      if code c =? 47 then [] :: segments t'
      else match segments t' with s :: ss => (c :: s) :: ss | [] => [[c]] end
  end.

(** A segment that names an entry: not empty, not made of dots only, of
    letters, digits, dots, underscores and hyphens. *)
Definition good_segment (s : text) : bool :=
  negb (bool_decide (s = [])) && forallb name_char s && negb (forallb (fun c => code c =? 46) s).

(** The number of dots of a segment. *)
Definition dots (s : text) : Z := Z.of_nat (length (List.filter (fun c => code c =? 46) s)).

Lemma dots_app s c : dots (s ++ [c]) = if code c =? 46 then dots s + 1 else dots s.
Proof.
  unfold dots. rewrite List.filter_app. cbn [List.filter]. destruct (code c =? 46); [rewrite length_app; cbn; lia|].
  by rewrite app_nil_r.
Qed.

Lemma dots_all s : (dots s =? tlen s) = forallb (fun c => code c =? 46) s.
Proof.
  unfold dots, tlen. induction s as [|c s IH]; [done|]. cbn [forallb List.filter length].
  destruct (code c =? 46); cbn [length andb].
  - rewrite <- IH. apply eq_iff_eq_true. rewrite !Z.eqb_eq. lia.
  - apply Z.eqb_neq. pose proof (List.filter_length_le (fun c => code c =? 46) s). lia.
Qed.

Lemma tlen_cons c s : tlen (c :: s) = tlen s + 1.
Proof. unfold tlen. cbn [length]. lia. Qed.

Lemma tlen_app s c : tlen (s ++ [c]) = tlen s + 1.
Proof. unfold tlen. rewrite length_app. cbn [length]. lia. Qed.

Lemma segments_cons t : exists s ss, segments t = s :: ss.
Proof.
  induction t as [|c t (s & ss & E)]; [by exists [], []|]. cbn. rewrite E. destruct (code c =? 47); eauto.
Qed.

(** [cur] is the part of the current segment already read. *)
Lemma name_loop_ok t : forall n cur,
  0 <= n <= 255 -> n <> 0 \/ t <> [] -> forallb name_char cur = true -> (n = 0 -> cur = []) ->
  name_loop t n (bool_decide (cur = [] /\ n <> 0)) (dots cur) (tlen cur) =
  (n + tlen t <=? 255) &&
  match segments t with
  | s :: ss => good_segment (cur ++ s) && forallb good_segment ss
  | [] => false
  end.
Proof.
  assert (forall cur, cur <> [] -> (1 <=? tlen cur) = true) as Hpos.
  { intros [|c cur] H; [done|]. rewrite tlen_cons. apply Z.leb_le. unfold tlen. lia. }
  induction t as [|c t IH]; intros n cur Hn Hne Hc H0; cbn [name_loop segments].
  - destruct Hne as [Hne|]; [|done]. rewrite app_nil_r. unfold good_segment. rewrite Hc, dots_all. cbn [forallb].
    unfold tlen at 2. cbn [length]. rewrite Z.add_0_r, (proj2 (Z.leb_le n 255)) by lia. cbn [andb].
    destruct (decide (cur = [])) as [->|Hcur]; [by rewrite !bool_decide_true by done|].
    rewrite !bool_decide_false by tauto. rewrite Hpos by done. cbn [negb andb]. by rewrite !andb_true_r.
  - rewrite tlen_cons. destruct (segments_cons t) as (s & ss & Es).
    destruct (Z.leb_spec 255 n) as [Hb|Hb].
    { replace (n + (tlen t + 1) <=? 255) with false; [done|]. symmetry. apply Z.leb_gt. unfold tlen. lia. }
    replace (n + (tlen t + 1)) with (n + 1 + tlen t) by lia. destruct (code c =? 47) eqn:Ec.
    + rewrite app_nil_r. destruct (decide (cur = [])) as [->|Hcur].
      * change (good_segment []) with false. rewrite andb_false_l, !andb_false_r.
        destruct (Z.eqb_spec n 0); [done|]. by rewrite bool_decide_true by done.
      * unfold good_segment at 1. rewrite Hc, dots_all, andb_true_r. destruct (Z.eqb_spec n 0) as [E0|Hn0]; [by destruct (Hcur (H0 E0))|].
        rewrite !bool_decide_false by tauto. rewrite Hpos by done. cbn [orb negb andb]. rewrite andb_true_r.
        destruct (forallb (fun c => code c =? 46) cur); cbn [negb andb]; [by rewrite andb_false_r|].
        pose proof (IH (n + 1) [] ltac:(lia) ltac:(lia) eq_refl ltac:(done)) as R.
        rewrite bool_decide_true in R by (split; [done|lia]). change (dots []) with 0 in R. change (tlen []) with 0 in R. cbn [app] in R. by rewrite R, Es.
    + rewrite Es. destruct (name_char c) eqn:Enc; cbn [negb].
      * rewrite <- (dots_app cur c), <- (tlen_app cur c).
        assert (forallb name_char (cur ++ [c]) = true) as Hc' by (rewrite forallb_app, Hc; cbn; by rewrite Enc).
        pose proof (IH (n + 1) (cur ++ [c]) ltac:(lia) ltac:(lia) Hc' ltac:(lia)) as R.
        rewrite Es, <- app_assoc in R. cbn [app] in R. rewrite <- R.
        rewrite bool_decide_false; [done|]. intros [H _]. by destruct cur.
      * symmetry. unfold good_segment at 1. rewrite forallb_app. cbn [forallb]. rewrite Enc. cbn [andb].
        rewrite andb_false_r. by rewrite !andb_false_r.
Qed.

(** The names the store accepts are the relative paths of at most 255
    characters whose segments are all proper names: no empty segment (so no
    leading, trailing or doubled slash), none of dots only (so no [.] and no
    [..]), and only letters, digits, dots, underscores and hyphens. *)
Theorem name_safe_iff name :
  miku_object_name_is_safe (Some name) = true <->
  (String.length name <= 255)%nat /\ Forall (fun s => good_segment s = true) (segments (str name)).
Proof.
  unfold miku_object_name_is_safe. cbn [given default from_option]. unfold id.
  assert (length (str name) = String.length name) as El by (unfold str; induction name; cbn; congruence).
  destruct (nonempty name) eqn:E.
  - assert (str name <> []) as Hn by (destruct name; done).
    pose proof (name_loop_ok (str name) 0 [] ltac:(lia) (or_intror Hn) eq_refl ltac:(done)) as R.
    rewrite bool_decide_false in R by tauto. change (dots []) with 0 in R. change (tlen []) with 0 in R. rewrite R.
    destruct (segments_cons (str name)) as (s & ss & ->). cbn [app]. unfold tlen. rewrite El.
    rewrite andb_true_iff, Z.leb_le, andb_true_iff, list.Forall_cons, forallb_forall, list.Forall_forall.
    setoid_rewrite list_elem_of_In. split; intros (? & ? & ?); split_and!; done || lia.
  - destruct name; [|done]. split; [done|]. intros [_ F]. apply list.Forall_cons in F as [F _]. done.
Qed.

(** ** The store as a finite map *)

Definition names (sl : gmap Z miku_object_meta) : gmap string miku_object_meta :=
  list_to_map ((fun p => (om_name p.2, p.2)) <$> map_to_list sl).

Inductive obj_op :=
  | JUpsert (now : Z) (m : miku_object_meta)
  | JDelete (name : option string)
  | JPurge (clock now cutoff : Z).

Definition obj_step (s : miku_object_store) (op : obj_op) : option miku_object_store :=
  match op with
  | JUpsert now m => snd <$> miku_object_store_upsert s now m
  | JDelete n => Some (miku_object_store_delete s n).2
  | JPurge clock now cutoff => Some (miku_object_store_purge_expired s clock now cutoff).2
  end.

(** [None]: some operation took a slot from an empty free stack. *)
Definition obj_run (ops : list obj_op) : option miku_object_store :=
  foldl (fun s op => s ← s; obj_step s op) (Some miku_object_store_create) ops.

(** What an operation may do to the map. *)
Definition ref_obj (m : gmap string miku_object_meta) (op : obj_op) (m' : gmap string miku_object_meta) : Prop :=
  match op with
  | JUpsert now x =>
      if miku_object_name_is_safe (Some (om_name x)) then
        if bool_decide (is_Some (m !! om_name x)) || (Z.of_nat (size m) <? MK_OBJ_CAP)
        then m' = <[om_name x := stamped_meta now x]> m
        else exists victim, is_Some (m !! victim) /\ m' = <[om_name x := stamped_meta now x]> (delete victim m)
      else m' = m
  | JDelete (Some n) => m' = delete n m
  | JDelete None => m' = m
  | JPurge clock now cutoff =>
      m' = filter (fun p => purgeable (if now <=? 0 then clock else now) cutoff p.2 = false) m
  end.

Inductive ref_objs : list obj_op -> gmap string miku_object_meta -> Prop :=
  | ro_nil : ref_objs [] ∅
  | ro_snoc ops op m m' : ref_objs ops m -> ref_obj m op m' -> ref_objs (ops ++ [op]) m'.

#[export] Instance pow2_obj : Pow2 MK_OBJ_HASH.
Proof. by exists 13. Qed.

Lemma name_bucket_bound n : 0 <= name_bucket n < MK_OBJ_HASH.
Proof. apply (mask_slot_bound 13). lia. Qed.

(** Distinct slots hold distinct names. *)
Definition distinct_names (sl : gmap Z miku_object_meta) : Prop :=
  forall v w m m', sl !! v = Some m -> sl !! w = Some m' -> om_name m = om_name m' -> v = w.

(** The invariant, but for the index. *)
Record obj_base (s : miku_object_store) : Prop := {
  ob_bound : forall v m, slots s !! v = Some m -> 0 <= v < MK_OBJ_CAP;
  ob_names : distinct_names (slots s);
  ob_free : NoDup (free_stack s) /\ forall v, v ∈ free_stack s <-> 0 <= v < MK_OBJ_CAP /\ slots s !! v = None;
  ob_count : obj_count s = Z.of_nat (size (slots s));
  ob_cursor : 0 <= evict_cursor s < MK_OBJ_CAP }.

Definition obj_home (sl : gmap Z miku_object_meta) : Z -> Z := shome name_bucket (om_name <$> sl).

Definition obj_indexed (s : miku_object_store) : Prop :=
  indexed MK_OBJ_HASH (name_hash s) (obj_home (slots s)) (fun v => is_Some (slots s !! v)).

Definition obj_ok (s : miku_object_store) : Prop := obj_base s /\ obj_indexed s.

Lemma names_spec sl n m : distinct_names sl ->
  names sl !! n = Some m <-> exists v, sl !! v = Some m /\ om_name m = n.
Proof.
  intros D. unfold names. rewrite <- elem_of_list_to_map.
  - rewrite list_elem_of_fmap. split.
    + intros ([v m'] & [= -> ->] & H%elem_of_map_to_list). eauto.
    + intros (v & H & <-). exists (v, m). split; [done|]. by apply elem_of_map_to_list.
  - rewrite <- list_fmap_compose. apply NoDup_fmap_2_strong; [|apply NoDup_map_to_list].
    intros [v m1] [w m2] H1%elem_of_map_to_list H2%elem_of_map_to_list E. cbn in E.
    pose proof (D _ _ _ _ H1 H2 E). subst. congruence.
Qed.

Lemma names_ext sl (m : gmap string miku_object_meta) : distinct_names sl ->
  (forall n x, m !! n = Some x <-> exists v, sl !! v = Some x /\ om_name x = n) -> names sl = m.
Proof.
  intros D H. apply map_eq. intros n. apply option_eq. intros x. rewrite names_spec by done. by rewrite H.
Qed.

Lemma names_size sl : distinct_names sl -> size (names sl) = size sl.
Proof.
  intros D. unfold names. rewrite map_size_list_to_map.
  - by rewrite length_fmap, length_map_to_list.
  - rewrite <- list_fmap_compose. apply NoDup_fmap_2_strong; [|apply NoDup_map_to_list].
    intros [v m1] [w m2] H1%elem_of_map_to_list H2%elem_of_map_to_list E. cbn in E.
    pose proof (D _ _ _ _ H1 H2 E). subst. congruence.
Qed.

Lemma obj_home_bound sl v : 0 <= obj_home sl v < MK_OBJ_HASH.
Proof. apply (shome_bound (sz:=MK_OBJ_HASH) name_bucket name_bucket_bound). Qed.

Lemma obj_rebuild_ok s : obj_base s -> obj_ok (name_hash_rebuild s).
Proof.
  intros B. split; [by destruct B|]. unfold obj_indexed. cbn [slots name_hash name_hash_rebuild].
  set (home := obj_home (slots s)).
  assert (let t := for_range MK_OBJ_CAP (index_slot (slots s)) ∅ in
          indexed MK_OBJ_HASH t home (fun v => is_Some (slots s !! v) /\ v < MK_OBJ_CAP)) as I.
  { apply (for_range_ind (fun i t => indexed MK_OBJ_HASH t home (fun v => is_Some (slots s !! v) /\ v < i))).
    - done.
    - eapply indexed_ext; [| |apply (indexed_empty home)]; [|done].
      intros v. split; [done|]. intros [[m Hm] Hv]. apply (ob_bound s B) in Hm. lia.
    - intros i t Hi I. unfold index_slot. destruct (slots s !! i) as [m|] eqn:E.
      + assert (home i = name_bucket (om_name m)) as Eh.
        { unfold home, obj_home, shome. by rewrite lookup_fmap, E. }
        unfold scan_insert. rewrite <- Eh.
        destruct (scan_miss I (fun _ => false) (home i)) as (p & F); [apply obj_home_bound| |done|].
        { assert (size t <= Z.to_nat MK_OBJ_CAP)%nat; [|unfold MK_OBJ_CAP, MK_OBJ_HASH in *; lia].
          apply (indexed_vals_bound I). intros v [[m' Hm] _]. apply (ob_bound s B) in Hm. lia. }
        rewrite F. destruct (indexed_insert I (fun _ => false) p i) as [_ I2]; [apply obj_home_bound|done| |lia|].
        { intros [_ Hlt]. lia. }
        eapply indexed_ext; [| |exact I2]; [|done]. intros v. split.
        * intros [[? ?]| ->]; [split; [done|lia]|]. split; [by rewrite E|lia].
        * intros [? ?]. destruct (decide (v = i)); [by right|left]. split; [done|lia].
      + eapply indexed_ext; [| |exact I]; [|done]. intros v. split; intros [[m Hm] Hv]; (split; [by eexists|]); [lia|].
        destruct (decide (v = i)) as [->|]; [congruence|lia]. }
  eapply indexed_ext; [| |exact I]; [|done]. intros v. split; [tauto|]. intros [m Hm]. split; [by eexists|].
  apply (ob_bound s B) in Hm. lia.
Qed.

Lemma name_find_ok s n : obj_ok s ->
  match names (slots s) !! n with
  | Some m => slots s !! name_find s n = Some m /\ om_name m = n
  | None => name_find s n = -1
  end.
Proof.
  intros [B I]. unfold name_find, scan_find.
  destruct (names (slots s) !! n) as [m|] eqn:E.
  - apply (names_spec _ _ _ (ob_names s B)) in E as (v & Hv & Hn).
    destruct (scan_hit I (name_test (slots s) n) (name_bucket n) v) as (p & -> & _); [apply name_bucket_bound|by eexists|..].
    + unfold obj_home, shome. by rewrite lookup_fmap, Hv, <- Hn.
    + unfold name_test. rewrite Hv. by apply streq_eq.
    + intros w [m' Hw] Ht. unfold name_test in Ht. rewrite Hw in Ht. apply streq_eq in Ht.
      eapply (ob_names s B); [exact Hw|exact Hv|congruence].
    + done.
  - destruct (scan_miss I (name_test (slots s) n) (name_bucket n)) as (p & ->); [apply name_bucket_bound|..]; [| |done].
    + assert (size (name_hash s) <= Z.to_nat MK_OBJ_CAP)%nat; [|unfold MK_OBJ_CAP, MK_OBJ_HASH in *; lia].
      apply (indexed_vals_bound I). intros v [m Hm]. apply (ob_bound s B) in Hm. lia.
    + intros w [m Hw]. unfold name_test. rewrite Hw. apply not_true_iff_false. intros Ht%streq_eq.
      assert (names (slots s) !! n = Some m); [|congruence]. apply names_spec; [apply B|]. eauto.
Qed.

Lemma obj_get_ok s n : obj_ok s -> miku_object_store_get s (Some n) = names (slots s) !! n.
Proof.
  intros O. cbn. pose proof (name_find_ok s n O) as F. destruct (names (slots s) !! n); [apply F|]. rewrite F.
  destruct (slots s !! (-1)) as [m|] eqn:E; [|done]. apply (ob_bound s (proj1 O)) in E. lia.
Qed.

(** Where a slot is in use the free stack is not full. *)
Lemma free_room s v m : obj_base s -> slots s !! v = Some m -> Z.of_nat (length (free_stack s)) < MK_OBJ_CAP.
Proof.
  intros B Hv. destruct (ob_free s B) as [Nd Hf].
  assert (length (v :: free_stack s) <= length (seqZ 0 MK_OBJ_CAP))%nat as L.
  { apply submseteq_length, NoDup_submseteq.
    - apply list.NoDup_cons. split; [|done]. intros [_ ?]%Hf. congruence.
    - intros w Hw. apply elem_of_seqZ. apply list.elem_of_cons in Hw as [->|Hw%Hf]; [|lia].
      apply (ob_bound s B) in Hv. lia. }
  rewrite length_seqZ in L. cbn [length] in L. lia.
Qed.

Lemma size_pos (sl : gmap Z miku_object_meta) v m : sl !! v = Some m -> (0 < size sl)%nat.
Proof. intros H. apply Nat.neq_0_lt_0. intros E. apply map_size_empty_inv in E. by rewrite E in H. Qed.

Lemma drop_ok s v m : obj_base s -> slots s !! v = Some m ->
  obj_base (drop_slot s v) /\ slots (drop_slot s v) = delete v (slots s) /\
  names (delete v (slots s)) = delete (om_name m) (names (slots s)).
Proof.
  intros B Hv. pose proof (free_room s v m B Hv) as L. pose proof (size_pos _ _ _ Hv) as P.
  destruct B as [Bb Bn [Nd Bf] Bc Bu]. assert (distinct_names (delete v (slots s))) as D.
  { intros a b x y Ha Hb E. apply lookup_delete_Some in Ha as [_ Ha], Hb as [_ Hb]. by eapply Bn. }
  split; [split; cbn [drop_slot slots free_stack obj_count evict_cursor]|split; [done|]].
  - intros w x [_ H]%lookup_delete_Some. by apply Bb in H.
  - done.
  - rewrite (proj2 (Z.ltb_lt _ _) L). split.
    + apply list.NoDup_cons. split; [|done]. intros [_ ?]%Bf. congruence.
    + intros w. rewrite list.elem_of_cons, Bf, lookup_delete_None. apply Bb in Hv. naive_solver.
  - rewrite Bc. rewrite (proj2 (Z.ltb_lt 0 _)) by lia. rewrite map_size_delete_Some by (by eexists). lia.
  - done.
  - apply names_ext; [done|]. intros n x. rewrite lookup_delete_Some, names_spec by done.
    split.
    + intros [Hn (w & Hw & E)]. exists w. split; [|done]. apply lookup_delete_Some. split; [|done]. congruence.
    + intros (w & [Hw1 Hw2]%lookup_delete_Some & E). split; [|eauto]. intros En. apply Hw1.
      eapply Bn; [exact Hv|exact Hw2|congruence].
Qed.

(** A record stored in place of one with the same name. *)
Lemma obj_replace_ok s v m x : obj_base s -> slots s !! v = Some m -> om_name x = om_name m ->
  obj_base (ObjectStore (<[v:=x]> (slots s)) (free_stack s) (name_hash s) (obj_count s) (evict_cursor s)) /\
  names (<[v:=x]> (slots s)) = <[om_name x := x]> (names (slots s)).
Proof.
  intros [Bb Bn [Nd Bf] Bc Bu] Hv En. assert (distinct_names (<[v:=x]> (slots s))) as D.
  { intros a b y z Ha Hb E. apply lookup_insert_Some in Ha as [[<- <-]|[Ha1 Ha2]], Hb as [[<- <-]|[Hb1 Hb2]]; try done.
    - eapply Bn; [exact Hv|exact Hb2|congruence].
    - eapply Bn; [exact Ha2|exact Hv|congruence].
    - by eapply Bn. }
  split; [split; cbn [slots free_stack obj_count evict_cursor]|].
  - intros w y [[<- <-]|[_ H]]%lookup_insert_Some; eauto.
  - done.
  - split; [done|]. intros w. rewrite Bf, lookup_insert_None. split; [|tauto]. intros [? ?]. split_and!; try lia; try done. intros ->. congruence.
  - by rewrite map_size_insert_Some by (by eexists).
  - done.
  - apply names_ext; [done|]. intros n y. rewrite lookup_insert_Some, names_spec by done. split.
    + intros [[<- <-]|[Hn (w & Hw & E)]]; [exists v; by rewrite lookup_insert_eq|]. exists w.
      split; [|done]. rewrite lookup_insert_ne; [done|]. intros ->. congruence.
    + intros (w & [[<- <-]|[Hw1 Hw2]]%lookup_insert_Some & E); [by left|right]. split; [|eauto].
      intros E2. apply Hw1. eapply Bn; [exact Hv|exact Hw2|congruence].
Qed.

(** A record with a new name stored in the slot taken from the free stack. *)
Lemma fresh_ok s v fs x : obj_base s -> free_stack s = v :: fs -> names (slots s) !! om_name x = None ->
  obj_base (ObjectStore (<[v:=x]> (slots s)) fs (name_hash s) (obj_count s + 1) (evict_cursor s)) /\
  names (<[v:=x]> (slots s)) = <[om_name x := x]> (names (slots s)).
Proof.
  intros [Bb Bn [Nd Bf] Bc Bu] Hfs Hx. rewrite Hfs in *.
  assert (0 <= v < MK_OBJ_CAP /\ slots s !! v = None) as [Hvb Hv] by (apply Bf; by left).
  apply list.NoDup_cons in Nd as [Hnv Nd].
  assert (forall w y, slots s !! w = Some y -> om_name y <> om_name x) as Hnew.
  { intros w y Hw E. assert (names (slots s) !! om_name x = Some y); [|congruence]. apply names_spec; eauto. }
  assert (distinct_names (<[v:=x]> (slots s))) as D.
  { intros a b y z Ha Hb E. apply lookup_insert_Some in Ha as [[<- <-]|[Ha1 Ha2]], Hb as [[<- <-]|[Hb1 Hb2]]; try done.
    - destruct (Hnew _ _ Hb2 (eq_sym E)).
    - destruct (Hnew _ _ Ha2 E).
    - by eapply Bn. }
  split; [split; cbn [slots free_stack obj_count evict_cursor]|].
  - intros w y [[<- <-]|[_ H]]%lookup_insert_Some; eauto.
  - done.
  - split; [done|]. intros w. rewrite lookup_insert_None. split.
    + intros Hw. assert (w ∈ v :: fs) as [? ?]%Bf by (by right). split_and!; try done; try lia. by intros ->.
    + intros (? & ? & Hne). assert (w ∈ v :: fs) as H2 by (by apply Bf). apply list.elem_of_cons in H2 as [->|]; done.
  - rewrite map_size_insert_None by done. lia.
  - done.
  - apply names_ext; [done|]. intros n y. rewrite lookup_insert_Some, names_spec by done. split.
    + intros [[<- <-]|[Hn (w & Hw & E)]]; [exists v; by rewrite lookup_insert_eq|]. exists w.
      split; [|done]. rewrite lookup_insert_ne; [done|]. intros ->. congruence.
    + intros (w & [[<- <-]|[Hw1 Hw2]]%lookup_insert_Some & E); [by left|right]. split; [|eauto].
      intros E2. apply (Hnew w y Hw2). congruence.
Qed.

Lemma full_iff s : obj_base s -> free_stack s = [] <-> ~ Z.of_nat (size (slots s)) < MK_OBJ_CAP.
Proof.
  intros B. destruct (ob_free s B) as [Nd Hf].
  assert (dom (slots s) ∪ list_to_set (free_stack s) = (list_to_set (seqZ 0 MK_OBJ_CAP) : gset Z)) as E.
  { apply set_eq. intros v. rewrite elem_of_union, !elem_of_list_to_set, elem_of_dom, elem_of_seqZ, Hf. split.
    - intros [[m Hm]|[? _]]; [apply (ob_bound s B) in Hm|]; lia.
    - intros ?. destruct (slots s !! v) eqn:Ev; [left; by eexists|right; split; [lia|done]]. }
  apply (f_equal size) in E. rewrite size_union in E.
  - rewrite size_dom, (size_list_to_set (free_stack s)), (size_list_to_set (seqZ 0 MK_OBJ_CAP)), length_seqZ in E
      by first [exact Nd|apply NoDup_seqZ].
    change (Z.to_nat MK_OBJ_CAP) with 4096%nat in E. unfold MK_OBJ_CAP.
    destruct (free_stack s); cbn [length] in *; split; intros; done || lia.
  - intros v [m Hm]%elem_of_dom Hv%elem_of_list_to_set. apply Hf in Hv as [_ ?]. congruence.
Qed.

Lemma upsert_step s now x : obj_ok s ->
  exists s', obj_step s (JUpsert now x) = Some s' /\ obj_ok s' /\ ref_obj (names (slots s)) (JUpsert now x) (names (slots s')).
Proof.
  intros O. pose proof (proj1 O) as B. cbn [obj_step ref_obj]. unfold miku_object_store_upsert.
  destruct (miku_object_name_is_safe (Some (om_name x))); cbn [negb]; [|by exists s].
  pose proof (name_find_ok s (om_name x) O) as F. rewrite names_size by apply B.
  destruct (names (slots s) !! om_name x) as [m|] eqn:Ex.
  - destruct F as [Fv Fn]. pose proof (ob_bound s B _ _ Fv) as Hb.
    destruct (Z.ltb_spec (name_find s (om_name x)) 0); [lia|]. cbn [fmap option_fmap option_map snd].
    rewrite bool_decide_true by (by eexists). cbn [orb].
    destruct (obj_replace_ok s _ m (stamped_meta now x) B Fv) as [B2 E2]; [done|].
    eexists. split; [done|]. split; [by apply obj_rebuild_ok|]. exact E2.
  - rewrite F. cbn [Z.ltb Z.compare]. rewrite bool_decide_false by (intros [? ?]; done). cbn [orb].
    unfold alloc_slot. destruct (free_stack s) as [|v fs] eqn:Efs.
    + pose proof (proj1 (full_iff s B) Efs) as Hfull.
      destruct (Z.ltb_spec (Z.of_nat (size (slots s))) MK_OBJ_CAP); [lia|].
      destruct (slots s !! evict_cursor s) as [m|] eqn:Ec.
      2: { destruct (ob_free s B) as [_ Hf]. assert (evict_cursor s ∈ free_stack s) as Hin.
           { apply Hf. split; [exact (ob_cursor s B)|done]. } rewrite Efs in Hin. by apply not_elem_of_nil in Hin. }
      cbn [slots]. rewrite Ec.
      set (s1 := ObjectStore (slots s) [] (name_hash s) (obj_count s) ((evict_cursor s + 1) mod MK_OBJ_CAP)).
      assert (obj_base s1) as B1.
      { destruct B as [? ? ? ? ?]. split; cbn [s1 slots free_stack obj_count evict_cursor]; try assumption.
        * by rewrite <- Efs.
        * by apply Z.mod_pos_bound. }
      destruct (drop_ok s1 (evict_cursor s) m B1 Ec) as (B2 & _ & E2).
      destruct (fresh_ok (name_hash_rebuild (drop_slot s1 (evict_cursor s))) (evict_cursor s) [] (stamped_meta now x))
        as [B3 E3]; [by apply obj_rebuild_ok|done| |].
      { change (slots (name_hash_rebuild _)) with (delete (evict_cursor s) (slots s1)). rewrite E2. apply lookup_delete_None. by right. }
      cbn [take_free name_hash_rebuild drop_slot free_stack mbind option_bind fmap option_fmap option_map snd length Z.of_nat
           slots name_hash obj_count evict_cursor] in *.
      change (0 <? MK_OBJ_CAP) with true in *. cbn iota in *. cbn [mbind option_bind fmap option_fmap option_map snd] in *.
      eexists. split; [reflexivity|]. unfold store_slot. cbn [slots free_stack name_hash obj_count evict_cursor].
      rewrite insert_insert_eq. split; [by apply obj_rebuild_ok|].
      exists (om_name m). split; [exists m; apply names_spec; [apply B|eauto]|].
      etrans; [exact E3|]. by rewrite E2.
    + assert (Z.of_nat (size (slots s)) < MK_OBJ_CAP) as Hlt.
      { apply Z.nle_gt. intros Hge. assert (free_stack s = []) as E0 by (apply (full_iff s B); lia). congruence. }
      rewrite (proj2 (Z.ltb_lt _ _) Hlt). unfold take_free. rewrite Efs. cbn [mbind option_bind fmap option_fmap option_map snd].
      destruct (fresh_ok s v fs (stamped_meta now x) B Efs Ex) as [B3 E3].
      eexists. split; [reflexivity|]. unfold store_slot. cbn [slots free_stack name_hash obj_count evict_cursor].
      rewrite insert_insert_eq. split; [by apply obj_rebuild_ok|]. exact E3.
Qed.

Lemma delete_step s n : obj_ok s ->
  let s' := (miku_object_store_delete s n).2 in obj_ok s' /\ ref_obj (names (slots s)) (JDelete n) (names (slots s')).
Proof.
  intros O. destruct n as [n|]; [|done]. cbn [miku_object_store_delete snd ref_obj].
  pose proof (name_find_ok s n O) as F. destruct (names (slots s) !! n) as [m|] eqn:En.
  - destruct F as [Fv Fn]. pose proof (ob_bound s (proj1 O) _ _ Fv) as Hb.
    destruct (Z.leb_spec 0 (name_find s n)); [|lia]. unfold free_slot. rewrite Fv.
    destruct (drop_ok s _ m (proj1 O) Fv) as (B2 & E1 & E2). split; [by apply obj_rebuild_ok|].
    cbn [name_hash_rebuild slots]. by rewrite E1, E2, Fn.
  - rewrite F. cbn [Z.leb Z.compare]. split; [done|]. by rewrite delete_id.
Qed.

(** Not yet visited by the purge loop at slot [i], or not purged. *)
Definition survives (p : miku_object_meta -> bool) (i : Z) (kv : Z * miku_object_meta) : bool :=
  (i <=? kv.1) || negb (p kv.2).

Lemma survives_iff p i kv : survives p i kv = true <-> (kv.1 < i -> p kv.2 = false).
Proof. unfold survives. destruct (Z.leb_spec i kv.1), (p kv.2); cbn; split; intros; done || lia || auto. Qed.

Lemma purge_loop s now cutoff : obj_base s ->
  let p := purgeable now cutoff in
  let r := for_range MK_OBJ_CAP (purge_slot now cutoff) (0, s) in
  obj_base r.2 /\ slots r.2 = filter (fun kv => survives p MK_OBJ_CAP kv = true) (slots s) /\
  0 <= r.1 /\ (r.1 = 0 -> r.2 = s).
Proof.
  intros B p. cbn zeta.
  set (P := fun (i : Z) (acc : Z * miku_object_store) => obj_base acc.2 /\
    slots acc.2 = filter (fun kv => survives p i kv = true) (slots s) /\ 0 <= acc.1 /\ (acc.1 = 0 -> acc.2 = s)).
  apply (for_range_ind P); unfold P; clear P.
  - done.
  - split_and!; try done. cbn [snd]. symmetry. apply map_filter_id. intros v m Hm. apply survives_iff. cbn. intros Hlt. apply (ob_bound s B) in Hm. lia.
  - intros i [n t] Hi (Bt & Et & Hn & Hz). cbn [fst snd] in *.
    unfold purge_slot. cbn [fst snd]. fold p. destruct (slots t !! i) as [m|] eqn:Ei.
    + destruct (p m) eqn:Ep.
      * destruct (drop_ok t i m Bt Ei) as (B2 & E2 & _). cbn [fst snd]. split_and!; [done| |lia|lia].
        rewrite E2. apply map_eq. intros v. apply option_eq. intros y.
        rewrite lookup_delete_Some, Et, !map_lookup_filter_Some, !survives_iff. cbn [fst snd]. split.
        -- intros (Hne & Hy & Hp). split; [done|]. intros Hlt. apply Hp. lia.
        -- intros (Hy & Hp). split_and!; [|done|intros ?; apply Hp; lia]. intros <-.
           assert (slots s !! i = Some m) as Em by (rewrite Et in Ei; by apply map_lookup_filter_Some in Ei as [? _]).
           rewrite Em in Hy. injection Hy as <-. specialize (Hp ltac:(lia)). congruence.
      * split_and!; try done. cbn [fst snd]. rewrite Et. apply map_eq. intros v. apply option_eq. intros y.
        rewrite !map_lookup_filter_Some, !survives_iff. cbn [fst snd]. split; intros [Hy Hp]; (split; [done|]); intros Hlt; [|apply Hp; lia].
        destruct (decide (v = i)) as [->|]; [|apply Hp; lia].
        rewrite Et in Ei. apply map_lookup_filter_Some in Ei as [Em _]. congruence.
    + split_and!; try done. cbn [fst snd]. rewrite Et. apply map_eq. intros v. apply option_eq. intros y.
      rewrite !map_lookup_filter_Some, !survives_iff. cbn [fst snd]. split; intros [Hy Hp]; (split; [done|]); intros Hlt; [|apply Hp; lia].
      destruct (decide (v = i)) as [->|]; [|apply Hp; lia]. exfalso.
      rewrite Et in Ei. assert (filter (fun kv => survives p i kv = true) (slots s) !! i = Some y); [|congruence].
      apply map_lookup_filter_Some. split; [done|]. apply survives_iff. cbn. lia.
Qed.

Lemma purge_step s clock now cutoff : obj_ok s ->
  let s' := (miku_object_store_purge_expired s clock now cutoff).2 in
  obj_ok s' /\ ref_obj (names (slots s)) (JPurge clock now cutoff) (names (slots s')).
Proof.
  intros O. cbn zeta. unfold miku_object_store_purge_expired. cbn [ref_obj].
  set (n := if now <=? 0 then clock else now).
  destruct (purge_loop s n cutoff (proj1 O)) as (B & E & _ & Hz).
  destruct (for_range MK_OBJ_CAP (purge_slot n cutoff) (0, s)) as [removed t]. cbn [fst snd] in *.
  assert (slots (if removed =? 0 then t else name_hash_rebuild t) = slots t) as -> by by destruct (removed =? 0).
  split.
  - destruct (Z.eqb_spec removed 0) as [E0|]; [by rewrite Hz|by apply obj_rebuild_ok].
  - apply names_ext; [apply B|]. intros x m. rewrite map_lookup_filter_Some, names_spec by apply (proj1 O). cbn [snd].
    rewrite E. setoid_rewrite map_lookup_filter_Some. setoid_rewrite survives_iff. cbn [fst snd]. split.
    + intros [(v & Hv & Hn) Hp]. exists v. auto.
    + intros (v & [Hv Hp] & Hn). split; [by exists v|]. apply Hp. apply (ob_bound s (proj1 O)) in Hv. lia.
Qed.

Lemma obj_create_ok : obj_ok miku_object_store_create.
Proof.
  split.
  - split; cbn [miku_object_store_create slots free_stack obj_count evict_cursor].
    + intros v m H. by rewrite lookup_empty in H.
    + intros v w m m' H. by rewrite lookup_empty in H.
    + split; [apply NoDup_seqZ|]. intros v. rewrite elem_of_seqZ, lookup_empty. split; [intros ?; split; [lia|done]|lia].
    + by rewrite map_size_empty.
    + done.
  - unfold obj_indexed. cbn [miku_object_store_create slots name_hash].
    eapply indexed_ext; [| |apply (indexed_empty (obj_home ∅))]; [|done].
    intros v. rewrite lookup_empty. split; [done|]. by intros [? ?].
Qed.

Lemma obj_step_ok s op : obj_ok s ->
  exists s', obj_step s op = Some s' /\ obj_ok s' /\ ref_obj (names (slots s)) op (names (slots s')).
Proof.
  intros O. destruct op as [now x|n|clock now cutoff].
  - by apply upsert_step.
  - eexists. split; [reflexivity|]. by apply delete_step.
  - eexists. split; [reflexivity|]. by apply purge_step.
Qed.

(** After any sequence of upserts, deletions and purges the store holds a
    finite map from safe names to metadata, changed by each operation as a map
    is: an upsert inserts (and gives up one other object only when the name is
    new and all [MK_OBJ_CAP] slots are taken), a deletion removes, a purge
    keeps what is neither expired nor aged.  Lookups and the count are those
    of the map, and the free stack is never read when it is empty. *)
Theorem object_store_refines ops :
  exists s m, obj_run ops = Some s /\ ref_objs ops m /\
    (forall n, miku_object_store_get s (Some n) = m !! n) /\
    miku_object_store_count s = Z.of_nat (size m).
Proof.
  enough (exists s, obj_run ops = Some s /\ ref_objs ops (names (slots s)) /\ obj_ok s) as (s & E & R & O).
  { exists s, (names (slots s)). split_and!; [done..| |].
    - intros n. by apply obj_get_ok.
    - unfold miku_object_store_count. rewrite names_size by apply (proj1 O). apply (proj1 O). }
  induction ops as [|op ops (s & E & R & O)] using rev_ind.
  - exists miku_object_store_create. split_and!; [done|constructor|apply obj_create_ok].
  - destruct (obj_step_ok s op O) as (s' & E' & O' & R'). exists s'. split_and!; [|by eapply ro_snoc|done].
    unfold obj_run in *. rewrite foldl_app. cbn [foldl]. rewrite E. exact E'.
Qed.
