(* ===== verification/Third.v ===== *)
(** * Third-party and object service (services/third/miku_third.c)

    The service owns an object store and answers 20 methods, most of them
    placeholders.  A request names its object under one of four keys; the
    generated upload identifier and the clock are arguments. *)
From S2P Require Import Prelude Hash ProbeIndex Json JsonText Models RpcNames ObjectStore.
#[local] Open Scope string_scope.
#[local] Open Scope list_scope.
#[local] Open Scope Z_scope.

Definition req_object_name (req : option json) : option string :=
  let pick k := let s := jstr req k in if given s then s else None in
  or_null (pick "name") (or_null (pick "key") (or_null (pick "objectName") (pick "filePath"))).

Definition req_owner (req : option json) : string :=
  let s := jstr req "userID" in
  if given s then default "" s else default "" (jstr req "ownerUserID").

Definition g_third_rpc_names : list string :=
  ["getUploadToken"; "getDownloadURL"; "accessURL"; "deleteObject"; "initiateMultipartUpload";
   "completeMultipartUpload"; "getUploadInfo"; "getObjectInfo"; "getSignalInvitationInfo"; "authSign";
   "completeFormData"; "deleteLogs"; "fcmUpdateToken"; "getPrometheus"; "initiateFormData"; "partLimit";
   "partSize"; "searchLogs"; "setAppBadge"; "uploadLogs"].

Definition third_rpc_init : gmap Z Z := rpc_init g_third_rpc_names.
Definition third_rpc_id (method : option string) : Z := rpc_id g_third_rpc_names method.

(** [None]: the store took a slot from an empty free stack (it never does:
    [object_store_refines]). *)
Definition handler : Type :=
  miku_object_store -> string -> Z -> option json -> json -> option (miku_object_store * json).

Definition unsafe_name (name : option string) : bool :=
  match name with Some _ => negb (miku_object_name_is_safe name) | None => false end.

Definition rpc_getUploadToken : handler := fun s _ _ req resp =>
  let name := req_object_name req in
  let resp := miku_ji resp "errCode" 0 in
  if unsafe_name name
  then Some (s, miku_jss (miku_ji resp "errCode" 3003) "errMsg" (Some "object path required"))
  else Some (s, miku_jss resp "token" (Some (if given name then default "" name else "placeholder_upload_token"))).

(** [getDownloadURL] and [accessURL]. *)
Definition rpc_objectURL (method : string) : handler := fun s _ _ req resp =>
  let name := req_object_name req in
  if unsafe_name name then Some (s, miku_ji resp "errCode" 3003)
  else match name with
       | Some n =>
           match miku_object_store_get s name with
           | None => Some (s, miku_jss (miku_ji resp "errCode" 1004) "errMsg" (Some "object not found"))
           | Some _ => Some (s, miku_jss (miku_ji resp "errCode" 0) "url" (Some (strn 319 ("miku-obj://" +:+ n))))
           end
       | None =>
           Some (s, miku_jss (miku_ji resp "errCode" 0) "url"
                  (Some (if starts_with (str "a") (str method)
                         then "https://placeholder.example.com/access"
                         else "https://placeholder.example.com/file")))
       end.

Definition rpc_deleteObject : handler := fun s _ _ req resp =>
  let name := req_object_name req in
  if unsafe_name name then Some (s, miku_ji resp "errCode" 3003)
  else Some (match name with Some _ => (miku_object_store_delete s name).2 | None => s end, miku_ji resp "errCode" 0).

(** The record of a new upload: it expires a day after its creation. *)
Definition upload_meta (name owner upload_id : string) (now : Z) : miku_object_meta :=
  ObjectMeta (strn 255 name) (strn 63 owner) "" upload_id 0 now (i64 (now + 86400000)) 0.

Definition rpc_initiateMultipartUpload : handler := fun s uuid now req resp =>
  let name := req_object_name req in
  let answer s id := Some (s, miku_jss (miku_ji resp "errCode" 0) "uploadID" (Some (strn 39 id))) in
  if unsafe_name name then Some (s, miku_ji resp "errCode" 3003)
  else match name with
       | Some n =>
           '(rc, s') ← miku_object_store_upsert s now (upload_meta n (req_owner req) uuid now);
           answer s' (if rc =? 0 then uuid else "multipart_placeholder")
       | None => answer s "multipart_placeholder"
       end.

Definition completed_meta (sz : Z) (m : miku_object_meta) : miku_object_meta :=
  ObjectMeta (om_name m) (om_owner m) (om_content_type m) (om_upload_id m)
             (if 0 <? sz then sz else om_size m) (om_created_ms m) (om_expire_ms m) 1.

Definition rpc_completeMultipartUpload : handler := fun s _ now req resp =>
  let name := req_object_name req in
  if unsafe_name name then Some (s, miku_ji resp "errCode" 3003)
  else
    s' ← match name with
         | Some _ =>
             match miku_object_store_get s name with
             | Some m => snd <$> miku_object_store_upsert s now (completed_meta (jint req "size") m)
             | None => Some s
             end
         | None => Some s
         end;
    Some (s', miku_ji resp "errCode" 0).

Definition rpc_getObjectInfo : handler := fun s _ _ req resp =>
  let name := req_object_name req in
  if unsafe_name name then Some (s, miku_ji resp "errCode" 3003)
  else match name with
       | Some _ =>
           match miku_object_store_get s name with
           | None => Some (s, miku_jss (miku_ji resp "errCode" 1004) "errMsg" (Some "object not found"))
           | Some m => Some (s, miku_jss (miku_ji (miku_ji resp "errCode" 0) "size" (om_size m)) "name" (Some (om_name m)))
           end
       | None => Some (s, miku_ji (miku_ji resp "errCode" 0) "size" 0)
       end.

(** The requests that answer success and at most one fixed field. *)
Definition rpc_ok : handler := fun s _ _ _ resp => Some (s, miku_ji resp "errCode" 0).
Definition rpc_const_str (k v : string) : handler := fun s _ _ _ resp =>
  Some (s, miku_jss (miku_ji resp "errCode" 0) k (Some v)).
Definition rpc_const_int (k : string) (v : Z) : handler := fun s _ _ _ resp =>
  Some (s, miku_ji (miku_ji resp "errCode" 0) k v).
Definition rpc_searchLogs : handler := fun s _ _ _ resp => Some (s, with_data (miku_ji resp "errCode" 0) []).

Definition miku_third_handle_rpc (method : option string) : handler := fun s uuid now req resp =>
  match method with
  | None => Some (s, resp)
  | Some m =>
      match third_rpc_id method with
      | 0 => rpc_getUploadToken s uuid now req resp
      | 1 | 2 => rpc_objectURL m s uuid now req resp
      | 3 => rpc_deleteObject s uuid now req resp
      | 4 => rpc_initiateMultipartUpload s uuid now req resp
      | 5 => rpc_completeMultipartUpload s uuid now req resp
      | 6 => rpc_const_str "uploadURL" "https://placeholder.example.com/upload" s uuid now req resp
      | 7 => rpc_getObjectInfo s uuid now req resp
      | 8 | 9 | 10 | 11 | 12 | 13 => rpc_ok s uuid now req resp
      | 14 => rpc_const_str "uploadURL" "https://placeholder.example.com/form-data" s uuid now req resp
      | 15 => rpc_const_int "limit" 5 s uuid now req resp
      | 16 => rpc_const_int "size" 4194304 s uuid now req resp
      | 17 => rpc_searchLogs s uuid now req resp
      | 18 | 19 => rpc_ok s uuid now req resp
      | _ => Some (s, miku_ji resp "errCode" 404)
      end
  end.

(** ** Proofs *)

Lemma upsert_other s now x s' rc n :
  obj_ok s -> Z.of_nat (size (names (slots s))) < MK_OBJ_CAP ->
  miku_object_store_upsert s now x = Some (rc, s') -> n <> om_name x ->
  miku_object_store_get s' (Some n) = miku_object_store_get s (Some n).
Proof.
  intros O Hr E Hn. destruct (upsert_step s now x O) as (s2 & E2 & O2 & R). cbn [obj_step] in E2. rewrite E in E2.
  cbn in E2. injection E2 as <-. rewrite !obj_get_ok by done. cbn [ref_obj] in R.
  rewrite (proj2 (Z.ltb_lt _ _) Hr), orb_true_r in R. destruct (miku_object_name_is_safe _); rewrite R; [|done].
  by rewrite lookup_insert_ne.
Qed.

(** A request changes no object but the one it names: whatever
    the method, every other object keeps its metadata, unless the store is
    full and a new upload takes the slot of another object. *)
Lemma third_rpc_frame m s uuid now req resp s' resp' n :
  obj_ok s -> Z.of_nat (size (names (slots s))) < MK_OBJ_CAP ->
  miku_third_handle_rpc m s uuid now req resp = Some (s', resp') ->
  req_object_name req <> Some n ->
  miku_object_store_get s' (Some n) = miku_object_store_get s (Some n).
Proof.
  intros O Hr E Hn. unfold miku_third_handle_rpc in E. destruct m as [m|]; [|by injection E as <- _].
  assert (forall name, req_object_name req = Some name -> unsafe_name (Some name) = false ->
            strn 255 name = name) as Hshort.
  { intros name Hname Hs. apply strn_short. unfold unsafe_name in Hs. apply negb_false_iff, name_safe_iff in Hs. tauto. }
  destruct (third_rpc_id (Some m)) as [|p|p]; [| |by injection E as <- _].
  { unfold rpc_getUploadToken in E. destruct (unsafe_name _); by injection E as <- _. }
  do 5 (try destruct p as [p|p|]); try (by injection E as <- _).
  all: unfold rpc_objectURL, rpc_getObjectInfo, rpc_deleteObject, rpc_initiateMultipartUpload,
         rpc_completeMultipartUpload in E;
       (destruct (unsafe_name (req_object_name req)) eqn:U; [by injection E as <- _|]);
       destruct (req_object_name req) as [name|] eqn:Ename; try (by injection E as <- _).
  - destruct (miku_object_store_get s (Some name)); by injection E as <- _.
  - apply bind_Some in E as (s1 & E1 & E2). injection E2 as <- _.
    destruct (miku_object_store_get s (Some name)) as [x|] eqn:Ex; [|by injection E1 as <-].
    apply fmap_Some in E1 as ([rc s2] & E3 & ->). eapply upsert_other; [done|done|exact E3|].
    cbn. rewrite obj_get_ok in Ex by done. apply names_spec in Ex as (v & _ & <-); [congruence|apply (proj1 O)].
  - injection E as <- _. destruct (delete_step s (Some name) O) as [O2 R]. cbn [ref_obj] in R.
    etrans; [exact (obj_get_ok _ n O2)|]. etrans; [exact (f_equal (.!! n) R)|]. rewrite (obj_get_ok s n O).
    apply lookup_delete_ne. congruence.
  - apply bind_Some in E as ([rc s1] & E1 & E2). injection E2 as <- _. eapply upsert_other; [done|done|exact E1|].
    cbn. rewrite Hshort by done. congruence.
  - destruct (miku_object_store_get s (Some name)); by injection E as <- _.
  - destruct (miku_object_store_get s (Some name)); by injection E as <- _.
Qed.
