(* ===== verification/ImMessage.v ===== *)
(** * Gateway messages (gateway/msggateway/miku_im_message.c)

    The message, acknowledgement and greeting records of the message gateway
    and their JSON forms.  [im_json_roundtrip] says which fields survive the
    JSON form: the times are printed through [int], so that a millisecond
    timestamp comes back modulo 2^32. *)
From S2P Require Import Prelude Json JsonText Models.
#[local] Open Scope string_scope.
#[local] Open Scope list_scope.
#[local] Open Scope Z_scope.

#[local] Notation "x |> f" := (f x) (at level 50, left associativity, only parsing).

Definition MK_IM_MSG_TYPE_TEXT : Z := 101.
Definition MK_IM_MSG_TYPE_READ : Z := 302.
Definition MK_IM_CONV_SINGLE : Z := 1.
Definition MK_IM_CONV_GROUP : Z := 2.

Record miku_im_msg := ImMsg {
  im_msg_id : string; im_client_msg_id : string; im_send_id : string; im_recv_id : string; im_group_id : string;
  im_conversation_id : string; im_content_type : Z; im_conversation_type : Z; im_seq : Z; im_send_time : Z;
  im_create_time : Z; im_sender_platform : Z; im_content : string; im_sender_nickname : string;
  im_sender_face_url : string; im_is_read : Z; im_status : Z }.

Definition miku_im_msg_init : miku_im_msg := ImMsg "" "" "" "" "" "" 0 0 0 0 0 0 "" "" "" 0 0.

(** [v = miku_json_str(miku_json_get(j, key)); if (v) strncpy(field, v, n)]
    into a cleared field. *)
Definition im_str (j : json) (key : string) (n : nat) : string := json_str j key n.

Definition im_conv_type (j : json) : Z :=
  let iv := json_int j "conversationType" in
  if iv =? 0 then let st := json_int j "sessionType" in if st =? 3 then MK_IM_CONV_GROUP else st else iv.

Definition miku_im_msg_from_json (j : option json) : option miku_im_msg :=
  match j with
  | None => None
  | Some j => Some
      {| im_msg_id := im_str j "msgID" 63;
         im_client_msg_id := im_str j "clientMsgID" 63;
         im_send_id := im_str j "sendID" 63;
         im_recv_id := im_str j "recvID" 63;
         im_group_id := im_str j "groupID" 63;
         im_conversation_id := im_str j "conversationID" 127;
         im_content_type := i32 (json_int j "contentType");
         im_conversation_type := i32 (im_conv_type j);
         im_seq := json_int j "seq";
         im_send_time := json_int j "sendTime";
         im_create_time := 0;
         im_sender_platform := i32 (json_int j "senderPlatformID");
         im_content := im_str j "content" 4095;
         im_sender_nickname := im_str j "senderNickname" 63;
         im_sender_face_url := im_str j "senderFaceURL" 255;
         im_is_read := 0;
         im_status := 0 |}
  end.

Definition miku_im_msg_to_json (msg : option miku_im_msg) : option json :=
  match msg with
  | None => None
  | Some m =>
      let j := miku_json_create_object
        |> set_str "msgID" (im_msg_id m)
        |> set_str "clientMsgID" (im_client_msg_id m)
        |> set_str "sendID" (im_send_id m)
        |> set_str "recvID" (im_recv_id m)
        |> set_str "groupID" (im_group_id m)
        |> set_str "conversationID" (im_conversation_id m)
        |> set_int "contentType" (im_content_type m)
        |> set_int "conversationType" (im_conversation_type m)
        |> set_int "seq" (i32 (im_seq m))
        |> set_int "sendTime" (i32 (im_send_time m))
        |> set_int "createTime" (i32 (im_create_time m))
        |> set_int "senderPlatformID" (im_sender_platform m)
        |> set_str "content" (im_content m)
        |> set_str "senderNickname" (im_sender_nickname m)
        |> set_str "senderFaceURL" (im_sender_face_url m)
        |> set_int "isRead" (im_is_read m)
        |> set_int "status" (im_status m) in
      Some (if (im_content_type m =? MK_IM_MSG_TYPE_READ) && (0 <? im_seq m)
            then set_int "hasReadSeq" (im_seq m) j else j)
  end.

Definition miku_im_msg_validate (msg : option miku_im_msg) : Z :=
  match msg with
  | None => -1
  | Some m =>
      if negb (nonempty (im_send_id m)) then -1
      else if im_content_type m <=? 0 then -1
      else if negb (nonempty (im_content m)) then -1
      else if (im_conversation_type m =? MK_IM_CONV_SINGLE) && negb (nonempty (im_recv_id m)) then -1
      else if (im_conversation_type m =? MK_IM_CONV_GROUP) && negb (nonempty (im_group_id m)) then -1
      else 0
  end.

Definition im_with_ids (m : miku_im_msg) (msg_id client_msg_id : string) (send_time create_time : Z) : miku_im_msg :=
  ImMsg msg_id client_msg_id (im_send_id m) (im_recv_id m) (im_group_id m) (im_conversation_id m)
        (im_content_type m) (im_conversation_type m) (im_seq m) send_time create_time (im_sender_platform m)
        (im_content m) (im_sender_nickname m) (im_sender_face_url m) (im_is_read m) (im_status m).

(** The two identifiers drawn and the clock are arguments. *)
Definition miku_im_msg_generate_id (m : miku_im_msg) (uuid1 uuid2 : string) (now : Z) : miku_im_msg :=
  let st := if im_send_time m =? 0 then now else im_send_time m in
  im_with_ids m (if nonempty (im_msg_id m) then im_msg_id m else uuid1)
    (if nonempty (im_client_msg_id m) then im_client_msg_id m else uuid2)
    st (if im_create_time m =? 0 then st else im_create_time m).

Record miku_im_ack := ImAck { ack_type : Z; ack_user_id : string; ack_conversation_id : string; ack_seq : Z }.

Definition miku_im_ack_from_json (j : option json) : option miku_im_ack :=
  match j with
  | None => None
  | Some j => Some (ImAck (i32 (json_int j "type")) (im_str j "userID" 63) (im_str j "conversationID" 127)
                          (json_int j "seq"))
  end.

Definition miku_im_ack_to_json (ack : option miku_im_ack) : option json :=
  match ack with
  | None => None
  | Some a => Some (miku_json_create_object
      |> set_int "type" (ack_type a)
      |> set_str "userID" (ack_user_id a)
      |> set_str "conversationID" (ack_conversation_id a)
      |> set_int "seq" (i32 (ack_seq a)))
  end.

Record miku_im_ws_hello := ImHello { hello_type : Z; hello_user_id : string; hello_server_time : Z }.

Definition miku_im_ws_hello_from_json (j : option json) : option miku_im_ws_hello :=
  match j with
  | None => None
  | Some j => Some (ImHello (i32 (json_int j "type")) (im_str j "userID" 63) (json_int j "serverTime"))
  end.

(** ** Proofs *)

Record im_fits (m : miku_im_msg) : Prop := {
  if_id : fits 63 (im_msg_id m); if_cid : fits 63 (im_client_msg_id m); if_send : fits 63 (im_send_id m);
  if_recv : fits 63 (im_recv_id m); if_group : fits 63 (im_group_id m); if_conv : fits 127 (im_conversation_id m);
  if_content : fits 4095 (im_content m); if_nick : fits 63 (im_sender_nickname m);
  if_face : fits 255 (im_sender_face_url m); if_type : int32 (im_content_type m);
  if_ctype : int32 (im_conversation_type m); if_platform : int32 (im_sender_platform m) }.

(** The conversation type, which falls back to the absent session type. *)
Ltac im_type H :=
  rewrite (json_int_put _ _ "conversationType" _ H) by look;
  match goal with |- context [?x =? 0] => destruct (Z.eqb_spec x 0) as [->|] end;
  [rewrite (json_int_none _ _ "sessionType" H) by look; done|by apply i32_small].

(** What of a gateway message survives its JSON form: every text field and
    the type fields; the sequence number and the send time only modulo 2^32
    (they are printed through [int]); the creation time, the read flag and the
    status are not read back. *)
Theorem im_json_roundtrip m : im_fits m ->
  exists j, miku_im_msg_to_json (Some m) = Some j /\
    miku_im_msg_from_json (Some j) =
    Some (ImMsg (im_msg_id m) (im_client_msg_id m) (im_send_id m) (im_recv_id m) (im_group_id m)
                (im_conversation_id m) (im_content_type m) (im_conversation_type m)
                (i32 (im_seq m)) (i32 (im_send_time m)) 0 (im_sender_platform m) (im_content m)
                (im_sender_nickname m) (im_sender_face_url m) 0 0).
Proof.
  intros [? ? ? ? ? ? ? ? ? ? ? ?]. destruct m as [a b c d e f g h i j k l m n o p q]. cbn in * |-.
  unfold miku_im_msg_to_json. destruct (_ && _); (eexists; split; [reflexivity|]).
  - match goal with |- miku_im_msg_from_json (Some ?w) = _ => set (v := w) end.
    eassert (obj_upto 18 v _) as [H _]. { unfold v. build_obj. }
    unfold miku_im_msg_from_json, im_str, im_conv_type. f_equal. f_equal; try field H. im_type H.
  - match goal with |- miku_im_msg_from_json (Some ?w) = _ => set (v := w) end.
    eassert (obj_upto 17 v _) as [H _]. { unfold v. build_obj. }
    unfold miku_im_msg_from_json, im_str, im_conv_type. f_equal. f_equal; try field H. im_type H.
Qed.

Definition ex_im : miku_im_msg :=
  ImMsg "m1" "c1" "alice" "bob" "" "si_5_alice_bob" 101 1 7 1700000000000 0 2 "hi" "Al" "" 0 0.

Lemma im_json_roundtrip_witness :
  exists j, miku_im_msg_to_json (Some ex_im) = Some j /\
    (im_send_time <$> miku_im_msg_from_json (Some j)) = Some (-807049216) /\
    (im_content <$> miku_im_msg_from_json (Some j)) = Some "hi".
Proof.
  destruct (im_json_roundtrip ex_im) as (j & E & R).
  - split; unfold fits, int32; cbn; lia.
  - exists j. split; [exact E|]. rewrite R. split; vm_compute; reflexivity.
Defined.
