(* ===== verification/MsgStore.v ===== *)
(** * Message store (storage/miku_msg_store.c)

    Messages live in 8192 slots: a stack of free slots, a hash table from
    message ids to slots, and one chain of slots per conversation behind a
    table of chain heads.  When no slot is free an insert takes the slot at a
    rotating cursor.  The rwlock makes every public operation atomic, so an
    operation is one function on the state.

    This is the build with the ring in memory (MIKU_HAS_MSG_STORE_MEM_RING), which
    the build files select.  A slot that was never used is the zeroed record; [mem] keeps the others,
    freed ones included.  The message id drawn by [miku_uuid_generate] and the
    clock are arguments.  With a database ([enabled]) an operation ends in one
    request to it, which is the answer here ([AskDb]); [Some]/[None] of an
    insert or a listing is defined/undefined behaviour of the buffers. *)
From Stdlib Require Import Ascii String.
From S2P Require Import Prelude Hash ProbeIndex ProbeRemove ChainIndex SlotChains KeyedMap Json JsonText JsonEscape.
#[local] Open Scope Z_scope.

Definition MK_MSG_MEM_CAP : Z := 8192.
Definition MK_MSG_ID_HASH : Z := 16384.
Definition MK_MSG_CONV_HASH : Z := 16384.

Record mem_msg := MemMsg {
  mm_msg_id : string; mm_conversation_id : string; mm_sender_id : string; mm_content : string;
  mm_content_type : Z; mm_send_time : Z; mm_seq : Z; mm_status : Z; mm_used : bool }.

Definition zero_msg : mem_msg := MemMsg "" "" "" "" 0 0 0 0 false.

(** The overwritten slot and the number of overwrites, for the callback. *)
Record overwrite_notice := Notice { on_slot : Z; on_total : Z }.

(** [free_stack] is the used part of the array, its top first. *)
Record msg_store := Store {
  ms_mem : gmap Z mem_msg; ms_mem_count : Z; ms_free_stack : list Z;
  ms_id_hash : gmap Z Z; ms_conv_hash : gmap Z Z; ms_conv_next : gmap Z Z;
  ms_evict_cursor : Z; ms_overwrite_cb : bool; ms_overwrite_count : Z; ms_enabled : bool }.

Definition miku_msg_store_create (mongo : bool) : msg_store :=
  Store ∅ 0 (seqZ 0 MK_MSG_MEM_CAP) ∅ ∅ ∅ 0 false 0 mongo.

Definition miku_msg_store_set_overwrite_cb (s : msg_store) (cb : bool) : msg_store :=
  Store (ms_mem s) (ms_mem_count s) (ms_free_stack s) (ms_id_hash s) (ms_conv_hash s) (ms_conv_next s)
        (ms_evict_cursor s) cb (ms_overwrite_count s) (ms_enabled s).

Definition mem_at (mem : gmap Z mem_msg) (slot : Z) : mem_msg := default zero_msg (mem !! slot).

Definition set_conv (s : msg_store) (hn : gmap Z Z * gmap Z Z) : msg_store :=
  Store (ms_mem s) (ms_mem_count s) (ms_free_stack s) (ms_id_hash s) hn.1 hn.2
        (ms_evict_cursor s) (ms_overwrite_cb s) (ms_overwrite_count s) (ms_enabled s).

Definition set_id_hash (s : msg_store) (t : gmap Z Z) : msg_store :=
  Store (ms_mem s) (ms_mem_count s) (ms_free_stack s) t (ms_conv_hash s) (ms_conv_next s)
        (ms_evict_cursor s) (ms_overwrite_cb s) (ms_overwrite_count s) (ms_enabled s).

(** [mem[slot] = m], with the count and the stack that go with it. *)
Definition set_mem (s : msg_store) (slot : Z) (m : mem_msg) (n : Z) (free : list Z) : msg_store :=
  Store (<[slot:=m]> (ms_mem s)) n free (ms_id_hash s) (ms_conv_hash s) (ms_conv_next s)
        (ms_evict_cursor s) (ms_overwrite_cb s) (ms_overwrite_count s) (ms_enabled s).

Definition id_bucket (msg_id : string) : Z := mask_slot MK_MSG_ID_HASH (fnv1a_64 msg_id).
Definition conv_bucket (cid : string) : Z := mask_slot MK_MSG_CONV_HASH (fnv1a_64 cid).

(** ** Conversation chains *)

Definition conv_test (mem : gmap Z mem_msg) (cid : string) (slot : Z) : bool :=
  mm_used (mem_at mem slot) && streq (mm_conversation_id (mem_at mem slot)) cid.

Definition conv_home (mem : gmap Z mem_msg) (slot : Z) : Z := conv_bucket (mm_conversation_id (mem_at mem slot)).

Definition conv_link (s : msg_store) (slot : Z) : msg_store :=
  let cid := mm_conversation_id (mem_at (ms_mem s) slot) in
  set_conv s (chain_link MK_MSG_CONV_HASH (ms_conv_hash s) (ms_conv_next s) (conv_test (ms_mem s) cid) (conv_bucket cid) slot).

Definition conv_unlink (s : msg_store) (slot : Z) : msg_store :=
  if (slot <? 0) || (MK_MSG_MEM_CAP <=? slot) || negb (mm_used (mem_at (ms_mem s) slot)) then s
  else
    let cid := mm_conversation_id (mem_at (ms_mem s) slot) in
    if negb (nonempty cid) then set_conv s (ms_conv_hash s, <[slot:=-1]> (ms_conv_next s))
    else set_conv s (chain_unlink MK_MSG_CONV_HASH (fun v => mm_used (mem_at (ms_mem s) v)) (conv_home (ms_mem s))
           (Z.to_nat MK_MSG_MEM_CAP) (ms_conv_hash s) (ms_conv_next s) (conv_test (ms_mem s) cid) (conv_bucket cid) slot).

Definition rebuild_conv_chains (s : msg_store) : msg_store :=
  for_range MK_MSG_MEM_CAP (fun s slot => if mm_used (mem_at (ms_mem s) slot) then conv_link s slot else s)
    (set_conv s (∅, ∅)).

Definition conv_head (s : msg_store) (cid : string) : Z :=
  scan_find MK_MSG_CONV_HASH (ms_conv_hash s) (conv_test (ms_mem s) cid) (conv_bucket cid).

(** ** Message ids *)

Definition id_test (mem : gmap Z mem_msg) (msg_id : string) (slot : Z) : bool :=
  mm_used (mem_at mem slot) && streq (mm_msg_id (mem_at mem slot)) msg_id.

Definition id_hash_put (mem : gmap Z mem_msg) (t : gmap Z Z) (msg_id : string) (slot : Z) : gmap Z Z :=
  match scan MK_MSG_ID_HASH t (id_test mem msg_id) (id_bucket msg_id) with
  | Vacant p | Found p _ => <[p:=slot]> t
  | Exhausted => t
  end.

(** The rest of the cluster is taken out and put again. *)
Fixpoint id_rehash (fuel : nat) (mem : gmap Z mem_msg) (t : gmap Z Z) (j : Z) : gmap Z Z :=
  match fuel with
  | O => t
  | S fuel' =>
      let slot := t.[j] in
      if slot <? 0 then t
      else id_rehash fuel' mem (id_hash_put mem (delete j t) (mm_msg_id (mem_at mem slot)) slot)
                     (next_slot MK_MSG_ID_HASH j)
  end.

Definition id_hash_del (mem : gmap Z mem_msg) (t : gmap Z Z) (msg_id : string) : gmap Z Z :=
  match scan MK_MSG_ID_HASH t (id_test mem msg_id) (id_bucket msg_id) with
  | Found p _ => id_rehash (Z.to_nat MK_MSG_ID_HASH) mem (delete p t) (next_slot MK_MSG_ID_HASH p)
  | _ => t
  end.

(** The slot of a message, -1 for NULL. *)
Definition mem_find (s : msg_store) (msg_id : string) : Z :=
  scan_find MK_MSG_ID_HASH (ms_id_hash s) (id_test (ms_mem s) msg_id) (id_bucket msg_id).

(** ** Slots *)

Definition clear_used (m : mem_msg) : mem_msg :=
  MemMsg (mm_msg_id m) (mm_conversation_id m) (mm_sender_id m) (mm_content m)
         (mm_content_type m) (mm_send_time m) (mm_seq m) (mm_status m) false.

Definition mem_free_slot_raw (s : msg_store) (slot : Z) : msg_store :=
  let m := mem_at (ms_mem s) slot in
  if (slot <? 0) || (MK_MSG_MEM_CAP <=? slot) || negb (mm_used m) then s
  else
    let t := id_hash_del (ms_mem s) (ms_id_hash s) (mm_msg_id m) in
    let n := ms_mem_count s - 1 in
    set_mem (set_id_hash s t) slot (clear_used m) (if n <? 0 then 0 else n)
      (if Z.of_nat (length (ms_free_stack s)) <? MK_MSG_MEM_CAP then slot :: ms_free_stack s else ms_free_stack s).

Definition mem_free_slot (s : msg_store) (slot : Z) : msg_store :=
  if (slot <? 0) || (MK_MSG_MEM_CAP <=? slot) || negb (mm_used (mem_at (ms_mem s) slot)) then s
  else mem_free_slot_raw (conv_unlink s slot) slot.

(** The eviction: the slot at the cursor is freed, the cursor moves on. *)
Definition evict_slot (s : msg_store) : msg_store * option overwrite_notice :=
  let slot := ms_evict_cursor s in
  let s1 := mem_free_slot (Store (ms_mem s) (ms_mem_count s) (ms_free_stack s) (ms_id_hash s) (ms_conv_hash s)
              (ms_conv_next s) ((slot + 1) mod MK_MSG_MEM_CAP) (ms_overwrite_cb s) (ms_overwrite_count s) (ms_enabled s)) slot in
  if ms_overwrite_cb s1 then
    let c := i64 (ms_overwrite_count s1 + 1) in
    (Store (ms_mem s1) (ms_mem_count s1) (ms_free_stack s1) (ms_id_hash s1) (ms_conv_hash s1) (ms_conv_next s1)
       (ms_evict_cursor s1) (ms_overwrite_cb s1) c (ms_enabled s1), Some (Notice slot (i32 c)))
  else (s1, None).

(** None: [free_stack[-1]]. *)
Definition mem_alloc_slot (s : msg_store) : option (Z * msg_store * option overwrite_notice) :=
  let '(s1, notice) := match ms_free_stack s with [] => evict_slot s | _ => (s, None) end in
  match ms_free_stack s1 with
  | [] => None
  | slot :: free =>
      Some (slot, set_mem s1 slot (MemMsg "" "" "" "" 0 0 0 0 true) (ms_mem_count s1 + 1) free, notice)
  end.

(** ** JSON and database requests *)

(** The document of a message; [cap] is the size of the content's buffer. *)
Definition msg_fields (m : mem_msg) (cap : Z) : list (string * text) :=
  [("msgID", esc_field (mm_msg_id m) 128); ("conversationID", esc_field (mm_conversation_id m) 256);
   ("sendID", esc_field (mm_sender_id m) 128); ("contentType", fmt_lld (mm_content_type m));
   ("content", esc_field (mm_content m) cap); ("sendTime", fmt_lld (mm_send_time m));
   ("seq", fmt_lld (mm_seq m)); ("status", fmt_lld (mm_status m))]%string.

Definition msg_text (m : mem_msg) (cap : Z) : text := raw_object (msg_fields m cap).

Inductive db_request :=
  | DbInsert (doc : text)
  | DbFindOne (filter : text)
  | DbUpdate (filter update : text)
  | DbDelete (filter : text).

(** A return code, a code with a result, or the result of a request. *)
Inductive answer := Rc (rc : Z) | Json (rc : Z) (result : text) | AskDb (r : db_request).

Definition id_filter (msg_id : string) : text := raw_object [("msgID"%string, esc_field msg_id 256)].

(** ** Operations *)

Definition fill_msg (msg_id cid sid content : string) (content_type send_time seq now : Z) : mem_msg :=
  MemMsg (strn 63 msg_id) (strn 127 cid) (strn 63 sid) (strn 1023 content) content_type
         (if 0 <? send_time then send_time else now) seq 1 true.

Definition insert_doc (msg_id cid sid content : string) (content_type send_time seq : Z) : text :=
  msg_text (MemMsg msg_id cid sid content content_type send_time seq 1 true) 2048.

Definition miku_msg_store_insert (s : msg_store) (cid sid : option string) (content_type : Z) (content : option string)
    (send_time seq : Z) (msg_id : string) (now : Z) : option (answer * option overwrite_notice * msg_store) :=
  match cid, sid, content with
  | Some cid, Some sid, Some content =>
      '(slot, s1, notice) ← mem_alloc_slot s;
      let m := fill_msg msg_id cid sid content content_type send_time seq now in
      let s2 := set_mem s1 slot m (ms_mem_count s1) (ms_free_stack s1) in
      let s3 := set_id_hash s2 (id_hash_put (ms_mem s2) (ms_id_hash s2) (mm_msg_id m) slot) in
      let s4 := conv_link s3 slot in
      if negb (ms_enabled s) then Some (Rc 0, notice, s4)
      else let doc := insert_doc msg_id cid sid content content_type send_time seq in
           if 4096 <=? (snprintf 4096 doc).2 then Some (Rc (-1), notice, s4)
           else Some (AskDb (DbInsert doc), notice, s4)
  | _, _, _ => Some (Rc (-1), None, s)
  end.

(** One message of a listing: the buffer, its capacity, and whether it is the
    first.  None: a copy past the end of the item or of the buffer. *)
Definition list_item (mem : gmap Z mem_msg) (start_seq end_seq : Z) (acc : option (text * Z * bool)) (slot : Z)
    : option (text * Z * bool) :=
  '(buf, cap, first) ← acc;
  let m := mem_at mem slot in
  if negb (mm_used m) || (mm_seq m <? start_seq) || ((0 <? end_seq) && (end_seq <? mm_seq m)) then acc
  else
    let '(item, n) := snprintf 2048 ((if (first : bool) then [] else [","%char]) ++ msg_text m 1100) in
    if 2048 <? n then None
    else
      let cap := if cap <? tlen buf + n + 2 then cap * 2 else cap in
      if cap <? tlen buf + n then None
      else Some (buf ++ take (Z.to_nat n) (item ++ [NUL]), cap, false).

Definition miku_msg_store_find_by_conv (s : msg_store) (cid : option string) (start_seq end_seq : Z) : option answer :=
  match cid with
  | None => Some (Rc (-1))
  | Some cid =>
      if ms_enabled s then
        Some (AskDb (DbFindOne (take 511 (raw_object [("conversationID"%string, esc_field cid 256);
          ("seq"%string, raw_object [("$gte"%string, fmt_lld start_seq); ("$lte"%string, fmt_lld end_seq)])]))))
      else
        '(buf, cap, _) ← foldl (list_item (ms_mem s) start_seq end_seq) (Some (["["%char], 4096, true))
                           (chain_walk (S (Z.to_nat MK_MSG_MEM_CAP)) (ms_conv_next s) (conv_head s cid));
        if cap <? tlen buf + 2 then None else Some (Json 0 (buf ++ ["]"%char]))
  end.

Definition miku_msg_store_find_one (s : msg_store) (msg_id : option string) : answer :=
  match msg_id with
  | None => Rc (-1)
  | Some id =>
      if ms_enabled s then AskDb (DbFindOne (take 287 (id_filter id)))
      else
        let slot := mem_find s id in
        if slot <? 0 then Json 0 (str "{}")
        else Json 0 (snprintf 4096 (msg_text (mem_at (ms_mem s) slot) 2048)).1
  end.

Definition set_status (status : Z) (m : mem_msg) : mem_msg :=
  MemMsg (mm_msg_id m) (mm_conversation_id m) (mm_sender_id m) (mm_content m)
         (mm_content_type m) (mm_send_time m) (mm_seq m) status (mm_used m).

Definition miku_msg_store_update_status (s : msg_store) (msg_id : option string) (status : Z) : answer * msg_store :=
  match msg_id with
  | None => (Rc (-1), s)
  | Some id =>
      let slot := mem_find s id in
      let s1 := if slot <? 0 then s
                else set_mem s slot (set_status status (mem_at (ms_mem s) slot)) (ms_mem_count s) (ms_free_stack s) in
      (if negb (ms_enabled s) then Rc 0
       else AskDb (DbUpdate (take 287 (id_filter id))
              (take 127 (raw_object [("$set"%string, raw_object [("status"%string, fmt_lld status)])]))), s1)
  end.

Definition miku_msg_store_delete (s : msg_store) (msg_id : option string) : answer * msg_store :=
  match msg_id with
  | None => (Rc (-1), s)
  | Some id =>
      let slot := mem_find s id in
      let s1 := if slot <? 0 then s else mem_free_slot s slot in
      (if negb (ms_enabled s) then Rc 0 else AskDb (DbDelete (take 287 (id_filter id))), s1)
  end.

(** [for (i = 0; i < mem_cap; i++) if (mem[i].used && ...) { free; removed++ }]. *)
Definition remove_where (p : mem_msg -> bool) (s : msg_store) : Z * msg_store :=
  let '(removed, s1) := for_range MK_MSG_MEM_CAP (fun (acc : Z * msg_store) i =>
      let m := mem_at (ms_mem acc.2) i in
      if mm_used m && p m then (acc.1 + 1, mem_free_slot_raw acc.2 i) else acc) (0, s) in
  (removed, if removed =? 0 then s1 else rebuild_conv_chains s1).

Definition miku_msg_store_purge_older_than (s : msg_store) (cutoff_ms : Z) : answer * msg_store :=
  let '(n, s1) := remove_where (fun m => mm_send_time m <? cutoff_ms) s in (Rc n, s1).

Definition miku_msg_store_clear_user (s : msg_store) (user_id : option string) : answer * msg_store :=
  match user_id with
  | None => (Rc (-1), s)
  | Some u => let '(n, s1) := remove_where (fun m => streq (mm_sender_id m) u) s in (Rc n, s1)
  end.

Definition miku_msg_store_count (s : msg_store) : Z := ms_mem_count s.
