(* ===== verification/MsgStoreInv.v ===== *)
(** * Invariant of the message store

    [base_ok]: the free stack and the used slots together are all the slots,
    the count is the number of used slots, message ids are distinct and the id
    table indexes exactly the used slots.  [conv_ok]: every conversation's
    chain holds exactly its used slots.  The lemmas say what each operation
    does to both. *)
From S2P Require Import Prelude Hash ProbeIndex ProbeRemove ChainIndex SlotChains KeyedMap Json JsonText JsonEscape MsgStore.
#[local] Open Scope Z_scope.

Definition CAPN : nat := Z.to_nat MK_MSG_MEM_CAP.

(** A field of the messages in use, by slot. *)
Definition used_by {A} (f : mem_msg -> A) (mem : gmap Z mem_msg) : gmap Z A :=
  omap (fun m => if mm_used m then Some (f m) else None) mem.

Definition ids (s : msg_store) : gmap Z string := used_by mm_msg_id (ms_mem s).
Definition convs (s : msg_store) : gmap Z string := used_by mm_conversation_id (ms_mem s).

Record base_ok (s : msg_store) : Prop := {
  bo_slots : ms_free_stack s ++ (map_to_list (ids s)).*1 ≡ₚ seqZ 0 MK_MSG_MEM_CAP;
  bo_count : ms_mem_count s = Z.of_nat (size (ids s));
  bo_distinct : forall i j x, ids s !! i = Some x -> ids s !! j = Some x -> i = j;
  bo_index : indexed MK_MSG_ID_HASH (ms_id_hash s) (shome id_bucket (ids s)) (fun v => is_Some (ids s !! v));
  bo_named : forall i c, convs s !! i = Some c -> nonempty c = true;
  bo_cursor : 0 <= ms_evict_cursor s < MK_MSG_MEM_CAP }.

Definition conv_chains (s : msg_store) (ch : string -> list Z) : Prop :=
  chains (sz:=MK_MSG_CONV_HASH) conv_bucket CAPN (ms_conv_hash s) (ms_conv_next s) (convs s) ch.

Definition conv_ok (s : msg_store) : Prop := exists ch, conv_chains s ch.

#[export] Instance msg_id_hash_pow2 : Pow2 MK_MSG_ID_HASH.
Proof. by exists 14. Qed.
#[export] Instance msg_conv_hash_pow2 : Pow2 MK_MSG_CONV_HASH.
Proof. by exists 14. Qed.

Lemma id_bucket_bound x : 0 <= id_bucket x < MK_MSG_ID_HASH.
Proof. by apply (mask_slot_bound 14). Qed.

Lemma conv_bucket_bound x : 0 <= conv_bucket x < MK_MSG_CONV_HASH.
Proof. by apply (mask_slot_bound 14). Qed.

Lemma cap_lt_conv : Z.of_nat CAPN < MK_MSG_CONV_HASH.
Proof. done. Qed.

(** ** Fields of the used slots *)

Lemma used_by_Some {A} (f : mem_msg -> A) mem i x :
  used_by f mem !! i = Some x <-> mm_used (mem_at mem i) = true /\ f (mem_at mem i) = x.
Proof.
  unfold used_by, mem_at. rewrite lookup_omap_Some. split.
  - intros (m & Hm & ->). cbn. case_match; naive_solver.
  - destruct (mem !! i) as [m|]; cbn; [|by intros []]. intros [Hu <-]. exists m. by rewrite Hu.
Qed.

Lemma used_by_is_Some {A} (f : mem_msg -> A) mem i : is_Some (used_by f mem !! i) <-> mm_used (mem_at mem i) = true.
Proof.
  split; [intros [x Hx]; by apply used_by_Some in Hx as [? _]|].
  intros Hu. exists (f (mem_at mem i)). by apply used_by_Some.
Qed.

Lemma used_by_None {A} (f : mem_msg -> A) mem i : used_by f mem !! i = None <-> mm_used (mem_at mem i) = false.
Proof.
  rewrite <- not_true_iff_false. rewrite <- (used_by_is_Some f). by rewrite eq_None_not_Some.
Qed.

Lemma used_by_taken {A} (f : mem_msg -> A) mem i m :
  mm_used m = true -> used_by f (<[i:=m]> mem) = <[i:=f m]> (used_by f mem).
Proof. intros Hu. unfold used_by. erewrite omap_insert_Some; [done|]. by rewrite Hu. Qed.

Lemma used_by_freed {A} (f : mem_msg -> A) mem i m :
  mm_used m = false -> used_by f (<[i:=m]> mem) = delete i (used_by f mem).
Proof. intros Hu. unfold used_by. erewrite omap_insert_None; [done|]. by rewrite Hu. Qed.

Lemma mem_at_insert mem i m : mem_at (<[i:=m]> mem) i = m.
Proof. unfold mem_at. by rewrite lookup_insert_eq. Qed.

Lemma mem_at_insert_ne mem i j m : i <> j -> mem_at (<[i:=m]> mem) j = mem_at mem j.
Proof. intros. unfold mem_at. by rewrite lookup_insert_ne. Qed.

(** The tests of the lookup loops, in terms of those fields. *)
Lemma conv_test_smatch mem c v : conv_test mem c v = smatch (used_by mm_conversation_id mem) c v.
Proof.
  unfold conv_test, smatch. apply eq_true_iff_eq. rewrite bool_decide_eq_true, used_by_Some, andb_true_iff, streq_eq. done.
Qed.

Lemma id_test_smatch mem x v : id_test mem x v = smatch (used_by mm_msg_id mem) x v.
Proof.
  unfold id_test, smatch. apply eq_true_iff_eq. rewrite bool_decide_eq_true, used_by_Some, andb_true_iff, streq_eq. done.
Qed.

Lemma used_home {hash : string -> Z} (f : mem_msg -> string) mem v :
  is_Some (used_by f mem !! v) -> hash (f (mem_at mem v)) = shome hash (used_by f mem) v.
Proof. intros [x Hx]. unfold shome. rewrite Hx. by apply used_by_Some in Hx as [_ ->]. Qed.

(** ** Slots *)

Lemma slots_bound s i : base_ok s -> mm_used (mem_at (ms_mem s) i) = true -> 0 <= i < MK_MSG_MEM_CAP.
Proof.
  intros B Hu. apply (used_by_is_Some mm_msg_id) in Hu as [x Hx].
  assert (i ∈ seqZ 0 MK_MSG_MEM_CAP) as Hi; [|apply elem_of_seqZ in Hi; lia].
  rewrite <- (bo_slots _ B). apply elem_of_app. right. apply list_elem_of_fmap. exists (i, x).
  split; [done|]. by apply elem_of_map_to_list.
Qed.

Lemma slots_free s i : base_ok s -> i ∈ ms_free_stack s -> ids s !! i = None /\ 0 <= i < MK_MSG_MEM_CAP.
Proof.
  intros B Hi. pose proof (NoDup_seqZ 0 MK_MSG_MEM_CAP) as Hnd. rewrite <- (bo_slots _ B) in Hnd.
  apply list.NoDup_app in Hnd as (_ & Hd & _). split.
  - apply eq_None_not_Some. intros [x Hx]. apply (Hd i Hi), list_elem_of_fmap. exists (i, x).
    split; [done|]. by apply elem_of_map_to_list.
  - assert (i ∈ seqZ 0 MK_MSG_MEM_CAP) as Hs; [|apply elem_of_seqZ in Hs; lia].
    rewrite <- (bo_slots _ B). apply elem_of_app. by left.
Qed.

Lemma slots_length s : base_ok s -> Z.of_nat (length (ms_free_stack s)) + Z.of_nat (size (ids s)) = MK_MSG_MEM_CAP.
Proof.
  intros B. pose proof (Permutation_length (bo_slots _ B)) as L.
  rewrite length_app, length_fmap, length_map_to_list, length_seqZ in L. unfold MK_MSG_MEM_CAP in *. lia.
Qed.

Lemma slots_full s i : base_ok s -> ms_free_stack s = [] -> 0 <= i < MK_MSG_MEM_CAP -> is_Some (ids s !! i).
Proof.
  intros B Hf Hi. assert (i ∈ seqZ 0 MK_MSG_MEM_CAP) as Hin by (apply elem_of_seqZ; lia).
  rewrite <- (bo_slots _ B), Hf in Hin. cbn in Hin. apply list_elem_of_fmap in Hin as ([j x] & -> & Hj).
  apply elem_of_map_to_list in Hj. by exists x.
Qed.

Lemma ids_size s : base_ok s -> Z.of_nat (size (ms_id_hash s)) < MK_MSG_ID_HASH.
Proof.
  intros B. assert (size (ms_id_hash s) <= CAPN)%nat; [|pose proof cap_lt_conv; change MK_MSG_ID_HASH with MK_MSG_CONV_HASH; lia].
  apply (indexed_vals_bound (bo_index _ B)). intros v Hv%(used_by_is_Some mm_msg_id). by apply slots_bound in Hv.
Qed.

(** ** The id table *)

Section IdTable.
Context (mem : gmap Z mem_msg).
Let used_ids := used_by mm_msg_id mem.
Hypothesis distinct : forall i j x, used_ids !! i = Some x -> used_ids !! j = Some x -> i = j.

(** A put does not meet another entry of its id. *)
Lemma id_put_insert t slot :
  is_Some (used_ids !! slot) -> (forall p v, t !! p = Some v -> is_Some (used_ids !! v) /\ v <> slot) ->
  id_hash_put mem t (mm_msg_id (mem_at mem slot)) slot =
    scan_insert MK_MSG_ID_HASH t (shome id_bucket used_ids slot) slot.
Proof using distinct.
  intros Hs Ht. unfold id_hash_put, scan_insert. 
  assert (shome id_bucket used_ids slot = id_bucket (mm_msg_id (mem_at mem slot))) as -> by (symmetry; by apply used_home).
  rewrite (scan_ext_cells t _ (fun _ => false)).
  - destruct (scan _ t (fun _ => false) _) as [p v|p|] eqn:F; [exfalso|done|done].
    pose proof (scan_run t (fun _ => false) _ (id_bucket_bound (mm_msg_id (mem_at mem slot)))) as R.
    rewrite F in R. by destruct R as (? & _ & _ & _ & _ & ? & _).
  - intros p v Hv. rewrite id_test_smatch. apply bool_decide_eq_false. intros E.
    destruct (Ht p v Hv) as [_ Hne]. apply Hne. eapply distinct; [exact E|].
    apply used_by_Some. split; [by apply (used_by_is_Some mm_msg_id)|done].
Qed.

Lemma id_rehash_repair fuel : forall t j,
  (forall p v, t !! p = Some v -> is_Some (used_ids !! v)) ->
  (forall p q v, t !! p = Some v -> t !! q = Some v -> p = q) ->
  id_rehash fuel mem t j = repair MK_MSG_ID_HASH (shome id_bucket used_ids) fuel t j.
Proof using distinct.
  induction fuel as [|fuel IH]; intros t j Hu Hi; [done|]. cbn [id_rehash repair].
  destruct (Z.ltb_spec t.[j] 0) as [|Hp]; [done|].
  assert (t !! j = Some t.[j]) as Hj by (unfold cell in *; destruct (t !! j); [done|cbn in Hp; lia]).
  assert (forall p v, delete j t !! p = Some v -> is_Some (used_ids !! v) /\ v <> t.[j] /\ t !! p = Some v) as Hd.
  { intros p v [Hne Hv]%lookup_delete_Some. split_and!; [by eapply Hu| |done].
    intros ->. apply Hne. by eapply Hi. }
  rewrite id_put_insert; [|by eapply Hu|naive_solver].
  apply IH.
  - intros p v [->|[q Hq]]%scan_insert_vals; [by eapply Hu|]. by apply Hd in Hq as [? _].
  - intros p q v. unfold scan_insert. destruct (scan _ _ _ _) as [| r|]; [|rewrite !lookup_insert_Some|];
      intros H1 H2; [apply Hd in H1 as (_ & _ & H1), H2 as (_ & _ & H2); by eapply Hi| |
        apply Hd in H1 as (_ & _ & H1), H2 as (_ & _ & H2); by eapply Hi].
    destruct H1 as [[<- <-]|[? (_ & N1 & H1)%Hd]], H2 as [[<- E2]|[? (_ & N2 & H2)%Hd]]; try done. by eapply Hi.
Qed.

Lemma id_del_ok t slot x :
  indexed MK_MSG_ID_HASH t (shome id_bucket used_ids) (fun v => is_Some (used_ids !! v)) ->
  Z.of_nat (size t) < MK_MSG_ID_HASH -> used_ids !! slot = Some x ->
  indexed MK_MSG_ID_HASH (id_hash_del mem t x) (shome id_bucket used_ids) (fun v => is_Some (used_ids !! v) /\ v <> slot).
Proof using distinct.
  intros I Hroom Hs. assert (shome id_bucket used_ids slot = id_bucket x) as Eh by (unfold shome; by rewrite Hs).
  destruct (scan_hit I (id_test mem x) (id_bucket x) slot) as (p & F & Hp); [apply id_bucket_bound|done|done| | |].
  - rewrite id_test_smatch. by apply bool_decide_eq_true.
  - intros w Hw Hm. rewrite id_test_smatch in Hm. apply bool_decide_eq_true in Hm. by eapply distinct.
  - pose proof (scan_remove_ok _ _ _ _ _ _ _ I (shome_bound _ id_bucket_bound used_ids) (id_bucket_bound x) Hroom F) as R.
    unfold scan_remove in R. unfold id_hash_del. rewrite F in R |- *. rewrite id_rehash_repair; [done| |].
    + intros q v [_ Hq]%lookup_delete_Some. by apply I in Hq as (_ & _ & ?).
    + intros q r v [_ Hq]%lookup_delete_Some [_ Hr]%lookup_delete_Some. by eapply I.
Qed.
End IdTable.

(** The lookup of a message. *)
Lemma mem_find_ok s x :
  base_ok s ->
  (mem_find s x = -1 /\ forall i, ids s !! i <> Some x) \/
  (ids s !! mem_find s x = Some x /\ 0 <= mem_find s x).
Proof.
  intros B. unfold mem_find, scan_find.
  destruct (scan _ _ _ _) as [p v|p|] eqn:F.
  - right. destruct (scan_found (bo_index _ B) _ _ _ _ (id_bucket_bound x) F) as (Hp & _ & Hm).
    rewrite id_test_smatch in Hm. apply bool_decide_eq_true in Hm. split; [done|].
    apply (bo_index _ B) in Hp. lia.
  - left. split; [done|]. intros i Hi.
    destruct (scan_reaches (bo_index _ B) (id_test (ms_mem s) x) (id_bucket x) i) as (q & w & F2); [apply id_bucket_bound|by eexists| | |].
    + unfold shome. by rewrite Hi.
    + rewrite id_test_smatch. by apply bool_decide_eq_true.
    + congruence.
  - exfalso. eapply scan_room; [apply id_bucket_bound| |exact F]. by apply ids_size.
Qed.

(** ** Freeing a slot *)

Lemma free_raw_ok s slot :
  base_ok s -> mm_used (mem_at (ms_mem s) slot) = true ->
  base_ok (mem_free_slot_raw s slot) /\
  ms_mem (mem_free_slot_raw s slot) = <[slot := clear_used (mem_at (ms_mem s) slot)]> (ms_mem s) /\
  ms_free_stack (mem_free_slot_raw s slot) = slot :: ms_free_stack s.
Proof.
  intros B Hu. pose proof (slots_bound s slot B Hu) as Hb. set (m := mem_at (ms_mem s) slot) in *.
  assert (ids s !! slot = Some (mm_msg_id m)) as Hid by (by apply used_by_Some).
  pose proof (slots_length s B) as HL.
  assert (size (ids s) = S (size (delete slot (ids s)))) as Hsz.
  { rewrite map_size_delete, Hid. enough (size (ids s) <> 0)%nat by lia. intros Hz. apply map_size_empty_iff in Hz.
    rewrite Hz in Hid. by rewrite lookup_empty in Hid. }
  unfold mem_free_slot_raw. fold m. rewrite Hu. unfold MK_MSG_MEM_CAP in *.
  rewrite (proj2 (Z.ltb_ge slot 0)), (proj2 (Z.leb_gt 8192 slot)) by lia. cbn [orb negb].
  destruct (Z.ltb_spec (Z.of_nat (length (ms_free_stack s))) 8192); [|lia].
  split; [|done]. assert (forall f : mem_msg -> string, used_by f (<[slot:=clear_used m]> (ms_mem s)) = delete slot (used_by f (ms_mem s))) as Ed
    by (intros f; by apply used_by_freed).
  split; unfold ids, convs; cbn [ms_mem ms_free_stack ms_mem_count ms_id_hash ms_evict_cursor set_mem set_id_hash]; rewrite ?Ed; fold (ids s) (convs s).
  - rewrite <- app_comm_cons. rewrite Permutation_middle.
    change (slot :: (map_to_list (delete slot (ids s))).*1) with (((slot, mm_msg_id m) :: map_to_list (delete slot (ids s))).*1).
    rewrite map_to_list_delete by done. apply B.
  - rewrite (bo_count _ B). destruct (Z.ltb_spec (Z.of_nat (size (ids s)) - 1) 0); lia.
  - intros i j x [_ Hi]%lookup_delete_Some [_ Hj]%lookup_delete_Some. by eapply (bo_distinct _ B).
  - eapply indexed_ext; [| |apply (id_del_ok (ms_mem s) (bo_distinct _ B) (ms_id_hash s) slot); [apply B|by apply ids_size|done]].
    + intros v. rewrite lookup_delete_is_Some. naive_solver.
    + intros v [_ Hv]. unfold shome. by rewrite lookup_delete_ne by done.
  - intros i c [_ Hi]%lookup_delete_Some. by eapply (bo_named _ B).
  - apply B.
Qed.

(** ** Chains of the conversations *)

Definition store_ok (s : msg_store) : Prop := base_ok s /\ conv_ok s.

Lemma base_set_conv s hn : base_ok s -> base_ok (set_conv s hn).
Proof. intros []. by split. Qed.

Lemma chain_link_ext sz hd nx m m' h i :
  (forall p v, hd !! p = Some v -> m v = m' v) -> chain_link sz hd nx m h i = chain_link sz hd nx m' h i.
Proof. intros E. unfold chain_link. by rewrite (scan_ext_cells hd m m') by done. Qed.

(** Linking a used slot that is on no chain yet; [own] are those that are. *)
Lemma conv_link_ok s slot own ch :
  chains (sz:=MK_MSG_CONV_HASH) conv_bucket CAPN (ms_conv_hash s) (ms_conv_next s) own ch ->
  own !! slot = None -> own ⊆ convs s -> mm_used (mem_at (ms_mem s) slot) = true -> 0 <= slot < MK_MSG_MEM_CAP ->
  exists hd nx ch', conv_link s slot = set_conv s (hd, nx) /\
    chains (sz:=MK_MSG_CONV_HASH) conv_bucket CAPN hd nx (<[slot := mm_conversation_id (mem_at (ms_mem s) slot)]> own) ch'.
Proof.
  intros C Hn Hsub Hu Hb. set (c := mm_conversation_id (mem_at (ms_mem s) slot)).
  pose proof (chains_link _ conv_bucket_bound _ cap_lt_conv C c slot Hn Hb) as L.
  unfold conv_link. fold c. rewrite (chain_link_ext _ _ _ _ (smatch own c)).
  - destruct (chain_link _ _ _ _ _ _) as [hd nx]. by exists hd, nx, (ch_push (ch:=ch) c slot).
  - intros p v Hv. apply (sc_ix _ _ _ _ _ _ C) in Hv as (_ & _ & (o & _ & Ho)%(heads_own _ _ C)).
    rewrite conv_test_smatch. fold (convs s). unfold smatch. rewrite Ho. eapply lookup_weaken in Ho; [|exact Hsub]. by rewrite Ho.
Qed.

Lemma conv_unlink_ok s slot :
  store_ok s -> mm_used (mem_at (ms_mem s) slot) = true ->
  exists hd nx ch, conv_unlink s slot = set_conv s (hd, nx) /\
    chains (sz:=MK_MSG_CONV_HASH) conv_bucket CAPN hd nx (delete slot (convs s)) ch.
Proof.
  intros [B [ch C]] Hu. pose proof (slots_bound s slot B Hu) as Hb. unfold conv_unlink. rewrite Hu.
  rewrite (proj2 (Z.ltb_ge slot 0)), (proj2 (Z.leb_gt MK_MSG_MEM_CAP slot)) by lia. cbn [orb negb].
  set (c := mm_conversation_id (mem_at (ms_mem s) slot)).
  assert (convs s !! slot = Some c) as Hc by (by apply used_by_Some).
  rewrite (bo_named _ B _ _ Hc). cbn [negb].
  pose proof (chains_unlink _ conv_bucket_bound _ cap_lt_conv (fun v => mm_used (mem_at (ms_mem s) v)) (conv_home (ms_mem s)) c slot C Hc) as L.
  assert (forall hd nx h, chain_unlink MK_MSG_CONV_HASH (fun v => mm_used (mem_at (ms_mem s) v)) (conv_home (ms_mem s)) CAPN hd nx (conv_test (ms_mem s) c) h slot =
    chain_unlink MK_MSG_CONV_HASH (fun v => mm_used (mem_at (ms_mem s) v)) (conv_home (ms_mem s)) CAPN hd nx (smatch (convs s) c) h slot) as E.
  { intros. unfold chain_unlink. by rewrite (scan_ext hd _ (smatch (convs s) c)) by (intros; apply conv_test_smatch). }
  unfold CAPN in E. rewrite E. fold CAPN. destruct (chain_unlink _ _ _ _ _ _ _ _ _) as [hd nx].
  exists hd, nx, (ch_drop (ch:=ch) slot). split; [done|]. apply L. intros v Hv. split; [by apply used_by_is_Some in Hv|].
  by apply (used_home (hash:=conv_bucket) mm_conversation_id).
Qed.

Lemma free_slot_ok s slot :
  store_ok s -> mm_used (mem_at (ms_mem s) slot) = true ->
  store_ok (mem_free_slot s slot) /\
  ms_mem (mem_free_slot s slot) = <[slot := clear_used (mem_at (ms_mem s) slot)]> (ms_mem s) /\
  ms_free_stack (mem_free_slot s slot) = slot :: ms_free_stack s.
Proof.
  intros O Hu. pose proof (slots_bound s slot (proj1 O) Hu) as Hb. unfold mem_free_slot. rewrite Hu.
  rewrite (proj2 (Z.ltb_ge slot 0)), (proj2 (Z.leb_gt MK_MSG_MEM_CAP slot)) by lia. cbn [orb negb].
  destruct (conv_unlink_ok s slot O Hu) as (hd & nx & ch & -> & C).
  destruct (free_raw_ok (set_conv s (hd, nx)) slot) as (B & E1 & E2); [by apply base_set_conv, O|done|].
  split; [|done]. split; [done|]. exists ch. unfold conv_chains, convs. rewrite E1.
  rewrite used_by_freed by done. unfold mem_free_slot_raw. cbn [ms_mem set_conv]. by destruct (_ || _).
Qed.

(** ** Rebuilding the chains *)

Definition below (i : Z) (own : gmap Z string) : gmap Z string := filter (fun p => p.1 < i) own.

Lemma below_lookup i own k x : below i own !! k = Some x <-> own !! k = Some x /\ k < i.
Proof. unfold below. by rewrite map_lookup_filter_Some. Qed.

Lemma below_step own i :
  below (i + 1) own = match own !! i with Some c => <[i:=c]> (below i own) | None => below i own end.
Proof.
  apply map_eq. intros k. apply option_eq. intros x. rewrite below_lookup.
  destruct (own !! i) as [c|] eqn:Ei; rewrite ?lookup_insert_Some, below_lookup.
  - destruct (decide (k = i)) as [->|Hne]; [rewrite Ei; naive_solver lia|]. naive_solver lia.
  - split; [|naive_solver lia]. intros [Hk Hlt]. split; [done|]. destruct (decide (k = i)) as [->|]; [congruence|lia].
Qed.

Lemma rebuild_ok s :
  base_ok s -> exists hd nx, rebuild_conv_chains s = set_conv s (hd, nx) /\ store_ok (set_conv s (hd, nx)).
Proof.
  intros B. unfold rebuild_conv_chains.
  assert (convs s = below MK_MSG_MEM_CAP (convs s)) as Eb.
  { apply map_eq. intros k. apply option_eq. intros x. rewrite below_lookup. split; [|by intros [? _]].
    intros Hk. split; [done|]. apply used_by_Some in Hk as [Hk _]. apply slots_bound in Hk; [lia|done]. }
  assert (exists hd nx ch, for_range MK_MSG_MEM_CAP
      (fun s slot => if mm_used (mem_at (ms_mem s) slot) then conv_link s slot else s) (set_conv s (∅, ∅)) = set_conv s (hd, nx) /\
    chains (sz:=MK_MSG_CONV_HASH) conv_bucket CAPN hd nx (below MK_MSG_MEM_CAP (convs s)) ch) as (hd & nx & ch & E & C).
  { apply (for_range_ind (fun i s' => exists hd nx ch, s' = set_conv s (hd, nx) /\
      chains (sz:=MK_MSG_CONV_HASH) conv_bucket CAPN hd nx (below i (convs s)) ch)); [done| |].
    - exists ∅, ∅, (fun _ => []). split; [done|].
      assert (below 0 (convs s) = ∅) as ->; [|apply chains_empty]. apply map_empty. intros k. apply eq_None_not_Some.
      intros [x [Hk Hlt]%below_lookup]. apply used_by_Some in Hk as [Hk _]. apply slots_bound in Hk; [lia|done].
    - intros i s' Hi (hd & nx & ch & -> & C). cbn [ms_mem set_conv]. rewrite below_step.
      destruct (convs s !! i) as [c|] eqn:Ec.
      + apply used_by_Some in Ec as [Hu Hc]. rewrite Hu.
        destruct (conv_link_ok (set_conv s (hd, nx)) i _ _ C) as (hd' & nx' & ch' & -> & C'); [| |done|done|].
        * apply eq_None_not_Some. intros [x [_ Hlt]%below_lookup]. lia.
        * apply map_subseteq_spec. by intros k x [Hk _]%below_lookup.
        * exists hd', nx', ch'. split; [done|]. cbn [ms_mem set_conv] in C'. by rewrite Hc in C'.
      + apply used_by_None in Ec. rewrite Ec. by exists hd, nx, ch. }
  exists hd, nx. split; [done|]. split; [by apply base_set_conv|]. exists ch. by rewrite <- Eb in C.
Qed.

(** ** Taking a slot *)

Lemma store_ok_meta s cur cb cnt en :
  store_ok s -> 0 <= cur < MK_MSG_MEM_CAP ->
  store_ok (Store (ms_mem s) (ms_mem_count s) (ms_free_stack s) (ms_id_hash s) (ms_conv_hash s) (ms_conv_next s) cur cb cnt en).
Proof. intros [[] [ch C]] Hc. split; [by split|]. by exists ch. Qed.

Lemma evict_slot_ok s :
  store_ok s -> ms_free_stack s = [] ->
  let cur := ms_evict_cursor s in
  exists s1 n, evict_slot s = (s1, n) /\ store_ok s1 /\ mm_used (mem_at (ms_mem s) cur) = true /\
    ms_mem s1 = <[cur := clear_used (mem_at (ms_mem s) cur)]> (ms_mem s) /\
    ms_free_stack s1 = [cur] /\ ms_evict_cursor s1 = (cur + 1) mod MK_MSG_MEM_CAP /\ ms_enabled s1 = ms_enabled s.
Proof.
  intros O Hf cur. pose proof (bo_cursor _ (proj1 O)) as Hc. fold cur in Hc.
  assert (mm_used (mem_at (ms_mem s) cur) = true) as Hu
    by (apply (used_by_is_Some mm_msg_id); by apply (slots_full s cur (proj1 O))).
  assert (0 <= (cur + 1) mod MK_MSG_MEM_CAP < MK_MSG_MEM_CAP) as Hm by (by apply Z.mod_pos_bound).
  unfold evict_slot. fold cur.
  set (s0 := Store _ _ _ _ _ _ _ _ _ _).
  destruct (free_slot_ok s0 cur) as (O1 & E1 & E2); [by apply store_ok_meta|done|].
  assert (ms_evict_cursor (mem_free_slot s0 cur) = (cur + 1) mod MK_MSG_MEM_CAP /\
          ms_enabled (mem_free_slot s0 cur) = ms_enabled s) as [E3 E4].
  { unfold mem_free_slot, mem_free_slot_raw, conv_unlink. repeat case_match; done. }
  cbn [ms_mem ms_free_stack s0] in E1, E2. rewrite Hf in E2.
  destruct (ms_overwrite_cb (mem_free_slot s0 cur)).
  - eexists _, _. split; [reflexivity|]. split; [|by split_and!]. apply store_ok_meta; [done|]. by rewrite E3.
  - eexists _, _. split; [reflexivity|]. by split_and!.
Qed.

(** The store after the message is filled in and indexed. *)
Definition place (s : msg_store) (slot : Z) (m : mem_msg) : msg_store :=
  let s2 := set_mem s slot m (ms_mem_count s) (ms_free_stack s) in
  conv_link (set_id_hash s2 (id_hash_put (ms_mem s2) (ms_id_hash s2) (mm_msg_id m) slot)) slot.

Lemma place_base s slot free m blank :
  base_ok s -> ms_free_stack s = slot :: free -> mm_used m = true -> nonempty (mm_conversation_id m) = true ->
  (forall i, ids s !! i <> Some (mm_msg_id m)) ->
  let mem' := <[slot:=m]> (ms_mem s) in
  base_ok (set_id_hash (set_mem (set_mem s slot blank (ms_mem_count s + 1) free) slot m (ms_mem_count s + 1) free)
            (id_hash_put mem' (ms_id_hash s) (mm_msg_id m) slot)).
Proof.
  intros B Hf Hu Hne Hfresh mem'. destruct (slots_free s slot B) as [Hn Hb]; [rewrite Hf; by left|].
  assert (forall f : mem_msg -> string, used_by f mem' = <[slot:=f m]> (used_by f (ms_mem s))) as Ei
    by (intros f; by apply used_by_taken).
  assert (forall i j x, used_by mm_msg_id mem' !! i = Some x -> used_by mm_msg_id mem' !! j = Some x -> i = j) as Hd.
  { intros i j x. rewrite Ei, !lookup_insert_Some. pose proof (bo_distinct _ B). unfold ids in *. naive_solver. }
  assert (convs s !! slot = None) as Hnc by (apply used_by_None; by apply (used_by_None mm_msg_id)).
  split; unfold ids, convs; cbn [ms_mem ms_free_stack ms_mem_count ms_id_hash ms_evict_cursor set_mem set_id_hash];
    rewrite ?insert_insert_eq; fold mem'; rewrite ?Ei; fold (ids s) (convs s).
  - rewrite map_to_list_insert by done. cbn. rewrite <- Permutation_middle. rewrite <- (bo_slots _ B), Hf. done.
  - rewrite map_size_insert_None by done. rewrite (bo_count _ B). lia.
  - intros i j x. unfold ids. rewrite <- Ei. apply Hd.
  - assert (mem_at mem' slot = m) as Em by apply mem_at_insert.
    pose proof (id_put_insert mem' Hd (ms_id_hash s) slot) as P. rewrite Em in P. rewrite P.
    2: { apply used_by_is_Some. by rewrite Em. }
    2: { intros p v Hv. apply (bo_index _ B) in Hv as (_ & _ & Hv). split; [|intros ->; by rewrite Hn in Hv].
         rewrite Ei. apply lookup_insert_is_Some'. by right. }
    rewrite Ei. fold (ids s). set (ids' := <[slot:=mm_msg_id m]> (ids s)).
    assert (indexed MK_MSG_ID_HASH (ms_id_hash s) (shome id_bucket ids') (fun v => is_Some (ids s !! v))) as I.
    { eapply indexed_ext; [| |exact (bo_index _ B)]; [done|]. intros v Hv. unfold shome, ids'.
      rewrite lookup_insert_ne; [done|]. intros <-. by rewrite Hn in Hv. }
    destruct (scan_miss I (fun _ => false) (shome id_bucket ids' slot)) as [p F];
      [apply (shome_bound _ id_bucket_bound)|by apply ids_size|done|].
    unfold scan_insert. rewrite F.
    destruct (indexed_insert I _ _ _ (shome_bound _ id_bucket_bound ids' slot) F) as [_ I2];
      [rewrite Hn; by intros []|lia|].
    eapply indexed_ext; [| |exact I2]; [|done]. intros v. unfold ids'. rewrite lookup_insert_is_Some'. naive_solver.
  - intros i c. rewrite lookup_insert_Some. intros [[_ <-]|[_ Hi]]; [done|]. by eapply (bo_named _ B).
  - apply B.
Qed.

Lemma place_ok s slot free m blank :
  store_ok s -> ms_free_stack s = slot :: free -> mm_used m = true -> nonempty (mm_conversation_id m) = true ->
  (forall i, ids s !! i <> Some (mm_msg_id m)) ->
  let s' := place (set_mem s slot blank (ms_mem_count s + 1) free) slot m in
  store_ok s' /\ ms_mem s' = <[slot:=m]> (ms_mem s) /\ ms_free_stack s' = free /\
  ms_evict_cursor s' = ms_evict_cursor s /\ ms_enabled s' = ms_enabled s.
Proof.
  intros [B [ch C]] Hf Hu Hne Hfresh. destruct (slots_free s slot B) as [Hn Hb]; [rewrite Hf; by left|].
  pose proof (place_base s slot free m blank B Hf Hu Hne Hfresh) as B'. cbv zeta in B'.
  unfold place. cbn [ms_mem ms_mem_count ms_free_stack ms_id_hash set_mem]. rewrite insert_insert_eq.
  set (s3 := set_id_hash _ _) in *.
  assert (ms_mem s3 = <[slot:=m]> (ms_mem s)) as Em by (cbn; apply insert_insert_eq).
  assert (mem_at (ms_mem s3) slot = m) as Ea by (rewrite Em; apply mem_at_insert).
  assert (convs s3 = <[slot := mm_conversation_id m]> (convs s)) as Ec by (unfold convs; rewrite Em; by apply used_by_taken).
  assert (convs s !! slot = None) as Hnc by (apply used_by_None; by apply (used_by_None mm_msg_id)).
  destruct (conv_link_ok s3 slot (convs s) ch C) as (hd & nx & ch' & -> & C'); [done| | |done|].
  - rewrite Ec. by apply insert_subseteq.
  - by rewrite Ea.
  - split_and!; try done. split; [by apply base_set_conv|]. exists ch'. unfold conv_chains.
    change (convs (set_conv s3 (hd, nx))) with (convs s3). rewrite Ea in C'. rewrite Ec. exact C'.
Qed.
