(* ===== verification/MsgStoreSpec.v ===== *)
(** * What the message store promises

    The reference is a finite map from message ids to messages.  [ref_step]
    says what each operation may do to it and answer: an insert into a full
    store first loses one message, a listing is the messages of the
    conversation in the wanted range, each once.  [msg_store_refines] is the
    refinement for every sequence of operations, with all indexes, chains and
    buffers behind it; [msg_ring_keeps_last] says which message a store that
    only grows loses. *)
From Stdlib Require Import Ascii String.
From S2P Require Import Prelude Hash ProbeIndex ProbeRemove ChainIndex SlotChains KeyedMap Json JsonText JsonEscape MsgStore.
From S2P Require Import MsgStoreInv.
#[local] Open Scope Z_scope.

(** The messages in use are exactly those of [M], by their id. *)
Definition represents (mem : gmap Z mem_msg) (M : gmap string mem_msg) : Prop := forall x m,
  M !! x = Some m <-> exists i, mem !! i = Some m /\ mm_used m = true /\ mm_msg_id m = x.

(** ** Representation *)

Section Rep.
Context (mem : gmap Z mem_msg) (M : gmap string mem_msg) (R : represents mem M).
Hypothesis distinct : forall i j x, used_by mm_msg_id mem !! i = Some x -> used_by mm_msg_id mem !! j = Some x -> i = j.

Lemma rep_at i : mm_used (mem_at mem i) = true -> M !! mm_msg_id (mem_at mem i) = Some (mem_at mem i).
Proof using R.
  intros Hu. apply R. exists i. split_and!; try done. unfold mem_at in *. destruct (mem !! i); [done|by cbn in Hu].
Qed.

Lemma rep_slot x m : M !! x = Some m -> exists i, mem_at mem i = m /\ mem !! i = Some m /\ mm_used m = true /\ mm_msg_id m = x.
Proof using R. intros (i & Hi & Hu & Hx)%R. exists i. unfold mem_at. rewrite Hi. by split_and!. Qed.

Lemma rep_id i x : used_by mm_msg_id mem !! i = Some x -> M !! x = Some (mem_at mem i).
Proof using R. intros [Hu <-]%used_by_Some. by apply rep_at. Qed.

Lemma rep_fresh x : M !! x = None -> forall i, used_by mm_msg_id mem !! i <> Some x.
Proof using R. intros Hx i Hi. apply rep_id in Hi. congruence. Qed.

Lemma rep_size : size M = size (used_by mm_msg_id mem).
Proof using R distinct.
  rewrite <- !length_map_to_list, <- (length_fmap fst (map_to_list M)), <- (length_fmap snd (map_to_list (used_by _ _))).
  apply Permutation_length, NoDup_Permutation.
  - apply NoDup_fst_map_to_list.
  - apply NoDup_fmap_2_strong; [|apply NoDup_map_to_list]. intros [i x] [j y] Hi%elem_of_map_to_list Hj%elem_of_map_to_list E.
    cbn in E. subst. f_equal. by eapply distinct.
  - intros x. rewrite !list_elem_of_fmap. split.
    + intros ([y m] & -> & Hy%elem_of_map_to_list). apply rep_slot in Hy as (i & Ha & _ & Hu & Hx). exists (i, y). cbn. split; [done|].
      apply elem_of_map_to_list, used_by_Some. by rewrite Ha.
    + intros ([i y] & -> & Hi%elem_of_map_to_list). exists (y, mem_at mem i). split; [done|]. by apply elem_of_map_to_list, rep_id.
Qed.

Lemma rep_freed i x m :
  used_by mm_msg_id mem !! i = Some x -> mm_used m = false -> represents (<[i:=m]> mem) (delete x M).
Proof using R distinct.
  intros Hi Hm y m'. rewrite lookup_delete_Some. split.
  - intros [Hne Hy]. apply rep_slot in Hy as (j & Ha & Hj & Hu & Hy). exists j. split_and!; try done.
    rewrite lookup_insert_ne; [done|]. intros ->. apply used_by_Some in Hi as [_ Hi]. congruence.
  - intros (j & Hj & Hu & Hy). rewrite lookup_insert_Some in Hj. destruct Hj as [[_ ->]|[Hne Hj]]; [congruence|].
    assert (used_by mm_msg_id mem !! j = Some y) as Hid by (apply used_by_Some; unfold mem_at; by rewrite Hj).
    split; [intros ->; by apply Hne, (distinct i j y)|]. apply R. by exists j.
Qed.

Lemma rep_taken i m :
  used_by mm_msg_id mem !! i = None -> mm_used m = true -> M !! mm_msg_id m = None ->
  represents (<[i:=m]> mem) (<[mm_msg_id m := m]> M).
Proof using R.
  intros Hi Hm Hf y m'. apply used_by_None in Hi. rewrite lookup_insert_Some. split.
  - intros [[<- <-]|[Hne Hy]]; [exists i; by rewrite lookup_insert_eq|].
    apply rep_slot in Hy as (j & Ha & Hj & Hu & Hy). exists j. split_and!; try done.
    rewrite lookup_insert_ne; [done|]. intros ->. congruence.
  - intros (j & Hj & Hu & Hy). rewrite lookup_insert_Some in Hj. destruct Hj as [[_ ->]|[Hne Hj]]; [by left|right].
    assert (M !! y = Some m') as HM by (apply R; by exists j). split; [|done]. intros <-. congruence.
Qed.

(** A message changed in place, its id and use kept. *)
Lemma rep_changed i f :
  mm_used (mem_at mem i) = true -> (forall m, mm_msg_id (f m) = mm_msg_id m /\ mm_used (f m) = mm_used m) ->
  represents (<[i := f (mem_at mem i)]> mem) (alter f (mm_msg_id (mem_at mem i)) M).
Proof using R distinct.
  intros Hu Hf y m'. pose proof (rep_at i Hu) as Ha. destruct (Hf (mem_at mem i)) as [F1 F2]. split.
  - rewrite lookup_alter_Some. intros [(<- & m & Hm & ->)|[Hne Hy]].
    + assert (m = mem_at mem i) as -> by congruence. exists i. by rewrite lookup_insert_eq, F1, F2.
    + apply rep_slot in Hy as (j & Hj & Hj' & Hu' & Hy). exists j. split_and!; try done.
      rewrite lookup_insert_ne; [done|]. intros ->. congruence.
  - intros (j & Hj & Hu' & Hy). rewrite lookup_insert_Some in Hj. destruct Hj as [[-> <-]|[Hne Hj]].
    + rewrite F1 in Hy. subst y. by rewrite lookup_alter_eq, Ha.
    + assert (M !! y = Some m') as HM by (apply R; by exists j). rewrite lookup_alter_ne; [done|].
      intros <-. apply Hne. eapply distinct; [by apply used_by_Some|].
      apply used_by_Some. unfold mem_at at 1 2. by rewrite Hj.
Qed.
End Rep.

Lemma rep_empty : represents ∅ ∅.
Proof. intros x m. rewrite lookup_empty. split; [done|]. intros (i & Hi & _). by rewrite lookup_empty in Hi. Qed.

(** ** Texts fit their buffers *)

Lemma raw_members_length l : forall first,
  tlen (raw_members first l) <= foldr (fun kt n => 4 + Z.of_nat (String.length kt.1) + tlen kt.2 + n) 0 l.
Proof.
  induction l as [|[k t] l IH]; intros first; [done|]. cbn [raw_members foldr fst snd]. specialize (IH false).
  unfold tlen, quoted in *. rewrite !length_app. cbn [length]. rewrite !length_app. cbn [length].
  assert (length (str k) = String.length k) as -> by (induction k; cbn; [done|by f_equal]).
  destruct first; cbn [length]; lia.
Qed.

(** The longest document of a message. *)
Lemma msg_text_length m cap : 0 < cap -> tlen (msg_text m cap) <= 704 + cap.
Proof.
  intros Hc. unfold msg_text, raw_object. pose proof (raw_members_length (msg_fields m cap) true) as L.
  unfold tlen. cbn [length]. rewrite length_app. cbn [length]. fold (tlen (raw_members true (msg_fields m cap))).
  cbn [msg_fields foldr fst snd String.length] in L.
  pose proof (esc_field_length (mm_msg_id m) 128 ltac:(lia)). pose proof (esc_field_length (mm_conversation_id m) 256 ltac:(lia)).
  pose proof (esc_field_length (mm_sender_id m) 128 ltac:(lia)). pose proof (esc_field_length (mm_content m) cap Hc).
  pose proof (fmt_lld_length (mm_content_type m)). pose proof (fmt_lld_length (mm_send_time m)).
  pose proof (fmt_lld_length (mm_seq m)). pose proof (fmt_lld_length (mm_status m)). unfold tlen in *. lia.
Qed.

Lemma snprintf_fits cap t : tlen t < cap -> snprintf cap t = (t, tlen t).
Proof. intros H. unfold snprintf. f_equal. apply take_ge. unfold tlen in H. lia. Qed.

(** ** Listings *)

Definition in_range (a b : Z) (m : mem_msg) : bool := negb ((mm_seq m <? a) || ((0 <? b) && (b <? mm_seq m))).

Fixpoint join_items (first : bool) (l : list mem_msg) : text :=
  match l with
  | [] => []
  | m :: l' => (if first then [] else [","%char]) ++ msg_text m 1100 ++ join_items false l'
  end.

Lemma list_items_ok mem a b slots : forall buf cap first,
  Forall (fun i => mm_used (mem_at mem i) = true) slots -> tlen buf + 2 <= cap -> 4096 <= cap ->
  exists cap' first', tlen (buf ++ join_items first (filter (fun m => in_range a b m = true) (mem_at mem <$> slots))) + 2 <= cap' /\
    foldl (list_item mem a b) (Some (buf, cap, first)) slots =
      Some (buf ++ join_items first (filter (fun m => in_range a b m = true) (mem_at mem <$> slots)), cap', first').
Proof.
  induction slots as [|i slots IH]; intros buf cap first Hu Hb Hc.
  { exists cap, first. cbn. by rewrite app_nil_r. }
  apply list.Forall_cons in Hu as [Hi Hu]. cbn [foldl fmap list_fmap]. unfold list_item at 2. cbn [mbind option_bind].
  rewrite Hi. cbn [negb orb]. set (m := mem_at mem i).
  destruct ((mm_seq m <? a) || ((0 <? b) && (b <? mm_seq m))) eqn:Er.
  { rewrite filter_cons_False by (unfold in_range; by rewrite Er). by apply IH. }
  rewrite filter_cons_True by (unfold in_range; by rewrite Er). cbn [join_items].
  set (t := (if first then [] else [","%char]) ++ msg_text m 1100).
  assert (0 <= tlen t <= 1805) as Ht.
  { unfold t. pose proof (msg_text_length m 1100 ltac:(lia)). unfold tlen in *. rewrite length_app. destruct first; cbn [length]; lia. }
  rewrite (snprintf_fits 2048 t) by lia. destruct (Z.ltb_spec 2048 (tlen t)); [lia|].
  assert (take (Z.to_nat (tlen t)) (t ++ [NUL]) = t) as ->.
  { unfold tlen. rewrite Nat2Z.id. apply take_app_length. }
  set (cap1 := if cap <? tlen buf + tlen t + 2 then cap * 2 else cap).
  assert (tlen buf + tlen t + 2 <= cap1 /\ 4096 <= cap1) as [H1 H2].
  { unfold cap1. destruct (Z.ltb_spec cap (tlen buf + tlen t + 2)); lia. }
  destruct (Z.ltb_spec cap1 (tlen buf + tlen t)); [lia|].
  destruct (IH (buf ++ t) cap1 false Hu) as (cap' & first' & L & E); [unfold tlen in *; rewrite length_app; lia|done|].
  exists cap', first'. unfold t in *. rewrite <- !app_assoc in L, E. done.
Qed.

(** ** The reference *)

Inductive store_op :=
  | OpInsert (cid sid content msg_id : string) (content_type send_time seq now : Z)
  | OpFindByConv (cid : string) (start_seq end_seq : Z)
  | OpFindOne (msg_id : string)
  | OpUpdateStatus (msg_id : string) (status : Z)
  | OpDelete (msg_id : string)
  | OpPurge (cutoff : Z)
  | OpClearUser (user : string)
  | OpCount.

(** One public call on the store in memory; None is undefined behaviour. *)
Definition store_step (s : msg_store) (o : store_op) : option (answer * msg_store) :=
  match o with
  | OpInsert cid sid content id ct st sq now =>
      '(a, _, s') ← miku_msg_store_insert s (Some cid) (Some sid) ct (Some content) st sq id now; Some (a, s')
  | OpFindByConv cid a b => r ← miku_msg_store_find_by_conv s (Some cid) a b; Some (r, s)
  | OpFindOne id => Some (miku_msg_store_find_one s (Some id), s)
  | OpUpdateStatus id z => Some (miku_msg_store_update_status s (Some id) z)
  | OpDelete id => Some (miku_msg_store_delete s (Some id))
  | OpPurge t => Some (miku_msg_store_purge_older_than s t)
  | OpClearUser u => Some (miku_msg_store_clear_user s (Some u))
  | OpCount => Some (Rc (miku_msg_store_count s), s)
  end.

(** Room for one more message: all are kept, or one goes when all slots are
    taken. *)
Definition one_lost (M M0 : gmap string mem_msg) : Prop :=
  if Z.of_nat (size M) <? MK_MSG_MEM_CAP then M0 = M else exists x, is_Some (M !! x) /\ M0 = delete x M.

Definition drop_where (p : mem_msg -> bool) (M : gmap string mem_msg) : gmap string mem_msg :=
  filter (fun xm => p xm.2 = false) M.

Definition ref_step (M : gmap string mem_msg) (o : store_op) (a : answer) (M' : gmap string mem_msg) : Prop :=
  match o with
  | OpInsert cid sid content id ct st sq now =>
      let m := fill_msg id cid sid content ct st sq now in
      a = Rc 0 /\ exists M0, one_lost M M0 /\ M' = <[mm_msg_id m := m]> M0
  | OpFindByConv cid lo hi =>
      M' = M /\ exists l, l ≡ₚ filter (fun m => mm_conversation_id m = cid /\ in_range lo hi m = true) (map_to_list M).*2 /\
        a = Json 0 ("["%char :: join_items true l ++ ["]"%char])
  | OpFindOne id => M' = M /\ a = Json 0 (match M !! id with Some m => msg_text m 2048 | None => str "{}" end)
  | OpUpdateStatus id z => a = Rc 0 /\ M' = alter (set_status z) id M
  | OpDelete id => a = Rc 0 /\ M' = delete id M
  | OpPurge t => M' = drop_where (fun m => mm_send_time m <? t) M /\ a = Rc (Z.of_nat (size M) - Z.of_nat (size M'))
  | OpClearUser u => M' = drop_where (fun m => streq (mm_sender_id m) u) M /\ a = Rc (Z.of_nat (size M) - Z.of_nat (size M'))
  | OpCount => M' = M /\ a = Rc (Z.of_nat (size M))
  end.

(** ** Each operation *)

(** The invariant, the representation, and no database. *)
Definition shows (s : msg_store) (M : gmap string mem_msg) : Prop :=
  store_ok s /\ represents (ms_mem s) M /\ ms_enabled s = false.

Lemma shows_size s M : shows s M -> Z.of_nat (size M) = ms_mem_count s.
Proof.
  intros ([B _] & R & _). rewrite (bo_count _ B). f_equal. by apply rep_size; [|apply (bo_distinct _ B)].
Qed.

Lemma shows_free s M : shows s M -> (ms_free_stack s = [] <-> MK_MSG_MEM_CAP <= Z.of_nat (size M)).
Proof.
  intros S. pose proof (shows_size s M S) as E. destruct S as ([B _] & _). rewrite (bo_count _ B) in E.
  pose proof (slots_length s B). destruct (ms_free_stack s); cbn [length] in *; split; intros; try done; lia.
Qed.

(** The slot an insert takes, and the store before it is taken. *)
Lemma alloc_ok s M :
  shows s M ->
  exists slot s1 M1 free n, mem_alloc_slot s = Some (slot, set_mem s1 slot (MemMsg "" "" "" "" 0 0 0 0 true) (ms_mem_count s1 + 1) free, n) /\
    shows s1 M1 /\ one_lost M M1 /\ ms_free_stack s1 = slot :: free /\
    (match ms_free_stack s with
     | [] => free = [] /\ slot = ms_evict_cursor s /\ ms_evict_cursor s1 = (slot + 1) mod MK_MSG_MEM_CAP /\
             ms_mem s1 = <[slot := clear_used (mem_at (ms_mem s) slot)]> (ms_mem s) /\
             M1 = delete (mm_msg_id (mem_at (ms_mem s) slot)) M
     | x :: _ => slot = x /\ s1 = s /\ M1 = M
     end).
Proof.
  intros S. pose proof (shows_free s M S) as Hf. destruct S as (O & R & En). unfold mem_alloc_slot, one_lost.
  destruct (ms_free_stack s) as [|slot free] eqn:Ef.
  - destruct (evict_slot_ok s O Ef) as (s1 & n & E & O1 & Hu & Em & Efree & Ec & Een). rewrite E, Efree.
    set (cur := ms_evict_cursor s) in *. set (x := mm_msg_id (mem_at (ms_mem s) cur)).
    assert (ids s !! cur = Some x) as Hid by (by apply used_by_Some).
    exists cur, s1, (delete x M), [], n. split_and!; try done.
    + split_and!; [done| |by rewrite Een]. rewrite Em. apply rep_freed; [done|apply (bo_distinct _ (proj1 O))|done|done].
    + destruct (Z.ltb_spec (Z.of_nat (size M)) MK_MSG_MEM_CAP); [pose proof (proj1 Hf eq_refl); lia|].
      exists x. split; [|done]. rewrite (rep_id _ _ R _ _ Hid). eauto.
  - exists slot, s, M, free, None. rewrite Ef. split_and!; try done.
    destruct (Z.ltb_spec (Z.of_nat (size M)) MK_MSG_MEM_CAP); [done|]. pose proof (proj2 Hf H). done.
Qed.

Lemma one_lost_fresh M M0 x : one_lost M M0 -> M !! x = None -> M0 !! x = None.
Proof. unfold one_lost. case_match; [by intros ->|]. intros (y & _ & ->) Hx. apply lookup_delete_None. by right. Qed.

Lemma insert_ok s M cid sid content id ct st sq now :
  shows s M -> nonempty cid = true -> M !! strn 63 id = None ->
  let m := fill_msg id cid sid content ct st sq now in
  exists n s' M0 slot s1 free,
    miku_msg_store_insert s (Some cid) (Some sid) ct (Some content) st sq id now = Some (Rc 0, n, s') /\
    one_lost M M0 /\ shows s' (<[mm_msg_id m := m]> M0) /\
    ms_mem s' = <[slot:=m]> (ms_mem s1) /\ ms_free_stack s' = free /\ ms_evict_cursor s' = ms_evict_cursor s1 /\
    ms_free_stack s1 = slot :: free /\
    (match ms_free_stack s with
     | [] => free = [] /\ slot = ms_evict_cursor s /\ ms_evict_cursor s1 = (slot + 1) mod MK_MSG_MEM_CAP /\
             ms_mem s1 = <[slot := clear_used (mem_at (ms_mem s) slot)]> (ms_mem s) /\
             M0 = delete (mm_msg_id (mem_at (ms_mem s) slot)) M
     | x :: _ => slot = x /\ s1 = s /\ M0 = M
     end).
Proof.
  intros S Hne Hfresh m. destruct (alloc_ok s M S) as (slot & s1 & M0 & free & n & E & S1 & Hl & Ef & Hs).
  unfold miku_msg_store_insert. rewrite E. cbn [mbind option_bind]. destruct S as (_ & _ & ->). cbn [negb].
  destruct S1 as (O1 & R1 & En1). assert (M0 !! mm_msg_id m = None) as Hf0 by (by eapply one_lost_fresh).
  assert (nonempty (mm_conversation_id m) = true) as Hc by (by destruct cid).
  destruct (place_ok s1 slot free m (MemMsg "" "" "" "" 0 0 0 0 true) O1 Ef eq_refl Hc (rep_fresh _ _ R1 _ Hf0)) as (O2 & Em & E2 & E3 & E4).
  set (s' := place _ _ _) in *. exists n, s', M0, slot, s1, free. split; [reflexivity|]. clearbody s'.
  split; [done|]. split; [|by split_and!]. split_and!; [exact O2| |by rewrite E4]. assert (ids s1 !! slot = None) as Hn by (apply slots_free; [apply O1|rewrite Ef; by left]).
  rewrite Em. by apply rep_taken.
Qed.

Lemma find_one_ok s M id :
  shows s M -> miku_msg_store_find_one s (Some id) =
    Json 0 (match M !! id with Some m => msg_text m 2048 | None => str "{}" end).
Proof.
  intros ([B _] & R & En). unfold miku_msg_store_find_one. rewrite En.
  destruct (mem_find_ok s id B) as [[-> Hn]|[Hi H0]].
  - destruct (M !! id) as [m|] eqn:Em; [exfalso|done]. apply (rep_slot _ _ R) in Em as (i & Ha & _ & Hu & Hx).
    apply (Hn i), used_by_Some. by rewrite Ha.
  - destruct (Z.ltb_spec (mem_find s id) 0); [lia|]. rewrite (rep_id _ _ R _ _ Hi). rewrite snprintf_fits; [done|].
    pose proof (msg_text_length (mem_at (ms_mem s) (mem_find s id)) 2048 ltac:(lia)). lia.
Qed.

Lemma alter_missing {A} (f : A -> A) (M : gmap string A) x : M !! x = None -> alter f x M = M.
Proof. intros H. apply map_eq. intros y. destruct (decide (x = y)) as [<-|]; [by rewrite lookup_alter_eq, H|by rewrite lookup_alter_ne]. Qed.

Lemma not_found s M id : shows s M -> (forall i, ids s !! i <> Some id) -> M !! id = None.
Proof.
  intros (_ & R & _) Hn. destruct (M !! id) as [m|] eqn:Em; [exfalso|done].
  apply (rep_slot _ _ R) in Em as (i & Ha & _ & Hu & Hx). apply (Hn i), used_by_Some. by rewrite Ha.
Qed.

(** A message changed in place keeps the invariant. *)
Lemma changed_ok s slot m :
  store_ok s -> mm_used (mem_at (ms_mem s) slot) = true -> mm_used m = true ->
  mm_msg_id m = mm_msg_id (mem_at (ms_mem s) slot) ->
  mm_conversation_id m = mm_conversation_id (mem_at (ms_mem s) slot) ->
  store_ok (set_mem s slot m (ms_mem_count s) (ms_free_stack s)).
Proof.
  intros [[] [ch C]] Hu Hm Hid Hc. set (s' := set_mem _ _ _ _ _).
  assert (ids s' = ids s) as Ei.
  { unfold ids, s'. cbn [ms_mem set_mem]. rewrite used_by_taken, Hid by done. apply insert_id. by apply used_by_Some. }
  assert (convs s' = convs s) as Ec.
  { unfold convs, s'. cbn [ms_mem set_mem]. rewrite used_by_taken, Hc by done. apply insert_id. by apply used_by_Some. }
  split; [split; rewrite ?Ei, ?Ec; done|]. exists ch. unfold conv_chains. rewrite Ec. done.
Qed.

Lemma update_status_ok s M id z :
  shows s M -> exists s', miku_msg_store_update_status s (Some id) z = (Rc 0, s') /\ shows s' (alter (set_status z) id M).
Proof.
  intros S. pose proof S as (O & R & En). unfold miku_msg_store_update_status. rewrite En. cbn [negb].
  eexists. split; [reflexivity|]. destruct (mem_find_ok s id (proj1 O)) as [[-> Hn]|[Hi H0]].
  - cbn [Z.ltb Z.compare]. rewrite alter_missing; [done|]. by apply (not_found s).
  - destruct (Z.ltb_spec (mem_find s id) 0); [lia|]. set (slot := mem_find s id) in *.
    apply used_by_Some in Hi as [Hu Hx]. split_and!; [|cbn [ms_mem set_mem]|done].
    + by apply changed_ok.
    + rewrite <- Hx. apply rep_changed; [done|apply (bo_distinct _ (proj1 O))|done|done].
Qed.

Lemma delete_ok s M id :
  shows s M -> exists s', miku_msg_store_delete s (Some id) = (Rc 0, s') /\ shows s' (delete id M).
Proof.
  intros S. pose proof S as (O & R & En). unfold miku_msg_store_delete. rewrite En. cbn [negb].
  eexists. split; [reflexivity|]. destruct (mem_find_ok s id (proj1 O)) as [[-> Hn]|[Hi H0]].
  - cbn [Z.ltb Z.compare]. rewrite delete_id; [done|]. by apply (not_found s).
  - destruct (Z.ltb_spec (mem_find s id) 0); [lia|]. set (slot := mem_find s id) in *.
    pose proof Hi as [Hu Hx]%used_by_Some. destruct (free_slot_ok s slot O Hu) as (O1 & E1 & E2). split_and!; [done| |].
    + rewrite E1. apply rep_freed; [done|apply (bo_distinct _ (proj1 O))|done|done].
    + unfold mem_free_slot, mem_free_slot_raw, conv_unlink. repeat case_match; done.
Qed.

(** ** Bulk removal *)

Section Remove.
Context (p : mem_msg -> bool).

(** The memory after the slots below [i] have been visited. *)
Definition swept (i : Z) (mem mem' : gmap Z mem_msg) : Prop := forall j,
  mem' !! j = (fun m => if (j <? i) && mm_used m && p m then clear_used m else m) <$> mem !! j.

Lemma swept_0 s : base_ok s -> swept 0 (ms_mem s) (ms_mem s).
Proof.
  intros B j. destruct (ms_mem s !! j) as [m|] eqn:Ej; [|done]. cbn. destruct (Z.ltb_spec j 0); [|done].
  destruct (mm_used m) eqn:Hu; [|done]. assert (mm_used (mem_at (ms_mem s) j) = true) as Hj by (unfold mem_at; by rewrite Ej).
  apply slots_bound in Hj; [lia|done].
Qed.

Lemma swept_step mem mem' i :
  swept i mem mem' ->
  swept (i + 1) mem (if mm_used (mem_at mem' i) && p (mem_at mem' i) then <[i := clear_used (mem_at mem' i)]> mem' else mem').
Proof.
  intros W. assert (mem_at mem' i = mem_at mem i) as Ei.
  { unfold mem_at. rewrite (W i), Z.ltb_irrefl. cbn. by destruct (mem !! i). }
  rewrite Ei. intros j. destruct (decide (j = i)) as [->|Hne].
  - rewrite (proj2 (Z.ltb_lt i (i + 1))) by lia. cbn [andb]. unfold mem_at. pose proof (W i) as Wi. rewrite Z.ltb_irrefl in Wi. cbn in Wi.
    destruct (mem !! i) as [m|]; cbn in Wi |- *; [|by rewrite Wi]. case_match; [by rewrite lookup_insert_eq|by rewrite Wi].
  - replace (j <? i + 1) with (j <? i) by (repeat bool_case; lia). rewrite <- (W j).
    case_match; [by rewrite lookup_insert_ne|done].
Qed.

Lemma swept_represents s M mem' :
  base_ok s -> represents (ms_mem s) M -> swept MK_MSG_MEM_CAP (ms_mem s) mem' -> represents mem' (drop_where p M).
Proof.
  intros B R W x m. unfold drop_where. rewrite map_lookup_filter_Some. cbn. split.
  - intros [(i & Hi & Hu & Hx)%R Hp]. exists i. split_and!; try done. rewrite (W i), Hi. cbn. rewrite Hp, andb_false_r. done.
  - intros (i & Hi & Hu & Hx). rewrite (W i) in Hi. destruct (ms_mem s !! i) as [m0|] eqn:E0; [|done]. cbn in Hi.
    destruct ((i <? MK_MSG_MEM_CAP) && mm_used m0 && p m0) eqn:Ec; simplify_eq.
    assert (mm_used (mem_at (ms_mem s) i) = true) as Hm by (unfold mem_at; by rewrite E0).
    apply slots_bound in Hm; [|done]. destruct (Z.ltb_spec i MK_MSG_MEM_CAP); [|lia]. rewrite Hu in Ec. cbn in Ec.
    split; [|done]. apply R. by exists i.
Qed.

Lemma remove_where_ok s M :
  shows s M -> exists s', remove_where p s = (Z.of_nat (size M) - Z.of_nat (size (drop_where p M)), s') /\
    shows s' (drop_where p M).
Proof.
  intros S. pose proof S as (O & R & En). unfold remove_where.
  set (loop := for_range _ _ _).
  assert (exists n s1, loop = (n, s1) /\ base_ok s1 /\ swept MK_MSG_MEM_CAP (ms_mem s) (ms_mem s1) /\
    ms_mem_count s1 + n = ms_mem_count s /\ 0 <= n /\ (n = 0 -> s1 = s) /\ ms_enabled s1 = false) as (n & s1 & -> & B1 & W & Hn & H0 & Hz & En1).
  { apply (for_range_ind (fun i (acc : Z * msg_store) => exists n s1, acc = (n, s1) /\ base_ok s1 /\ swept i (ms_mem s) (ms_mem s1) /\
      ms_mem_count s1 + n = ms_mem_count s /\ 0 <= n /\ (n = 0 -> s1 = s) /\ ms_enabled s1 = false)); [done| |].
    - exists 0, s. split_and!; try done; [apply O|apply swept_0, O|lia].
    - intros i acc Hi (n & s1 & -> & B1 & W & Hn & H0 & Hz & En1). cbn [fst snd].
      pose proof (swept_step _ _ i W) as W'. destruct (mm_used (mem_at (ms_mem s1) i) && p (mem_at (ms_mem s1) i)) eqn:Ep.
      + apply andb_true_iff in Ep as [Hu Hp]. destruct (free_raw_ok s1 i B1 Hu) as (B2 & E1 & _).
        exists (n + 1), (mem_free_slot_raw s1 i). split_and!; try done; try lia.
        * by rewrite E1.
        * rewrite (bo_count _ B2), (bo_count _ B1) in *. unfold ids. rewrite E1, used_by_freed by done.
          fold (ids s1). assert (is_Some (ids s1 !! i)) as Hi1 by (by apply used_by_is_Some).
          rewrite map_size_delete. destruct Hi1 as [x Hx]. rewrite Hx.
          assert (size (ids s1) <> 0)%nat by (intros E0%map_size_empty_iff; rewrite E0, lookup_empty in Hx; done). lia.
        * unfold mem_free_slot_raw. by repeat case_match.
      + exists n, s1. by split_and!. }
  pose proof (swept_represents s M _ (proj1 O) R W) as R1.
  assert (n = Z.of_nat (size M) - Z.of_nat (size (drop_where p M))) as En'.
  { rewrite (shows_size s M S), (rep_size _ _ R1 (bo_distinct _ B1)). rewrite (bo_count _ B1) in Hn. unfold ids in Hn. lia. }
  rewrite <- En'. eexists. split; [reflexivity|]. destruct (Z.eqb_spec n 0) as [E0|].
  - specialize (Hz E0). subst s1. by split_and!.
  - destruct (rebuild_ok s1 B1) as (hd & nx & -> & O2). by split_and!.
Qed.
End Remove.

(** ** Listings against the reference *)

Lemma chain_messages s M ch cid :
  shows s M -> conv_chains s ch ->
  mem_at (ms_mem s) <$> ch cid ≡ₚ filter (fun m => mm_conversation_id m = cid) (map_to_list M).*2.
Proof.
  intros ([B _] & R & _) C. apply NoDup_Permutation.
  - apply NoDup_fmap_2_strong; [|apply (sc_nodup _ _ _ _ _ _ C)]. intros i j Hi Hj E.
    apply (sc_mem _ _ _ _ _ _ C), used_by_Some in Hi as [Hi _], Hj as [Hj _].
    apply (bo_distinct _ B) with (mm_msg_id (mem_at (ms_mem s) i)); apply used_by_Some; by rewrite ?E.
  - apply list.NoDup_filter, NoDup_fmap_2_strong; [|apply NoDup_map_to_list].
    intros [x m] [y m'] Hx%elem_of_map_to_list Hy%elem_of_map_to_list E. cbn in E. subst m'.
    apply (rep_slot _ _ R) in Hx as (_ & _ & _ & _ & <-), Hy as (_ & _ & _ & _ & <-). done.
  - intros m. rewrite list_elem_of_filter, !list_elem_of_fmap. split.
    + intros (i & -> & Hi). apply (sc_mem _ _ _ _ _ _ C), used_by_Some in Hi as [Hu Hc]. split; [done|].
      exists (mm_msg_id (mem_at (ms_mem s) i), mem_at (ms_mem s) i). split; [done|]. by apply elem_of_map_to_list, rep_at.
    + intros [Hc ([x m'] & -> & Hx%elem_of_map_to_list)]. cbn in *. apply (rep_slot _ _ R) in Hx as (i & Ha & _ & Hu & _).
      exists i. split; [done|]. apply (sc_mem _ _ _ _ _ _ C), used_by_Some. by rewrite Ha.
Qed.

Lemma find_by_conv_ok s M cid lo hi :
  shows s M -> exists l,
    l ≡ₚ filter (fun m => mm_conversation_id m = cid /\ in_range lo hi m = true) (map_to_list M).*2 /\
    miku_msg_store_find_by_conv s (Some cid) lo hi = Some (Json 0 ("["%char :: join_items true l ++ ["]"%char])).
Proof.
  intros S. pose proof S as ([B [ch C]] & R & En). unfold miku_msg_store_find_by_conv. rewrite En.
  assert (chain_walk (Datatypes.S (Z.to_nat MK_MSG_MEM_CAP)) (ms_conv_next s) (conv_head s cid) = ch cid) as ->.
  { rewrite <- (chains_walk _ conv_bucket_bound _ cap_lt_conv C cid). unfold conv_head, scan_find.
    by rewrite (scan_ext _ _ (smatch (convs s) cid)) by (intros; apply conv_test_smatch). }
  destruct (list_items_ok (ms_mem s) lo hi (ch cid) ["["%char] 4096 true) as (cap' & first' & L & E); [|done|done|].
  { apply list.Forall_forall. intros i Hi%(sc_mem _ _ _ _ _ _ C). by apply used_by_Some in Hi as [? _]. }
  unfold text in *. rewrite E. cbn [mbind option_bind]. destruct (Z.ltb_spec cap' (tlen (["["%char] ++ join_items true (filter (fun m => in_range lo hi m = true) (mem_at (ms_mem s) <$> ch cid))) + 2)); [lia|].
  eexists. split; [|reflexivity]. rewrite (chain_messages s M ch cid S C).
  rewrite list_filter_filter. assert (forall a b : list mem_msg, a = b -> a ≡ₚ b) as Heq by (by intros ? ? ->).
  apply Heq, list_filter_iff. intros m. tauto.
Qed.

(** ** Refinement *)

Definition op_fits (o : store_op) : Prop :=
  match o with OpInsert cid _ _ _ _ _ _ _ => nonempty cid = true | _ => True end.

(** The ids that a sequence of calls draws. *)
Definition drawn (o : store_op) : list string :=
  match o with OpInsert _ _ _ id _ _ _ _ => [strn 63 id] | _ => [] end.

Fixpoint run_store (s : msg_store) (ops : list store_op) : option (list answer * msg_store) :=
  match ops with
  | [] => Some ([], s)
  | o :: ops => '(a, s1) ← store_step s o; '(l, s2) ← run_store s1 ops; Some (a :: l, s2)
  end.

Inductive ref_run : gmap string mem_msg -> list store_op -> list answer -> gmap string mem_msg -> Prop :=
  | ref_nil M : ref_run M [] [] M
  | ref_cons M o a M1 ops l M2 : ref_step M o a M1 -> ref_run M1 ops l M2 -> ref_run M (o :: ops) (a :: l) M2.

Lemma store_step_ok s M o :
  shows s M -> op_fits o -> (forall x, x ∈ drawn o -> M !! x = None) ->
  exists a s' M', store_step s o = Some (a, s') /\ ref_step M o a M' /\ shows s' M' /\
    (forall x, M !! x = None -> x ∉ drawn o -> M' !! x = None).
Proof.
  intros S Hf Hd. destruct o as [cid sid content id ct st sq now|cid lo hi|id|id z|id|t|u|]; cbn [store_step drawn op_fits ref_step] in *.
  - destruct (insert_ok s M cid sid content id ct st sq now S Hf (Hd _ ltac:(by left))) as (n & s' & M0 & _ & _ & _ & -> & Hl & S' & _).
    eexists _, s', _. split; [reflexivity|]. split; [split; [done|by exists M0]|]. split; [done|].
    intros x Hx Hn. rewrite lookup_insert_ne; [by eapply one_lost_fresh|]. intros <-. apply Hn. by left.
  - destruct (find_by_conv_ok s M cid lo hi S) as (l & Hl & ->). eexists _, s, M. split; [reflexivity|].
    exact (conj (conj eq_refl (ex_intro _ l (conj Hl eq_refl))) (conj S (fun x Hx _ => Hx))).
  - eexists _, s, M. split; [reflexivity|]. exact (conj (conj eq_refl (find_one_ok s M id S)) (conj S (fun x Hx _ => Hx))).
  - destruct (update_status_ok s M id z S) as (s' & -> & S'). eexists _, s', _. split; [reflexivity|].
    split; [by split|]. split; [exact S'|]. intros x Hx _. by rewrite lookup_alter_None.
  - destruct (delete_ok s M id S) as (s' & -> & S'). eexists _, s', _. split; [reflexivity|].
    split; [by split|]. split; [exact S'|]. intros x Hx _. apply lookup_delete_None. by right.
  - destruct (remove_where_ok (fun m => mm_send_time m <? t) s M S) as (s' & E & S'). unfold miku_msg_store_purge_older_than. rewrite E.
    eexists _, s', _. split; [reflexivity|]. split; [by split|]. split; [exact S'|].
    intros x Hx _. apply map_lookup_filter_None. by left.
  - destruct (remove_where_ok (fun m => streq (mm_sender_id m) u) s M S) as (s' & E & S'). unfold miku_msg_store_clear_user. rewrite E.
    eexists _, s', _. split; [reflexivity|]. split; [by split|]. split; [exact S'|].
    intros x Hx _. apply map_lookup_filter_None. by left.
  - eexists _, s, M. split; [reflexivity|]. rewrite (shows_size s M S). exact (conj (conj eq_refl eq_refl) (conj S (fun x Hx _ => Hx))).
Qed.

Lemma run_store_ok ops : forall s M,
  shows s M -> Forall op_fits ops -> NoDup (concat (drawn <$> ops)) -> (forall x, x ∈ concat (drawn <$> ops) -> M !! x = None) ->
  exists l s' M', run_store s ops = Some (l, s') /\ ref_run M ops l M' /\ shows s' M'.
Proof.
  induction ops as [|o ops IH]; intros s M S Hf Hnd Hd; [by exists [], s, M; split_and!; [|constructor|]|].
  apply list.Forall_cons in Hf as [Hfo Hf]. cbn [fmap list_fmap concat] in Hnd, Hd.
  apply list.NoDup_app in Hnd as (_ & Hdis & Hnd).
  destruct (store_step_ok s M o S Hfo) as (a & s1 & M1 & E & Hr & S1 & Hk); [intros x Hx; apply Hd, elem_of_app; by left|].
  destruct (IH s1 M1 S1 Hf Hnd) as (l & s2 & M2 & E2 & Hr2 & S2).
  { intros x Hx. apply Hk; [apply Hd, elem_of_app; by right|]. intros Ho. by apply (Hdis x). }
  exists (a :: l), s2, M2. cbn [run_store]. rewrite E. cbn [mbind option_bind]. rewrite E2. cbn [mbind option_bind].
  split_and!; [done|by econstructor|done].
Qed.

Lemma ids_create : ids (miku_msg_store_create false) = ∅.
Proof. apply omap_empty. Qed.

Lemma create_shows : shows (miku_msg_store_create false) ∅.
Proof.
  assert (convs (miku_msg_store_create false) = ∅) as Ec by apply omap_empty.
  split_and!; [|apply rep_empty|done]. split; [split|].
  - rewrite ids_create, map_to_list_empty. by rewrite app_nil_r.
  - by rewrite ids_create, map_size_empty.
  - intros i j x. by rewrite ids_create, lookup_empty.
  - eapply indexed_ext; [| |apply (indexed_empty (shome id_bucket ∅))]; [|done]. intros v. rewrite ids_create, lookup_empty.
    split; [done|by intros []].
  - intros i c. by rewrite Ec, lookup_empty.
  - done.
  - exists (fun _ => []). unfold conv_chains. rewrite Ec. apply chains_empty.
Qed.

(** C38: the message store is the finite map of its reference, for every
    sequence of inserts, lookups by id and by conversation, status updates,
    deletes, purges, user clears and counts, when the drawn ids are distinct
    and conversations have names: every call answers what the reference
    answers, a listing holds each message of the conversation in the range
    once, only an insert into a full store loses a message, and no call runs
    past a buffer or the free stack. *)
Theorem msg_store_refines ops :
  Forall op_fits ops -> NoDup (concat (drawn <$> ops)) ->
  exists l s M, run_store (miku_msg_store_create false) ops = Some (l, s) /\ ref_run ∅ ops l M /\ represents (ms_mem s) M.
Proof.
  intros Hf Hnd. destruct (run_store_ok ops _ _ create_shows Hf Hnd) as (l & s & M & E & Hr & _ & R & _); [done|].
  by exists l, s, M.
Qed.

(** ** The ring *)

Record insert_args := InsertArgs {
  ia_cid : string; ia_sid : string; ia_content : string; ia_id : string;
  ia_type : Z; ia_time : Z; ia_seq : Z; ia_now : Z }.

Definition args_op (a : insert_args) : store_op :=
  OpInsert (ia_cid a) (ia_sid a) (ia_content a) (ia_id a) (ia_type a) (ia_time a) (ia_seq a) (ia_now a).

Definition args_msg (a : insert_args) : mem_msg :=
  fill_msg (ia_id a) (ia_cid a) (ia_sid a) (ia_content a) (ia_type a) (ia_time a) (ia_seq a) (ia_now a).

Definition last_n {A} (n : nat) (l : list A) : list A := drop (length l - n) l.

Definition msg_map (l : list mem_msg) : gmap string mem_msg := kmap mm_msg_id (fun m => m) l.

(** After the messages of [l] were inserted: message [j] of the last 8192 is
    in slot [j mod 8192]. *)
Record ring (s : msg_store) (l : list mem_msg) : Prop := {
  rg_shows : shows s (msg_map (last_n CAPN l));
  rg_free : ms_free_stack s = seqZ (Z.of_nat (length l)) (MK_MSG_MEM_CAP - Z.of_nat (length l));
  rg_cursor : ms_evict_cursor s = (if Z.of_nat (length l) <=? MK_MSG_MEM_CAP then 0
                                   else (Z.of_nat (length l) - MK_MSG_MEM_CAP) mod MK_MSG_MEM_CAP);
  rg_slot : forall j m, Z.of_nat (length l) - MK_MSG_MEM_CAP <= j -> at_ l j = Some m -> ms_mem s !! (j mod MK_MSG_MEM_CAP) = Some m }.

Lemma last_n_short {A} n (l : list A) : (length l <= n)%nat -> last_n n l = l.
Proof. intros H. unfold last_n. by replace (length l - n)%nat with 0%nat by lia. Qed.

(** Beyond [n] elements the oldest one goes. *)
Lemma last_n_full {A} n (l : list A) x :
  (0 < n <= length l)%nat ->
  exists y t, last_n n l = y :: t /\ last_n n (l ++ [x]) = t ++ [x] /\ l !! (length l - n)%nat = Some y.
Proof.
  intros H. destruct (lookup_lt_is_Some_2 l (length l - n)%nat ltac:(lia)) as [y Hy].
  exists y, (drop (S (length l - n)) l). unfold last_n. split_and!; [by apply drop_S| |done].
  rewrite length_app. cbn. replace (length l + 1 - n)%nat with (S (length l - n)) by lia. apply drop_app_le. lia.
Qed.

Lemma ring_free_nil l : seqZ (Z.of_nat l) (MK_MSG_MEM_CAP - Z.of_nat l) = [] <-> MK_MSG_MEM_CAP <= Z.of_nat l.
Proof.
  split; intros H; [|by rewrite seqZ_nil by lia].
  destruct (Z_le_gt_dec MK_MSG_MEM_CAP (Z.of_nat l)); [done|]. by rewrite seqZ_cons in H by lia.
Qed.

Lemma at_app_cases {A} (l : list A) x j y :
  at_ (l ++ [x]) j = Some y -> (j = Z.of_nat (length l) /\ y = x) \/ (j < Z.of_nat (length l) /\ at_ l j = Some y).
Proof.
  intros H. pose proof (at_lt _ _ _ H) as L. rewrite length_app in L. cbn in L.
  destruct (decide (j = Z.of_nat (length l))) as [->|]; [left; rewrite at_snoc in H; by simplify_eq|right].
  split; [lia|]. by rewrite at_app_l in H by lia.
Qed.

Lemma mod_near i j n : 0 < n -> i mod n = j mod n -> - n < i - j < n -> i = j.
Proof.
  intros Hn E H. assert ((i - j) mod n = 0) as E2 by (rewrite Zminus_mod, E, Z.sub_diag; apply Z.mod_0_l; lia).
  apply Z.mod_divide in E2 as [c Hc]; [|lia].
  assert (-1 < c < 1) by (split; nia). assert (c = 0) as -> by lia. lia.
Qed.

(** The new message goes to the slot of its number; the others stay. *)
Lemma ring_put (mem : gmap Z mem_msg) l m :
  let k := Z.of_nat (length l) in
  (forall j y, k + 1 - MK_MSG_MEM_CAP <= j -> at_ l j = Some y -> mem !! (j mod MK_MSG_MEM_CAP) = Some y) ->
  forall j y, k + 1 - MK_MSG_MEM_CAP <= j -> at_ (l ++ [m]) j = Some y ->
    <[k mod MK_MSG_MEM_CAP := m]> mem !! (j mod MK_MSG_MEM_CAP) = Some y.
Proof.
  intros k H0 j y Hj [[-> ->]|[Hlt Hy]]%at_app_cases; [by rewrite lookup_insert_eq|]. fold k in Hlt.
  rewrite lookup_insert_ne; [by apply H0|]. apply at_lt in Hy. intros C. apply mod_near in C; [lia|done|lia].
Qed.

Lemma last_n_fresh l x : x ∉ mm_msg_id <$> l -> msg_map (last_n CAPN l) !! x = None.
Proof.
  intros Hx. apply kmap_None. intros Hin. apply Hx.
  apply (elem_of_sublist (mm_msg_id <$> last_n CAPN l)); [done|]. apply fmap_sublist, sublist_drop.
Qed.

Lemma ring_step s l a :
  ring s l -> nonempty (ia_cid a) = true -> mm_msg_id (args_msg a) ∉ mm_msg_id <$> l -> NoDup (mm_msg_id <$> l) ->
  exists ans s', store_step s (args_op a) = Some (ans, s') /\ ans = Rc 0 /\ ring s' (l ++ [args_msg a]).
Proof.
  intros [S Ef Ec Hs] Hne Hfr Hnd. set (m := args_msg a). remember (Z.of_nat (length l)) as k eqn:Hk.
  assert (msg_map (last_n CAPN l) !! strn 63 (ia_id a) = None) as Hn by (by apply (last_n_fresh l (mm_msg_id m))).
  destruct (insert_ok s _ (ia_cid a) (ia_sid a) (ia_content a) (ia_id a) (ia_type a) (ia_time a) (ia_seq a) (ia_now a) S Hne Hn)
    as (n & s' & M0 & slot & s1 & free & E & _ & S' & Em & Efree & Ecur & Ef1 & Hcase).
  fold (args_msg a) in S', Em. fold m in S', Em.
  assert (Z.of_nat (length (l ++ [m])) = k + 1) as Ek by (rewrite length_app; cbn; lia).
  exists (Rc 0), s'. split; [cbn [store_step args_op]; by rewrite E|]. split; [done|]. clear E. rewrite Ef in Hcase.
  assert (Z.of_nat CAPN = MK_MSG_MEM_CAP) as Ecap by done. assert (0 < MK_MSG_MEM_CAP) as Hpos by done.
  assert (forall mem0 : gmap Z mem_msg, (forall j y, k + 1 - MK_MSG_MEM_CAP <= j -> at_ l j = Some y -> mem0 !! (j mod MK_MSG_MEM_CAP) = Some y) ->
    slot = k mod MK_MSG_MEM_CAP -> forall j y, k + 1 - MK_MSG_MEM_CAP <= j -> at_ (l ++ [m]) j = Some y ->
      <[slot:=m]> mem0 !! (j mod MK_MSG_MEM_CAP) = Some y) as Hput by (intros mem0 H0 ->; rewrite Hk in *; by apply ring_put).
  destruct (seqZ k (MK_MSG_MEM_CAP - k)) as [|x rest] eqn:Eseq.
  - assert (MK_MSG_MEM_CAP <= k) as Hfull by (rewrite Hk in Eseq |- *; by apply ring_free_nil). destruct Hcase as (-> & -> & Ecur1 & Em1 & ->).
    assert (ms_evict_cursor s = k mod MK_MSG_MEM_CAP) as Esl.
    { rewrite Ec. destruct (Z.leb_spec k MK_MSG_MEM_CAP) as [Hle|]; [assert (k = MK_MSG_MEM_CAP) as -> by lia; by rewrite Z.mod_same|].
      rewrite <- (Z.mod_add k (-1) MK_MSG_MEM_CAP) by lia. f_equal; lia. }
    assert (0 < CAPN <= length l)%nat as Hlen by lia. destruct (last_n_full CAPN l m Hlen) as (y & t & E1 & E2 & Hy).
    assert (ms_mem s !! ms_evict_cursor s = Some y) as Hslot.
    { rewrite Esl, <- (Z.mod_add k (-1) MK_MSG_MEM_CAP) by lia. apply Hs; [lia|]. apply at_Some. split; [lia|].
      rewrite <- Hy. f_equal; lia. }
    split.
    + rewrite E2. rewrite E1 in S', S, Hn. unfold mem_at in S'. rewrite Hslot in S'. cbn [default] in S'.
      assert (NoDup (mm_msg_id <$> [] ++ y :: t)) as Hnd'.
      { cbn [app]. rewrite <- E1. unfold last_n. apply (sublist_NoDup _ (mm_msg_id <$> l)); [done|]. apply fmap_sublist, sublist_drop. }
      assert (mm_msg_id m ∉ mm_msg_id <$> t) as Hmt.
      { intros Hin. apply Hfr. apply (elem_of_sublist (mm_msg_id <$> last_n CAPN l)); [|apply fmap_sublist, sublist_drop].
        rewrite E1. cbn. by right. }
      unfold msg_map in *. rewrite (kmap_snoc _ _ t m Hmt). rewrite (kmap_remove mm_msg_id (fun m => m) [] y t Hnd'). exact S'.
    + rewrite Efree, Ek. rewrite seqZ_nil by lia. done.
    + rewrite Ecur, Ecur1, Ek, Esl. destruct (Z.leb_spec (k + 1) MK_MSG_MEM_CAP); [lia|].
      rewrite Z.add_mod_idemp_l by lia. rewrite <- (Z.mod_add (k + 1) (-1) MK_MSG_MEM_CAP) by lia. f_equal; lia.
    + rewrite Em, Ek. apply Hput; [|done]. intros j z Hj Hz. rewrite Em1, lookup_insert_ne; [apply Hs; [lia|done]|].
      rewrite Esl. intros C. apply at_lt in Hz. apply mod_near in C; [lia|done|lia].
  - destruct Hcase as (-> & -> & ->). assert (k < MK_MSG_MEM_CAP) as Hroom.
    { destruct (Z_lt_ge_dec k MK_MSG_MEM_CAP); [done|]. by rewrite seqZ_nil in Eseq by lia. }
    rewrite seqZ_cons in Eseq by lia. injection Eseq as <- <-. rewrite Ef in Ef1. injection Ef1 as <-. split.
    + rewrite last_n_short by (rewrite length_app; cbn; lia). rewrite last_n_short in S' by lia.
      unfold msg_map in *. by rewrite kmap_snoc.
    + rewrite Efree, Ek. f_equal; lia.
    + rewrite Ecur, Ek, Ec. repeat bool_case; try lia; done.
    + rewrite Em, Ek. apply Hput; [|by rewrite Z.mod_small by lia]. intros j z Hj Hz. apply Hs; [lia|done].
Qed.

Lemma ring_run al : forall s l,
  ring s l -> Forall (fun a => nonempty (ia_cid a) = true) al -> NoDup (mm_msg_id <$> l ++ (args_msg <$> al)) ->
  exists ans s', run_store s (args_op <$> al) = Some (ans, s') /\ Forall (eq (Rc 0)) ans /\ ring s' (l ++ (args_msg <$> al)).
Proof.
  induction al as [|a al IH]; intros s l Hr Hf Hnd; [exists [], s; cbn; by rewrite app_nil_r|].
  apply list.Forall_cons in Hf as [Ha Hf]. cbn [fmap list_fmap] in Hnd |- *.
  replace (l ++ args_msg a :: (args_msg <$> al)) with ((l ++ [args_msg a]) ++ (args_msg <$> al)) in * by (by rewrite <- app_assoc).
  pose proof Hnd as Hnd2. rewrite fmap_app, fmap_app in Hnd2. apply list.NoDup_app in Hnd2 as (Hnd2 & _ & _).
  apply list.NoDup_app in Hnd2 as (Hl & Hd & _).
  destruct (ring_step s l a Hr Ha) as (r & s1 & E & -> & Hr1); [|done|].
  { intros Hin. apply (Hd _ Hin). by left. }
  destruct (IH s1 _ Hr1 Hf Hnd) as (ans & s2 & E2 & Hans & Hr2). exists (Rc 0 :: ans), s2.
  cbn [run_store]. rewrite E. cbn [mbind option_bind].   rewrite E2. split_and!; [done|by constructor|done].
Qed.

(** A store that only takes inserts keeps exactly the last 8192 messages,
    however many were inserted: every insert succeeds, and once the slots are
    used up each one replaces the oldest message. *)
Theorem msg_ring_keeps_last al :
  Forall (fun a => nonempty (ia_cid a) = true) al -> NoDup (mm_msg_id <$> (args_msg <$> al)) ->
  exists ans s, run_store (miku_msg_store_create false) (args_op <$> al) = Some (ans, s) /\
    Forall (eq (Rc 0)) ans /\ represents (ms_mem s) (msg_map (last_n (Z.to_nat 8192) (args_msg <$> al))).
Proof.
  intros Hf Hnd. destruct (ring_run al (miku_msg_store_create false) []) as (ans & s & E & Ha & Hr); [|done|done|].
  - split; [apply create_shows|done|done|]. intros j m _ Hj. apply at_lt in Hj. cbn in Hj. lia.
  - exists ans, s. split_and!; [done|done|]. apply Hr.
Qed.

(** ** A stored message read back as JSON *)

(** Strings without NUL, numbers of 64 bits. *)
Definition clean (m : mem_msg) : Prop :=
  no_nul (mm_msg_id m) /\ no_nul (mm_conversation_id m) /\ no_nul (mm_sender_id m) /\ no_nul (mm_content m) /\
  Forall (fun z => LLONG_MIN <= z <= LLONG_MAX) [mm_content_type m; mm_send_time m; mm_seq m; mm_status m].

(** What the parser finds in the document of a message. *)
Definition msg_pairs (m : mem_msg) (k1 k2 k3 k4 : nat) : list (string * json) :=
  [("msgID", JStr (strn k1 (mm_msg_id m))); ("conversationID", JStr (strn k2 (mm_conversation_id m)));
   ("sendID", JStr (strn k3 (mm_sender_id m))); ("contentType", JInt (mm_content_type m)); ("content", JStr (strn k4 (mm_content m)));
   ("sendTime", JInt (mm_send_time m)); ("seq", JInt (mm_seq m)); ("status", JInt (mm_status m))]%string.

Lemma pair_reads_intro k t v : plain k -> reads t v -> pair_reads (k, t) (k, v).
Proof. intros H1 H2. exact (conj eq_refl (conj H1 H2)). Qed.

Lemma plain_bool k : bool_decide (NUL ∈ str k) = false -> bool_decide (esc1_text k = str k) = true -> plain k.
Proof. intros H1%bool_decide_eq_false H2%bool_decide_eq_true. by split. Qed.

Lemma msg_text_reads m cap :
  clean m -> 0 < cap ->
  exists v k1 k2 k3 k4, reads (msg_text m cap) v /\ obj_is v (list_to_map (msg_pairs m k1 k2 k3 k4)) /\
    (6 * Z.of_nat (String.length (mm_content m)) + 2 <= cap -> strn k4 (mm_content m) = mm_content m).
Proof.
  intros (H1 & H2 & H3 & H4 & H5) Hc. rewrite !list.Forall_cons in H5. destruct H5 as (I1 & I2 & I3 & I4 & _).
  destruct (esc_field_reads _ 128 H1 ltac:(lia)) as (k1 & R1 & _). destruct (esc_field_reads _ 256 H2 ltac:(lia)) as (k2 & R2 & _).
  destruct (esc_field_reads _ 128 H3 ltac:(lia)) as (k3 & R3 & _). destruct (esc_field_reads _ cap H4 Hc) as (k4 & R4 & F4).
  apply reads_int in I1, I2, I3, I4.
  destruct (raw_object_reads (msg_fields m cap) (msg_pairs m k1 k2 k3 k4)) as (v & R & O).
  - unfold msg_fields, msg_pairs. 
    repeat (apply List.Forall2_cons; [apply pair_reads_intro; [apply plain_bool; vm_compute; reflexivity|]|]).
    9: apply List.Forall2_nil.
    + exact R1. + exact R2. + exact R3. + exact I1. + exact R4. + exact I2. + exact I3. + exact I4.
  - done.
  - by apply (bool_decide_unpack _).
  - done.
  - by exists v, k1, k2, k3, k4.
Qed.

(** What [find_one] returns for a stored message is a JSON text that the
    server's parser reads as an object with the message's numbers exactly and
    its strings up to the size of their buffers, the content in full when it
    has at most 341 characters; for an id that is not stored it is the empty
    object. *)
Theorem msg_find_one_json s M id :
  shows s M ->
  match M !! id with
  | None => miku_msg_store_find_one s (Some id) = Json 0 (str "{}")
  | Some m => clean m -> exists t v mp k, miku_msg_store_find_one s (Some id) = Json 0 t /\
      miku_json_parse (Some t) = Some v /\ obj_is v mp /\
      mp !! "seq"%string = Some (JInt (mm_seq m)) /\ mp !! "sendTime"%string = Some (JInt (mm_send_time m)) /\
      mp !! "contentType"%string = Some (JInt (mm_content_type m)) /\ mp !! "status"%string = Some (JInt (mm_status m)) /\
      mp !! "content"%string = Some (JStr (strn k (mm_content m))) /\
      ((String.length (mm_content m) <= 341)%nat -> strn k (mm_content m) = mm_content m)
  end.
Proof.
  intros S. pose proof (find_one_ok s M id S) as E. destruct (M !! id) as [m|]; [|exact E]. intros Hm.
  destruct (msg_text_reads m 2048 Hm ltac:(lia)) as (v & k1 & k2 & k3 & k4 & R & O & F).
  exists (msg_text m 2048), v, (list_to_map (msg_pairs m k1 k2 k3 k4)), k4. split; [exact E|]. split.
  { unfold miku_json_parse. pose proof (R (parse_fuel (msg_text m 2048)) [] I) as P. rewrite app_nil_r in P.
    rewrite P; [reflexivity|]. unfold parse_fuel. lia. }
  split; [exact O|]. do 5 (split; [reflexivity|]). intros. apply F. lia.
Qed.

(** ** Conversations without a name *)

(** Unlinking skips the empty conversation id, so after an insert into it, a
    delete and another insert, the slot is its own successor: the traversal
    of a listing visits it forever. *)
Theorem empty_conversation_loops :
  exists l s, run_store (miku_msg_store_create false)
      [OpInsert "" "u" "x" "m1" 1 1 1 1; OpDelete "m1"; OpInsert "" "u" "y" "m2" 1 2 2 2]%string = Some (l, s) /\
    forall fuel, chain_walk fuel (ms_conv_next s) (conv_head s "") = replicate fuel 0.
Proof.
  set (r := run_store _ _).
  assert (option_map (fun r => (conv_head r.2 ""%string, (ms_conv_next r.2).[0])) r = Some (0, 0)) as H
    by (vm_compute; reflexivity).
  destruct r as [[l s]|]; [|done]. exists l, s. split; [done|]. cbn [option_map snd] in H.
  injection H as -> Hn. intros fuel. induction fuel as [|fuel IH]; [done|].
  cbn [chain_walk Z.ltb Z.compare replicate]. rewrite Hn. by f_equal.
Qed.

(** ** Examples *)

Definition ex_ops : list store_op :=
  [OpInsert "si_1_2" "1" "hi" "m1" 101 5 1 9; OpInsert "si_1_2" "2" "yo" "m2" 101 0 2 9; OpFindByConv "si_1_2" 2 0;
   OpDelete "m1"; OpPurge 9; OpCount]%string.

Lemma store_ex_ops_fit : Forall op_fits ex_ops /\ NoDup (concat (drawn <$> ex_ops)).
Proof. split; [repeat constructor|]. by apply (bool_decide_unpack _). Qed.

Lemma msg_store_refines_witness :
  exists l s M, run_store (miku_msg_store_create false) ex_ops = Some (l, s) /\ ref_run ∅ ex_ops l M /\ represents (ms_mem s) M.
Proof. apply (msg_store_refines ex_ops); apply store_ex_ops_fit. Defined.

Definition ex_args : list insert_args := [InsertArgs "c" "u" "one" "m1" 1 1 1 1; InsertArgs "c" "u" "two" "m2" 1 2 2 2]%string.

Lemma msg_ring_keeps_last_witness :
  exists ans s, run_store (miku_msg_store_create false) (args_op <$> ex_args) = Some (ans, s) /\
    Forall (eq (Rc 0)) ans /\ represents (ms_mem s) (msg_map (last_n (Z.to_nat 8192) (args_msg <$> ex_args))).
Proof. apply (msg_ring_keeps_last ex_args); [repeat constructor|by apply (bool_decide_unpack _)]. Defined.

Definition ex_msg : mem_msg := fill_msg "m1" "c" "u" "hi" 101 5 7 9.

Lemma ex_msg_clean : clean ex_msg.
Proof. by apply (bool_decide_unpack _). Qed.

Lemma msg_find_one_json_witness :
  exists s t v mp k, shows s {[ mm_msg_id ex_msg := ex_msg ]} /\ miku_msg_store_find_one s (Some (mm_msg_id ex_msg)) = Json 0 t /\
    miku_json_parse (Some t) = Some v /\ obj_is v mp /\ mp !! "seq"%string = Some (JInt 7) /\
    mp !! "content"%string = Some (JStr (strn k "hi")) /\ strn k "hi" = "hi"%string.
Proof.
  destruct (insert_ok _ ∅ "c" "u" "hi" "m1" 101 5 7 9 create_shows) as (n & s & M0 & slot & s1 & free & _ & Hl & S & _); [done|done|].
  unfold one_lost in Hl. rewrite map_size_empty in Hl. change (Z.of_nat 0 <? MK_MSG_MEM_CAP) with true in Hl. cbn iota in Hl. rewrite Hl in S. fold ex_msg in S.
  pose proof (msg_find_one_json s _ (mm_msg_id ex_msg) S) as W. rewrite lookup_insert_eq in W.
  destruct (W ex_msg_clean) as (t & v & mp & k & H1 & H2 & H3 & H4 & _ & _ & _ & H5 & H6).
  exists s, t, v, mp, k. rewrite <- (insert_empty (M:=gmap string)). split_and!; try done. apply H6, Nat.leb_le. reflexivity.
Defined.
