(* ===== verification/Bytes.v ===== *)
(** * Byte buffers and big-endian integers

    A buffer is the list of its bytes.  A read outside the buffer is undefined
    behaviour in C: [at_] and [slice] answer None there, and a definition that
    reads memory is in the option monad, so that a theorem that its result is
    [Some] also says that the code stays inside its buffer.  The big-endian
    helpers are [write_u16_be] ... [read_u32_be] of protocol/miku_rpc.c. *)
From S2P Require Import Prelude.

Abbreviation bytes := (list Z).

Definition blen (d : bytes) : Z := Z.of_nat (length d).

(** [memcpy(dst, d + off, n)]. *)
Definition slice (d : bytes) (off n : Z) : option bytes :=
  if (0 <=? off) && (0 <=? n) && (off + n <=? blen d)
  then Some (take (Z.to_nat n) (drop (Z.to_nat off) d)) else None.

#[export] Instance is_byte_dec z : Decision (is_byte z).
Proof. unfold is_byte. apply _. Defined.

Definition write_u16_be (v : Z) : bytes := [u8 (Z.shiftr v 8); u8 (Z.land v 255)].

Definition write_u32_be (v : Z) : bytes :=
  [u8 (Z.shiftr v 24); u8 (Z.shiftr v 16); u8 (Z.shiftr v 8); u8 (Z.land v 255)].

Definition read_u16_be (d : bytes) (off : Z) : option Z :=
  p0 ← at_ d off; p1 ← at_ d (off + 1);
  Some (u16 (Z.lor (Z.shiftl p0 8) p1)).

Definition read_u32_be (d : bytes) (off : Z) : option Z :=
  p0 ← at_ d off; p1 ← at_ d (off + 1); p2 ← at_ d (off + 2); p3 ← at_ d (off + 3);
  Some (Z.lor (Z.lor (Z.lor (u32 (Z.shiftl p0 24)) (u32 (Z.shiftl p1 16))) (u32 (Z.shiftl p2 8))) p3).

(** ** Bit operations as arithmetic *)

Lemma lor_shiftl_add a b k : 0 <= k -> 0 <= b < 2 ^ k -> Z.lor (Z.shiftl a k) b = a * 2 ^ k + b.
Proof.
  intros Hk Hb. rewrite <- Z.shiftl_mul_pow2 by done. symmetry. apply Z.add_nocarry_lor.
  apply Z.bits_inj'. intros n Hn. rewrite Z.land_spec, Z.bits_0.
  destruct (Z.ltb_spec n k).
  - by rewrite Z.shiftl_spec_low.
  - rewrite andb_comm. destruct (decide (b = 0)) as [->|]; [by rewrite Z.bits_0|].
    rewrite (Z.bits_above_log2 b n); [done|lia|].
    apply Z.log2_lt_pow2; [lia|]. apply Z.lt_le_trans with (2 ^ k); [lia|]. by apply Z.pow_le_mono_r.
Qed.

Lemma u8_byte z : is_byte (u8 z).
Proof. apply (uwrap_bound 8). lia. Qed.

Lemma u8_id z : is_byte z -> u8 z = z.
Proof. intros H. by apply uwrap_small. Qed.

Lemma shiftl_byte_u32 p k : is_byte p -> 0 <= k <= 24 -> u32 (Z.shiftl p k) = p * 2 ^ k.
Proof.
  intros Hp Hk. rewrite Z.shiftl_mul_pow2 by lia. apply uwrap_small. unfold is_byte in Hp.
  assert (2 ^ k <= 2 ^ 24) by (apply Z.pow_le_mono_r; lia).
  assert (0 < 2 ^ k) by (apply Z.pow_pos_nonneg; lia).
  change (2 ^ 24) with 16777216 in *. change (2 ^ 32) with 4294967296. nia.
Qed.

(** The combined value of four bytes. *)
Lemma lor_be32 p0 p1 p2 p3 :
  is_byte p0 -> is_byte p1 -> is_byte p2 -> is_byte p3 ->
  Z.lor (Z.lor (Z.lor (u32 (Z.shiftl p0 24)) (u32 (Z.shiftl p1 16))) (u32 (Z.shiftl p2 8))) p3 =
  p0 * 16777216 + p1 * 65536 + p2 * 256 + p3.
Proof.
  unfold is_byte. intros H0 H1 H2 H3. rewrite !shiftl_byte_u32 by (unfold is_byte; lia).
  rewrite <- (Z.shiftl_mul_pow2 p0) by lia. rewrite lor_shiftl_add by (cbn; lia).
  replace (p0 * 2 ^ 24 + p1 * 2 ^ 16) with (Z.shiftl (p0 * 256 + p1) 16)
    by (rewrite Z.shiftl_mul_pow2 by lia; lia).
  rewrite lor_shiftl_add by (cbn; lia).
  replace ((p0 * 256 + p1) * 2 ^ 16 + p2 * 2 ^ 8) with (Z.shiftl ((p0 * 256 + p1) * 256 + p2) 8)
    by (rewrite Z.shiftl_mul_pow2 by lia; lia).
  rewrite lor_shiftl_add by (cbn; lia). lia.
Qed.

Lemma land_255 v : Z.land v 255 = v mod 256.
Proof. change 255 with (2 ^ 8 - 1). by rewrite land_mask. Qed.

Lemma u8_shiftr v k : 0 <= k -> u8 (Z.shiftr v k) = v / 2 ^ k mod 256.
Proof. intros Hk. by rewrite Z.shiftr_div_pow2. Qed.

Lemma u32_bytes v :
  0 <= v < 2 ^ 32 ->
  u8 (Z.shiftr v 24) * 16777216 + u8 (Z.shiftr v 16) * 65536 + u8 (Z.shiftr v 8) * 256 + u8 (Z.land v 255) = v.
Proof.
  intros Hv. rewrite land_255, !u8_shiftr by lia. unfold uwrap.
  change (2 ^ 24) with 16777216. change (2 ^ 16) with 65536. change (2 ^ 8) with 256. change (2 ^ 32) with 4294967296 in Hv.
  Z.to_euclidean_division_equations. lia.
Qed.

(** ** Reading back what was written *)

Lemma at_drop {A} (l : list A) i k : 0 <= i -> 0 <= k -> at_ l (i + k) = at_ (drop (Z.to_nat i) l) k.
Proof.
  intros Hi Hk. unfold at_. destruct (Z.ltb_spec (i + k) 0); [lia|]. destruct (Z.ltb_spec k 0); [lia|].
  rewrite lookup_drop. f_equal. lia.
Qed.

Lemma at_app_r {A} (l1 l2 : list A) k : 0 <= k -> at_ (l1 ++ l2) (Z.of_nat (length l1) + k) = at_ l2 k.
Proof. intros Hk. rewrite at_drop, Nat2Z.id, drop_app_length by lia. done. Qed.

Lemma at_cons_0 {A} (x : A) l : at_ (x :: l) 0 = Some x.
Proof. done. Qed.

Lemma at_cons {A} (x : A) l k j : 0 <= j -> k = j + 1 -> at_ (x :: l) k = at_ l j.
Proof.
  intros Hj ->. unfold at_. destruct (Z.ltb_spec (j + 1) 0); [lia|]. destruct (Z.ltb_spec j 0); [lia|].
  replace (Z.to_nat (j + 1)) with (S (Z.to_nat j)) by lia. done.
Qed.

(** Reads at literal positions of a buffer whose first bytes are known. *)
Ltac at_eval :=
  repeat match goal with
    | |- context [at_ (?x :: ?l) 0] => rewrite (at_cons_0 x l)
    | |- context [at_ (?x :: ?l) (Z.pos ?p)] =>
        let j := eval vm_compute in (Z.pos p - 1) in
        rewrite (at_cons x l (Z.pos p) j) by (reflexivity || lia)
    end.

Lemma read_u32_written pre v post :
  0 <= v < 2 ^ 32 -> read_u32_be (pre ++ write_u32_be v ++ post) (blen pre) = Some v.
Proof.
  intros Hv. unfold read_u32_be, blen. rewrite <- (Z.add_0_r (Z.of_nat (length pre))) at 1.
  rewrite !at_app_r by lia. unfold write_u32_be, write_u16_be. cbn [app]. at_eval. cbn [mbind option_bind]. f_equal.
  rewrite lor_be32 by apply u8_byte. by apply u32_bytes.
Qed.

Lemma read_u16_written pre v post :
  0 <= v < 2 ^ 16 -> read_u16_be (pre ++ write_u16_be v ++ post) (blen pre) = Some v.
Proof.
  intros Hv. unfold read_u16_be, blen. rewrite <- (Z.add_0_r (Z.of_nat (length pre))) at 1.
  rewrite !at_app_r by lia. unfold write_u32_be, write_u16_be. cbn [app]. at_eval. cbn [mbind option_bind]. f_equal.
  rewrite lor_shiftl_add by (try lia; apply u8_byte).
  rewrite land_255, u8_shiftr by lia. unfold uwrap.
  change (2 ^ 8) with 256. change (2 ^ 16) with 65536 in *. Z.to_euclidean_division_equations. lia.
Qed.

Lemma slice_app pre mid post : slice (pre ++ mid ++ post) (blen pre) (blen mid) = Some mid.
Proof.
  unfold slice, blen. rewrite !length_app, !Nat2Z.inj_add.
  repeat (bool_case; [|lia]). cbn. f_equal.
  rewrite !Nat2Z.id, drop_app_length. apply take_app_length.
Qed.

Lemma slice_at pre t n : 0 <= n <= blen t -> slice (pre ++ t) (blen pre) n = Some (take (Z.to_nat n) t).
Proof.
  intros Hn. unfold slice, blen in *. rewrite length_app, Nat2Z.inj_add. repeat (bool_case; [|lia]). cbn.
  by rewrite Nat2Z.id, drop_app_length.
Qed.

Lemma slice_length d off n x : slice d off n = Some x -> blen x = n.
Proof.
  unfold slice, blen. repeat bool_case; cbn; intros [= <-].
  rewrite length_take, length_drop. unfold blen in *. lia.
Qed.

(** A read inside the buffer does not depend on what follows. *)
Lemma at_bytes d i b : Forall is_byte d -> at_ d i = Some b -> is_byte b.
Proof. intros Hd [_ H]%at_Some. by eapply Forall_lookup_1. Qed.

Lemma blen_nonneg d : 0 <= blen d.
Proof. unfold blen. lia. Qed.

Lemma blen_app d e : blen (d ++ e) = blen d + blen e.
Proof. unfold blen. rewrite length_app. lia. Qed.

(** The high bit of a byte next to its seven low bits. *)
Definition group_good (b : Z) : bool :=
  (Z.lor b 128 =? 128 + b) && (Z.land (128 + b) 127 =? b) && (Z.land (128 + b) 128 =? 128) &&
  (Z.land b 127 =? b) && (Z.land b 128 =? 0).

Lemma group_bits b : 0 <= b < 128 ->
  Z.lor b 128 = 128 + b /\ Z.land (128 + b) 127 = b /\ Z.land (128 + b) 128 = 128 /\
  Z.land b 127 = b /\ Z.land b 128 = 0.
Proof.
  intros Hb. assert (forallb group_good (seqZ 0 128) = true) as F by reflexivity.
  rewrite forallb_forall in F. specialize (F b).
  assert (group_good b = true) as G by (apply F, list_elem_of_In, elem_of_seqZ; lia).
  unfold group_good in G. rewrite !andb_true_iff, !Z.eqb_eq in G. tauto.
Qed.

Lemma lor_bound a b n : 0 <= n -> 0 <= a < 2 ^ n -> 0 <= b < 2 ^ n -> 0 <= Z.lor a b < 2 ^ n.
Proof.
  intros Hn Ha Hb. assert (0 <= Z.lor a b) as H0 by (apply Z.lor_nonneg; lia). split; [done|].
  destruct (decide (Z.lor a b = 0)) as [->|]; [lia|]. apply Z.log2_lt_pow2; [lia|].
  rewrite Z.log2_lor by lia. 
  assert (forall x, 0 <= x < 2 ^ n -> 0 < n -> Z.log2 x < n) as L.
  { intros x Hx H1. destruct (decide (x = 0)) as [->|]; [cbn; lia|]. apply Z.log2_lt_pow2; lia. }
  assert (0 < n) as Hn0. { destruct (decide (n = 0)) as [->|]; [|lia]. cbn in *. assert (a = 0) by lia. assert (b = 0) by lia. by subst. }
  apply Z.max_lub_lt; auto.
Qed.
