(* ===== verification/RpcFrame.v ===== *)
(** * RPC frames (protocol/miku_rpc.c)

    A frame is a 16-byte header, the payload length on 4 bytes and the payload.
    A message owns its payload: [payload_len] is the length of [payload], and a
    NULL payload is the empty one ([miku_rpc_message_set_payload] keeps both in
    step).  [miku_rpc_message_decode] reads memory; its answer is None where
    the C code reads outside the buffer. *)
From S2P Require Import Prelude Bytes.

Definition MK_RPC_MAGIC : Z := 19787. (* 0x4D4B *)
Definition MK_RPC_VERSION : Z := 1.
Definition MK_RPC_HDR_SIZE : Z := 16.

Inductive miku_rpc_type := MK_RPC_CALL | MK_RPC_REPLY | MK_RPC_PUSH | MK_RPC_KICK.

Definition rpc_type_int (t : miku_rpc_type) : Z :=
  match t with MK_RPC_CALL => 1 | MK_RPC_REPLY => 2 | MK_RPC_PUSH => 3 | MK_RPC_KICK => 4 end.

Record miku_rpc_header := RpcHeader {
  magic : Z; version : Z; msg_type : Z; h_seq : Z; service : Z; h_method : Z }.

Record miku_rpc_message := RpcMessage { header : miku_rpc_header; payload : bytes }.

Definition miku_rpc_header_init (type : miku_rpc_type) (seq service method : Z) : miku_rpc_header :=
  RpcHeader MK_RPC_MAGIC MK_RPC_VERSION (u8 (rpc_type_int type)) seq service method.

Definition miku_rpc_header_encode (h : miku_rpc_header) : bytes :=
  write_u16_be (magic h) ++ [version h; msg_type h] ++ write_u32_be (h_seq h) ++
  write_u32_be (service h) ++ write_u32_be (h_method h).

(** The status and the header it filled in. *)
Definition miku_rpc_header_decode (d : bytes) : option (Z * miku_rpc_header) :=
  m ← read_u16_be d 0; v ← at_ d 2; ty ← at_ d 3;
  s ← read_u32_be d 4; sv ← read_u32_be d 8; me ← read_u32_be d 12;
  Some (if m =? MK_RPC_MAGIC then 16 else -1, RpcHeader m v ty s sv me).

Definition miku_rpc_message_create (type : miku_rpc_type) (seq service method : Z) : miku_rpc_message :=
  RpcMessage (miku_rpc_header_init type seq service method) [].

Definition miku_rpc_message_encode (m : miku_rpc_message) : bytes :=
  miku_rpc_header_encode (header m) ++ write_u32_be (u32 (blen (payload m))) ++ payload m.

(** [MK_RPC_HDR_SIZE + 4 + payload_len] is computed in [uint32_t]. *)
Definition miku_rpc_message_decode (d : bytes) : option (option miku_rpc_message) :=
  if blen d <? MK_RPC_HDR_SIZE + 4 then Some None
  else
    '(rc, h) ← miku_rpc_header_decode d;
    if negb (rc =? 16) then Some None
    else
      payload_len ← read_u32_be d MK_RPC_HDR_SIZE;
      if blen d <? u32 (MK_RPC_HDR_SIZE + 4 + payload_len) then Some None
      else
        p ← (if 0 <? payload_len then slice d (MK_RPC_HDR_SIZE + 4) payload_len else Some []);
        Some (Some (RpcMessage h p)).

Definition miku_rpc_message_set_payload (m : miku_rpc_message) (data : option bytes) : miku_rpc_message :=
  RpcMessage (header m) (default [] data).

(** ** Well-formed messages *)

Record header_fits (h : miku_rpc_header) : Prop := {
  hf_magic : magic h = MK_RPC_MAGIC;
  hf_version : is_byte (version h);
  hf_type : is_byte (msg_type h);
  hf_seq : 0 <= h_seq h < 2 ^ 32;
  hf_service : 0 <= service h < 2 ^ 32;
  hf_method : 0 <= h_method h < 2 ^ 32 }.

Lemma header_init_fits t s sv m :
  0 <= s < 2 ^ 32 -> 0 <= sv < 2 ^ 32 -> 0 <= m < 2 ^ 32 -> header_fits (miku_rpc_header_init t s sv m).
Proof.
  intros Hs Hv Hm. unfold miku_rpc_header_init. constructor; cbn [magic version msg_type h_seq service h_method]; try done.
  apply u8_byte.
Qed.

Lemma header_encode_length h : length (miku_rpc_header_encode h) = 16%nat.
Proof. done. Qed.

Lemma header_decode_encode h post :
  header_fits h -> miku_rpc_header_decode (miku_rpc_header_encode h ++ post) = Some (16, h).
Proof.
  intros [Hm Hv Ht Hs Hsv Hme]. destruct h as [m v t s sv me].
  cbn [magic version msg_type h_seq service h_method] in *. subst m.
  unfold miku_rpc_header_decode, miku_rpc_header_encode.
  cbn [magic version msg_type h_seq service h_method].
  match goal with |- context [read_u16_be ?d 0] => set (b := d) end.
  assert (read_u16_be b 0 = Some MK_RPC_MAGIC) as -> by reflexivity.
  assert (at_ b 2 = Some v) as -> by reflexivity.
  assert (at_ b 3 = Some t) as -> by reflexivity.
  assert (read_u32_be b 4 = Some s) as ->.
  { apply (read_u32_written (write_u16_be MK_RPC_MAGIC ++ [v; t]) s). done. }
  assert (read_u32_be b 8 = Some sv) as ->.
  { apply (read_u32_written (write_u16_be MK_RPC_MAGIC ++ [v; t] ++ write_u32_be s) sv). done. }
  assert (read_u32_be b 12 = Some me) as ->.
  { apply (read_u32_written (write_u16_be MK_RPC_MAGIC ++ [v; t] ++ write_u32_be s ++ write_u32_be sv) me). done. }
  done.
Qed.

(** Every header read inside the first 16 bytes succeeds. *)
Lemma header_decode_safe d : 16 <= blen d -> exists rc h, miku_rpc_header_decode d = Some (rc, h).
Proof.
  intros Hd. assert (forall i, 0 <= i < 16 -> exists b, at_ d i = Some b) as G.
  { intros i Hi. apply at_is_Some. unfold blen in Hd. lia. }
  unfold miku_rpc_header_decode, read_u16_be, read_u32_be.
  change (0 + 1) with 1. change (4 + 1) with 5. change (4 + 2) with 6. change (4 + 3) with 7.
  change (8 + 1) with 9. change (8 + 2) with 10. change (8 + 3) with 11.
  change (12 + 1) with 13. change (12 + 2) with 14. change (12 + 3) with 15.
  do 16 match goal with
  | |- context [at_ d ?i] => let b := fresh "b" in destruct (G i ltac:(lia)) as [b ->]; cbn [mbind option_bind]
  end.
  eauto.
Qed.

Lemma length_field_safe d :
  20 <= blen d -> exists n, read_u32_be d 16 = Some n.
Proof.
  intros Hd. assert (forall i, 0 <= i < 20 -> exists b, at_ d i = Some b) as G.
  { intros i Hi. apply at_is_Some. unfold blen in Hd. lia. }
  unfold read_u32_be. change (16 + 1) with 17. change (16 + 2) with 18. change (16 + 3) with 19.
  do 4 match goal with
  | |- context [at_ d ?i] => let b := fresh "b" in destruct (G i ltac:(lia)) as [b ->]; cbn [mbind option_bind]
  end.
  eauto.
Qed.

Lemma read_u32_range d off n : Forall is_byte d -> read_u32_be d off = Some n -> 0 <= n < 2 ^ 32.
Proof.
  intros Hd H. unfold read_u32_be in H.
  destruct (at_ d off) as [p0|] eqn:E0; [|done]. destruct (at_ d (off + 1)) as [p1|] eqn:E1; [|done].
  destruct (at_ d (off + 2)) as [p2|] eqn:E2; [|done]. destruct (at_ d (off + 3)) as [p3|] eqn:E3; [|done].
  cbn [mbind option_bind] in H. injection H as <-.
  apply at_bytes in E0, E1, E2, E3; try done. rewrite lor_be32 by done. unfold is_byte in *. lia.
Qed.

(** ** Properties *)

(** A frame read back from the front of a stream is the message that was
    encoded, with its payload, whatever bytes follow; the payload may have any
    length the length field can hold together with the header. *)
Theorem rpc_frame_roundtrip m rest :
  header_fits (header m) -> blen (payload m) < 2 ^ 32 - 20 ->
  miku_rpc_message_decode (miku_rpc_message_encode m ++ rest) = Some (Some m).
Proof.
  intros Hh Hp. destruct m as [h p]. cbn [header payload] in *.
  unfold miku_rpc_message_decode, miku_rpc_message_encode. cbn [header payload].
  pose proof (blen_nonneg p) as Hp0. pose proof (blen_nonneg rest) as Hr0.
  assert (u32 (blen p) = blen p) as E by (apply uwrap_small; lia).
  set (H := miku_rpc_header_encode h). set (N := write_u32_be (u32 (blen p))).
  assert (blen H = 16) as LH by done. assert (blen N = 4) as LN by done.
  rewrite !blen_app, LH, LN. unfold MK_RPC_HDR_SIZE.
  bool_case; [lia|]. rewrite <- !app_assoc.
  assert (miku_rpc_header_decode (H ++ N ++ p ++ rest) = Some (16, h)) as -> by by apply header_decode_encode.
  cbn [mbind option_bind]. change (negb (16 =? 16)) with false. cbn iota.
  assert (read_u32_be (H ++ N ++ p ++ rest) 16 = Some (blen p)) as ->.
  { unfold N. rewrite E, <- LH. apply read_u32_written. lia. }
  cbn [mbind option_bind]. rewrite (uwrap_small 32) by lia.
  bool_case; [lia|]. bool_case.
  - replace (16 + 4) with (blen (H ++ N)) by (by rewrite blen_app, LH, LN).
    rewrite app_assoc. rewrite slice_app. done.
  - destruct p; [done|]. unfold blen in *. cbn [length] in *. lia.
Qed.

(** The condition under which the length field escapes the bounds check. *)
Definition length_wraps (d : bytes) : Prop :=
  exists h n, 20 <= blen d /\ miku_rpc_header_decode d = Some (16, h) /\ read_u32_be d 16 = Some n /\
  2 ^ 32 - 20 <= n.

(** [miku_rpc_message_decode] stays inside the buffer it is given, except
    for a frame with a valid header whose length field is at least 2^32 - 20:
    there [16 + 4 + payload_len] wraps around in [uint32_t], the check passes
    and the copy of the payload runs past the end of the buffer. *)
Theorem rpc_decode_overread_iff d :
  Forall is_byte d -> blen d < 2 ^ 32 ->
  miku_rpc_message_decode d = None <-> length_wraps d.
Proof.
  intros Hd Hl. unfold miku_rpc_message_decode, length_wraps, MK_RPC_HDR_SIZE. change (16 + 4) with 20.
  bool_case; [split; [done|intros (? & ? & ? & _); lia]|].
  destruct (header_decode_safe d) as (rc & h & Hh); [lia|]. rewrite Hh. cbn [mbind option_bind].
  destruct (Z.eqb_spec rc 16) as [->|Hrc]; [|split; [done|]; intros (h' & n & _ & E & _); congruence].
  cbn [negb]. destruct (length_field_safe d) as [n Hn]; [lia|]. rewrite Hn. cbn [mbind option_bind].
  pose proof (read_u32_range _ _ _ Hd Hn) as Rn.
  assert ((exists h0 n0, 20 <= blen d /\ Some (16, h) = Some (16, h0) /\ Some n = Some n0 /\
             2 ^ 32 - 20 <= n0) <-> 2 ^ 32 - 20 <= n) as ->.
  { split; [intros (h' & n' & _ & _ & [= <-] & Hw); done|intros Hw; exists h, n; done]. }
  destruct (decide (2 ^ 32 - 20 <= n)) as [W|W].
  - assert (u32 (20 + n) = 20 + n - 2 ^ 32) as E.
    { unfold uwrap. symmetry. apply (Z.mod_unique _ _ 1); lia. }
    rewrite E. bool_case; [lia|]. bool_case; [|lia].
    unfold slice. destruct (Z.leb_spec (20 + n) (blen d)); [lia|]. rewrite andb_false_r. done.
  - rewrite (uwrap_small 32) by lia. bool_case; [split; [done|lia]|]. bool_case; [|split; [done|lia]].
    unfold slice. repeat (bool_case; [|lia]). cbn. split; [done|lia].
Qed.

Definition ex_call : miku_rpc_message :=
  miku_rpc_message_set_payload (miku_rpc_message_create MK_RPC_CALL 7 2 3) (Some [1; 2; 255]).

Lemma rpc_frame_roundtrip_witness :
  miku_rpc_message_decode (miku_rpc_message_encode ex_call ++ [9; 9]) = Some (Some ex_call).
Proof.
  apply rpc_frame_roundtrip; [|unfold blen; cbn; lia].
  apply header_init_fits; lia.
Defined.

(** A frame of 20 bytes that declares a payload of 2^32 - 20 bytes. *)
Definition ex_wrapping : bytes :=
  miku_rpc_header_encode (miku_rpc_header_init MK_RPC_CALL 1 1 1) ++ write_u32_be (2 ^ 32 - 20).

Lemma rpc_decode_overread_iff_witness : miku_rpc_message_decode ex_wrapping = None.
Proof.
  apply rpc_decode_overread_iff.
  - by apply (bool_decide_unpack _).
  - unfold blen; cbn; lia.
  - exists (miku_rpc_header_init MK_RPC_CALL 1 1 1), (2 ^ 32 - 20).
    split_and!; [unfold blen; cbn; lia|reflexivity|reflexivity|lia].
Defined.
