(* ===== verification/Base64.v ===== *)
(** * Base64 (foundation/miku_base64.c)

    Characters are their codes.  An encoder or decoder call answers its return
    value and, when the output buffer of [out_cap] bytes is large enough, the
    bytes it wrote there (for the encoder, before the terminating NUL). *)
From S2P Require Import Prelude Hash Bytes.

Definition b64_enc : bytes :=
  byte_of <$> String.list_ascii_of_string "ABCDEFGHIJKLMNOPQRSTUVWXYZabcdefghijklmnopqrstuvwxyz0123456789+/".

(** [b64_enc[i & 0x3F]]. *)
Definition enc (i : Z) : Z := default 0 (at_ b64_enc (Z.land i 63)).

Definition PAD : Z := 61. (* '=' *)

(** One round of the encoder: [b] and [c] are absent at the end of the input. *)
Definition enc_group (a : Z) (b c : option Z) : bytes :=
  let n := u32 (Z.shiftl a 16) in
  let n := match b with Some b => Z.lor n (u32 (Z.shiftl b 8)) | None => n end in
  let n := match c with Some c => Z.lor n c | None => n end in
  [enc (Z.shiftr n 18); enc (Z.shiftr n 12);
   match b with Some _ => enc (Z.shiftr n 6) | None => PAD end;
   match c with Some _ => enc n | None => PAD end].

Fixpoint enc_loop (d : bytes) : bytes :=
  match d with
  | [] => []
  | [a] => enc_group a None None
  | [a; b] => enc_group a (Some b) None
  | a :: b :: c :: d' => enc_group a (Some b) (Some c) ++ enc_loop d'
  end.

Definition miku_base64_encode (d : bytes) (out_cap : Z) : Z * option bytes :=
  let needed := 4 * ((blen d + 2) / 3) in
  if out_cap <? needed + 1 then (needed, None)
  else let t := enc_loop d in (blen t, Some t).

Definition b64_val (c : Z) : Z :=
  if (65 <=? c) && (c <=? 90) then c - 65
  else if (97 <=? c) && (c <=? 122) then c - 97 + 26
  else if (48 <=? c) && (c <=? 57) then c - 48 + 52
  else if c =? 43 then 62
  else if c =? 47 then 63
  else -1.

(** One round of the decoder; a value of -1 becomes 0xFFFFFFFF. *)
Definition dec_group (p q r s : Z) : bytes :=
  let a := b64_val p in
  let b := b64_val q in
  let c := if r =? PAD then 0 else b64_val r in
  let d := if s =? PAD then 0 else b64_val s in
  let n := Z.lor (Z.lor (Z.lor (u32 (Z.shiftl (u32 a) 18)) (u32 (Z.shiftl (u32 b) 12)))
                        (u32 (Z.shiftl (u32 c) 6))) (u32 d) in
  u8 (Z.shiftr n 16) :: (if r =? PAD then [] else [u8 (Z.shiftr n 8)]) ++ (if s =? PAD then [] else [u8 n]).

Fixpoint dec_loop (t : bytes) : bytes :=
  match t with
  | p :: q :: r :: s :: t' => dec_group p q r s ++ dec_loop t'
  | _ => []
  end.

(** The bytes the decoder announces. *)
Definition dec_needed (t : bytes) : Z :=
  let n := blen t in
  n / 4 * 3 - (if (1 <=? n) && bool_decide (at_ t (n - 1) = Some PAD) then 1 else 0)
            - (if (2 <=? n) && bool_decide (at_ t (n - 2) = Some PAD) then 1 else 0).

Definition miku_base64_decode (t : bytes) (out_cap : Z) : Z * option bytes :=
  if negb (blen t mod 4 =? 0) then (0, Some [])
  else if out_cap <? dec_needed t then (dec_needed t, None)
  else let d := dec_loop t in (blen d, Some d).

(** ** The alphabet *)

Definition enc_good (i : Z) : bool := (b64_val (enc i) =? i) && negb (enc i =? PAD).

Lemma enc_good_all i : 0 <= i < 64 -> enc_good i = true.
Proof.
  intros Hi. assert (forallb enc_good (seqZ 0 64) = true) as F by reflexivity.
  rewrite forallb_forall in F. apply F. apply list_elem_of_In, elem_of_seqZ. lia.
Qed.

Lemma land_63 v : Z.land v 63 = v mod 64.
Proof. change 63 with (2 ^ 6 - 1). by rewrite land_mask. Qed.

Lemma enc_val v : b64_val (enc v) = v mod 64 /\ (enc v =? PAD) = false.
Proof.
  pose proof (Z.mod_pos_bound v 64 ltac:(lia)) as B.
  assert (enc v = enc (v mod 64)) as ->.
  { unfold enc. rewrite !land_63. by rewrite Z.mod_mod by lia. }
  pose proof (enc_good_all (v mod 64) ltac:(lia)) as G. unfold enc_good in G.
  apply andb_true_iff in G as [G1 G2]. split; [lia|]. by apply negb_true_iff in G2.
Qed.

Lemma enc_shift v k : 0 <= k -> b64_val (enc (Z.shiftr v k)) = v / 2 ^ k mod 64.
Proof. intros Hk. rewrite (proj1 (enc_val _)). by rewrite Z.shiftr_div_pow2. Qed.

(** The 24 bits of a group, cut in four. *)
Lemma sextets n : 0 <= n < 2 ^ 24 ->
  Z.lor (Z.lor (Z.lor (u32 (Z.shiftl (u32 (n / 2 ^ 18 mod 64)) 18)) (u32 (Z.shiftl (u32 (n / 2 ^ 12 mod 64)) 12)))
               (u32 (Z.shiftl (u32 (n / 2 ^ 6 mod 64)) 6))) (u32 (n mod 64)) = n.
Proof.
  intros Hn.
  assert (forall v, u32 (v mod 64) = v mod 64) as E.
  { intros v. pose proof (Z.mod_pos_bound v 64 ltac:(lia)). apply uwrap_small. lia. }
  rewrite !E.
  assert (forall v k, 0 <= k <= 18 -> u32 (Z.shiftl (v mod 64) k) = v mod 64 * 2 ^ k) as S.
  { intros v k Hk. apply shiftl_byte_u32; [|lia]. pose proof (Z.mod_pos_bound v 64 ltac:(lia)). unfold is_byte. lia. }
  rewrite !S by lia.
  change (2 ^ 18) with 262144 in *. change (2 ^ 12) with 4096 in *. change (2 ^ 6) with 64 in *. change (2 ^ 24) with 16777216 in *.
  set (p := n / 262144 mod 64). set (q := n / 4096 mod 64). set (r := n / 64 mod 64). set (s := n mod 64).
  assert (0 <= p < 64 /\ 0 <= q < 64 /\ 0 <= r < 64 /\ 0 <= s < 64) as (Bp & Bq & Br & Bs)
    by (split_and!; apply Z.mod_pos_bound; lia).
  replace (p * 262144) with (Z.shiftl p 18) by (rewrite Z.shiftl_mul_pow2 by lia; done).
  rewrite lor_shiftl_add by lia.
  replace (p * 2 ^ 18 + q * 4096) with (Z.shiftl (p * 64 + q) 12) by (rewrite Z.shiftl_mul_pow2 by lia; lia).
  rewrite lor_shiftl_add by lia.
  replace ((p * 64 + q) * 2 ^ 12 + r * 64) with (Z.shiftl ((p * 64 + q) * 64 + r) 6) by (rewrite Z.shiftl_mul_pow2 by lia; lia).
  rewrite lor_shiftl_add by lia.
  subst p q r s. Z.to_euclidean_division_equations. lia.
Qed.

Lemma group_value a b c : is_byte a -> is_byte b -> is_byte c ->
  Z.lor (Z.lor (u32 (Z.shiftl a 16)) (u32 (Z.shiftl b 8))) c = a * 65536 + b * 256 + c.
Proof.
  intros Ha Hb Hc. rewrite !shiftl_byte_u32 by (done || lia). unfold is_byte in *.
  rewrite <- (Z.shiftl_mul_pow2 a) by lia. rewrite lor_shiftl_add by lia.
  replace (a * 2 ^ 16 + b * 2 ^ 8) with (Z.shiftl (a * 256 + b) 8) by (rewrite Z.shiftl_mul_pow2 by lia; lia).
  rewrite lor_shiftl_add by lia. lia.
Qed.

Lemma value_bytes a b c : is_byte a -> is_byte b -> is_byte c ->
  let n := a * 65536 + b * 256 + c in
  u8 (Z.shiftr n 16) = a /\ u8 (Z.shiftr n 8) = b /\ u8 n = c.
Proof.
  intros Ha Hb Hc n. subst n. unfold is_byte in *. rewrite !u8_shiftr by lia. unfold uwrap.
  change (2 ^ 16) with 65536. change (2 ^ 8) with 256.
  split_and!; Z.to_euclidean_division_equations; lia.
Qed.

(** A full group decodes to its three bytes, a short one to what it has. *)
Lemma dec_enc_group a b c :
  is_byte a -> (forall x, b = Some x -> is_byte x) -> (forall x, c = Some x -> is_byte x) ->
  (b = None -> c = None) ->
  match enc_group a b c with
  | [p; q; r; s] => dec_group p q r s = a :: option_list b ++ option_list c
  | _ => False
  end.
Proof.
  intros Ha Hb Hc Hbc. unfold enc_group.
  set (n := match c with Some _ => _ | None => _ end).
  assert (n = a * 65536 + default 0 b * 256 + default 0 c) as En.
  { subst n. destruct b as [b|], c as [c|]; cbn [default from_option id].
    - apply group_value; auto.
    - rewrite <- (Z.lor_0_r (Z.lor _ _)). apply group_value; auto. done.
    - discriminate (Hbc eq_refl).
    - rewrite <- (Z.lor_0_r (u32 _)), <- (Z.lor_0_r (Z.lor _ _)). apply (group_value a 0 0); done. }
  assert (is_byte (default 0 b) /\ is_byte (default 0 c)) as [Bb Bc].
  { destruct b, c; cbn; split; auto; done. }
  assert (0 <= n < 2 ^ 24) as Rn by (rewrite En; unfold is_byte in *; lia).
  assert (u8 (Z.shiftr n 16) = a /\ u8 (Z.shiftr n 8) = default 0 b /\ u8 n = default 0 c) as (E1 & E2 & E3).
  { rewrite En. by apply value_bytes. }
  unfold dec_group. rewrite !enc_shift by lia.
  assert (b = None -> n / 2 ^ 6 mod 64 = 0 /\ n mod 64 = 0) as Z1.
  { intros ->. rewrite (Hbc eq_refl) in En. cbn in En. rewrite En. change (2 ^ 6) with 64.
    Z.to_euclidean_division_equations. lia. }
  assert (c = None -> n mod 64 = 0) as Z2.
  { intros ->. cbn in En. rewrite En. Z.to_euclidean_division_equations. lia. }
  destruct b as [b|], c as [c|]; [| |discriminate (Hbc eq_refl)|];
    rewrite ?(proj2 (enc_val _)), ?Z.eqb_refl, ?enc_shift, ?(proj1 (enc_val n)) by lia.
  - rewrite (sextets n Rn). rewrite E1, E2, E3. done.
  - assert (u32 0 = u32 (n mod 64)) as -> by (by rewrite (Z2 eq_refl)). rewrite (sextets n Rn). rewrite E1, E2. done.
  - destruct (Z1 eq_refl) as [Za Zb].
    assert (u32 (Z.shiftl (u32 0) 6) = u32 (Z.shiftl (u32 (n / 2 ^ 6 mod 64)) 6)) as -> by (by rewrite Za).
    assert (u32 0 = u32 (n mod 64)) as -> by (by rewrite Zb). rewrite (sextets n Rn). rewrite E1. done.
Qed.

(** ** Lengths *)

Lemma triple_ind (P : bytes -> Prop) :
  P [] -> (forall a, P [a]) -> (forall a b, P [a; b]) ->
  (forall a b c d, P d -> P (a :: b :: c :: d)) -> forall d, P d.
Proof.
  intros H0 H1 H2 H3. fix IH 1. intros [|a [|b [|c d]]]; [exact H0|apply H1|apply H2|apply H3, IH].
Qed.

Lemma quad_ind (P : bytes -> Prop) :
  P [] -> (forall p q r s t, blen t mod 4 = 0 -> P t -> P (p :: q :: r :: s :: t)) ->
  forall t, blen t mod 4 = 0 -> P t.
Proof.
  intros H0 H4. fix IH 1. intros [|p [|q [|r [|s t]]]] Hm; [done|discriminate Hm..|].
  apply H4; [|apply IH]; unfold blen in *; cbn [length] in Hm; rewrite !Nat2Z.inj_succ in Hm;
    Z.to_euclidean_division_equations; lia.
Qed.

Lemma enc_loop_length d : blen (enc_loop d) = 4 * ((blen d + 2) / 3).
Proof.
  induction d as [|a|a b|a b c d IH] using triple_ind; try done.
  cbn [enc_loop]. rewrite blen_app, IH. change (blen (enc_group a (Some b) (Some c))) with 4. unfold blen. cbn [length]. Z.to_euclidean_division_equations. lia.
Qed.

Lemma dec_enc_loop d : Forall is_byte d -> dec_loop (enc_loop d) = d.
Proof.
  induction d as [|a|a b|a b c d IH] using triple_ind; intros Hd; try done.
  - apply Forall_inv in Hd. pose proof (dec_enc_group a None None Hd ltac:(done) ltac:(done) ltac:(done)) as G.
    cbn [enc_loop]. destruct (enc_group a None None) as [|p [|q [|r [|s []]]]]; try done.
    cbn [dec_loop]. by rewrite G.
  - rewrite !list.Forall_cons in Hd. destruct Hd as (Ha & Hb & _).
    pose proof (dec_enc_group a (Some b) None Ha ltac:(by intros x [= <-]) ltac:(done) ltac:(done)) as G.
    cbn [enc_loop]. destruct (enc_group a (Some b) None) as [|p [|q [|r [|s []]]]]; try done.
    cbn [dec_loop]. by rewrite G.
  - rewrite !list.Forall_cons in Hd. destruct Hd as (Ha & Hb & Hc & Hd).
    pose proof (dec_enc_group a (Some b) (Some c) Ha ltac:(by intros x [= <-]) ltac:(by intros x [= <-]) ltac:(done)) as G.
    cbn [enc_loop]. destruct (enc_group a (Some b) (Some c)) as [|p [|q [|r [|s []]]]]; try done.
    cbn [dec_loop app]. rewrite G, IH by done. done.
Qed.

(** The decoder writes at most the bytes it announces. *)
Lemma dec_loop_length t : blen t mod 4 = 0 -> blen (dec_loop t) <= dec_needed t.
Proof.
  intros Hm. pattern t. apply quad_ind; [done| |done]. clear t Hm. intros p q r s t Hm' IH.
  assert (blen (dec_group p q r s) = 3 - (if r =? PAD then 1 else 0) - (if s =? PAD then 1 else 0)) as G.
  { unfold dec_group. by destruct (r =? PAD), (s =? PAD). }
  cbn [dec_loop]. rewrite blen_app, G.
  assert (blen (p :: q :: r :: s :: t) = blen t + 4) as L by (unfold blen; cbn [length]; lia).
  destruct t as [|x t].
  - cbn [dec_loop]. unfold dec_needed. rewrite L. change (blen []) with 0.
    change (0 + 4 - 1) with 3. change (0 + 4 - 2) with 2. change ((0 + 4) / 4 * 3) with 3.
    at_eval. rewrite !andb_true_l.
    assert (forall z, (if bool_decide (Some z = Some PAD) then 1 else 0) = (if z =? PAD then 1 else 0)) as E.
    { intros z. case_bool_decide as Hz; [injection Hz as ->; by rewrite Z.eqb_refl|].
      destruct (Z.eqb_spec z PAD); [congruence|done]. }
    rewrite !E. lia.
  - set (u := x :: t) in *.
    assert (4 <= blen u) as H4.
    { subst u. unfold blen in *. cbn [length] in *. Z.to_euclidean_division_equations. lia. }
    assert (dec_needed (p :: q :: r :: s :: u) = dec_needed u + 3) as ->.
    { unfold dec_needed. rewrite L.
      assert (forall k, 0 <= k -> at_ (p :: q :: r :: s :: u) (k + 4) = at_ u k) as A.
      { intros k Hk. rewrite Z.add_comm. by apply (at_app_r [p; q; r; s] u k). }
      replace (blen u + 4 - 1) with (blen u - 1 + 4) by lia. replace (blen u + 4 - 2) with (blen u - 2 + 4) by lia.
      rewrite !A by lia. repeat (bool_case; [|lia]). cbn [andb].
      assert ((blen u + 4) / 4 = blen u / 4 + 1) as -> by (Z.to_euclidean_division_equations; lia). lia. }
    destruct (r =? PAD), (s =? PAD); lia.
Qed.

(** ** Properties *)

(** What the encoder writes decodes to the bytes that were encoded, for
    every input and whatever the padding; the text has the announced length and
    the terminating NUL fits in the buffer. *)
Theorem base64_roundtrip d cap cap' :
  Forall is_byte d -> 4 * ((blen d + 2) / 3) < cap -> dec_needed (enc_loop d) <= cap' ->
  exists t, miku_base64_encode d cap = (4 * ((blen d + 2) / 3), Some t) /\ blen t + 1 <= cap /\ miku_base64_decode t cap' = (blen d, Some d).
Proof.
  intros Hd Hc Hc'. pose proof (enc_loop_length d) as L. exists (enc_loop d). split_and!.
  - unfold miku_base64_encode. bool_case; [lia|]. by rewrite L.
  - lia.
  - unfold miku_base64_decode. rewrite L.
    replace (4 * ((blen d + 2) / 3) mod 4) with 0 by (rewrite Z.mul_comm, Z.mod_mul; lia).
    change (negb (0 =? 0)) with false. cbn iota. bool_case; [lia|]. by rewrite dec_enc_loop.
Qed.

(** On any input, valid or not, the decoder writes no more than the
    [out_cap] bytes of its output buffer, and returns the number it wrote. *)
Theorem base64_decode_in_bounds t cap r out :
  0 <= cap -> miku_base64_decode t cap = (r, Some out) -> r = blen out /\ blen out <= cap.
Proof.
  intros Hcap. unfold miku_base64_decode. destruct (Z.eqb_spec (blen t mod 4) 0) as [E|E]; cbn [negb].
  - bool_case; intros [= <- <-]. pose proof (dec_loop_length t E). lia.
  - intros [= <- <-]. done.
Qed.

Lemma base64_roundtrip_witness :
  exists t, miku_base64_encode [77; 105; 107; 117] 16 = (8, Some t) /\ blen t + 1 <= 16 /\ miku_base64_decode t 4 = (4, Some [77; 105; 107; 117]).
Proof. apply (base64_roundtrip [77; 105; 107; 117] 16 4); [by apply (bool_decide_unpack _)|done..]. Defined.

Lemma base64_decode_in_bounds_witness : 2 = blen [255; 255] /\ blen [255; 255] <= 2.
Proof. apply (base64_decode_in_bounds [33; 33; 47; 61] 2 2 [255; 255]); [done|reflexivity]. Defined.
