(* ===== verification/Sha1.v ===== *)
(** * SHA-1 (foundation/miku_sha1.c)

    [miku_sha1] hashes the full 64-byte blocks in place and pads the rest in a
    local block.  [sha1_ref] is the definition of the standard: pad the whole
    message, cut it in blocks, fold the compression function.  [sha1_padding]
    says that they agree on every input. *)
From S2P Require Import Prelude Bytes.

Definition sha1_K (t : Z) : Z :=
  if t <? 20 then 1518500249 else if t <? 40 then 1859775393 else if t <? 60 then 2400959708 else 3395469782.

Definition ROTL (x n : Z) : Z := Z.lor (u32 (Z.shiftl x n)) (Z.shiftr x (32 - n)).
Definition CH (x y z : Z) : Z := Z.lxor (Z.land x y) (Z.land (u32 (Z.lnot x)) z).
Definition MAJ (x y z : Z) : Z := Z.lxor (Z.lxor (Z.land x y) (Z.land x z)) (Z.land y z).
Definition PARITY (x y z : Z) : Z := Z.lxor (Z.lxor x y) z.

Definition sha1_f (t b c d : Z) : Z :=
  if t <? 20 then CH b c d else if t <? 40 then PARITY b c d else if t <? 60 then MAJ b c d else PARITY b c d.

Record sha1_state := Sha1 { sa : Z; sb : Z; sc : Z; sd : Z; se : Z }.

(** [w[t]] for [t < 16]: the big-endian word at [4 t]. *)
Definition block_words (block : bytes) : list Z :=
  (fun t => default 0 (read_u32_be block (4 * t))) <$> seqZ 0 16.

Definition w_at (w : list Z) (t : Z) : Z := default 0 (at_ w t).

(** [w[t]] for [16 <= t < 80], appended to the words before. *)
Definition extend_w (w : list Z) (t : Z) : list Z :=
  w ++ [ROTL (Z.lxor (Z.lxor (Z.lxor (w_at w (t - 3)) (w_at w (t - 8))) (w_at w (t - 14))) (w_at w (t - 16))) 1].

Definition sha1_round (w : list Z) (s : sha1_state) (t : Z) : sha1_state :=
  let tmp := u32 (ROTL (sa s) 5 + sha1_f t (sb s) (sc s) (sd s) + se s + sha1_K t + w_at w t) in
  Sha1 tmp (sa s) (ROTL (sb s) 30) (sc s) (sd s).

Definition sha1_block (s : sha1_state) (block : bytes) : sha1_state :=
  let w := foldl extend_w (block_words block) (seqZ 16 64) in
  let r := foldl (sha1_round w) s (seqZ 0 80) in
  Sha1 (u32 (sa s + sa r)) (u32 (sb s + sb r)) (u32 (sc s + sc r)) (u32 (sd s + sd r)) (u32 (se s + se r)).

Definition sha1_init : sha1_state := Sha1 1732584193 4023233417 2562383102 271733878 3285377520.

(** The loop over full blocks, and what is left of the data. *)
Fixpoint full_blocks (n : nat) (s : sha1_state) (d : bytes) : sha1_state * bytes :=
  match n with
  | O => (s, d)
  | S n => full_blocks n (sha1_block s (take 64 d)) (drop 64 d)
  end.

(** [block[63 - j] = (uint8_t)(bitlen >> (j * 8))] for [j] from 0 to 7. *)
Definition bitlen_bytes (bitlen : Z) : bytes := (fun j => u8 (Z.shiftr bitlen (j * 8))) <$> [7; 6; 5; 4; 3; 2; 1; 0].

Definition zeros (n : nat) : bytes := repeat 0 n.

Definition digest_bytes (s : sha1_state) : bytes :=
  concat ((fun v => [u8 (Z.shiftr v 24); u8 (Z.shiftr v 16); u8 (Z.shiftr v 8); u8 v]) <$> [sa s; sb s; sc s; sd s; se s]).

Definition miku_sha1 (d : bytes) : bytes :=
  let bitlen := u64 (blen d * 8) in
  let '(s, tail) := full_blocks (length d / 64) sha1_init d in
  let rem := length tail in
  let s :=
    if (56 <=? rem)%nat then
      let s := sha1_block s (tail ++ [128] ++ zeros (64 - rem - 1)) in
      sha1_block s (zeros 56 ++ bitlen_bytes bitlen)
    else sha1_block s (tail ++ [128] ++ zeros (56 - rem - 1) ++ bitlen_bytes bitlen) in
  digest_bytes s.

(** ** The standard's definition *)

(** 0x80, the least number of zeros that completes a block, the bit length. *)
Definition sha1_pad (d : bytes) : bytes :=
  d ++ [128] ++ zeros (Z.to_nat ((55 - blen d) mod 64)) ++ bitlen_bytes (u64 (blen d * 8)).

Definition sha1_ref (d : bytes) : bytes :=
  let p := sha1_pad d in digest_bytes (full_blocks (length p / 64) sha1_init p).1.

(** ** Block arithmetic *)

Lemma full_blocks_app n s d e :
  length d = (64 * n)%nat -> full_blocks n s (d ++ e) = ((full_blocks n s d).1, e).
Proof.
  revert s d. induction n as [|n IH]; intros s d Hd.
  - destruct d; [done|discriminate Hd].
  - cbn [full_blocks]. rewrite take_app_le, drop_app_le by lia. apply IH. rewrite length_drop. lia.
Qed.

Lemma full_blocks_add n m s d :
  full_blocks (n + m) s d = full_blocks m (full_blocks n s d).1 (full_blocks n s d).2.
Proof. revert s d. induction n as [|n IH]; intros s d; [done|]. cbn [Nat.add full_blocks]. apply IH. Qed.

Lemma full_blocks_rest n s d : (full_blocks n s d).2 = drop (64 * n) d.
Proof.
  revert s d. induction n as [|n IH]; intros s d; [by rewrite drop_0|]. cbn [full_blocks].
  rewrite IH, drop_drop. f_equal. lia.
Qed.

Lemma full_blocks_one s b e : length b = 64%nat -> full_blocks 1 s (b ++ e) = (sha1_block s b, e).
Proof. intros Hb. cbn [full_blocks]. by rewrite take_app_length', drop_app_length'. Qed.

Lemma length_zeros n : length (zeros n) = n.
Proof. apply repeat_length. Qed.

Lemma zeros_add n m : zeros (n + m) = zeros n ++ zeros m.
Proof. apply repeat_app. Qed.

Lemma bitlen_length b : length (bitlen_bytes b) = 8%nat.
Proof. done. Qed.

(** Folding over a message that continues with more blocks. *)
Lemma full_blocks_split s d e k :
  (length d / 64 + k)%nat = (length (d ++ e) / 64)%nat ->
  (full_blocks (length (d ++ e) / 64) s (d ++ e)).1 =
  (full_blocks k (full_blocks (length d / 64) s d).1 ((full_blocks (length d / 64) s d).2 ++ e)).1.
Proof.
  intros <-. set (n := (length d / 64)%nat).
  assert (exists a b, d = a ++ b /\ length a = (64 * n)%nat) as (a & b & E & La).
  { exists (take (64 * n) d), (drop (64 * n) d). split; [by rewrite take_drop|]. rewrite length_take.
    subst n. pose proof (Nat.div_mod_eq (length d) 64). lia. }
  clearbody n. subst d. rewrite <- app_assoc, full_blocks_add.
  rewrite (full_blocks_app n s a b La), (full_blocks_app n s a (b ++ e) La). reflexivity.
Qed.

(** What the loop leaves, and the number of zeros the standard asks for. *)
Lemma tail_length d s : length (full_blocks (length d / 64) s d).2 = (length d mod 64)%nat.
Proof. rewrite full_blocks_rest, length_drop. pose proof (Nat.div_mod_eq (length d) 64). lia. Qed.

Lemma pad_zeros d : 
  Z.to_nat ((55 - blen d) mod 64) =
  (if (56 <=? length d mod 64) then 119 - length d mod 64 else 55 - length d mod 64)%nat.
Proof.
  unfold blen. pose proof (Nat.div_mod_eq (length d) 64) as E. pose proof (Nat.mod_upper_bound (length d) 64 ltac:(lia)) as B.
  set (q := (length d / 64)%nat) in *. set (r := (length d mod 64)%nat) in *. clearbody q r.
  destruct (Nat.leb_spec 56 r).
  - rewrite <- (Z.mod_unique (55 - Z.of_nat (length d)) 64 (- Z.of_nat q - 1) (Z.of_nat (119 - r))); lia.
  - rewrite <- (Z.mod_unique (55 - Z.of_nat (length d)) 64 (- Z.of_nat q) (Z.of_nat (55 - r))); lia.
Qed.

Lemma full_blocks_last s b : length b = 64%nat -> (full_blocks 1 s b).1 = sha1_block s b.
Proof. intros Hb. rewrite <- (app_nil_r b) at 1. by rewrite full_blocks_one. Qed.

(** C40: the hash of every message is the one the standard defines by padding
    the whole message: the in-place treatment of full blocks and the one or two
    blocks of padding, chosen by the number of bytes left, change nothing. *)
Theorem sha1_padding d : miku_sha1 d = sha1_ref d.
Proof.
  unfold miku_sha1, sha1_ref, sha1_pad. set (bl := bitlen_bytes _). f_equal.
  pose proof (tail_length d sha1_init) as Lt. pose proof (pad_zeros d) as Pz.
  pose proof (Nat.div_mod_eq (length d) 64) as Dm. pose proof (Nat.mod_upper_bound (length d) 64 ltac:(lia)) as Bm.
  assert (length bl = 8%nat) as Lb by done.
  set (e := [128] ++ zeros (Z.to_nat ((55 - blen d) mod 64)) ++ bl).
  destruct (Nat.leb_spec 56 (length d mod 64)) as [H|H].
  - rewrite (full_blocks_split _ d e 2).
    2: { rewrite length_app. subst e. rewrite !length_app, length_zeros, Pz, Lb. cbn [length].
         apply (Nat.div_unique _ _ _ 0); lia. }
    destruct (full_blocks (length d / 64) sha1_init d) as [s tail]. cbn [fst snd] in *.
    rewrite Lt. destruct (Nat.leb_spec 56 (length d mod 64)); [|lia].
    subst e. rewrite Pz. replace (119 - length d mod 64)%nat with ((64 - length d mod 64 - 1) + 56)%nat by lia.
    rewrite zeros_add, <- (app_assoc (zeros _)).
    rewrite (full_blocks_add 1 1).
    set (z := zeros (64 - length d mod 64 - 1)).
    replace (tail ++ [128] ++ z ++ zeros 56 ++ bl) with ((tail ++ [128] ++ z) ++ zeros 56 ++ bl) by (by rewrite <- !app_assoc).
    rewrite full_blocks_one by (rewrite !length_app; subst z; rewrite length_zeros; cbn [length]; lia).
    cbn [fst snd]. by rewrite full_blocks_last.
  - rewrite (full_blocks_split _ d e 1).
    2: { rewrite length_app. subst e. rewrite !length_app, length_zeros, Pz, Lb. cbn [length].
         apply (Nat.div_unique _ _ _ 0); lia. }
    destruct (full_blocks (length d / 64) sha1_init d) as [s tail]. cbn [fst snd] in *.
    rewrite Lt. destruct (Nat.leb_spec 56 (length d mod 64)); [lia|].
    subst e. rewrite Pz. replace (56 - length d mod 64 - 1)%nat with (55 - length d mod 64)%nat by lia.
    rewrite full_blocks_last; [done|]. rewrite !length_app, length_zeros, Lb. cbn [length]. lia.
Qed.

Lemma sha1_bytes d : Forall is_byte (miku_sha1 d).
Proof.
  unfold miku_sha1. destruct (full_blocks _ _ _) as [s tail]. unfold digest_bytes. cbn [fmap list_fmap concat app].
  repeat (apply list.Forall_cons; split; [apply u8_byte|]). by apply list.Forall_nil.
Qed.

Lemma miku_sha1_length d : length (miku_sha1 d) = 20%nat.
Proof.
  unfold miku_sha1. destruct (full_blocks _ _ _) as [s tail]. done.
Qed.

(** The FIPS 180 test vector for the message abc. *)
Example sha1_abc : miku_sha1 [97; 98; 99] =
  [169; 153; 62; 54; 71; 6; 129; 106; 186; 62; 37; 113; 120; 80; 194; 108; 156; 208; 216; 157].
Proof. vm_compute. reflexivity. Qed.
