(* ===== verification/Token.v ===== *)
(** * Signed tokens and their revocation (foundation/miku_token.c)

    A token is [miku|uid|platform|ts|nonce|sig] where [sig] is the first half
    of an HMAC-SHA1 over the other fields.  The secret, the clock and the
    nonce that [miku_uuid_generate] draws are arguments; the table of revoked
    users is the state, and the mutex makes an operation on it atomic.
    [sscanf] is modelled as the C library of the build does it: white space and
    a sign are skipped, decimal values saturate at 64 bits, "%d" keeps the low
    32 bits. *)
From Stdlib Require Import Ascii String.
From S2P Require Import Prelude Hash ProbeIndex KeyedMap Json JsonText JsonEscape Bytes Sha1.
#[local] Open Scope char_scope.
#[local] Open Scope Z_scope.

Definition MIKU_TOKEN_EXPIRY_SECONDS : Z := 86400.
Definition MK_TOKEN_MAX_REVOKES : Z := 4096.
Definition MK_TOKEN_REVOKE_HASH : Z := 8192.

(** ** Signature *)

Definition text_bytes (t : text) : bytes := code <$> t.

(** [snprintf("%s:%d:%lld:%s")]. *)
Definition signed_text (uid : string) (platform ts : Z) (nonce : string) : text :=
  (str uid ++ ":" :: fmt_lld platform ++ ":" :: fmt_lld ts ++ ":" :: str nonce)%list.

(** The key block: the secret, or its hash when it is long, padded with zeros. *)
Definition key_block (secret : string) : bytes :=
  let s := text_bytes (str secret) in
  let k := if 64 <? blen s then miku_sha1 s else s in
  (k ++ zeros (64 - length k))%list.

Definition pad_with (x : Z) (k : bytes) : bytes := (fun b => Z.lxor b x) <$> k.

Definition compute_sig (uid : string) (platform ts : Z) (nonce secret : string) : Z :=
  let msg := signed_text uid platform ts nonce in
  if 256 <=? tlen msg then 0
  else
    let k0 := key_block secret in
    let ih := miku_sha1 (pad_with 0x36 k0 ++ text_bytes msg)%list in
    let mac := miku_sha1 (pad_with 0x5c k0 ++ ih)%list in
    foldl (fun r b => Z.lor (u64 (Z.shiftl r 8)) b) 0 (take 8 mac).

(** ["%016llx"]. *)
Fixpoint hex_text (n : nat) (v : Z) : text :=
  match n with O => [] | S n' => (hex_text n' (v / 16) ++ [hex_digit (v mod 16)])%list end.

Definition token_text (uid : string) (platform ts : Z) (nonce : string) (sig : Z) : text :=
  (str "miku|" ++ str uid ++ "|" :: fmt_lld platform ++ "|" :: fmt_lld ts ++ "|" :: str nonce ++ "|" :: hex_text 16 sig)%list.

(** What [token_out] holds; None is the error -1.  [uuid] is the text drawn
    for the nonce, of which 16 characters are used. *)
Definition miku_token_create (user_id : option string) (platform : Z) (secret : option string) (token_cap : Z)
    (uuid : string) (ts : Z) : option text :=
  match secret with
  | Some sec =>
      if negb (given user_id) || (token_cap <? 32) then None
      else
        let uid := default EmptyString user_id in
        let nonce := strn 16 uuid in
        Some (snprintf token_cap (token_text uid platform ts nonce (compute_sig uid platform ts nonce sec))).1
  | None => None
  end.

(** ** sscanf *)

Definition is_space (c : ascii) : bool := (code c =? 32) || ((9 <=? code c) && (code c <=? 13)).

Fixpoint skip_space (t : text) : text :=
  match t with c :: t' => if is_space c then skip_space t' else t | [] => [] end.

Definition clamp64 (v : Z) : Z := Z.max LLONG_MIN (Z.min LLONG_MAX v).

(** The digits after white space and a sign, None for a matching failure. *)
Definition scan_dec (t : text) : option Z :=
  let '(sg, t1) := take_if is_sign (skip_space t) in
  let ds := (span_digits t1).1 in
  if nil_b ds then None
  else Some (clamp64 (if bool_decide (sg = ["-"]) then - digits_val ds else digits_val ds)).

Definition sscanf_d (t : text) : option Z := i32 <$> scan_dec t.
Definition sscanf_lld (t : text) : option Z := scan_dec t.

Fixpoint span_hex (t : text) : text :=
  match t with
  | c :: t' => match hex_val c with Some _ => c :: span_hex t' | None => [] end
  | [] => []
  end.

Definition hex_value (t : text) : Z := foldl (fun v c => v * 16 + default 0 (hex_val c)) 0 t.

Definition is_x (c : ascii) : bool := Ascii.eqb c "x" || Ascii.eqb c "X".

Definition ULLONG_MAX : Z := 18446744073709551615.

Definition sscanf_llx (t : text) : option Z :=
  let '(sg, t1) := take_if is_sign (skip_space t) in
  let '(z, t2) := take_if (Ascii.eqb "0") t1 in
  let t3 := if nil_b z then t2 else (take_if is_x t2).2 in
  let ds := (z ++ span_hex t3)%list in
  if nil_b ds then None
  else let v := hex_value ds in
       Some (if ULLONG_MAX <? v then ULLONG_MAX else if bool_decide (sg = ["-"]) then u64 (- v) else v).

(** ** Revocations *)

Record revoke_entry := Revoke { rv_key : string; rv_since : Z }.

Record revokes := Revokes { g_revokes : list revoke_entry; g_revoke_hash : gmap Z Z }.

Definition revoke_slot (key : string) : Z := mask_slot MK_TOKEN_REVOKE_HASH (fnv1a_64 key).

Definition rv_home (l : list revoke_entry) (ei : Z) : Z :=
  match at_ l ei with Some e => revoke_slot (rv_key e) | None => 0 end.

Definition revoke_hash_insert (r : revokes) (ei : Z) : revokes :=
  Revokes (g_revokes r) (scan_insert MK_TOKEN_REVOKE_HASH (g_revoke_hash r) (rv_home (g_revokes r) ei) (i16 ei)).

Definition revoke_hash_rebuild (r : revokes) : revokes :=
  for_range (Z.of_nat (length (g_revokes r))) revoke_hash_insert (Revokes (g_revokes r) ∅).

Definition rv_match (l : list revoke_entry) (key : string) (ei : Z) : bool :=
  match at_ l ei with Some e => streq (rv_key e) key | None => false end.

Definition revoke_hash_find (r : revokes) (key : string) : Z :=
  scan_find MK_TOKEN_REVOKE_HASH (g_revoke_hash r) (rv_match (g_revokes r) key) (revoke_slot key).

(** The keys, cut to their buffers of 96 bytes. *)
Definition key_plat (uid : string) (platform : Z) : string :=
  strn 95 (string_of_list_ascii (str uid ++ ":" :: fmt_lld platform)%list).
Definition key_all (uid : string) : string := strn 95 (string_of_list_ascii (str uid ++ [":"; "*"])%list).

Definition covers (r : revokes) (key : string) (ts : Z) : bool :=
  match at_ (g_revokes r) (revoke_hash_find r key) with Some e => ts <=? rv_since e | None => false end.

Definition is_revoked (r : revokes) (uid : string) (platform ts : Z) : bool :=
  covers r (key_plat uid platform) ts || covers r (key_all uid) ts.

Definition miku_token_revoke (r : revokes) (user_id : option string) (platform now : Z) : Z * revokes :=
  if negb (given user_id) then (-1, r)
  else
    let uid := default EmptyString user_id in
    let key := if platform <? 0 then key_all uid else key_plat uid platform in
    let e := Revoke (strn 95 key) now in
    let n := Z.of_nat (length (g_revokes r)) in
    let ei := revoke_hash_find r key in
    if 0 <=? ei then (0, Revokes (upd_at (fun e => Revoke (rv_key e) now) ei (g_revokes r)) (g_revoke_hash r))
    else if MK_TOKEN_MAX_REVOKES <=? n then
      let oldest := match g_revokes r with [] => 0 | e0 :: l => oldest_from rv_since l 1 0 (rv_since e0) end in
      (0, revoke_hash_rebuild (Revokes (upd_at (fun _ => e) oldest (g_revokes r)) (g_revoke_hash r)))
    else (0, revoke_hash_insert (Revokes (g_revokes r ++ [e]) (g_revoke_hash r)) n).

Definition miku_token_revoke_clear : revokes := Revokes [] ∅.

(** ** Verification *)

(** [strchr(t, c)]: what is before and after the first [c]. *)
Fixpoint cut_at (c : ascii) (t : text) : option (text * text) :=
  match t with
  | [] => None
  | x :: t' => if Ascii.eqb x c then Some ([], t') else '(a, b) ← cut_at c t'; Some (x :: a, b)
  end.

(** The fields of a token: user, platform, time, nonce and signature. *)
Definition token_fields (token : text) (cap : Z) : option (string * Z * Z * string * Z) :=
  if negb (starts_with (str "miku|") token) then None
  else
    '(uid, t1) ← cut_at "|" (drop 5 token);
    if (tlen uid =? 0) || (cap <=? tlen uid) then None
    else
      platform ← sscanf_d t1;
      '(_, t2) ← cut_at "|" t1;
      ts ← sscanf_lld t2;
      '(_, t3) ← cut_at "|" t2;
      '(nonce, t4) ← cut_at "|" t3;
      if (tlen nonce =? 0) || (16 <? tlen nonce) then None
      else sig ← sscanf_llx t4;
           Some (string_of_list_ascii uid, platform, ts, string_of_list_ascii nonce, sig).

(** The user, the platform and the time of issue; None is -1. *)
Definition miku_token_verify_ex (r : revokes) (token secret : option string) (cap now : Z) : option (string * Z * Z) :=
  match token, secret with
  | Some token, Some secret =>
      if cap =? 0 then None
      else
        '(uid, platform, ts, nonce, sig) ← token_fields (str token) cap;
        if negb (compute_sig uid platform ts nonce secret =? sig) then None
        else if MIKU_TOKEN_EXPIRY_SECONDS * 1000 <? i64 (now - ts) then None
        else if is_revoked r uid platform ts then None
        else Some (uid, platform, ts)
  | _, _ => None
  end.

Definition miku_token_verify (r : revokes) (token secret : option string) (cap now : Z) : option string :=
  (fun x => x.1.1) <$> miku_token_verify_ex r token secret cap now.

(** A variable that is not set, or empty, selects the compiled-in secret. *)
Definition secret_from_env (env : option string) (fallback : string) : string :=
  if given env then default EmptyString env else fallback.

Definition miku_admin_default_secret (env : option string) : string := secret_from_env env "openIMAdmin456".
Definition miku_token_default_secret (env : option string) : string := secret_from_env env "openIM123".
Definition miku_internal_secret (env : option string) : string := secret_from_env env "openIMInternal789".

Definition miku_admin_token_create (user_id : option string) (env : option string) (token_cap : Z) (uuid : string) (ts : Z)
    : option text :=
  miku_token_create user_id 5 (Some (miku_admin_default_secret env)) token_cap uuid ts.
