(* ===== verification/TokenSpec.v ===== *)
(** * What tokens promise

    [token_roundtrip]: a created token verifies as what it was created for,
    until it expires or is revoked.  [signed_text_unambiguous]: the signed text
    determines user, platform, time and nonce, so that a signature cannot be
    carried over to other fields.  [token_revoked_stays]: a revocation holds
    while fewer than 4095 others follow. *)
From Stdlib Require Import Ascii String.
From S2P Require Import Prelude Hash ProbeIndex KeyedMap Json JsonText JsonEscape Models Bytes Sha1 Token.
#[local] Open Scope char_scope.
#[local] Open Scope Z_scope.

(** ** Numbers *)

Lemma fmt_lld_chars z c : LLONG_MIN <= z <= LLONG_MAX -> c ∈ fmt_lld z -> is_digit c = true \/ c = "-".
Proof.
  intros Hz. destruct (fmt_lld_shape z Hz) as (sg & ds & -> & Hs & Hd & _). rewrite elem_of_app. intros [Hc|Hc].
  - right. destruct Hs as [[-> _]|[-> _]]; [by apply elem_of_nil in Hc|by apply list_elem_of_singleton in Hc].
  - left. rewrite list.Forall_forall in Hd. auto.
Qed.

Lemma fmt_lld_no z c : LLONG_MIN <= z <= LLONG_MAX -> is_digit c = false -> c <> "-" -> c ∉ fmt_lld z.
Proof. intros Hz Hd Hm Hc. destruct (fmt_lld_chars z c Hz Hc); congruence. Qed.

Lemma fmt_lld_inj a b :
  LLONG_MIN <= a <= LLONG_MAX -> LLONG_MIN <= b <= LLONG_MAX -> fmt_lld a = fmt_lld b -> a = b.
Proof.
  intros Ha Hb E. pose proof (parse_int a [] Ha I) as Pa. pose proof (parse_int b [] Hb I) as Pb.
  rewrite E, Pb in Pa. by simplify_eq.
Qed.

Lemma skip_space_head c t : is_space c = false -> skip_space (c :: t) = c :: t.
Proof. cbn. by intros ->. Qed.

Lemma is_digit_facts c : is_digit c = true -> is_space c = false /\ is_sign c = false.
Proof. by destruct c as [[] [] [] [] [] [] [] []]. Qed.

(** A printed number is read back, whatever text that is no digit follows. *)
Lemma scan_dec_fmt z r :
  LLONG_MIN <= z <= LLONG_MAX -> num_end r -> scan_dec (fmt_lld z ++ r)%list = Some z.
Proof.
  intros Hz Hr. destruct (fmt_lld_shape z Hz) as (sg & ds & -> & Hs & Hd & Hl). unfold scan_dec.
  destruct Hd as [|c ds Hc Hd]; [cbn in Hl; lia|]. destruct (is_digit_facts c Hc) as [H1 H2].
  pose proof (span_digits_run (c :: ds) r (list.Forall_cons_2 _ _ _ Hc Hd) Hr) as Es. cbn [app] in Es.
  assert (forall v, v = z -> Some (clamp64 v) = Some z) as Hcl.
  { intros v ->. f_equal. unfold clamp64. lia. }
  destruct Hs as [[-> Hv]|[-> Hv]]; cbn [app].
  - rewrite skip_space_head by done. cbn [take_if]. rewrite H2, Es. cbn [fst nil_b]. by apply Hcl.
  - rewrite skip_space_head by done. cbn [take_if]. change (is_sign "-") with true. cbn iota. rewrite Es. cbn [fst nil_b].
    rewrite bool_decide_eq_true_2 by done. apply Hcl. lia.
Qed.

Lemma sscanf_d_fmt z r :
  -2147483648 <= z < 2147483648 -> num_end r -> sscanf_d (fmt_lld z ++ r)%list = Some z.
Proof.
  intros Hz Hr. unfold sscanf_d. rewrite scan_dec_fmt; [|unfold LLONG_MIN, LLONG_MAX; lia|done]. cbn. by rewrite i32_small.
Qed.

(** ** Hexadecimal signatures *)

Lemma hex_digit_ok d : 0 <= d < 16 -> hex_val (hex_digit d) = Some d /\ is_x (hex_digit d) = false /\
  is_space (hex_digit d) = false /\ is_sign (hex_digit d) = false /\ hex_digit d <> "|" /\ hex_digit d <> NUL.
Proof.
  intros H. assert (d ∈ seqZ 0 16) as Hin by (apply elem_of_seqZ; lia). cbn in Hin.
  repeat (apply elem_of_cons in Hin as [->|Hin]; [done|]). by apply elem_of_nil in Hin.
Qed.

Definition hex_char (c : ascii) : Prop := exists d, 0 <= d < 16 /\ c = hex_digit d.

Lemma hex_text_ok n : forall v, 0 <= v ->
  Forall hex_char (hex_text n v) /\ hex_value (hex_text n v) = v mod 16 ^ Z.of_nat n /\ length (hex_text n v) = n.
Proof.
  induction n as [|n IH]; intros v Hv; [cbn; rewrite Z.mod_1_r; by split_and!; [constructor| |]|].
  cbn [hex_text]. destruct (IH (v / 16)) as (H1 & H2 & H3); [apply Z.div_pos; lia|].
  pose proof (Z.mod_pos_bound v 16 ltac:(lia)) as Hm. split_and!.
  - apply list.Forall_app. split; [done|]. constructor; [by eexists|constructor].
  - unfold hex_value in *. rewrite foldl_app, H2. cbn [foldl]. rewrite (proj1 (hex_digit_ok _ Hm)). cbn [default].
    rewrite Nat2Z.inj_succ, Z.pow_succ_r by lia. assert (0 < 16 ^ Z.of_nat n) by (apply Z.pow_pos_nonneg; lia).
    rewrite (Z.rem_mul_r v 16 (16 ^ Z.of_nat n)) by lia. unfold id. lia.
  - rewrite length_app, H3. cbn. lia.
Qed.

Lemma span_hex_all t : Forall hex_char t -> span_hex t = t.
Proof. induction 1 as [|c t (d & Hd & ->) _ IH]; [done|]. cbn. rewrite (proj1 (hex_digit_ok d Hd)). by rewrite IH. Qed.

Lemma sscanf_llx_hex v : 0 <= v < 2 ^ 64 -> sscanf_llx (hex_text 16 v) = Some v.
Proof.
  intros Hv. destruct (hex_text_ok 16 v ltac:(lia)) as (Hc & Hx & Hl). change (16 ^ Z.of_nat 16) with (2 ^ 64) in Hx.
  rewrite Z.mod_small in Hx by done. revert Hc Hx Hl. generalize (hex_text 16 v) as t. intros t Hc Hx Hl.
  destruct t as [|c t]; [done|]. pose proof Hc as [(d & Hd & Ec) Ht]%list.Forall_cons.
  destruct (hex_digit_ok d Hd) as (_ & _ & H1 & H2 & _). rewrite <- Ec in H1, H2.
  unfold sscanf_llx. rewrite skip_space_head by done. cbn [take_if]. rewrite H2. cbn [take_if].
  assert ((ULLONG_MAX <? v) = false) as Hmax by (apply Z.ltb_ge; unfold ULLONG_MAX; lia).
  destruct (Ascii.eqb "0" c) eqn:E0; cbn [nil_b app take_if].
  - assert ((take_if is_x t).2 = t) as E.
    { destruct t as [|c2 t2]; [done|]. apply list.Forall_cons in Ht as [(d2 & Hd2 & ->) _]. cbn [take_if].
      by rewrite (proj1 (proj2 (hex_digit_ok d2 Hd2))). }
    apply Ascii.eqb_eq in E0. rewrite E, span_hex_all by done. rewrite Hx, Hmax. done.
  - rewrite span_hex_all by done. cbn [nil_b]. rewrite Hx, Hmax. done.
Qed.

Lemma compute_sig_bound uid p ts nonce secret : 0 <= compute_sig uid p ts nonce secret < 2 ^ 64.
Proof.
  unfold compute_sig. case_match; [lia|]. set (mac := miku_sha1 _).
  apply (foldl_inv (fun r => 0 <= r < 2 ^ 64)); [lia|]. intros r b Hb Hr. apply lor_bound; [lia|apply uwrap_bound; lia|].
  assert (b ∈ mac) as Hm by (eapply elem_of_sublist; [exact Hb|apply sublist_take]).
  pose proof (sha1_bytes (pad_with 0x5c (key_block secret) ++ miku_sha1 (pad_with 0x36 (key_block secret) ++ text_bytes (signed_text uid p ts nonce)))%list) as HB.
  rewrite list.Forall_forall in HB. specialize (HB b Hm). unfold is_byte in HB. lia.
Qed.

(** ** Round trip *)

Lemma cut_at_app c a b : c ∉ a -> cut_at c (a ++ c :: b)%list = Some (a, b).
Proof.
  induction a as [|x a IH]; cbn [app cut_at]; [by rewrite Ascii.eqb_refl|].
  rewrite not_elem_of_cons. intros [Hx Ha]. rewrite (proj2 (Ascii.eqb_neq x c)) by congruence. by rewrite IH.
Qed.

Lemma starts_with_app w t : starts_with w (w ++ t)%list = true.
Proof. unfold starts_with. rewrite take_app_length. by apply bool_decide_eq_true. Qed.

Lemma str_nonempty s : nonempty s = true -> tlen (str s) <> 0.
Proof. destruct s; [done|]. intros _. unfold tlen, str. cbn. lia. Qed.

(** The fields that a printed token has. *)
Lemma token_fields_text uid p ts nonce sig cap :
  nonempty uid = true -> "|" ∉ str uid -> tlen (str uid) < cap -> -2147483648 <= p < 2147483648 ->
  LLONG_MIN <= ts <= LLONG_MAX -> nonempty nonce = true -> "|" ∉ str nonce -> tlen (str nonce) <= 16 -> 0 <= sig < 2 ^ 64 ->
  token_fields (token_text uid p ts nonce sig) cap = Some (uid, p, ts, nonce, sig).
Proof.
  intros Hu Hub Hul Hp Hts Hn Hnb Hnl Hs. unfold token_fields, token_text.
  assert (LLONG_MIN <= p <= LLONG_MAX) as Hp64 by (unfold LLONG_MIN, LLONG_MAX; lia).
  rewrite starts_with_app. cbn [negb]. change 5%nat with (length (str "miku|")). rewrite drop_app_length.
  rewrite cut_at_app by done. cbn [mbind option_bind].
  pose proof (str_nonempty uid Hu). pose proof (str_nonempty nonce Hn).
  rewrite (proj2 (Z.eqb_neq _ 0)), (proj2 (Z.leb_gt cap _)) by lia. cbn [orb].
  rewrite sscanf_d_fmt by done. cbn [mbind option_bind]. rewrite cut_at_app by (by apply fmt_lld_no). cbn [mbind option_bind].
  unfold sscanf_lld. rewrite scan_dec_fmt by done. cbn [mbind option_bind]. rewrite cut_at_app by (by apply fmt_lld_no).
  cbn [mbind option_bind]. rewrite cut_at_app by done. cbn [mbind option_bind].
  rewrite (proj2 (Z.eqb_neq _ 0)), (proj2 (Z.ltb_ge 16 _)) by lia. cbn [orb].
  rewrite sscanf_llx_hex by done. cbn [mbind option_bind]. unfold str. by rewrite !string_of_list_ascii_of_string.
Qed.

Lemma strn_str_length n s : tlen (str (strn n s)) <= Z.of_nat n.
Proof.
  unfold tlen, str. assert (length (list_ascii_of_string (strn n s)) = String.length (strn n s)) as ->.
  { generalize (strn n s) as x. intros x. induction x as [|c x IH]; cbn; [done|by f_equal]. }
  rewrite strn_length. lia.
Qed.

(** What a token can be issued for: a user id and a nonce without the
    separator, and machine integers. *)
Definition issuable (uid : string) (p ts : Z) (uuid : string) : Prop :=
  nonempty uid = true /\ "|" ∉ str uid /\ -2147483648 <= p < 2147483648 /\ LLONG_MIN <= ts <= LLONG_MAX /\
  nonempty (strn 16 uuid) = true /\ "|" ∉ str (strn 16 uuid).

(** C2: a token verifies, with the secret it was created with, as exactly the
    user, platform and time it was created for, until it is 24 hours old or
    the user or the platform of the user is revoked, and as nothing else; for
    every user id without the separator that fits the caller's buffer. *)
Theorem token_roundtrip r uid p secret uuid ts token_cap cap now :
  issuable uid p ts uuid -> tlen (str uid) < cap -> tlen (str uid) + 100 <= token_cap ->
  exists t, miku_token_create (Some uid) p (Some secret) token_cap uuid ts = Some t /\
    miku_token_verify_ex r (Some (string_of_list_ascii t)) (Some secret) cap now =
      if (86400000 <? i64 (now - ts)) || is_revoked r uid p ts then None else Some (uid, p, ts).
Proof.
  intros (Hu & Hub & Hp & Hts & Hn & Hnb) Hul Hcap. set (nonce := strn 16 uuid) in *. set (sig := compute_sig uid p ts nonce secret).
  assert (tlen (str nonce) <= 16) as Hnl by apply (strn_str_length 16).
  pose proof (compute_sig_bound uid p ts nonce secret) as Hs. fold sig in Hs.
  assert (tlen (token_text uid p ts nonce sig) < token_cap) as Hlen.
  { unfold token_text. pose proof (fmt_lld_length p). pose proof (fmt_lld_length ts).
    destruct (hex_text_ok 16 sig ltac:(lia)) as (_ & _ & Hh). unfold tlen in *.
    rewrite length_app. cbn [length]. rewrite length_app. cbn [length]. rewrite length_app. cbn [length].
    rewrite length_app. cbn [length]. rewrite length_app. cbn [length]. rewrite Hh. change (length (str "miku|")) with 5%nat. lia. }
  exists (token_text uid p ts nonce sig). split.
  - unfold miku_token_create. cbn [given]. rewrite Hu. cbn [negb orb].
    assert (0 <= tlen (str uid)) by (unfold tlen; lia). rewrite (proj2 (Z.ltb_ge token_cap 32)) by lia. cbn [default].
    f_equal. fold nonce sig. unfold snprintf. cbn [fst]. apply take_ge. unfold tlen in Hlen. lia.
  - unfold miku_token_verify_ex. assert (0 <= tlen (str uid)) by (unfold tlen; lia).
    rewrite (proj2 (Z.eqb_neq cap 0)) by lia. unfold str at 1. rewrite list_ascii_of_string_of_list_ascii.
    rewrite token_fields_text by done. cbn [mbind option_bind]. fold sig. rewrite Z.eqb_refl. cbn [negb].
    change (MIKU_TOKEN_EXPIRY_SECONDS * 1000) with 86400000. by destruct (_ <? _), (is_revoked _ _ _ _).
Qed.

Lemma token_roundtrip_witness :
  exists t, miku_token_create (Some "u1"%string) 2 (Some "openIM123"%string) 128 "0123456789abcdef-0" 1700000000000 = Some t /\
    miku_token_verify_ex miku_token_revoke_clear (Some (string_of_list_ascii t)) (Some "openIM123"%string) 64 1700000001000
      = Some ("u1"%string, 2, 1700000000000).
Proof.
  destruct (token_roundtrip miku_token_revoke_clear "u1" 2 "openIM123" "0123456789abcdef-0" 1700000000000 128 64 1700000001000)
    as (t & H1 & H2); [|vm_compute; reflexivity|vm_compute; discriminate|].
  - split_and!; try reflexivity; try (vm_compute; discriminate);
      apply (bool_decide_eq_true_1 _); vm_compute; reflexivity.
  - exists t. split; [exact H1|]. rewrite H2. vm_compute. reflexivity.
Defined.

(** ** What a signature covers *)

Lemma last_split (c : ascii) (a b a' b' : text) :
  (a ++ c :: b = a' ++ c :: b')%list -> c ∉ b -> (length b' <= length b)%nat -> a = a' /\ b = b'.
Proof.
  intros E Hb Hl. destruct (decide (length a = length a')) as [Ha|Ha].
  - apply app_inj_1 in E as [-> E]; [|done]. by simplify_eq.
  - assert (length (a ++ c :: b) = length (a' ++ c :: b'))%list as L by by rewrite E.
    rewrite !length_app in L. cbn in L. exfalso. apply Hb.
    assert ((a ++ c :: b) !! length a' = Some c)%list as Hc.
    { rewrite E. rewrite lookup_app_r by lia. by rewrite Nat.sub_diag. }
    rewrite lookup_app_r in Hc by lia. destruct (length a' - length a)%nat as [|n] eqn:En; [lia|].
    cbn in Hc. by eapply list_elem_of_lookup_2.
Qed.

Lemma last_split_both (c : ascii) (a b a' b' : text) :
  (a ++ c :: b = a' ++ c :: b')%list -> c ∉ b -> c ∉ b' -> a = a' /\ b = b'.
Proof.
  intros E Hb Hb'. destruct (Nat.le_ge_cases (length b') (length b)).
  - by apply (last_split c).
  - symmetry in E. by apply (last_split c) in E as [-> ->].
Qed.

Lemma clamp64_bound v : LLONG_MIN <= clamp64 v <= LLONG_MAX.
Proof. unfold clamp64, LLONG_MIN, LLONG_MAX. lia. Qed.

Lemma swrap32_bound z : -2147483648 <= i32 z < 2147483648.
Proof.
  unfold swrap. pose proof (Z.mod_pos_bound (z + 2 ^ (32 - 1)) (2 ^ 32) ltac:(lia)) as H.
  change (2 ^ (32 - 1)) with 2147483648 in *. change (2 ^ 32) with 4294967296 in *. lia.
Qed.

(** The fields that verification reads are machine integers and a short nonce. *)
Lemma token_fields_bounds t cap uid p ts nonce sig :
  token_fields t cap = Some (uid, p, ts, nonce, sig) ->
  -2147483648 <= p < 2147483648 /\ LLONG_MIN <= ts <= LLONG_MAX /\ tlen (str nonce) <= 16.
Proof.
  unfold token_fields, sscanf_d, sscanf_lld, scan_dec. destruct (negb _); [done|]. intros H.
  repeat (match type of H with
    | mbind _ _ = Some _ => apply bind_Some in H as (? & ? & H)
    | (if ?b then _ else _) = Some _ => destruct b eqn:?; [done|]
    | match ?x with (_, _) => _ end = _ => destruct x
    end). simplify_eq.
  repeat match goal with
    | E : _ <$> _ = Some _ |- _ => apply fmap_Some in E as (? & E & ?)
    | E : (let '(_, _) := ?x in _) = Some _ |- _ => destruct x
    | E : (if _ then None else Some _) = Some _ |- _ => case_match; [done|]
    end.
  simplify_eq. split_and!; try apply swrap32_bound; try apply clamp64_bound.
  apply orb_false_iff in Heqb0 as [_ Hn]. apply Z.ltb_ge in Hn. unfold str. by rewrite list_ascii_of_string_of_list_ascii.
Qed.

(** The nonces of issued tokens: 16 characters of a uuid. *)
Definition issued_nonce (nonce : string) : Prop := length (str nonce) = 16%nat /\ ":" ∉ str nonce.

(** The text under the signature determines the user, the platform, the
    time and the nonce, also for user ids with colons: what verification reads
    from a token whose signed text is that of an issued token is exactly what
    the issued token says, so a signature cannot be moved to another user, to
    another platform or to a later time. *)
Theorem signed_text_unambiguous uid p ts nonce token cap uid' p' ts' nonce' sig :
  -2147483648 <= p < 2147483648 -> LLONG_MIN <= ts <= LLONG_MAX -> issued_nonce nonce ->
  token_fields token cap = Some (uid', p', ts', nonce', sig) ->
  signed_text uid p ts nonce = signed_text uid' p' ts' nonce' ->
  uid' = uid /\ p' = p /\ ts' = ts /\ nonce' = nonce.
Proof.
  intros Hp Hts [Hn Hc] F E. apply token_fields_bounds in F as (Hp' & Hts' & Hn').
  assert (LLONG_MIN <= p <= LLONG_MAX /\ LLONG_MIN <= p' <= LLONG_MAX) as [Hq Hq'] by (unfold LLONG_MIN, LLONG_MAX; lia).
  assert (forall u q t n, signed_text u q t n = (((str u ++ ":" :: fmt_lld q) ++ ":" :: fmt_lld t) ++ ":" :: str n)%list) as Ea.
  { intros. unfold signed_text. by rewrite <- !app_assoc. }
  rewrite !Ea in E. apply last_split in E as [E En]; [|done|unfold tlen in Hn'; lia].
  apply last_split_both in E as [E Et]; [|by apply fmt_lld_no..].
  apply last_split_both in E as [Eu Ep]; [|by apply fmt_lld_no..].
  apply str_inj in Eu, En. apply fmt_lld_inj in Ep, Et; try done.
Qed.

Lemma signed_text_unambiguous_witness :
  signed_text "a:1" 2 3 "0123456789abcdef" = signed_text "a:1" 2 3 "0123456789abcdef" /\ "a:1"%string = "a:1"%string.
Proof.
  split; [reflexivity|].
  refine (proj1 (signed_text_unambiguous "a:1" 2 3 "0123456789abcdef" (str "miku|a:1|2|3|0123456789abcdef|ff") 64
    "a:1" 2 3 "0123456789abcdef" 255 _ _ _ _ _)); try lia; try (vm_compute; split; discriminate); try reflexivity.
  split; [reflexivity|]. apply (bool_decide_eq_true_1 _). vm_compute. reflexivity.
Defined.

(** ** Revocations as a map *)

Definition rv_map (r : revokes) : gmap string Z := kmap rv_key rv_since (g_revokes r).
Definition rv_ok (r : revokes) : Prop :=
  ktable (sz:=MK_TOKEN_REVOKE_HASH) rv_key revoke_slot MK_TOKEN_MAX_REVOKES (g_revoke_hash r) (g_revokes r).

Definition revoke_key (uid : string) (platform : Z) : string := if platform <? 0 then key_all uid else key_plat uid platform.

#[export] Instance pow2_revokes : Pow2 MK_TOKEN_REVOKE_HASH.
Proof. by exists 13. Qed.

Lemma revoke_slot_bound k : 0 <= revoke_slot k < MK_TOKEN_REVOKE_HASH.
Proof. apply (mask_slot_bound 13). lia. Qed.

Lemma rv_tests l k : tests rv_key l k (rv_match l k).
Proof. intros ei. unfold rv_match. destruct (at_ l ei); [|done]. apply streq_bool. Qed.

Lemma revoke_find_ok r k :
  rv_ok r ->
  (exists e, at_ (g_revokes r) (revoke_hash_find r k) = Some e /\ rv_key e = k /\ rv_map r !! k = Some (rv_since e)) \/
  (revoke_hash_find r k = -1 /\ rv_map r !! k = None /\ k ∉ rv_key <$> g_revokes r).
Proof.
  intros O. unfold revoke_hash_find, scan_find.
  destruct (ktable_find rv_key rv_since revoke_slot MK_TOKEN_MAX_REVOKES revoke_slot_bound ltac:(done)
    _ _ k _ O (rv_tests (g_revokes r) k)) as [(p & i & e & F & Hi & Hk & M)|(p & F & M & Hn)];
    rewrite F; [left|right]; eauto.
Qed.

Lemma covers_ok r k ts : rv_ok r -> covers r k ts = match rv_map r !! k with Some w => ts <=? w | None => false end.
Proof.
  intros O. unfold covers. destruct (revoke_find_ok r k O) as [(e & He & _ & M)|(-> & M & _)]; rewrite M; [by rewrite He|done].
Qed.

Lemma revoke_key_short uid p : strn 95 (revoke_key uid p) = revoke_key uid p.
Proof.
  apply strn_short. unfold revoke_key, key_all, key_plat. case_match; rewrite strn_length; lia.
Qed.

(** The rebuilt index. *)
Lemma revoke_rebuild_ok l t :
  Z.of_nat (length l) <= MK_TOKEN_MAX_REVOKES -> NoDup (rv_key <$> l) ->
  rv_ok (revoke_hash_rebuild (Revokes l t)) /\ g_revokes (revoke_hash_rebuild (Revokes l t)) = l.
Proof.
  intros Hl Hnd. unfold MK_TOKEN_MAX_REVOKES in Hl. unfold revoke_hash_rebuild. cbn [g_revokes].
  destruct (kindex_fill revoke_slot (fun r => g_revokes r = l) g_revoke_hash revoke_hash_insert (rv_key <$> l) (Revokes l ∅)
    revoke_slot_bound) as [E I].
  - rewrite length_fmap. unfold MK_TOKEN_REVOKE_HASH. lia.
  - done.
  - done.
  - intros r i k Er Hk. rewrite at_fmap in Hk. destruct (at_ l i) as [e|] eqn:Ee; [|done]. cbn in Hk. simplify_eq.
    split; [done|]. unfold revoke_hash_insert, rv_home. cbn [g_revoke_hash]. rewrite Ee. apply at_lt in Ee.
    by rewrite i16_small by lia.
  - rewrite length_fmap in E, I. split; [|done]. unfold rv_ok. rewrite E. by split.
Qed.

(** What is kept when a new key is revoked: everything, or everything but one
    of the oldest revocations when the table is full. *)
Definition revoke_room (m m' : gmap string Z) : Prop :=
  m' = m \/
  (Z.of_nat (size m) = MK_TOKEN_MAX_REVOKES /\
   exists k w, m !! k = Some w /\ (forall k' w', m !! k' = Some w' -> w <= w') /\ m' = delete k m).

Lemma revoke_ok r uid p now :
  rv_ok r -> nonempty uid = true ->
  exists r' m', miku_token_revoke r (Some uid) p now = (0, r') /\ rv_ok r' /\
    rv_map r' = <[revoke_key uid p := now]> m' /\ revoke_room (rv_map r) m' /\
    (rv_map r !! revoke_key uid p <> None -> m' = rv_map r).
Proof.
  intros O Hu. unfold miku_token_revoke. cbn [given]. rewrite Hu. cbn [negb default].
  change (id uid) with uid. fold (revoke_key uid p). rewrite revoke_key_short. set (k := revoke_key uid p).
  destruct (revoke_find_ok r k O) as [(e & He & Ek & M)|(-> & M & Hn)].
  - pose proof (at_lt _ _ _ He). rewrite (proj2 (Z.leb_le 0 _)) by lia.
    destruct (ktable_upd rv_key rv_since revoke_slot _ _ _ _ e (fun e => Revoke (rv_key e) now) O He eq_refl) as [T M'].
    eexists _, (rv_map r). split_and!; [done|exact T| |by left|done]. rewrite Ek in M'. exact M'.
  - cbn [Z.leb Z.compare]. pose proof (kt_max _ _ _ _ _ O) as Hmax. unfold MK_TOKEN_MAX_REVOKES in *.
    destruct (Z.leb_spec 4096 (Z.of_nat (length (g_revokes r)))) as [Hf|Hr].
    + destruct (g_revokes r) as [|e0 l] eqn:El; [cbn in Hf; lia|].
      destruct (oldest_min rv_since e0 l) as (old & Hold & Hmin). set (ei := oldest_from _ _ _ _ _) in *.
      destruct (kmap_replace rv_key rv_since (e0 :: l) ei old (Revoke k now)) as [Hnd' M'];
        [rewrite <- El; apply O|done|done|].
      destruct (revoke_rebuild_ok (upd_at (fun _ => Revoke k now) ei (e0 :: l)) (g_revoke_hash r)) as [O' El'];
        [rewrite length_upd_at; exact Hmax|done|].
      eexists _, _. split_and!; [done|exact O'|unfold rv_map; rewrite El'; exact M'| |by rewrite M].
      right. unfold rv_map. rewrite El. split.
      { rewrite kmap_size by (rewrite <- El; apply O). unfold MK_TOKEN_MAX_REVOKES. lia. }
      exists (rv_key old), (rv_since old). split_and!; [| |done].
      { apply (kmap_at rv_key rv_since _ ei); [rewrite <- El; apply O|done]. }
      intros k' w' Hk'. apply kmap_lookup_Some in Hk' as (i & x & Hi & _ & <-); [|rewrite <- El; apply O].
      apply Hmin. apply at_Some in Hi as [_ Hi]. by eapply list_elem_of_lookup_2.
    + destruct (ktable_insert rv_key rv_since revoke_slot 4096 revoke_slot_bound ltac:(done) _ _ (Revoke k now) O Hn Hr) as [T M'].
      eexists _, (rv_map r). split_and!; [done| |exact M'|by left|by rewrite M].
      unfold rv_ok, revoke_hash_insert, rv_home. cbn [g_revokes g_revoke_hash]. rewrite at_snoc. cbn [rv_key].
      rewrite i16_small by lia. exact T.
Qed.

(** A sequence of revocations: user, platform and time. *)
Definition run_revokes (r : revokes) (calls : list (string * Z * Z)) : revokes :=
  foldl (fun r '(uid, p, now) => (miku_token_revoke r (Some uid) p now).2) r calls.

Section Recent.
Context (t0 : Z).

(** The revocations made at [t0] or later. *)
Definition recent (m : gmap string Z) : gmap string Z := filter (fun x => t0 <= x.2) m.

Lemma recent_insert m k now : (size (recent (<[k:=now]> m)) <= size (recent m) + 1)%nat.
Proof.
  unfold recent. rewrite map_filter_insert. cbn. case_decide.
  - rewrite map_size_insert. case_match; unfold id; lia.
  - rewrite map_filter_delete. rewrite map_size_delete. case_match; unfold id; lia.
Qed.

Lemma recent_insert_old m k now : now < t0 -> recent m = ∅ -> recent (<[k:=now]> m) = ∅.
Proof.
  intros Hn E. unfold recent in *. rewrite map_filter_insert. cbn. case_decide; [lia|]. by rewrite map_filter_delete, E, delete_empty.
Qed.

Lemma recent_room m m' : revoke_room m m' -> (size (recent m') <= size (recent m))%nat.
Proof.
  intros [->|(_ & k & w & _ & _ & ->)]; [lia|]. unfold recent. rewrite map_filter_delete, map_size_delete. case_match; unfold id; lia.
Qed.

(** Room is made without a recent revocation while an older one is left. *)
Lemma room_keeps m m' k w :
  revoke_room m m' -> m !! k = Some w -> t0 <= w -> Z.of_nat (size (recent m)) < MK_TOKEN_MAX_REVOKES -> m' !! k = Some w.
Proof.
  intros [->|(Hs & k1 & w1 & Hk1 & Hmin & ->)] Hk Hw Hc; [done|]. rewrite lookup_delete_ne; [done|]. intros ->.
  enough (recent m = m) as E by (rewrite E in Hc; lia).
  apply map_filter_id. intros k' w' Hk'. cbn. apply Hmin in Hk'. simplify_eq. lia.
Qed.

Lemma run_revokes_old calls : forall r, rv_ok r -> recent (rv_map r) = ∅ -> Forall (fun c => c.2 < t0) calls ->
  rv_ok (run_revokes r calls) /\ recent (rv_map (run_revokes r calls)) = ∅.
Proof.
  induction calls as [|[[u p] now] calls IH]; intros r O E Hc; [done|]. apply list.Forall_cons in Hc as [Hn Hc]. cbn in Hn.
  cbn [run_revokes foldl]. destruct (nonempty u) eqn:Hu.
  - destruct (revoke_ok r u p now O Hu) as (r' & m' & E1 & O' & M & R & _). rewrite E1. cbn [snd]. apply IH; [done| |done].
    rewrite M. apply recent_insert_old; [done|]. apply recent_room in R. rewrite E, map_size_empty in R.
    apply map_size_empty_inv. lia.
  - unfold miku_token_revoke. cbn [given]. rewrite Hu. by apply IH.
Qed.

Lemma run_revokes_keep calls : forall r k w, rv_ok r -> rv_map r !! k = Some w -> t0 <= w ->
  Forall (fun c => t0 <= c.2) calls -> Z.of_nat (size (recent (rv_map r)) + length calls) <= MK_TOKEN_MAX_REVOKES ->
  exists w', rv_ok (run_revokes r calls) /\ rv_map (run_revokes r calls) !! k = Some w' /\ t0 <= w'.
Proof.
  induction calls as [|[[u p] now] calls IH]; intros r k w O Hk Hw Hc Hs; [by exists w|].
  apply list.Forall_cons in Hc as [Hn Hc]. cbn in Hn. cbn [run_revokes foldl length] in *. destruct (nonempty u) eqn:Hu.
  - destruct (revoke_ok r u p now O Hu) as (r' & m' & E1 & O' & M & R & _). rewrite E1. cbn [snd].
    assert (m' !! k = Some w) as Hk' by (eapply room_keeps; eauto; lia). apply recent_room in R.
    assert (exists w1, rv_map r' !! k = Some w1 /\ t0 <= w1) as (w1 & Hk1 & Hw1).
    { rewrite M. destruct (decide (revoke_key u p = k)) as [->|Hne]; [rewrite lookup_insert_eq; eauto|].
      rewrite lookup_insert_ne by done. eauto. }
    apply (IH r' k w1 O' Hk1 Hw1 Hc). rewrite M. pose proof (recent_insert m' (revoke_key u p) now). lia.
  - unfold miku_token_revoke. cbn [given]. rewrite Hu. apply (IH r k w); [done..|]. lia.
Qed.
End Recent.

Lemma rv_ok_clear : rv_ok miku_token_revoke_clear.
Proof. by apply ktable_empty. Qed.

(** C3: a revocation holds: after the user, or the platform of the user, is
    revoked at time [t0], no token of that user and platform issued until [t0]
    verifies, whatever was revoked before and as long as at most 4095
    revocations follow; re-use of table entries does not lose it. *)
Theorem token_revoked_stays before uid p t0 later q ts token secret cap now :
  Forall (fun c => c.2 < t0) before -> Forall (fun c => t0 <= c.2) later -> (length later <= 4095)%nat ->
  nonempty uid = true -> p < 0 \/ q = p -> ts <= t0 ->
  miku_token_verify_ex (run_revokes miku_token_revoke_clear (before ++ (uid, p, t0) :: later)) token secret cap now
    <> Some (uid, q, ts).
Proof.
  intros Hb Hl Hn Hu Hq Hts. unfold run_revokes. rewrite foldl_app. fold (run_revokes miku_token_revoke_clear before).
  destruct (run_revokes_old t0 before _ rv_ok_clear) as [O E]; [apply map_filter_empty|done|].
  set (r0 := run_revokes _ before) in *. cbn [foldl]. destruct (revoke_ok r0 uid p t0 O Hu) as (r1 & m' & E1 & O1 & M & R & _).
  rewrite E1. cbn [snd]. fold (run_revokes r1 later).
  destruct (run_revokes_keep t0 later r1 (revoke_key uid p) t0) as (w & O2 & Hk & Hw); [done|by rewrite M, lookup_insert_eq|lia|done| |].
  { apply (recent_room t0) in R. rewrite E, map_size_empty in R.
    pose proof (recent_insert t0 m' (revoke_key uid p) t0) as S. rewrite <- M in S. unfold MK_TOKEN_MAX_REVOKES. lia. }
  set (r2 := run_revokes r1 later) in *. assert (is_revoked r2 uid q ts = true) as Hr.
  { unfold is_revoked. rewrite !covers_ok by done. unfold revoke_key in Hk. apply orb_true_iff.
    destruct (Z.ltb_spec p 0) as [Hp|Hp]; [right|left; destruct Hq as [?| ->]; [lia|]]; rewrite Hk; apply Z.leb_le; lia. }
  unfold miku_token_verify_ex. destruct token as [tk|], secret as [sc|]; try done. case_match; [done|].
  intros H1. apply bind_Some in H1 as ([[[[u2 p2] t2] n2] s2] & _ & H2). repeat (case_match; [done|]). simplify_eq. congruence.
Qed.

Lemma token_revoked_stays_witness :
  miku_token_verify_ex (run_revokes miku_token_revoke_clear [("u2", 1, 5); ("u1", -1, 10); ("u3", 2, 11)]%string)
    (Some "miku|u1|2|9|0123456789abcdef|ff"%string) (Some "k"%string) 64 20 <> Some ("u1"%string, 2, 9).
Proof.
  apply (token_revoked_stays [("u2"%string, 1, 5)] "u1" (-1) 10 [("u3"%string, 2, 11)]); try lia; try reflexivity.
  - constructor; [cbn; lia|constructor].
  - constructor; [cbn; lia|constructor].
  - cbn. lia.
Defined.
