(* ===== verification/Pb.v ===== *)
(** * Protocol-buffer wire format (protocol/miku_pb.c)

    The writer appends to a growing buffer, the reader walks a byte range.  The
    answers of the reader are [option]: None where the C code is undefined (a
    shift by 64 or more), [Some None] for the result false. *)
From S2P Require Import Prelude Hash Bytes.

Inductive miku_pb_wire := MK_PB_VARINT | MK_PB_FIXED64 | MK_PB_BYTES | MK_PB_FIXED32.

Definition wire_int (wt : miku_pb_wire) : Z :=
  match wt with MK_PB_VARINT => 0 | MK_PB_FIXED64 => 1 | MK_PB_BYTES => 2 | MK_PB_FIXED32 => 5 end.

(** ** Writer *)

Record miku_pb_buf := PbBuf { data : bytes; cap : Z }.

Definition miku_pb_buf_create (initial_cap : Z) : miku_pb_buf :=
  PbBuf [] (if initial_cap =? 0 then 256 else initial_cap).

(** [while (new_cap < need) new_cap *= 2]; 64 doublings exceed any size. *)
Fixpoint grow (fuel : nat) (c need : Z) : Z :=
  match fuel with
  | O => c
  | S f => if c <? need then grow f (c * 2) need else c
  end.

Definition ensure_cap (buf : miku_pb_buf) (need : Z) : miku_pb_buf :=
  if blen (data buf) + need <=? cap buf then buf
  else PbBuf (data buf) (grow 64 (cap buf) (blen (data buf) + need)).

(** [ensure_cap], copy, [len += n]. *)
Definition append (buf : miku_pb_buf) (b : bytes) : miku_pb_buf :=
  let buf := ensure_cap buf (blen b) in PbBuf (data buf ++ b) (cap buf).

(** The do-while loop that fills [tmp[10]]. *)
Fixpoint varint_loop (fuel : nat) (v : Z) : bytes :=
  match fuel with
  | O => []
  | S f =>
      let b := u8 (Z.land v 127) in
      let v' := Z.shiftr v 7 in
      if 0 <? v' then Z.lor b 128 :: varint_loop f v' else [b]
  end.

Definition encode_varint_raw (buf : miku_pb_buf) (v : Z) : miku_pb_buf := append buf (varint_loop 10 v).

Definition encode_tag (buf : miku_pb_buf) (field : Z) (wt : miku_pb_wire) : miku_pb_buf :=
  append buf (varint_loop 10 (Z.lor (u64 (Z.shiftl field 3)) (wire_int wt))).

Definition miku_pb_write_varint (buf : miku_pb_buf) (field v : Z) : miku_pb_buf :=
  encode_varint_raw (encode_tag buf field MK_PB_VARINT) v.

Definition zigzag (v : Z) : Z := Z.lxor (u64 (Z.shiftl (u64 v) 1)) (u64 (Z.shiftr v 63)).

Definition miku_pb_write_svarint (buf : miku_pb_buf) (field v : Z) : miku_pb_buf :=
  miku_pb_write_varint buf field (zigzag v).

(** [n] bytes of [v], least significant first. *)
Definition le_bytes (n v : Z) : bytes := (fun i => u8 (Z.shiftr v (i * 8))) <$> seqZ 0 n.

Definition miku_pb_write_fixed32 (buf : miku_pb_buf) (field v : Z) : miku_pb_buf :=
  append (encode_tag buf field MK_PB_FIXED32) (le_bytes 4 v).

Definition miku_pb_write_fixed64 (buf : miku_pb_buf) (field v : Z) : miku_pb_buf :=
  append (encode_tag buf field MK_PB_FIXED64) (le_bytes 8 v).

Definition miku_pb_write_sfixed32 (buf : miku_pb_buf) (field v : Z) : miku_pb_buf :=
  miku_pb_write_fixed32 buf field (u32 v).

Definition miku_pb_write_sfixed64 (buf : miku_pb_buf) (field v : Z) : miku_pb_buf :=
  miku_pb_write_fixed64 buf field (u64 v).

Definition miku_pb_write_bool (buf : miku_pb_buf) (field : Z) (v : bool) : miku_pb_buf :=
  miku_pb_write_varint buf field (if v then 1 else 0).

Definition miku_pb_write_bytes (buf : miku_pb_buf) (field : Z) (b : bytes) : miku_pb_buf :=
  let buf := encode_varint_raw (encode_tag buf field MK_PB_BYTES) (blen b) in
  if blen b =? 0 then buf else append buf b.

(** [strlen] of a NULL pointer is not taken: the length is 0. *)
Definition miku_pb_write_string (buf : miku_pb_buf) (field : Z) (s : option string) : miku_pb_buf :=
  miku_pb_write_bytes buf field (match s with Some s => byte_of <$> String.list_ascii_of_string s | None => [] end).

(** ** Reader *)

Record miku_pb_reader := PbReader { r_data : bytes; r_pos : Z }.

Definition miku_pb_reader_init (d : bytes) : miku_pb_reader := PbReader d 0.

(** The decoding loop over the bytes from [pos] on: the value and how many
    bytes were taken. *)
Fixpoint varint_in (d : bytes) (shift v n : Z) : option (Z * Z) :=
  match d with
  | [] => Some (v, n)
  | b :: d' =>
      if 64 <=? shift then None
      else
        let v := Z.lor v (u64 (Z.shiftl (Z.land b 127) shift)) in
        if Z.land b 128 =? 0 then Some (v, n + 1) else varint_in d' (shift + 7) v (n + 1)
  end.

Definition rest (r : miku_pb_reader) : bytes := drop (Z.to_nat (r_pos r)) (r_data r).

Definition miku_pb_read_varint (r : miku_pb_reader) : option (option (Z * miku_pb_reader)) :=
  if blen (r_data r) <=? r_pos r then Some None
  else
    '(v, n) ← varint_in (rest r) 0 0 0;
    Some (Some (v, PbReader (r_data r) (r_pos r + n))).

(** The field number and the wire type. *)
Definition miku_pb_read_field (r : miku_pb_reader) : option (option (Z * Z * miku_pb_reader)) :=
  if blen (r_data r) <=? r_pos r then Some None
  else
    '(tag, n) ← varint_in (rest r) 0 0 0;
    Some (Some (u32 (Z.shiftr tag 3), Z.land tag 7, PbReader (r_data r) (r_pos r + n))).

Definition unzigzag (v : Z) : Z := i64 (Z.lxor (Z.shiftr v 1) (u64 (- Z.land v 1))).

Definition miku_pb_read_svarint (r : miku_pb_reader) : option (option (Z * miku_pb_reader)) :=
  match miku_pb_read_varint r with
  | Some (Some (v, r')) => Some (Some (unzigzag v, r'))
  | Some None => Some None
  | None => None
  end.

(** [n] bytes at [pos] as an integer, least significant first. *)
Definition le_value (d : bytes) (pos n : Z) : Z :=
  foldl (fun v i => Z.lor v (u64 (Z.shiftl (default 0 (at_ d (pos + i))) (i * 8)))) 0 (seqZ 0 n).

Definition read_fixed (n : Z) (r : miku_pb_reader) : option (Z * miku_pb_reader) :=
  if blen (r_data r) <? u64 (r_pos r + n) then None
  else Some (le_value (r_data r) (r_pos r) n, PbReader (r_data r) (r_pos r + n)).

Definition miku_pb_read_fixed32 : miku_pb_reader -> option (Z * miku_pb_reader) := read_fixed 4.
Definition miku_pb_read_fixed64 : miku_pb_reader -> option (Z * miku_pb_reader) := read_fixed 8.

(** The offset of the bytes, their number and the reader; [pos + l] is computed
    in [size_t]. *)
Definition miku_pb_read_bytes (r : miku_pb_reader) : option (option (Z * Z * miku_pb_reader)) :=
  match miku_pb_read_varint r with
  | Some (Some (l, r')) =>
      Some (if blen (r_data r') <? u64 (r_pos r' + l) then None
            else Some (r_pos r', l, PbReader (r_data r') (u64 (r_pos r' + l))))
  | Some None => Some None
  | None => None
  end.

(** The reader a read leaves. *)
Definition reader_of {A} (res : option (option (A * miku_pb_reader))) : option (option miku_pb_reader) :=
  match res with
  | Some (Some (_, r)) => Some (Some r)
  | Some None => Some None
  | None => None
  end.

Definition miku_pb_skip (r : miku_pb_reader) (wire_type : Z) : option (option miku_pb_reader) :=
  match wire_type with
  | 0 => reader_of (miku_pb_read_varint r)
  | 1 => reader_of (Some (read_fixed 8 r))
  | 2 => reader_of (miku_pb_read_bytes r)
  | 5 => reader_of (Some (read_fixed 4 r))
  | _ => Some None
  end.

(** ** Varints *)

Lemma varint_loop_in fuel v shift acc n post :
  0 <= v < 2 ^ (7 * Z.of_nat fuel) -> (0 < fuel)%nat -> 0 <= shift -> v * 2 ^ shift < 2 ^ 64 -> shift < 64 ->
  0 <= acc < 2 ^ shift ->
  varint_in (varint_loop fuel v ++ post) shift acc n =
    Some (acc + v * 2 ^ shift, n + blen (varint_loop fuel v)).
Proof.
  revert v shift acc n. induction fuel as [|f IH]; intros v shift acc n Hv Hf Hs Hb H64 Ha; [lia|].
  cbn [varint_loop].
  assert (Z.land v 127 = v mod 128) as -> by (change 127 with (2 ^ 7 - 1); by rewrite land_mask).
  pose proof (Z.mod_pos_bound v 128 ltac:(lia)) as Bm.
  rewrite (uwrap_small 8) by lia. rewrite Z.shiftr_div_pow2 by lia. change (2 ^ 7) with 128.
  destruct (group_bits (v mod 128) Bm) as (G1 & G2 & G3 & G4 & G5).
  assert (0 < 2 ^ shift) as Ps by (apply Z.pow_pos_nonneg; lia).
  assert (v = 128 * (v / 128) + v mod 128) as Ev by (apply Z.div_mod; lia).
  assert (forall x, 0 <= x -> x * 2 ^ shift < 2 ^ 64 -> Z.lor acc (u64 (Z.shiftl x shift)) = acc + x * 2 ^ shift) as Lor.
  { intros x Hx Hx2. rewrite (uwrap_small 64) by (rewrite Z.shiftl_mul_pow2 by lia; nia).
    rewrite Z.lor_comm, lor_shiftl_add by lia. lia. }
  bool_case; cbn [app varint_in]; (bool_case; [lia|]).
  - assert (128 <= v) as Hv128 by lia.
    rewrite G1, G2, G3.
    change (128 =? 0) with false. cbn iota. rewrite Lor by nia.
    assert (shift + 7 < 64) as Hs7.
    { apply (Z.pow_lt_mono_r_iff 2); [lia|lia|]. rewrite Z.pow_add_r by lia. change (2 ^ 7) with 128. nia. }
    assert (2 ^ (shift + 7) = 2 ^ shift * 128) as E7 by (rewrite Z.pow_add_r by lia; done).
    assert (v / 128 < 2 ^ (7 * Z.of_nat f)) as Hvf.
    { apply Z.div_lt_upper_bound; [lia|]. change 128 with (2 ^ 7) at 1. rewrite <- Z.pow_add_r by lia.
      replace (7 + 7 * Z.of_nat f) with (7 * Z.of_nat (S f)) by lia. lia. }
    assert (f <> 0)%nat as Hf0 by (intros ->; cbn in Hvf; lia).
    rewrite IH; [|split; [lia|done]|lia|lia|rewrite E7; nia|done|rewrite E7; nia].
    f_equal. f_equal; [rewrite E7; nia|]. unfold blen. cbn [length]. lia.
  - assert (v / 128 = 0) as E0 by (pose proof (Z.div_pos v 128); lia).
    rewrite G4, G5.
    cbn iota. rewrite Lor by nia. change (blen [v mod 128]) with 1.
    replace (v mod 128) with v by lia. done.
Qed.

(** Ten bytes are enough for 64 bits. *)
Lemma varint_in_written v post :
  0 <= v < 2 ^ 64 -> varint_in (varint_loop 10 v ++ post) 0 0 0 = Some (v, blen (varint_loop 10 v)).
Proof.
  intros Hv. rewrite varint_loop_in by lia. f_equal. f_equal. lia.
Qed.

Lemma varint_loop_pos fuel v : (0 < fuel)%nat -> 0 < blen (varint_loop fuel v).
Proof. intros Hf. destruct fuel; [lia|]. cbn [varint_loop]. bool_case; unfold blen; cbn [length]; lia. Qed.

Lemma varint_loop_length fuel v : blen (varint_loop fuel v) <= Z.of_nat fuel.
Proof.
  revert v. induction fuel as [|f IH]; intros v; [done|]. cbn [varint_loop].
  bool_case; unfold blen in *; cbn [length]; [|lia]. specialize (IH (Z.shiftr v 7)). lia.
Qed.

(** ** Fixed-width integers *)

Lemma le_value_written pre n v post :
  0 <= n <= 8 -> 0 <= v < 2 ^ (8 * n) -> le_value (pre ++ le_bytes n v ++ post) (blen pre) n = v.
Proof.
  intros Hn Hv. unfold le_value.
  assert (forall k, 0 <= k <= n ->
    foldl (fun a i => Z.lor a (u64 (Z.shiftl (default 0 (at_ (pre ++ le_bytes n v ++ post) (blen pre + i))) (i * 8))))
      0 (seqZ 0 k) = v mod 2 ^ (8 * k)) as L.
  { intros k [Hk0 Hkn]. revert k Hk0 Hkn. refine (natlike_ind _ _ _); [intros _; by rewrite Z.mod_1_r|]. intros k Hk IH Hkn.
    change (Z.succ k) with (k + 1) at 1. rewrite seqZ_app, foldl_app by lia.
    replace (seqZ (0 + k) 1) with [k] by (rewrite Z.add_0_l; unfold seqZ; cbn; by rewrite ?Z.add_0_l). cbn [foldl]. rewrite IH by lia.
    unfold blen. rewrite at_app_r by lia. rewrite at_app_l by (unfold le_bytes; rewrite length_fmap, length_seqZ; lia).
    assert (at_ (le_bytes n v) k = Some (u8 (Z.shiftr v (k * 8)))) as ->.
    { unfold le_bytes. rewrite at_fmap. assert (at_ (seqZ 0 n) k = Some k) as ->; [|done].
      apply at_Some. split; [done|]. apply lookup_seqZ. lia. }
    cbn [default from_option]. rewrite u8_shiftr by lia. unfold id.
    set (a := v mod 2 ^ (8 * k)). set (b := v / 2 ^ (k * 8) mod 256).
    assert (0 <= a < 2 ^ (8 * k)) as Ba by (apply Z.mod_pos_bound; apply Z.pow_pos_nonneg; lia).
    assert (0 <= b < 256) as Bb by (apply Z.mod_pos_bound; lia).
    assert (2 ^ (8 * Z.succ k) = 2 ^ (8 * k) * 256) as E by (rewrite <- Z.pow_add_r with (b := 8 * k) (c := 8) by lia; f_equal; lia).
    assert (2 ^ (8 * Z.succ k) <= 2 ^ 64) as B64 by (apply Z.pow_le_mono_r; lia).
    rewrite (uwrap_small 64) by (rewrite Z.shiftl_mul_pow2, (Z.mul_comm k 8) by lia; nia).
    rewrite Z.lor_comm, (Z.mul_comm k 8), lor_shiftl_add by lia.
    rewrite E, Z.rem_mul_r by (try lia; apply Z.pow_nonzero; lia).
    subst a b. rewrite (Z.mul_comm k 8). lia. }
  rewrite (L n ltac:(lia)). by apply Z.mod_small.
Qed.

Lemma le_bytes_length n v : 0 <= n -> blen (le_bytes n v) = n.
Proof. intros Hn. unfold blen, le_bytes. rewrite length_fmap, length_seqZ. lia. Qed.

(** ** Fields *)

Inductive pb_value :=
| PbVarint (v : Z) | PbSvarint (v : Z) | PbFixed64 (v : Z) | PbBytes (b : bytes) | PbFixed32 (v : Z).

Definition wire_of (v : pb_value) : miku_pb_wire :=
  match v with
  | PbVarint _ | PbSvarint _ => MK_PB_VARINT
  | PbFixed64 _ => MK_PB_FIXED64
  | PbBytes _ => MK_PB_BYTES
  | PbFixed32 _ => MK_PB_FIXED32
  end.

(** The write and the read of a field whose kind both sides know. *)
Definition write_value (buf : miku_pb_buf) (f : Z * pb_value) : miku_pb_buf :=
  match f.2 with
  | PbVarint v => miku_pb_write_varint buf f.1 v
  | PbSvarint v => miku_pb_write_svarint buf f.1 v
  | PbFixed64 v => miku_pb_write_fixed64 buf f.1 v
  | PbBytes b => miku_pb_write_bytes buf f.1 b
  | PbFixed32 v => miku_pb_write_fixed32 buf f.1 v
  end.

Definition read_as (v : pb_value) (r : miku_pb_reader) : option (option (pb_value * miku_pb_reader)) :=
  match v with
  | PbVarint _ => match miku_pb_read_varint r with
                  | Some (Some (x, r')) => Some (Some (PbVarint x, r')) | Some None => Some None | None => None end
  | PbSvarint _ => match miku_pb_read_svarint r with
                   | Some (Some (x, r')) => Some (Some (PbSvarint x, r')) | Some None => Some None | None => None end
  | PbFixed64 _ => Some (match miku_pb_read_fixed64 r with Some (x, r') => Some (PbFixed64 x, r') | None => None end)
  | PbFixed32 _ => Some (match miku_pb_read_fixed32 r with Some (x, r') => Some (PbFixed32 x, r') | None => None end)
  | PbBytes _ => match miku_pb_read_bytes r with
                 | Some (Some (off, l, r')) =>
                     b ← slice (r_data r) off l; Some (Some (PbBytes b, r'))
                 | Some None => Some None | None => None end
  end.

Definition value_fits (v : pb_value) : Prop :=
  match v with
  | PbVarint v | PbFixed64 v => 0 <= v < 2 ^ 64
  | PbSvarint v => - 2 ^ 63 <= v < 2 ^ 63
  | PbFixed32 v => 0 <= v < 2 ^ 32
  | PbBytes b => blen b < 2 ^ 62
  end.

Definition field_fits (f : Z * pb_value) : Prop := 0 <= f.1 < 2 ^ 32 /\ value_fits f.2.

Definition tag_of (f : Z * pb_value) : Z := Z.lor (u64 (Z.shiftl f.1 3)) (wire_int (wire_of f.2)).

Definition enc_value (v : pb_value) : bytes :=
  match v with
  | PbVarint v => varint_loop 10 v
  | PbSvarint v => varint_loop 10 (zigzag v)
  | PbFixed64 v => le_bytes 8 v
  | PbBytes b => varint_loop 10 (blen b) ++ b
  | PbFixed32 v => le_bytes 4 v
  end.

Definition enc_field (f : Z * pb_value) : bytes := varint_loop 10 (tag_of f) ++ enc_value f.2.

Lemma ensure_cap_data buf n : data (ensure_cap buf n) = data buf.
Proof. unfold ensure_cap. by bool_case. Qed.

Lemma append_data buf b : data (append buf b) = data buf ++ b.
Proof. unfold append. cbn [data]. by rewrite ensure_cap_data. Qed.

Lemma write_value_data buf f : data (write_value buf f) = data buf ++ enc_field f.
Proof.
  destruct f as [n v]. unfold write_value, enc_field, tag_of. cbn [fst snd].
  destruct v as [v|v|v|b|v]; cbn [wire_of enc_value];
    unfold miku_pb_write_svarint, miku_pb_write_varint, miku_pb_write_fixed64, miku_pb_write_fixed32,
      miku_pb_write_bytes, encode_varint_raw, encode_tag; try (by rewrite !append_data, app_assoc).
  destruct (Z.eqb_spec (blen b) 0) as [E|E]; rewrite !append_data, !app_assoc; [|done].
  destruct b; [by rewrite app_nil_r|]. unfold blen in E. cbn [length] in E. lia.
Qed.

(** ** Zigzag *)

Lemma lxor_ones a n : 0 < n -> 0 <= a < 2 ^ n -> Z.lxor a (Z.ones n) = 2 ^ n - 1 - a.
Proof.
  intros Hn Ha. assert (Z.log2 a < n) as Hl.
  { destruct (decide (a = 0)) as [->|]; [cbn; lia|]. apply Z.log2_lt_pow2; lia. }
  rewrite <- Z.ldiff_ones_l_low by lia. rewrite <- Z.sub_nocarry_ldiff by (apply Z.ldiff_ones_r_low; lia).
  rewrite Z.ones_equiv. lia.
Qed.

Lemma zigzag_value v : - 2 ^ 63 <= v < 2 ^ 63 -> zigzag v = if v <? 0 then -2 * v - 1 else 2 * v.
Proof.
  intros Hv. change (2 ^ 63) with 9223372036854775808 in *.
  assert (Z.shiftr v 63 = if v <? 0 then -1 else 0) as Es.
  { rewrite Z.shiftr_div_pow2 by lia. change (2 ^ 63) with 9223372036854775808.
    bool_case; Z.to_euclidean_division_equations; lia. }
  assert (u64 (Z.shiftl (u64 v) 1) = if v <? 0 then 2 * v + 2 ^ 64 else 2 * v) as Eu.
  { unfold uwrap. rewrite Z.shiftl_mul_pow2 by lia. change (2 ^ 1) with 2.
    change (2 ^ 64) with 18446744073709551616. bool_case; Z.to_euclidean_division_equations; lia. }
  unfold zigzag. rewrite Es, Eu. bool_case; [|apply Z.lxor_0_r].
  change (u64 (-1)) with (Z.ones 64). rewrite lxor_ones by lia. lia.
Qed.

Lemma unzigzag_zigzag v : - 2 ^ 63 <= v < 2 ^ 63 -> unzigzag (zigzag v) = v /\ 0 <= zigzag v < 2 ^ 64.
Proof.
  intros Hv. rewrite zigzag_value by done. split; [|bool_case; lia]. unfold unzigzag.
  assert (forall z, Z.land z 1 = z mod 2) as L1.
  { intros z. change (Z.land z 1) with (Z.land z (2 ^ 1 - 1)). by rewrite land_mask. }
  rewrite L1, Z.shiftr_div_pow2 by lia. change (2 ^ 1) with 2.
  bool_case.
  - replace ((-2 * v - 1) / 2) with (- v - 1) by (Z.to_euclidean_division_equations; lia).
    replace ((-2 * v - 1) mod 2) with 1 by (Z.to_euclidean_division_equations; lia).
    change (u64 (Z.opp 1)) with (Z.ones 64). rewrite lxor_ones by lia.
    replace (2 ^ 64 - 1 - (- v - 1)) with (v + 2 ^ 64) by lia. unfold swrap.
    replace (v + 2 ^ 64 + 2 ^ (64 - 1)) with (v + 2 ^ (64 - 1) + 1 * 2 ^ 64) by lia. rewrite Z.mod_add by lia.
    rewrite Z.mod_small; lia.
  - replace (2 * v / 2) with v by (Z.to_euclidean_division_equations; lia).
    replace (2 * v mod 2) with 0 by (Z.to_euclidean_division_equations; lia).
    change (u64 (Z.opp 0)) with 0. rewrite Z.lxor_0_r. by apply i64_small.
Qed.

(** ** Reading a written field *)

Lemma tag_range f : field_fits f -> 0 <= tag_of f < 2 ^ 64 /\ u32 (Z.shiftr (tag_of f) 3) = f.1 /\
  Z.land (tag_of f) 7 = wire_int (wire_of f.2).
Proof.
  intros [Hf _]. unfold tag_of.
  assert (0 <= wire_int (wire_of f.2) < 8) as Hw by (destruct f.2; cbn; lia).
  assert (u64 (Z.shiftl f.1 3) = Z.shiftl f.1 3) as ->.
  { apply uwrap_small. rewrite Z.shiftl_mul_pow2 by lia. lia. }
  rewrite lor_shiftl_add by lia. change (2 ^ 3) with 8. split_and!; [lia..| |].
  - rewrite Z.shiftr_div_pow2 by lia. change (2 ^ 3) with 8.
    replace ((f.1 * 8 + wire_int (wire_of f.2)) / 8) with f.1 by (Z.to_euclidean_division_equations; lia).
    by apply uwrap_small.
  - change 7 with (2 ^ 3 - 1). rewrite land_mask by lia. change (2 ^ 3) with 8.
    Z.to_euclidean_division_equations. lia.
Qed.

Section At.
(** A reader stands before [b] in a buffer of sensible size. *)
Context (pre b post : bytes).
Let d := pre ++ b ++ post.
Let here := PbReader d (blen pre).
Let after := PbReader d (blen pre + blen b).
Hypothesis size_ok : blen d < 2 ^ 63.

Lemma rest_here : rest here = b ++ post.
Proof using. unfold rest, here. cbn [r_pos r_data]. unfold blen. rewrite Nat2Z.id. apply drop_app_length. Qed.

Lemma here_inside : 0 < blen b -> (blen (r_data here) <=? r_pos here) = false.
Proof using.
  intros Hb. unfold here, d. cbn [r_pos r_data]. rewrite !blen_app. pose proof (blen_nonneg post).
  apply Z.leb_gt. lia.
Qed.

Lemma read_varint_here v :
  0 <= v < 2 ^ 64 -> b = varint_loop 10 v -> miku_pb_read_varint here = Some (Some (v, after)).
Proof using.
  intros Hv Hb. unfold miku_pb_read_varint. rewrite here_inside by (rewrite Hb; apply varint_loop_pos; lia).
  rewrite rest_here, Hb, varint_in_written by done. cbn [mbind option_bind]. unfold after. by rewrite Hb.
Qed.

Lemma read_field_here f :
  field_fits f -> b = varint_loop 10 (tag_of f) ->
  miku_pb_read_field here = Some (Some (f.1, wire_int (wire_of f.2), after)).
Proof using.
  intros Hf Hb. destruct (tag_range f Hf) as (T1 & T2 & T3).
  unfold miku_pb_read_field. rewrite here_inside by (rewrite Hb; apply varint_loop_pos; lia).
  rewrite rest_here, Hb, varint_in_written by done. cbn [mbind option_bind]. unfold after. by rewrite T2, T3, Hb.
Qed.

Lemma read_fixed_here n v :
  0 <= n <= 8 -> 0 <= v < 2 ^ (8 * n) -> b = le_bytes n v -> read_fixed n here = Some (v, after).
Proof using size_ok.
  intros Hn Hv Hb. unfold read_fixed. assert (blen b = n) as L by (rewrite Hb; apply le_bytes_length; lia).
  pose proof (blen_nonneg pre). pose proof (blen_nonneg post).
  assert (blen d = blen pre + n + blen post) as Ld by (unfold d; rewrite !blen_app; lia).
  unfold here. cbn [r_pos r_data]. rewrite (uwrap_small 64) by lia.
  bool_case; [lia|]. unfold after. rewrite L. f_equal. f_equal.
  unfold d. rewrite Hb. by apply le_value_written.
Qed.
End At.

(** One field: number and wire type, then the value. *)
Definition read_next (v : pb_value) (r : miku_pb_reader) : option ((Z * pb_value) * miku_pb_reader) :=
  match miku_pb_read_field r with
  | Some (Some (fld, wt, r1)) =>
      match read_as v r1 with Some (Some (x, r2)) => Some ((fld, x), r2) | _ => None end
  | _ => None
  end.

Definition skip_next (r : miku_pb_reader) : option miku_pb_reader :=
  match miku_pb_read_field r with
  | Some (Some (_, wt, r1)) => match miku_pb_skip r1 wt with Some (Some r2) => Some r2 | _ => None end
  | _ => None
  end.

(** The fields of a message, read as the kinds of [fs]. *)
Fixpoint read_all (fs : list (Z * pb_value)) (r : miku_pb_reader) : option (list (Z * pb_value) * miku_pb_reader) :=
  match fs with
  | [] => Some ([], r)
  | f :: fs => '(x, r) ← read_next f.2 r; '(xs, r) ← read_all fs r; Some (x :: xs, r)
  end.

Fixpoint skip_all (n : nat) (r : miku_pb_reader) : option miku_pb_reader :=
  match n with O => Some r | S n => r ← skip_next r; skip_all n r end.

Lemma enc_value_pos v : value_fits v -> 0 <= blen (enc_value v).
Proof. intros _. apply blen_nonneg. Qed.

(** The value after the tag: the read of its kind, and the skip, end after it. *)
Lemma read_value_here pre v post :
  value_fits v -> blen (pre ++ enc_value v ++ post) < 2 ^ 63 ->
  let d := pre ++ enc_value v ++ post in
  let after := PbReader d (blen pre + blen (enc_value v)) in
  read_as v (PbReader d (blen pre)) = Some (Some (v, after)) /\
  miku_pb_skip (PbReader d (blen pre)) (wire_int (wire_of v)) = Some (Some after).
Proof.
  intros Hv Hd d after. destruct v as [v|v|v|b|v]; cbn [wire_of wire_int enc_value value_fits] in *;
    unfold miku_pb_skip, read_as.
  - unfold after, d. rewrite (read_varint_here pre _ post v) by done. done.
  - destruct (unzigzag_zigzag v Hv) as [Z1 Z2]. unfold miku_pb_read_svarint, after, d.
    rewrite (read_varint_here pre _ post (zigzag v)) by done. by rewrite Z1.
  - unfold miku_pb_read_fixed64, after, d. rewrite (read_fixed_here pre _ post Hd 8 v) by done. done.
  - pose proof (blen_nonneg b) as Hb0. pose proof (blen_nonneg pre). pose proof (blen_nonneg post).
    set (t := varint_loop 10 (blen b)) in *.
    assert (d = pre ++ t ++ b ++ post) as Ed by (unfold d; by rewrite <- app_assoc).
    assert (blen d = blen pre + blen t + blen b + blen post) as Ld by (rewrite Ed, !blen_app; lia).
    pose proof (blen_nonneg t). assert (blen d < 2 ^ 63) as Hd' by exact Hd.
    assert (miku_pb_read_bytes (PbReader d (blen pre)) = Some (Some (blen pre + blen t, blen b, after))) as R.
    { unfold miku_pb_read_bytes. rewrite Ed, (read_varint_here pre t (b ++ post) (blen b)), <- Ed by (done || lia).
      cbn [r_data r_pos]. rewrite (uwrap_small 64) by lia.
      bool_case; [lia|]. unfold after. by rewrite blen_app, Z.add_assoc. }
    rewrite R. cbn [reader_of r_data].
    assert (slice d (blen pre + blen t) (blen b) = Some b) as ->; [|done].
    rewrite Ed, <- blen_app, app_assoc. apply slice_app.
  - unfold miku_pb_read_fixed32, after, d. rewrite (read_fixed_here pre _ post Hd 4 v) by done. done.
Qed.

Lemma read_next_here pre f post :
  field_fits f -> blen (pre ++ enc_field f ++ post) < 2 ^ 63 ->
  let d := pre ++ enc_field f ++ post in
  let after := PbReader d (blen pre + blen (enc_field f)) in
  read_next f.2 (PbReader d (blen pre)) = Some (f, after) /\ skip_next (PbReader d (blen pre)) = Some after.
Proof.
  intros Hf Hd d after. unfold enc_field in *.
  set (t := varint_loop 10 (tag_of f)) in *. set (e := enc_value f.2) in *.
  assert (d = pre ++ t ++ e ++ post) as Ed by (unfold d; by rewrite <- app_assoc).
  assert (d = (pre ++ t) ++ e ++ post) as Ed2 by (by rewrite Ed, app_assoc).
  assert (miku_pb_read_field (PbReader d (blen pre)) =
    Some (Some (f.1, wire_int (wire_of f.2), PbReader d (blen (pre ++ t))))) as R.
  { rewrite Ed at 1. rewrite (read_field_here pre t (e ++ post) f) by done. by rewrite <- Ed, blen_app. }
  destruct (read_value_here (pre ++ t) f.2 post (proj2 Hf)) as [R1 R2]; [fold e; rewrite <- Ed2; exact Hd|].
  fold e in R1, R2. rewrite <- Ed2 in R1, R2. unfold read_next, skip_next. rewrite R, R1, R2.
  unfold after. rewrite !blen_app, Z.add_assoc. by destruct f.
Qed.

Lemma read_all_here pre fs post :
  Forall field_fits fs -> let d := pre ++ concat (enc_field <$> fs) ++ post in blen d < 2 ^ 63 ->
  let after := PbReader d (blen pre + blen (concat (enc_field <$> fs))) in
  read_all fs (PbReader d (blen pre)) = Some (fs, after) /\
  skip_all (length fs) (PbReader d (blen pre)) = Some after.
Proof.
  revert pre. induction fs as [|f fs IH]; intros pre Hf d Hd after.
  { unfold after. cbn [fmap list_fmap concat]. change (blen []) with 0. by rewrite Z.add_0_r. }
  rewrite list.Forall_cons in Hf. destruct Hf as [Hf Hfs].
  set (e := enc_field f) in *. set (es := concat (enc_field <$> fs)) in *.
  assert (d = pre ++ e ++ (es ++ post)) as Ed by (unfold d; cbn [fmap list_fmap concat]; fold e es; by rewrite <- app_assoc).
  assert (d = (pre ++ e) ++ es ++ post) as Ed2 by (by rewrite Ed, app_assoc).
  destruct (read_next_here pre f (es ++ post)) as [R1 R2]; [done|fold e; rewrite <- Ed; exact Hd|]. fold e in R1, R2. rewrite <- Ed in R1, R2.
  destruct (IH (pre ++ e)) as [I1 I2]; [done|fold es; rewrite <- Ed2; exact Hd|]. fold es in I1, I2. rewrite <- Ed2 in I1, I2.
  cbn [read_all skip_all length]. rewrite R1, R2. cbn [mbind option_bind].
  rewrite <- blen_app, I1, I2. cbn [mbind option_bind]. unfold after. cbn [fmap list_fmap concat]. fold e es.
  by rewrite !blen_app, !Z.add_assoc.
Qed.

Lemma write_all_data buf fs : data (foldl write_value buf fs) = data buf ++ concat (enc_field <$> fs).
Proof.
  revert buf. induction fs as [|f fs IH]; intros buf; [by rewrite app_nil_r|].
  cbn [foldl]. rewrite IH, write_value_data. cbn [fmap list_fmap concat]. by rewrite <- app_assoc.
Qed.

(** ** Properties *)

(** A message of any fields, written one after the other, is read back
    field by field with the same numbers and values, and skipping the fields by
    their wire types walks over the same boundaries, up to the exact end of the
    buffer. *)
Theorem pb_roundtrip fs c :
  Forall field_fits fs ->
  let d := data (foldl write_value (miku_pb_buf_create c) fs) in
  let last := PbReader d (blen d) in
  blen d < 2 ^ 63 ->
  read_all fs (miku_pb_reader_init d) = Some (fs, last) /\
  skip_all (length fs) (miku_pb_reader_init d) = Some last /\
  miku_pb_read_field last = Some None.
Proof.
  intros Hf d last Hd. assert (d = [] ++ concat (enc_field <$> fs) ++ []) as Ed.
  { unfold d. rewrite write_all_data, app_nil_r. done. }
  destruct (read_all_here [] fs [] Hf) as [R1 R2]; [by rewrite <- Ed|].
  assert (blen d = blen [] + blen (concat (enc_field <$> fs))) as L by (rewrite Ed at 1; by rewrite app_nil_r).
  rewrite <- Ed, <- L in R1, R2. split_and!; [exact R1|exact R2|].
  unfold miku_pb_read_field, last. cbn [r_data r_pos]. bool_case; [done|lia].
Qed.

(** ** Bounds of the writer and of the reader *)

Lemma grow_enough fuel c need : 0 < c -> need <= c * 2 ^ Z.of_nat fuel -> need <= grow fuel c need /\ c <= grow fuel c need.
Proof.
  revert c. induction fuel as [|f IH]; intros c Hc Hn; [cbn in *; lia|]. cbn [grow]. bool_case; [|lia].
  destruct (IH (c * 2)); [lia| |lia]. rewrite Nat2Z.inj_succ, Z.pow_succ_r in Hn by lia. lia.
Qed.

(** The data never outgrows the allocation. *)
Definition buf_ok (buf : miku_pb_buf) : Prop := blen (data buf) <= cap buf /\ 0 < cap buf.

Lemma pb_append_ok buf b : buf_ok buf -> blen (data buf ++ b) < 2 ^ 63 -> buf_ok (append buf b).
Proof.
  intros [H1 H2] Hl. rewrite blen_app in Hl. unfold append, ensure_cap, buf_ok. bool_case; cbn [data cap]; rewrite blen_app; [lia|].
  destruct (grow_enough 64 (cap buf) (blen (data buf) + blen b)); [lia| |lia].
  change (Z.of_nat 64) with 64. lia.
Qed.

Lemma write_value_ok buf f : buf_ok buf -> blen (data buf ++ enc_field f) < 2 ^ 63 -> buf_ok (write_value buf f).
Proof.
  destruct f as [n v]. unfold enc_field. intros H Hl.
  assert (forall x, 0 <= blen (x : bytes)) as P by apply blen_nonneg.
  unfold write_value, miku_pb_write_svarint, miku_pb_write_varint, miku_pb_write_fixed64, miku_pb_write_fixed32,
      miku_pb_write_bytes, encode_varint_raw, encode_tag.
  destruct v as [v|v|v|b|v]; cbn [fst snd] in *; unfold tag_of in Hl; cbn [fst snd wire_of enc_value] in Hl;
    rewrite !blen_app in Hl;
    match type of Hl with ?a + (?t + ?e) < _ => pose proof (P (data buf)); assert (0 <= t) by apply P; assert (0 <= e) by (rewrite <- ?blen_app; apply P) end;
    try (apply pb_append_ok; [apply pb_append_ok; [done|]|]; rewrite ?append_data, !blen_app; lia).
  rewrite ?blen_app in Hl. pose proof (P (varint_loop 10 (blen b))). pose proof (P b).
  bool_case; [apply pb_append_ok; [apply pb_append_ok; [done|]|]; rewrite ?append_data, !blen_app; lia|].
  apply pb_append_ok; [apply pb_append_ok; [apply pb_append_ok; [done|]|]|]; rewrite ?append_data, !blen_app; lia.
Qed.

(** Whatever fields are written, and whatever the initial capacity, the
    bytes of the message stay inside the allocated buffer: the doubling loop
    always reaches a capacity that holds the next piece. *)
Theorem pb_writer_in_bounds fs c :
  0 <= c -> blen (data (foldl write_value (miku_pb_buf_create c) fs)) < 2 ^ 63 ->
  buf_ok (foldl write_value (miku_pb_buf_create c) fs).
Proof.
  intros Hc. assert (buf_ok (miku_pb_buf_create c)) as H0.
  { unfold buf_ok, miku_pb_buf_create. cbn [data cap]. change (blen []) with 0. bool_case; lia. }
  revert H0. generalize (miku_pb_buf_create c). clear c Hc. induction fs as [|f fs IH]; intros buf Hb Hl; [done|].
  cbn [foldl] in *. apply IH; [|done]. apply write_value_ok; [done|]. rewrite <- write_value_data.
  rewrite write_all_data, blen_app in Hl. pose proof (blen_nonneg (concat (enc_field <$> fs))). lia.
Qed.

Lemma varint_in_range d shift v n x k :
  0 <= v < 2 ^ 64 -> varint_in d shift v n = Some (x, k) -> 0 <= x < 2 ^ 64 /\ n <= k <= n + blen d.
Proof.
  revert shift v n. induction d as [|b d IH]; intros shift v n Hv; cbn [varint_in].
  - intros [= <- <-]. change (blen []) with 0. lia.
  - bool_case; [done|].
    assert (0 <= Z.lor v (u64 (Z.shiftl (Z.land b 127) shift)) < 2 ^ 64) as B.
    { apply lor_bound; [lia|done|]. apply uwrap_bound. lia. }
    assert (blen (b :: d) = blen d + 1) as L by (unfold blen; cbn [length]; lia). pose proof (blen_nonneg d).
    destruct (Z.land b 128 =? 0); [intros [= <- <-]; lia|]. intros E. apply IH in E; [lia|done].
Qed.

(** When [miku_pb_read_bytes] succeeds, the range it returns lies in the
    buffer and the reader moves to its end, except for a declared length of at
    least 2^64 - pos: there [pos + l] wraps around, the range exceeds the buffer
    and the reader moves backwards. *)
Theorem pb_read_bytes_range r off l r' :
  0 <= r_pos r -> blen (r_data r) < 2 ^ 63 -> miku_pb_read_bytes r = Some (Some (off, l, r')) ->
  r_data r' = r_data r /\ r_pos r <= off <= blen (r_data r) /\
  ((off + l <= blen (r_data r) /\ r_pos r' = off + l) \/
   (2 ^ 64 - off <= l /\ r_pos r' = off + l - 2 ^ 64 /\ r_pos r' < off)).
Proof.
  intros Hp Hd. unfold miku_pb_read_bytes, miku_pb_read_varint.
  bool_case; [done|].
  destruct (varint_in (rest r) 0 0 0) as [[x k]|] eqn:E; [|done]. cbn [mbind option_bind r_pos r_data].
  apply varint_in_range in E as [Hx Hk]; [|done].
  assert (blen (rest r) = blen (r_data r) - r_pos r) as Lr.
  { unfold rest, blen in *. rewrite length_drop. lia. }
  bool_case; [done|]. intros [= <- <- <-]. cbn [r_data r_pos]. split_and!; [done|lia..|].
  destruct (decide (r_pos r + k + x < 2 ^ 64)) as [W|W].
  - left. rewrite (uwrap_small 64) in * by lia. lia.
  - right. assert (u64 (r_pos r + k + x) = r_pos r + k + x - 2 ^ 64) as U.
    { unfold uwrap. symmetry. apply (Z.mod_unique _ _ 1); lia. }
    rewrite U. lia.
Qed.

(** A message that a reader never gets past: field 2 declares 2^64 - 11 bytes,
    and skipping it leads back to the start. *)
Definition ex_loop : bytes := [18; 245; 255; 255; 255; 255; 255; 255; 255; 255; 1].

Theorem pb_skip_loops : skip_next (miku_pb_reader_init ex_loop) = Some (miku_pb_reader_init ex_loop).
Proof. reflexivity. Qed.

Definition ex_fields : list (Z * pb_value) :=
  [(1, PbVarint 300); (2, PbBytes [104; 105]); (3, PbSvarint (-7)); (4, PbFixed32 4294967295); (5, PbFixed64 1); (6, PbBytes [])].

Lemma ex_fields_fit : Forall field_fits ex_fields.
Proof.
  repeat (apply list.Forall_cons; split; [split; cbn [fst snd value_fits]; unfold blen; cbn [length]; lia|]). by apply list.Forall_nil.
Qed.

Lemma pb_roundtrip_witness :
  let d := data (foldl write_value (miku_pb_buf_create 0) ex_fields) in
  read_all ex_fields (miku_pb_reader_init d) = Some (ex_fields, PbReader d (blen d)) /\
  skip_all 6 (miku_pb_reader_init d) = Some (PbReader d (blen d)) /\
  miku_pb_read_field (PbReader d (blen d)) = Some None.
Proof. apply (pb_roundtrip ex_fields 0); [apply ex_fields_fit|done]. Defined.

Lemma pb_writer_in_bounds_witness : buf_ok (foldl write_value (miku_pb_buf_create 1) ex_fields).
Proof. apply pb_writer_in_bounds; done. Defined.

Lemma pb_read_bytes_range_witness :
  [2; 104; 105] = [2; 104; 105] /\ 0 <= 1 <= 3 /\ ((1 + 2 <= 3 /\ 3 = 1 + 2) \/ (2 ^ 64 - 1 <= 2 /\ 3 = 1 + 2 - 2 ^ 64 /\ 3 < 1)).
Proof.
  apply (pb_read_bytes_range (PbReader [2; 104; 105] 0) 1 2 (PbReader [2; 104; 105] 3)); [done|done|reflexivity].
Defined.
