(* ===== verification/WebSocket.v ===== *)
(** * WebSocket frames, handshake and connections (protocol/miku_websocket.c)

    The encoder, the decoder and the stream reader of frames, the messages the
    server sends, the handshake, and the table that maps descriptors to
    connections.  Memory outside a buffer is None (see Bytes.v).  The socket is
    a parameter: [ws_read_full] reads from the bytes that arrive before the
    peer closes or the deadline passes. *)
From S2P Require Import Prelude Hash Bytes Base64 Sha1.

Definition MK_WS_CONTINUATION : Z := 0.
Definition MK_WS_TEXT : Z := 1.
Definition MK_WS_BINARY : Z := 2.
Definition MK_WS_CLOSE : Z := 8.
Definition MK_WS_PING : Z := 9.
Definition MK_WS_PONG : Z := 10.
Definition MK_WS_MAX_PAYLOAD : Z := 1048576.

(** [payload = None] is the NULL pointer. *)
Record miku_ws_frame := WsFrame {
  opcode : Z; fin : bool; masked : bool; payload_len : Z; masking_key : bytes; payload : option bytes }.

Definition miku_ws_frame_create : miku_ws_frame := WsFrame 0 false false 0 [0; 0; 0; 0] None.

(** [p[i] ^ key[i & 3]]. *)
Definition mask_bytes (key p : bytes) : bytes :=
  imap (fun i b => Z.lxor b (default 0 (at_ key (Z.land (Z.of_nat i) 3)))) p.

Definition bit7 (b : bool) : Z := if b then 128 else 0.

(** The two first bytes and the extended length. *)
Definition head_bytes (f : miku_ws_frame) : bytes :=
  let plen := payload_len f in
  u8 (Z.lor (bit7 (fin f)) (Z.land (opcode f) 15)) ::
  (if plen <=? 125 then [Z.lor (bit7 (masked f)) (u8 plen)]
   else if plen <=? 65535 then [Z.lor (bit7 (masked f)) 126; u8 (Z.land (Z.shiftr plen 8) 255); u8 (Z.land plen 255)]
   else Z.lor (bit7 (masked f)) 127 :: ((fun i => u8 (Z.land (Z.shiftr plen (i * 8)) 255)) <$> [7; 6; 5; 4; 3; 2; 1; 0])).

Definition hdr_size (f : miku_ws_frame) : Z :=
  2 + (if 65535 <? payload_len f then 8 else if 125 <? payload_len f then 2 else 0) + (if masked f then 4 else 0).

(** [Some None] is the status -1. *)
Definition miku_ws_frame_encode (f : miku_ws_frame) (out_cap : Z) : option (option bytes) :=
  let plen := payload_len f in
  match payload f, 0 <? plen with
  | None, true => Some None
  | p, _ =>
      if (out_cap <? hdr_size f) || (out_cap - hdr_size f <? plen) then Some None
      else
        body ← slice (default [] p) 0 plen;
        Some (Some (head_bytes f ++ (if masked f then masking_key f ++ mask_bytes (masking_key f) body else body)))
  end.

(** [plen = (plen << 8) | b] over the given bytes. *)
Definition be_value (d : bytes) : Z := foldl (fun a b => Z.lor (u64 (Z.shiftl a 8)) b) 0 d.

(** The number of bytes of the extended length, from the 7-bit length. *)
Definition ext_len (l7 : Z) : Z := if l7 =? 126 then 2 else if l7 =? 127 then 8 else 0.

(** The status and the frame as the code leaves it, on every path. *)
Definition miku_ws_frame_decode (f : miku_ws_frame) (d : bytes) : option (Z * miku_ws_frame) :=
  let len := blen d in
  if len <? 2 then Some (-1, f)
  else
    b0 ← at_ d 0; b1 ← at_ d 1;
    let f := WsFrame (Z.land b0 15) (negb (Z.land b0 128 =? 0)) (negb (Z.land b1 128 =? 0))
               (payload_len f) (masking_key f) (payload f) in
    let l7 := Z.land b1 127 in
    let ext := ext_len l7 in
    if len <? 2 + ext then Some (0, f)
    else
      e ← slice d 2 ext;
      let plen := if ext =? 0 then l7 else be_value e in
      let pos := 2 + ext in
      if MK_WS_MAX_PAYLOAD <? plen then Some (-1, f)
      else if masked f && (len <? pos + 4) then Some (0, f)
      else
        key ← (if masked f then slice d pos 4 else Some (masking_key f));
        let pos := if masked f then pos + 4 else pos in
        let f := WsFrame (opcode f) (fin f) (masked f) (payload_len f) key (payload f) in
        if len - pos <? plen then Some (0, f)
        else
          p ← slice d pos plen;
          let p := if plen =? 0 then None else Some (if masked f then mask_bytes key p else p) in
          Some (pos + plen, WsFrame (opcode f) (fin f) (masked f) plen key p).

(** ** Reading frames from a connection *)

(** The bytes read and the bytes still to come; None when the connection ends
    or times out before [n] bytes. *)
Definition ws_read_full (s : bytes) (n : Z) : option (bytes * bytes) :=
  if n <=? blen s then Some (take (Z.to_nat n) s, drop (Z.to_nat n) s) else None.

(** None is the status -1. *)
Definition miku_ws_frame_read (f : miku_ws_frame) (s : bytes) : option (Z * miku_ws_frame * bytes) :=
  '(hdr, s) ← ws_read_full s 2;
  b0 ← at_ hdr 0; b1 ← at_ hdr 1;
  let l7 := Z.land b1 127 in
  let ext := ext_len l7 in
  '(e, s) ← ws_read_full s ext;
  let plen := if ext =? 0 then l7 else be_value e in
  if MK_WS_MAX_PAYLOAD <? plen then None
  else
    let m := negb (Z.land b1 128 =? 0) in
    '(key, s) ← (if m then ws_read_full s 4 else Some (masking_key f, s));
    '(p, s) ← ws_read_full s plen;
    let p := if plen =? 0 then None else Some (if m then mask_bytes key p else p) in
    Some (plen, WsFrame (Z.land b0 15) (negb (Z.land b0 128 =? 0)) m plen key p, s).

(** ** Sending *)

(** The bytes handed to the socket, or None for -1. *)
Definition ws_send_frame (op : Z) (d : bytes) : option bytes :=
  if 4096 - 14 <? blen d then None
  else match miku_ws_frame_encode (WsFrame op true false (blen d) [0; 0; 0; 0] (Some d)) 4096 with
       | Some r => r
       | None => None
       end.

Definition miku_ws_send_text : bytes -> option bytes := ws_send_frame MK_WS_TEXT.
Definition miku_ws_send_binary : bytes -> option bytes := ws_send_frame MK_WS_BINARY.
Definition miku_ws_send_pong : bytes -> option bytes := ws_send_frame MK_WS_PONG.

(** The reason is cut to the 126 bytes that are left in the local buffer. *)
Definition miku_ws_send_close (code : Z) (reason : bytes) : option bytes :=
  ws_send_frame MK_WS_CLOSE ([u8 (Z.shiftr code 8); u8 (Z.land code 255)] ++ take 126 reason).

(** ** Handshake *)

(** The bytes of a literal. *)
Definition txt (s : string) : bytes := byte_of <$> String.list_ascii_of_string s.

Definition WS_MAGIC : bytes := txt "258EAFA5-E914-47DA-95CA-C5AB0DC85B11".

(** What the call left in [accept_out]: its status, and the text written before
    the NUL.  None when the NUL is written outside the [accept_cap] bytes. *)
Definition miku_ws_handshake (key : bytes) (accept_cap : Z) : option (Z * option bytes) :=
  if accept_cap =? 0 then Some (-1, None)
  else
    let '(b64_len, out) := miku_base64_encode (miku_sha1 (key ++ WS_MAGIC)) (accept_cap - 1) in
    if accept_cap <=? b64_len then None else Some (0, out).

(** ** Headers *)

Record frame_ok (f : miku_ws_frame) : Prop := {
  fo_opcode : 0 <= opcode f < 16;
  fo_len : payload_len f = blen (default [] (payload f)) /\ payload_len f <= MK_WS_MAX_PAYLOAD;
  fo_key : length (masking_key f) = 4%nat }.

Definition b0_good (m : bool) (op : Z) : bool :=
  let b := u8 (Z.lor (bit7 m) (Z.land op 15)) in
  (Z.land b 15 =? op) && eqb (negb (Z.land b 128 =? 0)) m.

Lemma b0_bits m op : 0 <= op < 16 ->
  Z.land (u8 (Z.lor (bit7 m) (Z.land op 15))) 15 = op /\
  negb (Z.land (u8 (Z.lor (bit7 m) (Z.land op 15))) 128 =? 0) = m.
Proof.
  intros Ho. assert (forallb (b0_good m) (seqZ 0 16) = true) as F by (destruct m; reflexivity).
  rewrite forallb_forall in F. specialize (F op).
  assert (b0_good m op = true) as G by (apply F, list_elem_of_In, elem_of_seqZ; lia).
  unfold b0_good in G. cbv zeta in G. rewrite andb_true_iff, Z.eqb_eq, eqb_true_iff in G. tauto.
Qed.

Lemma b1_bits m y : 0 <= y < 128 ->
  Z.land (Z.lor (bit7 m) y) 127 = y /\ negb (Z.land (Z.lor (bit7 m) y) 128 =? 0) = m.
Proof.
  intros Hy. destruct (group_bits y Hy) as (G1 & G2 & G3 & G4 & G5). destruct m; cbn [bit7].
  - rewrite Z.lor_comm, G1, G2, G3. done.
  - rewrite Z.lor_0_l, G4, G5. done.
Qed.

Lemma be_value_snoc d b : be_value (d ++ [b]) = Z.lor (u64 (Z.shiftl (be_value d) 8)) b.
Proof. unfold be_value. by rewrite foldl_app. Qed.

(** One more digit, most significant first. *)
Lemma be_value_step v d k :
  0 <= v < 2 ^ 64 -> 0 <= k -> be_value d = v / 2 ^ ((k + 1) * 8) ->
  be_value (d ++ [u8 (Z.land (Z.shiftr v (k * 8)) 255)]) = v / 2 ^ (k * 8).
Proof.
  intros Hv Hk E. rewrite be_value_snoc, E, land_255, Z.shiftr_div_pow2 by lia.
  rewrite u8_id by (apply Z.mod_pos_bound; lia).
  replace ((k + 1) * 8) with (k * 8 + 8) by lia. rewrite Z.pow_add_r by lia. change (2 ^ 8) with 256.
  assert (0 < 2 ^ (k * 8)) by (apply Z.pow_pos_nonneg; lia).
  rewrite <- Z.div_div by lia. set (q := v / 2 ^ (k * 8)).
  assert (0 <= q < 2 ^ 64) as Hq.
  { split; [apply Z.div_pos; lia|]. apply Z.div_lt_upper_bound; nia. }
  rewrite uwrap_small.
  - rewrite lor_shiftl_add by (try lia; apply Z.mod_pos_bound; lia). change (2 ^ 8) with 256.
    Z.to_euclidean_division_equations. lia.
  - rewrite Z.shiftl_mul_pow2 by lia. change (2 ^ 8) with 256. Z.to_euclidean_division_equations. lia.
Qed.

Lemma be_value_8 v : 0 <= v < 2 ^ 64 ->
  be_value ((fun i => u8 (Z.land (Z.shiftr v (i * 8)) 255)) <$> [7; 6; 5; 4; 3; 2; 1; 0]) = v.
Proof.
  intros Hv. transitivity (v / 2 ^ (0 * 8)); [|apply Z.div_1_r]. cbn [fmap list_fmap].
  apply (be_value_step v [_; _; _; _; _; _; _] 0); [done|lia|].
  apply (be_value_step v [_; _; _; _; _; _] 1); [done|lia|].
  apply (be_value_step v [_; _; _; _; _] 2); [done|lia|].
  apply (be_value_step v [_; _; _; _] 3); [done|lia|].
  apply (be_value_step v [_; _; _] 4); [done|lia|].
  apply (be_value_step v [_; _] 5); [done|lia|].
  apply (be_value_step v [_] 6); [done|lia|].
  apply (be_value_step v [] 7); [done|lia|].
  symmetry. by apply Z.div_small.
Qed.

Lemma be_value_2 v : 0 <= v < 65536 ->
  be_value [u8 (Z.land (Z.shiftr v 8) 255); u8 (Z.land v 255)] = v.
Proof.
  intros Hv. transitivity (v / 2 ^ (0 * 8)); [|apply Z.div_1_r]. apply (be_value_step v [_] 0); [lia|lia|].
  apply (be_value_step v [] 1); [lia|lia|]. symmetry. by apply Z.div_small.
Qed.

(** What the first bytes of an encoded frame say. *)
Lemma head_spec f : frame_ok f -> exists b0 b1 e,
  head_bytes f = b0 :: b1 :: e /\
  Z.land b0 15 = opcode f /\ negb (Z.land b0 128 =? 0) = fin f /\ negb (Z.land b1 128 =? 0) = masked f /\
  blen e = ext_len (Z.land b1 127) /\
  (if ext_len (Z.land b1 127) =? 0 then Z.land b1 127 else be_value e) = payload_len f /\
  hdr_size f = 2 + blen e + (if masked f then 4 else 0).
Proof.
  intros [Ho [Hl Hm] Hk]. destruct (b0_bits (fin f) (opcode f) Ho) as [B1 B2]. unfold MK_WS_MAX_PAYLOAD in Hm.
  assert (0 <= payload_len f) as H0 by (rewrite Hl; apply blen_nonneg).
  unfold head_bytes, hdr_size. destruct (Z.leb_spec (payload_len f) 125) as [H125|H125].
  - destruct (b1_bits (masked f) (u8 (payload_len f))) as [C1 C2]; [rewrite u8_id; unfold is_byte; lia|].
    eexists _, _, _. split; [reflexivity|]. rewrite B1, B2, C1, C2. rewrite u8_id by (unfold is_byte; lia). unfold ext_len.
    repeat (bool_case; try lia); split_and!; done.
  - destruct (Z.leb_spec (payload_len f) 65535) as [H6|H6].
    + destruct (b1_bits (masked f) 126 ltac:(lia)) as [C1 C2].
      eexists _, _, _. split; [reflexivity|]. rewrite B1, B2, C1, C2. change (ext_len 126) with 2. change (2 =? 0) with false. cbn iota.
      rewrite be_value_2 by lia. repeat (bool_case; try lia); split_and!; done.
    + destruct (b1_bits (masked f) 127 ltac:(lia)) as [C1 C2].
      eexists _, _, _. split; [reflexivity|]. rewrite B1, B2, C1, C2. change (ext_len 127) with 8. change (8 =? 0) with false. cbn iota.
      rewrite be_value_8 by lia. repeat (bool_case; try lia); split_and!; done.
Qed.

(** ** Encoding, decoding *)

Lemma mask_bytes_length key p : length (mask_bytes key p) = length p.
Proof. apply length_imap. Qed.

Lemma mask_twice key p : mask_bytes key (mask_bytes key p) = p.
Proof.
  unfold mask_bytes. apply list_eq. intros i. rewrite !list_lookup_imap.
  destruct (p !! i) as [b|]; [|done]. cbn [fmap option_fmap option_map]. f_equal.
  rewrite Z.lxor_assoc, Z.lxor_nilpotent. apply Z.lxor_0_r.
Qed.

Definition body (f : miku_ws_frame) : bytes := default [] (payload f).
Definition tail_bytes (f : miku_ws_frame) : bytes :=
  if masked f then masking_key f ++ mask_bytes (masking_key f) (body f) else body f.
Definition wire (f : miku_ws_frame) : bytes := head_bytes f ++ tail_bytes f.

(** The frame that a reader with the frame [f0] at hand ends up with. *)
Definition received (f0 f : miku_ws_frame) : miku_ws_frame :=
  WsFrame (opcode f) (fin f) (masked f) (payload_len f) (if masked f then masking_key f else masking_key f0)
          (if payload_len f =? 0 then None else Some (body f)).

Lemma slice_all d : slice d 0 (blen d) = Some d.
Proof. pose proof (slice_app [] d []) as E. by rewrite app_nil_r in E. Qed.

Lemma encode_wire f cap : frame_ok f -> hdr_size f + payload_len f <= cap ->
  miku_ws_frame_encode f cap = Some (Some (wire f)).
Proof.
  intros [_ [Hl Hm] _] Hc. fold (body f) in Hl. unfold miku_ws_frame_encode.
  assert (slice (default [] (payload f)) 0 (payload_len f) = Some (body f)) as S by (rewrite Hl; apply slice_all).
  assert (hdr_size f <= cap) as Hh by (pose proof (blen_nonneg (body f)); lia).
  destruct (Z.ltb_spec cap (hdr_size f)); [lia|]. destruct (Z.ltb_spec (cap - hdr_size f) (payload_len f)); [lia|].
  cbn [orb]. unfold wire, tail_bytes.
  destruct (payload f) eqn:Ep.
  - rewrite S. done.
  - assert (payload_len f = 0) as Hz by (rewrite Hl; unfold body; by rewrite Ep). rewrite Hz in S |- *.
    change (0 <? 0) with false. cbn iota. rewrite S. done.
Qed.

Lemma wire_length f : frame_ok f -> blen (wire f) = hdr_size f + payload_len f.
Proof.
  intros H. destruct (head_spec f H) as (b0 & b1 & e & Eh & _ & _ & _ & _ & _ & Es). destruct H as [_ [Hl _] Hk].
  unfold wire, tail_bytes. rewrite blen_app, Eh, Es, Hl. unfold body, blen in *. cbn [length].
  destruct (masked f); rewrite ?length_app, ?mask_bytes_length, ?Hk; lia.
Qed.

(** The decoder on a buffer whose two first bytes are known. *)
Lemma decode_cut f0 b0 b1 e t :
  let l7 := Z.land b1 127 in
  let m := negb (Z.land b1 128 =? 0) in
  let plen := if ext_len l7 =? 0 then l7 else be_value e in
  blen e = ext_len l7 -> plen <= MK_WS_MAX_PAYLOAD -> 0 <= plen ->
  let f1 key := WsFrame (Z.land b0 15) (negb (Z.land b0 128 =? 0)) m (payload_len f0) key (payload f0) in
  miku_ws_frame_decode f0 ([b0; b1] ++ e ++ t) =
  if m && (blen t <? 4) then Some (0, f1 (masking_key f0))
  else
    let key := if m then take 4 t else masking_key f0 in
    let t' := if m then drop 4 t else t in
    if blen t' <? plen then Some (0, f1 key)
    else
      let p := take (Z.to_nat plen) t' in
      Some (2 + blen e + (if m then 4 else 0) + plen,
            WsFrame (Z.land b0 15) (negb (Z.land b0 128 =? 0)) m plen key
              (if plen =? 0 then None else Some (if m then mask_bytes key p else p))).
Proof.
  intros l7 m plen He Hmax Hp f1. unfold miku_ws_frame_decode.
  assert (blen ([b0; b1] ++ e ++ t) = 2 + blen e + blen t) as L by (rewrite !blen_app; unfold blen; cbn [length]; lia).
  pose proof (blen_nonneg t). pose proof (blen_nonneg e). rewrite L.
  bool_case; [lia|]. change (at_ ([b0; b1] ++ e ++ t) 0) with (Some b0). change (at_ ([b0; b1] ++ e ++ t) 1) with (Some b1).
  cbn [mbind option_bind masked opcode fin payload_len masking_key payload]. fold l7. rewrite <- He.
  bool_case; [lia|]. assert (slice ([b0; b1] ++ e ++ t) 2 (blen e) = Some e) as -> by apply (slice_app [b0; b1] e t).
  cbn [mbind option_bind].
  rewrite He. fold plen. fold m. rewrite <- He.
  destruct (Z.ltb_spec MK_WS_MAX_PAYLOAD plen); [lia|].
  set (pre := [b0; b1] ++ e). assert (blen pre = 2 + blen e) as Lp by (unfold pre; rewrite blen_app; done).
  assert ([b0; b1] ++ e ++ t = pre ++ t) as -> by (unfold pre; by rewrite app_assoc).
  unfold f1. clear f1. clearbody m. destruct m; cbn [andb].
  - replace (2 + blen e + blen t <? 2 + blen e + 4) with (blen t <? 4)
      by (destruct (Z.ltb_spec (blen t) 4), (Z.ltb_spec (2 + blen e + blen t) (2 + blen e + 4)); lia).
    bool_case; [done|].
    assert (exists k t', t = k ++ t' /\ blen k = 4) as (k & t' & -> & Lk).
    { exists (take 4 t), (drop 4 t). split; [by rewrite take_drop|]. unfold blen in *. rewrite length_take. lia. }
    assert (length k = 4%nat) as Lk' by (unfold blen in Lk; lia).
    rewrite <- Lp, <- Lk at 1. rewrite slice_app. cbn [mbind option_bind masked masking_key].
    rewrite take_app_length', drop_app_length' by done. rewrite blen_app, Lk in *.
    replace (2 + blen e + (4 + blen t') - (2 + blen e + 4)) with (blen t') by lia.
    bool_case; [done|].
    assert (slice (pre ++ k ++ t') (2 + blen e + 4) plen = Some (take (Z.to_nat plen) t')) as ->; [|done].
    rewrite app_assoc. replace (2 + blen e + 4) with (blen (pre ++ k)) by (rewrite blen_app, Lp, Lk; lia).
    apply slice_at. lia.
  - cbn [mbind option_bind masked masking_key]. replace (2 + blen e + blen t - (2 + blen e)) with (blen t) by lia.
    bool_case; [done|].
    assert (slice (pre ++ t) (2 + blen e) plen = Some (take (Z.to_nat plen) t)) as ->; [|cbn [mbind option_bind]; by rewrite Z.add_0_r].
    rewrite <- Lp. apply slice_at. lia.
Qed.

Lemma decode_short f0 b0 b1 t :
  blen t < ext_len (Z.land b1 127) -> exists f', miku_ws_frame_decode f0 ([b0; b1] ++ t) = Some (0, f').
Proof.
  intros Hs. unfold miku_ws_frame_decode. rewrite blen_app. change (blen [b0; b1]) with 2. pose proof (blen_nonneg t).
  bool_case; [lia|]. change (at_ ([b0; b1] ++ t) 0) with (Some b0). change (at_ ([b0; b1] ++ t) 1) with (Some b1).
  cbn [mbind option_bind]. bool_case; [|lia]. eauto.
Qed.

Lemma wire_cut f : frame_ok f -> exists b0 b1 e, forall rest,
  wire f ++ rest = [b0; b1] ++ e ++ tail_bytes f ++ rest /\ blen (wire f) = 2 + blen e + blen (tail_bytes f) /\
  Z.land b0 15 = opcode f /\ negb (Z.land b0 128 =? 0) = fin f /\ negb (Z.land b1 128 =? 0) = masked f /\
  blen e = ext_len (Z.land b1 127) /\
  (if ext_len (Z.land b1 127) =? 0 then Z.land b1 127 else be_value e) = payload_len f.
Proof.
  intros H. destruct (head_spec f H) as (b0 & b1 & e & Eh & E1 & E2 & E3 & E4 & E5 & _). exists b0, b1, e. intros rest.
  unfold wire. rewrite Eh. split_and!; try done.
  - by rewrite <- app_assoc.
  - rewrite blen_app. unfold blen. cbn [length]. lia.
Qed.

Lemma tail_cut f rest :
  frame_ok f ->
  (masked f = true -> take 4 (tail_bytes f ++ rest) = masking_key f /\
     drop 4 (tail_bytes f ++ rest) = mask_bytes (masking_key f) (body f) ++ rest /\
     blen (tail_bytes f) = 4 + payload_len f) /\
  (masked f = false -> tail_bytes f = body f /\ blen (tail_bytes f) = payload_len f).
Proof.
  intros [_ [Hl _] Hk]. unfold tail_bytes, body, blen in *. split; intros ->.
  - rewrite <- app_assoc, take_app_length', drop_app_length' by done. split_and!; [done|done|].
    rewrite length_app, mask_bytes_length, Hk, Hl. lia.
  - split; done.
Qed.

Lemma decode_wire f0 f rest :
  frame_ok f -> miku_ws_frame_decode f0 (wire f ++ rest) = Some (blen (wire f), received f0 f).
Proof.
  intros H. destruct (wire_cut f H) as (b0 & b1 & e & C). destruct (C rest) as (Ew & Lw & E1 & E2 & E3 & E4 & E5).
  destruct (tail_cut f rest H) as [Tm Tu]. destruct H as [_ [Hl Hm] Hk].
  pose proof (blen_nonneg rest). assert (0 <= payload_len f) as H0 by (rewrite Hl; apply blen_nonneg).
  assert (blen (body f) = payload_len f) as Lb by done.
  rewrite Ew, decode_cut by (rewrite ?E5; done). rewrite E1, E2, E3, E5. unfold received.
  assert (take (Z.to_nat (payload_len f)) (body f ++ rest) = body f) as Tb.
  { apply take_app_length'. unfold blen in Lb. lia. }
  destruct (masked f) eqn:Em; cbn [andb].
  - destruct (Tm eq_refl) as (T1 & T2 & T3). rewrite T1, T2, !blen_app, T3.
    assert (blen (mask_bytes (masking_key f) (body f)) = payload_len f) as Lmk.
    { rewrite <- Lb. unfold blen. by rewrite mask_bytes_length. }
    rewrite Lmk. bool_case; [lia|]. bool_case; [lia|].
    rewrite take_app_length' by (unfold blen in Lmk; lia). rewrite mask_twice, Lw, T3. by rewrite Z.add_assoc.
  - destruct (Tu eq_refl) as (T1 & T2). rewrite T1, blen_app, Lb. bool_case; [lia|].
    rewrite Tb, Lw, T2, Z.add_0_r. done.
Qed.

Lemma decode_prefix f0 f k :
  frame_ok f -> 2 <= k < blen (wire f) -> exists f', miku_ws_frame_decode f0 (take (Z.to_nat k) (wire f)) = Some (0, f').
Proof.
  intros H Hk. destruct (wire_cut f H) as (b0 & b1 & e & C). destruct (C []) as (Ew & Lw & E1 & E2 & E3 & E4 & E5).
  rewrite !app_nil_r in Ew. destruct (tail_cut f [] H) as [Tm Tu]. rewrite app_nil_r in Tm. destruct H as [_ [Hl Hm] Hkey].
  assert (0 <= payload_len f) as H0 by (rewrite Hl; apply blen_nonneg).
  rewrite Ew. rewrite take_app_ge by (cbn [length]; lia). cbn [length].
  set (j := (Z.to_nat k - 2)%nat). destruct (decide (j < length e)%nat) as [Hj|Hj].
  - rewrite take_app_le by lia. apply decode_short. rewrite <- E4. unfold blen. rewrite length_take. lia.
  - rewrite take_app_ge by lia. set (t := take (j - length e) (tail_bytes f)).
    assert (blen t < blen (tail_bytes f)) as Lt.
    { subst t j. unfold blen in *. rewrite length_take. lia. }
    rewrite decode_cut by (rewrite ?E5; done). rewrite E3, E5.
    destruct (masked f) eqn:Em; cbn [andb].
    + destruct (Tm eq_refl) as (T1 & T2 & T3). bool_case; [eauto|].
      assert (blen (drop 4 t) = blen t - 4) as L4 by (unfold blen in *; rewrite length_drop; lia).
      rewrite L4. bool_case; [eauto|lia].
    + destruct (Tu eq_refl) as (T1 & T2). bool_case; [eauto|lia].
Qed.

(** ** Properties *)

(** A frame with any opcode, flags, mask and payload of at most 1 MiB is
    decoded as it was encoded, with the number of bytes it takes, whatever
    follows it; given only a part of it, of two bytes or more, the decoder asks
    for more bytes. *)
Theorem ws_frame_roundtrip f f0 cap rest :
  frame_ok f -> hdr_size f + payload_len f <= cap ->
  exists out, miku_ws_frame_encode f cap = Some (Some out) /\ blen out <= cap /\
  miku_ws_frame_decode f0 (out ++ rest) = Some (blen out, received f0 f) /\
  (forall k, 2 <= k < blen out -> exists f', miku_ws_frame_decode f0 (take (Z.to_nat k) out) = Some (0, f')).
Proof.
  intros H Hc. exists (wire f). split_and!.
  - by apply encode_wire.
  - by rewrite wire_length.
  - by apply decode_wire.
  - intros k Hk. by apply decode_prefix.
Qed.

Lemma be_value_nonneg d : Forall is_byte d -> 0 <= be_value d.
Proof.
  intros Hd. unfold be_value. apply foldl_inv; [done|]. intros a b Hb Ha.
  apply Z.lor_nonneg. split; [apply uwrap_bound; lia|]. 
  rewrite list.Forall_forall in Hd. specialize (Hd b Hb). unfold is_byte in Hd. lia.
Qed.

Lemma decode_big f0 b0 b1 e t :
  blen e = ext_len (Z.land b1 127) ->
  MK_WS_MAX_PAYLOAD < (if ext_len (Z.land b1 127) =? 0 then Z.land b1 127 else be_value e) ->
  exists f', miku_ws_frame_decode f0 ([b0; b1] ++ e ++ t) = Some (-1, f').
Proof.
  intros He Hb. unfold miku_ws_frame_decode.
  assert (blen ([b0; b1] ++ e ++ t) = 2 + blen e + blen t) as -> by (rewrite !blen_app; unfold blen; cbn [length]; lia).
  pose proof (blen_nonneg t). pose proof (blen_nonneg e).
  bool_case; [lia|]. change (at_ ([b0; b1] ++ e ++ t) 0) with (Some b0). change (at_ ([b0; b1] ++ e ++ t) 1) with (Some b1).
  cbn [mbind option_bind]. rewrite <- He in *. bool_case; [lia|].
  assert (slice ([b0; b1] ++ e ++ t) 2 (blen e) = Some e) as -> by apply (slice_app [b0; b1] e t). cbn [mbind option_bind].
  destruct (Z.ltb_spec MK_WS_MAX_PAYLOAD (if blen e =? 0 then Z.land b1 127 else be_value e)); [eauto|lia].
Qed.

(** C39: on any bytes, from any peer, the decoder stays inside the buffer and
    consumes no more than it; a frame it accepts has the announced number of
    payload bytes, at most 1 MiB. *)
Theorem ws_decode_safe f0 d :
  Forall is_byte d ->
  exists rc f', miku_ws_frame_decode f0 d = Some (rc, f') /\ -1 <= rc <= blen d /\
  (0 < rc -> payload_len f' = blen (default [] (payload f')) /\ payload_len f' <= MK_WS_MAX_PAYLOAD).
Proof.
  intros Hd. destruct d as [|b0 [|b1 d]].
  1, 2: unfold miku_ws_frame_decode; bool_case; [|unfold blen in *; cbn [length] in *; lia];
    eexists _, _; split; [done|]; split; [unfold blen; cbn [length]; lia|lia].
  rewrite !list.Forall_cons in Hd. destruct Hd as (Hb0 & Hb1 & Hd). change (b0 :: b1 :: d) with ([b0; b1] ++ d).
  assert (0 <= ext_len (Z.land b1 127)) as Hx by (unfold ext_len; repeat bool_case; lia).
  rewrite blen_app. change (blen [b0; b1]) with 2. pose proof (blen_nonneg d).
  destruct (decide (blen d < ext_len (Z.land b1 127))) as [Hs|Hs].
  { destruct (decode_short f0 b0 b1 d Hs) as [f' E]. exists 0, f'. split; [done|]. lia. }
  assert (exists e t, d = e ++ t /\ blen e = ext_len (Z.land b1 127)) as (e & t & -> & He).
  { exists (take (Z.to_nat (ext_len (Z.land b1 127))) d), (drop (Z.to_nat (ext_len (Z.land b1 127))) d).
    split; [by rewrite take_drop|]. unfold blen in *. rewrite length_take. lia. }
  apply list.Forall_app in Hd as [Hed _].
  set (plen := if ext_len (Z.land b1 127) =? 0 then Z.land b1 127 else be_value e).
  assert (0 <= plen) as Hp.
  { subst plen. bool_case; [|by apply be_value_nonneg]. apply Z.land_nonneg. lia. }
  destruct (decide (MK_WS_MAX_PAYLOAD < plen)) as [Hbig|Hbig].
  { destruct (decode_big f0 b0 b1 e t He Hbig) as [f' E]. exists (-1), f'. split; [done|]. lia. }
  rewrite blen_app in *. pose proof (blen_nonneg t). pose proof (blen_nonneg e).
  rewrite (decode_cut f0 b0 b1 e t He) by (fold plen; lia). cbv zeta. fold plen.
  set (m := negb (Z.land b1 128 =? 0)). set (t' := if m then drop 4 t else t).
  destruct (m && (blen t <? 4)) eqn:Em; [eexists _, _; split; [done|]; lia|].
  destruct (Z.ltb_spec (blen t') plen); [eexists _, _; split; [done|]; lia|].
  assert (blen t' + (if m then 4 else 0) = blen t) as Lt.
  { subst t'. destruct m; [|lia]. cbn [andb] in Em. apply Z.ltb_ge in Em. unfold blen in *. rewrite length_drop. lia. }
  assert (0 <= (if m then 4 else 0)) by (destruct m; lia).
  eexists _, _; split; [done|]. split; [lia|]. intros _. cbn [payload payload_len]. split; [|lia].
  assert (length (take (Z.to_nat plen) t') = Z.to_nat plen) as Ltk by (unfold blen in *; rewrite length_take; lia).
  destruct (Z.eqb_spec plen 0) as [->|]; [done|]. cbn [default from_option].
  unfold id, blen. destruct m; rewrite ?mask_bytes_length, Ltk; lia.
Qed.

(** ** A stream of frames *)

Lemma read_full_app a b : ws_read_full (a ++ b) (blen a) = Some (a, b).
Proof.
  unfold ws_read_full. rewrite blen_app. pose proof (blen_nonneg b). bool_case; [|lia].
  unfold blen. by rewrite Nat2Z.id, take_app_length, drop_app_length.
Qed.

Lemma read_wire f0 f rest :
  frame_ok f -> miku_ws_frame_read f0 (wire f ++ rest) = Some (payload_len f, received f0 f, rest).
Proof.
  intros H. destruct (wire_cut f H) as (b0 & b1 & e & C). destruct (C rest) as (Ew & Lw & E1 & E2 & E3 & E4 & E5).
  destruct H as [_ [Hl Hm] Hk]. unfold miku_ws_frame_read. rewrite Ew.
  change 2 with (blen [b0; b1]). rewrite read_full_app. cbn [mbind option_bind].
  change (at_ [b0; b1] 0) with (Some b0). change (at_ [b0; b1] 1) with (Some b1). cbn [mbind option_bind].
  rewrite <- E4, read_full_app. cbn [mbind option_bind]. rewrite E4, E5, E1, E2, E3.
  destruct (Z.ltb_spec MK_WS_MAX_PAYLOAD (payload_len f)); [lia|]. unfold tail_bytes, received.
  fold (body f) in Hl. destruct (masked f).
  - rewrite <- app_assoc. change 4 with (Z.of_nat 4). rewrite <- Hk. fold (blen (masking_key f)). rewrite read_full_app.
    cbn [mbind option_bind]. assert (payload_len f = blen (mask_bytes (masking_key f) (body f))) as Hp.
    { rewrite Hl. unfold blen. by rewrite mask_bytes_length. }
    rewrite Hp at 1. rewrite read_full_app. cbn [mbind option_bind]. by rewrite mask_twice.
  - cbn [mbind option_bind]. rewrite Hl at 1. rewrite read_full_app. done.
Qed.

(** The frames that successive reads of a connection deliver. *)
Fixpoint read_frames (n : nat) (s : bytes) : option (list miku_ws_frame * bytes) :=
  match n with
  | O => Some ([], s)
  | S n =>
      '(_, f, s) ← miku_ws_frame_read miku_ws_frame_create s;
      '(fs, s) ← read_frames n s;
      Some (f :: fs, s)
  end.

(** Frames that arrive back to back are delivered one by one, in order,
    each with its own payload: no byte of one is taken for another. *)
Theorem ws_stream_in_order fs rest :
  Forall frame_ok fs ->
  read_frames (length fs) (concat (wire <$> fs) ++ rest) = Some (received miku_ws_frame_create <$> fs, rest).
Proof.
  induction fs as [|f fs IH]; intros H; [done|]. rewrite list.Forall_cons in H. destruct H as [Hf Hfs].
  cbn [length read_frames fmap list_fmap concat]. rewrite <- app_assoc, read_wire by done. cbn [mbind option_bind].
  rewrite (IH Hfs). done.
Qed.

(** ** Sends and the handshake *)

Lemma handshake_encode key cap : 
  miku_base64_encode (miku_sha1 (key ++ WS_MAGIC)) (cap - 1) =
  if cap - 1 <? 29 then (28, None) else (28, Some (enc_loop (miku_sha1 (key ++ WS_MAGIC)))).
Proof.
  unfold miku_base64_encode.
  assert (4 * ((blen (miku_sha1 (key ++ WS_MAGIC)) + 2) / 3) = 28) as E.
  { unfold blen. by rewrite miku_sha1_length. }
  rewrite enc_loop_length, E. change (28 + 1) with 29. done.
Qed.

(** The answer to a handshake is the 28 characters whose decoding is the
    standard SHA-1 digest of the client's key followed by the protocol's magic
    string, for every key, when the caller's buffer has at least 30 bytes; with
    a smaller buffer the text is not written and, below 29 bytes, the
    terminating NUL goes past the end. *)
Theorem ws_handshake_answer key cap :
  0 < cap ->
  (30 <= cap -> exists t, miku_ws_handshake key cap = Some (0, Some t) /\ blen t = 28 /\
     miku_base64_decode t 21 = (20, Some (sha1_ref (key ++ WS_MAGIC)))) /\
  (miku_ws_handshake key cap = None <-> cap < 29).
Proof.
  intros Hc. unfold miku_ws_handshake. rewrite handshake_encode. destruct (Z.eqb_spec cap 0); [lia|].
  set (d := miku_sha1 (key ++ WS_MAGIC)).
  assert (blen d = 20) as Ld by (unfold d, blen; by rewrite miku_sha1_length).
  assert (blen (enc_loop d) = 28) as Lt by (rewrite enc_loop_length, Ld; done).
  split.
  - intros H30. bool_case; [lia|]. bool_case; [lia|]. exists (enc_loop d). split_and!; [done|done|].
    unfold miku_base64_decode. rewrite Lt. change (negb (28 mod 4 =? 0)) with false. cbn iota.
    assert (dec_needed (enc_loop d) <= 21) as Hn.
    { unfold dec_needed. rewrite Lt. change (28 / 4 * 3) with 21.
      repeat match goal with |- context [if ?b then 1 else 0] => destruct b end; lia. }
    bool_case; [lia|]. rewrite dec_enc_loop by apply sha1_bytes. rewrite Ld. unfold d. by rewrite sha1_padding.
  - bool_case; (bool_case; [split; [lia|done]|split; [done|lia]]).
Qed.

(** A message that the server sends (text, binary, pong or close reason)
    is, for the peer, one final unmasked frame with that opcode and those
    bytes, and a message of more than 4082 bytes is refused. *)
Theorem ws_send_received op d out rest :
  0 <= op < 16 ->
  ws_send_frame op d = (if 4082 <? blen d then None else Some (wire (WsFrame op true false (blen d) [0; 0; 0; 0] (Some d)))) /\
  (ws_send_frame op d = Some out ->
   exists f, miku_ws_frame_read miku_ws_frame_create (out ++ rest) = Some (blen d, f, rest) /\
   opcode f = op /\ fin f = true /\ masked f = false /\ default [] (payload f) = d).
Proof.
  intros Ho. set (f := WsFrame op true false (blen d) [0; 0; 0; 0] (Some d)).
  assert (ws_send_frame op d = if 4082 <? blen d then None else Some (wire f)) as E.
  { unfold ws_send_frame. change (4096 - 14) with 4082. bool_case; [done|]. fold f.
    rewrite encode_wire; [done| |].
    - constructor; cbn; [done|split; [done|unfold MK_WS_MAX_PAYLOAD; lia]|done].
    - unfold hdr_size. cbn [payload_len masked f]. repeat bool_case; lia. }
  split; [done|]. rewrite E. bool_case; [done|]. intros [= <-].
  assert (frame_ok f) as Hf by (constructor; cbn; [done|split; [done|unfold MK_WS_MAX_PAYLOAD; lia]|done]).
  eexists. rewrite read_wire by done. split; [reflexivity|]. unfold received. cbn [opcode fin masked payload f body payload_len].
  split_and!; try done. destruct (Z.eqb_spec (blen d) 0) as [Hz|]; [|done].
  destruct d; [done|]. unfold blen in Hz. cbn [length] in Hz. lia.
Qed.

Definition ex_frame : miku_ws_frame := WsFrame MK_WS_TEXT true true 3 [1; 2; 3; 4] (Some [104; 105; 33]).

Lemma ex_frame_ok : frame_ok ex_frame.
Proof. by constructor. Qed.

Lemma ws_frame_roundtrip_witness :
  exists out, miku_ws_frame_encode ex_frame 9 = Some (Some out) /\ (blen out <= 9) /\
  miku_ws_frame_decode miku_ws_frame_create (out ++ [7]) = Some (blen out, received miku_ws_frame_create ex_frame) /\
  (forall k, 2 <= k < blen out -> exists f', miku_ws_frame_decode miku_ws_frame_create (take (Z.to_nat k) out) = Some (0, f')).
Proof. apply (ws_frame_roundtrip ex_frame miku_ws_frame_create 9 [7]); [apply ex_frame_ok|done]. Defined.

Lemma ws_decode_safe_witness :
  exists rc f', miku_ws_frame_decode miku_ws_frame_create [129; 255; 0; 0] = Some (rc, f') /\ -1 <= rc <= 4 /\
  (0 < rc -> payload_len f' = blen (default [] (payload f')) /\ payload_len f' <= MK_WS_MAX_PAYLOAD).
Proof. apply (ws_decode_safe miku_ws_frame_create [129; 255; 0; 0]). by apply (bool_decide_unpack _). Defined.

Lemma ws_stream_in_order_witness :
  read_frames 2 (concat (wire <$> [ex_frame; ex_frame]) ++ [5]) =
    Some (received miku_ws_frame_create <$> [ex_frame; ex_frame], [5]).
Proof. apply (ws_stream_in_order [ex_frame; ex_frame] [5]). repeat constructor; try apply ex_frame_ok; done. Defined.

Example ws_handshake_rfc :
  miku_ws_handshake (txt "dGhlIHNhbXBsZSBub25jZQ==") 64 = Some (0, Some (txt "s3pPLMBiTxaQ9kYGzzhZRbK+xOo=")).
Proof. vm_compute. reflexivity. Qed.

Lemma ws_handshake_answer_witness :
  (30 <= 64 -> exists t, miku_ws_handshake [65] 64 = Some (0, Some t) /\ blen t = 28 /\
     miku_base64_decode t 21 = (20, Some (sha1_ref ([65] ++ WS_MAGIC)))) /\
  (miku_ws_handshake [65] 64 = None <-> 64 < 29).
Proof. apply (ws_handshake_answer [65] 64). done. Defined.

Lemma ws_send_received_witness :
  ws_send_frame 1 [104] = (if 4082 <? blen [104] then None else Some (wire (WsFrame 1 true false (blen [104]) [0; 0; 0; 0] (Some [104])))) /\
  (ws_send_frame 1 [104] = Some [129; 1; 104] ->
   exists f, miku_ws_frame_read miku_ws_frame_create ([129; 1; 104] ++ []) = Some (blen [104], f, []) /\
   opcode f = 1 /\ fin f = true /\ masked f = false /\ default [] (payload f) = [104]).
Proof. apply (ws_send_received 1 [104] [129; 1; 104] []). done. Defined.
