(* ===== verification/WsServer.v ===== *)
(** * WebSocket server: handshake, sends and connection table
    (protocol/miku_websocket.c)

    [ws_accept] is one round of the accept loop on the request bytes of a new
    descriptor, [ws_handle_client] the handler of a readable descriptor.  The
    callbacks and the writes to sockets are recorded as events, in order.
    [clients] is the used prefix of the array: slots are never given back. *)
From S2P Require Import Prelude Hash Bytes Base64 Sha1 WebSocket.

Definition MAX_WS_CLIENTS : Z := 1024.
Definition MK_WS_FD_MAP : Z := 65536.

(** The descriptors of the connections; -1 for a closed one. *)
Record miku_ws_server := WsServer { clients : list Z; fd_map : gmap Z Z }.

Definition miku_ws_server_create : miku_ws_server := WsServer [] ∅.

Definition client_count (srv : miku_ws_server) : Z := Z.of_nat (length (clients srv)).

(** The first index whose descriptor is [fd], -1 if there is none. *)
Fixpoint find_from (l : list Z) (i fd : Z) : Z :=
  match l with
  | [] => -1
  | x :: l => if x =? fd then i else find_from l (i + 1) fd
  end.

(** The index of the connection, -1 for NULL. *)
Definition ws_find_conn (srv : miku_ws_server) (fd : Z) : Z :=
  let idx := if (0 <=? fd) && (fd <? MK_WS_FD_MAP) then (fd_map srv).[fd] else -1 in
  if (0 <=? idx) && (idx <? client_count srv) && bool_decide (at_ (clients srv) idx = Some fd) then idx
  else find_from (clients srv) 0 fd.

Inductive ws_event :=
| EvWrite (fd : Z) (b : bytes)
| EvMessage (idx op : Z) (d : bytes)
| EvOnClose (idx : Z)
| EvClosed (fd : Z).

(** [fd_map[fd] = -1; close(fd); conn->fd = -1]. *)
Definition drop_conn (srv : miku_ws_server) (fd idx : Z) : miku_ws_server :=
  WsServer (upd_at (fun _ => -1) idx (clients srv))
           (if (0 <=? fd) && (fd <? MK_WS_FD_MAP) then <[fd := -1]> (fd_map srv) else fd_map srv).

Definition write_event (fd : Z) (b : option bytes) : list ws_event :=
  match b with Some b => [EvWrite fd b] | None => [] end.

Definition bye : bytes := [98; 121; 101].

(** [s] are the bytes that arrive on [fd]; the bytes left are returned. *)
Definition ws_handle_client (srv : miku_ws_server) (fd : Z) (s : bytes) :
    miku_ws_server * list ws_event * bytes :=
  let idx := ws_find_conn srv fd in
  if idx <? 0 then (srv, [], s)
  else
    match miku_ws_frame_read miku_ws_frame_create s with
    | None => (drop_conn srv fd idx, [EvOnClose idx; EvClosed fd], [])
    | Some (_, f, s) =>
        let p := default [] (payload f) in
        if opcode f =? MK_WS_PING then (srv, write_event fd (miku_ws_send_pong p), s)
        else if opcode f =? MK_WS_CLOSE then
          (drop_conn srv fd idx,
           write_event fd (miku_ws_send_close 1000 bye) ++ [EvOnClose idx; EvClosed fd], s)
        else (srv, [EvMessage idx (opcode f) p], s)
    end.

(** ** Accepting *)

Fixpoint starts (p s : bytes) : bool :=
  match p, s with
  | [], _ => true
  | a :: p, b :: s => (a =? b) && starts p s
  | _, [] => false
  end.

(** What follows the first occurrence of [p] ([strstr] plus its length). *)
Fixpoint after_str (p s : bytes) : option bytes :=
  if starts p s then Some (drop (length p) s)
  else match s with [] => None | _ :: s => after_str p s end.

(** What precedes the first [c] ([strchr]). *)
Fixpoint before_chr (c : Z) (s : bytes) : option bytes :=
  match s with
  | [] => None
  | x :: s => if x =? c then Some [] else (cons x) <$> before_chr c s
  end.

(** A buffer as a C string: up to its first NUL. *)
Definition c_str (s : bytes) : bytes := default s (before_chr 0 s).

Definition CRLF : bytes := [13; 10].

(** The Sec-WebSocket-Key of a request, when it fits the 128-byte buffer. *)
Definition request_key (req : bytes) : option bytes :=
  rest ← after_str (txt "Sec-WebSocket-Key: ") (c_str req);
  k ← before_chr 13 rest;
  if 128 <=? blen k then None else Some k.

Definition switching (accept : bytes) : bytes :=
  txt "HTTP/1.1 101 Switching Protocols" ++ CRLF ++ txt "Upgrade: websocket" ++ CRLF ++
  txt "Connection: Upgrade" ++ CRLF ++ txt "Sec-WebSocket-Accept: " ++ accept ++ CRLF ++ CRLF.

Definition add_conn (srv : miku_ws_server) (fd : Z) : miku_ws_server :=
  if client_count srv <? MAX_WS_CLIENTS then
    WsServer (clients srv ++ [fd])
             (if (0 <=? fd) && (fd <? MK_WS_FD_MAP) then <[fd := i16 (client_count srv)]> (fd_map srv) else fd_map srv)
  else srv.

(** [req] are the at most 4095 bytes read; the answer fits its buffer of 512. *)
Definition ws_accept (srv : miku_ws_server) (fd : Z) (req : bytes) : miku_ws_server * list ws_event :=
  match req, request_key req with
  | _ :: _, Some k =>
      match miku_ws_handshake k 64 with
      | Some (0, Some acc) => (add_conn srv fd, [EvWrite fd (switching acc)])
      | _ => (srv, [EvClosed fd])
      end
  | _, _ => (srv, [EvClosed fd])
  end.

(** ** The connection table *)

(** The descriptors that are open and registered. *)
Definition live (srv : miku_ws_server) : list Z := filter (fun x => 0 <= x) (clients srv).

(** One event of the loop: the kernel hands out descriptors that are not open,
    and any bytes may arrive on any descriptor. *)
Inductive ws_step : miku_ws_server -> miku_ws_server -> Prop :=
| step_accept srv fd req : 0 <= fd -> fd ∉ live srv -> ws_step srv (ws_accept srv fd req).1
| step_client srv fd s : ws_step srv (ws_handle_client srv fd s).1.1.

Record ws_ok (srv : miku_ws_server) : Prop := {
  wo_nodup : NoDup (live srv);
  wo_count : client_count srv <= MAX_WS_CLIENTS }.

Lemma find_from_spec l i fd : 0 <= i ->
  (find_from l i fd = -1 /\ fd ∉ l) \/
  (exists k, find_from l i fd = i + Z.of_nat k /\ l !! k = Some fd).
Proof.
  revert i. induction l as [|x l IH]; intros i Hi; cbn [find_from]; [left; split; [done|by intros ?%elem_of_nil]|].
  destruct (Z.eqb_spec x fd) as [->|Hx]; [right; exists 0%nat; split; [lia|done]|].
  destruct (IH (i + 1)) as [[E Hn]|(k & E & Hk)]; [lia| |].
  - left. split; [done|]. by intros [->|?]%elem_of_cons.
  - right. exists (S k). split; [lia|done].
Qed.

Lemma live_unique l i j fd : 0 <= fd ->
  NoDup (filter (fun x => 0 <= x) l) -> l !! i = Some fd -> l !! j = Some fd -> i = j.
Proof.
  intros Hfd. revert i j. induction l as [|x l IH]; intros i j Hn Hi Hj; [done|].
  destruct (decide (0 <= x)) as [Hx|Hx].
  - rewrite filter_cons_True in Hn by done. apply list.NoDup_cons in Hn as [Hx' Hn].
    assert (forall k, l !! k = Some x -> False) as C.
    { intros k Hk. apply Hx'. apply list_elem_of_filter. split; [done|]. by eapply list_elem_of_lookup_2. }
    destruct i as [|i], j as [|j]; cbn in Hi, Hj; simplify_eq; [done|by exfalso; eapply C..|].
    f_equal. by apply IH.
  - rewrite filter_cons_False in Hn by done.
    destruct i as [|i], j as [|j]; cbn in Hi, Hj; simplify_eq; try (exfalso; lia). f_equal. by apply IH.
Qed.

Lemma find_conn_spec srv fd : 0 <= fd -> NoDup (live srv) ->
  ((fd ∉ live srv) /\ ws_find_conn srv fd = -1) \/
  at_ (clients srv) (ws_find_conn srv fd) = Some fd.
Proof.
  intros Hfd Hn. unfold ws_find_conn.
  match goal with |- context [if ?b then ?i else _] => destruct b eqn:E end.
  - right. rewrite !andb_true_iff, bool_decide_eq_true in E. tauto.
  - destruct (find_from_spec (clients srv) 0 fd) as [[-> Hf]|(k & -> & Hk)]; [lia| |].
    + left. split; [|done]. by intros [_ ?]%list_elem_of_filter.
    + right. rewrite Z.add_0_l. by rewrite at_of_nat.
Qed.

Lemma live_upd l i : NoDup (filter (fun x => 0 <= x) l) -> NoDup (filter (fun x => 0 <= x) (upd_at (fun _ => -1) i l)).
Proof.
  unfold upd_at. generalize (Z.to_nat i) as n. induction l as [|x l IH]; intros n Hn; [done|].
  assert (forall y k, y ∈ filter (fun x => 0 <= x) (alter (fun _ => -1) k l) -> y ∈ filter (fun x => 0 <= x) l) as Sub.
  { intros y k [Hy Hk]%list_elem_of_filter. apply list_elem_of_filter. split; [done|].
    apply list_elem_of_lookup in Hk as [j Hj]. destruct (decide (k = j)) as [->|Hne];
      [rewrite list_lookup_alter_eq in Hj; destruct (l !! j); simplify_eq/=; lia|rewrite list_lookup_alter_ne in Hj by done].
    by eapply list_elem_of_lookup_2. }
  assert (NoDup (filter (fun x => 0 <= x) l)) as Hl.
  { destruct (decide (0 <= x)); [rewrite filter_cons_True in Hn by done; by apply list.NoDup_cons in Hn as [_ ?]|
      by rewrite filter_cons_False in Hn by done]. }
  destruct n as [|n]; cbn [alter list_alter].
  - rewrite filter_cons_False by lia. done.
  - destruct (decide (0 <= x)) as [Hx|Hx]; [rewrite filter_cons_True by done|rewrite filter_cons_False by done; by apply IH].
    rewrite filter_cons_True in Hn by done. apply list.NoDup_cons in Hn as [H1 H2].
    apply list.NoDup_cons. split; [|by apply IH]. intros Hin. apply H1. by eapply Sub.
Qed.

Lemma drop_conn_ok srv fd idx : ws_ok srv -> ws_ok (drop_conn srv fd idx).
Proof.
  intros [Hn Hc]. constructor; [by apply live_upd|]. unfold client_count, drop_conn in *. cbn [clients].
  by rewrite length_upd_at.
Qed.

Lemma add_conn_ok srv fd : 0 <= fd -> fd ∉ live srv -> ws_ok srv -> ws_ok (add_conn srv fd).
Proof.
  intros Hfd Hnew [Hn Hc]. unfold add_conn. bool_case; [|done]. unfold client_count in *.
  constructor; unfold live, client_count; cbn [clients].
  - rewrite list.filter_app, filter_cons_True by done. apply NoDup_snoc; done.
  - rewrite length_app. cbn [length]. lia.
Qed.

(** A request either registers the descriptor or leaves the table. *)
Lemma accept_cases srv fd req : (ws_accept srv fd req).1 = srv \/ (ws_accept srv fd req).1 = add_conn srv fd.
Proof.
  unfold ws_accept. destruct req as [|b req]; [by left|]. destruct (request_key _) as [k|]; [|by left].
  destruct (miku_ws_handshake k 64) as [[rc o]|]; [|by left]. destruct rc, o; auto.
Qed.

Lemma client_cases srv fd s :
  (ws_handle_client srv fd s).1.1 = srv \/ (ws_handle_client srv fd s).1.1 = drop_conn srv fd (ws_find_conn srv fd).
Proof.
  unfold ws_handle_client. bool_case; [by left|]. destruct (miku_ws_frame_read _ _) as [[[? f] s']|]; [|by right].
  destruct (opcode f =? MK_WS_PING); [by left|]. destruct (opcode f =? MK_WS_CLOSE); [by right|by left].
Qed.

Lemma step_ws_ok srv srv' : ws_step srv srv' -> ws_ok srv -> ws_ok srv'.
Proof.
  intros [s fd req Hfd Hnew|s fd b] H.
  - destruct (accept_cases s fd req) as [-> | ->]; [done|by apply add_conn_ok].
  - destruct (client_cases s fd b) as [-> | ->]; [done|by apply drop_conn_ok].
Qed.

Lemma reach_ws_ok srv : rtc ws_step miku_ws_server_create srv -> ws_ok srv.
Proof.
  assert (ws_ok miku_ws_server_create) as H0 by (constructor; [apply NoDup_nil_2|done]).
  revert H0. generalize miku_ws_server_create. intros s0 H0 R. induction R as [|x y z Hs R IH]; [done|].
  apply IH. by eapply step_ws_ok.
Qed.

(** In every state that accepts, reads and closes lead to, the table
    answers a descriptor with its own connection: the one registered when it
    was accepted and not closed since, and none for another descriptor. *)
Theorem ws_table_correct srv fd :
  rtc ws_step miku_ws_server_create srv -> 0 <= fd ->
  (fd ∈ live srv -> at_ (clients srv) (ws_find_conn srv fd) = Some fd /\
     forall i, at_ (clients srv) i = Some fd -> i = ws_find_conn srv fd) /\
  (fd ∉ live srv -> ws_find_conn srv fd = -1).
Proof.
  intros R Hfd. destruct (reach_ws_ok _ R) as [Hn _]. destruct (find_conn_spec srv fd Hfd Hn) as [[Hno E]|E]; split.
  - done.
  - done.
  - intros _. split; [done|]. intros i Hi. apply at_Some in Hi as [Hi0 Hi]. apply at_Some in E as [E0 E].
    assert (Z.to_nat i = Z.to_nat (ws_find_conn srv fd)); [|lia]. exact (live_unique _ _ _ fd Hfd Hn Hi E).
  - intros Hno. exfalso. apply Hno. unfold live. apply list_elem_of_filter. split; [done|].
    apply at_Some in E as [_ E]. by eapply list_elem_of_lookup_2.
Qed.

(** Slots of the connection table are not reused: once MAX_WS_CLIENTS
    connections have been accepted, whatever is closed afterwards, a new client
    completes its handshake and is then ignored. *)
Theorem ws_slots_exhausted srv srv' fd s :
  rtc ws_step srv srv' -> client_count srv = MAX_WS_CLIENTS ->
  client_count srv' = MAX_WS_CLIENTS /\ add_conn srv' fd = srv' /\
  (0 <= fd -> NoDup (live srv') -> fd ∉ live srv' -> ws_handle_client (add_conn srv' fd) fd s = (srv', [], s)).
Proof.
  intros R Hc. assert (client_count srv' = MAX_WS_CLIENTS) as Hc'.
  { induction R as [|x y z Hs R IH]; [done|]. apply IH. destruct Hs as [x fd' req ? ?|x fd' b].
    - destruct (accept_cases x fd' req) as [-> | ->]; [done|]. unfold add_conn. bool_case; [lia|done].
    - destruct (client_cases x fd' b) as [-> | ->]; [done|]. unfold client_count, drop_conn in *. cbn [clients].
      by rewrite length_upd_at. }
  assert (add_conn srv' fd = srv') as Ha by (unfold add_conn; bool_case; [lia|done]).
  split_and!; [done|done|]. intros Hfd Hn Hno. rewrite Ha. unfold ws_handle_client.
  destruct (find_conn_spec srv' fd Hfd Hn) as [[_ ->]|E]; [done|]. exfalso. apply Hno. unfold live.
  apply list_elem_of_filter. split; [done|]. apply at_Some in E as [_ E]. by eapply list_elem_of_lookup_2.
Qed.

(** The example of RFC 6455, section 1.3. *)
Definition ex_request : bytes := txt "GET / HTTP/1.1" ++ CRLF ++ txt "Sec-WebSocket-Key: abc" ++ CRLF ++ CRLF.
Definition ex_server : miku_ws_server := (ws_accept miku_ws_server_create 5 ex_request).1.

Lemma ws_table_correct_witness :
  (5 ∈ live ex_server -> at_ (clients ex_server) (ws_find_conn ex_server 5) = Some 5 /\
     forall i, at_ (clients ex_server) i = Some 5 -> i = ws_find_conn ex_server 5) /\
  (5 ∉ live ex_server -> ws_find_conn ex_server 5 = -1).
Proof.
  apply (ws_table_correct ex_server 5); [|done]. eapply rtc_l; [|apply rtc_refl].
  apply step_accept; [done|]. by intros ?%elem_of_nil.
Defined.

Definition ex_full : miku_ws_server := WsServer (repeat (-1) 1024) ∅.

Lemma ws_slots_exhausted_witness :
  client_count ex_full = MAX_WS_CLIENTS /\ add_conn ex_full 7 = ex_full /\
  (0 <= 7 -> NoDup (live ex_full) -> 7 ∉ live ex_full -> ws_handle_client (add_conn ex_full 7) 7 [] = (ex_full, [], [])).
Proof. apply (ws_slots_exhausted ex_full ex_full 7 []); [apply rtc_refl|reflexivity]. Defined.
