(* ===== verification/Atomic.v ===== *)
(** * Programs of atomic actions

    A request handler of the message service takes and releases locks several
    times: what it reads in one locked region may have changed when it enters
    the next one.  [prog] is such a handler: a tree of atomic actions on the
    shared state [W], one per locked region.

    [run] executes a program alone; [exec] executes it against a list of
    states, one per action, which are whatever the other threads leave; [pool]
    is a set of programs whose actions interleave.  [safe] is the program
    logic: every action satisfies a guarantee [G] that may refer to the states
    observed so far, and the result satisfies [Q], whatever the other threads
    do as long as they keep the invariant [I]. *)
From S2P Require Import Prelude.

Section Prog.
Context {W : Type}.

Inductive prog (A : Type) : Type :=
  | Ret (a : A)
  | Act {B : Type} (f : W -> B * W) (k : B -> prog A).
Arguments Ret {A} a.
Arguments Act {A B} f k.

Fixpoint prog_bind {A B} (g : A -> prog B) (p : prog A) : prog B :=
  match p with
  | Ret a => g a
  | Act f k => Act f (fun b => prog_bind g (k b))
  end.

#[export] Instance prog_mret : MRet prog := fun A a => Ret a.
#[export] Instance prog_mbind : MBind prog := fun A B g p => prog_bind g p.

(** A region under the write lock, and one that only reads. *)
Definition atomic {B} (f : W -> B * W) : prog B := Act f Ret.
Definition rd {B} (f : W -> B) : prog B := Act (fun w => (f w, w)) Ret.

Fixpoint run {A} (p : prog A) (w : W) : A * W :=
  match p with
  | Ret a => (a, w)
  | Act f k => let '(b, w') := f w in run (k b) w'
  end.

(** The result and the transitions; None when [ws] has too few states. *)
Fixpoint exec {A} (p : prog A) (ws : list W) : option (A * list (W * W)) :=
  match p, ws with
  | Ret a, _ => Some (a, [])
  | Act f k, w :: ws' => '(a, tr) ← exec (k (f w).1) ws'; Some (a, (w, (f w).2) :: tr)
  | Act _ _, [] => None
  end.

(** One action of one program of the pool. *)
Inductive pool_step {A} : list (prog A) * W -> list (prog A) * W -> Prop :=
  | pool_act ps w i B (f : W -> B * W) k :
      ps !! i = Some (Act f k) -> pool_step (ps, w) (<[i := k (f w).1]> ps, (f w).2).

(** Alone, a program runs on the states it leaves itself. *)
Lemma run_exec {A} (p : prog A) w :
  exists ws tr, exec p ws = Some ((run p w).1, tr) /\ head (ws ++ [(run p w).2]) = Some w /\
    forall i x, tr !! i = Some x -> (ws ++ [(run p w).2]) !! S i = Some x.2.
Proof.
  revert w. induction p as [a|B f k IH]; intros w; [by exists [], []|]. cbn [run].
  destruct (f w) as [b w'] eqn:E. destruct (IH b w') as (ws & tr & H1 & H2 & H3).
  exists (w :: ws), ((w, w') :: tr). cbn. rewrite E. cbn. rewrite H1. split_and!; [done..|].
  intros [|i] x Hx; cbn in Hx |- *.
  - simplify_eq. by rewrite head_lookup in H2.
  - by apply H3.
Qed.

Section Logic.
Context (I : W -> Prop) (G : list W -> W -> W -> Prop).

(** [h] are the states observed so far, oldest first. *)
Fixpoint safe {A} (Q : list W -> A -> Prop) (h : list W) (p : prog A) : Prop :=
  match p with
  | Ret a => Q h a
  | Act f k => forall w, I w -> G (h ++ [w]) w (f w).2 /\ safe Q (h ++ [w]) (k (f w).1)
  end.

Lemma safe_bind {A B} (Q : list W -> B -> Prop) (g : A -> prog B) p h :
  safe (fun h a => safe Q h (g a)) h p -> safe Q h (p ≫= g).
Proof.
  unfold mbind, prog_mbind. revert h. induction p as [a|X f k IH]; intros h; cbn; [done|].
  intros H w Hw. destruct (H w Hw). auto.
Qed.

Lemma safe_mono {A} (Q Q' : list W -> A -> Prop) p h :
  safe Q h p -> (forall h' a, Q (h ++ h') a -> Q' (h ++ h') a) -> safe Q' h p.
Proof.
  revert h. induction p as [a|X f k IH]; intros h; cbn.
  - intros H1 H2. specialize (H2 []). rewrite app_nil_r in H2. auto.
  - intros H1 H2 w Hw. destruct (H1 w Hw) as [HG Hs]. split; [done|]. apply (IH _ _ Hs).
    intros h' a. rewrite <- app_assoc. apply H2.
Qed.

Lemma safe_exec {A} (Q : list W -> A -> Prop) p : forall h ws a tr,
  safe Q h p -> Forall I ws -> exec p ws = Some (a, tr) ->
  Q (h ++ take (length tr) ws) a /\
  forall i w w', tr !! i = Some (w, w') -> G (h ++ take (S i) ws) w w'.
Proof.
  induction p as [a|X f k IH]; intros h ws a' tr Hs Hw E; cbn in E.
  - assert (a' = a /\ tr = []) as [-> ->] by (destruct ws; by simplify_eq). rewrite take_0, app_nil_r. by split.
  - destruct ws as [|w ws]; [done|]. apply list.Forall_cons in Hw as [Hi Hw].
    destruct (exec _ ws) as [[a0 tr0]|] eqn:E0; [|done]. cbn in E. simplify_eq. cbn in Hs. destruct (Hs w Hi) as [HG HS].
    destruct (IH _ _ _ _ _ HS Hw E0) as [H1 H2]. cbn. rewrite <- app_assoc in H1. split; [exact H1|].
    intros [|i] w1 w2 Hx; cbn in Hx.
    + simplify_eq. by rewrite take_0.
    + specialize (H2 _ _ _ Hx). by rewrite <- app_assoc in H2.
Qed.
End Logic.

(** The programs of a pool stay safe however they interleave, and the
    invariant that their guarantee implies holds throughout. *)
Lemma pool_safe {A} (I : W -> Prop) G (ps ps' : list (prog A)) w w' : (forall h w w', G h w w' -> I w') ->
  rtc pool_step (ps, w) (ps', w') -> I w -> Forall (safe I G (fun _ _ => True) []) ps ->
  I w' /\ Forall (fun p => exists h, safe I G (fun _ _ => True) h p) ps'.
Proof.
  intros HG. set (ok := fun x : list (prog A) * W => I x.2 /\ Forall (fun p => exists h, safe I G (fun _ _ => True) h p) x.1).
  intros R Hw Hp. change (ok (ps', w')). assert (ok (ps, w)) as H0.
  { split; [done|]. eapply list.Forall_impl; [exact Hp|]. intros p H. by exists []. }
  clear Hw Hp. revert H0. induction R as [|x y z S _ IH]; [done|]. intros [Hw Hp]. apply IH. clear IH z.
  destruct S as [qs v i B f k Hi]. cbn [fst snd] in *. pose proof (proj1 (list.Forall_lookup _ _) Hp i _ Hi) as [h Hs].
  destruct (Hs v Hw) as [H1 H2]. split; [by eapply HG|]. apply Forall_insert; [done|]. by exists (h ++ [v]).
Qed.

(** An invariant that every action of every program keeps holds however the
    programs interleave. *)
Lemma pool_inv {A} (I : W -> Prop) (ps ps' : list (prog A)) w w' :
  rtc pool_step (ps, w) (ps', w') -> I w -> Forall (safe I (fun _ _ w' => I w') (fun _ _ => True) []) ps -> I w'.
Proof. intros R Hw Hp. by eapply (pool_safe I (fun _ _ w' => I w')). Qed.

(** Every step of a run satisfies what each action guarantees. *)
Lemma pool_guarantee {A} (I : W -> Prop) (G : W -> W -> Prop) (ps qs qs' : list (prog A)) w0 w w' :
  (forall w w', G w w' -> I w') -> rtc pool_step (ps, w0) (qs, w) -> pool_step (qs, w) (qs', w') -> I w0 ->
  Forall (safe I (fun _ => G) (fun _ _ => True) []) ps -> I w /\ G w w'.
Proof.
  intros HG R S Hw Hp. destruct (pool_safe I (fun _ => G) ps qs w0 w) as [Hi Hs]; [by intros _; exact HG|done..|]. split; [done|].
  inversion S as [? ? i B f k Hk]; subst. pose proof (proj1 (list.Forall_lookup _ _) Hs i _ Hk) as [h Hf]. by apply (Hf w Hi).
Qed.

(** The same for a program that runs alone. *)
Lemma run_safe {A} (I : W -> Prop) G Q (p : prog A) : forall h w,
  (forall h w w', G h w w' -> I w') -> safe I G Q h p -> I w -> I (run p w).2.
Proof.
  induction p as [a|B f k IH]; intros h w HG Hs Hw; [done|]. cbn in Hs |- *. destruct (Hs w Hw) as [H1 H2].
  destruct (f w) as [b w']. eapply IH; [done|exact H2|]. by eapply HG.
Qed.

(** A program of the pool can run to its end. *)
Lemma pool_run {A} (ps : list (prog A)) i p w :
  ps !! i = Some p -> rtc pool_step (ps, w) (<[i := Ret (run p w).1]> ps, (run p w).2).
Proof.
  revert ps w. induction p as [a|B f k IH]; intros ps w Hi; cbn [run]; [by rewrite list_insert_id|].
  destruct (f w) as [b w'] eqn:E. assert (k (f w).1 = k b /\ (f w).2 = w') as [E1 E2] by (rewrite E; done).
  eapply rtc_l; [apply (pool_act ps w i B f k Hi)|]. rewrite E1, E2. specialize (IH b (<[i := k b]> ps) w').
  rewrite list_insert_insert_eq in IH. apply IH. apply list_lookup_insert_eq. by apply lookup_lt_Some in Hi.
Qed.

End Prog.

Arguments prog : clear implicits.
Arguments Ret {W A} a.
Arguments Act {W A B} f k.
