(* ===== verification/MsgService.v ===== *)
(** * The message service (services/msg/miku_msg.c)

    The messages in arrival order, the hashed indexes by server id and by
    client id, and a chain per conversation.  The functions that the code runs
    under one lock are functions on [msg_service]; the others are programs of
    atomic actions on the world (the message, friend and group services and
    the table of revoked tokens), one action per locked region, so that other
    requests may run in between.  [group_svc] and [friend_svc] say whether the
    pointers to the other services are set. *)
From Stdlib Require Import Ascii String.
From S2P Require Import Prelude Hash ProbeIndex ChainIndex Json JsonText Models RpcNames Friend Group Sha1 Token Atomic.
#[local] Open Scope string_scope.
#[local] Open Scope Z_scope.

Definition MK_MSG_HASH : Z := 131072.
Definition MK_MAX_MSGS : Z := 65536.

Record msg_service := MsgService {
  msgs : list miku_msg;
  msg_seq : Z;
  sid_hash : gmap Z Z;
  cid_hash : gmap Z Z;
  conv_hash : gmap Z Z;
  conv_next : gmap Z Z;
  group_svc : bool;
  friend_svc : bool }.

Record world := World {
  w_msg : msg_service;
  w_friend : miku_friend_service;
  w_group : miku_group_service;
  w_revokes : revokes }.

Definition with_msg (w : world) (s : msg_service) : world := World s (w_friend w) (w_group w) (w_revokes w).

(** ** Indexes *)

Definition str_slot (s : string) : Z := mask_slot MK_MSG_HASH (fnv1a_64 s).

Definition key_test (l : list miku_msg) (field : miku_msg -> string) (key : string) (mi : Z) : bool :=
  match at_ l mi with Some m => streq (field m) key | None => false end.

(** [field] is the string that the argument [which] selects. *)
Definition hash_insert_key (table : gmap Z Z) (key : string) (mi : Z) (l : list miku_msg) (field : miku_msg -> string) : gmap Z Z :=
  match scan MK_MSG_HASH table (key_test l field key) (str_slot key) with
  | Found p _ | Vacant p => <[p:=mi]> table
  | Exhausted => table
  end.

Definition hash_find_sid (s : msg_service) (sid : string) : Z :=
  scan_find MK_MSG_HASH (sid_hash s) (key_test (msgs s) server_msg_id sid) (str_slot sid).
Definition hash_find_cid (s : msg_service) (cid : string) : Z :=
  scan_find MK_MSG_HASH (cid_hash s) (key_test (msgs s) client_msg_id cid) (str_slot cid).
Definition conv_head (s : msg_service) (conv_id : string) : Z :=
  scan_find MK_MSG_HASH (conv_hash s) (key_test (msgs s) msg_conversation_id conv_id) (str_slot conv_id).

Definition conv_link (s : msg_service) (mi : Z) : msg_service :=
  match at_ (msgs s) mi with
  | None => s
  | Some m =>
      let cid := msg_conversation_id m in
      let '(hd, nx) :=
        if nonempty cid
        then chain_link MK_MSG_HASH (conv_hash s) (conv_next s) (key_test (msgs s) msg_conversation_id cid) (str_slot cid) mi
        else (conv_hash s, <[mi:=-1]> (conv_next s)) in
      MsgService (msgs s) (msg_seq s) (sid_hash s) (cid_hash s) hd nx (group_svc s) (friend_svc s)
  end.

(** The three index insertions of one message. *)
Definition index_msg (s : msg_service) (mi : Z) : msg_service :=
  match at_ (msgs s) mi with
  | None => s
  | Some m =>
      let sid := if nonempty (server_msg_id m) then hash_insert_key (sid_hash s) (server_msg_id m) mi (msgs s) server_msg_id else sid_hash s in
      let cid := if nonempty (client_msg_id m) then hash_insert_key (cid_hash s) (client_msg_id m) mi (msgs s) client_msg_id else cid_hash s in
      conv_link (MsgService (msgs s) (msg_seq s) sid cid (conv_hash s) (conv_next s) (group_svc s) (friend_svc s)) mi
  end.

Definition rebuild_indexes (s : msg_service) : msg_service :=
  for_range (Z.of_nat (length (msgs s))) index_msg
    (MsgService (msgs s) (msg_seq s) ∅ ∅ ∅ ∅ (group_svc s) (friend_svc s)).

(** The repair loop of [hash_del_sid]: entries after the freed cell are entered again. *)
Fixpoint sid_repair (fuel : nat) (l : list miku_msg) (t : gmap Z Z) (j : Z) : gmap Z Z :=
  match fuel with
  | O => t
  | S fuel' =>
      let rem := t.[j] in
      if rem <? 0 then t
      else
        let t1 := delete j t in
        let t2 := match at_ l rem with
                  | Some m => if nonempty (server_msg_id m) then hash_insert_key t1 (server_msg_id m) rem l server_msg_id else t1
                  | None => t1
                  end in
        sid_repair fuel' l t2 (next_slot MK_MSG_HASH j)
  end.

Definition with_sid (s : msg_service) (t : gmap Z Z) : msg_service :=
  MsgService (msgs s) (msg_seq s) t (cid_hash s) (conv_hash s) (conv_next s) (group_svc s) (friend_svc s).

Definition hash_del_sid (s : msg_service) (sid : string) : msg_service :=
  if negb (nonempty sid) then s
  else match scan MK_MSG_HASH (sid_hash s) (key_test (msgs s) server_msg_id sid) (str_slot sid) with
       | Found idx _ => with_sid s (sid_repair (Z.to_nat MK_MSG_HASH) (msgs s) (delete idx (sid_hash s)) (next_slot MK_MSG_HASH idx))
       | _ => s
       end.

Definition with_msgs (s : msg_service) (l : list miku_msg) : msg_service :=
  MsgService l (msg_seq s) (sid_hash s) (cid_hash s) (conv_hash s) (conv_next s) (group_svc s) (friend_svc s).

Definition msg_remove_at (s : msg_service) (mi : Z) : msg_service :=
  if (mi <? 0) || (Z.of_nat (length (msgs s)) <=? mi) then s
  else rebuild_indexes (with_msgs s (delete (Z.to_nat mi) (msgs s))).

Definition miku_msg_service_create : msg_service := MsgService [] 0 ∅ ∅ ∅ ∅ false false.

Definition miku_msg_service_set_group_svc (s : msg_service) (b : bool) : msg_service :=
  MsgService (msgs s) (msg_seq s) (sid_hash s) (cid_hash s) (conv_hash s) (conv_next s) b (friend_svc s).
Definition miku_msg_service_set_friend_svc (s : msg_service) (b : bool) : msg_service :=
  MsgService (msgs s) (msg_seq s) (sid_hash s) (cid_hash s) (conv_hash s) (conv_next s) (group_svc s) b.

(** ** Sending *)

(** The conversation that a message belongs to, whatever the client says. *)
Definition canonical (m : miku_msg) : string :=
  miku_conversation_id_resolve 128 None (Some (msg_group_id m)) (Some (send_id m)) (Some (recv_id m)).

Definition set_conv (m : miku_msg) (c : string) : miku_msg :=
  Msg (server_msg_id m) (client_msg_id m) (send_id m) (recv_id m) (msg_group_id m) c (session_type m) (msg_type m)
      (content m) (seq m) (send_time m) (msg_create_time m) (status m) (is_read m) (msg_ex m).

(** The message as it is stored. *)
Definition stamped (m : miku_msg) (uuid : string) (n now : Z) : miku_msg :=
  Msg uuid (client_msg_id m) (send_id m) (recv_id m) (msg_group_id m) (canonical m) (session_type m) (msg_type m)
      (content m) n now now 0 (is_read m) (msg_ex m).

(** Status, the message as the caller sees it afterwards, and the service.  The
    counter is an int64_t in the code: it would take 2^63 messages to make it
    overflow, and it is not wrapped here. *)
Definition msg_store_internal (s : msg_service) (m : miku_msg) (uuid : string) (now : Z) : Z * miku_msg * msg_service :=
  let n := Z.of_nat (length (msgs s)) in
  if MK_MAX_MSGS <=? n then (-1, m, s)
  else
    let m' := stamped m uuid (msg_seq s + 1) now in
    (0, m', index_msg (MsgService (msgs s ++ [m']) (msg_seq s + 1) (sid_hash s) (cid_hash s) (conv_hash s) (conv_next s)
                                  (group_svc s) (friend_svc s)) n).

Definition miku_msg_send_nolock (s : msg_service) (m : miku_msg) (uuid : string) (now : Z) : Z * miku_msg * msg_service :=
  if MK_MAX_MSGS <=? Z.of_nat (length (msgs s)) then (-1, m, s) else msg_store_internal s m uuid now.

(** The region under the write lock. *)
Definition send_locked (m : miku_msg) (uuid : string) (now : Z) : prog world (Z * miku_msg) :=
  atomic (fun w => let '(rc, m', s) := miku_msg_send_nolock (w_msg w) m uuid now in ((rc, m'), with_msg w s)).

(** ** Reading *)

Definition conv_chain (s : msg_service) (cid : string) : list Z := chain_walk (S (length (msgs s))) (conv_next s) (conv_head s cid).

(** The loop of [miku_msg_get_by_conv_nolock]; [room] is what is left of the
    smaller of [count] and [max]. *)
Fixpoint conv_loop (fuel : nat) (s : msg_service) (p : miku_msg -> bool) (mi room : Z) : list miku_msg :=
  match fuel with
  | O => []
  | S fuel' =>
      if (mi <? 0) || (room <=? 0) then []
      else match at_ (msgs s) mi with
           | Some m => if p m then m :: conv_loop fuel' s p (conv_next s).[mi] (room - 1)
                       else conv_loop fuel' s p (conv_next s).[mi] room
           | None => []
           end
  end.

Definition in_period (start end_ : Z) (m : miku_msg) : bool :=
  (start <=? send_time m) && ((end_ =? 0) || (send_time m <=? end_)).

Definition miku_msg_get_by_conv_nolock (s : msg_service) (conv_id : string) (start end_ count max : Z) : list miku_msg :=
  conv_loop (S (length (msgs s))) s (in_period start end_) (conv_head s conv_id) (Z.min count max).

Definition miku_msg_get_by_conv (conv_id : option string) (start end_ count max : Z) : prog world (list miku_msg) :=
  match conv_id with
  | None => Ret []
  | Some c => rd (fun w => miku_msg_get_by_conv_nolock (w_msg w) c start end_ count max)
  end.

(** The copied messages; none where the code returns NULL. *)
Definition msg_snapshot_conv (conv_id : string) (start end_ count max : Z) : prog world (list miku_msg) :=
  if max <=? 0 then Ret []
  else rd (fun w =>
         let cap := Z.min (Z.of_nat (length (msgs (w_msg w)))) max in
         if cap <=? 0 then [] else miku_msg_get_by_conv_nolock (w_msg w) conv_id start end_ count cap).

Definition prefixed (p s : string) : bool := starts_with (str p) (str s).
Definition sdrop (n : nat) (s : string) : string := string_of_list_ascii (drop n (str s)).

(** [uid] is the sender or the receiver of a message on the chain. *)
Definition takes_part (s : msg_service) (uid cid : string) : bool :=
  existsb (fun mi => match at_ (msgs s) mi with
                     | Some m => streq (send_id m) uid || streq (recv_id m) uid
                     | None => false end) (conv_chain s cid).

Definition msg_user_may_access_conv (uid cid : option string) : prog world bool :=
  if negb (given uid) || negb (given cid) then Ret false
  else
    let c := default "" cid in
    if prefixed "si_" c then
      fs ← rd (fun w => friend_svc (w_msg w));
      if (fs : bool) then rd (fun w => negb (miku_friend_may_access_si_conv (w_friend w) uid cid =? 0)) else Ret false
    else if prefixed "sg_" c then
      gs ← rd (fun w => group_svc (w_msg w));
      if (gs : bool) then rd (fun w => miku_group_is_member (w_group w) (Some (sdrop 3 c)) uid) else Ret false
    else rd (fun w => takes_part (w_msg w) (default "" uid) c).

Definition msg_reaction_conv_gate (req : option json) : prog world Z :=
  let uid := jstr req "userID" in
  let cid := jstr req "conversationID" in
  if negb (given uid) || negb (given cid) then Ret 400
  else ok ← msg_user_may_access_conv uid cid; Ret (if (ok : bool) then 0 else 3003).

(** 0, or the code of the refusal. *)
Definition msg_send_gate (m : miku_msg) : prog world Z :=
  if negb (nonempty (send_id m)) then Ret 400
  else if nonempty (msg_group_id m) then
    gs ← rd (fun w => group_svc (w_msg w));
    if negb gs then Ret 3003
    else ok ← rd (fun w => miku_group_is_member (w_group w) (Some (msg_group_id m)) (Some (send_id m)));
         Ret (if (ok : bool) then 0 else 3003)
  else if negb (nonempty (recv_id m)) then Ret 400
  else
    fs ← rd (fun w => friend_svc (w_msg w));
    if negb fs then Ret 6002
    else
      b1 ← rd (fun w => miku_friend_is_black (w_friend w) (Some (send_id m)) (Some (recv_id m)));
      if (b1 : bool) then Ret 6001
      else
        b2 ← rd (fun w => miku_friend_is_black (w_friend w) (Some (recv_id m)) (Some (send_id m)));
        if (b2 : bool) then Ret 6001
        else
          mu ← rd (fun w => miku_friend_is_mutual (w_friend w) (Some (send_id m)) (Some (recv_id m)));
          Ret (if (mu : bool) then 0 else 6002).

Definition miku_msg_send (m : miku_msg) (uuid : string) (now : Z) : prog world (Z * miku_msg) :=
  let m := set_conv m (canonical m) in
  foreign ← rd (fun w => (nonempty (msg_group_id m) && group_svc (w_msg w)) || (nonempty (recv_id m) && friend_svc (w_msg w)));
  gate ← (if (foreign : bool) then msg_send_gate m else Ret 0);
  if negb (gate =? 0) then Ret (gate, m) else send_locked m uuid now.

(** ** Revoking and deleting *)

Definition msg_may_delete_physical_nolock (s : msg_service) (uid client_msg_id : option string) : bool :=
  given uid && given client_msg_id &&
  match at_ (msgs s) (hash_find_cid s (default "" client_msg_id)) with
  | Some m => streq (send_id m) (default "" uid)
  | None => false
  end.

Definition single_or_group (c : string) : bool := prefixed "si_" c || prefixed "sg_" c.

(** The conversation of the message when [uid] sent it. *)
Definition own_conv (s : msg_service) (uid client_msg_id : option string) : option string :=
  if msg_may_delete_physical_nolock s uid client_msg_id then
    match at_ (msgs s) (hash_find_cid s (default "" client_msg_id)) with
    | Some m => Some (strn 127 (msg_conversation_id m))
    | None => None
    end
  else None.

Definition miku_msg_may_delete_physical (uid client_msg_id : option string) : prog world bool :=
  if negb (given uid) || negb (given client_msg_id) then Ret false
  else
    conv ← rd (fun w => own_conv (w_msg w) uid client_msg_id);
    match (conv : option string) with
    | None => Ret false
    | Some c => if single_or_group c then msg_user_may_access_conv uid (Some c) else Ret true
    end.

(** The newest message of the conversation with the sequence number. *)
Definition find_seq (s : msg_service) (cid : string) (n : Z) : option Z :=
  List.find (fun mi => match at_ (msgs s) mi with Some m => seq m =? n | None => false end) (conv_chain s cid).

Definition msg_may_delete_physical_by_seq_nolock (s : msg_service) (uid conv_id : option string) (n : Z) : bool :=
  given uid && given conv_id && negb (n <=? 0) &&
  match find_seq s (default "" conv_id) n with
  | Some mi => match at_ (msgs s) mi with Some m => streq (send_id m) (default "" uid) | None => false end
  | None => false
  end.

Definition miku_msg_may_delete_physical_by_seq (uid conv_id : option string) (n : Z) : prog world bool :=
  if negb (given uid) || negb (given conv_id) || (n <=? 0) then Ret false
  else
    ok ← (if single_or_group (default "" conv_id) then msg_user_may_access_conv uid conv_id else Ret true);
    if negb ok then Ret false
    else rd (fun w => msg_may_delete_physical_by_seq_nolock (w_msg w) uid conv_id n).

Definition set_msg_status (st : Z) (m : miku_msg) : miku_msg :=
  Msg (server_msg_id m) (client_msg_id m) (send_id m) (recv_id m) (msg_group_id m) (msg_conversation_id m) (session_type m)
      (msg_type m) (content m) (seq m) (send_time m) (msg_create_time m) st (is_read m) (msg_ex m).

Definition miku_msg_revoke_nolock (s : msg_service) (user_id client_msg_id : string) : Z * msg_service :=
  let mi := hash_find_cid s client_msg_id in
  match at_ (msgs s) mi with
  | Some m => if streq (send_id m) user_id then (0, with_msgs s (upd_at (set_msg_status 2) mi (msgs s))) else (-2, s)
  | None => (-2, s)
  end.

Definition miku_msg_revoke (user_id client_msg_id : option string) : prog world Z :=
  match user_id, client_msg_id with
  | Some u, Some c =>
      ok ← miku_msg_may_delete_physical user_id client_msg_id;
      if negb ok then Ret (-2)
      else atomic (fun w =>
             if msg_may_delete_physical_nolock (w_msg w) user_id client_msg_id
             then let '(rc, s) := miku_msg_revoke_nolock (w_msg w) u c in (rc, with_msg w s)
             else (-2, w))
  | _, _ => Ret (-1)
  end.

(** The locked regions of [deleteMsg], [deleteMsgPhysical] and
    [deleteMsgPhysicalBySeq]: whether a message was deleted. *)
Definition delete_locked (uid cmid : option string) : prog world bool :=
  atomic (fun w =>
    let s := w_msg w in
    let mi := hash_find_cid s (default "" cmid) in
    if msg_may_delete_physical_nolock s uid cmid && (0 <=? mi) then (true, with_msg w (msg_remove_at s mi)) else (false, w)).

Definition delete_seq_locked (uid cid : option string) (n : Z) : prog world bool :=
  atomic (fun w =>
    let s := w_msg w in
    match find_seq s (default "" cid) n with
    | Some mi => if msg_may_delete_physical_by_seq_nolock s uid cid n then (true, with_msg w (msg_remove_at s mi)) else (false, w)
    | None => (false, w)
    end).

(** ** Delivery receipts *)

Definition set_seq (n : Z) (m : miku_msg) : miku_msg :=
  Msg (server_msg_id m) (client_msg_id m) (send_id m) (recv_id m) (msg_group_id m) (msg_conversation_id m) (session_type m)
      (msg_type m) (content m) n (send_time m) (msg_create_time m) (status m) (is_read m) (msg_ex m).
Definition set_sid (sid : string) (m : miku_msg) : miku_msg :=
  Msg (strn 63 sid) (client_msg_id m) (send_id m) (recv_id m) (msg_group_id m) (msg_conversation_id m) (session_type m)
      (msg_type m) (content m) (seq m) (send_time m) (msg_create_time m) (status m) (is_read m) (msg_ex m).
Definition set_times (t : Z) (m : miku_msg) : miku_msg :=
  Msg (server_msg_id m) (client_msg_id m) (send_id m) (recv_id m) (msg_group_id m) (msg_conversation_id m) (session_type m)
      (msg_type m) (content m) (seq m) t t (status m) (is_read m) (msg_ex m).

Definition upd_msg (s : msg_service) (mi : Z) (f : miku_msg -> miku_msg) : msg_service := with_msgs s (upd_at f mi (msgs s)).

(** The part of [miku_msg_update_delivery_nolock] that changes the server id. *)
Definition change_sid (s : msg_service) (mi : Z) (sid : string) : msg_service :=
  match at_ (msgs s) mi with
  | None => s
  | Some m =>
      let old := server_msg_id m in
      let s1 := if nonempty old && negb (streq old sid) then hash_del_sid s old else s in
      let s2 := upd_msg s1 mi (set_sid sid) in
      if negb (nonempty old) || negb (streq old sid)
      then with_sid s2 (hash_insert_key (sid_hash s2) (strn 63 sid) mi (msgs s2) server_msg_id) else s2
  end.

Definition miku_msg_update_delivery_nolock (s : msg_service) (uid client_msg_id : option string) (n : Z)
    (server_msg_id : option string) (send_time : Z) : Z * msg_service :=
  if negb (given uid) || negb (given client_msg_id) then (-1, s)
  else
    let mi := hash_find_cid s (default "" client_msg_id) in
    match at_ (msgs s) mi with
    | None => (-1, s)
    | Some m =>
        if negb (streq (send_id m) (default "" uid)) then (-1, s)
        else
          let s1 := if 0 <? n then upd_msg s mi (set_seq n) else s in
          let s2 := if given server_msg_id then change_sid s1 mi (default "" server_msg_id) else s1 in
          (0, if 0 <? send_time then upd_msg s2 mi (set_times send_time) else s2)
    end.

Definition miku_msg_update_delivery (uid client_msg_id : option string) (n : Z) (server_msg_id : option string) (send_time : Z)
    : prog world Z :=
  if negb (given uid) || negb (given client_msg_id) then Ret (-1)
  else atomic (fun w => let '(rc, s) := miku_msg_update_delivery_nolock (w_msg w) uid client_msg_id n server_msg_id send_time in
                        (rc, with_msg w s)).
