(* ===== verification/MsgRpc.v ===== *)
(** * RPC handlers of the message service (services/msg/miku_msg.c)

    One definition per case of [miku_msg_handle_rpc], a program of atomic
    actions that returns the response.  [rpc_env] holds what a request takes
    from outside: the identifier and the time that a sent message gets, and the
    time and the environment variable that the check of an administrator's
    token uses. *)
From Stdlib Require Import Ascii String.
From S2P Require Import Prelude Hash ProbeIndex ChainIndex Json JsonText Models RpcNames Friend Group Sha1 Token Atomic.
From S2P Require Import MsgService.
#[local] Open Scope string_scope.
#[local] Open Scope Z_scope.

Record rpc_env := RpcEnv { ev_uuid : string; ev_now : Z; ev_token_now : Z; ev_secret : option string }.

Definition msg_rpc_admin_platform (env : rpc_env) (req : option json) : prog world bool :=
  if negb (jint req "platformID" =? 5) then Ret false
  else
    let tok := jstr req "token" in
    if negb (given tok) then Ret false
    else rd (fun w =>
           match miku_token_verify_ex (w_revokes w) tok (Some (miku_admin_default_secret (ev_secret env))) 64 (ev_token_now env) with
           | Some (_, platform, _) => platform =? 5
           | None => false
           end).

Definition g_msg_rpc_names : list string :=
  ["sendMsg"; "getMsgByConv"; "revokeMsg"; "getServerTime"; "getSendMsgStatus"; "cleanUpMsg"; "deleteMsg"; "batchSendMsg";
   "markMsgAsRead"; "getMsgBySeq"; "send"; "sendSimpleMsg"; "sendBusinessNotification"; "getMsg"; "getNewestSeq";
   "pullMsgBySeq"; "searchMsg"; "markMsgsAsRead"; "markConversationAsRead"; "setConversationHasReadSeq";
   "getConversationsHasReadAndMaxSeq"; "checkMsgIsSendSuccess"; "clearConversationMsg"; "userClearAllMsg";
   "deleteMsgPhysical"; "deleteMsgPhysicalBySeq"; "setMessageReactionExtensions"; "getMessageListReactionExtensions";
   "addMessageReactionExtensions"; "deleteMessageReactionExtensions"].

Definition msg_rpc_init : gmap Z Z := rpc_init g_msg_rpc_names.
Definition msg_rpc_id (method : option string) : Z := rpc_id g_msg_rpc_names method.

(** Known keys of a response that is reused are set to null. *)
Definition msg_rpc_clear_resp (resp : json) : json :=
  match miku_json_type (Some resp) with
  | MK_JSON_OBJECT =>
      foldl (fun r k => match miku_json_get (Some r) (Some k) with
                        | Some _ => jset r k miku_json_create_null
                        | None => r end)
        resp ["errCode"; "errMsg"; "data"; "seq"; "serverMsgID"; "sendTime"; "serverTime"; "status"; "deleted"]
  | _ => resp
  end.

Definition handler : Type := rpc_env -> option json -> json -> prog world json.

Definition code_of (resp : json) (c : Z) : json := miku_ji resp "errCode" c.

(** An answer with a list of messages. *)
Definition with_msgs_data (resp : json) (l : list miku_msg) : json :=
  jset (code_of resp 0) "data" (foldl (fun a m => jpush a (miku_msg_to_json (Some m))) miku_json_create_array l).

Definition no_msg : miku_msg := Msg "" "" "" "" "" "" 0 0 "" 0 0 0 0 0 "".

(** [memset] and [miku_msg_from_json]. *)
Definition req_msg (req : option json) : miku_msg := default no_msg (miku_msg_from_json req).

Definition send_code (rc : Z) : Z := if rc =? 0 then 0 else if 0 <? rc then rc else 500.

Definition rpc_sendMsg : handler := fun env req resp =>
  let m := req_msg req in
  gate ← msg_send_gate m;
  if negb (gate =? 0) then Ret (code_of resp gate)
  else
    '(rc, m') ← send_locked m (ev_uuid env) (ev_now env);
    let resp := code_of resp (send_code rc) in
    Ret (if rc =? 0
         then miku_ji (miku_ji (miku_jss resp "serverMsgID" (Some (server_msg_id m'))) "seq" (seq m')) "sendTime" (send_time m')
         else resp).

Definition rpc_getMsgByConv : handler := fun env req resp =>
  let cid := jstr req "conversationID" in
  let uid := jstr req "userID" in
  if negb (given cid) || negb (given uid) then Ret (code_of resp 400)
  else
    let start := jint req "startTime" in
    let end_ := jint req "endTime" in
    let cnt := jint req "count" in
    let max := if (0 <? cnt) && (cnt <? MK_MAX_MSGS) then cnt else 20 in
    ok ← msg_user_may_access_conv uid cid;
    l ← (if (ok : bool) then msg_snapshot_conv (default "" cid) start end_ max max else Ret []);
    Ret (with_msgs_data resp l).

Definition rpc_revokeMsg : handler := fun env req resp =>
  let uid := jstr req "userID" in
  let cmid := jstr req "clientMsgID" in
  if negb (given uid) || negb (given cmid) then Ret (code_of resp 400)
  else rc ← miku_msg_revoke uid cmid; Ret (code_of resp (if rc =? 0 then 0 else 5001)).

Definition rpc_getServerTime : handler := fun env req resp =>
  Ret (miku_ji (code_of resp 0) "serverTime" (ev_now env)).

(** The message that a status request names. *)
Definition named_msg (s : msg_service) (smid cmid : option string) : option miku_msg :=
  at_ (msgs s) (if given smid then hash_find_sid s (default "" smid) else if given cmid then hash_find_cid s (default "" cmid) else -1).

Definition rpc_getSendMsgStatus : handler := fun env req resp =>
  let smid := jstr req "serverMsgID" in
  let cmid := jstr req "clientMsgID" in
  let uid := jstr req "userID" in
  if negb (given uid) || (negb (given smid) && negb (given cmid)) then Ret (code_of resp 400)
  else
    msg ← rd (fun w => named_msg (w_msg w) smid cmid);
    ok ← match (msg : option miku_msg) with
         | Some m => if streq (send_id m) (default "" uid) then msg_user_may_access_conv uid (Some (msg_conversation_id m)) else Ret false
         | None => Ret false
         end;
    Ret (miku_ji (code_of resp 0) "status" (if (ok : bool) then 1 else 0)).

Definition rpc_checkMsgIsSendSuccess : handler := rpc_getSendMsgStatus.

Definition rpc_cleanUpMsg : handler := fun env req resp =>
  ok ← msg_rpc_admin_platform env req; Ret (code_of resp (if (ok : bool) then 0 else 403)).

Definition rpc_deleteMsg : handler := fun env req resp =>
  let uid := jstr req "userID" in
  let cmid := jstr req "clientMsgID" in
  if negb (given uid) || negb (given cmid) then Ret (code_of resp 400)
  else
    ok ← miku_msg_may_delete_physical uid cmid;
    deleted ← (if (ok : bool) then delete_locked uid cmid else Ret false);
    Ret (code_of resp (if (deleted : bool) then 0 else 5001)).

Definition rpc_deleteMsgPhysical : handler := rpc_deleteMsg.

Definition rpc_batchSendMsg : handler := fun env req resp =>
  ok ← msg_rpc_admin_platform env req;
  Ret (if (ok : bool) then with_msgs_data resp [] else code_of resp 403).

Definition rpc_markMsgAsRead : handler := fun env req resp =>
  let cid := jstr req "conversationID" in
  let uid := jstr req "userID" in
  if negb (given cid) || negb (given uid) then Ret (code_of resp 400)
  else ok ← msg_user_may_access_conv uid cid; Ret (code_of resp (if (ok : bool) then 0 else 3003)).

Definition rpc_markMsgsAsRead : handler := rpc_markMsgAsRead.
Definition rpc_markConversationAsRead : handler := rpc_markMsgAsRead.
Definition rpc_setConversationHasReadSeq : handler := rpc_markMsgAsRead.

(** The messages of a conversation that [p] selects, for a user with access. *)
Definition conv_msgs (uid cid : option string) (p : list miku_msg -> list miku_msg) : prog world (list miku_msg) :=
  ok ← msg_user_may_access_conv uid cid;
  if (ok : bool) then l ← msg_snapshot_conv (default "" cid) 0 0 MK_MAX_MSGS MK_MAX_MSGS; Ret (p l) else Ret [].

Definition rpc_getMsgBySeq : handler := fun env req resp =>
  let n := jint req "seq" in
  let cid := jstr req "conversationID" in
  let uid := jstr req "userID" in
  if negb (given cid) || negb (given uid) || (n <=? 0) then Ret (code_of resp 400)
  else
    l ← conv_msgs uid cid (fun l => match List.find (fun m => seq m =? n) l with Some m => [m] | None => [] end);
    Ret (with_msgs_data resp l).

Definition rpc_send : handler := fun env req resp =>
  let m := req_msg req in
  gate ← msg_send_gate m;
  if negb (gate =? 0) then Ret (code_of resp gate)
  else
    '(rc, m') ← send_locked m (ev_uuid env) (ev_now env);
    let resp := code_of resp (send_code rc) in
    Ret (if rc =? 0
         then miku_ji (miku_ji (miku_jss resp "serverMsgID" (Some (server_msg_id m'))) "seq" (i32 (seq m'))) "sendTime" (i32 (send_time m'))
         else resp).

Definition rpc_sendSimpleMsg : handler := rpc_sendMsg.

Definition rpc_sendBusinessNotification : handler := fun env req resp =>
  let m := req_msg req in
  gate ← (if nonempty (msg_group_id m) then msg_send_gate m
          else admin ← msg_rpc_admin_platform env req;
               Ret (if (admin : bool) then (if negb (nonempty (send_id m)) || negb (nonempty (recv_id m)) then 400 else 0) else 403));
  if negb (gate =? 0) then Ret (code_of resp gate)
  else '(rc, _) ← send_locked m (ev_uuid env) (ev_now env); Ret (code_of resp (send_code rc)).

Definition rpc_getMsg : handler := fun env req resp =>
  let smid := jstr req "serverMsgID" in
  let uid := jstr req "userID" in
  if negb (given uid) || negb (given smid) then Ret (code_of resp 400)
  else
    msg ← rd (fun w => at_ (msgs (w_msg w)) (hash_find_sid (w_msg w) (default "" smid)));
    match (msg : option miku_msg) with
    | None => Ret (with_msgs_data resp [])
    | Some m =>
        ok ← msg_user_may_access_conv uid (Some (strn 127 (msg_conversation_id m)));
        Ret (with_msgs_data resp (if (ok : bool) then [m] else []))
    end.

Definition max_seq (l : list miku_msg) : Z := foldl (fun mx m => if mx <? seq m then seq m else mx) 0 l.

Definition rpc_getNewestSeq : handler := fun env req resp =>
  let cid := jstr req "conversationID" in
  let uid := jstr req "userID" in
  if negb (given cid) || negb (given uid) then Ret (code_of resp 400)
  else l ← conv_msgs uid cid id; Ret (miku_ji (code_of resp 0) "seq" (i32 (max_seq l))).

Definition rpc_pullMsgBySeq : handler := fun env req resp =>
  let begin := jint req "beginSeq" in
  let end_seq := jint req "endSeq" in
  let cid := jstr req "conversationID" in
  let uid := jstr req "userID" in
  if negb (given cid) || negb (given uid) then
    Ret (match miku_json_get req (Some "beginSeq"), miku_json_get req (Some "endSeq") with
         | None, None => code_of resp 400
         | _, _ => with_msgs_data resp []
         end)
  else
    l ← conv_msgs uid cid (List.filter (fun m => (begin <=? seq m) && ((end_seq =? 0) || (seq m <=? end_seq))));
    Ret (with_msgs_data resp l).

Definition rpc_searchMsg : handler := fun env req resp =>
  let keyword := jstr req "keyword" in
  let cid := jstr req "conversationID" in
  let uid := jstr req "userID" in
  if negb (given keyword) || negb (given cid) || negb (given uid) then Ret (code_of resp 400)
  else
    l ← conv_msgs uid cid (List.filter (fun m => has_sub (str (default "" keyword)) (str (content m))));
    Ret (with_msgs_data resp l).

Definition rpc_getConversationsHasReadAndMaxSeq : handler := fun env req resp =>
  Ret (if negb (given (jstr req "userID")) then code_of resp 400 else with_msgs_data resp []).

Definition with_deleted (resp : json) (n : Z) : json := miku_ji (code_of resp 0) "deleted" n.

(** Keep the messages that [keep] selects and rebuild the indexes; the number
    of removed messages. *)
Definition sweep (keep : miku_msg -> bool) : prog world Z :=
  atomic (fun w =>
    let s := w_msg w in
    let l := List.filter keep (msgs s) in
    (Z.of_nat (length (msgs s)) - Z.of_nat (length l), with_msg w (rebuild_indexes (with_msgs s l)))).

Definition rpc_clearConversationMsg : handler := fun env req resp =>
  let cid := jstr req "conversationID" in
  let uid := jstr req "userID" in
  if negb (given cid) || negb (given uid) then Ret (code_of resp 400)
  else if prefixed "sg_" (default "" cid) then Ret (code_of resp 3003)
  else
    ok ← msg_user_may_access_conv uid cid;
    if negb ok then Ret (code_of resp 3003)
    else deleted ← sweep (fun m => negb (streq (msg_conversation_id m) (default "" cid))); Ret (with_deleted resp deleted).

(** A single-chat message that [uid] sent or received. *)
Definition own_single (uid : string) (m : miku_msg) : bool :=
  negb (nonempty (msg_group_id m)) && (streq (send_id m) uid || streq (recv_id m) uid).

(** The client ids of the messages of the snapshot that [uid] may remove. *)
Fixpoint authorize (uid : string) (snapshot : list miku_msg) : prog world (list string) :=
  match snapshot with
  | [] => Ret []
  | m :: l =>
      ok ← (if own_single uid m then msg_user_may_access_conv (Some uid) (Some (msg_conversation_id m)) else Ret false);
      ids ← authorize uid l;
      Ret (if (ok : bool) then client_msg_id m :: ids else ids)
  end.

Definition rpc_userClearAllMsg : handler := fun env req resp =>
  let uid := jstr req "userID" in
  if negb (given uid) then Ret (code_of resp 400)
  else
    let u := default "" uid in
    snapshot ← rd (fun w => msgs (w_msg w));
    ids ← authorize u snapshot;
    deleted ← sweep (fun m => negb (own_single u m && existsb (fun c => streq c (client_msg_id m)) ids));
    Ret (with_deleted resp deleted).

Definition rpc_deleteMsgPhysicalBySeq : handler := fun env req resp =>
  let uid := jstr req "userID" in
  let cid := jstr req "conversationID" in
  let n := jint req "seq" in
  if negb (given uid) || negb (given cid) || (n <=? 0) then Ret (code_of resp 400)
  else
    ok ← miku_msg_may_delete_physical_by_seq uid cid n;
    deleted ← (if (ok : bool) then delete_seq_locked uid cid n else Ret false);
    Ret (code_of resp (if (deleted : bool) then 0 else 5001)).

(** Setting, adding and deleting reactions. *)
Definition rpc_setMessageReactionExtensions : handler := fun env req resp =>
  g ← msg_reaction_conv_gate req; Ret (code_of resp g).

Definition rpc_addMessageReactionExtensions : handler := rpc_setMessageReactionExtensions.
Definition rpc_deleteMessageReactionExtensions : handler := rpc_setMessageReactionExtensions.

Definition rpc_getMessageListReactionExtensions : handler := fun env req resp =>
  g ← msg_reaction_conv_gate req; Ret (if negb (g =? 0) then code_of resp g else with_msgs_data resp []).

Definition rpc_unknown (method : string) : handler := fun env req resp =>
  Ret (code_of resp (if prefixed "setMessage" method || prefixed "getMessage" method || prefixed "addMessage" method ||
                        prefixed "deleteMessage" method then 0 else 404)).

Definition msg_handler (id : Z) (method : string) : handler :=
  match id with
  | 0 => rpc_sendMsg
  | 1 => rpc_getMsgByConv
  | 2 => rpc_revokeMsg
  | 3 => rpc_getServerTime
  | 4 => rpc_getSendMsgStatus
  | 5 => rpc_cleanUpMsg
  | 6 => rpc_deleteMsg
  | 7 => rpc_batchSendMsg
  | 8 => rpc_markMsgAsRead
  | 9 => rpc_getMsgBySeq
  | 10 => rpc_send
  | 11 => rpc_sendSimpleMsg
  | 12 => rpc_sendBusinessNotification
  | 13 => rpc_getMsg
  | 14 => rpc_getNewestSeq
  | 15 => rpc_pullMsgBySeq
  | 16 => rpc_searchMsg
  | 17 => rpc_markMsgsAsRead
  | 18 => rpc_markConversationAsRead
  | 19 => rpc_setConversationHasReadSeq
  | 20 => rpc_getConversationsHasReadAndMaxSeq
  | 21 => rpc_checkMsgIsSendSuccess
  | 22 => rpc_clearConversationMsg
  | 23 => rpc_userClearAllMsg
  | 24 => rpc_deleteMsgPhysical
  | 25 => rpc_deleteMsgPhysicalBySeq
  | 26 => rpc_setMessageReactionExtensions
  | 27 => rpc_getMessageListReactionExtensions
  | 28 => rpc_addMessageReactionExtensions
  | 29 => rpc_deleteMessageReactionExtensions
  | _ => rpc_unknown method
  end.

Definition miku_msg_handle_rpc (method : option string) : handler := fun env req resp =>
  match method with
  | None => Ret resp
  | Some m => msg_handler (msg_rpc_id method) m env req (msg_rpc_clear_resp resp)
  end.
