(* ===== verification/MsgServiceInv.v ===== *)
(** * Invariant of the message service

    [msg_ok]: the three indexes agree with the messages.  A lookup by server or
    client id finds the newest message with that id ([find_newest]), and the
    chain of a conversation visits its messages, newest first
    ([conv_chain_ok]); sending, revoking and removing keep the invariant. *)
From Stdlib Require Import Ascii String.
From S2P Require Import Prelude Hash ProbeIndex ChainIndex Json JsonText Models Friend Group Token Atomic MsgService.
#[local] Open Scope string_scope.
#[local] Open Scope Z_scope.

#[export] Instance pow2_msgs : Pow2 MK_MSG_HASH.
Proof. by exists 17. Qed.

Lemma str_slot_bound k : 0 <= str_slot k < MK_MSG_HASH.
Proof. apply (mask_slot_bound 17). lia. Qed.

(** ** One index *)

Section Table.
Context (field : miku_msg -> string).

(** The key that a message is indexed by; none when the field is empty. *)
Definition key_of (m : miku_msg) : option string := if nonempty (field m) then Some (field m) else None.
Definition keys (l : list miku_msg) : list (option string) := key_of <$> l.

Definition table_ok (hd nx : gmap Z Z) (l : list miku_msg) : Prop := chain_ok (sz:=MK_MSG_HASH) str_slot hd nx (keys l).

Lemma keys_length l : length (keys l) = length l.
Proof. apply length_fmap. Qed.

Lemma key_of_Some m k : key_of m = Some k <-> field m = k /\ nonempty k = true.
Proof. unfold key_of. destruct (nonempty (field m)) eqn:E; split; [intros [= <-]; done|intros [<- _]; done|done|intros [<- ?]; congruence]. Qed.

Lemma at_take {A} n (l : list A) v x : at_ (take n l) v = Some x -> at_ l v = Some x.
Proof.
  intros H. pose proof (at_lt _ _ _ H) as L. rewrite length_take in L. unfold at_ in *. destruct (v <? 0); [done|].
  by rewrite lookup_take_lt in H by lia.
Qed.

(** The test of the loops decides on the entries of the table. *)
Lemma table_test n l hd nx k p v :
  table_ok hd nx (take n l) -> nonempty k = true -> hd !! p = Some v -> key_test l field k v = omatch (keys (take n l)) k v.
Proof.
  intros C Hk Hp. destruct (co_ix _ _ _ _ C) as [Hc _ _]. destruct (Hc _ _ Hp) as (_ & _ & [o Ho]).
  apply idxs_head_at in Ho. unfold key_test, omatch. rewrite Ho. unfold keys in Ho. rewrite at_fmap in Ho.
  destruct (at_ (take n l) v) as [m|] eqn:E; [|done]. cbn in Ho. apply at_take in E. rewrite E.
  injection Ho as Ho. apply key_of_Some in Ho as [<- _]. apply streq_bool.
Qed.

Lemma table_link n l hd nx m k :
  table_ok hd nx (take n l) -> l !! n = Some m -> Z.of_nat n < MK_MAX_MSGS -> field m = k -> nonempty k = true ->
  table_ok (chain_link MK_MSG_HASH hd nx (key_test l field k) (str_slot k) (Z.of_nat n)).1
           (chain_link MK_MSG_HASH hd nx (key_test l field k) (str_slot k) (Z.of_nat n)).2 (take (S n) l).
Proof.
  intros C Hm Hn Hf Hk. unfold chain_link.
  rewrite (scan_ext_cells _ _ (omatch (keys (take n l)) k)) by (intros p v Hp; by eapply table_test).
  pose proof (chain_ok_link str_slot str_slot_bound _ _ _ k C) as C'. unfold chain_link in C'.
  pose proof (lookup_lt_Some _ _ _ Hm). rewrite keys_length, length_take, Nat.min_l in C' by lia.
  unfold table_ok, keys. rewrite (take_S_r _ _ m) by done. rewrite fmap_app. cbn [fmap list_fmap].
  rewrite (proj2 (key_of_Some m k)) by done. apply C'. unfold MK_MSG_HASH, MK_MAX_MSGS in *. lia.
Qed.

Lemma table_skip n l hd nx m :
  table_ok hd nx (take n l) -> l !! n = Some m -> nonempty (field m) = false -> table_ok hd nx (take (S n) l).
Proof.
  intros C Hm Hk. unfold table_ok, keys. rewrite (take_S_r _ _ m) by done. rewrite fmap_app. cbn [fmap list_fmap].
  unfold key_of at 2. rewrite Hk. by apply chain_ok_skip.
Qed.

(** A cell of [next] that no chain uses. *)
Lemma table_pre l hd nx v : table_ok hd nx l -> table_ok hd (<[Z.of_nat (length l):=v]> nx) l.
Proof.
  intros [H1 H2 H3]. split; [done..|]. intros o. apply linked_insert; [|done]. rewrite <- keys_length. apply idxs_fresh.
Qed.

Lemma insert_key_link t nx k mi l :
  hash_insert_key t k mi l field = (chain_link MK_MSG_HASH t nx (key_test l field k) (str_slot k) mi).1.
Proof. unfold hash_insert_key, chain_link. by destruct (scan _ _ _ _). Qed.

Lemma table_insert n l hd nx m :
  table_ok hd nx (take n l) -> l !! n = Some m -> Z.of_nat n < MK_MAX_MSGS ->
  exists nx', table_ok (if nonempty (field m) then hash_insert_key hd (field m) (Z.of_nat n) l field else hd) nx' (take (S n) l).
Proof.
  intros C Hm Hn. destruct (nonempty (field m)) eqn:E; [|exists nx; by eapply table_skip].
  rewrite (insert_key_link _ nx). eexists. by eapply table_link.
Qed.

(** The newest message with the key. *)
Definition newest (k : string) (l : list miku_msg) : option miku_msg := head (reverse (filter (fun m => field m = k) l)).

Lemma table_find l hd nx k :
  table_ok hd nx l -> nonempty k = true ->
  at_ l (scan_find MK_MSG_HASH hd (key_test l field k) (str_slot k)) = newest k l.
Proof.
  intros C Hk. unfold scan_find. assert (take (length l) l = l) as El by apply firstn_all. unfold table_ok in C.
  rewrite (scan_ext_cells _ _ (omatch (keys l) k)).
  2: { intros p v Hp. rewrite <- El at 2. eapply table_test; [|done|exact Hp]. by rewrite El. }
  pose proof (chain_head_ok str_slot str_slot_bound _ _ _ k C) as Hh. unfold scan_find in Hh. rewrite Hh.
  pose proof (omap_idxs key_of l k) as Ho. fold (keys l) in Ho. unfold first_of.
  assert (filter (fun x => key_of x = Some k) l = filter (fun m => field m = k) l) as Ef.
  { apply list_filter_iff. intros m. rewrite key_of_Some. naive_solver. }
  unfold newest. rewrite Ef in Ho. rewrite <- Ho. destruct (idxs (keys l) k) as [|i il] eqn:Ei; [done|]. cbn.
  assert (is_Some (at_ l i)) as [m Hm].
  { assert (i ∈ idxs (keys l) k) as Hi by (rewrite Ei; left). apply elem_of_idxs in Hi. unfold keys in Hi. rewrite at_fmap in Hi.
    by destruct (at_ l i). }
  by rewrite Hm.
Qed.
End Table.

(** ** The service *)

(** The first [n] messages are indexed. *)
Record msg_upto (n : nat) (s : msg_service) : Prop := {
  mu_sid : exists nx, table_ok server_msg_id (sid_hash s) nx (take n (msgs s));
  mu_cid : exists nx, table_ok client_msg_id (cid_hash s) nx (take n (msgs s));
  mu_conv : table_ok msg_conversation_id (conv_hash s) (conv_next s) (take n (msgs s)) }.

Definition msg_ok (s : msg_service) : Prop :=
  msg_upto (length (msgs s)) s /\ Z.of_nat (length (msgs s)) <= MK_MAX_MSGS.

(** What does not depend on the indexes. *)
Definition same_content (s s' : msg_service) : Prop :=
  msgs s' = msgs s /\ msg_seq s' = msg_seq s /\ group_svc s' = group_svc s /\ friend_svc s' = friend_svc s.

Lemma index_msg_ok n s :
  msg_upto n s -> (n < length (msgs s))%nat -> Z.of_nat n < MK_MAX_MSGS ->
  msg_upto (S n) (index_msg s (Z.of_nat n)) /\ same_content s (index_msg s (Z.of_nat n)).
Proof.
  intros [[nx1 H1] [nx2 H2] H3] Hl Hn. destruct (lookup_lt_is_Some_2 _ _ Hl) as [m Hm].
  unfold index_msg. rewrite at_of_nat, Hm. unfold conv_link. cbn [msgs]. rewrite at_of_nat, Hm.
  destruct (table_insert _ _ _ _ _ _ H1 Hm Hn) as [nx1' H1']. destruct (table_insert _ _ _ _ _ _ H2 Hm Hn) as [nx2' H2'].
  cbn [conv_hash conv_next msg_seq sid_hash cid_hash group_svc friend_svc].
  destruct (nonempty (msg_conversation_id m)) eqn:E.
  - pose proof (table_link _ _ _ _ _ _ _ H3 Hm Hn eq_refl E) as H3'. destruct (chain_link _ _ _ _ _ _) as [hd nx].
    split; [|done]. split; [by exists nx1'|by exists nx2'|exact H3'].
  - split; [|done]. split; [by exists nx1'|by exists nx2'|]. cbn.
    apply (table_skip _ _ _ _ _ m); [|done|done]. pose proof (table_pre _ _ _ _ (-1) H3) as H3'.
    by rewrite length_take, Nat.min_l in H3' by lia.
Qed.

Lemma same_content_trans s1 s2 s3 : same_content s1 s2 -> same_content s2 s3 -> same_content s1 s3.
Proof. intros (? & ? & ? & ?) (? & ? & ? & ?). repeat split; congruence. Qed.

Lemma rebuild_indexes_ok s : Z.of_nat (length (msgs s)) <= MK_MAX_MSGS ->
  msg_ok (rebuild_indexes s) /\ same_content s (rebuild_indexes s).
Proof.
  intros Hmax. unfold rebuild_indexes. set (s0 := MsgService _ _ _ _ _ _ _ _).
  assert (let s' := for_range (Z.of_nat (length (msgs s))) index_msg s0 in
    msg_upto (Z.to_nat (Z.of_nat (length (msgs s)))) s' /\ same_content s0 s') as [H1 H2].
  { apply (for_range_ind (fun i s' => msg_upto (Z.to_nat i) s' /\ same_content s0 s')); [lia| |].
    - split; [|done]. split; [exists ∅|exists ∅|]; apply chain_ok_empty.
    - intros i s' Hi [U C]. pose proof C as (El & _). destruct (index_msg_ok (Z.to_nat i) s' U) as [U' C'].
      + rewrite El. cbn. lia.
      + lia.
      + rewrite Z2Nat.id in U', C' by lia. replace (Z.to_nat (i + 1)) with (S (Z.to_nat i)) by lia.
        split; [done|]. by eapply same_content_trans. }
  rewrite Nat2Z.id in H1. split; [|done]. pose proof H2 as (El & _). cbn in El. unfold msg_ok. rewrite El. by split.
Qed.

Lemma msg_ok_create : msg_ok miku_msg_service_create.
Proof. split; [|done]. split; [exists ∅|exists ∅|]; apply chain_ok_empty. Qed.

(** Storing a message. *)
Lemma store_ok s m uuid now rc m' s' :
  msg_ok s -> miku_msg_send_nolock s m uuid now = (rc, m', s') ->
  msg_ok s' /\
  ((rc = -1 /\ s' = s /\ length (msgs s) = Z.to_nat MK_MAX_MSGS) \/
   (rc = 0 /\ m' = stamped m uuid (msg_seq s + 1) now /\ msgs s' = (msgs s ++ [m'])%list /\ msg_seq s' = msg_seq s + 1 /\
    group_svc s' = group_svc s /\ friend_svc s' = friend_svc s)).
Proof.
  intros [U Hmax]. unfold miku_msg_send_nolock, msg_store_internal.
  destruct (Z.leb_spec MK_MAX_MSGS (Z.of_nat (length (msgs s)))) as [Hf|Hr].
  { intros [= <- <- <-]. split; [by split|]. left. split_and!; [done..|lia]. }
  set (x := stamped _ _ _ _). set (s1 := MsgService _ _ _ _ _ _ _ _).
  assert (take (length (msgs s)) (msgs s1) = msgs s) as Et by apply take_app_length.
  destruct (index_msg_ok (length (msgs s)) s1) as [U' (E1 & E2 & E3 & E4)].
  - destruct U as [U1 U2 U3]. split; rewrite Et; rewrite firstn_all in *; done.
  - cbn. rewrite length_app. cbn. lia.
  - done.
  - intros [= <- <- <-]. unfold msg_ok. rewrite E1. unfold s1 at 1 3. cbn [msgs]. rewrite length_app. cbn [length]. split; [split|].
    + by replace (length (msgs s) + 1)%nat with (S (length (msgs s))) by lia.
    + lia.
    + right. split_and!; done.
Qed.

(** Lookups and chains of a consistent service. *)
Lemma find_cid_newest s k : msg_ok s -> nonempty k = true -> at_ (msgs s) (hash_find_cid s k) = newest client_msg_id k (msgs s).
Proof. intros [[_ [nx H] _] _]. rewrite firstn_all in H. by eapply table_find. Qed.

Lemma find_sid_newest s k : msg_ok s -> nonempty k = true -> at_ (msgs s) (hash_find_sid s k) = newest server_msg_id k (msgs s).
Proof. intros [[[nx H] _ _] _]. rewrite firstn_all in H. by eapply table_find. Qed.

(** The messages of a conversation, newest first. *)
Definition conv_list (s : msg_service) (cid : string) : list miku_msg := reverse (filter (fun m => msg_conversation_id m = cid) (msgs s)).

Lemma conv_chain_ok s cid : msg_ok s -> nonempty cid = true ->
  conv_chain s cid = idxs (keys msg_conversation_id (msgs s)) cid /\ omap (at_ (msgs s)) (conv_chain s cid) = conv_list s cid.
Proof.
  intros [[_ _ H] _] Hc. rewrite firstn_all in H. unfold conv_chain, conv_head, scan_find.
  rewrite (scan_ext_cells _ _ (omatch (keys msg_conversation_id (msgs s)) cid)).
  2: { intros p v Hp. pose proof (table_test msg_conversation_id (length (msgs s)) (msgs s) (conv_hash s) (conv_next s) cid p v) as T. rewrite firstn_all in T. eauto. }
  pose proof (chain_walk_ok str_slot str_slot_bound _ _ _ cid (S (length (msgs s))) H) as Hw. unfold scan_find in Hw.
  rewrite keys_length in Hw. rewrite Hw by lia. split; [done|]. unfold keys. rewrite omap_idxs. unfold conv_list. f_equal.
  apply list_filter_iff. intros m. rewrite key_of_Some. naive_solver.
Qed.

(** The reading loop takes the first messages of the chain that it selects. *)
Lemma conv_loop_ok p s l : forall fuel room,
  linked (conv_next s) l -> Forall (fun i => is_Some (at_ (msgs s) i)) l -> (length l < fuel)%nat ->
  conv_loop fuel s p (first_of l) room = take (Z.to_nat room) (List.filter p (omap (at_ (msgs s)) l)).
Proof.
  induction l as [|i l IH]; intros [|fuel] room HL HF Hf; cbn [length] in Hf; try lia.
  - cbn. by rewrite take_nil.
  - destruct HL as [Hi HL]. apply list.Forall_cons in HF as [[m Hm] HF]. cbn [conv_loop omap list_omap]. change (first_of (i :: l)) with i.
    pose proof (at_lt _ _ _ Hm). rewrite (proj2 (Z.ltb_ge i 0)) by lia. rewrite Hm. cbn [orb List.filter].
    destruct (Z.leb_spec room 0) as [Hr|Hr]; [by replace (Z.to_nat room) with 0%nat by lia|].
    rewrite Hi. destruct (p m); rewrite IH by (done || lia); [|done].
    by replace (Z.to_nat room) with (S (Z.to_nat (room - 1))) by lia.
Qed.

(** [miku_msg_get_by_conv_nolock]: the newest messages of the conversation in
    the period, at most the smaller of [count] and [max]. *)
Lemma get_by_conv_ok s cid start end_ count max : msg_ok s -> nonempty cid = true ->
  miku_msg_get_by_conv_nolock s cid start end_ count max =
  take (Z.to_nat (Z.min count max)) (List.filter (in_period start end_) (conv_list s cid)).
Proof.
  intros O Hc. destruct (conv_chain_ok s cid O Hc) as [Ec Em]. rewrite Ec in Em. rewrite <- Em.
  unfold miku_msg_get_by_conv_nolock. set (l := idxs _ cid) in *.
  assert (conv_head s cid = first_of l) as ->.
  { unfold conv_chain in Ec. destruct l as [|i l0]; cbn in Ec; destruct (Z.ltb_spec (conv_head s cid) 0) as [Hh|Hh]; simplify_eq; [|done].
    unfold conv_head, scan_find in *. destruct (scan _ _ _ _) as [p v|p|] eqn:F; [|done..]. exfalso.
    pose proof (scan_run (sz:=MK_MSG_HASH) (conv_hash s) (key_test (msgs s) msg_conversation_id cid) (str_slot cid) (str_slot_bound cid)) as R.
    rewrite F in R. destruct R as (? & ? & ? & ? & ? & ?). lia. }
  destruct O as [[_ _ H] _]. rewrite firstn_all in H. apply conv_loop_ok.
  - apply H.
  - apply list.Forall_forall. intros i Hi. apply elem_of_idxs in Hi. unfold keys in Hi. rewrite at_fmap in Hi.
    destruct (at_ (msgs s) i); [by eexists|done].
  - pose proof (idxs_length (keys msg_conversation_id (msgs s)) cid). rewrite keys_length in *. unfold l. lia.
Qed.

(** ** Changes in place and removals *)

(** The indexes only depend on the three identifiers. *)
Lemma msg_ok_fields s l :
  msg_ok s -> server_msg_id <$> l = server_msg_id <$> msgs s -> client_msg_id <$> l = client_msg_id <$> msgs s ->
  msg_conversation_id <$> l = msg_conversation_id <$> msgs s -> msg_ok (with_msgs s l).
Proof.
  intros [[[nx1 H1] [nx2 H2] H3] Hmax] E1 E2 E3. assert (length l = length (msgs s)) as El.
  { rewrite <- (length_fmap server_msg_id l), E1. apply length_fmap. }
  assert (forall f : miku_msg -> string, f <$> l = f <$> msgs s -> keys f l = keys f (msgs s)) as Hk.
  { intros f E. unfold keys, key_of. change (fun m => if nonempty (f m) then Some (f m) else None)
      with ((fun x => if nonempty x then Some x else None) ∘ f). by rewrite !list_fmap_compose, E. }
  rewrite firstn_all in H1, H2, H3. unfold table_ok in *. split; [|cbn; by rewrite El].
  split; cbn; rewrite firstn_all; unfold table_ok; [exists nx1|exists nx2|]; by rewrite Hk.
Qed.

Lemma upd_msg_ok s mi f :
  msg_ok s -> 0 <= mi ->
  (forall m, server_msg_id (f m) = server_msg_id m /\ client_msg_id (f m) = client_msg_id m /\
             msg_conversation_id (f m) = msg_conversation_id m) -> msg_ok (upd_msg s mi f).
Proof. intros O Hi Hf. apply msg_ok_fields; [done|..]; (apply fmap_upd_at; [|done]; intros x _; by destruct (Hf x) as (? & ? & ?)). Qed.

Lemma remove_at_ok s mi m :
  msg_ok s -> at_ (msgs s) mi = Some m ->
  msg_ok (msg_remove_at s mi) /\ same_content (with_msgs s (delete (Z.to_nat mi) (msgs s))) (msg_remove_at s mi).
Proof.
  intros [_ Hmax] Hm. pose proof (at_lt _ _ _ Hm) as L. unfold msg_remove_at.
  rewrite (proj2 (Z.ltb_ge mi 0)), (proj2 (Z.leb_gt (Z.of_nat _) mi)) by lia. cbn [orb].
  apply rebuild_indexes_ok. cbn. apply at_Some in Hm as [_ Hm]. rewrite length_delete by eauto. lia.
Qed.

(** A message split off its list. *)
Lemma delete_split {A} (l : list A) mi m :
  at_ l mi = Some m -> exists l1 l2, l = (l1 ++ m :: l2)%list /\ delete (Z.to_nat mi) l = (l1 ++ l2)%list /\
    forall f, upd_at f mi l = (l1 ++ f m :: l2)%list.
Proof.
  intros (l1 & l2 & -> & ->)%at_split. exists l1, l2. split; [done|]. split; [|intros f; apply upd_at_app].
  rewrite Nat2Z.id. apply delete_middle.
Qed.
