(* ===== verification/MsgRpcSafe.v ===== *)
(** * What the requests of the message service may do

    Whatever other requests do between the locked regions of a request,
    [msg_rpc_authorized] says which changes of the messages it makes and what
    it observed before it made them, and [msg_rpc_discloses] which messages its
    answer contains.  [world_ok] is kept by every action, so it holds in every
    interleaving of requests ([msg_rpc_interleaved]). *)
From Stdlib Require Import Ascii String Sorted.
From S2P Require Import Prelude Hash ProbeIndex ChainIndex Json JsonText Models RpcNames OwnedTable Friend Group Token Atomic.
From S2P Require Import MsgService MsgServiceInv MsgRpc.
#[local] Open Scope string_scope.
#[local] Open Scope list_scope.
#[local] Open Scope Z_scope.

(** ** The invariant *)

(** Sequence numbers grow in the order of arrival, and every message is in
    the conversation of its parties. *)
Definition ordered (s : msg_service) : Prop :=
  StronglySorted Z.lt (seq <$> msgs s) /\ Forall (fun m => seq m <= msg_seq s /\ msg_conversation_id m = canonical m) (msgs s).

Definition world_ok (w : world) : Prop :=
  msg_ok (w_msg w) /\ ordered (w_msg w) /\ svc_ok (w_friend w) /\ group_ok (w_group w).

(** ** Permissions *)

(** One of the observed states has the property. *)
Definition seen (h : list world) (P : world -> Prop) : Prop := exists w, w ∈ h /\ P w.

Definition mutual (w : world) (a b : string) : Prop :=
  ref_has (recs (friends (w_friend w))) a b = true /\ ref_has (recs (friends (w_friend w))) b a = true.
Definition blocked (w : world) (a b : string) : Prop := ref_has (recs (blacks (w_friend w))) a b = true.
Definition member (w : world) (g u : string) : Prop := is_Some (role_map (w_group w) !! (g, u)).

(** The user may read the conversation: a single chat with a mutual friend,
    neither blocking the other; a group the user is in; or, for another
    identifier, a conversation with a message from or to the user. *)
Definition accessible (w : world) (uid cid : string) : Prop :=
  if prefixed "si_" cid then
    exists peer, miku_conversation_si_peer (Some cid) (Some uid) 64 = Some peer /\
      ref_access (recs (friends (w_friend w))) (recs (blacks (w_friend w))) uid peer = true
  else if prefixed "sg_" cid then nonempty (sdrop 3 cid) = true /\ member w (sdrop 3 cid) uid
  else exists m, m ∈ msgs (w_msg w) /\ msg_conversation_id m = cid /\ (send_id m = uid \/ recv_id m = uid).

(** A message may be sent: to a group of the sender, or to a mutual friend
    when neither blocks the other. *)
Definition may_send (h : list world) (m : miku_msg) : Prop :=
  nonempty (send_id m) = true /\
  if nonempty (msg_group_id m) then seen h (fun w => member w (msg_group_id m) (send_id m))
  else nonempty (recv_id m) = true /\ seen h (fun w => ~ blocked w (send_id m) (recv_id m)) /\
       seen h (fun w => ~ blocked w (recv_id m) (send_id m)) /\ seen h (fun w => mutual w (send_id m) (recv_id m)).

(** The request carries a valid token of an administrator. *)
Definition admin (env : rpc_env) (req : option json) (w : world) : Prop :=
  exists tok uid ts, jstr req "token" = Some tok /\
    miku_token_verify_ex (w_revokes w) (Some tok) (Some (miku_admin_default_secret (ev_secret env))) 64 (ev_token_now env)
      = Some (uid, 5, ts).

(** The user sent a message with this client id into a conversation that is
    still accessible when it is a single chat or a group. *)
Definition owns (h : list world) (uid cmid : string) : Prop :=
  exists m, seen h (fun w => newest client_msg_id cmid (msgs (w_msg w)) = Some m) /\ send_id m = uid /\
    (single_or_group (msg_conversation_id m) = true -> seen h (fun w => accessible w uid (msg_conversation_id m))).

(** ** What a request may change *)

Inductive msg_change (method : string) (env : rpc_env) (req : option json) (h : list world) (s s' : msg_service) : Prop :=
  | mc_none : msgs s' = msgs s -> msg_seq s' = msg_seq s -> msg_change method env req h s s'
  | mc_send :
      method ∈ ["sendMsg"; "send"; "sendSimpleMsg"; "sendBusinessNotification"] ->
      may_send h (req_msg req) \/
        (method = "sendBusinessNotification" /\ msg_group_id (req_msg req) = "" /\ seen h (admin env req)) ->
      msgs s' = (msgs s ++ [stamped (req_msg req) (ev_uuid env) (msg_seq s + 1) (ev_now env)])%list ->
      msg_seq s' = msg_seq s + 1 -> msg_change method env req h s s'
  | mc_revoke uid cmid l1 m l2 :
      method = "revokeMsg" -> jstr req "userID" = Some uid -> jstr req "clientMsgID" = Some cmid -> owns h uid cmid ->
      send_id m = uid -> client_msg_id m = cmid -> msgs s = (l1 ++ m :: l2)%list ->
      msgs s' = (l1 ++ set_msg_status 2 m :: l2)%list -> msg_seq s' = msg_seq s -> msg_change method env req h s s'
  | mc_delete uid cmid l1 m l2 :
      method ∈ ["deleteMsg"; "deleteMsgPhysical"] -> jstr req "userID" = Some uid -> jstr req "clientMsgID" = Some cmid ->
      owns h uid cmid -> send_id m = uid -> client_msg_id m = cmid -> msgs s = (l1 ++ m :: l2)%list ->
      msgs s' = (l1 ++ l2)%list -> msg_seq s' = msg_seq s -> msg_change method env req h s s'
  | mc_delete_seq uid cid l1 m l2 :
      method = "deleteMsgPhysicalBySeq" -> jstr req "userID" = Some uid -> jstr req "conversationID" = Some cid ->
      (single_or_group cid = true -> seen h (fun w => accessible w uid cid)) ->
      send_id m = uid -> msg_conversation_id m = cid -> seq m = jint req "seq" -> msgs s = (l1 ++ m :: l2)%list ->
      msgs s' = (l1 ++ l2)%list -> msg_seq s' = msg_seq s -> msg_change method env req h s s'
  | mc_clear uid cid :
      method = "clearConversationMsg" -> jstr req "userID" = Some uid -> jstr req "conversationID" = Some cid ->
      prefixed "sg_" cid = false -> seen h (fun w => accessible w uid cid) ->
      msgs s' = filter (fun m => msg_conversation_id m <> cid) (msgs s) -> msg_seq s' = msg_seq s ->
      msg_change method env req h s s'
  | mc_clear_all uid (keep : miku_msg -> bool) :
      method = "userClearAllMsg" -> jstr req "userID" = Some uid -> msgs s' = List.filter keep (msgs s) ->
      (forall m, m ∈ msgs s -> keep m = false ->
        msg_group_id m = "" /\ (send_id m = uid \/ recv_id m = uid) /\
        exists m0, seen h (fun w => m0 ∈ msgs (w_msg w)) /\ client_msg_id m0 = client_msg_id m /\
          seen h (fun w => accessible w uid (msg_conversation_id m0))) ->
      msg_seq s' = msg_seq s -> msg_change method env req h s s'.

(** One action: the invariant holds again, the other services do not change,
    and the messages change as permitted. *)
Definition allowed (method : string) (env : rpc_env) (req : option json) (h : list world) (w w' : world) : Prop :=
  world_ok w' /\ w_friend w' = w_friend w /\ w_group w' = w_group w /\ w_revokes w' = w_revokes w /\
  msg_change method env req h (w_msg w) (w_msg w').

(** ** What an answer contains *)

(** The message was in the store, in a conversation that the user may read. *)
Definition disclosed (h : list world) (uid : string) (m : miku_msg) : Prop :=
  seen h (fun w => m ∈ msgs (w_msg w)) /\ seen h (fun w => accessible w uid (msg_conversation_id m)).

Definition resp_data (r : json) : option json := miku_json_get (Some r) (Some "data").

(** [resp] is an object with at most [n] fields whose "data" is [d]. *)
Definition resp_is (n : nat) (r : json) (d : option json) : Prop := exists m, obj_upto n r m /\ m !! "data" = d.

Definition data_ok (req : option json) (h : list world) (d : option json) : Prop :=
  d = None \/ d = Some JNull \/
  exists l, d = Some (JArr ((fun m => miku_msg_to_json (Some m)) <$> l)) /\
    forall m, m ∈ l -> exists uid, jstr req "userID" = Some uid /\ disclosed h uid m.

Definition answer_ok (req : option json) (h : list world) (r : json) : Prop :=
  exists n d, resp_is n r d /\ data_ok req h d.

(** ** Lemmas on observed states and guarantees *)

Lemma seen_app h h' P : seen h P -> seen (h ++ h') P.
Proof. intros (w & Hw & HP). exists w. split; [|done]. apply elem_of_app. by left. Qed.

Lemma seen_last h w P : P w -> seen (h ++ [w]) P.
Proof. intros HP. exists w. split; [|done]. apply elem_of_app. right. by apply list_elem_of_singleton. Qed.

#[export] Hint Resolve seen_app seen_last : miku.

Lemma seen_impl h (P Q : world -> Prop) : seen h P -> (forall w, P w -> Q w) -> seen h Q.
Proof. intros (w & Hw & HP) H. exists w. auto. Qed.

Lemma allowed_refl method env req h w : world_ok w -> allowed method env req h w w.
Proof. intros O. split; [done|]. split_and!; [done..|]. by apply mc_none. Qed.

(** Every action of a program that only reads is allowed. *)
Section Steps.
Context (method : string) (env : rpc_env) (req : option json).
#[local] Abbreviation ok := (safe world_ok (allowed method env req)).

Lemma safe_rd {A B} (Q : list world -> B -> Prop) (f : world -> A) k h :
  (forall w, world_ok w -> ok Q (h ++ [w]) (k (f w))) -> ok Q h (rd f ≫= k).
Proof. intros H. apply safe_bind. intros w Hw. split; [by apply allowed_refl|]. by apply H. Qed.

Lemma safe_rd_last {A} (Q : list world -> A -> Prop) (f : world -> A) h :
  (forall w, world_ok w -> Q (h ++ [w]) (f w)) -> ok Q h (rd f).
Proof. intros H w Hw. split; [by apply allowed_refl|]. by apply H. Qed.
End Steps.

(** ** Access checks *)

Lemma given_default p : given p = true -> exists s, p = Some s /\ nonempty s = true /\ default "" p = s.
Proof. destruct p as [s|]; [|done]. cbn. eauto. Qed.

Lemma takes_part_ok s uid cid : msg_ok s -> nonempty cid = true -> takes_part s uid cid = true ->
  exists m, m ∈ msgs s /\ msg_conversation_id m = cid /\ (send_id m = uid \/ recv_id m = uid).
Proof.
  intros O Hc H. apply existsb_exists in H as (mi & Hin & Hm). destruct (at_ (msgs s) mi) as [m|] eqn:E; [|done].
  apply list_elem_of_In in Hin. exists m. apply orb_true_iff in Hm. rewrite !streq_eq in Hm.
  assert (m ∈ conv_list s cid) as Hl.
  { rewrite <- (proj2 (conv_chain_ok s cid O Hc)). apply list_elem_of_omap. eauto. }
  unfold conv_list in Hl. rewrite elem_of_reverse, list_elem_of_filter in Hl. naive_solver.
Qed.

Lemma si_access_ok w u c :
  world_ok w -> nonempty u = true -> nonempty c = true ->
  miku_friend_may_access_si_conv (w_friend w) (Some u) (Some c) <> 0 ->
  exists peer, miku_conversation_si_peer (Some c) (Some u) 64 = Some peer /\
    ref_access (recs (friends (w_friend w))) (recs (blacks (w_friend w))) u peer = true.
Proof.
  intros (_ & _ & O & _) Hu Hc H. destruct (miku_conversation_si_peer (Some c) (Some u) 64) as [peer|] eqn:E.
  - exists peer. split; [done|]. rewrite (access_ok _ _ _ peer) in H by done. by case_match.
  - exfalso. apply H. unfold miku_friend_may_access_si_conv. by rewrite E, orb_comm; repeat case_match.
Qed.

Lemma member_given svc g u : group_is_member_nolock svc (Some g) (Some u) = true -> nonempty g = true /\ nonempty u = true.
Proof. unfold group_is_member_nolock. cbn [given]. destruct (nonempty g), (nonempty u); done. Qed.

Lemma is_member_seen w g u : world_ok w -> miku_group_is_member (w_group w) (Some g) (Some u) = true -> member w g u.
Proof.
  intros (_ & _ & _ & G) H. destruct (member_given _ _ _ H) as [Hg Hu]. unfold miku_group_is_member in H.
  rewrite is_member_ok in H by done. by apply bool_decide_eq_true in H.
Qed.

Section Checks.
Context (method : string) (env : rpc_env) (req : option json).
#[local] Abbreviation ok := (safe world_ok (allowed method env req)).

(** A granted access was justified in one of the states seen by the check. *)
Lemma access_safe uid cid h :
  ok (fun h' b => b = true -> exists u c, uid = Some u /\ cid = Some c /\ nonempty u = true /\ nonempty c = true /\
                                seen h' (fun w => accessible w u c)) h (msg_user_may_access_conv uid cid).
Proof.
  unfold msg_user_may_access_conv. destruct (given uid) eqn:Eu; [|done]. destruct (given cid) eqn:Ec; [|done].
  destruct (given_default _ Eu) as (u & -> & Hu & _). destruct (given_default _ Ec) as (c & -> & Hc & ->). cbn [negb orb].
  destruct (prefixed "si_" c) eqn:Esi; [|destruct (prefixed "sg_" c) eqn:Esg].
  - apply safe_rd. intros w _. case_match; [|done]. apply safe_rd_last. intros w' O Hb. exists u, c. split_and!; [done..|].
    apply seen_last. unfold accessible. rewrite Esi. apply negb_true_iff, Z.eqb_neq in Hb. by apply si_access_ok.
  - apply safe_rd. intros w _. case_match; [|done]. apply safe_rd_last. intros w' O Hb. exists u, c. split_and!; [done..|].
    apply seen_last. unfold accessible. rewrite Esi, Esg. split; [exact (proj1 (member_given _ _ _ Hb))|by apply is_member_seen].
  - apply safe_rd_last. intros w O Hb. exists u, c. split_and!; [done..|]. apply seen_last. unfold accessible. rewrite Esi, Esg.
    apply takes_part_ok; [apply O|done|done].
Qed.

Lemma send_gate_safe m h : ok (fun h' g => g = 0 -> may_send h' m) h (msg_send_gate m).
Proof.
  unfold msg_send_gate, may_send. destruct (nonempty (send_id m)) eqn:Es; [|done]. cbn [negb].
  destruct (nonempty (msg_group_id m)) eqn:Eg.
  - apply safe_rd. intros w _. case_match; [done|]. apply safe_rd. intros w' O. case_match; [|done].
    intros _. split; [done|]. apply seen_last. by apply is_member_seen.
  - destruct (nonempty (recv_id m)) eqn:Er; [|done]. cbn [negb]. apply safe_rd. intros w _. case_match; [done|].
    apply safe_rd. intros w1 O1. destruct (miku_friend_is_black _ _ _) eqn:B1; [done|].
    apply safe_rd. intros w2 O2. destruct (miku_friend_is_black _ (Some (recv_id m)) _) eqn:B2; [done|].
    apply safe_rd. intros w3 O3. destruct (miku_friend_is_mutual _ _ _) eqn:B3; [|done]. intros _.
    assert (forall w a b, world_ok w -> miku_friend_is_black (w_friend w) (Some a) (Some b) = false -> ~ blocked w a b) as Hb.
    { intros w0 a b (_ & _ & [_ Ob] & _) Hf. unfold miku_friend_is_black, black_pair_find in Hf.
      fold (has_pair (blacks (w_friend w0)) a b) in Hf. rewrite has_pair_ok in Hf by done. unfold blocked. congruence. }
    split_and!; [done..| | |].
    + do 2 apply seen_app. apply seen_last. by apply Hb.
    + apply seen_app, seen_last. by apply Hb.
    + apply seen_last. destruct O3 as (_ & _ & [Of _] & _). unfold miku_friend_is_mutual in B3. rewrite !has_pair_ok in B3 by done.
      by apply andb_true_iff in B3.
Qed.

Lemma admin_safe h : ok (fun h' b => b = true -> seen h' (admin env req)) h (msg_rpc_admin_platform env req).
Proof.
  unfold msg_rpc_admin_platform. case_match; [done|]. destruct (given (jstr req "token")) eqn:Et; [|done]. cbn [negb].
  destruct (given_default _ Et) as (tok & E & _ & _). rewrite E. apply safe_rd_last. intros w _ Hb. apply seen_last.
  destruct (miku_token_verify_ex _ _ _ _ _) as [[[u p] ts]|] eqn:V; [|done]. apply Z.eqb_eq in Hb. subst p. by exists tok, u, ts.
Qed.
End Checks.

(** ** Locked regions *)

Lemma ordered_snoc s s' m :
  ordered s -> msgs s' = msgs s ++ [m] -> seq m = msg_seq s + 1 -> msg_conversation_id m = canonical m -> msg_seq s' = msg_seq s + 1 ->
  ordered s'.
Proof.
  intros [Hs Hb] E1 E2 Ec E3. unfold ordered. rewrite E1, E3, fmap_app. cbn [fmap list_fmap]. split.
  - rewrite E2. revert Hs Hb. generalize (msgs s) as l. intros l. induction l as [|x l IH]; cbn; intros Hs Hb.
    + repeat constructor.
    + apply StronglySorted_inv in Hs as [Hs Hx]. apply list.Forall_cons in Hb as [[Hx1 _] Hb]. constructor; [by apply IH|].
      apply list.Forall_app. split; [done|]. constructor; [lia|constructor].
  - apply list.Forall_app. split; [|constructor; [split; [lia|done]|constructor]]. eapply list.Forall_impl; [exact Hb|]. cbn.
    intros x [? ?]. split; [lia|done].
Qed.

Lemma sorted_sublist (l l' : list Z) : l `sublist_of` l' -> StronglySorted Z.lt l' -> StronglySorted Z.lt l.
Proof.
  induction 1 as [|x l l' Hsub IH|x l l' Hsub IH]; intros Hs; [done|..]; apply StronglySorted_inv in Hs as [Hs Hx]; [|by apply IH].
  constructor; [by apply IH|]. rewrite list.Forall_forall in *. intros y Hy. apply Hx. by eapply elem_of_sublist.
Qed.

(** What the order and the conversation of a message depend on. *)
Definition filing (m : miku_msg) : Z * bool := (seq m, bool_decide (msg_conversation_id m = canonical m)).

(** Fewer messages, or the same ones with the same numbers. *)
Lemma ordered_sub s s' : ordered s -> filing <$> msgs s' `sublist_of` filing <$> msgs s -> msg_seq s' = msg_seq s -> ordered s'.
Proof.
  intros [Hs Hb] Hsub E. assert (forall l : list miku_msg, seq <$> l = fst <$> (filing <$> l)) as Ef.
  { intros l. rewrite <- list_fmap_compose. done. }
  split; [rewrite Ef in Hs |- *; eapply sorted_sublist; [by apply fmap_sublist|done]|]. rewrite E. apply list.Forall_forall. intros m Hm.
  assert (filing m ∈ filing <$> msgs s) as Hin by (eapply elem_of_sublist; [by apply list_elem_of_fmap_2|done]).
  apply list_elem_of_fmap in Hin as (x & Ex & Hx). rewrite list.Forall_forall in Hb. destruct (Hb x Hx) as [H1 H2].
  injection Ex as E1 E2. split; [lia|]. by rewrite (bool_decide_eq_true_2 _ H2), bool_decide_eq_true in E2.
Qed.

Lemma canonical_fits m : strn 127 (canonical m) = canonical m.
Proof.
  apply strn_short. unfold canonical, miku_conversation_id_resolve. change (Z.to_nat (128 - 1)) with 127%nat.
  repeat case_match; rewrite strn_length; lia.
Qed.

Lemma conv_fits_buffer s m : ordered s -> m ∈ msgs s -> strn 127 (msg_conversation_id m) = msg_conversation_id m.
Proof. intros [_ H] Hm. rewrite list.Forall_forall in H. destruct (H m Hm) as [_ ->]. apply canonical_fits. Qed.

Lemma allowed_msg method env req h w s' :
  world_ok w -> msg_ok s' -> ordered s' -> msg_change method env req h (w_msg w) s' -> allowed method env req h w (with_msg w s').
Proof. intros (_ & _ & Of & Og) H1 H2 H3. split; [by split_and!|]. by split_and!. Qed.

Section Locked.
Context (method : string) (env : rpc_env) (req : option json).
#[local] Abbreviation ok := (safe world_ok (allowed method env req)).

Lemma send_locked_safe h :
  method ∈ ["sendMsg"; "send"; "sendSimpleMsg"; "sendBusinessNotification"] ->
  may_send h (req_msg req) \/ (method = "sendBusinessNotification" /\ msg_group_id (req_msg req) = "" /\ seen h (admin env req)) ->
  ok (fun _ _ => True) h (send_locked (req_msg req) (ev_uuid env) (ev_now env)).
Proof.
  intros Hm Hp w O. cbn. pose proof O as (Om & Oo & _).
  destruct (miku_msg_send_nolock (w_msg w) _ _ _) as [[rc m'] s'] eqn:E. cbn. split; [|done].
  destruct (store_ok _ _ _ _ _ _ _ Om E) as [O' [(_ & -> & _)|(_ & -> & El & En & _)]].
  - apply allowed_msg; [done..|]. by apply mc_none.
  - apply allowed_msg; [done|done|by eapply ordered_snoc|]. apply mc_send; [done| |done|done].
    destruct Hp as [(H1 & H2)|(H1 & H2 & H3)]; [left|right; split_and!; auto with miku]. split; [done|].
    case_match; [auto with miku|]. destruct H2 as (? & ? & ? & ?). split_and!; auto with miku.
Qed.

(** The message a client id names is the newest one with it. *)
Lemma own_msg s uid cmid :
  msg_ok s -> msg_may_delete_physical_nolock s uid cmid = true ->
  exists u c m, uid = Some u /\ cmid = Some c /\ nonempty u = true /\ nonempty c = true /\ at_ (msgs s) (hash_find_cid s c) = Some m /\
    newest client_msg_id c (msgs s) = Some m /\ send_id m = u /\ client_msg_id m = c.
Proof.
  intros O. unfold msg_may_delete_physical_nolock. intros H. apply andb_true_iff in H as [H Hm]. apply andb_true_iff in H as [Hu Hc].
  destruct (given_default _ Hu) as (u & -> & Nu & Eu). destruct (given_default _ Hc) as (c & -> & Nc & Ec). rewrite Ec, Eu in Hm.
  destruct (at_ (msgs s) (hash_find_cid s c)) as [m|] eqn:E; [|done]. apply streq_eq in Hm.
  pose proof (find_cid_newest s c O Nc) as En. rewrite E in En. exists u, c, m. split_and!; try done.
  assert (m ∈ reverse (filter (fun m => client_msg_id m = c) (msgs s))) as Hin.
  { symmetry in En. unfold newest in En. destruct (reverse _); [done|]. cbn in En. simplify_eq. by left. }
  rewrite elem_of_reverse, list_elem_of_filter in Hin. tauto.
Qed.

(** The check that precedes a revocation or a deletion by client id. *)
Lemma may_delete_safe uid cmid h :
  ok (fun h' b => b = true -> exists u c, uid = Some u /\ cmid = Some c /\ owns h' u c) h (miku_msg_may_delete_physical uid cmid).
Proof.
  unfold miku_msg_may_delete_physical. destruct (_ || _); [done|]. apply safe_rd. intros w O.
  unfold own_conv. destruct (msg_may_delete_physical_nolock (w_msg w) uid cmid) eqn:E; [|done].
  destruct (own_msg _ _ _ (proj1 O) E) as (u & c & m & -> & -> & Nu & Nc & Hm & Hn & Hs & _). cbn [default from_option id].
  unfold id in *. rewrite Hm. rewrite (conv_fits_buffer (w_msg w)) by (apply O || (apply at_Some in Hm as [_ Hm]; by eapply list_elem_of_lookup_2)).
  destruct (single_or_group _) eqn:Eg.
  - eapply safe_mono; [apply access_safe|]. intros h' b Hb Hb'. destruct (Hb Hb') as (u' & c' & [= <-] & [= <-] & _ & _ & Ha).
    exists u, c. split_and!; [done..|]. exists m. split_and!; [|done|done]. by apply seen_app, seen_last.
  - intros _. exists u, c. split_and!; [done..|]. exists m. split_and!; [by apply seen_last|done|congruence].
Qed.

Lemma owns_app h h' u c : owns h u c -> owns (h ++ h') u c.
Proof. intros (m & H1 & H2 & H3). exists m. split_and!; auto with miku. Qed.

Lemma delete_locked_safe h uid cmid :
  method ∈ ["deleteMsg"; "deleteMsgPhysical"] -> uid = jstr req "userID" -> cmid = jstr req "clientMsgID" ->
  (exists u c, uid = Some u /\ cmid = Some c /\ owns h u c) -> ok (fun _ _ => True) h (delete_locked uid cmid).
Proof.
  intros Hmd Eu Ec (u & c & -> & -> & Hown) w O. cbn [safe]. split; [|done]. destruct (_ && _) eqn:E; cbn [snd]; [|by apply allowed_refl].
  apply andb_true_iff in E as [E _]. destruct (own_msg _ _ _ (proj1 O) E) as (u' & c' & m & [= <-] & [= <-] & _ & _ & Hm & _ & Hs & Hci).
  cbn [default from_option id]. unfold id. destruct (remove_at_ok _ _ _ (proj1 O) Hm) as [O' (E1 & E2 & _)]. cbn in E1, E2.
  destruct (delete_split _ _ _ Hm) as (l1 & l2 & El & Ed & _). rewrite Ed in E1. apply allowed_msg; [done|done| |].
  - apply (ordered_sub (w_msg w)); [apply O| |done]. rewrite E1, El. apply fmap_sublist, sublist_app; [done|by apply sublist_cons].
  - eapply (mc_delete _ _ _ _ _ _ u c l1 m l2); try done. by apply owns_app.
Qed.

Lemma revoke_safe h : method = "revokeMsg" -> ok (fun _ _ => True) h (miku_msg_revoke (jstr req "userID") (jstr req "clientMsgID")).
Proof.
  intros Hmd. unfold miku_msg_revoke. destruct (jstr req "userID") as [u|] eqn:Eu; [|done].
  destruct (jstr req "clientMsgID") as [c|] eqn:Ec; [|done]. apply safe_bind. eapply safe_mono; [apply may_delete_safe|].
  intros h' [|] Hb; cbn [negb]; [|done]. destruct (Hb eq_refl) as (u' & c' & [= <-] & [= <-] & Hown).
  intros w O. split; [|done]. destruct (msg_may_delete_physical_nolock _ _ _) eqn:E; cbn [snd]; [|by apply allowed_refl].
  destruct (own_msg _ _ _ (proj1 O) E) as (u' & c' & m & [= <-] & [= <-] & _ & _ & Hm & _ & Hs & Hci).
  unfold miku_msg_revoke_nolock. rewrite Hm, (proj2 (streq_eq _ _) Hs). cbn [snd].
  destruct (delete_split _ _ _ Hm) as (l1 & l2 & El & _ & Hup). apply allowed_msg; [done| | |].
  - apply upd_msg_ok; [apply O|apply at_lt in Hm; lia|]. intros x. done.
  - apply (ordered_sub (w_msg w)); [apply O| |done]. cbn. rewrite Hup, El, !fmap_app. done.
  - eapply (mc_revoke _ _ _ _ _ _ u c l1 m l2); try done; [by apply owns_app|]. cbn. by rewrite Hup.
Qed.

(** The message with a sequence number, on the chain of its conversation. *)
Lemma find_seq_ok s cid n mi :
  msg_ok s -> nonempty cid = true -> find_seq s cid n = Some mi ->
  exists m, at_ (msgs s) mi = Some m /\ seq m = n /\ msg_conversation_id m = cid.
Proof.
  intros O Hc H. apply find_some in H as [Hin Hn]. destruct (at_ (msgs s) mi) as [m|] eqn:E; [|done]. exists m.
  split; [done|]. apply Z.eqb_eq in Hn. split; [done|]. apply list_elem_of_In in Hin.
  rewrite (proj1 (conv_chain_ok s cid O Hc)) in Hin. apply elem_of_idxs in Hin. unfold keys in Hin. rewrite at_fmap, E in Hin.
  injection Hin as Hin. by apply key_of_Some in Hin as [Hin _].
Qed.

Lemma may_delete_seq_safe uid cid n h :
  ok (fun h' b => b = true -> exists u c, uid = Some u /\ cid = Some c /\ (single_or_group c = true -> seen h' (fun w => accessible w u c)))
     h (miku_msg_may_delete_physical_by_seq uid cid n).
Proof.
  unfold miku_msg_may_delete_physical_by_seq. destruct (given uid) eqn:Eu; [|done]. destruct (given cid) eqn:Ec; [|done].
  destruct (given_default _ Eu) as (u & -> & Hu & _). destruct (given_default _ Ec) as (c & -> & Hc & _). cbn [negb orb default from_option].
  case_match; [done|]. unfold id. apply safe_bind. destruct (single_or_group c) eqn:Es.
  - eapply safe_mono; [apply access_safe|]. intros h' [|] Hb; cbn [negb]; [|done]. apply safe_rd_last. intros w _ _.
    destruct (Hb eq_refl) as (? & ? & [= <-] & [= <-] & _ & _ & Ha). exists u, c. split_and!; auto with miku.
  - cbn [safe negb]. apply safe_rd_last. intros w _ _. exists u, c. split_and!; [done..|congruence].
Qed.

Lemma delete_seq_locked_safe h u c n :
  method = "deleteMsgPhysicalBySeq" -> Some u = jstr req "userID" -> Some c = jstr req "conversationID" -> n = jint req "seq" ->
  (single_or_group c = true -> seen h (fun w => accessible w u c)) -> ok (fun _ _ => True) h (delete_seq_locked (Some u) (Some c) n).
Proof.
  intros Hmd Eu Ec En Hacc w O. cbn [safe]. split; [|done]. cbn [default from_option]. unfold id.
  destruct (find_seq (w_msg w) c n) as [mi|] eqn:F; cbn [snd]; [|by apply allowed_refl].
  destruct (msg_may_delete_physical_by_seq_nolock _ _ _ _) eqn:E; cbn [snd]; [|by apply allowed_refl].
  unfold msg_may_delete_physical_by_seq_nolock in E. cbn [given default from_option] in E. unfold id in E. rewrite F in E.
  apply andb_true_iff in E as [E Hs]. apply andb_true_iff in E as [E _]. apply andb_true_iff in E as [_ Hc].
  destruct (find_seq_ok _ _ _ _ (proj1 O) Hc F) as (m & Hm & Hn & Hcv). rewrite Hm in Hs. apply streq_eq in Hs.
  destruct (remove_at_ok _ _ _ (proj1 O) Hm) as [O' (E1 & E2 & _)]. cbn in E1, E2.
  destruct (delete_split _ _ _ Hm) as (l1 & l2 & El & Ed & _). rewrite Ed in E1. apply allowed_msg; [done|done| |].
  - apply (ordered_sub (w_msg w)); [apply O| |done]. rewrite E1, El. apply fmap_sublist, sublist_app; [done|by apply sublist_cons].
  - eapply (mc_delete_seq _ _ _ _ _ _ u c l1 m l2); try done; [auto with miku|congruence].
Qed.

Lemma filter_sublist {A} (p : A -> bool) l : List.filter p l `sublist_of` l.
Proof. induction l as [|x l IH]; cbn; [done|]. case_match; [by apply sublist_skip|by apply sublist_cons]. Qed.

Lemma sweep_safe h keep :
  (forall h' s s', msgs s' = List.filter keep (msgs s) -> msg_seq s' = msg_seq s -> msg_change method env req (h ++ h') s s') ->
  ok (fun _ _ => True) h (sweep keep).
Proof.
  intros Hc w O. cbn [safe snd]. split; [|done]. pose proof O as ([_ Hmax] & Oo & _).
  destruct (rebuild_indexes_ok (with_msgs (w_msg w) (List.filter keep (msgs (w_msg w))))) as [O' (E1 & E2 & _)].
  { cbn. pose proof (sublist_length _ _ (filter_sublist keep (msgs (w_msg w)))). lia. }
  cbn in E1, E2. apply allowed_msg; [done|done| |by apply Hc].
  apply (ordered_sub (w_msg w)); [done| |done]. rewrite E1. apply fmap_sublist, filter_sublist.
Qed.

(** The client ids that [authorize] collects. *)
Lemma authorize_safe uid snap : forall h,
  seen h (fun w => forall m, m ∈ snap -> m ∈ msgs (w_msg w)) ->
  ok (fun h' ids => (exists h2, h' = h ++ h2) /\
        forall c, c ∈ ids -> exists m0, seen h' (fun w => m0 ∈ msgs (w_msg w)) /\ client_msg_id m0 = c /\
                              seen h' (fun w => accessible w uid (msg_conversation_id m0))) h (authorize uid snap).
Proof.
  induction snap as [|m snap IH]; intros h Hs; cbn [authorize].
  - split; [exists []; by rewrite app_nil_r|]. intros c Hc. by apply elem_of_nil in Hc.
  - assert (forall h2, seen (h ++ h2) (fun w => m ∈ msgs (w_msg w))) as Hm.
    { intros h2. apply seen_app. eapply seen_impl; [exact Hs|]. intros w H. apply H. by left. }
    assert (forall h2, seen (h ++ h2) (fun w => forall m, m ∈ snap -> m ∈ msgs (w_msg w))) as Hs'.
    { intros h2. apply seen_app. eapply seen_impl; [exact Hs|]. intros w H x Hx. apply H. by right. }
    assert (forall h2 b, (b = true -> seen (h ++ h2) (fun w => accessible w uid (msg_conversation_id m))) ->
      ok (fun h' ids => (exists h2, h' = h ++ h2) /\ forall c, c ∈ ids -> exists m0, seen h' (fun w => m0 ∈ msgs (w_msg w)) /\ client_msg_id m0 = c /\
            seen h' (fun w => accessible w uid (msg_conversation_id m0))) (h ++ h2)
        (ids ← authorize uid snap; Ret (if (b : bool) then client_msg_id m :: ids else ids))) as Hrest.
    { intros h2 b Hb. apply safe_bind. eapply safe_mono; [apply IH, Hs'|]. intros h3 ids [_ Hids]. split; [exists (h2 ++ h3); by rewrite app_assoc|].
      intros c Hc. destruct b; [|by apply Hids]. apply elem_of_cons in Hc as [->|Hc]; [|by apply Hids].
      exists m. split_and!; [rewrite <- app_assoc; apply Hm|done|by apply seen_app, Hb]. }
    apply safe_bind. destruct (own_single uid m).
    + eapply safe_mono; [apply access_safe|]. intros h2 b Hb. apply Hrest. intros ->.
      destruct (Hb eq_refl) as (? & ? & [= <-] & [= <-] & _ & _ & Ha). done.
    + cbn [safe]. specialize (Hrest [] false ltac:(done)). by rewrite app_nil_r in Hrest.
Qed.
End Locked.

(** ** Answers *)

(** A response without data so far. *)
Definition plain (n : nat) (r : json) : Prop := exists d, resp_is n r d /\ (d = None \/ d = Some JNull).

Lemma resp_set n r d k x : resp_is n r d -> (n < 1000)%nat -> resp_is (S n) (jset r k x) (if decide (k = "data") then Some x else d).
Proof.
  intros (m & Hu & Hd) Hn. exists (<[k:=x]> m). split; [by apply upto_set|]. case_decide as E.
  - rewrite E. by rewrite lookup_insert_eq.
  - by rewrite lookup_insert_ne.
Qed.

Lemma plain_set n r k x : plain n r -> k <> "data" -> (n < 1000)%nat -> plain (S n) (jset r k x).
Proof.
  intros (d & H & Hd) Hk Hn. exists d. split; [|done]. pose proof (resp_set n r d k x H Hn) as H'. by rewrite decide_False in H' by done.
Qed.

Lemma plain_ji n r k z : plain n r -> k <> "data" -> (n < 1000)%nat -> plain (S n) (miku_ji r k z).
Proof. apply plain_set. Qed.

Lemma plain_jss n r k s : plain n r -> k <> "data" -> (n < 1000)%nat -> plain (S n) (miku_jss r k (Some s)).
Proof. apply plain_set. Qed.

Lemma plain_answer req h n r : plain n r -> answer_ok req h r.
Proof. intros (d & H & [->| ->]); eexists n, _; (split; [exact H|]); unfold data_ok; auto. Qed.

Lemma push_all l acc : foldl (fun a m => jpush a (miku_msg_to_json (Some m))) (JArr acc) l =
  JArr (acc ++ ((fun m => miku_msg_to_json (Some m)) <$> l)).
Proof.
  revert acc. induction l as [|x l IH]; intros acc; cbn [foldl fmap list_fmap]; [by rewrite app_nil_r|].
  change (jpush (JArr acc) (miku_msg_to_json (Some x))) with (JArr (acc ++ [miku_msg_to_json (Some x)])). rewrite IH. by rewrite <- app_assoc.
Qed.

Lemma data_answer req h n r l :
  plain n r -> (n < 900)%nat -> (forall m, m ∈ l -> exists uid, jstr req "userID" = Some uid /\ disclosed h uid m) ->
  answer_ok req h (with_msgs_data r l).
Proof.
  intros P Hn Hl. destruct (plain_ji n r "errCode" 0 P ltac:(done) ltac:(lia)) as (d & H & _).
  pose proof (resp_set _ _ _ "data" (foldl (fun a m => jpush a (miku_msg_to_json (Some m))) miku_json_create_array l) H ltac:(lia)) as H'.
  rewrite decide_True in H' by done. eexists _, _. split; [exact H'|]. right. right. exists l. split; [|done].
  f_equal. apply (push_all l []).
Qed.

Lemma no_data_answer req h n r : plain n r -> (n < 900)%nat -> answer_ok req h (with_msgs_data r []).
Proof. intros P Hn. eapply data_answer; [done..|]. intros m Hm. by apply elem_of_nil in Hm. Qed.

(** The keys of an earlier answer are cleared. *)
Lemma clear_plain n r : (exists m, obj_upto n r m) -> (n < 900)%nat -> exists n', (n' <= n + 9)%nat /\ plain n' (msg_rpc_clear_resp r).
Proof.
  intros [m H] Hn. unfold msg_rpc_clear_resp. assert (miku_json_type (Some r) = MK_JSON_OBJECT) as ->.
  { destruct H as [(o & -> & _) _]. done. }
  set (ks := ["errCode"; _; _; _; _; _; _; _; _]).
  assert (forall ks n r m, obj_upto n r m -> (n + length ks < 1000)%nat ->
    exists n' m', (n' <= n + length ks)%nat /\
      obj_upto n' (foldl (fun r k => match miku_json_get (Some r) (Some k) with Some _ => jset r k miku_json_create_null | None => r end) r ks) m' /\
      (("data" ∈ ks \/ m !! "data" = None \/ m !! "data" = Some JNull) -> m' !! "data" = None \/ m' !! "data" = Some JNull)) as Hf.
  { clear. induction ks as [|k ks IH]; intros n r m H Hn; cbn [foldl length] in *.
    - exists n, m. split_and!; [lia|done|]. intros [He|He]; [by apply elem_of_nil in He|done].
    - assert (miku_json_get (Some r) (Some k) = m !! k) as -> by (apply obj_is_get, H). destruct (m !! k) as [v|] eqn:Ek.
      + destruct (IH (S n) _ _ (upto_set n r m k miku_json_create_null H ltac:(lia)) ltac:(lia)) as (n' & m' & Hl & Hu & Hd).
        exists n', m'. split_and!; [lia|done|]. intros He. apply Hd. destruct (decide (k = "data")) as [->|Hne].
        * right. right. by rewrite lookup_insert_eq.
        * rewrite lookup_insert_ne by done. destruct He as [He|He]; [|by right]. apply elem_of_cons in He as [He|He]; [congruence|by left].
      + destruct (IH n r m H ltac:(lia)) as (n' & m' & Hl & Hu & Hd). exists n', m'. split_and!; [lia|done|]. intros He. apply Hd.
        destruct He as [He|He]; [|by right]. apply elem_of_cons in He as [<-|He]; [by right; left|by left]. }
  destruct (Hf ks n r m H ltac:(cbn; lia)) as (n' & m' & Hl & Hu & Hd). exists n'. split; [exact Hl|]. exists (m' !! "data").
  split; [by exists m'|]. apply Hd. left. unfold ks. do 2 right. left.
Qed.

Lemma snapshot_safe method env req c start end_ count max h :
  nonempty c = true ->
  safe world_ok (allowed method env req)
    (fun h' l => forall m, m ∈ l -> seen h' (fun w => m ∈ msgs (w_msg w)) /\ msg_conversation_id m = c) h
    (msg_snapshot_conv c start end_ count max).
Proof.
  intros Hc. unfold msg_snapshot_conv. case_match; [intros m Hm; by apply elem_of_nil in Hm|]. apply safe_rd_last. intros w O m.
  case_match; [intros Hm; by apply elem_of_nil in Hm|]. rewrite get_by_conv_ok by (apply O || done). intros Hm.
  assert (m ∈ conv_list (w_msg w) c) as Hl.
  { eapply elem_of_sublist; [exact Hm|]. etransitivity; [apply sublist_take|apply filter_sublist]. }
  unfold conv_list in Hl. rewrite elem_of_reverse, list_elem_of_filter in Hl. destruct Hl as [Hcv Hin]. split; [|done].
  by apply seen_last.
Qed.

(** ** Handlers *)

(** The conclusion of a handler with an answer without data. *)
Ltac answer n := apply (plain_answer _ _ (S (S (S (S n)))));
  repeat first [ apply plain_ji; [|done|lia] | apply plain_jss; [|done|lia] ].

Section Handlers.
Context (method : string) (env : rpc_env) (req : option json) (resp : json) (n : nat).
Context (P : plain n resp) (Hn : (n < 900)%nat).
#[local] Abbreviation ok := (safe world_ok (allowed method env req)).
#[local] Abbreviation good rpc := (ok (answer_ok req) [] (rpc env req resp)).

Lemma code_answer h c : answer_ok req h (code_of resp c).
Proof using P Hn. apply (plain_answer _ _ (S n)). apply plain_ji; [done|done|lia]. Qed.

Lemma field_answer h c k z : k <> "data" -> answer_ok req h (miku_ji (code_of resp c) k z).
Proof using P Hn. intros Hk. apply (plain_answer _ _ (S (S n))). apply plain_ji; [apply plain_ji; [done|done|lia]|done|lia]. Qed.

Lemma sent_answer h c b s z t :
  answer_ok req h (if (b : bool) then miku_ji (miku_ji (miku_jss (code_of resp c) "serverMsgID" (Some s)) "seq" z) "sendTime" t else code_of resp c).
Proof using P Hn.
  destruct b; [|apply code_answer]. apply (plain_answer _ _ (S (S (S (S n))))).
  do 2 (apply plain_ji; [|done|lia]). apply plain_jss; [|done|lia]. apply plain_ji; [done|done|lia].
Qed.

(** The end of a handler that sends. *)
Lemma send_end h k :
  method ∈ ["sendMsg"; "send"; "sendSimpleMsg"; "sendBusinessNotification"] ->
  may_send h (req_msg req) \/ (method = "sendBusinessNotification" /\ msg_group_id (req_msg req) = "" /\ seen h (admin env req)) ->
  (forall h' x, ok (answer_ok req) h' (k x)) ->
  ok (answer_ok req) h (send_locked (req_msg req) (ev_uuid env) (ev_now env) ≫= k).
Proof.
  intros Hm Hs Hk. apply safe_bind. eapply safe_mono; [by apply send_locked_safe|]. intros h' x _. apply Hk.
Qed.

Lemma sendMsg_good : method ∈ ["sendMsg"; "sendSimpleMsg"] -> good rpc_sendMsg.
Proof using P Hn.
  intros Hm. unfold rpc_sendMsg. apply safe_bind. eapply safe_mono; [apply send_gate_safe|]. intros h g Hg.
  destruct (Z.eqb_spec g 0) as [->|]; cbn [negb]; [|apply code_answer]. apply send_end; [|left; by apply Hg|].
  - set_solver.
  - intros h' [rc m']. apply sent_answer.
Qed.

Lemma send_good : method = "send" -> good rpc_send.
Proof using P Hn.
  intros Hm. unfold rpc_send. apply safe_bind. eapply safe_mono; [apply send_gate_safe|]. intros h g Hg.
  destruct (Z.eqb_spec g 0) as [->|]; cbn [negb]; [|apply code_answer]. apply send_end; [|left; by apply Hg|].
  - set_solver.
  - intros h' [rc m']. apply sent_answer.
Qed.

Lemma notification_good : method = "sendBusinessNotification" -> good rpc_sendBusinessNotification.
Proof using P Hn.
  intros Hm. unfold rpc_sendBusinessNotification. apply safe_bind. set (m := req_msg req) in *.
  assert (ok (fun h g => g = 0 -> may_send h m \/ (method = "sendBusinessNotification" /\ msg_group_id m = "" /\ seen h (admin env req))) []
    (if nonempty (msg_group_id m) then msg_send_gate m
     else admin ← msg_rpc_admin_platform env req;
          Ret (if (admin : bool) then (if negb (nonempty (send_id m)) || negb (nonempty (recv_id m)) then 400 else 0) else 403))) as Hg.
  { destruct (nonempty (msg_group_id m)) eqn:Eg.
    - eapply safe_mono; [apply send_gate_safe|]. intros h g H Hz. left. by apply H.
    - apply safe_bind. eapply safe_mono; [apply admin_safe|]. intros h [|] Ha; [|done]. intros _. right. split_and!; [done| |by apply Ha].
      apply negb_false_iff, streq_eq in Eg. done. }
  eapply safe_mono; [exact Hg|]. intros h g Hs. destruct (Z.eqb_spec g 0) as [->|]; cbn [negb]; [|apply code_answer].
  apply send_end; [|by apply Hs|].
  - set_solver.
  - intros h' [rc m']. apply code_answer.
Qed.

(** Messages of a conversation that the check made readable. *)
Lemma listed_disclosed h uid cid (l : list miku_msg) (u c : string) :
  uid = jstr req "userID" -> uid = Some u -> cid = Some c -> seen h (fun w => accessible w u c) ->
  (forall m, m ∈ l -> seen h (fun w => m ∈ msgs (w_msg w)) /\ msg_conversation_id m = c) ->
  forall m, m ∈ l -> exists uid, jstr req "userID" = Some uid /\ disclosed h uid m.
Proof. intros E1 E2 E3 Ha Hl m Hm. exists u. split; [congruence|]. destruct (Hl m Hm) as [H1 H2]. split; [done|]. by rewrite H2. Qed.

Lemma getMsgByConv_good : good rpc_getMsgByConv.
Proof using P Hn.
  unfold rpc_getMsgByConv. case_match; [apply code_answer|]. apply safe_bind. eapply safe_mono; [apply access_safe|].
  intros h [|] Ha.
  - destruct (Ha eq_refl) as (u & c & Eu & Ec & _ & Nc & Hs). rewrite Ec. cbn [default from_option]. unfold id.
    apply safe_bind. eapply safe_mono; [by apply snapshot_safe|]. intros h' l Hl. eapply data_answer; [done..|].
    apply (listed_disclosed _ (jstr req "userID") (jstr req "conversationID") l u c); [done|done|done|by apply seen_app|done].
  - apply safe_bind. cbn [safe]. by eapply no_data_answer.
Qed.

Lemma conv_msgs_safe uid cid p h :
  uid = jstr req "userID" -> (forall l, p l `sublist_of` l) ->
  ok (fun h' l => forall m, m ∈ l -> exists uid, jstr req "userID" = Some uid /\ disclosed h' uid m) h (conv_msgs uid cid p).
Proof.
  intros Eu0 Hp. unfold conv_msgs. apply safe_bind. eapply safe_mono; [apply access_safe|].
  intros h1 [|] Ha; [|intros m Hm; by apply elem_of_nil in Hm].
  destruct (Ha eq_refl) as (u & c & Eu & Ec & _ & Nc & Hs). rewrite Ec. cbn [default from_option]. unfold id.
  apply safe_bind. eapply safe_mono; [by apply snapshot_safe|]. intros h' l Hl. cbn [safe]. intros m Hm.
  apply (listed_disclosed _ uid cid l u c); [done|done|done|by apply seen_app|done|]. by eapply elem_of_sublist.
Qed.

Lemma getMsgBySeq_good : good rpc_getMsgBySeq.
Proof using P Hn.
  unfold rpc_getMsgBySeq. case_match; [apply code_answer|]. apply safe_bind. eapply safe_mono; [apply conv_msgs_safe; [done|]|].
  - intros l. destruct (List.find _ l) as [m|] eqn:E; [|apply sublist_nil_l]. apply find_some in E as [E _].
    apply sublist_cons_l. apply list_elem_of_In, list_elem_of_split in E as (l1 & l2 & ->). exists l1, l2. split; [done|apply sublist_nil_l].
  - intros h l Hl. by eapply data_answer.
Qed.

Lemma pull_good : good rpc_pullMsgBySeq.
Proof using P Hn.
  unfold rpc_pullMsgBySeq. case_match.
  { cbn [safe]. repeat case_match; (apply code_answer || by eapply no_data_answer). }
  apply safe_bind. eapply safe_mono; [apply conv_msgs_safe; [done|apply filter_sublist]|]. intros h l Hl. by eapply data_answer.
Qed.

Lemma search_good : good rpc_searchMsg.
Proof using P Hn.
  unfold rpc_searchMsg. case_match; [apply code_answer|]. apply safe_bind.
  eapply safe_mono; [apply conv_msgs_safe; [done|apply filter_sublist]|]. intros h l Hl. by eapply data_answer.
Qed.

Lemma newestSeq_good : good rpc_getNewestSeq.
Proof using P Hn.
  unfold rpc_getNewestSeq. case_match; [apply code_answer|]. apply safe_bind.
  eapply safe_mono; [apply (conv_msgs_safe _ _ id); [done|done]|]. intros h l _. by apply field_answer.
Qed.

Lemma at_elem {A} (l : list A) i x : at_ l i = Some x -> x ∈ l.
Proof. intros [_ H]%at_Some. by eapply list_elem_of_lookup_2. Qed.

Lemma getMsg_good : good rpc_getMsg.
Proof using P Hn.
  unfold rpc_getMsg. case_match; [apply code_answer|]. apply safe_rd. intros w O.
  destruct (at_ _ _) as [m|] eqn:E; [|by eapply no_data_answer]. apply at_elem in E.
  rewrite (conv_fits_buffer (w_msg w)) by (done || apply O).
  apply safe_bind. eapply safe_mono; [apply access_safe|]. intros h [|] Ha; cbn [safe]; [|by eapply no_data_answer].
  destruct (Ha eq_refl) as (u & c & Eu & [= Ec] & _ & _ & Hs). eapply data_answer; [done..|]. intros m' Hm'.
  apply list_elem_of_singleton in Hm'. subst m'. exists u. split; [done|]. split; [|by rewrite Ec].
  apply seen_app. by apply (seen_last []).
Qed.

Lemma status_good : good rpc_getSendMsgStatus.
Proof using P Hn.
  unfold rpc_getSendMsgStatus. case_match; [apply code_answer|]. apply safe_rd. intros w O. apply safe_bind.
  eapply (safe_mono _ _ (fun _ _ => True)); [|intros h b _; by apply field_answer].
  destruct (named_msg _ _ _) as [m|]; [|done]. case_match; [|done]. eapply safe_mono; [apply access_safe|]. done.
Qed.

Lemma gated_good (p : prog world bool) (f : bool -> json) :
  ok (fun _ _ => True) [] p -> (forall h b, answer_ok req h (f b)) -> ok (answer_ok req) [] (b ← p; Ret (f b)).
Proof. intros Hp Hf. apply safe_bind. eapply safe_mono; [exact Hp|]. intros h b _. apply Hf. Qed.

Lemma admin_true h : ok (fun _ _ => True) h (msg_rpc_admin_platform env req).
Proof. eapply safe_mono; [apply admin_safe|]. done. Qed.

Lemma access_true uid cid h : ok (fun _ _ => True) h (msg_user_may_access_conv uid cid).
Proof. eapply safe_mono; [apply access_safe|]. done. Qed.

Lemma cleanUp_good : good rpc_cleanUpMsg.
Proof using P Hn. apply gated_good; [apply admin_true|]. intros. apply code_answer. Qed.

Lemma batch_good : good rpc_batchSendMsg.
Proof using P Hn. apply gated_good; [apply admin_true|]. intros h [|]; [by eapply no_data_answer|apply code_answer]. Qed.

Lemma mark_good : good rpc_markMsgAsRead.
Proof using P Hn. unfold rpc_markMsgAsRead. case_match; [apply code_answer|]. apply gated_good; [apply access_true|]. intros. apply code_answer. Qed.

Lemma reaction_gate_true h : ok (fun _ _ => True) h (msg_reaction_conv_gate req).
Proof. unfold msg_reaction_conv_gate. case_match; [done|]. apply safe_bind. eapply safe_mono; [apply access_safe|]. done. Qed.

Lemma reaction_good : good rpc_setMessageReactionExtensions.
Proof using P Hn. apply safe_bind. eapply safe_mono; [apply reaction_gate_true|]. intros h g _. apply code_answer. Qed.

Lemma reactions_good : good rpc_getMessageListReactionExtensions.
Proof using P Hn.
  apply safe_bind. eapply safe_mono; [apply reaction_gate_true|]. intros h g _. cbn [safe]. case_match; [apply code_answer|by eapply no_data_answer].
Qed.

Lemma delete_good : method ∈ ["deleteMsg"; "deleteMsgPhysical"] -> good rpc_deleteMsg.
Proof using P Hn.
  intros Hm. unfold rpc_deleteMsg. case_match; [apply code_answer|]. apply safe_bind. eapply safe_mono; [apply may_delete_safe|].
  intros h [|] Hb; apply safe_bind.
  - eapply safe_mono; [apply delete_locked_safe; [done..|by apply Hb]|]. intros h' d _. apply code_answer.
  - cbn [safe]. apply code_answer.
Qed.

Lemma delete_seq_good : method = "deleteMsgPhysicalBySeq" -> good rpc_deleteMsgPhysicalBySeq.
Proof using P Hn.
  intros Hm. unfold rpc_deleteMsgPhysicalBySeq. case_match; [apply code_answer|]. apply safe_bind.
  eapply safe_mono; [apply may_delete_seq_safe|]. intros h [|] Hb; apply safe_bind; [|apply code_answer].
  destruct (Hb eq_refl) as (u & c & Eu & Ec & Ha). rewrite Eu, Ec.
  eapply safe_mono; [by apply delete_seq_locked_safe|]. intros h' d _. apply code_answer.
Qed.

Lemma revoke_good : method = "revokeMsg" -> good rpc_revokeMsg.
Proof using P Hn.
  intros Hm. unfold rpc_revokeMsg. case_match; [apply code_answer|]. apply safe_bind. eapply safe_mono; [by apply revoke_safe|].
  intros h rc _. apply code_answer.
Qed.

Lemma filter_bool {A} (Q : A -> Prop) `{forall x, Decision (Q x)} (q : A -> bool) l :
  (forall x, q x = true <-> Q x) -> List.filter q l = filter Q l.
Proof.
  intros Hq. induction l as [|x l IH]; [done|]. cbn [List.filter]. rewrite filter_cons, IH. specialize (Hq x).
  destruct (q x); case_decide; naive_solver.
Qed.

Lemma clear_good : method = "clearConversationMsg" -> good rpc_clearConversationMsg.
Proof using P Hn.
  intros Hm. unfold rpc_clearConversationMsg. case_match; [apply code_answer|]. case_match eqn:Esg; [apply code_answer|].
  apply safe_bind. eapply safe_mono; [apply access_safe|]. intros h [|] Ha; cbn [negb]; [|apply code_answer].
  destruct (Ha eq_refl) as (u & c & Eu & Ec & _ & _ & Hs). rewrite Ec in Esg |- *. cbn [default from_option] in Esg |- *. unfold id in Esg |- *.
  apply safe_bind. eapply safe_mono; [apply sweep_safe|intros h' d _; by apply field_answer].
  intros h' s s' El En. apply (mc_clear _ _ _ _ _ _ u c); try done; [by apply seen_app|].
  rewrite El. apply filter_bool. intros x. rewrite negb_true_iff. split; [intros Hx E; by rewrite E, streq_refl in Hx|apply streq_neq].
Qed.

Lemma own_single_ok u m : own_single u m = true -> msg_group_id m = "" /\ (send_id m = u \/ recv_id m = u).
Proof.
  unfold own_single. intros [H1 H2]%andb_true_iff. apply negb_true_iff in H1. apply orb_true_iff in H2. rewrite !streq_eq in H2.
  split; [|done]. by apply negb_false_iff, streq_eq in H1.
Qed.

Lemma clear_all_good : method = "userClearAllMsg" -> good rpc_userClearAllMsg.
Proof using P Hn.
  intros Hm. unfold rpc_userClearAllMsg. destruct (given (jstr req "userID")) eqn:Eg; [|apply code_answer]. cbn [negb].
  destruct (given_default _ Eg) as (u & Eu & _ & ->). apply safe_rd. intros w O. apply safe_bind.
  eapply safe_mono; [apply authorize_safe; by apply seen_last|]. intros h ids [_ Hids].
  apply safe_bind. eapply safe_mono; [apply sweep_safe|intros h' d _; by apply field_answer].
  intros h' s s' El En. eapply (mc_clear_all _ _ _ _ _ _ u); [done|done|exact El| |done]. intros m Hin Hk.
  apply negb_false_iff, andb_true_iff in Hk as [Ho Hid]. destruct (own_single_ok _ _ Ho) as [H1 H2]. split_and!; [done..|].
  apply existsb_exists in Hid as (c & Hc & Hcm). apply streq_eq in Hcm. apply list_elem_of_In in Hc.
  destruct (Hids c Hc) as (m0 & Hs & Hc0 & Ha). exists m0. split_and!; [by apply seen_app|congruence|by apply seen_app].
Qed.
End Handlers.

Lemma msg_id_unknown m : m ∉ g_msg_rpc_names -> msg_rpc_id (Some m) = -1.
Proof.
  intros Hm. unfold msg_rpc_id. rewrite rpc_id_ok; [|by apply (bool_decide_unpack _ (dec:=_)); vm_compute|done].
  unfold name_index. destruct (list_find _ _) as [[i y]|] eqn:E; [|done]. apply list_find_Some in E as (E & -> & _).
  exfalso. apply Hm. by eapply list_elem_of_lookup_2.
Qed.

(** The handler of a known method. *)
Ltac known_method :=
  match goal with |- context [msg_rpc_id (Some ?m)] =>
    let v := eval vm_compute in (msg_rpc_id (Some m)) in
    replace (msg_rpc_id (Some m)) with v by (vm_compute; reflexivity) end; cbn [msg_handler];
  unfold rpc_checkMsgIsSendSuccess, rpc_deleteMsgPhysical, rpc_markMsgsAsRead, rpc_markConversationAsRead, rpc_setConversationHasReadSeq,
    rpc_addMessageReactionExtensions, rpc_deleteMessageReactionExtensions.

Lemma handle_good method env req resp n :
  (exists m, obj_upto n resp m) -> (n < 800)%nat ->
  safe world_ok (allowed method env req) (answer_ok req) [] (miku_msg_handle_rpc (Some method) env req resp).
Proof.
  intros Hr Hn. destruct (clear_plain n resp Hr ltac:(lia)) as (n' & Hn' & P). cbn [miku_msg_handle_rpc].
  set (r := msg_rpc_clear_resp resp) in *. assert (n' < 900)%nat as Hb by lia.
  destruct (decide (method ∈ g_msg_rpc_names)) as [Hin|Hout].
  - unfold g_msg_rpc_names in Hin.
    repeat match type of Hin with _ ∈ _ :: _ => apply elem_of_cons in Hin as [->|Hin]; [known_method|] end;
    [..|exfalso; by apply elem_of_nil in Hin];
    match goal with
    | |- safe _ _ _ _ (rpc_getMsgByConv _ _ _) => exact (getMsgByConv_good _ _ _ _ n' P Hb)
    | |- safe _ _ _ _ (rpc_getMsgBySeq _ _ _) => exact (getMsgBySeq_good _ _ _ _ n' P Hb)
    | |- safe _ _ _ _ (rpc_pullMsgBySeq _ _ _) => exact (pull_good _ _ _ _ n' P Hb)
    | |- safe _ _ _ _ (rpc_searchMsg _ _ _) => exact (search_good _ _ _ _ n' P Hb)
    | |- safe _ _ _ _ (rpc_getNewestSeq _ _ _) => exact (newestSeq_good _ _ _ _ n' P Hb)
    | |- safe _ _ _ _ (rpc_getMsg _ _ _) => exact (getMsg_good _ _ _ _ n' P Hb)
    | |- safe _ _ _ _ (rpc_getSendMsgStatus _ _ _) => exact (status_good _ _ _ _ n' P Hb)
    | |- safe _ _ _ _ (rpc_cleanUpMsg _ _ _) => exact (cleanUp_good _ _ _ _ n' P Hb)
    | |- safe _ _ _ _ (rpc_batchSendMsg _ _ _) => exact (batch_good _ _ _ _ n' P Hb)
    | |- safe _ _ _ _ (rpc_markMsgAsRead _ _ _) => exact (mark_good _ _ _ _ n' P Hb)
    | |- safe _ _ _ _ (rpc_setMessageReactionExtensions _ _ _) => exact (reaction_good _ _ _ _ n' P Hb)
    | |- safe _ _ _ _ (rpc_getMessageListReactionExtensions _ _ _) => exact (reactions_good _ _ _ _ n' P Hb)
    | |- safe _ _ _ _ (rpc_send _ _ _) => exact (send_good _ _ _ _ n' P Hb eq_refl)
    | |- safe _ _ _ _ (rpc_sendBusinessNotification _ _ _) => exact (notification_good _ _ _ _ n' P Hb eq_refl)
    | |- safe _ _ _ _ (rpc_revokeMsg _ _ _) => exact (revoke_good _ _ _ _ n' P Hb eq_refl)
    | |- safe _ _ _ _ (rpc_deleteMsgPhysicalBySeq _ _ _) => exact (delete_seq_good _ _ _ _ n' P Hb eq_refl)
    | |- safe _ _ _ _ (rpc_clearConversationMsg _ _ _) => exact (clear_good _ _ _ _ n' P Hb eq_refl)
    | |- safe _ _ _ _ (rpc_userClearAllMsg _ _ _) => exact (clear_all_good _ _ _ _ n' P Hb eq_refl)
    | |- safe _ _ _ _ (rpc_sendMsg _ _ _) => apply (sendMsg_good _ _ _ _ n' P Hb); set_solver
    | |- safe _ _ _ _ (rpc_sendSimpleMsg _ _ _) => apply (sendMsg_good _ _ _ _ n' P Hb); set_solver
    | |- safe _ _ _ _ (rpc_deleteMsg _ _ _) => apply (delete_good _ _ _ _ n' P Hb); set_solver
    | |- safe _ _ _ _ (rpc_getServerTime _ _ _) =>
        unfold rpc_getServerTime; cbn [safe]; apply (field_answer req r n' P Hb); done
    | |- safe _ _ _ _ (rpc_getConversationsHasReadAndMaxSeq _ _ _) =>
        unfold rpc_getConversationsHasReadAndMaxSeq; cbn [safe]; case_match; [apply (code_answer req r n' P Hb)|apply (no_data_answer req _ n' r P Hb)]
    end.
  - rewrite msg_id_unknown by done. cbn [msg_handler]. unfold rpc_unknown. cbn [safe]. apply (code_answer req r n' P Hb).
Qed.

(** C7: whatever other requests do while a request is handled, each of its
    actions leaves the indexes consistent and changes the messages only as the
    method permits.  A message is added only after its sender was seen to be a
    member of the group, or a friend of the receiver with neither blocking the
    other, or with the token of an administrator; a message is revoked or
    deleted only by its sender, with access to the conversation; clearing
    removes single chats of the user only, never the history of a group.  The
    other services are left alone. *)
Theorem msg_rpc_authorized method env req resp n fields ws r tr i w w' :
  obj_upto n resp fields -> (n < 800)%nat -> Forall world_ok ws ->
  exec (miku_msg_handle_rpc (Some method) env req resp) ws = Some (r, tr) ->
  tr !! i = Some (w, w') -> allowed method env req (take (S i) ws) w w'.
Proof.
  intros Hr Hn Hw E Hi. pose proof (handle_good method env req resp n (ex_intro _ fields Hr) Hn) as S.
  destruct (safe_exec _ _ _ _ _ _ _ _ S Hw E) as [_ H]. by apply H.
Qed.

(** C8: whatever other requests do while a request is handled, every message
    in its answer was in the store, in a conversation that the requesting user
    was seen to have access to. *)
Theorem msg_rpc_discloses method env req resp n fields ws r tr :
  obj_upto n resp fields -> (n < 800)%nat -> Forall world_ok ws ->
  exec (miku_msg_handle_rpc (Some method) env req resp) ws = Some (r, tr) ->
  resp_data r = None \/ resp_data r = Some JNull \/
  exists l, resp_data r = Some (JArr ((fun m => miku_msg_to_json (Some m)) <$> l)) /\
    forall m, m ∈ l -> exists uid, jstr req "userID" = Some uid /\ disclosed ws uid m.
Proof.
  intros Hr Hn Hw E. pose proof (handle_good method env req resp n (ex_intro _ fields Hr) Hn) as S.
  destruct (safe_exec _ _ _ _ _ _ _ _ S Hw E) as [(k & d & (m & Hu & Hd) & Hok) _]. cbn [app] in Hok.
  assert (resp_data r = d) as -> by (unfold resp_data; rewrite <- Hd; apply obj_is_get, Hu).
  destruct Hok as [->|[->|(l & -> & Hl)]]; [by left|by right; left|]. right. right. exists l. split; [done|].
  intros x Hx. destruct (Hl x Hx) as (uid & Eu & (w1 & H1 & H2) & (w2 & H3 & H4)). exists uid. split; [done|].
  assert (forall y, y ∈ take (length tr) ws -> y ∈ ws) as Hsub by (intros y Hy; eapply elem_of_sublist; [exact Hy|apply sublist_take]).
  clear E S. split; [exists w1; exact (conj (Hsub w1 H1) H2)|exists w2; exact (conj (Hsub w2 H3) H4)].
Qed.

(** A pool of requests on fresh responses. *)
Definition requests (rs : list (string * rpc_env * option json)) : list (prog world json) :=
  (fun x => miku_msg_handle_rpc (Some x.1.1) x.1.2 x.2 miku_json_create_object) <$> rs.

(** C9: however the actions of any number of concurrent requests interleave,
    the service stays consistent: each index finds the newest message of its
    key, the chains hold the messages of their conversations, sequence numbers
    are strictly increasing in the order of arrival, and every message is filed
    under the conversation of its parties. *)
Theorem msg_rpc_interleaved rs w ps w' :
  world_ok w -> rtc pool_step (requests rs, w) (ps, w') ->
  world_ok w' /\
  (forall k, nonempty k = true -> at_ (msgs (w_msg w')) (hash_find_cid (w_msg w') k) = newest client_msg_id k (msgs (w_msg w')) /\
                                  at_ (msgs (w_msg w')) (hash_find_sid (w_msg w') k) = newest server_msg_id k (msgs (w_msg w'))) /\
  (forall c, nonempty c = true -> omap (at_ (msgs (w_msg w'))) (conv_chain (w_msg w') c) = conv_list (w_msg w') c).
Proof.
  intros Hw R. assert (world_ok w') as O.
  { apply (pool_inv world_ok _ _ _ _ R Hw). apply list.Forall_forall. intros p Hp. unfold requests in Hp.
    apply list_elem_of_fmap in Hp as ([[m env] req] & -> & _). cbn [fst snd].
    pose proof (handle_good m env req miku_json_create_object 0 (ex_intro _ ∅ upto_new) ltac:(lia)) as S.
    revert S. generalize (@nil world) as h. generalize (miku_msg_handle_rpc (Some m) env req miku_json_create_object) as p.
    induction p as [a|B f k IH]; intros h; cbn; [done|]. intros H v Hv. destruct (H v Hv) as [[HG _] Hs]. auto. }
  split; [done|]. split; [intros k Hk; split; [by apply find_cid_newest; [apply O|]|by apply find_sid_newest; [apply O|]]|].
  intros c Hc. apply conv_chain_ok; [apply O|done].
Qed.

(** ** Alice and Bob *)

Definition ex_world : world :=
  World (miku_msg_service_set_friend_svc (miku_msg_service_set_group_svc miku_msg_service_create true) true)
    (run_steps friend_step miku_friend_service_create [FAdd 1 (Some "alice") (Some "bob") None; FAdd 2 (Some "bob") (Some "alice") None]).2
    miku_group_service_create miku_token_revoke_clear.

Definition ex_env : rpc_env := RpcEnv "00000000-0000-4000-8000-000000000001" 1700000000000 1700000000000 None.

Definition ex_send : json :=
  miku_jss (miku_jss (miku_jss (miku_jss miku_json_create_object "sendID" (Some "alice")) "recvID" (Some "bob"))
    "clientMsgID" (Some "c1")) "content" (Some "hello").

Definition ex_read : json :=
  miku_ji (miku_jss (miku_jss miku_json_create_object "userID" (Some "bob")) "conversationID" (Some "si_5_alice_bob")) "count" 1.

Lemma ex_world_ok : world_ok ex_world.
Proof.
  split; [split; [|done]; split; [exists ∅|exists ∅|]; apply chain_ok_empty|]. split; [split; constructor|].
  split; [|apply group_ok_create]. apply (run_ok [_; _]). repeat constructor; cbn; lia.
Qed.

Definition ex_world2 : world := (run (miku_msg_handle_rpc (Some "sendMsg") ex_env (Some ex_send) miku_json_create_object) ex_world).2.

Lemma ex_world2_ok : world_ok ex_world2.
Proof.
  apply (run_safe world_ok (allowed "sendMsg" ex_env (Some ex_send)) (answer_ok (Some ex_send)) _ []).
  - intros h w w' H. apply H.
  - exact (handle_good "sendMsg" ex_env (Some ex_send) miku_json_create_object 0 (ex_intro _ ∅ upto_new) ltac:(lia)).
  - exact ex_world_ok.
Qed.

Definition sent_trace : option (json * list (world * world)) :=
  exec (miku_msg_handle_rpc (Some "sendMsg") ex_env (Some ex_send) miku_json_create_object) (replicate 5 ex_world).

Lemma msg_rpc_authorized_witness :
  exists r tr w w', sent_trace = Some (r, tr) /\ tr !! 4%nat = Some (w, w') /\
    allowed "sendMsg" ex_env (Some ex_send) (take 5 (replicate 5 ex_world)) w w'.
Proof.
  destruct sent_trace as [[r tr]|] eqn:E; [|exfalso; assert (bool_decide (is_Some sent_trace) = true) as H by (vm_compute; reflexivity);
    rewrite E in H; discriminate H].
  assert (match sent_trace with Some (_, tr) => (4 <? length tr)%nat | None => false end = true) as H by (vm_compute; reflexivity).
  rewrite E in H. apply Nat.ltb_lt in H. destruct (lookup_lt_is_Some_2 tr 4 H) as [[w w'] Hw].
  exists r, tr, w, w'. split; [reflexivity|]. split; [exact Hw|].
  refine (msg_rpc_authorized "sendMsg" ex_env (Some ex_send) miku_json_create_object 0 ∅ (replicate 5 ex_world) r tr 4 w w' upto_new _ _ E Hw).
  - lia.
  - apply Forall_replicate. exact ex_world_ok.
Defined.

Definition read_trace : option (json * list (world * world)) :=
  exec (miku_msg_handle_rpc (Some "getMsgByConv") ex_env (Some ex_read) miku_json_create_object) (replicate 3 ex_world2).

Lemma msg_rpc_discloses_witness :
  exists r tr l, read_trace = Some (r, tr) /\ resp_data r = Some (JArr ((fun m => miku_msg_to_json (Some m)) <$> l)) /\ length l = 1%nat /\
    forall m, m ∈ l -> exists uid, jstr (Some ex_read) "userID" = Some uid /\ disclosed (replicate 3 ex_world2) uid m.
Proof.
  assert (match read_trace with Some (r, _) => match resp_data r with Some (JArr l) => (length l =? 1)%nat | _ => false end | None => false end = true)
    as H by (vm_compute; reflexivity).
  destruct read_trace as [[r tr]|] eqn:E; [|discriminate H].
  destruct (msg_rpc_discloses "getMsgByConv" ex_env (Some ex_read) miku_json_create_object 0 ∅ (replicate 3 ex_world2) r tr upto_new
    ltac:(lia) (Forall_replicate _ 3 _ ex_world2_ok) E) as [D|[D|(l & D & Hl)]]; rewrite D in H; [discriminate H..|].
  apply Nat.eqb_eq in H. rewrite length_fmap in H. exists r, tr, l. split; [reflexivity|]. split; [exact D|]. split; [exact H|exact Hl].
Defined.

(** Both requests, one after the other, as one of the interleavings. *)
Definition ex_requests : list (string * rpc_env * option json) := [("sendMsg", ex_env, Some ex_send); ("getMsgByConv", ex_env, Some ex_read)].

Lemma msg_rpc_interleaved_witness :
  exists ps w', rtc pool_step (requests ex_requests, ex_world) (ps, w') /\ world_ok w'.
Proof.
  eexists _, _. split; [apply (pool_run (requests ex_requests) 0); reflexivity|].
  refine (proj1 (msg_rpc_interleaved ex_requests ex_world _ _ ex_world_ok (pool_run (requests ex_requests) 0 _ ex_world eq_refl))).
Defined.
