(* ===== verification/MsgDeliver.v ===== *)
(** * Delivery through the message service

    [msg_send_delivered]: a message that the gate admits is stored, and every
    user with access to its conversation reads it first. *)
From Stdlib Require Import Ascii String.
From S2P Require Import Prelude Hash ProbeIndex ChainIndex Json JsonText Models RpcNames OwnedTable Friend Group Token Atomic.
From S2P Require Import MsgService MsgServiceInv MsgRpc MsgRpcSafe.
#[local] Open Scope string_scope.
#[local] Open Scope list_scope.
#[local] Open Scope Z_scope.

(** Both other services are attached. *)
Definition attached (w : world) : Prop := group_svc (w_msg w) = true /\ friend_svc (w_msg w) = true.

Lemma run_bind {W A B} (p : prog W A) (k : A -> prog W B) w : run (p ≫= k) w = let '(a, w') := run p w in run (k a) w'.
Proof.
  unfold mbind, prog_mbind. revert w. induction p as [a|X f g IH]; intros w; cbn; [done|]. destruct (f w) as [b w']. apply IH.
Qed.

Lemma run_rd {W A} (f : W -> A) w : run (rd f) w = (f w, w).
Proof. done. Qed.

Lemma access_run w u c :
  world_ok w -> attached w -> nonempty u = true -> nonempty c = true -> single_or_group c = true -> accessible w u c ->
  run (msg_user_may_access_conv (Some u) (Some c)) w = (true, w).
Proof.
  intros (Om & Oo & Of & Og) [Hg Hf] Hu Hc Hs Ha. unfold msg_user_may_access_conv. cbn [given]. rewrite Hu, Hc. cbn [negb orb default from_option].
  unfold id, accessible, single_or_group in *. destruct (prefixed "si_" c) eqn:Esi; [|destruct (prefixed "sg_" c) eqn:Esg; [|done]].
  - rewrite run_bind, run_rd, Hf, run_rd. destruct Ha as (peer & Hp & Hr). rewrite (access_ok _ _ _ peer) by done. by rewrite Hr.
  - rewrite run_bind, run_rd, Hg, run_rd. f_equal. destruct Ha as [Hd Ha]. unfold miku_group_is_member. rewrite is_member_ok by done.
    by apply bool_decide_eq_true.
Qed.

Lemma gate_run w m : world_ok w -> attached w -> may_send [w] m -> run (msg_send_gate m) w = (0, w).
Proof.
  intros (_ & _ & [Of Ob] & Og) [Hg Hf] [Hs Hm]. unfold msg_send_gate. rewrite Hs. cbn [negb].
  assert (forall P, seen [w] P -> P w) as One by (intros P (x & Hx & HP); apply list_elem_of_singleton in Hx; by subst).
  destruct (nonempty (msg_group_id m)) eqn:Eg.
  - rewrite run_bind, run_rd, Hg. cbn [negb]. rewrite run_bind, run_rd. unfold miku_group_is_member. rewrite is_member_ok by done.
    by rewrite (bool_decide_eq_true_2 _ (One _ Hm)).
  - destruct Hm as (Hr & H1%One & H2%One & H3%One). rewrite Hr. cbn [negb]. rewrite run_bind, run_rd, Hf. cbn [negb].
    assert (forall a b, ~ blocked w a b -> miku_friend_is_black (w_friend w) (Some a) (Some b) = false) as B.
    { intros a b Hn%not_true_is_false. unfold miku_friend_is_black, black_pair_find. fold (has_pair (blacks (w_friend w)) a b).
      by rewrite has_pair_ok. }
    rewrite run_bind, run_rd, B by done. rewrite run_bind, run_rd, B by done. rewrite run_bind, run_rd. unfold miku_friend_is_mutual.
    rewrite !has_pair_ok by done. destruct H3 as [-> ->]. done.
Qed.

(** The conversation of an admitted message is a single chat or a group. *)
Lemma canonical_kind m h : may_send h m -> single_or_group (canonical m) = true /\ nonempty (canonical m) = true.
Proof.
  intros [Hs Hm]. unfold canonical, miku_conversation_id_resolve. cbn [given]. destruct (nonempty (msg_group_id m)); [done|].
  destruct Hm as [-> _]. rewrite Hs. cbn [andb]. case_match; done.
Qed.

(** A request for the newest message of a conversation. *)
Definition asks_newest (rq : json) (u c : string) : Prop :=
  jstr (Some rq) "userID" = Some u /\ jstr (Some rq) "conversationID" = Some c /\ jint (Some rq) "startTime" = 0 /\
  jint (Some rq) "endTime" = 0 /\ jint (Some rq) "count" = 1.

(** The newest message of a conversation, as [getMsgByConv] answers alone. *)
Lemma newest_run w env rq u c m l :
  world_ok w -> attached w -> asks_newest rq u c -> nonempty u = true -> nonempty c = true -> single_or_group c = true ->
  accessible w u c -> conv_list (w_msg w) c = m :: l -> 0 <= send_time m ->
  run (rpc_getMsgByConv env (Some rq) miku_json_create_object) w = (with_msgs_data miku_json_create_object [m], w).
Proof.
  intros O A (E1 & E2 & E3 & E4 & E5) Hu Hc Hs Ha Hl Ht. unfold rpc_getMsgByConv. rewrite E1, E2, E3, E4, E5. cbn [given].
  rewrite Hu, Hc. cbn [negb orb andb Z.ltb Z.compare]. change (0 <? 1) with true. change (1 <? MK_MAX_MSGS) with true. cbn [andb].
  rewrite run_bind, access_run by done. rewrite run_bind. cbn [default from_option]. unfold id, msg_snapshot_conv. cbn [Z.leb Z.compare].
  rewrite run_rd. assert (0 < length (msgs (w_msg w)))%nat as Hp.
  { destruct (msgs (w_msg w)) eqn:E; [|cbn; lia]. unfold conv_list in Hl. by rewrite E in Hl. }
  rewrite (proj2 (Z.leb_gt _ 0)) by lia. rewrite get_by_conv_ok by (apply O || done). rewrite Hl.
  replace (Z.min 1 (Z.min (Z.of_nat (length (msgs (w_msg w)))) 1)) with 1 by lia. cbn [List.filter].
  unfold in_period at 1. rewrite (proj2 (Z.leb_le 0 (send_time m))) by done. cbn [Z.eqb orb andb]. change (Z.to_nat 1) with 1%nat.
  by rewrite firstn_cons, take_0.
Qed.

Lemma jint_field n r fields k z : obj_upto n r fields -> fields !! k = Some (JInt z) -> jint (Some r) k = z.
Proof. intros H E. unfold jint. by rewrite (upto_get n r fields k H), E. Qed.

(** The fields of the answer to a message that was sent. *)
Lemma sent_fields s z t :
  let r := miku_ji (miku_ji (miku_jss (code_of miku_json_create_object 0) "serverMsgID" (Some s)) "seq" z) "sendTime" t in
  jint (Some r) "errCode" = 0 /\ jint (Some r) "seq" = z.
Proof.
  intros r. assert (obj_upto 4 r (<["sendTime" := JInt t]> (<["seq" := JInt z]> (<["serverMsgID" := JStr s]> (<["errCode" := JInt 0]> ∅))))) as H.
  { apply upto_set; [|lia]. apply upto_set; [|lia]. apply upto_set; [|lia]. apply upto_set; [|lia]. apply upto_new. }
  split; (eapply jint_field; [exact H|]); by rewrite ?lookup_insert_ne, ?lookup_insert_eq by done.
Qed.

Lemma code_field c : jint (Some (code_of miku_json_create_object c)) "errCode" = c.
Proof.
  assert (obj_upto 1 (code_of miku_json_create_object c) (<["errCode" := JInt c]> ∅)) as H by (apply upto_set; [apply upto_new|lia]).
  eapply jint_field; [exact H|]. by rewrite lookup_insert_eq.
Qed.

(** C20: a message that its sender may send is delivered while the message table
    has room: handled alone, the request answers success with the next sequence
    number, and then every user with access to the conversation gets exactly
    this message when asking for the newest one.  When the table holds
    MK_MAX_MSGS (65536) messages the request answers 500 and changes nothing. *)
Theorem msg_send_delivered w env req u env' rq :
  world_ok w -> attached w -> may_send [w] (req_msg req) -> 0 <= ev_now env ->
  nonempty u = true -> accessible w u (canonical (req_msg req)) -> asks_newest rq u (canonical (req_msg req)) ->
  let m' := stamped (req_msg req) (ev_uuid env) (msg_seq (w_msg w) + 1) (ev_now env) in
  exists r w', run (miku_msg_handle_rpc (Some "sendMsg") env req miku_json_create_object) w = (r, w') /\
    if MK_MAX_MSGS <=? Z.of_nat (length (msgs (w_msg w))) then jint (Some r) "errCode" = 500 /\ w' = w
    else
      jint (Some r) "errCode" = 0 /\ jint (Some r) "seq" = msg_seq (w_msg w) + 1 /\ msgs (w_msg w') = msgs (w_msg w) ++ [m'] /\
      run (miku_msg_handle_rpc (Some "getMsgByConv") env' (Some rq) miku_json_create_object) w' =
        (with_msgs_data miku_json_create_object [m'], w').
Proof.
  intros O A Hm Ht Hu Ha Hq m'. destruct (canonical_kind _ _ Hm) as [Hk Hc].
  unfold miku_msg_handle_rpc. known_method. known_method. change (msg_rpc_clear_resp miku_json_create_object) with miku_json_create_object.
  unfold rpc_sendMsg. rewrite run_bind, gate_run by done. cbn [Z.eqb negb]. rewrite run_bind. unfold send_locked. cbn [run atomic].
  pose proof O as (Om & Oo & Of & Og).
  destruct (Z.leb_spec MK_MAX_MSGS (Z.of_nat (length (msgs (w_msg w))))) as [Hfull|Hl].
  { unfold miku_msg_send_nolock. rewrite (proj2 (Z.leb_le _ _) Hfull). eexists _, _. split; [reflexivity|].
    split; [exact (code_field 500)|by destruct w]. }
  destruct (miku_msg_send_nolock (w_msg w) _ _ _) as [[rc m1] s'] eqn:E.
  destruct (store_ok _ _ _ _ _ _ _ Om E) as [O' [(_ & _ & Hx)|(-> & -> & El & En & Eg & Ef)]]; [unfold MK_MAX_MSGS in *; lia|].
  fold m' in El |- *. cbn [run Z.eqb]. eexists _, _. split; [done|].
  destruct (sent_fields (server_msg_id m') (seq m') (send_time m')) as [F1 F2]. split; [exact F1|]. split; [exact F2|].
  split; [exact El|].
  apply (newest_run (with_msg w s') env' rq u (canonical (req_msg req)) m' (conv_list (w_msg w) (canonical (req_msg req))));
    [| |exact Hq|exact Hu|exact Hc|exact Hk| | |exact Ht].
  - split; [exact O'|]. split; [exact (ordered_snoc _ _ m' Oo El eq_refl eq_refl En)|]. exact (conj Of Og).
  - destruct A as [A1 A2]. split; cbn; [rewrite Eg; exact A1|rewrite Ef; exact A2].
  - unfold accessible, single_or_group in *. cbn [w_friend w_group w_msg with_msg]. unfold member in *.
    destruct (prefixed "si_" _); [exact Ha|]. destruct (prefixed "sg_" _); [exact Ha|discriminate Hk].
  - unfold conv_list. cbn [w_msg with_msg]. rewrite El, list.filter_app, reverse_app.
    rewrite filter_cons_True by reflexivity. rewrite filter_nil. reflexivity.
Qed.

Lemma ex_may_send : may_send [ex_world] (req_msg (Some ex_send)).
Proof.
  assert (forall P : world -> Prop, P ex_world -> seen [ex_world] P) as One by (intros P HP; apply (seen_last [] ex_world P HP)).
  assert (forall a b, ref_has (recs (blacks (w_friend ex_world))) a b = false) as B by reflexivity.
  split; [reflexivity|]. change (nonempty (msg_group_id (req_msg (Some ex_send)))) with false. cbn iota.
  split; [reflexivity|]. split; [|split]; apply One.
  - unfold blocked. rewrite B. discriminate.
  - unfold blocked. rewrite B. discriminate.
  - split; vm_compute; reflexivity.
Qed.

Lemma msg_send_delivered_witness :
  let m' := stamped (req_msg (Some ex_send)) (ev_uuid ex_env) 1 (ev_now ex_env) in
  exists r w', run (miku_msg_handle_rpc (Some "sendMsg") ex_env (Some ex_send) miku_json_create_object) ex_world = (r, w') /\
    jint (Some r) "errCode" = 0 /\ jint (Some r) "seq" = 1 /\ msgs (w_msg w') = [m'] /\
    run (miku_msg_handle_rpc (Some "getMsgByConv") ex_env (Some ex_read) miku_json_create_object) w' =
      (with_msgs_data miku_json_create_object [m'], w').
Proof.
  refine (msg_send_delivered ex_world ex_env (Some ex_send) "bob" ex_env ex_read ex_world_ok (conj eq_refl eq_refl) ex_may_send _ _ _ _).
  - vm_compute. discriminate.
  - reflexivity.
  - replace (canonical (req_msg (Some ex_send))) with "si_5_alice_bob" by (vm_compute; reflexivity). unfold accessible.
    change (prefixed "si_" "si_5_alice_bob") with true. cbn iota. exists "alice". split; vm_compute; reflexivity.
  - unfold asks_newest. split_and!; vm_compute; reflexivity.
Defined.
