(* ===== verification/Auth.v ===== *)
(** * Auth service (services/auth/miku_auth.c)

    Tokens are issued against the shared secrets of the environment; the
    configured administrator principal is the static [g_admin_principal].  A
    token is the text that the caller's buffer receives, None where the
    function returns an error.  Arguments: the random text and the time that a
    token carries. *)
From Stdlib Require Import Ascii String.
From S2P Require Import Prelude Json JsonText RpcNames Token.
#[local] Open Scope string_scope.
#[local] Open Scope list_scope.
#[local] Open Scope Z_scope.

Definition MK_AUTH_PRINCIPAL_MAX : Z := 64.

(** The new value of [g_admin_principal]. *)
Definition miku_auth_set_admin_principal (user_id : option string) : string :=
  match user_id with
  | None => ""
  | Some u => strn (Z.to_nat (MK_AUTH_PRINCIPAL_MAX - 1)) u
  end.

Definition miku_auth_user_token (env user_id secret : option string) (platform token_cap : Z) (uuid : string) (ts : Z)
    : option text :=
  match user_id, secret with
  | Some _, Some sec =>
      if platform =? 5 then None
      else if negb (nonempty sec) || negb (streq sec (miku_token_default_secret env)) then None
      else miku_token_create user_id platform (Some (miku_token_default_secret env)) token_cap uuid ts
  | _, _ => None
  end.

Definition miku_auth_admin_token (principal : string) (env user_id secret : option string) (token_cap : Z) (uuid : string) (ts : Z)
    : option text :=
  match user_id, secret with
  | Some u, Some sec =>
      if negb (nonempty sec) || negb (streq sec (miku_admin_default_secret env)) then None
      else if nonempty principal && negb (streq u principal) then None
      else miku_admin_token_create user_id env token_cap uuid ts
  | _, _ => None
  end.

Definition miku_auth_parse_token (r : revokes) (env token : option string) (cap now : Z) : option string :=
  miku_token_verify r token (Some (miku_token_default_secret env)) cap now.

Definition miku_auth_force_logout (r : revokes) (user_id : option string) (platform now : Z) : Z * revokes :=
  if negb (given user_id) then (-1, r) else miku_token_revoke r user_id platform now.

(** A C string literal whose double quotes are written as single quotes. *)
Definition literal (s : string) : text := (fun c => if Ascii.eqb c "'" then QUOTE else c) <$> str s.

(** A field of the request copied into a 64-byte buffer. *)
Definition auth_field (j : json) (key : string) : string :=
  strn 63 (default "" (miku_json_str (miku_json_get (Some j) (Some key)))).

(** The payload of the answer to the RPC message number [method]; None leaves
    the answer as it is. *)
Definition miku_auth_handle_rpc (env : option string) (uuid : string) (ts method : Z) (payload : text) : option text :=
  if bool_decide (payload = []) then None
  else
    match miku_json_parse (Some payload) with
    | None => Some (literal "{'errCode':400,'errMsg':'invalid JSON'}")
    | Some j =>
        if method =? 1 then
          let out :=
            match miku_auth_user_token env (Some (auth_field j "userID")) (Some (auth_field j "secret"))
                    (i32 (miku_json_int (miku_json_get (Some j) (Some "platformID")))) 512 uuid ts with
            | Some token =>
                miku_ji (miku_jss (miku_jss (miku_ji miku_json_create_object "errCode" 0) "errMsg" (Some ""))
                                  "token" (Some (string_of_list_ascii token)))
                        "expireTimeSeconds" MIKU_TOKEN_EXPIRY_SECONDS
            | None => miku_jss (miku_ji miku_json_create_object "errCode" 401) "errMsg" (Some "authentication failed")
            end in
          Some (miku_json_stringify (Some out))
        else None
    end.
