(* ===== verification/ApiCore.v ===== *)
(** * API gateway: state, handlers as programs, and the path table (gateway/api/miku_api.c)

    A handler runs one HTTP request to its response: it reads the caller's
    identity from the token, checks and completes the JSON body, calls the
    service's RPC handler and filters the answer.  Handlers run one after the
    other in the server's thread; they are programs of a monad with the
    gateway's context as state, the calls to the installed callbacks as output
    and an early response as exit.  None is undefined behaviour.

    The context holds the services (the message service with the friend and
    group services it consults is the [world] of the message service), the
    rate limiter, the revocation table and the identity cached for the last
    token.  A service that is deployed separately is called through a socket:
    its reply is an argument ([ae_remote]).  Strings hold no NUL byte. *)
From Stdlib Require Import Ascii.
From S2P Require Import Prelude Hash ProbeIndex KeyedMap ChainIndex OwnedTable Json JsonText JsonEscape Models RpcNames RateLimit.
From S2P Require Import Friend FriendRpc Group GroupRpc ObjectStore Third User ImMessage Token Auth Atomic MsgService MsgRpc.
From S2P Require Import Conversation.
#[local] Open Scope string_scope.
#[local] Open Scope list_scope.
#[local] Open Scope Z_scope.

(** ** Requests and responses *)

Record http_request := HttpRequest {
  rq_path : string;
  rq_headers : option (gmap string string);
  rq_body : text }.

Record http_response := HttpResponse { rs_status : Z; rs_body : text }.

(** ** Context *)

(** [s_req_auth]. *)
Record req_auth := ReqAuth {
  ra_token : string; ra_uid : string; ra_platform : Z; ra_valid : bool; ra_have_token : bool }.

(** The address of the separately deployed services; a port of 0 or less, or
    an empty host, keeps a service in the process. *)
Record deploy := Deploy {
  rpc_host : string; rpc_user_port : Z; rpc_friend_port : Z; rpc_group_port : Z;
  rpc_conversation_port : Z; rpc_msg_port : Z; rpc_third_port : Z }.

Record api_ctx := ApiCtx {
  cx_world : world;
  cx_user : miku_user_service;
  cx_conv : miku_conv_service;
  cx_third : miku_object_store;
  cx_ratelimit : miku_ratelimit;
  cx_auth : req_auth;
  cx_deploy : deploy }.

(** Calls of a callback and webhooks. *)
Inductive api_event :=
  | EvKick (user : string) (platform : Z)
  | EvGroupMember (gid uid : string) (role : Z) (remove : bool)
  | EvBlacklist (owner blocked : string) (remove : bool)
  | EvWebhook (payload : text).

(** The outcome of a call to a separately deployed service. *)
Inductive rpc_reply := BuildFailed | CallFailed | Reply (t : string).

(** [miku_stats_snapshot_t]. *)
Record stats_snapshot := Stats {
  st_requests_total : Z; st_requests_failed : Z; st_connections_active : Z; st_connections_total : Z;
  st_bytes_sent : Z; st_bytes_recv : Z; st_uptime_ms : Z; st_service_name : string }.

(** The clock, the random identifiers, the secrets in the environment and the
    administrator principal, the counters of the process, the callbacks that
    are installed and the separately deployed services. *)
Record api_env := ApiEnv {
  ae_now : Z;
  ae_clock : nat -> Z;
  ae_uuid : string;
  ae_user_secret : option string;
  ae_admin_secret : option string;
  ae_principal : string;
  ae_version : string * string * string;
  ae_stats : stats_snapshot;
  ae_on_kick : bool;
  ae_on_group_member : bool;
  ae_on_blacklist : bool;
  ae_on_msg_sent : option (miku_im_msg -> option miku_im_msg);
  ae_remote : Z -> string -> option json -> rpc_reply }.

Definition is_local (d : deploy) (port : Z) : bool := negb (nonempty (rpc_host d)) || (port <=? 0).

(** [c->friend_svc] and the other service pointers: NULL for a service that is
    deployed separately ([miku_api_configure_rpc] releases it). *)
Definition local_svc {A} (c : api_ctx) (port : deploy -> Z) (svc : A) : option A :=
  if is_local (cx_deploy c) (port (cx_deploy c)) then Some svc else None.

Definition cx_friend (c : api_ctx) : option miku_friend_service := local_svc c rpc_friend_port (w_friend (cx_world c)).
Definition cx_group (c : api_ctx) : option miku_group_service := local_svc c rpc_group_port (w_group (cx_world c)).
Definition cx_conv_svc (c : api_ctx) : option miku_conv_service := local_svc c rpc_conversation_port (cx_conv c).
Definition cx_msg_svc (c : api_ctx) : option msg_service := local_svc c rpc_msg_port (w_msg (cx_world c)).

Definition set_world (w : world) (c : api_ctx) : api_ctx :=
  ApiCtx w (cx_user c) (cx_conv c) (cx_third c) (cx_ratelimit c) (cx_auth c) (cx_deploy c).
Definition set_user (s : miku_user_service) (c : api_ctx) : api_ctx :=
  ApiCtx (cx_world c) s (cx_conv c) (cx_third c) (cx_ratelimit c) (cx_auth c) (cx_deploy c).
Definition set_conv_svc (s : miku_conv_service) (c : api_ctx) : api_ctx :=
  ApiCtx (cx_world c) (cx_user c) s (cx_third c) (cx_ratelimit c) (cx_auth c) (cx_deploy c).
Definition set_third (s : miku_object_store) (c : api_ctx) : api_ctx :=
  ApiCtx (cx_world c) (cx_user c) (cx_conv c) s (cx_ratelimit c) (cx_auth c) (cx_deploy c).
Definition set_ratelimit (s : miku_ratelimit) (c : api_ctx) : api_ctx :=
  ApiCtx (cx_world c) (cx_user c) (cx_conv c) (cx_third c) s (cx_auth c) (cx_deploy c).
Definition set_auth (s : req_auth) (c : api_ctx) : api_ctx :=
  ApiCtx (cx_world c) (cx_user c) (cx_conv c) (cx_third c) (cx_ratelimit c) s (cx_deploy c).
Definition set_deploy (d : deploy) (c : api_ctx) : api_ctx :=
  ApiCtx (cx_world c) (cx_user c) (cx_conv c) (cx_third c) (cx_ratelimit c) (cx_auth c) d.

Definition with_friend (s : miku_friend_service) (w : world) : world := World (w_msg w) s (w_group w) (w_revokes w).
Definition with_group (s : miku_group_service) (w : world) : world := World (w_msg w) (w_friend w) s (w_revokes w).
Definition with_revokes (r : revokes) (w : world) : world := World (w_msg w) (w_friend w) (w_group w) r.

(** ** The handler monad *)

Definition api (A : Type) : Type := api_ctx -> option (api_ctx * list api_event * (http_response + A)).

Definition ret {A} (a : A) : api A := fun c => Some (c, [], inr a).
Definition reply {A} (r : http_response) : api A := fun c => Some (c, [], inl r).
Definition undefined {A} : api A := fun _ => None.
Definition get_ctx : api api_ctx := fun c => Some (c, [], inr c).
Definition put_ctx (f : api_ctx -> api_ctx) : api unit := fun c => Some (f c, [], inr tt).
Definition emit (e : api_event) : api unit := fun c => Some (c, [e], inr tt).

Definition api_bind {A B} (m : api A) (k : A -> api B) : api B := fun c =>
  match m c with
  | None => None
  | Some (c1, ev1, inl r) => Some (c1, ev1, inl r)
  | Some (c1, ev1, inr a) =>
      match k a c1 with
      | None => None
      | Some (c2, ev2, r) => Some (c2, ev1 ++ ev2, r)
      end
  end.

Declare Scope api_scope.
Delimit Scope api_scope with api.
Notation "x <- m ;; k" := (api_bind m (fun x => k)) (at level 100, m at next level, right associativity) : api_scope.
Notation "m ;;; k" := (api_bind m (fun _ => k)) (at level 100, k at level 200, right associativity) : api_scope.
#[local] Open Scope api_scope.

Definition when (b : bool) (m : api unit) : api unit := if b then m else ret tt.

Fixpoint each {A} (f : A -> api unit) (l : list A) : api unit :=
  match l with [] => ret tt | x :: l' => f x ;;; each f l' end.

(** A call of the message service, whose programs work on the [world]. *)
Definition run_world {A} (p : prog world A) : api A := fun c =>
  let '(a, w) := run p (cx_world c) in Some (set_world w c, [], inr a).

(** The response is the early one or the final one. *)
Definition api_run (m : api http_response) (c : api_ctx) : option (api_ctx * list api_event * http_response) :=
  match m c with
  | None => None
  | Some (c', ev, inl r) => Some (c', ev, r)
  | Some (c', ev, inr r) => Some (c', ev, r)
  end.

(** ** The path table *)

Definition g_path_methods : list (string * string) :=
  [("/user/register", "registerUser"); ("/user/get_users_info", "getUsersInfo");
   ("/user/update_user_info", "updateUserInfo"); ("/user/account_check", "accountCheck");
   ("/user/get_all_users", "getAllUsers"); ("/user/count", "getUserCount");
   ("/user/search", "searchUser"); ("/user/get_users_online_status", "getUsersOnlineStatus");
   ("/user/set_global_recv_opt", "setGlobalRecvMessageOpt"); ("/user/get_global_recv_opt", "getGlobalRecvMessageOpt");
   ("/user/update_user_status", "updateUserStatus"); ("/user/process_user_command", "processUserCommand");
   ("/user/get_user_status", "getUserStatus"); ("/user/get_subscribe_users_status", "getSubscribeUsersStatus");
   ("/user/subscribe_or_cancel_user_status", "subscribeOrCancelUserStatus"); ("/user/set_user_status", "setUserStatus");
   ("/user/update_user_info_ex", "updateUserInfoEx"); ("/user/get_all_users_uid", "getAllUsersUID");
   ("/user/get_users", "getUsersInfo"); ("/user/get_users_online_token_detail", "getUsersOnlineTokenDetail");
   ("/user/process_user_command_add", "processUserCommandAdd"); ("/user/process_user_command_delete", "processUserCommandDelete");
   ("/user/process_user_command_update", "processUserCommandUpdate"); ("/user/process_user_command_get", "processUserCommandGet");
   ("/user/process_user_command_get_all", "processUserCommandGetAll"); ("/user/add_notification_account", "addNotificationAccount");
   ("/user/update_notification_account", "updateNotificationAccount"); ("/user/search_notification_account", "searchNotificationAccount");
   ("/user/get_user_client_config", "getUserClientConfig"); ("/user/set_user_client_config", "setUserClientConfig");
   ("/user/del_user_client_config", "delUserClientConfig"); ("/user/page_user_client_config", "pageUserClientConfig");
   ("/friend/add", "addFriend"); ("/friend/delete", "deleteFriend");
   ("/friend/get_friend_list", "getFriendList"); ("/friend/is_friend", "isFriend");
   ("/friend/add_black", "addBlack"); ("/friend/remove_black", "removeBlack");
   ("/friend/get_black_list", "getBlackList"); ("/friend/delete_friend", "deleteFriend");
   ("/friend/get_friend_apply_list", "getFriendApplyList"); ("/friend/get_self_apply_list", "getSelfApplyList");
   ("/friend/get_designated_apply", "getDesignatedFriendApply"); ("/friend/accept_apply", "acceptFriendApply");
   ("/friend/refuse_apply", "refuseFriendApply"); ("/friend/import_friend", "importFriend");
   ("/friend/sync_friend", "syncFriend"); ("/friend/add_friend_response", "respondFriendApply");
   ("/friend/set_friend_remark", "setFriendRemark"); ("/friend/get_designated_friends", "getDesignatedFriends");
   ("/friend/get_specified_blacks", "getSpecifiedBlacks"); ("/friend/get_incremental_blacks", "getIncrementalBlacks");
   ("/friend/get_incremental_friends", "getIncrementalFriends"); ("/friend/get_friend_id", "getFriendIDs");
   ("/friend/get_specified_friends_info", "getSpecifiedFriendsInfo"); ("/friend/update_friends", "updateFriends");
   ("/friend/get_full_friend_user_ids", "getFullFriendUserIDs"); ("/friend/get_self_unhandled_apply_count", "getSelfUnhandledApplyCount");
   ("/group/create", "createGroup"); ("/group/get_group_info", "getGroupInfo");
   ("/group/get_groups_info", "getGroupsInfo"); ("/group/set_group_info", "setGroupInfo");
   ("/group/get_group_member_list", "getGroupMemberList"); ("/group/get_group_member_user_id", "getGroupMemberUserID");
   ("/group/set_group_member_info", "setGroupMemberInfo"); ("/group/invite", "inviteToGroup");
   ("/group/join", "joinGroup"); ("/group/quit", "quitGroup");
   ("/group/dismiss", "dismissGroup"); ("/group/mute", "muteGroup");
   ("/group/cancel_mute", "cancelMuteGroup"); ("/group/kick", "kickGroupMember");
   ("/group/transfer", "transferGroupOwner"); ("/group/get_joined_group_list", "getJoinedGroupList");
   ("/group/get_group_applicant_list", "getGroupApplicationList"); ("/group/get_group_application_list", "getGroupApplicationList");
   ("/group/accept_group_application", "acceptGroupApplication"); ("/group/refuse_group_application", "refuseGroupApplication");
   ("/group/mute_member", "muteGroupMember"); ("/group/cancel_mute_member", "cancelMuteGroupMember");
   ("/group/set_group_info_ex", "setGroupInfoEx"); ("/group/get_recv_group_applicationList", "getRecvGroupApplicationList");
   ("/group/get_user_req_group_applicationList", "getUserReqGroupApplicationList"); ("/group/get_group_users_req_application_list", "getGroupUsersReqApplicationList");
   ("/group/get_specified_user_group_request_info", "getSpecifiedUserGroupRequestInfo"); ("/group/get_group_abstract_info", "getGroupAbstractInfo");
   ("/group/get_groups", "getGroups"); ("/group/get_incremental_join_groups", "getIncrementalJoinGroups");
   ("/group/get_incremental_group_members", "getIncrementalGroupMembers"); ("/group/get_incremental_group_members_batch", "getIncrementalGroupMemberBatch");
   ("/group/get_full_group_member_user_ids", "getFullGroupMemberUserIDs"); ("/group/get_full_join_group_ids", "getFullJoinGroupIDs");
   ("/group/get_group_application_unhandled_count", "getGroupApplicationUnhandledCount"); ("/conversation/get_all", "getAllConversations");
   ("/conversation/get_conv", "getConversation"); ("/conversation/set", "setConversation");
   ("/conversation/get_all_conversations", "getAllConversations"); ("/conversation/set_conversations", "setConversations");
   ("/conversation/delete_conversation", "deleteConversation"); ("/conversation/get_conversation_list", "getConversationList");
   ("/conversation/get_conversations", "getConversations"); ("/conversation/get_total_unread", "getTotalUnreadMsgCount");
   ("/conversation/set_conversation_min_seq", "setConversationMinSeq"); ("/conversation/mark_as_read", "markConversationMessageAsRead");
   ("/conversation/clear_conv_msg", "clearConversationMsg"); ("/conversation/pin_conversation", "pinConversation");
   ("/conversation/get_sorted_conversation_list", "getSortedConversationList"); ("/conversation/get_full_conversation_ids", "getFullConversationIDs");
   ("/conversation/get_incremental_conversations", "getIncrementalConversation"); ("/conversation/get_owner_conversation", "getOwnerConversation");
   ("/conversation/get_not_notify_conversation_ids", "getNotNotifyConversationIDs"); ("/conversation/get_pinned_conversation_ids", "getPinnedConversationIDs");
   ("/conversation/delete_conversations", "deleteConversations"); ("/conversation/update_conversations_by_user", "updateConversationsByUser");
   ("/msg/send", "send"); ("/msg/get", "getMsgByConv");
   ("/msg/revoke", "revokeMsg"); ("/msg/send_msg", "sendMsg");
   ("/msg/get_msg", "getMsg"); ("/msg/get_server_time", "getServerTime");
   ("/msg/get_send_status", "getSendMsgStatus"); ("/msg/clean_up", "cleanUpMsg");
   ("/msg/delete_msg", "deleteMsg"); ("/msg/batch_send", "batchSendMsg");
   ("/msg/mark_as_read", "markMsgAsRead"); ("/msg/get_by_seq", "getMsgBySeq");
   ("/msg/set_message_reaction_extensions", "setMessageReactionExtensions"); ("/msg/get_message_list_reaction_extensions", "getMessageListReactionExtensions");
   ("/msg/add_message_reaction_extensions", "addMessageReactionExtensions"); ("/msg/delete_message_reaction_extensions", "deleteMessageReactionExtensions");
   ("/msg/newest_seq", "getNewestSeq"); ("/msg/search_msg", "searchMsg");
   ("/msg/send_business_notification", "sendBusinessNotification"); ("/msg/pull_msg_by_seq", "pullMsgBySeq");
   ("/msg/mark_msgs_as_read", "markMsgsAsRead"); ("/msg/mark_conversation_as_read", "markConversationAsRead");
   ("/msg/get_conversations_has_read_and_max_seq", "getConversationsHasReadAndMaxSeq"); ("/msg/set_conversation_has_read_seq", "setConversationHasReadSeq");
   ("/msg/clear_conversation_msg", "clearConversationMsg"); ("/msg/user_clear_all_msg", "userClearAllMsg");
   ("/msg/delete_msg_phsical_by_seq", "deleteMsgPhysicalBySeq"); ("/msg/delete_msg_physical", "deleteMsgPhysical");
   ("/msg/send_simple_msg", "sendSimpleMsg"); ("/msg/check_msg_is_send_success", "checkMsgIsSendSuccess");
   ("/third/upload_token", "getUploadToken"); ("/third/download_url", "getDownloadURL");
   ("/third/access_url", "accessURL"); ("/third/delete_object", "deleteObject");
   ("/third/initiate_multipart", "initiateMultipartUpload"); ("/third/complete_multipart", "completeMultipartUpload");
   ("/third/get_upload_info", "getUploadInfo"); ("/third/get_object_info", "getObjectInfo");
   ("/third/get_signal_invitation_info", "getSignalInvitationInfo"); ("/third/fcm_update_token", "fcmUpdateToken");
   ("/third/set_app_badge", "setAppBadge"); ("/third/logs/upload", "uploadLogs");
   ("/third/logs/delete", "deleteLogs"); ("/third/logs/search", "searchLogs");
   ("/third/prometheus", "getPrometheus"); ("/object/part_limit", "partLimit");
   ("/object/part_size", "partSize"); ("/object/auth_sign", "authSign");
   ("/object/initiate_form_data", "initiateFormData"); ("/object/complete_form_data", "completeFormData");
   ("/object/access_url", "accessURL"); ("/object/initiate_multipart_upload", "initiateMultipartUpload");
   ("/object/complete_multipart_upload", "completeMultipartUpload")].

Definition MK_API_PATH_HASH : Z := 512.

Definition path_slot (p : string) : Z := mask_slot MK_API_PATH_HASH (fnv1a_64 p).

Definition api_path_hash_init : gmap Z Z :=
  for_range (Z.of_nat (length g_path_methods))
    (fun t i => from_option (fun pm => scan_insert MK_API_PATH_HASH t (path_slot pm.1) (i16 i)) t (at_ g_path_methods i)) ∅.

Definition api_req_path (req : http_request) (cap : nat) : string := strn (cap - 1) (rq_path req).

Definition api_rpc_method (req : http_request) (fallback : string) : string :=
  let path := api_req_path req 256 in
  let pi := scan_find MK_API_PATH_HASH api_path_hash_init
              (fun pi => from_option (fun pm => streq pm.1 path) false (at_ g_path_methods pi))
              (path_slot path) in
  from_option snd fallback (at_ g_path_methods pi).

(** ** Start *)

Definition no_deploy : deploy := Deploy "" 0 0 0 0 0 0.
Definition no_auth : req_auth := ReqAuth "" "" 0 false false.

(** The message service consults the friend and group services of the
    process. *)
Definition miku_api_ctx_create : api_ctx :=
  ApiCtx (World (miku_msg_service_set_friend_svc (miku_msg_service_set_group_svc miku_msg_service_create true) true)
                miku_friend_service_create miku_group_service_create miku_token_revoke_clear)
         miku_user_service_create miku_conv_service_create miku_object_store_create
         (miku_ratelimit_create 60000 100) no_auth no_deploy.

(** Called once, before the server starts. *)
Definition miku_api_configure_rpc (d : deploy) (c : api_ctx) : api_ctx :=
  let d := Deploy (strn 63 (rpc_host d)) (rpc_user_port d) (rpc_friend_port d) (rpc_group_port d)
                  (rpc_conversation_port d) (rpc_msg_port d) (rpc_third_port d) in
  let w := cx_world c in
  let s := w_msg w in
  let s := if is_local d (rpc_friend_port d) then s else miku_msg_service_set_friend_svc s false in
  let s := if is_local d (rpc_group_port d) then s else miku_msg_service_set_group_svc s false in
  set_deploy d (set_world (with_msg w s) c).
