(* ===== verification/ApiGate.v ===== *)
(** * API gateway: identity, checks, filters and service calls (gateway/api/miku_api.c)

    The functions that the handlers of the gateway share. *)
From Stdlib Require Import Ascii String.
From S2P Require Import Prelude Hash ProbeIndex KeyedMap ChainIndex OwnedTable Json JsonText JsonEscape Models RpcNames RateLimit.
From S2P Require Import Friend FriendRpc Group GroupRpc ObjectStore Third User ImMessage Token Auth Atomic MsgService MsgRpc.
From S2P Require Import Conversation ApiCore.
#[local] Open Scope string_scope.
#[local] Open Scope list_scope.
#[local] Open Scope Z_scope.
#[local] Open Scope api_scope.

(** ** Responses *)

Definition json_resp (status : Z) (j : json) : http_response := HttpResponse status (miku_json_stringify (Some j)).

(** [miku_http_response_set_json] with a literal. *)
Definition respond (status : Z) (body : string) : http_response := HttpResponse status (literal body).

Definition admin_required : http_response := respond 403 "{'errCode':403,'errMsg':'admin token required'}".
Definition forbidden : http_response := respond 200 "{'errCode':5001,'errMsg':'forbidden'}".
Definition unauthorized : http_response := respond 403 "{'errCode':3003,'errMsg':'unauthorized'}".
Definition not_participant : http_response := respond 403 "{'errCode':3003,'errMsg':'not a conversation participant'}".
Definition no_data : http_response := respond 200 "{'errCode':0,'data':[]}".

(** ** Fields of the request body, NULL when it does not parse *)

Definition put_str (j : option json) (key : string) (v : option string) : option json := (fun j => miku_jss j key v) <$> j.
Definition put_val (j : option json) (key : string) (v : json) : option json := (fun j => jset j key v) <$> j.
Definition put_int (j : option json) (key : string) (v : Z) : option json := (fun j => miku_ji j key v) <$> j.

Definition one_of (method : string) (l : list string) : bool := existsb (streq method) l.

(** An array of strings in place of the value of a key. *)
Definition put_strings (j : option json) (key : string) (l : list string) : option json :=
  put_val j key (foldl (fun a s => jpush a (miku_json_create_str (Some s))) miku_json_create_array l).

Section Gate.
Context (E : api_env).

(** ** Identity *)

Definition header_token (req : http_request) : option string :=
  let token := match rq_headers req with
               | Some h => or_null (h !! "token") (h !! "authorization")
               | None => None
               end in
  (fun t => if prefixed "Bearer " t then sdrop 7 t else t) <$> token.

(** The user secret first, then the administrator's. *)
Definition token_identity (r : revokes) (token : string) : string * Z :=
  match miku_token_verify_ex r (Some token) (Some (miku_token_default_secret (ae_user_secret E))) 128 (ae_now E) with
  | Some (uid, platform, _) => (uid, platform)
  | None =>
      match miku_token_verify_ex r (Some token) (Some (miku_admin_default_secret (ae_admin_secret E))) 128 (ae_now E) with
      | Some (uid, platform, _) => (uid, platform)
      | None => ("", -1)
      end
  end.

Definition fresh_auth (r : revokes) (token : option string) : req_auth :=
  if given token then
    let t := default "" token in
    let '(uid, platform) := token_identity r t in
    ReqAuth (strn 511 t) uid platform (nonempty uid) true
  else ReqAuth "" "" (-1) false false.

(** The identity of the request: the cached one when the token is the cached
    one. *)
Definition auth_of (c : api_ctx) (req : http_request) : req_auth :=
  let token := header_token req in
  if ra_have_token (cx_auth c) && given token && streq (default "" token) (ra_token (cx_auth c))
  then cx_auth c
  else fresh_auth (w_revokes (cx_world c)) token.

Definition req_auth_ensure (req : http_request) : api unit := put_ctx (fun c => set_auth (auth_of c req) c).

Definition check_ratelimit (req : http_request) : api unit :=
  req_auth_ensure req ;;;
  c <- get_ctx ;;
  let a := cx_auth c in
  let key := if ra_valid a && nonempty (ra_uid a) then ra_uid a else "global" in
  let '(ok, rl) := miku_ratelimit_allow (cx_ratelimit c) (ae_now E) (Some key) in
  put_ctx (set_ratelimit rl) ;;;
  if ok =? 0
  then reply (json_resp 429 (miku_jss (miku_ji miku_json_create_object "errCode" 429) "errMsg" (Some "rate limit exceeded")))
  else ret tt.

Definition public_path (p : string) : bool :=
  one_of p ["/auth/user_token"; "/auth/admin_token"; "/admin/health"; "/version"].

Definition verify_token (req : http_request) : api unit :=
  if public_path (rq_path req) then ret tt
  else
    req_auth_ensure req ;;;
    c <- get_ctx ;;
    let a := cx_auth c in
    if negb (ra_have_token a) || negb (ra_valid a)
    then reply (json_resp 401 (miku_jss (miku_ji miku_json_create_object "errCode" 401) "errMsg"
                                 (Some (if ra_have_token a then "invalid token" else "missing token header"))))
    else ret tt.

(** None is the failure -1. *)
Definition req_token_uid (req : http_request) (cap : nat) : api (option string) :=
  match rq_headers req with
  | None => ret None
  | Some _ =>
      req_auth_ensure req ;;;
      c <- get_ctx ;;
      ret (if ra_valid (cx_auth c) then Some (strn (cap - 1) (ra_uid (cx_auth c))) else None)
  end.

(** The buffer [actor] of the handlers, empty when there is no identity. *)
Definition req_actor (req : http_request) : api string := u <- req_token_uid req 128 ;; ret (default "" u).

Definition req_token_platform (req : http_request) : api Z :=
  match rq_headers req with
  | None => ret (-1)
  | Some _ => req_auth_ensure req ;;; c <- get_ctx ;; ret (ra_platform (cx_auth c))
  end.

Definition require_admin (req : http_request) : api unit :=
  plat <- req_token_platform req ;; if plat =? 5 then ret tt else reply admin_required.

(** ** Body *)

Definition parse_body (req : http_request) : option json :=
  if bool_decide (rq_body req = []) then Some miku_json_create_object else miku_json_parse (Some (rq_body req)).

Definition field_missing (j : option json) (field : string) : bool :=
  match miku_json_get j (Some field) with
  | None => true
  | Some (JStr s) => negb (nonempty s)
  | Some _ => false
  end.

(** One more name in the 512-byte list of missing names. *)
Definition add_missing (names : text) (field : string) : text :=
  let names := if (0 <? tlen names) && (tlen names <? 510) then names ++ [","%char] else names in
  if tlen names + tlen (str field) <? 511 then names ++ str field else names.

Definition require_fields (j : option json) (fields : list string) : api unit :=
  let missing := filter (fun f => field_missing j f = true) fields in
  match missing with
  | [] => ret tt
  | _ =>
      let msg := (snprintf 600 (str "missing required fields: " ++ foldl add_missing [] missing)).1 in
      reply (json_resp 400 (miku_jss (miku_ji miku_json_create_object "errCode" 400) "errMsg" (Some (string_of_list_ascii msg))))
  end.

(** ** Access *)

Definition api_may_access_conv (c : api_ctx) (uid conv : option string) : bool :=
  if negb (given uid) || negb (given conv) then false
  else
    let cv := default "" conv in
    if prefixed "si_" cv then
      match cx_friend c with
      | None => true
      | Some fs => negb (miku_friend_may_access_si_conv fs uid conv =? 0)
      end
    else if prefixed "sg_" cv then
      match cx_group c with
      | None => true
      | Some gs => miku_group_is_member gs (Some (sdrop 3 cv)) uid
      end
    else
      match cx_conv_svc c with
      | Some cs => (miku_conv_get cs uid conv).1 =? 0
      | None => true
      end.

(** Self or a mutual friend, or an administrator. *)
Definition api_may_view_user (c : api_ctx) (plat : Z) (actor uid : option string) : bool :=
  if negb (given uid) then false
  else if plat =? 5 then true
  else if negb (given actor) then false
  else if streq (default "" actor) (default "" uid) then true
  else match cx_friend c with None => true | Some fs => miku_friend_is_mutual fs actor uid end.

Definition conv_mutates (method : string) : bool :=
  one_of method ["setConversation"; "setConversations"; "deleteConversation"; "deleteConversations"; "pinConversation";
                 "setConversationMinSeq"; "markConversationMessageAsRead"; "clearConversationMsg"; "updateConversationsByUser"].

Definition api_conv_ids_denied (c : api_ctx) (actor : string) (j : option json) : bool :=
  if negb (nonempty actor) then false
  else
    match j with
    | None => false
    | Some _ =>
        let denied cid := given cid && negb (api_may_access_conv c (Some actor) cid) in
        let ids := match miku_json_get j (Some "conversationIDs") with
                   | Some v => Some v
                   | None => miku_json_get j (Some "conversationIDList")
                   end in
        denied (jstr j "conversationID") || existsb (fun v => denied (miku_json_str v)) (json_items ids)
    end.

Definition conv_is_read (method : string) : bool :=
  one_of method ["getAllConversations"; "getConversation"; "getConversationList"; "getConversations"; "getActiveConversations";
                 "getTotalUnreadMsgCount"; "getSortedConversationList"; "getFullConversationIDs";
                 "getConversationsHasReadAndMaxSeq"; "getOwnerConversation"; "getPinnedConversationIDs";
                 "getNotNotifyConversationIDs"; "getIncrementalConversation"].

(** ** Filters *)

Definition filter_conv_unread_count (c : api_ctx) (actor : string) (out : json) : json :=
  match cx_conv_svc c with
  | None => out
  | Some cs =>
      if negb (nonempty actor) then out
      else
        let convs := miku_conv_get_all cs (Some actor) 512 in
        let total := foldl (fun t cv => if api_may_access_conv c (Some actor) (Some (c_conversation_id cv))
                                        then i64 (t + c_unread_count cv) else t) 0 convs in
        miku_ji out "count" (i32 total)
  end.

Definition filter_json_array_inplace (keep : option json -> bool) (arr : json) : json :=
  match arr with
  | JArr l => JArr (filter (fun v => keep (Some v) = true) l)
  | _ => arr
  end.

Definition conv_filter_keep_object (c : api_ctx) (actor : string) (item : option json) : bool :=
  match jstr item "conversationID" with
  | Some cid => api_may_access_conv c (Some actor) (Some cid)
  | None => false
  end.

Definition conv_filter_keep_id_str (c : api_ctx) (actor : string) (item : option json) : bool :=
  match miku_json_str item with
  | Some cid => api_may_access_conv c (Some actor) (Some cid)
  | None => false
  end.

Definition msg_filter_keep : api_ctx -> string -> option json -> bool := conv_filter_keep_object.

(** [data] filtered when it is an array. *)
Definition filter_data (keep : option json -> bool) (out : json) : json :=
  match miku_json_get (Some out) (Some "data") with
  | Some (JArr l) => jset out "data" (filter_json_array_inplace keep (JArr l))
  | _ => out
  end.

Definition filter_msg_read_result (c : api_ctx) (actor : string) (out : json) : json :=
  if negb (nonempty actor) then out else filter_data (msg_filter_keep c actor) out.

Definition user_filter_keep (c : api_ctx) (plat : Z) (actor : string) (keyword : option string) (item : option json) : bool :=
  match jstr item "userID" with
  | None => false
  | Some uid =>
      if negb (api_may_view_user c plat (Some actor) (Some uid)) then false
      else match keyword with Some k => streq uid k | None => true end
  end.

Definition filter_users_read_result (c : api_ctx) (plat : Z) (actor : string) (keyword : option string) (out : json) : json :=
  if negb (nonempty actor) then out else filter_data (user_filter_keep c plat actor keyword) out.

Definition group_filter_keep_object (c : api_ctx) (actor : string) (item : option json) : bool :=
  match jstr item "groupID" with
  | None => false
  | Some gid =>
      if negb (nonempty actor) then false
      else match cx_group c with None => true | Some gs => miku_group_is_member gs (Some gid) (Some actor) end
  end.

Definition filter_group_id_list (c : api_ctx) (actor : string) (j : option json) : option json :=
  match cx_group c with
  | None => j
  | Some gs =>
      if negb (nonempty actor) then j
      else
        match miku_json_get j (Some "groupIDList") with
        | Some (JArr l) =>
            put_strings j "groupIDList"
              (filter (fun gid => miku_group_is_member gs (Some gid) (Some actor) = true)
                 (omap (fun v => miku_json_str (Some v)) l))
        | _ => j
        end
  end.

Definition filter_groups_read_result (c : api_ctx) (actor : string) (out : json) : json :=
  if negb (nonempty actor) then out else filter_data (group_filter_keep_object c actor) out.

Definition filter_conv_read_result (c : api_ctx) (actor : string) (out : json) : json :=
  if negb (nonempty actor) then out
  else
    match miku_json_get (Some out) (Some "data") with
    | Some (JArr l) =>
        let keep := match l with JStr _ :: _ => conv_filter_keep_id_str c actor | _ => conv_filter_keep_object c actor end in
        jset out "data" (filter_json_array_inplace keep (JArr l))
    | Some (JObj o) =>
        if conv_filter_keep_object c actor (Some (JObj o)) then out
        else jset (miku_ji out "errCode" 0) "data" miku_json_create_null
    | _ => out
    end.

Definition filter_presence_user_id_list (c : api_ctx) (plat : Z) (actor : string) (j : option json) (key : string) : option json :=
  if plat =? 5 then j
  else
    match miku_json_get j (Some key) with
    | Some (JArr l) =>
        put_strings j key (default "" <$> filter (fun uid => api_may_view_user c plat (Some actor) uid = true)
                                            ((fun v => miku_json_str (Some v)) <$> l))
    | _ => j
    end.

Definition api_drop_group_conv (uid gid : string) : api unit :=
  c <- get_ctx ;;
  match cx_conv_svc c with
  | None => ret tt
  | Some cs =>
      if negb (nonempty uid) || negb (nonempty gid) then ret tt
      else
        let cid := string_of_list_ascii (snprintf 128 (str "sg_" ++ str gid)).1 in
        put_ctx (set_conv_svc (miku_conv_delete cs (Some uid) (Some cid)).2)
  end.

Definition invitee_keys : list string := ["memberUserIDs"; "invitedUserIDs"].

(** The inviter and its mutual friends. *)
Definition filter_group_invitee_ids (c : api_ctx) (from : string) (j : option json) : option json :=
  match cx_friend c with
  | None => j
  | Some fs =>
      if negb (nonempty from) then j
      else
        let keep u := nonempty u && (streq u from || miku_friend_is_mutual fs (Some from) (Some u)) in
        let j := foldl (fun j key =>
                          match miku_json_get j (Some key) with
                          | Some (JArr l) => put_strings j key (filter (fun u => keep u = true) (omap (fun v => miku_json_str (Some v)) l))
                          | _ => j
                          end) j invitee_keys in
        let uid := jstr j "userID" in
        if given uid && negb (streq (default "" uid) from) && negb (miku_friend_is_mutual fs (Some from) uid)
        then put_str j "userID" (Some "") else j
  end.

(** ** Webhooks *)

(** The members that fit the 1024-byte buffer; the first one that does not ends
    the loop. *)
Fixpoint webhook_members (payload : text) (kvs : list (string * option string)) : text :=
  match kvs with
  | [] => payload
  | (key, val) :: kvs' =>
      let esc_val := miku_json_escape_str (Some (default "" val)) 512 in
      let m := [","%char; QUOTE] ++ str key ++ [QUOTE; ":"%char; QUOTE] ++ esc_val ++ [QUOTE] in
      if 1024 <=? tlen payload + tlen m then payload else webhook_members (payload ++ m) kvs'
  end.

Definition webhook_payload (event : string) (kvs : list (string * option string)) : option text :=
  let ee := miku_json_escape_str (Some event) 64 in
  let head := literal "{'event':'" ++ ee ++ [QUOTE] in
  let payload := webhook_members head kvs in
  if tlen payload + 2 <=? 1024 then Some (payload ++ ["}"%char]) else None.

Definition webhook_fire_json (event : string) (kvs : list (string * option string)) : api unit :=
  match webhook_payload event kvs with Some p => emit (EvWebhook p) | None => ret tt end.

(** ** Service calls *)

Definition api_service_rpc (port : deploy -> Z) (local : api json) (method : string) (req : option json) (out : json) : api json :=
  c <- get_ctx ;;
  if is_local (cx_deploy c) (port (cx_deploy c)) then local
  else
    match ae_remote E (port (cx_deploy c)) method req with
    | BuildFailed => ret (miku_jerr out 500 "rpc payload build failed")
    | CallFailed => ret (miku_jerr out 503 "rpc call failed")
    | Reply t =>
        match miku_json_parse_str (Some t) with
        | None => ret (miku_jerr out 500 "rpc response parse failed")
        | Some r => ret (miku_json_object_assign out r)
        end
    end.

Definition local_user (method : string) (req : option json) (out : json) : api json :=
  c <- get_ctx ;;
  let r := miku_user_handle_rpc (Some method) (cx_user c) (ae_now E) req out in
  put_ctx (set_user r.1) ;;; ret r.2.
Definition API_USER_RPC (method : string) (req : option json) (out : json) : api json :=
  api_service_rpc rpc_user_port (local_user method req out) method req out.

Definition local_friend (method : string) (req : option json) (out : json) : api json :=
  c <- get_ctx ;;
  let r := miku_friend_handle_rpc (Some method) (w_friend (cx_world c)) (ae_clock E) req out in
  put_ctx (fun c => set_world (with_friend r.1 (cx_world c)) c) ;;; ret r.2.
Definition API_FRIEND_RPC (method : string) (req : option json) (out : json) : api json :=
  api_service_rpc rpc_friend_port (local_friend method req out) method req out.

Definition local_group (method : string) (req : option json) (out : json) : api json :=
  c <- get_ctx ;;
  let r := miku_group_handle_rpc (Some method) (w_group (cx_world c)) (ae_clock E) (ae_uuid E) req out in
  put_ctx (fun c => set_world (with_group r.1 (cx_world c)) c) ;;; ret r.2.
Definition API_GROUP_RPC (method : string) (req : option json) (out : json) : api json :=
  api_service_rpc rpc_group_port (local_group method req out) method req out.

Definition local_conv (method : string) (req : option json) (out : json) : api json :=
  c <- get_ctx ;;
  let r := miku_conv_handle_rpc (Some method) (cx_conv c) req out in
  put_ctx (set_conv_svc r.1) ;;; ret r.2.
Definition API_CONV_RPC (method : string) (req : option json) (out : json) : api json :=
  api_service_rpc rpc_conversation_port (local_conv method req out) method req out.

Definition msg_env : rpc_env := RpcEnv (ae_uuid E) (ae_now E) (ae_now E) (ae_admin_secret E).
Definition API_MSG_RPC (method : string) (req : option json) (out : json) : api json :=
  api_service_rpc rpc_msg_port (run_world (miku_msg_handle_rpc (Some method) msg_env req out)) method req out.

Definition local_third (method : string) (req : option json) (out : json) : api json :=
  c <- get_ctx ;;
  let r := miku_third_handle_rpc (Some method) (cx_third c) (ae_uuid E) (ae_now E) req out in
  from_option (fun r => put_ctx (set_third r.1) ;;; ret r.2) undefined r.
Definition API_THIRD_RPC (method : string) (req : option json) (out : json) : api json :=
  api_service_rpc rpc_third_port (local_third method req out) method req out.
End Gate.
