(* ===== verification/ApiHandlers.v ===== *)
(** * API gateway: the request handlers (gateway/api/miku_api.c)

    One program per [handle_*] function; the steps of a long handler that the
    source separates by comments or by an [if] chain are definitions of their
    own.  The handler of the message routes is in [ApiMsg]. *)
From Stdlib Require Import Ascii String.
From S2P Require Import Prelude Hash ProbeIndex KeyedMap ChainIndex OwnedTable Json JsonText JsonEscape Models RpcNames RateLimit.
From S2P Require Import Friend FriendRpc Group GroupRpc ObjectStore Third User ImMessage Token Auth Atomic MsgService MsgRpc.
From S2P Require Import Conversation ApiCore ApiGate.
#[local] Open Scope string_scope.
#[local] Open Scope list_scope.
#[local] Open Scope Z_scope.
#[local] Open Scope api_scope.

Definition handler : Type := http_request -> api http_response.

(** [miku_json_create_object] and the final [json_resp]. *)
Definition answer (out : json) : api http_response := ret (json_resp 200 out).

Definition new_out : json := miku_json_create_object.
Definition err_out (out : json) (code : Z) : json := miku_ji out "errCode" code.
Definition failed (j : json) : bool := negb (miku_json_int (miku_json_get (Some j) (Some "errCode")) =? 0).

Section Handlers.
Context (E : api_env).

(** The two checks that most handlers start with. *)
Definition admit_request (req : http_request) : api unit := check_ratelimit E req ;;; verify_token E req.

(** ** Auth *)

Definition token_out (token : option text) : json :=
  let out := err_out new_out (match token with Some _ => 0 | None => 401 end) in
  match token with
  | Some t => miku_ji (miku_jss out "token" (Some (string_of_list_ascii t))) "expireTimeSeconds" 86400
  | None => out
  end.

Definition auth_user_token (req : http_request) (j : option json) : api http_response :=
  require_fields j ["userID"; "secret"] ;;;
  let plat := i32 (jint j "platformID") in
  answer (token_out (miku_auth_user_token (ae_user_secret E) (jstr j "userID") (jstr j "secret") plat 512 (ae_uuid E) (ae_now E))).

Definition auth_parse_token (req : http_request) (j : option json) : api http_response :=
  let token := jstr j "token" in
  plat <- req_token_platform E req ;;
  actor <- req_actor E req ;;
  c <- get_ctx ;;
  let uid := if given token
             then miku_auth_parse_token (w_revokes (cx_world c)) (ae_user_secret E) token 128 (ae_now E) else None in
  let uid := match uid with
             | Some u => if negb (plat =? 5) && (negb (nonempty actor) || negb (streq u actor)) then None else Some u
             | None => None
             end in
  answer (match uid with
          | Some u => miku_jss (miku_jss (err_out new_out 0) "userID" (Some u)) "errMsg" (Some "")
          | None => miku_jss (err_out new_out 401) "errMsg" (Some "invalid token")
          end).

Definition auth_admin_token (req : http_request) (j : option json) : api http_response :=
  require_fields j ["userID"; "secret"] ;;;
  answer (token_out (miku_auth_admin_token (ae_principal E) (ae_admin_secret E) (jstr j "userID") (jstr j "secret")
                       512 (ae_uuid E) (ae_now E))).

(** [force_logout] of the caller's tokens of a platform, -1 for all. *)
Definition auth_force_logout (req : http_request) (plat : Z) : api http_response :=
  actor <- req_actor E req ;;
  if negb (nonempty actor) then answer (miku_jss (err_out new_out 401) "errMsg" (Some "invalid token"))
  else
    c <- get_ctx ;;
    let '(rc, r) := miku_auth_force_logout (w_revokes (cx_world c)) (Some actor) plat (ae_now E) in
    put_ctx (fun c => set_world (with_revokes r (cx_world c)) c) ;;;
    when ((rc =? 0) && ae_on_kick E) (emit (EvKick actor plat)) ;;;
    answer (err_out new_out (if rc =? 0 then 0 else 500)).

Definition handle_auth : handler := fun req =>
  admit_request req ;;;
  let j := parse_body req in
  let path := api_req_path req 128 in
  if streq path "/auth/user_token" then auth_user_token req j
  else if streq path "/auth/parse_token" then auth_parse_token req j
  else if streq path "/auth/admin_token" then auth_admin_token req j
  else if streq path "/auth/force_logout_all" then auth_force_logout req (-1)
  else if streq path "/auth/force_logout" then auth_force_logout req (i32 (jint j "platformID"))
  else answer (err_out new_out 404).

(** ** Users *)

Definition user_as_actor (method : string) (plat : Z) : bool :=
  one_of method ["updateUserInfo"; "updateUserInfoEx"; "setGlobalRecvMessageOpt"; "getGlobalRecvMessageOpt"; "updateUserStatus";
                 "setUserStatus"; "setUserClientConfig"; "getUserClientConfig"; "delUserClientConfig"; "pageUserClientConfig";
                 "processUserCommand"; "processUserCommandAdd"; "processUserCommandDelete"; "processUserCommandUpdate";
                 "processUserCommandGet"; "processUserCommandGetAll"]
  || (streq method "registerUser" && negb (plat =? 5))
  || streq method "subscribeOrCancelUserStatus".

Definition user_check (method : string) (plat : Z) (j : option json) : api unit :=
  if one_of method ["registerUser"; "updateUserInfo"; "updateUserInfoEx"; "setGlobalRecvMessageOpt"] then require_fields j ["userID"]
  else if one_of method ["getAllUsers"; "getAllUsersUID"; "getUserCount"; "getUsersOnlineTokenDetail"; "addNotificationAccount";
                         "updateNotificationAccount"; "searchNotificationAccount"]
  then (if plat =? 5 then ret tt else reply admin_required)
  else if streq method "searchUser" then require_fields j ["keyword"]
  else ret tt.

(** Presence requests name only users that the caller may view.  For a single
    user it may not view the handler destroys [out] and then writes to it. *)
Definition user_presence (method : string) (plat : Z) (actor : string) (j : option json) : api (option json) :=
  c <- get_ctx ;;
  if negb (plat =? 5) && nonempty actor then
    if streq method "getUsersOnlineStatus" then ret (filter_presence_user_id_list c plat actor j "userIDList")
    else if one_of method ["getUserStatus"; "getSubscribeUsersStatus"] then
      let uid := jstr j "userID" in
      if given uid && negb (api_may_view_user c plat (Some actor) uid) then undefined else ret j
    else if streq method "subscribeOrCancelUserStatus" then
      ret (filter_presence_user_id_list c plat actor (filter_presence_user_id_list c plat actor j "userIDList")
             "subscribeUserIDList")
    else ret j
  else ret j.

Definition user_filter_answer (c : api_ctx) (method : string) (plat : Z) (actor : string) (j : option json) (out : json) : json :=
  let out := if streq method "searchUser" && negb (plat =? 5)
             then filter_users_read_result c plat actor (jstr j "keyword") out else out in
  if negb (plat =? 5) && nonempty actor then
    if streq method "getUserInfo" then
      let uid := jstr (miku_json_get (Some out) (Some "data")) "userID" in
      match uid with
      | Some _ => if api_may_view_user c plat (Some actor) uid then out
                  else jset (err_out out 0) "data" miku_json_create_null
      | None => jset (err_out out 0) "data" miku_json_create_null
      end
    else if streq method "getUsersInfo" then filter_users_read_result c plat actor None out
    else out
  else out.

Definition handle_user : handler := fun req =>
  admit_request req ;;;
  let method := api_rpc_method req "getUserInfo" in
  plat <- req_token_platform E req ;;
  actor <- req_actor E req ;;
  let j := parse_body req in
  let j := if nonempty actor && user_as_actor method plat then put_str j "userID" (Some actor) else j in
  user_check method plat j ;;;
  j <- user_presence method plat actor j ;;
  out <- API_USER_RPC E method j new_out ;;
  c <- get_ctx ;;
  let out := user_filter_answer c method plat actor j out in
  when (streq method "registerUser" && negb (failed out)) (webhook_fire_json "userRegistered" [("userID", jstr j "userID")]) ;;;
  answer out.

(** ** Friends *)

Definition friend_as_owner (method : string) : bool :=
  one_of method ["addFriend"; "addBlack"; "deleteFriend"; "removeBlack"; "setFriendRemark"; "getFriendList"; "getBlackList";
                 "importFriend"; "respondFriendApply"; "updateFriends"; "acceptFriendApply"; "refuseFriendApply";
                 "getSpecifiedFriendsInfo"; "getFriendIDs"; "getFullFriendUserIDs"; "syncFriend"; "getDesignatedFriends";
                 "getFriendApplyList"; "getSelfApplyList"; "getDesignatedFriendApply"; "getSpecifiedBlacks";
                 "getSelfUnhandledApplyCount"].

Definition friend_identity (method actor : string) (j : option json) : option json :=
  if nonempty actor then
    let j := if friend_as_owner method then put_str (put_str j "ownerUserID" (Some actor)) "userID" (Some actor) else j in
    if streq method "isFriend" then put_str j "userID" (Some actor) else j
  else j.

Definition friend_check (method : string) (plat : Z) (j : option json) : api unit :=
  if one_of method ["addFriend"; "addBlack"; "deleteFriend"; "removeBlack"] then require_fields j ["ownerUserID"; "friendUserID"]
  else if streq method "setFriendRemark" then require_fields j ["ownerUserID"; "friendUserID"; "remark"]
  else if streq method "isFriend" then require_fields j ["userID"; "friendUserID"]
  else if streq method "importFriend" then (if plat =? 5 then ret tt else reply admin_required)
  else ret tt.

Definition friend_filter_answer (c : api_ctx) (method : string) (plat : Z) (actor : string) (j : option json) (out : json) : json :=
  match cx_friend c with
  | Some fs =>
      if streq method "isFriend" && negb (plat =? 5) && nonempty actor then
        let fuid := or_null (jstr j "friendUserID") (jstr j "userID2") in
        let mutual := match fuid with Some _ => miku_friend_is_mutual fs (Some actor) fuid | None => false end in
        miku_ji out "isFriend" (if mutual then 1 else 0)
      else out
  | None => out
  end.

Definition friend_sync (method : string) (j : option json) (out : json) : api unit :=
  when (ae_on_blacklist E && one_of method ["addBlack"; "removeBlack"] && negb (failed out))
    (let owner := jstr j "ownerUserID" in
     let uid := or_null (jstr j "friendUserID") (jstr j "userID") in
     when (given owner && given uid)
       (emit (EvBlacklist (default "" owner) (default "" uid) (streq method "removeBlack")))) ;;;
  when (streq method "addFriend" && negb (failed out))
    (webhook_fire_json "friendAdded" [("ownerUserID", jstr j "ownerUserID"); ("friendUserID", jstr j "friendUserID")]).

Definition handle_friend : handler := fun req =>
  admit_request req ;;;
  let method := api_rpc_method req "getFriendList" in
  plat <- req_token_platform E req ;;
  actor <- req_actor E req ;;
  let j := friend_identity method actor (parse_body req) in
  friend_check method plat j ;;;
  out <- API_FRIEND_RPC E method j new_out ;;
  c <- get_ctx ;;
  let out := friend_filter_answer c method plat actor j out in
  friend_sync method j out ;;;
  answer out.

(** ** Groups *)

Definition group_identity (method actor : string) (j : option json) : option json :=
  if nonempty actor then
    if streq method "createGroup" then put_str j "ownerUserID" (Some actor)
    else if one_of method ["joinGroup"; "quitGroup"; "dismissGroup"; "transferGroupOwner"] then put_str j "userID" (Some actor)
    else if one_of method ["kickGroupMember"; "setGroupInfo"; "setGroupInfoEx"; "muteGroup"; "cancelMuteGroup"; "muteGroupMember";
                           "cancelMuteGroupMember"; "setGroupMemberInfo"] then put_str j "opUserID" (Some actor)
    else if streq method "inviteToGroup" then put_str j "fromUserID" (Some actor)
    else if one_of method ["getJoinedGroupList"; "getFullJoinGroupIDs"]
    then put_str (put_str j "userID" (Some actor)) "ownerUserID" (Some actor)
    else j
  else j.

Definition has_key (j : option json) (key : string) : bool :=
  match miku_json_get j (Some key) with Some _ => true | None => false end.

Definition group_members_only : list string :=
  ["getGroupMemberList"; "getGroupMemberUserID"; "getFullGroupMemberUserIDs"; "getGroupInfo"; "getGroupAbstractInfo";
   "getIncrementalGroupMembers"; "getIncrementalGroupMemberBatch"; "getGroupApplicationList"; "getRecvGroupApplicationList";
   "getGroupApplicationUnhandledCount"].

(** The checks before the call, and the body with the lists that they filter. *)
Definition group_check (method actor : string) (j : option json) : api (option json) :=
  c <- get_ctx ;;
  if streq method "createGroup" then
    require_fields j ["ownerUserID"; "groupName"] ;;;
    let owner := jstr j "ownerUserID" in
    ret (if given owner then filter_group_invitee_ids c (default "" owner) j else j)
  else if one_of method ["joinGroup"; "quitGroup"; "dismissGroup"; "transferGroupOwner"] then
    require_fields j ["userID"; "groupID"] ;;; ret j
  else if one_of method ["inviteToGroup"; "kickGroupMember"] then
    require_fields j ["groupID"] ;;;
    if negb (has_key j "userID") && negb (has_key j "invitedUserIDs") && negb (has_key j "kickedUserIDs")
    then reply (respond 200 "{'errCode':400,'errMsg':'missing userID'}")
    else
      let j := if streq method "inviteToGroup" && nonempty actor then filter_group_invitee_ids c actor j else j in
      if streq method "kickGroupMember" && negb (has_key j "opUserID") && negb (has_key j "fromUserID") && negb (has_key j "ownerUserID")
      then reply (respond 200 "{'errCode':400,'errMsg':'missing opUserID'}")
      else ret j
  else if one_of method group_members_only then
    let gid := jstr j "groupID" in
    match cx_group c with
    | Some gs =>
        if negb (nonempty actor) || negb (given gid) || negb (miku_group_is_member gs gid (Some actor))
        then reply (respond 403 "{'errCode':3003,'errMsg':'not a group member'}")
        else ret j
    | None => ret j
    end
  else if (streq method "getIncrementalJoinGroups" || streq method "getUserReqGroupApplicationList") && nonempty actor then
    match jstr j "userID" with
    | Some uid => if streq uid actor then ret j else reply (respond 403 "{'errCode':3003,'errMsg':'userID mismatch'}")
    | None => reply (respond 403 "{'errCode':3003,'errMsg':'userID mismatch'}")
    end
  else if streq method "getGroupsInfo" && nonempty actor then ret (filter_group_id_list c actor j)
  else ret j.

(** The members of the group that is about to be dismissed. *)
Definition dismiss_snapshot (c : api_ctx) (method : string) (j : option json) : option string * list miku_group_member :=
  match cx_group c with
  | Some gs =>
      if streq method "dismissGroup" then
        let gid := jstr j "groupID" in
        (gid, match gid with Some _ => miku_group_get_members gs gid 256 | None => [] end)
      else (None, [])
  | None => (None, [])
  end.

Definition member_in (gid u : string) : api unit := emit (EvGroupMember gid u 20 false).
Definition member_out (gid u : string) : api unit := emit (EvGroupMember gid u 0 true) ;;; api_drop_group_conv u gid.

(** [f] on every string of a list in the body. *)
Definition each_id (ids : option json) (f : string -> api unit) : api unit :=
  each (fun v => match miku_json_str v with Some u => f u | None => ret tt end) (json_items ids).

Definition sync_create (j : option json) (out : json) : api unit :=
  let owner := jstr j "ownerUserID" in
  match jstr (Some out) "data" with
  | None => ret tt
  | Some gid =>
      match owner with Some o => emit (EvGroupMember gid o 100 false) | None => ret tt end ;;;
      let ids := match miku_json_get j (Some "memberUserIDs") with
                 | Some v => Some v
                 | None => miku_json_get j (Some "invitedUserIDs")
                 end in
      each_id ids (fun u => when (match owner with Some o => negb (streq u o) | None => true end) (member_in gid u))
  end.

(** [f gid uid] when the body has both fields. *)
Definition with_member (j : option json) (f : string -> string -> api unit) : api unit :=
  match jstr j "groupID", jstr j "userID" with
  | Some gid, Some uid => f gid uid
  | _, _ => ret tt
  end.

Definition with_ids (j : option json) (ids : option json) (f : string -> string -> api unit) : api unit :=
  match jstr j "groupID" with Some gid => each_id ids (f gid) | None => ret tt end.

Definition group_sync (method : string) (j : option json) (out : json) (dismissed : option string * list miku_group_member)
    : api unit :=
  when (ae_on_group_member E && negb (failed out))
    (if streq method "createGroup" then sync_create j out
     else if streq method "joinGroup" then with_member j member_in
     else if streq method "inviteToGroup" then
       with_member j member_in ;;; with_ids j (miku_json_get j (Some "invitedUserIDs")) member_in
     else if streq method "quitGroup" then with_member j member_out
     else if streq method "kickGroupMember" then
       with_member j member_out ;;;
       let ids := match miku_json_get j (Some "kickedUserIDs") with
                  | Some v => Some v
                  | None => miku_json_get j (Some "invitedUserIDs")
                  end in
       with_ids j ids member_out
     else if streq method "dismissGroup" then
       match dismissed with
       | (Some gid, l) => each (fun m => member_out gid (m_user_id m)) l
       | (None, _) => ret tt
       end
     else ret tt).

Definition group_webhook (method : string) (j : option json) (out : json) : api unit :=
  when (negb (failed out))
    (if streq method "createGroup" then
       webhook_fire_json "groupCreated" [("ownerUserID", jstr j "ownerUserID"); ("groupID", jstr (Some out) "data")]
     else if streq method "joinGroup" then
       webhook_fire_json "groupJoined" [("userID", jstr j "userID"); ("groupID", jstr j "groupID")]
     else ret tt).

Definition handle_group : handler := fun req =>
  admit_request req ;;;
  let method := api_rpc_method req "getGroupInfo" in
  actor <- req_actor E req ;;
  let j := group_identity method actor (parse_body req) in
  j <- group_check method actor j ;;
  c <- get_ctx ;;
  let dismissed := dismiss_snapshot c method j in
  out <- API_GROUP_RPC E method j new_out ;;
  group_sync method j out dismissed ;;;
  group_webhook method j out ;;;
  c <- get_ctx ;;
  answer (if nonempty actor && streq method "getGroupsInfo" then filter_groups_read_result c actor out else out).

(** ** Conversations *)

(** The caller is the owner. *)
Definition conv_identity (actor : string) (j : option json) : option json :=
  if nonempty actor then put_str (put_str j "ownerUserID" (Some actor)) "userID" (Some actor) else j.

Definition conv_check (method actor : string) (j : option json) : api unit :=
  (if one_of method ["setConversation"; "deleteConversation"] then
     require_fields j ["conversationID"] ;;;
     let owner := or_empty (jstr j "ownerUserID") (jstr j "userID") in
     if given owner then ret tt
     else reply (respond 400 "{'errCode':400,'errMsg':'missing required fields: userID or ownerUserID'}")
   else ret tt) ;;;
  c <- get_ctx ;;
  if conv_mutates method && api_conv_ids_denied c actor j then reply not_participant else ret tt.

Definition handle_conv : handler := fun req =>
  admit_request req ;;;
  let method := api_rpc_method req "getConversation" in
  actor <- req_actor E req ;;
  let j := conv_identity actor (parse_body req) in
  conv_check method actor j ;;;
  out <- API_CONV_RPC E method j new_out ;;
  c <- get_ctx ;;
  answer (if conv_is_read method && nonempty actor then
            let out := filter_conv_read_result c actor out in
            if streq method "getTotalUnreadMsgCount" then filter_conv_unread_count c actor out else out
          else out).

Definition handle_jssdk : handler := fun req =>
  admit_request req ;;;
  let path := api_req_path req 128 in
  let method := if streq path "/jssdk/get_active_conversations" then "getActiveConversations" else "getConversations" in
  actor <- req_actor E req ;;
  let j := conv_identity actor (parse_body req) in
  out <- API_CONV_RPC E method j new_out ;;
  c <- get_ctx ;;
  answer (filter_conv_read_result c actor out).

(** ** Objects *)

Definition path_keys : list string := ["name"; "key"; "filePath"; "objectName"].

(** The first of the keys whose value is a string. *)
Definition obj_path (j : option json) : option string := head (omap (jstr j) path_keys).

Definition acl_methods : list string :=
  ["deleteObject"; "accessURL"; "getDownloadURL"; "getObjectInfo"; "initiateMultipartUpload"; "completeMultipartUpload";
   "authSign"; "completeFormData"; "initiateFormData"].

(** [path] starts with the actor's name and a slash. *)
Definition under_actor (actor path : string) : bool := prefixed actor path && prefixed "/" (sdrop (String.length actor) path).

Definition third_check (method actor : string) (j : option json) : api unit :=
  let path := obj_path j in
  if one_of method acl_methods && negb (given path)
  then reply (respond 403 "{'errCode':3003,'errMsg':'object path required'}")
  else if given path && negb (under_actor actor (default "" path))
  then reply (respond 403 "{'errCode':3003,'errMsg':'object access denied'}")
  else ret tt.

Definition handle_third : handler := fun req =>
  admit_request req ;;;
  let method := api_rpc_method req "getUploadToken" in
  (if streq method "getPrometheus" then require_admin E req else ret tt) ;;;
  (if one_of method ["searchLogs"; "deleteLogs"; "uploadLogs"] then require_admin E req else ret tt) ;;;
  actor <- req_actor E req ;;
  let j := parse_body req in
  let j := if nonempty actor && negb (streq method "getPrometheus") then put_str j "userID" (Some actor) else j in
  when (nonempty actor) (third_check method actor j) ;;;
  out <- API_THIRD_RPC E method j new_out ;;
  answer out.

(** ** Administration *)

Definition stats_out (s : stats_snapshot) : json :=
  let out := err_out new_out 0 in
  let out := miku_ji out "requestsTotal" (st_requests_total s) in
  let out := miku_ji out "requestsFailed" (st_requests_failed s) in
  let out := miku_ji out "connectionsActive" (st_connections_active s) in
  let out := miku_ji out "connectionsTotal" (st_connections_total s) in
  let out := miku_ji out "bytesSent" (st_bytes_sent s) in
  let out := miku_ji out "bytesRecv" (st_bytes_recv s) in
  let out := miku_ji out "uptimeMs" (st_uptime_ms s) in
  miku_jss out "service" (Some (st_service_name s)).

Definition handle_admin : handler := fun req =>
  let path := api_req_path req 128 in
  when (negb (streq path "/admin/health")) (verify_token E req ;;; require_admin E req) ;;;
  answer (if streq path "/admin/stats" then stats_out (ae_stats E)
          else if streq path "/admin/health" then miku_jss (miku_ji new_out "status" 0) "message" (Some "ok")
          else if streq path "/admin/shutdown" then miku_jss (err_out new_out 0) "message" (Some "shutdown scheduled")
          else err_out new_out 404).

(** One metric of the text exposition format. *)
Definition metric (name help kind : string) (v : Z) : text :=
  let nl := ["010"%char] in
  str "# HELP " ++ str name ++ str " " ++ str help ++ nl ++ str "# TYPE " ++ str name ++ str " " ++ str kind ++ nl ++
  str name ++ str " " ++ fmt_lld v ++ nl.

Definition metrics_text (s : stats_snapshot) : text :=
  metric "miku_requests_total" "Total requests processed" "counter" (st_requests_total s) ++
  metric "miku_requests_failed" "Total failed requests" "counter" (st_requests_failed s) ++
  metric "miku_connections_active" "Currently active connections" "gauge" (st_connections_active s) ++
  metric "miku_connections_total" "Total connections opened" "counter" (st_connections_total s) ++
  metric "miku_bytes_sent" "Total bytes sent" "counter" (st_bytes_sent s) ++
  metric "miku_bytes_recv" "Total bytes received" "counter" (st_bytes_recv s) ++
  metric "miku_uptime_ms" "Service uptime in milliseconds" "gauge" (st_uptime_ms s).

Definition handle_metrics : handler := fun req =>
  verify_token E req ;;; require_admin E req ;;;
  ret (HttpResponse 200 (snprintf 2048 (metrics_text (ae_stats E))).1).

(** ** Batches *)

(** The answer array holds values that the destruction of each [r] has freed:
    printing it is undefined as soon as one user was found. *)
Definition batch_user (plat : Z) (actor : string) (uid : option string) : api bool :=
  c <- get_ctx ;;
  if negb (api_may_view_user c plat (Some actor) uid) then ret false
  else
    let get := jset new_out "userID" (miku_json_create_str (Some (default "" uid))) in
    r <- API_USER_RPC E "getUserInfo" (Some get) new_out ;;
    ret (negb (failed r) && has_key (Some r) "data").

Fixpoint batch_users (plat : Z) (actor : string) (l : list (option json)) : api bool :=
  match l with
  | [] => ret false
  | v :: l' =>
      b <- batch_user plat actor (miku_json_str v) ;;
      b' <- batch_users plat actor l' ;;
      ret (b || b')
  end.

Definition handle_batch : handler := fun req =>
  admit_request req ;;;
  let j := parse_body req in
  let path := api_req_path req 128 in
  if streq path "/batch/get_users_info" then
    plat <- req_token_platform E req ;;
    actor <- req_actor E req ;;
    found <- batch_users plat actor (json_items (miku_json_get j (Some "userIDList"))) ;;
    if found : bool then undefined else answer (jset (err_out new_out 0) "data" miku_json_create_array)
  else if streq path "/batch/delete_friend" then
    actor <- req_actor E req ;;
    let j := if nonempty actor then put_str j "ownerUserID" (Some actor) else j in
    r <- API_FRIEND_RPC E "deleteFriend" j new_out ;;
    (* [out] keeps the value that the destruction of [r] frees; without one it
       keeps a NULL, printed as null *)
    if has_key (Some r) "errCode" then undefined else answer (jset new_out "errCode" miku_json_create_null)
  else answer (err_out new_out 404).

(** ** Other routes *)

Definition handle_version : handler := fun _ =>
  let '(version, git, date) := ae_version E in
  answer (miku_jss (miku_jss (miku_jss new_out "version" (Some version)) "gitHash" (Some git)) "buildDate" (Some date)).

Definition handle_statistics : handler := fun req =>
  verify_token E req ;;; require_admin E req ;;;
  let path := api_req_path req 128 in
  let method := if streq path "/statistics/user/active" then "getActiveUser"
                else if streq path "/statistics/user/register" then "userRegisterCount"
                else if streq path "/statistics/group/active" then "getActiveGroup"
                else if streq path "/statistics/group/create" then "groupCreateCount"
                else "userRegisterCount" in
  answer (miku_ji (miku_jss (err_out new_out 0) "method" (Some method)) "count" 0).

Definition handle_prometheus_discovery : handler := fun req =>
  verify_token E req ;;; require_admin E req ;;;
  let item := miku_jss new_out "targets" (Some "127.0.0.1:10002") in
  answer (jset new_out "targets" (jpush miku_json_create_array item)).

Definition handle_config : handler := fun req =>
  verify_token E req ;;; require_admin E req ;;;
  let path := api_req_path req 128 in
  let method := if streq path "/config/get_config_list" then "getConfigList"
                else if streq path "/config/get_config" then "getConfig"
                else if streq path "/config/set_config" then "setConfig"
                else if streq path "/config/reset_config" then "resetConfig"
                else if streq path "/config/set_enable_config_manager" then "setEnableConfigManager"
                else if streq path "/config/get_enable_config_manager" then "getEnableConfigManager"
                else "getConfigList" in
  answer (miku_jss (err_out new_out 0) "method" (Some method)).

Definition handle_restart : handler := fun req =>
  verify_token E req ;;; require_admin E req ;;;
  answer (miku_jss (err_out new_out 0) "message" (Some "restart scheduled")).
End Handlers.
