(* ===== verification/ApiMsg.v ===== *)
(** * API gateway: the message routes and the router (gateway/api/miku_api.c)

    [handle_msg] with its checks, and the table of routes. *)
From Stdlib Require Import Ascii String.
From S2P Require Import Prelude Hash ProbeIndex KeyedMap ChainIndex OwnedTable Json JsonText JsonEscape Models RpcNames RateLimit.
From S2P Require Import Friend FriendRpc Group GroupRpc ObjectStore Third User ImMessage Token Auth Atomic MsgService MsgRpc.
From S2P Require Import Conversation ApiCore ApiGate ApiHandlers.
#[local] Open Scope string_scope.
#[local] Open Scope list_scope.
#[local] Open Scope Z_scope.
#[local] Open Scope api_scope.

Definition msg_user_methods : list string :=
  ["deleteMsg"; "revokeMsg"; "deleteMsgPhysical"; "deleteMsgPhysicalBySeq"; "userClearAllMsg"; "clearConversationMsg";
   "markConversationAsRead"; "setConversationHasReadSeq"; "markMsgsAsRead"; "markMsgAsRead"; "getMsg"; "checkMsgIsSendSuccess";
   "getSendMsgStatus"; "getMsgByConv"; "pullMsgBySeq"; "getMsgBySeq"; "searchMsg"; "getNewestSeq";
   "getConversationsHasReadAndMaxSeq";
   "setMessageReactionExtensions"; "getMessageListReactionExtensions"; "addMessageReactionExtensions";
   "deleteMessageReactionExtensions"].

Definition msg_identity (method actor : string) (j : option json) : option json :=
  if nonempty actor then
    if one_of method ["sendMsg"; "sendSimpleMsg"; "send"; "sendBusinessNotification"] then put_str j "sendID" (Some actor)
    else if one_of method msg_user_methods then put_str j "userID" (Some actor)
    else j
  else j.

Section Msg.
Context (E : api_env).

Definition is_admin (req : http_request) : api bool := p <- req_token_platform E req ;; ret (p =? 5).

(** ** Checks *)

(** The gates of a message to [recvID] or [groupID]. *)
Definition send_check (req : http_request) (method : string) (j : option json) : api unit :=
  let business := streq method "sendBusinessNotification" in
  require_fields j (if business then ["sendID"] else ["sendID"; "content"]) ;;;
  let rid := jstr j "recvID" in
  let gid := jstr j "groupID" in
  let sid := jstr j "sendID" in
  if negb (given rid) && negb (given gid)
  then reply (respond 400 "{'errCode':400,'errMsg':'missing required fields: recvID or groupID'}")
  else
    admin <- is_admin req ;;
    c <- get_ctx ;;
    match cx_friend c with
    | Some fs =>
        if given rid && negb (given gid) && negb (business && admin) then
          if negb (given sid) then reply (respond 400 "{'errCode':400,'errMsg':'missing required fields: sendID'}")
          else if negb (miku_friend_is_mutual fs sid rid) then reply (respond 403 "{'errCode':6002,'errMsg':'not mutual friends'}")
          else if miku_friend_is_black fs sid rid || miku_friend_is_black fs rid sid
          then reply (respond 403 "{'errCode':6001,'errMsg':'blocked by blacklist'}")
          else ret tt
        else ret tt
    | None => ret tt
    end ;;;
    match cx_group c with
    | Some gs =>
        if given gid && (negb (given sid) || negb (miku_group_is_member gs gid sid))
        then reply (respond 403 "{'errCode':3003,'errMsg':'not a group member'}")
        else ret tt
    | None => ret tt
    end.

(** The caller takes part in the conversation of the body, else [r]. *)
Definition conv_participant (actor : string) (j : option json) (r : http_response) : api unit :=
  c <- get_ctx ;;
  if negb (nonempty actor) || negb (api_may_access_conv c (Some actor) (jstr j "conversationID")) then reply r else ret tt.

(** The caller may delete the message [clientMsgID]. *)
Definition delete_check (actor : string) (j : option json) : api unit :=
  require_fields j ["userID"; "clientMsgID"] ;;;
  let cmid := jstr j "clientMsgID" in
  if negb (nonempty actor) || negb (given cmid) then reply forbidden
  else
    c <- get_ctx ;;
    match cx_msg_svc c with
    | Some _ =>
        ok <- run_world (miku_msg_may_delete_physical (Some actor) cmid) ;;
        if ok : bool then ret tt else reply forbidden
    | None => ret tt
    end.

Definition search_check (req : http_request) (actor : string) (j : option json) : api unit :=
  require_fields j ["keyword"] ;;;
  let cid := jstr j "conversationID" in
  admin <- is_admin req ;;
  if negb admin && negb (given cid) then reply no_data
  else if given cid then conv_participant actor j no_data
  else ret tt.

Definition read_check (method actor : string) (j : option json) : api unit :=
  require_fields j ["conversationID"] ;;;
  conv_participant actor j no_data ;;;
  if streq method "getMsgBySeq" && (jint j "seq" <=? 0)
  then reply (respond 400 "{'errCode':400,'errMsg':'missing required fields: seq'}")
  else ret tt.

Definition mark_check (method actor : string) (j : option json) : api unit :=
  require_fields j ["conversationID"] ;;;
  conv_participant actor j not_participant ;;;
  if streq method "clearConversationMsg" && prefixed "sg_" (default "" (jstr j "conversationID"))
  then reply (respond 403 "{'errCode':3003,'errMsg':'group history cannot be cleared'}")
  else ret tt.

Definition status_check (actor : string) (j : option json) : api unit :=
  if negb (given (jstr j "serverMsgID")) && negb (given (jstr j "clientMsgID"))
  then reply (respond 400 "{'errCode':400,'errMsg':'missing required fields: serverMsgID or clientMsgID'}")
  else if nonempty actor then ret tt else reply unauthorized.

Definition delete_seq_check (actor : string) (j : option json) : api unit :=
  require_fields j ["userID"; "conversationID"; "seq"] ;;;
  let cid := jstr j "conversationID" in
  c <- get_ctx ;;
  if negb (nonempty actor) || negb (given cid) || negb (api_may_access_conv c (Some actor) cid) then reply forbidden
  else
    match cx_msg_svc c with
    | Some _ =>
        ok <- run_world (miku_msg_may_delete_physical_by_seq (Some actor) cid (jint j "seq")) ;;
        if ok : bool then ret tt else reply forbidden
    | None => ret tt
    end.

(** The administrator's requests carry the platform and the token that the
    message service verifies again. *)
Definition forward_token (req : http_request) (method : string) (j : option json) : api (option json) :=
  if one_of method ["cleanUpMsg"; "batchSendMsg"; "sendBusinessNotification"] then
    p <- req_token_platform E req ;;
    c <- get_ctx ;;
    let j := put_int j "platformID" p in
    ret (if ra_valid (cx_auth c) && nonempty (ra_token (cx_auth c)) then put_str j "token" (Some (ra_token (cx_auth c))) else j)
  else ret j.

Definition msg_check (req : http_request) (method actor : string) (j : option json) : api unit :=
  (if streq method "sendBusinessNotification" && negb (given (jstr j "groupID")) then require_admin E req else ret tt) ;;;
  if one_of method ["sendMsg"; "sendSimpleMsg"; "send"; "sendBusinessNotification"] then send_check req method j
  else if one_of method ["deleteMsg"; "revokeMsg"] then delete_check actor j
  else if streq method "searchMsg" then search_check req actor j
  else if one_of method ["getMsgByConv"; "pullMsgBySeq"; "getMsgBySeq"] then read_check method actor j
  else if streq method "getNewestSeq" then
    require_fields j ["conversationID"] ;;; conv_participant actor j (respond 200 "{'errCode':0,'seq':0}")
  else if one_of method ["markConversationAsRead"; "setConversationHasReadSeq"; "markMsgsAsRead"; "markMsgAsRead";
                         "clearConversationMsg"] then mark_check method actor j
  else if streq method "userClearAllMsg" then
    require_fields j ["userID"] ;;; if nonempty actor then ret tt else reply unauthorized
  else if streq method "getMsg" then
    require_fields j ["serverMsgID"] ;;; if nonempty actor then ret tt else reply no_data
  else if one_of method ["getSendMsgStatus"; "checkMsgIsSendSuccess"] then status_check actor j
  else if streq method "getConversationsHasReadAndMaxSeq" then
    require_fields j ["userID"] ;;; if nonempty actor then ret tt else reply unauthorized
  else if one_of method ["setMessageReactionExtensions"; "addMessageReactionExtensions"; "deleteMessageReactionExtensions";
                         "getMessageListReactionExtensions"] then
    require_fields j ["conversationID"] ;;; conv_participant actor j not_participant
  else if one_of method ["cleanUpMsg"; "batchSendMsg"] then require_admin E req
  else if streq method "deleteMsgPhysical" then delete_check actor j
  else if streq method "deleteMsgPhysicalBySeq" then delete_seq_check actor j
  else ret tt.

(** ** After the call *)

Definition msg_filter_answer (c : api_ctx) (method actor : string) (out : json) : json :=
  if nonempty actor then
    let out := if one_of method ["getMsg"; "getMsgBySeq"; "searchMsg"; "getMsgByConv"] then filter_msg_read_result c actor out else out in
    if streq method "getConversationsHasReadAndMaxSeq" then filter_conv_read_result c actor out else out
  else out.

Definition upsert_conv_on_send (owner cid : string) (conv_type : Z) (peer group : option string) (send_time : Z)
    (content : option string) (bump_unread : bool) : api unit :=
  put_ctx (fun c => set_conv_svc
    (miku_conv_touch_on_send (cx_conv c) (Some owner) (Some cid) conv_type peer group send_time content bump_unread) c).

Definition upsert_group_member_conv (cid gid send_id : string) (send_time : Z) (content : option string) (user_id : string) : api unit :=
  upsert_conv_on_send user_id cid MK_IM_CONV_GROUP None (Some gid) send_time content (negb (streq user_id send_id)).

(** The conversations of the participants after a successful send. *)
Definition upsert_convs (j : option json) (out : json) : api unit :=
  let content := jstr j "content" in
  let send_time := jint (Some out) "sendTime" in
  c <- get_ctx ;;
  match jstr j "sendID", cx_conv_svc c with
  | Some sid, Some _ =>
      if given (jstr j "groupID") then
        let gid := default "" (jstr j "groupID") in
        let cid := miku_conversation_id_resolve 128 None (Some gid) (Some sid) None in
        match cx_group c with
        | Some gs => each (fun um => upsert_group_member_conv cid gid sid send_time content um.1)
                       (miku_group_foreach_member gs (Some gid))
        | None => ret tt
        end ;;;
        upsert_conv_on_send sid cid MK_IM_CONV_GROUP None (Some gid) send_time content false
      else if given (jstr j "recvID") then
        let rid := default "" (jstr j "recvID") in
        let cid := miku_conversation_id_resolve 128 None None (Some sid) (Some rid) in
        upsert_conv_on_send sid cid MK_IM_CONV_SINGLE (Some rid) None send_time content false ;;;
        upsert_conv_on_send rid cid MK_IM_CONV_SINGLE (Some sid) None send_time content true
      else ret tt
  | _, _ => ret tt
  end.

(** The message that the gateway's callback receives. *)
Definition im_type (m : miku_im_msg) (conv_type content_type : Z) : miku_im_msg :=
  ImMsg (im_msg_id m) (im_client_msg_id m) (im_send_id m) (im_recv_id m) (im_group_id m) (im_conversation_id m) content_type
        conv_type (im_seq m) (im_send_time m) (im_create_time m) (im_sender_platform m) (im_content m) (im_sender_nickname m)
        (im_sender_face_url m) (im_is_read m) (im_status m).
Definition im_sent (m : miku_im_msg) (msg_id : string) (send_time : Z) : miku_im_msg :=
  ImMsg msg_id (im_client_msg_id m) (im_send_id m) (im_recv_id m) (im_group_id m) (im_conversation_id m) (im_content_type m)
        (im_conversation_type m) (im_seq m) send_time (im_create_time m) (im_sender_platform m) (im_content m)
        (im_sender_nickname m) (im_sender_face_url m) (im_is_read m) (im_status m).

Definition sent_im (j : option json) (out : json) (im : miku_im_msg) : miku_im_msg :=
  let send_time := jint (Some out) "sendTime" in
  let conv_type := if negb (im_conversation_type im =? 0) then im_conversation_type im
                   else if nonempty (im_group_id im) then MK_IM_CONV_GROUP
                   else if nonempty (im_recv_id im) then MK_IM_CONV_SINGLE
                   else im_conversation_type im in
  let content_type := if im_content_type im <=? 0 then
                        let mt := jint j "msgType" in if 0 <? mt then i32 mt else MK_IM_MSG_TYPE_TEXT
                      else im_content_type im in
  let smid := jstr (Some out) "serverMsgID" in
  im_sent (im_type im conv_type content_type)
          (if given smid then strn 63 (default "" smid) else im_msg_id im)
          (if 0 <? send_time then send_time else im_send_time im).

(** What the callback returned goes into the answer and the stored message. *)
Definition deliver (j : option json) (out : json) (im : miku_im_msg) : api json :=
  let out := if 0 <? im_seq im then miku_ji out "seq" (im_seq im) else out in
  let out := if 0 <? im_send_time im then miku_ji out "sendTime" (im_send_time im) else out in
  let out := if nonempty (im_msg_id im) then miku_jss out "serverMsgID" (Some (im_msg_id im)) else out in
  c <- get_ctx ;;
  match cx_msg_svc c with
  | Some _ =>
      if nonempty (im_client_msg_id im) && ((0 <? im_seq im) || nonempty (im_msg_id im)) && given (jstr j "sendID")
      then run_world (miku_msg_update_delivery (jstr j "sendID") (Some (im_client_msg_id im)) (im_seq im)
                        (Some (im_msg_id im)) (im_send_time im)) ;;; ret out
      else ret out
  | None => ret out
  end.

Definition push_sent (j : option json) (out : json) : api json :=
  match ae_on_msg_sent E with
  | None => ret out
  | Some on_msg_sent =>
      match miku_im_msg_from_json j with
      | None => undefined
      | Some im =>
          match on_msg_sent (sent_im j out im) with
          | Some im' => deliver j out im'
          | None => ret out
          end
      end
  end.

Definition after_send (method : string) (j : option json) (out : json) : api json :=
  if one_of method ["sendMsg"; "sendSimpleMsg"; "send"] && negb (failed out)
  then upsert_convs j out ;;; push_sent j out
  else ret out.

(** Marking as read clears the unread count of the caller's conversation. *)
Definition after_mark (method : string) (j : option json) (out : json) : api unit :=
  when (one_of method ["markConversationAsRead"; "setConversationHasReadSeq"; "markMsgsAsRead"] && negb (failed out))
    (let owner := or_empty (jstr j "userID") (jstr j "ownerUserID") in
     let cid := jstr j "conversationID" in
     c <- get_ctx ;;
     match cx_conv_svc c with
     | Some cs =>
         if given owner && given cid then
           match miku_conv_get cs owner cid with
           | (0, Some cv) => put_ctx (set_conv_svc (miku_conv_update cs (Some (set_unread 0 cv))).2)
           | _ => ret tt
           end
         else ret tt
     | None => ret tt
     end).

Definition msg_webhook (method : string) (j : option json) (out : json) : api unit :=
  when (negb (failed out))
    (if one_of method ["sendMsg"; "sendSimpleMsg"; "send"] then
       webhook_fire_json "msgSent" [("sendID", jstr j "sendID"); ("recvID", jstr j "recvID"); ("groupID", jstr j "groupID");
                                    ("serverMsgID", jstr (Some out) "serverMsgID")]
     else if streq method "revokeMsg" then webhook_fire_json "msgRevoked" [("clientMsgID", jstr j "clientMsgID")]
     else ret tt).

Definition handle_msg : handler := fun req =>
  admit_request E req ;;;
  let method := api_rpc_method req "sendMsg" in
  actor <- req_actor E req ;;
  let j := msg_identity method actor (parse_body req) in
  msg_check req method actor j ;;;
  j <- forward_token req method j ;;
  out <- API_MSG_RPC E method j new_out ;;
  c <- get_ctx ;;
  let out := msg_filter_answer c method actor out in
  out <- after_send method j out ;;
  after_mark method j out ;;;
  msg_webhook method j out ;;;
  answer out.
End Msg.

(** ** Routes *)

Inductive route_group :=
  | RAuth | RUser | RFriend | RGroup | RConv | RMsg | RThird | RBatch | RAdmin | RMetrics | RVersion | RStatistics | RJssdk
  | RPrometheus | RConfig | RRestart.

Definition route_handler (E : api_env) (r : route_group) : handler :=
  match r with
  | RAuth => handle_auth E | RUser => handle_user E | RFriend => handle_friend E | RGroup => handle_group E
  | RConv => handle_conv E | RMsg => handle_msg E | RThird => handle_third E | RBatch => handle_batch E
  | RAdmin => handle_admin E | RMetrics => handle_metrics E | RVersion => handle_version E | RStatistics => handle_statistics E
  | RJssdk => handle_jssdk E | RPrometheus => handle_prometheus_discovery E | RConfig => handle_config E | RRestart => handle_restart E
  end.

(** The routes in the order of their registration. *)
Definition miku_api_register_routes : list (string * string * route_group) :=
  [("POST", "/auth/user_token", RAuth); ("POST", "/auth/parse_token", RAuth); ("POST", "/auth/admin_token", RAuth);
   ("POST", "/auth/force_logout", RAuth); ("POST", "/auth/force_logout_all", RAuth); ("POST", "/user/register", RUser);
   ("POST", "/user/get_users_info", RUser); ("POST", "/user/update_user_info", RUser); ("POST", "/user/account_check", RUser);
   ("POST", "/user/get_all_users", RUser); ("POST", "/user/count", RUser); ("POST", "/user/search", RUser);
   ("POST", "/user/get_users_online_status", RUser); ("POST", "/user/set_global_recv_opt", RUser);
   ("POST", "/user/get_global_recv_opt", RUser); ("POST", "/user/update_user_status", RUser);
   ("POST", "/user/process_user_command", RUser); ("POST", "/user/get_user_status", RUser);
   ("POST", "/user/get_subscribe_users_status", RUser); ("POST", "/user/subscribe_or_cancel_user_status", RUser);
   ("POST", "/user/set_user_status", RUser); ("POST", "/user/update_user_info_ex", RUser);
   ("POST", "/user/get_all_users_uid", RUser); ("POST", "/user/get_users", RUser);
   ("POST", "/user/get_users_online_token_detail", RUser); ("POST", "/user/process_user_command_add", RUser);
   ("POST", "/user/process_user_command_delete", RUser); ("POST", "/user/process_user_command_update", RUser);
   ("POST", "/user/process_user_command_get", RUser); ("POST", "/user/process_user_command_get_all", RUser);
   ("POST", "/user/add_notification_account", RUser); ("POST", "/user/update_notification_account", RUser);
   ("POST", "/user/search_notification_account", RUser); ("POST", "/user/get_user_client_config", RUser);
   ("POST", "/user/set_user_client_config", RUser); ("POST", "/user/del_user_client_config", RUser);
   ("POST", "/user/page_user_client_config", RUser); ("POST", "/friend/add", RFriend); ("POST", "/friend/delete", RFriend);
   ("POST", "/friend/get_friend_list", RFriend); ("POST", "/friend/is_friend", RFriend);
   ("POST", "/friend/add_black", RFriend); ("POST", "/friend/remove_black", RFriend);
   ("POST", "/friend/get_black_list", RFriend); ("POST", "/friend/delete_friend", RFriend);
   ("POST", "/friend/get_friend_apply_list", RFriend); ("POST", "/friend/get_self_apply_list", RFriend);
   ("POST", "/friend/get_designated_apply", RFriend); ("POST", "/friend/accept_apply", RFriend);
   ("POST", "/friend/refuse_apply", RFriend); ("POST", "/friend/import_friend", RFriend);
   ("POST", "/friend/sync_friend", RFriend); ("POST", "/friend/add_friend_response", RFriend);
   ("POST", "/friend/set_friend_remark", RFriend); ("POST", "/friend/get_designated_friends", RFriend);
   ("POST", "/friend/get_specified_blacks", RFriend); ("POST", "/friend/get_incremental_blacks", RFriend);
   ("POST", "/friend/get_incremental_friends", RFriend); ("POST", "/friend/get_friend_id", RFriend);
   ("POST", "/friend/get_specified_friends_info", RFriend); ("POST", "/friend/update_friends", RFriend);
   ("POST", "/friend/get_full_friend_user_ids", RFriend); ("POST", "/friend/get_self_unhandled_apply_count", RFriend);
   ("POST", "/group/create", RGroup); ("POST", "/group/get_group_info", RGroup); ("POST", "/group/get_groups_info", RGroup);
   ("POST", "/group/set_group_info", RGroup); ("POST", "/group/get_group_member_list", RGroup);
   ("POST", "/group/get_group_member_user_id", RGroup); ("POST", "/group/set_group_member_info", RGroup);
   ("POST", "/group/invite", RGroup); ("POST", "/group/join", RGroup); ("POST", "/group/quit", RGroup);
   ("POST", "/group/dismiss", RGroup); ("POST", "/group/mute", RGroup); ("POST", "/group/cancel_mute", RGroup);
   ("POST", "/group/kick", RGroup); ("POST", "/group/transfer", RGroup); ("POST", "/group/get_joined_group_list", RGroup);
   ("POST", "/group/get_group_applicant_list", RGroup); ("POST", "/group/get_group_application_list", RGroup);
   ("POST", "/group/accept_group_application", RGroup); ("POST", "/group/refuse_group_application", RGroup);
   ("POST", "/group/mute_member", RGroup); ("POST", "/group/cancel_mute_member", RGroup);
   ("POST", "/group/set_group_info_ex", RGroup); ("POST", "/group/get_recv_group_applicationList", RGroup);
   ("POST", "/group/get_user_req_group_applicationList", RGroup);
   ("POST", "/group/get_group_users_req_application_list", RGroup);
   ("POST", "/group/get_specified_user_group_request_info", RGroup); ("POST", "/group/get_group_abstract_info", RGroup);
   ("POST", "/group/get_groups", RGroup); ("POST", "/group/get_incremental_join_groups", RGroup);
   ("POST", "/group/get_incremental_group_members", RGroup); ("POST", "/group/get_incremental_group_members_batch", RGroup);
   ("POST", "/group/get_full_group_member_user_ids", RGroup); ("POST", "/group/get_full_join_group_ids", RGroup);
   ("POST", "/group/get_group_application_unhandled_count", RGroup); ("POST", "/conversation/get_all", RConv);
   ("POST", "/conversation/get_conv", RConv); ("POST", "/conversation/set", RConv);
   ("POST", "/conversation/get_all_conversations", RConv); ("POST", "/conversation/set_conversations", RConv);
   ("POST", "/conversation/delete_conversation", RConv); ("POST", "/conversation/get_conversation_list", RConv);
   ("POST", "/conversation/get_conversations", RConv); ("POST", "/conversation/get_total_unread", RConv);
   ("POST", "/conversation/set_conversation_min_seq", RConv); ("POST", "/conversation/mark_as_read", RConv);
   ("POST", "/conversation/clear_conv_msg", RConv); ("POST", "/conversation/pin_conversation", RConv);
   ("POST", "/conversation/get_sorted_conversation_list", RConv); ("POST", "/conversation/get_full_conversation_ids", RConv);
   ("POST", "/conversation/get_incremental_conversations", RConv); ("POST", "/conversation/get_owner_conversation", RConv);
   ("POST", "/conversation/get_not_notify_conversation_ids", RConv);
   ("POST", "/conversation/get_pinned_conversation_ids", RConv); ("POST", "/conversation/delete_conversations", RConv);
   ("POST", "/conversation/update_conversations_by_user", RConv); ("POST", "/msg/send", RMsg); ("POST", "/msg/get", RMsg);
   ("POST", "/msg/revoke", RMsg); ("POST", "/msg/send_msg", RMsg); ("POST", "/msg/get_msg", RMsg);
   ("POST", "/msg/get_server_time", RMsg); ("POST", "/msg/get_send_status", RMsg); ("POST", "/msg/clean_up", RMsg);
   ("POST", "/msg/delete_msg", RMsg); ("POST", "/msg/batch_send", RMsg); ("POST", "/msg/mark_as_read", RMsg);
   ("POST", "/msg/get_by_seq", RMsg); ("POST", "/msg/set_message_reaction_extensions", RMsg);
   ("POST", "/msg/get_message_list_reaction_extensions", RMsg); ("POST", "/msg/add_message_reaction_extensions", RMsg);
   ("POST", "/msg/delete_message_reaction_extensions", RMsg); ("POST", "/msg/newest_seq", RMsg);
   ("POST", "/msg/search_msg", RMsg); ("POST", "/msg/send_business_notification", RMsg);
   ("POST", "/msg/pull_msg_by_seq", RMsg); ("POST", "/msg/mark_msgs_as_read", RMsg);
   ("POST", "/msg/mark_conversation_as_read", RMsg); ("POST", "/msg/get_conversations_has_read_and_max_seq", RMsg);
   ("POST", "/msg/set_conversation_has_read_seq", RMsg); ("POST", "/msg/clear_conversation_msg", RMsg);
   ("POST", "/msg/user_clear_all_msg", RMsg); ("POST", "/msg/delete_msg_phsical_by_seq", RMsg);
   ("POST", "/msg/delete_msg_physical", RMsg); ("POST", "/msg/send_simple_msg", RMsg);
   ("POST", "/msg/check_msg_is_send_success", RMsg); ("POST", "/third/upload_token", RThird);
   ("POST", "/third/download_url", RThird); ("POST", "/third/access_url", RThird); ("POST", "/third/delete_object", RThird);
   ("POST", "/third/initiate_multipart", RThird); ("POST", "/third/complete_multipart", RThird);
   ("POST", "/third/get_upload_info", RThird); ("POST", "/third/get_object_info", RThird);
   ("POST", "/third/get_signal_invitation_info", RThird); ("POST", "/third/fcm_update_token", RThird);
   ("POST", "/third/set_app_badge", RThird); ("POST", "/third/logs/upload", RThird); ("POST", "/third/logs/delete", RThird);
   ("POST", "/third/logs/search", RThird); ("POST", "/third/prometheus", RThird); ("POST", "/object/part_limit", RThird);
   ("POST", "/object/part_size", RThird); ("POST", "/object/auth_sign", RThird);
   ("POST", "/object/initiate_form_data", RThird); ("POST", "/object/complete_form_data", RThird);
   ("POST", "/object/access_url", RThird); ("POST", "/object/initiate_multipart_upload", RThird);
   ("POST", "/object/complete_multipart_upload", RThird); ("POST", "/batch/get_users_info", RBatch);
   ("POST", "/batch/delete_friend", RBatch); ("POST", "/admin/stats", RAdmin); ("GET", "/admin/health", RAdmin);
   ("GET", "/admin/metrics", RMetrics); ("POST", "/admin/shutdown", RAdmin); ("GET", "/version", RVersion);
   ("POST", "/statistics/user/register", RStatistics); ("POST", "/statistics/user/active", RStatistics);
   ("POST", "/statistics/group/create", RStatistics); ("POST", "/statistics/group/active", RStatistics);
   ("POST", "/jssdk/get_conversations", RJssdk); ("POST", "/jssdk/get_active_conversations", RJssdk);
   ("GET", "/prometheus_discovery/api", RPrometheus); ("GET", "/prometheus_discovery/user", RPrometheus);
   ("GET", "/prometheus_discovery/group", RPrometheus); ("GET", "/prometheus_discovery/msg", RPrometheus);
   ("GET", "/prometheus_discovery/friend", RPrometheus); ("GET", "/prometheus_discovery/conversation", RPrometheus);
   ("GET", "/prometheus_discovery/third", RPrometheus); ("GET", "/prometheus_discovery/auth", RPrometheus);
   ("GET", "/prometheus_discovery/push", RPrometheus); ("GET", "/prometheus_discovery/msg_gateway", RPrometheus);
   ("GET", "/prometheus_discovery/msg_transfer", RPrometheus); ("POST", "/config/get_config_list", RConfig);
   ("POST", "/config/get_config", RConfig); ("POST", "/config/set_config", RConfig); ("POST", "/config/reset_config", RConfig);
   ("POST", "/config/set_enable_config_manager", RConfig); ("POST", "/config/get_enable_config_manager", RConfig);
   ("POST", "/restart", RRestart)].
