(* ===== verification/ApiLogic.v ===== *)
(** * API gateway: reasoning about handlers

    [settled]: the cached identity is the one of the request, which holds after
    the checks that every handler starts with; then asking for the identity
    again changes nothing.  [still] are the programs that on a settled context
    only read; [keeps R] are the programs whose final context is related to
    the initial one by [R]. *)
From Stdlib Require Import Ascii String.
From S2P Require Import Prelude Json JsonText JsonEscape RpcNames RateLimit Friend Group Token Auth Atomic MsgService MsgRpc.
From S2P Require Import Models OwnedTable Conversation User ObjectStore Third ImMessage ApiCore ApiGate ApiHandlers ApiMsg.
#[local] Open Scope string_scope.
#[local] Open Scope list_scope.
#[local] Open Scope Z_scope.
#[local] Open Scope api_scope.

Create HintDb api discriminated.
#[export] Hint Constants Opaque : api.

Section Logic.
Context (E : api_env) (req : http_request).
Implicit Types (c : api_ctx).

(** ** Programs that keep a relation *)

Definition keeps {A} (R : relation api_ctx) (m : api A) : Prop := forall c c' ev x, m c = Some (c', ev, x) -> R c c'.

Lemma bind_inv {A B} (m : api A) (k : A -> api B) c c' ev x :
  api_bind m k c = Some (c', ev, x) ->
  (exists r, m c = Some (c', ev, inl r) /\ x = inl r) \/
  (exists c1 ev1 ev2 a, m c = Some (c1, ev1, inr a) /\ k a c1 = Some (c', ev2, x) /\ ev = ev1 ++ ev2).
Proof.
  unfold api_bind. destruct (m c) as [[[c1 ev1] [r|a]]|]; [|destruct (k a c1) as [[[c2 ev2] y]|] eqn:Ek|]; intros; simplify_eq.
  - left. eauto.
  - right. eauto 10.
Qed.

Lemma bind_reply {A B} (m : api A) (k : A -> api B) c c1 ev r :
  m c = Some (c1, ev, inl r) -> api_bind m k c = Some (c1, ev, inl r).
Proof. unfold api_bind. by intros ->. Qed.

Lemma bind_ret {A B} (m : api A) (k : A -> api B) c c1 a :
  m c = Some (c1, [], inr a) -> api_bind m k c = k a c1.
Proof. unfold api_bind. intros ->. by destruct (k a c1) as [[[? ?] ?]|]. Qed.

Lemma bind_assoc {A B D} (m : api A) (k : A -> api B) (h : B -> api D) c :
  api_bind (api_bind m k) h c = api_bind m (fun a => api_bind (k a) h) c.
Proof.
  unfold api_bind. destruct (m c) as [[[c1 e1] [r|a]]|]; [done| |done].
  destruct (k a c1) as [[[c2 e2] [r|b]]|]; [done| |done].
  destruct (h b c2) as [[[c3 e3] x]|]; [|done]. by rewrite app_assoc.
Qed.

Section Keeps.
Context (R : relation api_ctx) `{!PreOrder R}.

Lemma keeps_ret {A} (a : A) : keeps R (ret a).
Proof. intros c c' ev x [= <- <- <-]. done. Qed.
Lemma keeps_reply {A} r : keeps R (reply (A:=A) r).
Proof. intros c c' ev x [= <- <- <-]. done. Qed.
Lemma keeps_undefined {A} : keeps R (undefined (A:=A)).
Proof. by intros c c' ev x. Qed.
Lemma keeps_get : keeps R get_ctx.
Proof. intros c c' ev x [= <- <- <-]. done. Qed.
Lemma keeps_emit e : keeps R (emit e).
Proof. intros c c' ev x [= <- <- <-]. done. Qed.
Lemma keeps_put f : (forall c, R c (f c)) -> keeps R (put_ctx f).
Proof. intros H c c' ev x [= <- <- <-]. done. Qed.
Lemma keeps_bind {A B} (m : api A) (k : A -> api B) : keeps R m -> (forall a, keeps R (k a)) -> keeps R (api_bind m k).
Proof using PreOrder0.
  intros Hm Hk c c' ev x [(r & H & _)|(c1 & e1 & e2 & a & H1 & H2 & _)]%bind_inv; [by eapply Hm|].
  etrans; [by eapply Hm|by eapply Hk].
Qed.
Lemma keeps_when b m : keeps R m -> keeps R (when b m).
Proof using PreOrder0. destruct b; [done|]. intros _. apply keeps_ret. Qed.
Lemma keeps_each {A} (f : A -> api unit) l : (forall a, keeps R (f a)) -> keeps R (each f l).
Proof using PreOrder0. intros Hf. induction l as [|a l IH]; cbn; [apply keeps_ret|]. apply keeps_bind; auto. Qed.
(** [get_ctx] whose continuation is known at that context. *)
Lemma keeps_with {A} (k : api_ctx -> api A) : (forall c c' ev x, k c c = Some (c', ev, x) -> R c c') -> keeps R (api_bind get_ctx k).
Proof using PreOrder0.
  intros Hk c c' ev x [(r & H & _)|(c1 & e1 & e2 & a & [= <- <- <-] & H2 & _)]%bind_inv; [by simplify_eq|by eapply Hk].
Qed.
End Keeps.

Lemma keeps_run R (m : api http_response) c c' ev resp : keeps R m -> api_run m c = Some (c', ev, resp) -> R c c'.
Proof. unfold api_run. intros H. destruct (m c) as [[[c1 e1] [r|r]]|] eqn:Em; intros; simplify_eq; by eapply H. Qed.

(** ** Identity *)

Definition settled c : Prop := auth_of E c req = cx_auth c.

Definition still {A} (m : api A) : Prop := forall c, settled c -> exists x, m c = Some (c, [], x).

Lemma auth_again c c1 : cx_auth c1 = auth_of E c req -> w_revokes (cx_world c1) = w_revokes (cx_world c) -> settled c1.
Proof.
  unfold settled. intros Ha Hr. unfold auth_of at 1. rewrite Ha, Hr. unfold auth_of. set (token := header_token req).
  destruct (ra_have_token (cx_auth c) && given token && streq (default "" token) (ra_token (cx_auth c))) eqn:Ec.
  - by rewrite Ec.
  - by case_match.
Qed.

Lemma set_auth_id c : set_auth (cx_auth c) c = c.
Proof. by destruct c. Qed.

Lemma still_ensure : still (req_auth_ensure E req).
Proof. intros c H. exists (inr tt). unfold req_auth_ensure, put_ctx. by rewrite H, set_auth_id. Qed.

Lemma still_ret {A} (a : A) : still (ret a).
Proof. by eexists. Qed.
Lemma still_reply {A} r : still (reply (A:=A) r).
Proof. by eexists. Qed.
Lemma still_get : still get_ctx.
Proof. by eexists. Qed.
Lemma still_bind {A B} (m : api A) (k : A -> api B) : still m -> (forall a, still (k a)) -> still (api_bind m k).
Proof.
  intros Hm Hk c S. destruct (Hm c S) as [[r|a] H].
  - exists (inl r). by apply bind_reply.
  - rewrite (bind_ret _ _ _ _ _ H). by apply Hk.
Qed.
Lemma still_when b m : still m -> still (when b m).
Proof. destruct b; [done|]. intros _. apply still_ret. Qed.

(** A program of the message service that only reads. *)
Lemma still_world {A} (p : prog world A) : (forall w, (run p w).2 = w) -> still (run_world p).
Proof.
  intros H c _. unfold run_world. specialize (H (cx_world c)). destruct (run p (cx_world c)) as [a w]. cbn in H. subst w.
  exists (inr a). by destruct c.
Qed.
End Logic.

Arguments settled E req c : clear implicits.

#[export] Hint Resolve keeps_ret keeps_reply keeps_undefined keeps_get keeps_emit keeps_when keeps_each : api.
#[export] Hint Resolve still_ret still_reply still_get still_ensure still_when : api.

#[export] Hint Extern 0 (PreOrder _) => exact _ : api.

(** Decompose a program along its structure. *)
Ltac keeps_auto :=
  repeat (cbn beta zeta;
    match goal with
    | |- keeps _ (put_ctx _) => apply keeps_put; solve [done | intros ?; done]
    | |- keeps _ (api_bind _ _) => apply keeps_bind; [exact _| |intros ?]
    | |- keeps _ (when _ _) => apply keeps_when; [exact _|]
    | |- keeps _ (each _ _) => apply keeps_each; [exact _|intros ?]
    | |- keeps _ (match ?x with _ => _ end) => destruct x
    | |- keeps _ _ => solve [auto with api]
    end).

Ltac still_auto :=
  repeat (cbn beta zeta;
    match goal with
    | |- still _ _ (api_bind _ _) => apply still_bind; [|intros ?]
    | |- still _ _ (when _ _) => apply still_when
    | |- still _ _ (match ?x with _ => _ end) => destruct x
    | |- still _ _ _ => solve [auto with api]
    end).

(** ** The checks at the start of a handler *)

Section Admission.
Context (E : api_env) (req : http_request).

(** The response to a request without a valid token. *)
Definition no_identity (a : req_auth) : bool := negb (ra_have_token a) || negb (ra_valid a).

Lemma verify_spec c : exists c' x, verify_token E req c = Some (c', [], x) /\
  (public_path (rq_path req) = true /\ c' = c /\ x = inr tt \/
   public_path (rq_path req) = false /\ c' = set_auth (auth_of E c req) c /\
   (no_identity (auth_of E c req) = true /\ (exists r, x = inl r /\ rs_status r = 401) \/
    no_identity (auth_of E c req) = false /\ x = inr tt)).
Proof.
  unfold verify_token. destruct (public_path (rq_path req)); [by eexists _, _; split; [|left]|].
  unfold req_auth_ensure. remember (auth_of E c req) as a eqn:Ea.
  rewrite (bind_ret _ _ _ (set_auth a c) tt) by (unfold put_ctx; by rewrite <- Ea).
  rewrite (bind_ret _ _ _ _ (set_auth a c)) by done. change (cx_auth (set_auth a c)) with a. unfold no_identity.
  destruct (negb (ra_have_token a) || negb (ra_valid a)); eexists _, _; (split; [done|right; split_and!; [done..|]]); eauto.
Qed.

(** The context after the rate limiter has counted the request. *)
Definition counted (c : api_ctx) : api_ctx :=
  let a := auth_of E c req in
  let key := if ra_valid a && nonempty (ra_uid a) then ra_uid a else "global" in
  set_ratelimit (miku_ratelimit_allow (cx_ratelimit c) (ae_now E) (Some key)).2 (set_auth a c).

Lemma ratelimit_spec c : exists x, check_ratelimit E req c = Some (counted c, [], x) /\
  (x = inr tt \/ exists r, x = inl r /\ rs_status r = 429).
Proof.
  unfold check_ratelimit, req_auth_ensure, counted. remember (auth_of E c req) as a eqn:Ea.
  rewrite (bind_ret _ _ _ (set_auth a c) tt) by (unfold put_ctx; by rewrite <- Ea).
  rewrite (bind_ret _ _ _ _ (set_auth a c)) by done. change (cx_auth (set_auth a c)) with a.
  change (cx_ratelimit (set_auth a c)) with (cx_ratelimit c). cbn zeta.
  destruct (miku_ratelimit_allow _ _ _) as [ok rl]. cbn [snd].
  rewrite (bind_ret _ _ _ (set_ratelimit rl (set_auth a c)) tt) by done.
  destruct (ok =? 0); eexists; (split; [done|]); eauto.
Qed.

Lemma counted_settled c : settled E req (counted c).
Proof. by apply (auth_again E req c). Qed.

(** A request that passes both checks is identified, unless its path is
    public. *)
Lemma admit_spec c : exists x, admit_request E req c = Some (counted c, [], x) /\
  ((exists r, x = inl r /\ (rs_status r = 429 \/
      rs_status r = 401 /\ public_path (rq_path req) = false /\ no_identity (auth_of E c req) = true)) \/
   x = inr tt /\ (public_path (rq_path req) = true \/ no_identity (auth_of E c req) = false)).
Proof.
  unfold admit_request. destruct (ratelimit_spec c) as (x & Ex & [->|(r & -> & Hr)]).
  2:{ exists (inl r). split; [by apply bind_reply|]. left. eauto. }
  rewrite (bind_ret _ _ _ _ _ Ex). destruct (verify_spec (counted c)) as (c' & x & Ev & H). exists x. rewrite Ev.
  rewrite (counted_settled c) in H. change (cx_auth (counted c)) with (auth_of E c req) in H.
  assert (set_auth (auth_of E c req) (counted c) = counted c) as Es by apply (set_auth_id (counted c)).
  destruct H as [(Hp & -> & ->)|(Hp & -> & [(Hn & r & -> & Hr)|(Hn & ->)])]; rewrite ?Es; (split; [reflexivity|]).
  - right. split; [reflexivity|by left].
  - left. exists r. split; [reflexivity|]. right. split_and!; [exact Hr|exact Hp|exact Hn].
  - right. split; [reflexivity|right; exact Hn].
Qed.

Lemma still_uid n : still E req (req_token_uid E req n).
Proof.
  unfold req_token_uid. destruct (rq_headers req); [|apply still_ret].
  apply still_bind; [apply still_ensure|intros []]. apply still_bind; [apply still_get|intros c]. apply still_ret.
Qed.

Lemma still_actor : still E req (req_actor E req).
Proof. apply still_bind; [apply still_uid|]. intros u. apply still_ret. Qed.

Lemma still_platform : still E req (req_token_platform E req).
Proof.
  unfold req_token_platform. destruct (rq_headers req); [|apply still_ret].
  apply still_bind; [apply still_ensure|intros []]. apply still_bind; [apply still_get|intros c]. apply still_ret.
Qed.

Lemma still_admin : still E req (require_admin E req).
Proof. apply still_bind; [apply still_platform|]. intros p. destruct (p =? 5); [apply still_ret|apply still_reply]. Qed.

Lemma still_fields j fs : still E req (require_fields j fs).
Proof. unfold require_fields. destruct (filter _ fs); [apply still_ret|apply still_reply]. Qed.

(** The identity that the handlers see. *)
Definition actor_of (a : req_auth) : string := if ra_valid a then strn 127 (ra_uid a) else "".

Lemma identified_headers c : no_identity (auth_of E c req) = false -> exists h, rq_headers req = Some h.
Proof.
  unfold auth_of, header_token. destruct (rq_headers req) as [h|]; [eauto|]. cbn. by rewrite andb_false_r.
Qed.

Lemma actor_eq c : settled E req c -> no_identity (cx_auth c) = false ->
  req_actor E req c = Some (c, [], inr (actor_of (cx_auth c))).
Proof.
  intros S Hn. rewrite <- S in Hn. destruct (identified_headers c Hn) as [h Eh]. rewrite S in Hn.
  unfold req_actor, req_token_uid. rewrite Eh. destruct (still_ensure E req c S) as [x Ex].
  assert (req_auth_ensure E req c = Some (c, [], inr tt)) as Ee.
  { unfold req_auth_ensure, put_ctx. by rewrite S, set_auth_id. }
  unfold actor_of. destruct (ra_valid (cx_auth c)) eqn:Ev.
  - rewrite (bind_ret _ _ c c (Some (strn 127 (ra_uid (cx_auth c))))); [done|].
    rewrite (bind_ret _ _ _ _ _ Ee), (bind_ret _ _ c c c) by done. by rewrite Ev.
  - unfold no_identity in Hn. rewrite Ev in Hn. by rewrite orb_true_r in Hn.
Qed.
End Admission.

#[export] Hint Resolve still_uid still_actor still_platform still_admin still_fields : api.
