(* ===== verification/ApiSafe.v ===== *)
(** * API gateway: what a request without a valid token can do *)
From Stdlib Require Import Ascii String.
From S2P Require Import Prelude Json JsonText JsonEscape RpcNames RateLimit Friend Group Token Auth Atomic MsgService MsgRpc.
From S2P Require Import Models OwnedTable Conversation User ObjectStore Third ImMessage ApiCore ApiGate ApiHandlers ApiMsg.
From S2P Require Import ApiLogic.
#[local] Open Scope string_scope.
#[local] Open Scope list_scope.
#[local] Open Scope Z_scope.
#[local] Open Scope api_scope.

(** ** Specification *)




(** ** The cached identity *)

Definition same_auth (c c' : api_ctx) : Prop := cx_auth c' = cx_auth c.

#[export] Instance same_auth_preorder : PreOrder same_auth.
Proof. split; [done|]. intros a b c. unfold same_auth. congruence. Qed.

Section Auth.
Context (E : api_env) (req : http_request).




End Auth.

(** ** No handler changes the cached identity after the checks *)

Lemma auth_run_world {A} (p : prog world A) : keeps same_auth (run_world p).
Proof. intros c c' ev x. unfold run_world. destruct (run p (cx_world c)). by intros [= <- _ _]. Qed.
#[export] Hint Resolve auth_run_world : api.

Lemma auth_put f : (forall c, cx_auth (f c) = cx_auth c) -> keeps same_auth (put_ctx f).
Proof. intros H. by apply keeps_put. Qed.

Section Phase2.
Context (E : api_env).

Lemma auth_rpc port local m j out : keeps same_auth local -> keeps same_auth (api_service_rpc E port local m j out).
Proof. intros H. unfold api_service_rpc. keeps_auto. Qed.

Lemma auth_user m j out : keeps same_auth (API_USER_RPC E m j out).
Proof. unfold API_USER_RPC. apply auth_rpc. unfold local_user. keeps_auto. Qed.
Lemma auth_friend m j out : keeps same_auth (API_FRIEND_RPC E m j out).
Proof. unfold API_FRIEND_RPC. apply auth_rpc. unfold local_friend. keeps_auto. Qed.
Lemma auth_group m j out : keeps same_auth (API_GROUP_RPC E m j out).
Proof. unfold API_GROUP_RPC. apply auth_rpc. unfold local_group. keeps_auto. Qed.
Lemma auth_conv m j out : keeps same_auth (API_CONV_RPC E m j out).
Proof. unfold API_CONV_RPC. apply auth_rpc. unfold local_conv. keeps_auto. Qed.
Lemma auth_msg m j out : keeps same_auth (API_MSG_RPC E m j out).
Proof. unfold API_MSG_RPC. apply auth_rpc, auth_run_world. Qed.
Lemma auth_third m j out : keeps same_auth (API_THIRD_RPC E m j out).
Proof.
  unfold API_THIRD_RPC. apply auth_rpc. unfold local_third. apply keeps_bind; [exact _|auto with api|intros c]. cbn zeta.
  destruct (miku_third_handle_rpc _ _ _ _ _ _); cbn [from_option]; keeps_auto.
Qed.
End Phase2.
#[export] Hint Resolve auth_user auth_friend auth_group auth_conv auth_msg auth_third : api.

Lemma auth_webhook e kvs : keeps same_auth (webhook_fire_json e kvs).
Proof. unfold webhook_fire_json. keeps_auto. Qed.
Lemma auth_drop u g : keeps same_auth (api_drop_group_conv u g).
Proof. unfold api_drop_group_conv. keeps_auto. Qed.
Lemma auth_answer out : keeps same_auth (answer out).
Proof. unfold answer. keeps_auto. Qed.
#[export] Hint Resolve auth_webhook auth_drop auth_answer : api.

(** ** Checks *)

(** Programs of the message service that only read. *)
Definition reads {A} (p : prog world A) : Prop := forall w, (run p w).2 = w.


Lemma reads_rd {A} (f : world -> A) : reads (rd f).
Proof. done. Qed.




Section Checks.
Context (E : api_env) (req : http_request).

Lemma still_participant actor j r : still E req (conv_participant actor j r).
Proof. unfold conv_participant. still_auto. Qed.
#[local] Hint Resolve still_participant : api.





End Checks.

(** ** Handlers *)

Section Routes.
Context (E : api_env) (req : http_request).


















End Routes.

(** ** The table of routes *)





Section Serve.
Context (E : api_env) (req : http_request).





End Serve.

(** ** The cached identity was verified *)









(** ** Theorems *)


(** ** Examples *)

Definition ex_env (now : Z) : api_env :=
  ApiEnv now (fun _ => now) "0123456789abcdef" None None "" ("1", "g", "d") (Stats 0 0 0 0 0 0 0 "miku-api")
         true true true None (fun _ _ _ => CallFailed).

Definition ex_token (user : string) (platform : Z) : string :=
  string_of_list_ascii (default [] (miku_token_create (Some user) platform (Some "openIM123") 512 "nonce0123456789x" 1000)).

Definition ex_request (path token : string) (body : text) : http_request :=
  HttpRequest path (Some (if nonempty token then {["token" := token]} else ∅)) body.

Definition ex_start : api_ctx := miku_api_configure_rpc no_deploy miku_api_ctx_create.

Definition ex_serve (now : Z) (r : route_group) (req : http_request) (c : api_ctx) : api_ctx * list api_event * http_response :=
  default (c, [], HttpResponse 0 []) (api_run (route_handler (ex_env now) r req) c).


(** The identity cache is not cleared: after "force logout of all devices" the
    token is revoked, and a request that carries it right after is served. *)
Theorem api_cached_after_logout :
  let tok := ex_token "alice" 1 in
  let c1 := (ex_serve 2000 RAuth (ex_request "/auth/force_logout_all" tok []) ex_start).1.1 in
  let c2 := ex_serve 3000 RConv (ex_request "/conversation/get_total_unread" tok []) c1 in
  token_identity (ex_env 3000) (w_revokes (cx_world c1)) tok = ("", -1) /\ rs_status c2.2 = 200.
Proof. vm_compute. split; reflexivity. Qed.
