(* ===== verification/ApiConv.v ===== *)
(** * API gateway: conversations of different users are isolated

    The conversation routes seen from the network: whatever the body says, a
    request reads and writes the conversations of the token's user only. *)
From Stdlib Require Import Ascii String.
From S2P Require Import Prelude Json JsonText JsonEscape JsonKeys RpcNames RateLimit Friend Group Token Auth Atomic MsgService.
From S2P Require Import MsgRpc Models OwnedTable Conversation ConversationSpec User ObjectStore Third ImMessage ApiCore ApiGate.
From S2P Require Import ApiHandlers ApiMsg ApiLogic ApiSafe.
#[local] Open Scope string_scope.
#[local] Open Scope list_scope.
#[local] Open Scope Z_scope.
#[local] Open Scope api_scope.

(** ** Request bodies *)

(** The body is an object with at most [n] pairs. *)
Definition body_obj (n : Z) (j : option json) : Prop := exists o, j = Some (JObj o) /\ obj_ix o /\ count o <= n.

Lemma body_put n j k v : body_obj n j -> n < 2 ^ 28 -> body_obj (n + 1) (put_str j k (Some v)).
Proof.
  intros (o & -> & O & Hc) Hn. destruct (obj_set_ix o k (JStr v) O) as (O' & Hc' & _); [lia|].
  exists (obj_set o k (JStr v)). split_and!; [done|done|lia].
Qed.

Lemma jstr_put n j k v k' : body_obj n j -> n < 2 ^ 28 ->
  jstr (put_str j k (Some v)) k' = if decide (k' = k) then Some v else jstr j k'.
Proof.
  intros (o & -> & O & Hc) Hn. destruct (obj_set_ix o k (JStr v) O) as (O' & _ & Hf); [lia|].
  unfold jstr, put_str. cbn [fmap option_fmap option_map]. unfold miku_jss. cbn [miku_json_object_set snd miku_json_create_str default].
  change (miku_json_str (miku_json_get (Some (JObj (obj_set o k (JStr v)))) (Some k')) =
          if decide (k' = k) then Some v else miku_json_str (miku_json_get (Some (JObj o)) (Some k'))).
  rewrite !get_ix by done. rewrite Hf. by destruct (decide (k' = k)).
Qed.

Lemma parse_body_obj req o : parse_body req = Some (JObj o) -> tlen (rq_body req) < 2 ^ 27 -> body_obj (tlen (rq_body req)) (parse_body req).
Proof.
  intros E Hb. rewrite E. exists o. split; [done|]. unfold parse_body in E. case_bool_decide as He.
  - injection E as E. rewrite He. assert (o = empty_object) as -> by (unfold miku_json_create_object in E; congruence).
    split; [apply empty_object_ix|done].
  - by apply parse_object_ix.
Qed.

(** Both identity fields name the caller. *)
Lemma conv_identity_owner a req o : parse_body req = Some (JObj o) -> tlen (rq_body req) < 2 ^ 27 -> nonempty a = true ->
  conv_req_owner (conv_identity a (parse_body req)) = Some a.
Proof.
  intros E Hb Ha. pose proof (parse_body_obj req o E Hb) as B. unfold conv_identity. rewrite Ha.
  pose proof (body_put _ _ "ownerUserID" a B ltac:(lia)) as B1. unfold conv_req_owner.
  rewrite !(jstr_put _ _ "userID" a _ B1) by lia. rewrite !(jstr_put _ _ "ownerUserID" a _ B) by lia.
  rewrite decide_False by done. rewrite decide_True by done. unfold given. by rewrite Ha.
Qed.

Lemma get_bind {A} (k : api_ctx -> api A) c : api_bind get_ctx k c = k c c.
Proof. by rewrite (bind_ret _ _ c c c). Qed.

(** ** Two gateways that differ in other users' conversations *)

Record alike (a : string) (c1 c2 : api_ctx) : Prop := {
  al_world : cx_world c1 = cx_world c2;
  al_user : cx_user c1 = cx_user c2;
  al_third : cx_third c1 = cx_third c2;
  al_ratelimit : cx_ratelimit c1 = cx_ratelimit c2;
  al_auth : cx_auth c1 = cx_auth c2;
  al_deploy : cx_deploy c1 = cx_deploy c2;
  al_sees : sees a (cx_conv c1) (cx_conv c2) }.

Lemma alike_conv a c s : sees a (cx_conv c) s -> alike a c (set_conv_svc s c).
Proof. intros H. by constructor. Qed.

Section Alike.
Context (E : api_env) (req : http_request) (a : string).

Lemma alike_auth c1 c2 : alike a c1 c2 -> auth_of E c1 req = auth_of E c2 req.
Proof. intros []. unfold auth_of. by rewrite al_auth0, al_world0. Qed.

Lemma alike_access c1 c2 cid : alike a c1 c2 -> api_may_access_conv c1 (Some a) cid = api_may_access_conv c2 (Some a) cid.
Proof.
  intros [Hw _ _ _ _ Hd Hs]. unfold api_may_access_conv, cx_friend, cx_group, cx_conv_svc, local_svc. rewrite Hw, Hd.
  destruct (_ || _); [done|]. destruct (prefixed _ _); [done|]. destruct (prefixed _ _); [done|].
  destruct (is_local _ _); [|done]. destruct cid as [i|]; [|done]. unfold miku_conv_get.
  rewrite (get_spec (cx_conv c1)) by apply Hs. rewrite (get_spec (cx_conv c2)) by apply Hs.
  by rewrite (sees_get a _ _ _ Hs).
Qed.

Lemma filter_bool_ext {A} (f g : A -> bool) (l : list A) : (forall x, f x = g x) -> filter (fun x => f x = true) l = filter (fun x => g x = true) l.
Proof. intros H. apply list_filter_iff. intros x. by rewrite H. Qed.

Lemma alike_read c1 c2 out : alike a c1 c2 -> filter_conv_read_result c1 a out = filter_conv_read_result c2 a out.
Proof.
  intros H. pose proof (fun cid => alike_access c1 c2 cid H) as Hx. unfold filter_conv_read_result. destruct (negb _); [done|].
  assert (forall v, conv_filter_keep_object c1 a v = conv_filter_keep_object c2 a v) as H1
    by (intros v; unfold conv_filter_keep_object; destruct (jstr v _); [apply Hx|done]).
  assert (forall v, conv_filter_keep_id_str c1 a v = conv_filter_keep_id_str c2 a v) as H2
    by (intros v; unfold conv_filter_keep_id_str; destruct (miku_json_str v); [apply Hx|done]).
  destruct (miku_json_get (Some out) (Some "data")) as [[]|]; try done; [|by rewrite H1].
  unfold filter_json_array_inplace. do 2 f_equal. destruct items as [|[] items]; try (by apply filter_bool_ext).
Qed.

Lemma alike_unread c1 c2 out : alike a c1 c2 -> filter_conv_unread_count c1 a out = filter_conv_unread_count c2 a out.
Proof.
  intros H. pose proof (fun cid => alike_access c1 c2 cid H) as Hx. destruct H as [_ _ _ _ _ Hd Hs].
  unfold filter_conv_unread_count, cx_conv_svc, local_svc. rewrite Hd. destruct (is_local _ _); [|done]. destruct (negb _); [done|].
  unfold miku_conv_get_all, miku_conv_get_all_nolock. rewrite (sees_chain a _ _ Hs). do 2 f_equal.
  generalize (take (Z.to_nat 512) (conv_chain (cx_conv c2) a)) as l. generalize 0 as t. intros t l. revert t.
  induction l as [|x l IH]; intros t; [done|]. cbn. rewrite Hx. apply IH.
Qed.

Lemma alike_denied c1 c2 j : alike a c1 c2 -> api_conv_ids_denied c1 a j = api_conv_ids_denied c2 a j.
Proof.
  intros H. pose proof (fun cid => alike_access c1 c2 cid H) as Hx. unfold api_conv_ids_denied. destruct (negb _); [done|].
  destruct j; [|done]. rewrite Hx. f_equal. induction (json_items _) as [|v l IH]; [done|]. cbn. by rewrite Hx, IH.
Qed.

Lemma alike_counted c1 c2 : alike a c1 c2 -> alike a (counted E req c1) (counted E req c2).
Proof. intros H. pose proof (alike_auth c1 c2 H) as Ha. destruct H. unfold counted. rewrite Ha, al_ratelimit0. by constructor. Qed.
End Alike.

Section Tail.
Context (E : api_env) (req : http_request) (a : string) (Ha : nonempty a = true) (Hf : fits 63 a).

(** What both gateways answer, and what happened to the other users. *)
Definition isolated (c1 c2 : api_ctx) (o1 o2 : option (api_ctx * list api_event * (http_response + http_response))) : Prop :=
  exists c1' c2' x, o1 = Some (c1', [], x) /\ o2 = Some (c2', [], x) /\ alike a c1' c2' /\
    forall o, o <> a -> view o (recs (cx_conv c1')) = view o (recs (cx_conv c1)).

Lemma isolated_here c1 c2 x : alike a c1 c2 -> isolated c1 c2 (Some (c1, [], x)) (Some (c2, [], x)).
Proof. intros H. by exists c1, c2, x. Qed.

Lemma conv_rpc_eq m j out c : exists f,
  API_CONV_RPC E m j out c =
    Some (if is_local (cx_deploy c) (rpc_conversation_port (cx_deploy c))
          then let r := miku_conv_handle_rpc (Some m) (cx_conv c) j out in (set_conv_svc r.1 c, [], inr r.2)
          else (c, [], inr (f (ae_remote E (rpc_conversation_port (cx_deploy c)) m j)))) /\
  f = (fun rep => match rep with
                  | BuildFailed => miku_jerr out 500 "rpc payload build failed"
                  | CallFailed => miku_jerr out 503 "rpc call failed"
                  | Reply t => match miku_json_parse_str (Some t) with
                               | None => miku_jerr out 500 "rpc response parse failed"
                               | Some r => miku_json_object_assign out r
                               end
                  end).
Proof.
  eexists. split; [|reflexivity]. unfold API_CONV_RPC, api_service_rpc. rewrite (bind_ret _ _ c c c) by reflexivity.
  destruct (is_local _ _).
  - unfold local_conv. rewrite (bind_ret _ _ c c c) by reflexivity. reflexivity.
  - destruct (ae_remote _ _ _ _); [reflexivity..|]. destruct (miku_json_parse_str _); reflexivity.
Qed.

Lemma rpc_alike m j out c1 c2 (k : json -> api http_response) : conv_req_owner j = Some a -> alike a c1 c2 ->
  room (recs (cx_conv c1)) -> room (recs (cx_conv c2)) ->
  (forall out c1' c2', alike a c1' c2' -> isolated c1' c2' (k out c1') (k out c2')) ->
  isolated c1 c2 (api_bind (API_CONV_RPC E m j out) k c1) (api_bind (API_CONV_RPC E m j out) k c2).
Proof using Hf.
  intros Hj H R1 R2 Hk. destruct (conv_rpc_eq m j out c1) as (f & E1 & ->). destruct (conv_rpc_eq m j out c2) as (f & E2 & ->).
  pose proof H as [Hw Hu Ht Hr Hau Hd Hs]. rewrite Hd in E1. destruct (is_local _ _).
  2:{ rewrite (bind_ret _ _ _ _ _ E1), (bind_ret _ _ _ _ _ E2). by apply Hk. }
  rewrite (bind_ret _ k _ (set_conv_svc (miku_conv_handle_rpc (Some m) (cx_conv c1) j out).1 c1)
             (miku_conv_handle_rpc (Some m) (cx_conv c1) j out).2) by exact E1.
  rewrite (bind_ret _ k _ (set_conv_svc (miku_conv_handle_rpc (Some m) (cx_conv c2) j out).1 c2)
             (miku_conv_handle_rpc (Some m) (cx_conv c2) j out).2) by exact E2. clear E1 E2.
  pose proof Hs as (O1 & O2 & V). destruct (rpc_does (Some m) (cx_conv c1) j out O1) as [P1 E1].
  destruct (rpc_does (Some m) (cx_conv c2) j out O2) as [P2 E2].
  pose proof (req_edits_of (Some m) j a Hj Hf) as Eo. pose proof (op_wf (ORpc (Some m) j out) I) as W. cbn [op_edit] in W.
  unfold miku_conv_handle_rpc. rewrite (rpc_answers_same (Some m) (cx_conv c1) (cx_conv c2) j out a Hs R1 R2 Hj Hf).
  destruct (Hk (conv_handle_rpc_nolock (Some m) (cx_conv c2) j out).2
              (set_conv_svc (conv_handle_rpc_nolock (Some m) (cx_conv c1) j out).1 c1)
              (set_conv_svc (conv_handle_rpc_nolock (Some m) (cx_conv c2) j out).1 c2)) as (c1' & c2' & x & K1 & K2 & K3 & K4).
  - constructor; [exact Hw|exact Hu|exact Ht|exact Hr|exact Hau|exact Hd|]. split_and!; [exact P1|exact P2|]. cbn [cx_conv set_conv_svc]. rewrite E1, E2. exact (view_edit_own a _ _ _ Eo W R1 R2 V).
  - exists c1', c2', x. split_and!; [exact K1|exact K2|exact K3|]. intros o Ho. rewrite K4 by done.
    cbn [cx_conv set_conv_svc]. rewrite E1. exact (view_edit_other a o _ _ Eo W Ho).
Qed.

Lemma check_alike m j c1 c2 (k : unit -> api http_response) : alike a c1 c2 ->
  isolated c1 c2 (k tt c1) (k tt c2) ->
  isolated c1 c2 (api_bind (conv_check m a j) k c1) (api_bind (conv_check m a j) k c2).
Proof.
  intros H Hk. assert (exists x, conv_check m a j c1 = Some (c1, [], x) /\ conv_check m a j c2 = Some (c2, [], x)) as (x & E1 & E2).
  { unfold conv_check. set (m1 := if one_of _ _ then _ else _).
    assert (exists y, forall c, m1 c = Some (c, [], y)) as (y & Ey).
    { unfold m1, require_fields. destruct (one_of _ _); [|by exists (inr tt)].
      destruct (filter _ _); [|by eexists]. destruct (given _); by eexists. }
    destruct y as [r|[]].
    - exists (inl r). split; apply bind_reply, Ey.
    - rewrite (bind_ret _ _ _ _ _ (Ey c1)), (bind_ret _ _ _ _ _ (Ey c2)). rewrite (bind_ret _ _ c1 c1 c1) by reflexivity.
      rewrite (bind_ret _ _ c2 c2 c2) by reflexivity. rewrite (alike_denied a c1 c2 j H).
      destruct (conv_mutates m && _); by eexists. }
  destruct x as [r|[]].
  - rewrite (bind_reply _ _ _ _ _ _ E1), (bind_reply _ _ _ _ _ _ E2). by apply isolated_here.
  - by rewrite (bind_ret _ _ _ _ _ E1), (bind_ret _ _ _ _ _ E2).
Qed.

Lemma answer_alike (f : api_ctx -> json) c1 c2 : alike a c1 c2 -> f c1 = f c2 ->
  isolated c1 c2 (api_bind get_ctx (fun c => answer (f c)) c1) (api_bind get_ctx (fun c => answer (f c)) c2).
Proof. intros H Hx. rewrite !get_bind. unfold answer. rewrite Hx. exact (isolated_here c1 c2 _ H). Qed.
End Tail.

Section Handlers.
Context (E : api_env) (req : http_request).

(** The checks depend on the identity and the rate limiter only. *)
Lemma admit_same c1 c2 : auth_of E c1 req = auth_of E c2 req -> cx_ratelimit c1 = cx_ratelimit c2 ->
  w_revokes (cx_world c1) = w_revokes (cx_world c2) ->
  exists x, admit_request E req c1 = Some (counted E req c1, [], x) /\ admit_request E req c2 = Some (counted E req c2, [], x).
Proof.
  intros Ha Hr Hw. unfold admit_request.
  assert (exists x, check_ratelimit E req c1 = Some (counted E req c1, [], x) /\ check_ratelimit E req c2 = Some (counted E req c2, [], x))
    as (x & E1 & E2).
  { unfold check_ratelimit, req_auth_ensure, counted. remember (auth_of E c2 req) as a eqn:Ea. rewrite Ha, Hr.
    rewrite (bind_ret _ _ c1 (set_auth a c1) tt) by (unfold put_ctx; by rewrite Ha).
    rewrite (bind_ret _ _ c2 (set_auth a c2) tt) by (unfold put_ctx; by rewrite <- Ea).
    rewrite (bind_ret _ _ _ _ (set_auth a c1)) by done. rewrite (bind_ret _ _ _ _ (set_auth a c2)) by done.
    change (cx_auth (set_auth a c1)) with a. change (cx_auth (set_auth a c2)) with a.
    change (cx_ratelimit (set_auth a c1)) with (cx_ratelimit c1). change (cx_ratelimit (set_auth a c2)) with (cx_ratelimit c2).
    rewrite Hr. cbn zeta. destruct (miku_ratelimit_allow _ _ _) as [ok rl]. cbn [snd].
    rewrite (bind_ret _ _ _ (set_ratelimit rl (set_auth a c1)) tt) by done.
    rewrite (bind_ret _ _ _ (set_ratelimit rl (set_auth a c2)) tt) by done.
    destruct (ok =? 0); by eexists. }
  destruct x as [r|[]].
  { exists (inl r). split; by apply bind_reply. }
  rewrite (bind_ret _ _ _ _ _ E1), (bind_ret _ _ _ _ _ E2). clear E1 E2.
  unfold verify_token. destruct (public_path _); [by exists (inr tt)|]. unfold req_auth_ensure.
  assert (forall c, put_ctx (fun c0 => set_auth (auth_of E c0 req) c0) (counted E req c) = Some (counted E req c, [], inr tt)) as He.
  { intros c. unfold put_ctx. by rewrite (counted_settled E req c), set_auth_id. }
  rewrite (bind_ret _ _ _ _ _ (He c1)), (bind_ret _ _ _ _ _ (He c2)).
  rewrite (bind_ret _ _ (counted E req c1) (counted E req c1) (counted E req c1)) by reflexivity.
  rewrite (bind_ret _ _ (counted E req c2) (counted E req c2) (counted E req c2)) by reflexivity.
  change (cx_auth (counted E req c1)) with (auth_of E c1 req). change (cx_auth (counted E req c2)) with (auth_of E c2 req).
  rewrite Ha. destruct (_ || _); by eexists.
Qed.

(** A handler that starts with the checks and the identity. *)
Lemma starts_isolated c1 c2 (k : string -> api http_response) :
  let a := actor_of (auth_of E c1 req) in
  public_path (rq_path req) = false -> alike a c1 c2 ->
  (no_identity (auth_of E c1 req) = false -> isolated a (counted E req c1) (counted E req c2) (k a (counted E req c1)) (k a (counted E req c2))) ->
  let m := api_bind (admit_request E req) (fun _ => api_bind (req_actor E req) k) in
  isolated a c1 c2 (m c1) (m c2).
Proof.
  intros a Hp H Hk m. pose proof (alike_auth E req a c1 c2 H) as Ha. pose proof (alike_counted E req a c1 c2 H) as Hc.
  destruct (admit_same c1 c2 Ha) as (x & E1 & E2); [apply H|by rewrite (al_world _ _ _ H)|]. unfold m.
  destruct x as [r|[]].
  - rewrite (bind_reply _ _ _ _ _ _ E1), (bind_reply _ _ _ _ _ _ E2). by exists (counted E req c1), (counted E req c2), (inl r).
  - rewrite (bind_ret _ _ _ _ _ E1), (bind_ret _ _ _ _ _ E2).
    assert (no_identity (auth_of E c1 req) = false) as Hn.
    { destruct (admit_spec E req c1) as (y & Ey & Hy). rewrite E1 in Ey. simplify_eq.
      destruct Hy as [(r & ? & _)|[_ [Hx|Hx]]]; [done|congruence|done]. }
    assert (req_actor E req (counted E req c1) = Some (counted E req c1, [], inr a)) as A1
      by (apply (actor_eq E req); [apply counted_settled|exact Hn]).
    assert (req_actor E req (counted E req c2) = Some (counted E req c2, [], inr a)) as A2.
    { assert (a = actor_of (auth_of E c2 req)) as Ea by exact (f_equal actor_of Ha). rewrite Ea.
      apply (actor_eq E req (counted E req c2)); [apply counted_settled|].
      change (cx_auth (counted E req c2)) with (auth_of E c2 req). by rewrite <- Ha. }
    rewrite (bind_ret _ _ _ _ _ A1), (bind_ret _ _ _ _ _ A2). exact (Hk Hn).
Qed.


Context (o : jobject json) (Hbody : parse_body req = Some (JObj o)) (Hlen : tlen (rq_body req) < 2 ^ 27).

Lemma conv_handler_isolated a c1 c2 : a = actor_of (auth_of E c1 req) -> public_path (rq_path req) = false ->
  nonempty a = true -> fits 63 a -> alike a c1 c2 -> room (recs (cx_conv c1)) -> room (recs (cx_conv c2)) ->
  isolated a c1 c2 (handle_conv E req c1) (handle_conv E req c2).
Proof.
  intros Ea Hp Hn Hf H R1 R2. subst a. unfold handle_conv. generalize (api_rpc_method req "getConversation") as m. intros m.
  apply (starts_isolated c1 c2); [exact Hp|exact H|]. intros _.
  set (a := actor_of _) in *. pose proof (alike_counted E req a c1 c2 H) as Hc.
  apply check_alike; [exact Hc|]. apply (rpc_alike E a Hf); [|exact Hc|exact R1|exact R2|].
  { exact (conv_identity_owner a req o Hbody Hlen Hn). }
  intros out d1 d2 Hd.
  apply (answer_alike a (fun c => if conv_is_read m && nonempty a then
            let out := filter_conv_read_result c a out in
            if streq m "getTotalUnreadMsgCount" then filter_conv_unread_count c a out else out
          else out)); [exact Hd|].
  destruct (conv_is_read m && nonempty a); [|reflexivity]. cbn zeta. rewrite (alike_read a d1 d2 out Hd).
  destruct (streq m "getTotalUnreadMsgCount"); [|reflexivity].
  exact (alike_unread a d1 d2 (filter_conv_read_result d2 a out) Hd).
Qed.

Lemma jssdk_handler_isolated a c1 c2 : a = actor_of (auth_of E c1 req) -> public_path (rq_path req) = false ->
  nonempty a = true -> fits 63 a -> alike a c1 c2 -> room (recs (cx_conv c1)) -> room (recs (cx_conv c2)) ->
  isolated a c1 c2 (handle_jssdk E req c1) (handle_jssdk E req c2).
Proof.
  intros Ea Hp Hn Hf H R1 R2. subst a. unfold handle_jssdk. cbn zeta.
  generalize (if streq (api_req_path req 128) "/jssdk/get_active_conversations" then "getActiveConversations" else "getConversations") as m.
  intros m. apply (starts_isolated c1 c2); [exact Hp|exact H|]. intros _.
  set (a := actor_of _) in *. pose proof (alike_counted E req a c1 c2 H) as Hc.
  apply (rpc_alike E a Hf); [|exact Hc|exact R1|exact R2|].
  { exact (conv_identity_owner a req o Hbody Hlen Hn). }
  intros out d1 d2 Hd. apply (answer_alike a (fun c => filter_conv_read_result c a out)); [exact Hd|].
  exact (alike_read a d1 d2 out Hd).
Qed.
End Handlers.

(** ** Theorem *)

(** C5: the conversation routes serve the caller's conversations only.  For a
    caller whose user id has at most 63 characters, a body that is a JSON object
    (of less than 2^27 bytes) and conversation tables that are not full:
    whatever owner the body names, two gateways that differ only in the
    conversations of other users answer the same, agree on the caller's
    conversations afterwards, and the list of every other user is untouched.
    (The owner is stored with 63 characters: what is written for a longer user
    id goes to its prefix, [ConversationSpec.long_owner_shared].) *)
Theorem api_conv_isolated E r req o a c1 c2 :
  r ∈ [RConv; RJssdk] -> public_path (rq_path req) = false ->
  parse_body req = Some (JObj o) -> tlen (rq_body req) < 2 ^ 27 ->
  actor_of (auth_of E c1 req) = a -> nonempty a = true -> fits 63 a ->
  alike a c1 c2 -> room (recs (cx_conv c1)) -> room (recs (cx_conv c2)) ->
  exists c1' c2' resp,
    api_run (route_handler E r req) c1 = Some (c1', [], resp) /\
    api_run (route_handler E r req) c2 = Some (c2', [], resp) /\
    alike a c1' c2' /\
    forall u, u <> a -> miku_conv_get_all (cx_conv c1') (Some u) MK_MAX_CONVS = miku_conv_get_all (cx_conv c1) (Some u) MK_MAX_CONVS.
Proof.
  intros Hr Hp Hb Hl Ea Hn Hf H R1 R2. symmetry in Ea.
  assert (isolated a c1 c2 (route_handler E r req c1) (route_handler E r req c2)) as (c1' & c2' & x & E1 & E2 & H' & V).
  { apply list.elem_of_cons in Hr as [->|Hr]; [exact (conv_handler_isolated E req o Hb Hl a c1 c2 Ea Hp Hn Hf H R1 R2)|].
    apply list_elem_of_singleton in Hr as ->. exact (jssdk_handler_isolated E req o Hb Hl a c1 c2 Ea Hp Hn Hf H R1 R2). }
  exists c1', c2', (match x with inl y => y | inr y => y end).
  unfold api_run. rewrite E1, E2. split_and!; [by destruct x|by destruct x|exact H'|].
  intros u Hu. rewrite (get_all_view (cx_conv c1')), (get_all_view (cx_conv c1)) by apply H || apply H'.
  by rewrite V.
Qed.

(** Alice asks for Bob's conversations; one gateway holds a conversation of
    Bob, the other does not. *)
Definition ex_request_conv : http_request :=
  ex_request "/conversation/set_conversation" (ex_token "alice" 1)
    (literal "{'ownerUserID':'bob','userID':'bob','conversationID':'si_alice_carol','isPinned':1}").

Definition ex_bobs (c : api_ctx) : api_ctx :=
  set_conv_svc (miku_conv_handle_rpc (Some "setConversation") (cx_conv c)
    (miku_json_parse (Some (literal "{'ownerUserID':'bob','conversationID':'si_bob_carol'}"))) new_out).1 c.

Lemma api_conv_isolated_witness :
  exists c1' c2' resp,
    api_run (route_handler (ex_env 2000) RConv ex_request_conv) ex_start = Some (c1', [], resp) /\
    api_run (route_handler (ex_env 2000) RConv ex_request_conv) (ex_bobs ex_start) = Some (c2', [], resp) /\
    alike "alice" c1' c2' /\
    forall u, u <> "alice" ->
      miku_conv_get_all (cx_conv c1') (Some u) MK_MAX_CONVS = miku_conv_get_all (cx_conv ex_start) (Some u) MK_MAX_CONVS.
Proof.
  assert (rel_ok (cx_conv ex_start)) as O by apply rel_ok_empty.
  refine (api_conv_isolated (ex_env 2000) RConv ex_request_conv _ "alice" ex_start (ex_bobs ex_start) _ _ _ _ _ _ _ _ _ _).
  - left.
  - vm_compute. reflexivity.
  - vm_compute. reflexivity.
  - vm_compute. reflexivity.
  - vm_compute. reflexivity.
  - reflexivity.
  - unfold fits. cbn. lia.
  - apply alike_conv. split_and!; [exact O| |].
    + exact (proj1 (rpc_does (Some "setConversation") (cx_conv ex_start) _ new_out O)).
    + vm_compute. reflexivity.
  - vm_compute. reflexivity.
  - vm_compute. reflexivity.
Defined.
