(* ===== verification/ApiThird.v ===== *)
(** * API gateway: the objects of different users

    Object names start with the name of their owner and a slash. The gateway
    compares that prefix with the token's user before it hands a request to
    the object service.  [api_objects_owned] shows what this protects,
    [api_object_acl_bypass] the request it does not stop, and
    [api_user_status_undefined] a request on which the user handler uses a
    destroyed value. *)
From Stdlib Require Import Ascii String.
From S2P Require Import Prelude Json JsonText JsonEscape JsonKeys RpcNames RateLimit Friend Group Token Auth Atomic MsgService.
From S2P Require Import MsgRpc Models OwnedTable Conversation User ObjectStore Third ImMessage ApiCore ApiGate ApiHandlers ApiMsg.
From S2P Require Import ApiLogic ApiSafe ApiConv.
#[local] Open Scope string_scope.
#[local] Open Scope list_scope.
#[local] Open Scope Z_scope.
#[local] Open Scope api_scope.

(** ** Postconditions *)

(** The final context of every defined run from [c]. *)
Definition ends {A} (P : api_ctx -> Prop) (m : api A) (c : api_ctx) : Prop := forall c' ev x, m c = Some (c', ev, x) -> P c'.

Lemma ends_ret {A} (P : api_ctx -> Prop) (a : A) c : P c -> ends P (ret a) c.
Proof. intros H c' ev x [= <- _ _]. exact H. Qed.

Lemma ends_bind {A B} (P : api_ctx -> Prop) (m : api A) (k : A -> api B) c y :
  m c = Some (c, [], y) -> P c -> (forall a, y = inr a -> ends P (k a) c) -> ends P (api_bind m k) c.
Proof.
  intros Em Hp Hk. destruct y as [r|a]; intros c' ev x Hx.
  - rewrite (bind_reply _ _ _ _ _ _ Em) in Hx. by injection Hx as <- _ _.
  - rewrite (bind_ret _ _ _ _ _ Em) in Hx. by eapply Hk.
Qed.

Lemma ends_keeps {A} (P : api_ctx -> Prop) (m : api A) c : keeps (fun c c' => P c -> P c') m -> P c -> ends P m c.
Proof. intros H Hp c' ev x Hx. by eapply H. Qed.

Section Objects.
Context (E : api_env) (req : http_request).

(** Metadata of [n] as in [c0]. *)
Definition object_same (n : string) (c0 c : api_ctx) : Prop :=
  miku_object_store_get (cx_third c) (Some n) = miku_object_store_get (cx_third c0) (Some n).

Lemma local_third_ends m j out c n : obj_ok (cx_third c) -> Z.of_nat (size (names (slots (cx_third c)))) < MK_OBJ_CAP ->
  req_object_name j <> Some n -> ends (object_same n c) (local_third E m j out) c.
Proof.
  intros O Hr Hn c' ev x Hx. unfold local_third in Hx. rewrite get_bind in Hx.
  match type of Hx with from_option _ _ ?r _ = _ => destruct r as [[s' out']|] eqn:Er end; [|discriminate Hx].
  cbn [from_option fst snd] in Hx. rewrite (bind_ret _ _ c (set_third s' c) tt) in Hx by reflexivity. injection Hx as <- _ _.
  exact (third_rpc_frame (Some m) _ _ _ _ _ s' out' n O Hr Er Hn).
Qed.

Lemma third_rpc_ends m j out c n : obj_ok (cx_third c) -> Z.of_nat (size (names (slots (cx_third c)))) < MK_OBJ_CAP ->
  req_object_name j <> Some n -> ends (object_same n c) (API_THIRD_RPC E m j out) c.
Proof.
  intros O Hr Hn c' ev x Hx. unfold API_THIRD_RPC, api_service_rpc in Hx. rewrite get_bind in Hx.
  match type of Hx with (if ?b then _ else _) _ = _ => destruct b end; [by eapply local_third_ends|].
  destruct (ae_remote _ _ _ _) as [| |t]; [by injection Hx as <- _ _..|].
  destruct (miku_json_parse_str _); by injection Hx as <- _ _.
Qed.

(** A checked name is the caller's name, a slash and some rest. *)
Lemma under_actor_spec a p : under_actor a p = true -> exists rest, str p = (str a ++ str "/" ++ rest)%list.
Proof.
  unfold under_actor, prefixed, starts_with, sdrop. intros [H1%bool_decide_eq_true H2%bool_decide_eq_true]%andb_prop.
  unfold str in H2 at 2. rewrite list_ascii_of_string_of_list_ascii in H2.
  rewrite <- str_length in H2. exists (drop 1 (drop (length (str a)) (str p))).
  rewrite <- (take_drop (length (str a)) (str p)) at 1. rewrite H1. f_equal.
  rewrite <- (take_drop 1 (drop (length (str a)) (str p))) at 1. f_equal. exact H2.
Qed.

(** The checked name belongs to the caller. *)
Lemma third_check_passed m a j c y : third_check m a j c = Some (c, [], y) -> y = inr tt ->
  forall p, obj_path j = Some p -> nonempty p = true -> under_actor a p = true.
Proof.
  intros H -> p Hp Hn. unfold third_check in H. rewrite Hp in H. unfold given in H. rewrite Hn in H. cbn [default id negb] in H.
  rewrite andb_false_r in H. cbn [andb] in H. destruct (under_actor a p); [done|discriminate H].
Qed.

Lemma object_name_nonempty j p : req_object_name j = Some p -> nonempty p = true.
Proof.
  assert (forall s, (if given s then s else None) = Some p -> nonempty p = true) as Hp.
  { intros [s|]; [|done]. cbn. destruct (nonempty s) eqn:Es; [|done]. by intros [= <-]. }
  unfold req_object_name. cbn zeta. generalize (jstr j "name"), (jstr j "key"), (jstr j "objectName"), (jstr j "filePath").
  intros s1 s2 s3 s4. unfold or_null.
  do 3 (match goal with |- context [match ?v with Some _ => _ | None => _ end = _] => destruct v eqn:? end;
        [intros [= ->]; by eapply Hp|]). apply Hp.
Qed.

Lemma third_fields j a : body_obj (2 ^ 27) j ->
  obj_path (put_str j "userID" (Some a)) = obj_path j /\ req_object_name (put_str j "userID" (Some a)) = req_object_name j.
Proof.
  intros B. assert (forall k, k <> "userID" -> jstr (put_str j "userID" (Some a)) k = jstr j k) as H
    by (intros k Hk; rewrite (jstr_put _ _ _ _ _ B) by lia; by rewrite decide_False).
  unfold obj_path, req_object_name, path_keys. cbn [omap list_omap]. rewrite !H by done. done.
Qed.

(** After the checks: [c] is settled and [a] is the caller. *)
Lemma third_tail_ends m a j c n : nonempty a = true -> body_obj (2 ^ 27) j -> obj_path j = req_object_name j ->
  obj_ok (cx_third c) -> Z.of_nat (size (names (slots (cx_third c)))) < MK_OBJ_CAP -> under_actor a n = false ->
  let j' := if nonempty a && negb (streq m "getPrometheus") then put_str j "userID" (Some a) else j in
  ends (object_same n c) (when (nonempty a) (third_check m a j') ;;; out <- API_THIRD_RPC E m j' new_out ;; answer out) c.
Proof.
  intros Hn B Hsame O Hr Hu j'. rewrite Hn. cbn [when].
  assert (obj_path j' = obj_path j /\ req_object_name j' = req_object_name j) as [H1 H2].
  { unfold j'. destruct (nonempty a && _); [by apply third_fields|done]. }
  assert (exists y, third_check m a j' c = Some (c, [], y)) as [y Ey].
  { unfold third_check. generalize (obj_path j') as q. intros q. destruct (one_of _ _ && _); [by eexists|].
    destruct (given q && _); by eexists. }
  apply (ends_bind _ _ _ _ _ Ey); [reflexivity|]. intros [] Hy.
  intros c' ev x [(r & Hx & _)|(c1 & e1 & e2 & out & Hx & Ht & _)]%bind_inv.
  - eapply (third_rpc_ends m j' new_out c n O Hr); [|exact Hx]. rewrite H2. intros Hq.
    pose proof (third_check_passed m a j' c y Ey Hy n) as Hc. rewrite H1, Hsame, Hq in Hc.
    rewrite Hc in Hu; [discriminate|done|by eapply object_name_nonempty].
  - injection Ht as <- _ _. eapply (third_rpc_ends m j' new_out c n O Hr); [|exact Hx]. rewrite H2. intros Hq.
    pose proof (third_check_passed m a j' c y Ey Hy n) as Hc. rewrite H1, Hsame, Hq in Hc.
    rewrite Hc in Hu; [discriminate|done|by eapply object_name_nonempty].
Qed.

Lemma third_handler_ends c a n : nonempty a = true -> a = actor_of (auth_of E c req) -> public_path (rq_path req) = false ->
  body_obj (2 ^ 27) (parse_body req) -> obj_path (parse_body req) = req_object_name (parse_body req) ->
  obj_ok (cx_third c) -> Z.of_nat (size (names (slots (cx_third c)))) < MK_OBJ_CAP -> under_actor a n = false ->
  ends (object_same n c) (handle_third E req) c.
Proof.
  intros Hn Ea Hp B Hsame O Hr Hu. unfold handle_third. generalize (api_rpc_method req "getUploadToken") as m. intros m. cbn zeta.
  destruct (admit_spec E req c) as (y & Ey & Hy). intros c' ev x Hx.
  destruct Hy as [(r & -> & _)|[-> [Hy|Hy]]]; [|congruence|].
  { rewrite (bind_reply _ _ _ _ _ _ Ey) in Hx. by injection Hx as <- _ _. }
  rewrite (bind_ret _ _ _ _ _ Ey) in Hx. clear Ey. pose proof (counted_settled E req c) as S.
  change (object_same n (counted E req c) c'). set (d := counted E req c) in *. revert c' ev x Hx.
  change (ends (object_same n d) ((if streq m "getPrometheus" then require_admin E req else ret tt) ;;;
    (if one_of m ["searchLogs"; "deleteLogs"; "uploadLogs"] then require_admin E req else ret tt) ;;;
    actor <- req_actor E req ;;
    when (nonempty actor) (third_check m actor (if nonempty actor && negb (streq m "getPrometheus")
       then put_str (parse_body req) "userID" (Some actor) else parse_body req)) ;;;
    out <- API_THIRD_RPC E m (if nonempty actor && negb (streq m "getPrometheus")
       then put_str (parse_body req) "userID" (Some actor) else parse_body req) new_out ;; answer out) d).
  assert (forall b : bool, exists y, (if b then require_admin E req else ret tt) d = Some (d, [], y)) as Hadm
    by (intros []; [exact (still_admin E req d S)|by eexists]).
  destruct (Hadm (streq m "getPrometheus")) as [y1 E1]. apply (ends_bind _ _ _ _ _ E1); [reflexivity|]. intros _ _.
  match goal with |- ends _ (api_bind (if ?b then _ else _) _) _ => destruct (Hadm b) as [y2 E2] end.
  apply (ends_bind _ _ _ _ _ E2); [reflexivity|]. intros _ _.
  pose proof (actor_eq E req d S Hy) as E3. change (actor_of (cx_auth d)) with (actor_of (auth_of E c req)) in E3.
  rewrite <- Ea in E3. apply (ends_bind _ _ _ _ _ E3); [reflexivity|]. intros a' [= <-].
  exact (third_tail_ends m a (parse_body req) d n Hn B Hsame O Hr Hu).
Qed.
End Objects.

(** ** Theorem *)

(** C6: a request to the object routes changes no object outside the caller's
    own name prefix, provided the gateway's check and the object service read
    the same name from the body, and the store has a free slot. *)
Theorem api_objects_owned E req o a c c' ev resp n :
  parse_body req = Some (JObj o) -> tlen (rq_body req) < 2 ^ 27 -> public_path (rq_path req) = false ->
  actor_of (auth_of E c req) = a -> nonempty a = true ->
  obj_path (parse_body req) = req_object_name (parse_body req) ->
  obj_ok (cx_third c) -> Z.of_nat (size (names (slots (cx_third c)))) < MK_OBJ_CAP ->
  api_run (route_handler E RThird req) c = Some (c', ev, resp) ->
  (forall rest, str n <> (str a ++ str "/" ++ rest)%list) ->
  object_same n c c'.
Proof.
  intros Hb Hl Hp Ea Hn Hsame O Hr Hrun Hother.
  assert (under_actor a n = false) as Hu.
  { destruct (under_actor a n) eqn:Hx; [|reflexivity]. destruct (under_actor_spec a n Hx) as [rest Hq]. by destruct (Hother rest). }
  enough (ends (object_same n c) (handle_third E req) c) as H.
  { unfold api_run in Hrun. cbn [route_handler] in Hrun.
    destruct (handle_third E req c) as [[[c1 e1] x]|] eqn:Em; [|discriminate Hrun]. apply H in Em. by destruct x; simplify_eq. }
  apply (third_handler_ends E req c a n Hn); [by symmetry|exact Hp| |exact Hsame|exact O|exact Hr|exact Hu].
  destruct (parse_body_obj req o Hb Hl) as (o' & E1 & Ho & Hc). exists o'. split_and!; [exact E1|exact Ho|lia].
Qed.

(** ** Examples *)

Definition ex_meta (name owner : string) : miku_object_meta := ObjectMeta name owner "image/png" "" 10 0 0 0.

(** A gateway that stores an object of Bob. *)
Definition ex_store : miku_object_store :=
  default miku_object_store_create (obj_step miku_object_store_create (JUpsert 500 (ex_meta "bob/photo" "bob"))).
Definition ex_objects : api_ctx := set_third ex_store ex_start.

Definition ex_upload : http_request :=
  ex_request "/object/initiate_multipart_upload" (ex_token "alice" 1) (literal "{'name':'alice/photo'}").

Lemma ex_store_ok : obj_ok ex_store.
Proof.
  destruct (obj_step_ok miku_object_store_create (JUpsert 500 (ex_meta "bob/photo" "bob")) obj_create_ok) as (s & Es & O & _).
  unfold ex_store. rewrite Es. exact O.
Qed.

Lemma api_objects_owned_witness :
  let '(c', _, resp) := ex_serve 2000 RThird ex_upload ex_objects in
  rs_status resp = 200 /\ miku_object_store_get (cx_third c') (Some "alice/photo") <> None /\ object_same "bob/photo" ex_objects c'.
Proof.
  destruct (ex_serve 2000 RThird ex_upload ex_objects) as [[c' ev] resp] eqn:Es.
  assert (api_run (route_handler (ex_env 2000) RThird ex_upload) ex_objects = Some (c', ev, resp)) as Er.
  { revert Es. unfold ex_serve. destruct (api_run (route_handler (ex_env 2000) RThird ex_upload) ex_objects) as [x|] eqn:Ex.
    - cbn [default id]. intros H. exact (f_equal Some H).
    - exfalso. revert Ex. vm_compute. discriminate. }
  assert ((rs_status (ex_serve 2000 RThird ex_upload ex_objects).2 =? 200) &&
          bool_decide (is_Some (miku_object_store_get (cx_third (ex_serve 2000 RThird ex_upload ex_objects).1.1) (Some "alice/photo"))) = true)
    as H by (vm_compute; reflexivity).
  rewrite Es in H. cbn [fst snd] in H. apply andb_prop in H as [H1%Z.eqb_eq H2%bool_decide_eq_true].
  split_and!; [exact H1|by destruct H2 as [? ->]|].
  refine (api_objects_owned (ex_env 2000) ex_upload _ "alice" ex_objects c' ev resp "bob/photo" _ _ _ _ _ _ _ _ Er _).
  - vm_compute. reflexivity.
  - vm_compute. reflexivity.
  - vm_compute. reflexivity.
  - vm_compute. reflexivity.
  - reflexivity.
  - vm_compute. reflexivity.
  - exact ex_store_ok.
  - vm_compute. reflexivity.
  - intros rest H. discriminate H.
Defined.

(** The check reads [filePath] before [objectName], the object service reads
    them in the other order: with both in the body, Alice deletes the object
    of Bob. *)
Theorem api_object_acl_bypass :
  let req := ex_request "/third/delete_object" (ex_token "alice" 1) (literal "{'filePath':'alice/x','objectName':'bob/photo'}") in
  let '(c', _, resp) := ex_serve 2000 RThird req ex_objects in
  rs_status resp = 200 /\
  option_map om_owner (miku_object_store_get (cx_third ex_objects) (Some "bob/photo")) = Some "bob" /\
  miku_object_store_get (cx_third c') (Some "bob/photo") = None.
Proof. vm_compute. split_and!; reflexivity. Qed.

(** The handler destroys its answer and then writes to it when a user asks for
    the status of someone who is not visible to them. *)
Theorem api_user_status_undefined :
  api_run (route_handler (ex_env 2000) RUser
    (ex_request "/user/get_user_status" (ex_token "alice" 1) (literal "{'userID':'bob'}"))) ex_start = None.
Proof. vm_compute. reflexivity. Qed.
