(* ===== verification/WsSub.v ===== *)
(** * Presence subscriptions (gateway/msggateway/miku_ws_subscription.c)

    Who is told when a user comes online or goes offline.  The subscriptions
    are an array of (subscriber, target) entries with an index of the pairs; the
    active entries of a target are on a chain, newest first.  An entry that is
    cancelled stays in the array, inactive, and is taken up again by the next
    subscription of the same pair.

    [ws_sub_refines]: the module is a set of pairs. *)
From S2P Require Import Prelude Hash ProbeIndex KeyedMap ChainIndex JsonText JsonEscape Models.
#[local] Open Scope string_scope.
#[local] Open Scope list_scope.
#[local] Open Scope Z_scope.

Definition MK_SUB_HASH : Z := 8192.
Definition MK_SUB_MAX : Z := 4096.

Record sub_entry := SubEntry { sub_subscriber : string; sub_target : string; sub_active : bool }.

Record miku_ws_sub := WsSub {
  sub_entries : list sub_entry;       (* the used prefix of the array *)
  sub_pair_hash : gmap Z Z;
  sub_target_hash : gmap Z Z;
  sub_target_next : gmap Z Z }.

Definition sub_pair_slot (subscriber target : string) : Z :=
  pair_slot_of MK_SUB_HASH (fnv1a_64 subscriber) (fnv1a_64 target).

Definition target_slot (target : string) : Z := mask_slot MK_SUB_HASH (fnv1a_64 target).

Definition sub_pair_hash_insert (sub : miku_ws_sub) (ei : Z) : miku_ws_sub :=
  match at_ (sub_entries sub) ei with
  | Some e => WsSub (sub_entries sub)
                (scan_insert MK_SUB_HASH (sub_pair_hash sub) (sub_pair_slot (sub_subscriber e) (sub_target e)) (i16 ei))
                (sub_target_hash sub) (sub_target_next sub)
  | None => sub
  end.

Definition sub_pair_match (l : list sub_entry) (subscriber target : string) (ei : Z) : bool :=
  match at_ l ei with
  | Some e => streq (sub_subscriber e) subscriber && streq (sub_target e) target
  | None => false
  end.

Definition sub_pair_hash_find (sub : miku_ws_sub) (subscriber target : string) : Z :=
  scan_find MK_SUB_HASH (sub_pair_hash sub) (sub_pair_match (sub_entries sub) subscriber target)
    (sub_pair_slot subscriber target).

Definition target_match (l : list sub_entry) (target : string) (head : Z) : bool :=
  match at_ l head with Some e => streq (sub_target e) target | None => false end.

(** The entry [ei] in front of the chain of [target]. *)
Definition target_link (sub : miku_ws_sub) (target : string) (ei : Z) : miku_ws_sub :=
  let '(hd, nx) := chain_link MK_SUB_HASH (sub_target_hash sub) (sub_target_next sub)
                     (target_match (sub_entries sub) target) (target_slot target) ei in
  WsSub (sub_entries sub) (sub_pair_hash sub) hd nx.

Definition rebuild_target_chains (sub : miku_ws_sub) : miku_ws_sub :=
  for_range (Z.of_nat (length (sub_entries sub)))
    (fun s ei => match at_ (sub_entries s) ei with
                 | Some e => if sub_active e then target_link s (sub_target e) ei else s
                 | None => s
                 end)
    (WsSub (sub_entries sub) (sub_pair_hash sub) ∅ ∅).

Definition target_chain_head (sub : miku_ws_sub) (target : string) : Z :=
  scan_find MK_SUB_HASH (sub_target_hash sub) (target_match (sub_entries sub) target) (target_slot target).

Definition miku_ws_sub_create : miku_ws_sub := WsSub [] ∅ ∅ ∅.

Definition set_active (b : bool) (e : sub_entry) : sub_entry := SubEntry (sub_subscriber e) (sub_target e) b.

Definition sub_update (f : sub_entry -> sub_entry) (ei : Z) (sub : miku_ws_sub) : miku_ws_sub :=
  WsSub (upd_at f ei (sub_entries sub)) (sub_pair_hash sub) (sub_target_hash sub) (sub_target_next sub).

Definition entry_active (sub : miku_ws_sub) (ei : Z) : bool :=
  match at_ (sub_entries sub) ei with Some e => sub_active e | None => false end.

Definition miku_ws_sub_subscribe (sub : miku_ws_sub) (user_id target_user_id : option string) : Z * miku_ws_sub :=
  match user_id, target_user_id with
  | Some u, Some t =>
      let ei := sub_pair_hash_find sub u t in
      if 0 <=? ei then
        (0, if entry_active sub ei then sub else rebuild_target_chains (sub_update (set_active true) ei sub))
      else if MK_SUB_MAX <=? Z.of_nat (length (sub_entries sub)) then (-1, sub)
      else
        let ei := Z.of_nat (length (sub_entries sub)) in
        let e := SubEntry (strn 63 u) (strn 63 t) true in
        let sub := WsSub (sub_entries sub ++ [e]) (sub_pair_hash sub) (sub_target_hash sub) (sub_target_next sub) in
        (0, target_link (sub_pair_hash_insert sub ei) t ei)
  | _, _ => (-1, sub)
  end.

Definition miku_ws_sub_unsubscribe (sub : miku_ws_sub) (user_id target_user_id : option string) : Z * miku_ws_sub :=
  match user_id, target_user_id with
  | Some u, Some t =>
      let ei := sub_pair_hash_find sub u t in
      if (ei <? 0) || negb (entry_active sub ei) then (-1, sub)
      else (0, rebuild_target_chains (sub_update (set_active false) ei sub))
  | _, _ => (-1, sub)
  end.

Definition miku_ws_sub_is_subscribed (sub : miku_ws_sub) (user_id target_user_id : option string) : bool :=
  match user_id, target_user_id with
  | Some u, Some t => let ei := sub_pair_hash_find sub u t in (0 <=? ei) && entry_active sub ei
  | _, _ => false
  end.

(** The subscribers of a target, at most [max]; the chain has at most one link
    per entry. *)
Definition miku_ws_sub_get_subscribers (sub : miku_ws_sub) (target_user_id : option string) (max : Z) : list string :=
  match target_user_id with
  | None => []
  | Some t =>
      take (Z.to_nat max)
        (omap (fun ei => match at_ (sub_entries sub) ei with
                         | Some e => if sub_active e then Some (sub_subscriber e) else None
                         | None => None
                         end)
           (chain_walk (S (length (sub_entries sub))) (sub_target_next sub) (target_chain_head sub t)))
  end.

(** The notifications: the subscribers and the text they are sent. *)
Definition notify_subscribers (sub : miku_ws_sub) (target_user_id : string) (payload : text) : list (string * text) :=
  (fun u => (u, payload)) <$> miku_ws_sub_get_subscribers sub (Some target_user_id) 64.

Definition miku_ws_sub_user_online (sub : miku_ws_sub) (user_id : string) (platform : Z) : list (string * text) :=
  notify_subscribers sub user_id
    (snprintf 512 (raw_object [("userID", esc_field user_id 256); ("platform", fmt_lld platform); ("status", quoted (str "online"))])).1.

Definition miku_ws_sub_user_offline (sub : miku_ws_sub) (user_id : string) : list (string * text) :=
  notify_subscribers sub user_id
    (snprintf 512 (raw_object [("userID", esc_field user_id 256); ("status", quoted (str "offline"))])).1.

(** ** Reference: sets of pairs *)

Inductive sub_op := Subscribe (u t : string) | Unsubscribe (u t : string).

Definition sub_step (s : miku_ws_sub) (op : sub_op) : Z * miku_ws_sub :=
  match op with
  | Subscribe u t => miku_ws_sub_subscribe s (Some u) (Some t)
  | Unsubscribe u t => miku_ws_sub_unsubscribe s (Some u) (Some t)
  end.

(** The pairs that ever subscribed, each of which uses an entry, and those that
    are subscribed. *)
Definition ref_sub (r : gset (string * string) * gset (string * string)) (op : sub_op) :
    Z * (gset (string * string) * gset (string * string)) :=
  let '(seen, active) := r in
  match op with
  | Subscribe u t =>
      if bool_decide ((u, t) ∈ seen) then (0, (seen, active ∪ {[(u, t)]}))
      else if MK_SUB_MAX <=? Z.of_nat (size seen) then (-1, r)
      else (0, (seen ∪ {[(u, t)]}, active ∪ {[(u, t)]}))
  | Unsubscribe u t => if bool_decide ((u, t) ∈ active) then (0, (seen, active ∖ {[(u, t)]})) else (-1, r)
  end.

Definition sub_fits (op : sub_op) : Prop :=
  match op with Subscribe u t | Unsubscribe u t => fits 63 u /\ fits 63 t end.

(** ** Proofs *)

#[export] Instance pow2_sub : Pow2 MK_SUB_HASH.
Proof. by exists 13. Qed.

Definition sub_key (e : sub_entry) : string * string := (sub_subscriber e, sub_target e).
Definition sub_key_slot (k : string * string) : Z := sub_pair_slot k.1 k.2.
Definition sub_owner (e : sub_entry) : option string := if sub_active e then Some (sub_target e) else None.

Lemma sub_slot_bound k : 0 <= sub_key_slot k < MK_SUB_HASH.
Proof. apply (mask_slot_bound 13). lia. Qed.

Lemma target_slot_bound t : 0 <= target_slot t < MK_SUB_HASH.
Proof. apply (mask_slot_bound 13). lia. Qed.

Definition sub_pairs_ok (s : miku_ws_sub) : Prop :=
  ktable (sz:=MK_SUB_HASH) sub_key sub_key_slot MK_SUB_MAX (sub_pair_hash s) (sub_entries s).

Definition chains_upto (n : nat) (s : miku_ws_sub) : Prop :=
  chain_ok (sz:=MK_SUB_HASH) target_slot (sub_target_hash s) (sub_target_next s) (sub_owner <$> take n (sub_entries s)).

Record sub_ok (s : miku_ws_sub) : Prop := {
  so_pairs : sub_pairs_ok s;
  so_chains : chains_upto (length (sub_entries s)) s }.

Lemma target_match_omatch s n t p v : chains_upto n s -> sub_target_hash s !! p = Some v ->
  target_match (sub_entries s) t v = omatch (sub_owner <$> take n (sub_entries s)) t v.
Proof.
  intros C Hp. destruct (co_ix _ _ _ _ C) as [Hc _ _]. destruct (Hc _ _ Hp) as (_ & _ & [o Hv]).
  apply idxs_head_at in Hv. pose proof (at_lt _ _ _ Hv) as L. rewrite length_fmap, length_take in L.
  unfold target_match, omatch. rewrite at_fmap in *.
  assert (at_ (take n (sub_entries s)) v = at_ (sub_entries s) v) as E.
  { unfold at_. destruct (v <? 0); [done|]. apply lookup_take_lt. lia. }
  rewrite E in *. destruct (at_ (sub_entries s) v) as [e|]; [|done]. cbn in *. unfold sub_owner in *.
  destruct (sub_active e); [|done]. apply streq_bool.
Qed.

(** One step of the rebuild. *)
Lemma target_link_step s n e : sub_entries s !! n = Some e -> Z.of_nat n < MK_SUB_MAX -> chains_upto n s ->
  let s' := if sub_active e then target_link s (sub_target e) (Z.of_nat n) else s in
  sub_entries s' = sub_entries s /\ sub_pair_hash s' = sub_pair_hash s /\ chains_upto (S n) s'.
Proof.
  intros He Hn C. pose proof (lookup_lt_Some _ _ _ He) as Hl. cbn zeta.
  assert (length (sub_owner <$> take n (sub_entries s)) = n) as Ln by (rewrite length_fmap, length_take; lia).
  unfold chains_upto. destruct (sub_active e) eqn:Ea.
  2:{ split_and!; [done..|]. rewrite (take_S_r _ _ e) by done. rewrite fmap_app. cbn [fmap list_fmap]. unfold sub_owner at 2.
      rewrite Ea. by apply chain_ok_skip. }
  unfold target_link, chain_link.
  rewrite (scan_ext_cells _ _ (omatch (sub_owner <$> take n (sub_entries s)) (sub_target e)));
    [|intros p v Hp; exact (target_match_omatch s n _ p v C Hp)].
  pose proof (chain_ok_link target_slot target_slot_bound _ _ _ (sub_target e) C) as C'. rewrite Ln in C'.
  specialize (C' ltac:(unfold MK_SUB_MAX, MK_SUB_HASH in *; lia)). unfold chain_link in C'.
  assert ((sub_owner <$> take n (sub_entries s)) ++ [Some (sub_target e)] = sub_owner <$> take (S n) (sub_entries s)) as Eo.
  { rewrite (take_S_r _ _ e) by done. rewrite fmap_app. cbn [fmap list_fmap]. unfold sub_owner at 3. by rewrite Ea. }
  rewrite Eo in C'. destruct (scan MK_SUB_HASH (sub_target_hash s) _ _); split_and!; done.
Qed.

Lemma rebuild_chains s : Z.of_nat (length (sub_entries s)) <= MK_SUB_MAX ->
  let s' := rebuild_target_chains s in
  sub_entries s' = sub_entries s /\ sub_pair_hash s' = sub_pair_hash s /\ chains_upto (length (sub_entries s)) s'.
Proof.
  intros Hl. cbn zeta. unfold rebuild_target_chains.
  replace (chains_upto (length (sub_entries s))) with (chains_upto (Z.to_nat (Z.of_nat (length (sub_entries s))))) by by rewrite Nat2Z.id.
  apply (for_range_ind (fun i t => sub_entries t = sub_entries s /\ sub_pair_hash t = sub_pair_hash s /\ chains_upto (Z.to_nat i) t)).
  - lia.
  - split_and!; [done..|]. apply chain_ok_empty.
  - intros i t Hi (Ee & Ep & C). rewrite Ee. destruct (at_is_Some (sub_entries s) i Hi) as [e He]. rewrite He.
    apply at_Some in He as [_ He]. rewrite <- Ee in He.
    destruct (target_link_step t (Z.to_nat i) e He ltac:(lia) C) as (E1 & E2 & C'). rewrite Z2Nat.id in * by lia.
    rewrite E1, E2. replace (Z.to_nat (i + 1)) with (S (Z.to_nat i)) by lia. done.
Qed.

Lemma sub_create_ok : sub_ok miku_ws_sub_create.
Proof. split; [by apply ktable_empty|apply chain_ok_empty]. Qed.

(** An entry that changes its flag, with the chains rebuilt. *)
Lemma set_active_ok s ei e b : sub_ok s -> at_ (sub_entries s) ei = Some e ->
  let s' := rebuild_target_chains (sub_update (set_active b) ei s) in
  sub_entries s' = upd_at (set_active b) ei (sub_entries s) /\ sub_ok s'.
Proof.
  intros [P C] He. cbn zeta. destruct (ktable_upd sub_key (fun _ => tt) sub_key_slot MK_SUB_MAX _ _ _ _ (set_active b) P He) as [P' _]; [done|].
  destruct (rebuild_chains (sub_update (set_active b) ei s)) as (E1 & E2 & C').
  { cbn [sub_entries sub_update]. rewrite length_upd_at. apply P. }
  split; [exact E1|]. split.
  - unfold sub_pairs_ok. rewrite E1, E2. exact P'.
  - unfold chains_upto in C' |- *. rewrite E1 in C' |- *. exact C'.
Qed.

Lemma sub_find_ok s u t : sub_ok s ->
  (exists e, at_ (sub_entries s) (sub_pair_hash_find s u t) = Some e /\ sub_key e = (u, t)) \/
  (sub_pair_hash_find s u t = -1 /\ (u, t) ∉ sub_key <$> sub_entries s).
Proof.
  intros [P _]. unfold sub_pair_hash_find, scan_find.
  assert (tests sub_key (sub_entries s) (u, t) (sub_pair_match (sub_entries s) u t)) as T.
  { intros ei. unfold sub_pair_match. destruct (at_ (sub_entries s) ei) as [f|]; [|done].
    rewrite !streq_bool. unfold sub_key. repeat case_bool_decide; cbn; try done; naive_solver. }
  destruct (ktable_find sub_key (fun _ => tt) sub_key_slot MK_SUB_MAX sub_slot_bound ltac:(done) _ _ _ _ P T)
    as [(p & i & f & F & Hi & Hk & _)|(p & F & _ & Hn)];
    change (sub_key_slot (u, t)) with (sub_pair_slot u t) in F; rewrite F; [left|right]; eauto.
Qed.

Lemma sub_append_ok s u t : sub_ok s -> fits 63 u -> fits 63 t -> (u, t) ∉ sub_key <$> sub_entries s ->
  Z.of_nat (length (sub_entries s)) < MK_SUB_MAX ->
  let ei := Z.of_nat (length (sub_entries s)) in
  let s1 := WsSub (sub_entries s ++ [SubEntry (strn 63 u) (strn 63 t) true]) (sub_pair_hash s) (sub_target_hash s) (sub_target_next s) in
  let s' := target_link (sub_pair_hash_insert s1 ei) t ei in
  sub_entries s' = sub_entries s ++ [SubEntry u t true] /\ sub_ok s'.
Proof.
  intros [P C] Fu Ft Hn Hl. cbn zeta. rewrite !strn_short by done. set (e := SubEntry u t true).
  unfold sub_pair_hash_insert. cbn [sub_entries]. rewrite at_of_nat, list_lookup_middle by done.
  cbn [sub_subscriber sub_target e sub_pair_hash sub_target_hash sub_target_next].
  unfold MK_SUB_MAX in Hl. rewrite i16_small by lia.
  destruct (ktable_insert sub_key (fun _ => tt) sub_key_slot MK_SUB_MAX sub_slot_bound ltac:(done) _ _ e P Hn Hl) as [P' _].
  set (s2 := WsSub (sub_entries s ++ [e]) _ _ _).
  destruct (target_link_step s2 (length (sub_entries s)) e) as (E1 & E2 & C').
  - by apply list_lookup_middle.
  - exact Hl.
  - unfold chains_upto in *. cbn [sub_entries s2 sub_target_hash sub_target_next]. rewrite firstn_all in C. by rewrite take_app_length.
  - cbn [sub_active e sub_target] in E1, E2, C'. split; [exact E1|]. split.
    + unfold sub_pairs_ok. rewrite E1, E2. exact P'.
    + unfold chains_upto in *. rewrite E1 in *. cbn [sub_entries s2]. rewrite length_app, Nat.add_1_r. exact C'.
Qed.

(** ** Refinement *)

Definition seen_of (s : miku_ws_sub) : gset (string * string) := list_to_set (sub_key <$> sub_entries s).
Definition active_of (s : miku_ws_sub) : gset (string * string) :=
  list_to_set (sub_key <$> filter (fun e => sub_active e = true) (sub_entries s)).

Lemma elem_active s k : k ∈ active_of s <-> exists e, e ∈ sub_entries s /\ sub_active e = true /\ sub_key e = k.
Proof.
  unfold active_of. rewrite elem_of_list_to_set, list_elem_of_fmap. setoid_rewrite list_elem_of_filter. naive_solver.
Qed.

Lemma size_seen s : sub_ok s -> size (seen_of s) = length (sub_entries s).
Proof. intros [P _]. unfold seen_of. rewrite size_list_to_set by apply P. by rewrite length_fmap. Qed.

(** The entry of a pair decides whether the pair is active. *)
Lemma entry_active_iff s ei e : sub_ok s -> at_ (sub_entries s) ei = Some e -> sub_key e ∈ active_of s <-> sub_active e = true.
Proof.
  intros [P _] He. rewrite elem_active. apply at_Some in He as [_ He]. split.
  - intros (e' & Hin & Ha & Hk). apply list_elem_of_lookup in Hin as [j Hj].
    assert (j = Z.to_nat ei) as ->; [|congruence].
    eapply (NoDup_lookup (sub_key <$> sub_entries s)); [apply P| |]; rewrite list_lookup_fmap; [by rewrite Hj|by rewrite He, Hk].
  - intros Ha. exists e. split_and!; [by eapply list_elem_of_lookup_2|done..].
Qed.

Lemma active_upd s s' ei e b : sub_ok s -> at_ (sub_entries s) ei = Some e ->
  sub_entries s' = upd_at (set_active b) ei (sub_entries s) ->
  seen_of s' = seen_of s /\ active_of s' = if b then active_of s ∪ {[sub_key e]} else active_of s ∖ {[sub_key e]}.
Proof.
  intros O He E. pose proof (at_lt _ _ _ He) as Hi. destruct (at_split _ _ _ He) as (l1 & l2 & El & ->).
  rewrite El, upd_at_app in E. split.
  { unfold seen_of. rewrite E, El, !fmap_app. done. }
  assert (forall x, x ∈ l1 \/ x ∈ l2 -> sub_key x <> sub_key e) as Hne.
  { destruct O as [P _]. pose proof (kt_nodup _ _ _ _ _ P) as N. rewrite El, fmap_app, fmap_cons in N.
    apply list.NoDup_app in N as (_ & N1 & N2). apply list.NoDup_cons in N2 as [N2 _]. intros x [Hx|Hx] Hk.
    - apply (N1 (sub_key x)); [by apply list_elem_of_fmap_2|]. rewrite Hk. by left.
    - apply N2. rewrite <- Hk. by apply list_elem_of_fmap_2. }
  apply set_eq. intros k. rewrite elem_active, E. setoid_rewrite elem_of_app. setoid_rewrite list.elem_of_cons.
  assert (k ∈ active_of s <-> exists x, (x ∈ l1 \/ x = e \/ x ∈ l2) /\ sub_active x = true /\ sub_key x = k) as Hs.
  { rewrite elem_active, El. setoid_rewrite elem_of_app. by setoid_rewrite list.elem_of_cons. }
  destruct b; rewrite ?elem_of_union, ?elem_of_difference, elem_of_singleton, Hs; split.
  - intros (x & [Hx|[->|Hx]] & Ha & Hk); [left|by right|left]; naive_solver.
  - intros [(x & [Hx|[->|Hx]] & Ha & Hk)| ->]; [naive_solver|exists (set_active true e); naive_solver|naive_solver|].
    exists (set_active true e). naive_solver.
  - intros (x & [Hx|[->|Hx]] & Ha & Hk); [|done|]; (split; [naive_solver|]); rewrite <- Hk; apply Hne; tauto.
  - intros [(x & [Hx|[->|Hx]] & Ha & Hk) Hk']; [naive_solver|by rewrite Hk in Hk'|naive_solver].
Qed.

Lemma active_append s s' u t : sub_entries s' = sub_entries s ++ [SubEntry u t true] ->
  seen_of s' = seen_of s ∪ {[(u, t)]} /\ active_of s' = active_of s ∪ {[(u, t)]}.
Proof.
  intros E. unfold seen_of, active_of. rewrite E, list.filter_app, filter_cons_True, filter_nil by done.
  rewrite !fmap_app, !list_to_set_app_L. cbn. split; set_solver.
Qed.

Lemma sub_step_ok s op : sub_ok s -> sub_fits op ->
  ref_sub (seen_of s, active_of s) op = ((sub_step s op).1, (seen_of (sub_step s op).2, active_of (sub_step s op).2)) /\
  sub_ok (sub_step s op).2.
Proof.
  intros O F. destruct op as [u t|u t]; destruct F as [Fu Ft]; cbn [sub_step ref_sub]; unfold miku_ws_sub_subscribe, miku_ws_sub_unsubscribe;
    destruct (sub_find_ok s u t O) as [(e & He & Hk)|[Hf Hn]].
  - rewrite bool_decide_true by (unfold seen_of; rewrite <- Hk, elem_of_list_to_set; apply list_elem_of_fmap_2;
      apply at_Some in He as [_ He]; by eapply list_elem_of_lookup_2).
    pose proof (at_lt _ _ _ He) as Hi. rewrite (proj2 (Z.leb_le _ _)) by lia. unfold entry_active. rewrite He.
    pose proof (entry_active_iff s _ e O He) as Ha. rewrite Hk in Ha. destruct (sub_active e) eqn:Ee; cbn [fst snd].
    + split; [|exact O]. do 2 f_equal. set_solver.
    + destruct (set_active_ok s _ e true O He) as [E O']. split; [|exact O'].
      destruct (active_upd s _ _ e true O He E) as [-> ->]. by rewrite Hk.
  - rewrite Hf. cbn [Z.leb Z.compare]. rewrite bool_decide_false by (unfold seen_of; by rewrite elem_of_list_to_set).
    rewrite (size_seen s O). destruct (Z.leb_spec MK_SUB_MAX (Z.of_nat (length (sub_entries s)))) as [|Hl]; [done|]. cbn [fst snd].
    destruct (sub_append_ok s u t O Fu Ft Hn Hl) as [E O']. split; [|exact O'].
    by destruct (active_append s _ u t E) as [-> ->].
  - pose proof (at_lt _ _ _ He) as Hi. rewrite (proj2 (Z.ltb_ge _ _)) by lia. unfold entry_active. rewrite He. cbn [orb].
    pose proof (entry_active_iff s _ e O He) as Ha. rewrite Hk in Ha. destruct (sub_active e) eqn:Ee; cbn [negb fst snd].
    + rewrite bool_decide_true by tauto. destruct (set_active_ok s _ e false O He) as [E O']. split; [|exact O'].
      destruct (active_upd s _ _ e false O He E) as [-> ->]. by rewrite Hk.
    + rewrite bool_decide_false by (rewrite Ha; done). done.
  - rewrite Hf. cbn [Z.ltb Z.compare orb fst snd]. rewrite bool_decide_false; [done|]. rewrite elem_active.
    intros (e & Hin & _ & Hk). apply Hn. rewrite <- Hk. by apply list_elem_of_fmap_2.
Qed.

(** The chain of a target holds its active entries. *)
Lemma subscribers_ok s t max : sub_ok s ->
  miku_ws_sub_get_subscribers s (Some t) max =
  take (Z.to_nat max) (sub_subscriber <$> reverse (filter (fun e => sub_owner e = Some t) (sub_entries s))).
Proof.
  intros [_ C]. unfold miku_ws_sub_get_subscribers. f_equal. unfold target_chain_head, scan_find.
  rewrite (scan_ext_cells _ _ (omatch (sub_owner <$> sub_entries s) t)).
  2:{ intros p v Hp. rewrite (target_match_omatch s _ t p v C Hp). by rewrite firstn_all. }
  unfold chains_upto in C. rewrite firstn_all in C.
  change (match scan _ _ _ _ with Found _ ei => ei | _ => -1 end) with
    (scan_find MK_SUB_HASH (sub_target_hash s) (omatch (sub_owner <$> sub_entries s) t) (target_slot t)).
  rewrite (chain_walk_ok target_slot target_slot_bound _ _ _ t _ C) by (rewrite length_fmap; lia).
  rewrite <- omap_idxs. assert (forall i, i ∈ idxs (sub_owner <$> sub_entries s) t -> exists e, at_ (sub_entries s) i = Some e /\ sub_active e = true) as H.
  { intros i Hi. apply elem_of_idxs in Hi. rewrite at_fmap in Hi. destruct (at_ (sub_entries s) i) as [e|]; [|done].
    cbn in Hi. unfold sub_owner in Hi. exists e. by destruct (sub_active e). }
  induction (idxs (sub_owner <$> sub_entries s) t) as [|i l IH]; [done|]. cbn [omap list_omap].
  destruct (H i ltac:(by left)) as (e & -> & ->). rewrite IH; [done|]. intros j Hj. apply H. by right.
Qed.

Lemma subscribers_set s t : sub_ok s ->
  let l := sub_subscriber <$> reverse (filter (fun e => sub_owner e = Some t) (sub_entries s)) in
  NoDup l /\ forall u, u ∈ l <-> (u, t) ∈ active_of s.
Proof.
  intros [P _]. cbn zeta. split.
  - rewrite fmap_reverse. rewrite reverse_Permutation. pose proof (kt_nodup _ _ _ _ _ P) as N.
    induction (sub_entries s) as [|e l IH]; [constructor|]. rewrite fmap_cons in N. apply list.NoDup_cons in N as [N1 N2].
    rewrite filter_cons. case_decide as He; [|by apply IH]. rewrite fmap_cons. constructor; [|by apply IH].
    rewrite list_elem_of_fmap. intros (x & Hx & Hin). apply list_elem_of_filter in Hin as [Ho Hin]. apply N1.
    rewrite list_elem_of_fmap. exists x. split; [|done]. unfold sub_key, sub_owner in *. destruct (sub_active e), (sub_active x); congruence.
  - intros u. rewrite elem_active, list_elem_of_fmap. setoid_rewrite elem_of_reverse. setoid_rewrite list_elem_of_filter.
    unfold sub_owner, sub_key. split.
    + intros (e & -> & Ho & Hin). exists e. destruct (sub_active e) eqn:Ea; [|done]. split_and!; congruence.
    + intros (e & Hin & Ha & [= <- <-]). exists e. by rewrite Ha.
Qed.

Lemma sub_run_ok ops : Forall sub_fits ops ->
  let r := run_steps sub_step miku_ws_sub_create ops in
  run_steps ref_sub (∅, ∅) ops = (r.1, (seen_of r.2, active_of r.2)) /\ sub_ok r.2.
Proof.
  induction ops as [|op ops IH] using rev_ind; intros F; [split; [done|apply sub_create_ok]|].
  apply list.Forall_app in F as [F1 F2]. apply list.Forall_cons in F2 as [F2 _]. cbn zeta in *. rewrite !run_steps_snoc. destruct (IH F1) as [-> O].
  destruct (run_steps sub_step _ ops) as [rcs s]. cbn [fst snd] in *.
  destruct (sub_step_ok s op O F2) as [-> O']. by destruct (sub_step s op).
Qed.

(** ** Theorem *)

(** C27: After any sequence of subscriptions and cancellations by names that fit
    the entries, the status codes and the answers are those of a set of
    (subscriber, target) pairs, of which at most [MK_SUB_MAX] may ever have
    subscribed.  The subscribers of a target are listed without repetition,
    and are exactly those of the set, as far as the caller's limit. *)
Theorem ws_sub_refines ops t max :
  Forall sub_fits ops ->
  let '(rcs, s) := run_steps sub_step miku_ws_sub_create ops in
  let '(rcs', (seen, active)) := run_steps ref_sub (∅, ∅) ops in
  rcs = rcs' /\
  (forall u, miku_ws_sub_is_subscribed s (Some u) (Some t) = bool_decide ((u, t) ∈ active)) /\
  exists l, NoDup l /\ (forall u, u ∈ l <-> (u, t) ∈ active) /\
    miku_ws_sub_get_subscribers s (Some t) max = take (Z.to_nat max) l.
Proof.
  intros F. destruct (sub_run_ok ops F) as [E O]. rewrite E. destruct (run_steps sub_step _ ops) as [rcs s]. cbn [fst snd] in *.
  split_and!; [done| |].
  - intros u. unfold miku_ws_sub_is_subscribed. destruct (sub_find_ok s u t O) as [(e & He & Hk)|[Hf Hn]].
    + pose proof (at_lt _ _ _ He) as Hi. rewrite (proj2 (Z.leb_le _ _)) by lia. unfold entry_active. rewrite He. cbn [andb].
      pose proof (entry_active_iff s _ e O He) as Ha. rewrite Hk in Ha. destruct (sub_active e).
      * symmetry. apply bool_decide_eq_true. tauto.
      * symmetry. apply bool_decide_eq_false. by rewrite Ha.
    + rewrite Hf. cbn. symmetry. apply bool_decide_eq_false. rewrite elem_active. intros (e & Hin & _ & Hk). apply Hn.
      rewrite <- Hk. by apply list_elem_of_fmap_2.
  - destruct (subscribers_set s t O) as [N H]. eexists. split_and!; [exact N|exact H|]. by apply subscribers_ok.
Qed.

Definition ex_sub_ops : list sub_op :=
  [Subscribe "bob" "alice"; Subscribe "carol" "alice"; Subscribe "bob" "carol"; Unsubscribe "bob" "alice"; Subscribe "bob" "alice";
   Unsubscribe "carol" "alice"].

Lemma ws_sub_refines_witness :
  let s := (run_steps sub_step miku_ws_sub_create ex_sub_ops).2 in
  miku_ws_sub_get_subscribers s (Some "alice") 64 = ["bob"] /\
  exists l, NoDup l /\ (forall u, u ∈ l <-> (u, "alice") ∈ (run_steps ref_sub (∅, ∅) ex_sub_ops).2.2) /\
    miku_ws_sub_get_subscribers s (Some "alice") 64 = take 64 l.
Proof.
  split; [vm_compute; reflexivity|].
  assert (Forall sub_fits ex_sub_ops) as F by (repeat constructor; unfold fits; cbn; lia).
  pose proof (ws_sub_refines ex_sub_ops "alice" 64 F) as H.
  destruct (run_steps sub_step miku_ws_sub_create ex_sub_ops) as [rcs s].
  destruct (run_steps ref_sub (∅, ∅) ex_sub_ops) as [rcs' [seen active]]. apply H.
Defined.
