(* ===== verification/GwTable.v ===== *)
(** * Message gateway: the connection table (gateway/msggateway/miku_msggateway.c)

    The clients are slots of an array that are reused through a stack of free
    slots; [fd_map] finds the slot of a socket, and the sessions of a user are
    on the chain of the bucket their name hashes to.  Every operation here runs
    under the gateway's mutex.

    [gw_ok] is the invariant.  Under it a socket is found by [find_client_by_fd]
    exactly when a client is online with it ([find_client_ok]), and the walk
    over a bucket reaches every session of a user once ([user_fds_ok]). *)
From S2P Require Import Prelude Hash ProbeIndex ChainIndex SlotChains Seq Models.
#[local] Open Scope string_scope.
#[local] Open Scope list_scope.
#[local] Open Scope Z_scope.

Definition MK_GW_MAX_CLIENTS : Z := 4096.
Definition MK_GW_FD_MAP : Z := 65536.
Definition MK_GW_USER_HASH : Z := 8192.

(** The fields that the gateway writes. *)
Record gw_client := GwClient {
  gc_fd : Z; gc_user_id : string; gc_platform : Z; gc_connect_time : Z;
  gc_online : bool; gc_upgraded : bool; gc_background : bool }.

Record miku_msggw := MsgGw {
  gw_clients : list gw_client;       (* the first client_count slots *)
  gw_fd_map : gmap Z Z;
  gw_user_head : gmap Z Z;
  gw_user_next : gmap Z Z;
  gw_free_stack : list Z;            (* the top first *)
  gw_online_count : Z;
  gw_msgs_in : Z;
  gw_msgs_out : Z;
  gw_seq : miku_seq }.

Definition client_count (gw : miku_msggw) : Z := Z.of_nat (length (gw_clients gw)).

Definition miku_msggw_create : miku_msggw := MsgGw [] ∅ ∅ ∅ [] 0 0 0 miku_seq_create.

Definition set_clients (l : list gw_client) (gw : miku_msggw) : miku_msggw :=
  MsgGw l (gw_fd_map gw) (gw_user_head gw) (gw_user_next gw) (gw_free_stack gw) (gw_online_count gw) (gw_msgs_in gw)
        (gw_msgs_out gw) (gw_seq gw).
Definition set_fd_map (m : gmap Z Z) (gw : miku_msggw) : miku_msggw :=
  MsgGw (gw_clients gw) m (gw_user_head gw) (gw_user_next gw) (gw_free_stack gw) (gw_online_count gw) (gw_msgs_in gw)
        (gw_msgs_out gw) (gw_seq gw).
Definition set_user_index (hd nx : gmap Z Z) (gw : miku_msggw) : miku_msggw :=
  MsgGw (gw_clients gw) (gw_fd_map gw) hd nx (gw_free_stack gw) (gw_online_count gw) (gw_msgs_in gw) (gw_msgs_out gw) (gw_seq gw).
Definition set_free (l : list Z) (n : Z) (gw : miku_msggw) : miku_msggw :=
  MsgGw (gw_clients gw) (gw_fd_map gw) (gw_user_head gw) (gw_user_next gw) l n (gw_msgs_in gw) (gw_msgs_out gw) (gw_seq gw).
Definition set_msgs (i o : Z) (gw : miku_msggw) : miku_msggw :=
  MsgGw (gw_clients gw) (gw_fd_map gw) (gw_user_head gw) (gw_user_next gw) (gw_free_stack gw) (gw_online_count gw) i o (gw_seq gw).
Definition set_seq (s : miku_seq) (gw : miku_msggw) : miku_msggw :=
  MsgGw (gw_clients gw) (gw_fd_map gw) (gw_user_head gw) (gw_user_next gw) (gw_free_stack gw) (gw_online_count gw) (gw_msgs_in gw)
        (gw_msgs_out gw) s.

Definition user_bucket (user_id : string) : Z := mask_slot MK_GW_USER_HASH (fnv1a_64 user_id).

Definition in_fd_map (fd : Z) : bool := (0 <=? fd) && (fd <? MK_GW_FD_MAP).

Definition fd_map_set (gw : miku_msggw) (fd idx : Z) : miku_msggw :=
  if in_fd_map fd then set_fd_map (<[fd := i16 idx]> (gw_fd_map gw)) gw else gw.

Definition fd_map_clear (gw : miku_msggw) (fd : Z) : miku_msggw :=
  if in_fd_map fd then set_fd_map (<[fd := -1]> (gw_fd_map gw)) gw else gw.

Definition user_index_add (gw : miku_msggw) (idx : Z) (user_id : string) : miku_msggw :=
  if nonempty user_id then
    let b := user_bucket user_id in
    set_user_index (<[b := i16 idx]> (gw_user_head gw)) (<[idx := (gw_user_head gw).[b]]> (gw_user_next gw)) gw
  else gw.

(** The loop over the links, from the head of the bucket; a chain has at most
    one link per slot. *)
Definition user_index_del (gw : miku_msggw) (idx : Z) : miku_msggw :=
  match at_ (gw_clients gw) idx with
  | None => gw
  | Some c =>
      if nonempty (gc_user_id c) then
        let b := user_bucket (gc_user_id c) in
        let h := (gw_user_head gw).[b] in
        if h <? 0 then gw
        else if h =? idx
        then set_user_index (<[b := (gw_user_next gw).[idx]]> (gw_user_head gw)) (<[idx := -1]> (gw_user_next gw)) gw
        else set_user_index (gw_user_head gw)
               (unlink_walk (Z.to_nat MK_GW_MAX_CLIENTS) (gw_user_next gw) h (gw_user_next gw).[h] idx) gw
      else gw
  end.

(** The client that [client_offline] leaves in the slot. *)
Definition gone_client (c : gw_client) : gw_client :=
  GwClient (if 0 <=? gc_fd c then -1 else gc_fd c) "" (gc_platform c) (gc_connect_time c) false false (gc_background c).

(** [client_offline] after the presence callback, without the socket calls. *)
Definition client_release (gw : miku_msggw) (idx : Z) (c : gw_client) : miku_msggw :=
  let gw := user_index_del gw idx in
  let gw := if 0 <=? gc_fd c then fd_map_clear gw (gc_fd c) else gw in
  let n := if 0 <? gw_online_count gw then gw_online_count gw - 1 else gw_online_count gw in
  let free := if Z.of_nat (length (gw_free_stack gw)) <? MK_GW_MAX_CLIENTS then i16 idx :: gw_free_stack gw else gw_free_stack gw in
  set_free free n (set_clients (upd_at gone_client idx (gw_clients gw)) gw).

Definition online_with (fd : Z) (c : gw_client) : bool := (gc_fd c =? fd) && gc_online c.

Fixpoint find_from (l : list gw_client) (i fd : Z) : Z :=
  match l with
  | [] => -1
  | c :: l' => if online_with fd c then i else find_from l' (i + 1) fd
  end.

Definition find_client_by_fd (gw : miku_msggw) (fd : Z) : Z :=
  let idx := (gw_fd_map gw).[fd] in
  let hit := in_fd_map fd && (0 <=? idx) && (idx <? client_count gw) &&
             match at_ (gw_clients gw) idx with Some c => online_with fd c | None => false end in
  if hit then idx else find_from (gw_clients gw) 0 fd.

Definition fresh_client (fd now : Z) : gw_client := GwClient fd "" 0 now true false false.

(** -1 when every slot is taken. *)
Definition find_or_add_client (gw : miku_msggw) (fd now : Z) : Z * miku_msggw :=
  let existing := find_client_by_fd gw fd in
  if 0 <=? existing then (existing, gw)
  else
    match gw_free_stack gw with
    | idx :: free =>
        let gw := set_clients (upd_at (fun _ => fresh_client fd now) idx (gw_clients gw)) gw in
        let gw := set_free free (gw_online_count gw + 1) (set_user_index (gw_user_head gw) (<[idx := -1]> (gw_user_next gw)) gw) in
        (idx, fd_map_set gw fd idx)
    | [] =>
        if MK_GW_MAX_CLIENTS <=? client_count gw then (-1, gw)
        else
          let idx := client_count gw in
          let gw := set_clients (gw_clients gw ++ [fresh_client fd now]) gw in
          let gw := set_free [] (gw_online_count gw + 1) (set_user_index (gw_user_head gw) (<[idx := -1]> (gw_user_next gw)) gw) in
          (idx, fd_map_set gw fd idx)
    end.

Definition with_session (uid : string) (platform : Z) (c : gw_client) : gw_client :=
  GwClient (gc_fd c) (strn 63 uid) platform (gc_connect_time c) (gc_online c) true (gc_background c).

(** The table after a handshake of [uid] on slot [idx]. *)
Definition client_upgrade (gw : miku_msggw) (idx : Z) (uid : string) (platform : Z) : miku_msggw :=
  user_index_add (set_clients (upd_at (with_session uid platform) idx (gw_clients gw)) gw) idx uid.

Definition miku_msggw_client_count_nolock (gw : miku_msggw) : Z := gw_online_count gw.

Definition connected (c : gw_client) : bool := gc_online c && gc_upgraded c.
Definition session_of (u : string) (c : gw_client) : bool := connected c && streq (gc_user_id c) u.

(** The slots on the chain of a user's bucket. *)
Definition bucket_walk (gw : miku_msggw) (u : string) : list Z :=
  chain_walk (S (Z.to_nat MK_GW_MAX_CLIENTS)) (gw_user_next gw) (gw_user_head gw).[user_bucket u].

(** The sockets of the sessions that a message to [u] is written to. *)
Definition user_fds (gw : miku_msggw) (u : string) : list Z :=
  omap (fun i => match at_ (gw_clients gw) i with
                 | Some c => if session_of u c then Some (gc_fd c) else None
                 | None => None
                 end) (bucket_walk gw u).

(** The sockets of a broadcast. *)
Definition all_fds (gw : miku_msggw) : list Z := gc_fd <$> filter (fun c => connected c = true) (gw_clients gw).

(** ** Sequence numbers of the gateway *)

Definition or_default (conversation_id : option string) : option string :=
  if given conversation_id then conversation_id else Some "default".

Definition miku_msggw_peek_max_seq (gw : miku_msggw) (conversation_id : option string) : Z :=
  miku_seq_current (gw_seq gw) (or_default conversation_id).

(** None is the status -1. *)
Definition miku_msggw_alloc_seq (gw : miku_msggw) (conversation_id : option string) : option Z * miku_msggw :=
  let '(n, s) := miku_seq_next (gw_seq gw) (or_default conversation_id) in
  (if n <? 0 then None else Some n, set_seq s gw).

Definition miku_msggw_set_user_read (gw : miku_msggw) (user_id conversation_id : option string) (read_seq : Z) : Z * miku_msggw :=
  match user_id, conversation_id with
  | Some _, Some _ => let '(rc, s) := miku_seq_set_user_read (gw_seq gw) user_id (or_default conversation_id) read_seq in (rc, set_seq s gw)
  | _, _ => (-1, gw)
  end.

Definition miku_msggw_get_user_read (gw : miku_msggw) (user_id conversation_id : option string) : Z :=
  match user_id, conversation_id with
  | Some _, Some _ => miku_seq_get_user_read (gw_seq gw) user_id (or_default conversation_id)
  | _, _ => 0
  end.

(** ** Slots of the table *)

Definition slot_of (gw : miku_msggw) (idx : Z) : option gw_client :=
  if (idx <? 0) || (client_count gw <=? idx) then None else at_ (gw_clients gw) idx.

Definition miku_msggw_set_background_nolock (gw : miku_msggw) (client_idx : Z) (background : bool) : Z * miku_msggw :=
  match slot_of gw client_idx with
  | None => (-1, gw)
  | Some _ => (0, set_clients (upd_at (fun c => GwClient (gc_fd c) (gc_user_id c) (gc_platform c) (gc_connect_time c) (gc_online c)
                                                (gc_upgraded c) background) client_idx (gw_clients gw)) gw)
  end.

(** None is the status -1. *)
Definition miku_msggw_get_client_user_id_nolock (gw : miku_msggw) (client_idx : Z) (out_cap : nat) : option string :=
  match slot_of gw client_idx with
  | Some c => if gc_online c && nonempty (gc_user_id c) then Some (strn (out_cap - 1) (gc_user_id c)) else None
  | None => None
  end.

(** ** Invariant *)

Definition on_bucket (l : list gw_client) (b i : Z) : Prop :=
  exists c, at_ l i = Some c /\ gc_online c = true /\ nonempty (gc_user_id c) = true /\ user_bucket (gc_user_id c) = b.

(** [ch b] is the chain of bucket [b]. *)
Record uchains (hd nx : gmap Z Z) (l : list gw_client) (ch : Z -> list Z) : Prop := {
  uc_head : forall b, hd.[b] = first_of (ch b);
  uc_link : forall b, linked nx (ch b);
  uc_nodup : forall b, NoDup (ch b);
  uc_mem : forall b i, i ∈ ch b <-> on_bucket l b i }.

Definition online_total (l : list gw_client) : nat := length (filter (fun c => gc_online c = true) l).

Record gw_ok (gw : miku_msggw) : Prop := {
  go_max : client_count gw <= MK_GW_MAX_CLIENTS;
  go_free_nodup : NoDup (gw_free_stack gw);
  go_free : forall i, i ∈ gw_free_stack gw <-> exists c, at_ (gw_clients gw) i = Some c /\ gc_online c = false;
  go_fd : forall i c, at_ (gw_clients gw) i = Some c -> gc_online c = true -> 0 <= gc_fd c;
  go_fds : forall i j c d, at_ (gw_clients gw) i = Some c -> at_ (gw_clients gw) j = Some d ->
    gc_online c = true -> gc_online d = true -> gc_fd c = gc_fd d -> i = j;
  go_map : forall i c, at_ (gw_clients gw) i = Some c -> gc_online c = true -> in_fd_map (gc_fd c) = true ->
    (gw_fd_map gw).[gc_fd c] = i;
  go_plain : forall i c, at_ (gw_clients gw) i = Some c -> gc_upgraded c = false -> gc_user_id c = "";
  go_count : gw_online_count gw = Z.of_nat (online_total (gw_clients gw));
  go_chains : exists ch, uchains (gw_user_head gw) (gw_user_next gw) (gw_clients gw) ch }.

Lemma gw_create_ok : gw_ok miku_msggw_create.
Proof.
  split; cbn; try done.
  - constructor.
  - intros i. split; [by intros ?%elem_of_nil|]. intros (c & H & _). by apply at_lt in H; cbn in H; lia.
  - intros i c H. apply at_lt in H. cbn in H. lia.
  - intros i j c d H. apply at_lt in H. cbn in H. lia.
  - intros i c H. apply at_lt in H. cbn in H. lia.
  - intros i c H. apply at_lt in H. cbn in H. lia.
  - exists (fun _ => []). split; try done.
    + intros b. constructor.
    + intros b i. split; [by intros ?%elem_of_nil|]. intros (c & H & _). apply at_lt in H. cbn in H. lia.
Qed.

(** ** Lookups *)

Lemma at_cons_S {A} (x : A) l k : 0 <= k -> at_ (x :: l) (k + 1) = at_ l k.
Proof.
  intros Hk. unfold at_. destruct (Z.ltb_spec (k + 1) 0), (Z.ltb_spec k 0); try lia.
  by replace (Z.to_nat (k + 1)) with (S (Z.to_nat k)) by lia.
Qed.

Lemma find_fd_spec l fd : forall i,
  (exists k c, at_ l k = Some c /\ online_with fd c = true /\ find_from l i fd = i + k) \/
  (find_from l i fd = -1 /\ forall k c, at_ l k = Some c -> online_with fd c = false).
Proof.
  induction l as [|c l IH]; intros i; cbn [find_from].
  - right. split; [done|]. intros k c H. apply at_lt in H. cbn in H. lia.
  - destruct (online_with fd c) eqn:E.
    + left. exists 0, c. split_and!; [done|done|lia].
    + destruct (IH (i + 1)) as [(k & d & Hk & Ho & ->)|[-> H]].
      * left. exists (k + 1), d. pose proof (at_lt _ _ _ Hk). rewrite at_cons_S by lia. split_and!; [done|done|lia].
      * right. split; [done|]. intros k d Hk. pose proof (at_lt _ _ _ Hk) as Lk. destruct (decide (k = 0)) as [->|Hne].
        -- unfold at_ in Hk. cbn in Hk. injection Hk as <-. exact E.
        -- replace k with ((k - 1) + 1) in Hk by lia. rewrite at_cons_S in Hk by lia. by eapply H.
Qed.

Lemma online_with_true fd c : online_with fd c = true <-> gc_fd c = fd /\ gc_online c = true.
Proof. unfold online_with. rewrite andb_true_iff, Z.eqb_eq. done. Qed.

(** The socket lookup finds the client that is online with it. *)
Lemma find_client_ok gw fd : gw_ok gw ->
  (exists c, at_ (gw_clients gw) (find_client_by_fd gw fd) = Some c /\ gc_fd c = fd /\ gc_online c = true) \/
  (find_client_by_fd gw fd = -1 /\ forall i c, at_ (gw_clients gw) i = Some c -> gc_online c = true -> gc_fd c <> fd).
Proof.
  intros O. unfold find_client_by_fd. destruct (_ && _ && _ && _) eqn:E.
  - left. apply andb_prop in E as [_ E]. destruct (at_ (gw_clients gw) _) as [c|]; [|done].
    apply online_with_true in E as [E1 E2]. by exists c.
  - destruct (find_fd_spec (gw_clients gw) fd 0) as [(k & c & Hk & Ho & ->)|[-> H]].
    + left. exists c. apply online_with_true in Ho as [H1 H2]. split_and!; [by rewrite Z.add_0_l|done|done].
    + right. split; [done|]. intros i c Hi Ho Hf. pose proof (H i c Hi) as Hx. by rewrite (proj2 (online_with_true fd c)) in Hx.
Qed.

Lemma find_client_iff gw fd i c : gw_ok gw -> at_ (gw_clients gw) i = Some c -> gc_online c = true -> gc_fd c = fd ->
  find_client_by_fd gw fd = i.
Proof.
  intros O Hi Ho Hf. destruct (find_client_ok gw fd O) as [(d & Hd & Hfd & Hod)|[_ H]].
  - eapply (go_fds _ O); [exact Hd|exact Hi|done|done|congruence].
  - by destruct (H i c Hi Ho).
Qed.

(** ** Chains *)

Lemma bucket_bound u : 0 <= user_bucket u < MK_GW_USER_HASH.
Proof. apply (mask_slot_bound 13). lia. Qed.

Section Chains.
Context {hd nx : gmap Z Z} {l : list gw_client} {ch : Z -> list Z} (C : uchains hd nx l ch).

Lemma bucket_length b : (length (ch b) <= length l)%nat.
Proof using C.
  rewrite <- (Nat2Z.id (length l)), <- (length_seqZ 0 (Z.of_nat (length l))).
  apply submseteq_length, NoDup_submseteq; [apply (uc_nodup _ _ _ _ C)|].
  intros i (c & Hi & _)%(uc_mem _ _ _ _ C). apply elem_of_seqZ. apply at_lt in Hi. lia.
Qed.

Lemma bucket_nonneg b : Forall (fun i => 0 <= i) (ch b).
Proof using C. apply list.Forall_forall. intros i (c & Hi & _)%(uc_mem _ _ _ _ C). apply at_lt in Hi. lia. Qed.

Lemma bucket_walk_ok b fuel : (length l < fuel)%nat -> chain_walk fuel nx hd.[b] = ch b.
Proof using C.
  intros Hf. rewrite (uc_head _ _ _ _ C). apply chain_walk_linked; [apply (uc_link _ _ _ _ C)|apply bucket_nonneg|].
  pose proof (bucket_length b). lia.
Qed.

Lemma bucket_disjoint b b' i : i ∈ ch b -> i ∈ ch b' -> b = b'.
Proof using C. intros (c & H1 & _ & _ & <-)%(uc_mem _ _ _ _ C) (d & H2 & _ & _ & <-)%(uc_mem _ _ _ _ C). congruence. Qed.

(** A slot pushed on the chain of a bucket. *)
Lemma uchains_push l' b idx : 0 <= idx -> (forall b', idx ∉ ch b') ->
  (forall b' i, on_bucket l' b' i <-> (i = idx /\ b' = b) \/ (i <> idx /\ on_bucket l b' i)) ->
  uchains (<[b:=idx]> hd) (<[idx:=hd.[b]]> nx) l' (fun b' => if decide (b' = b) then idx :: ch b else ch b').
Proof using C.
  intros Hi Hn Hl. assert (forall b', ~ on_bucket l b' idx) as Hno by (intros b' H; apply (Hn b'); by apply (uc_mem _ _ _ _ C)).
  split.
  - intros b'. destruct (decide (b' = b)) as [->|Hne]; [by rewrite cell_insert_eq|].
    rewrite cell_insert_ne by done. apply (uc_head _ _ _ _ C).
  - intros b'. destruct (decide (b' = b)) as [->|Hne].
    + split; [rewrite cell_insert_eq; apply (uc_head _ _ _ _ C)|]. apply linked_insert; [apply Hn|apply (uc_link _ _ _ _ C)].
    + apply linked_insert; [apply Hn|apply (uc_link _ _ _ _ C)].
  - intros b'. case_decide; [constructor; [apply Hn|]|]; apply (uc_nodup _ _ _ _ C).
  - intros b' i. rewrite Hl. destruct (decide (b' = b)) as [->|Hne].
    + rewrite list.elem_of_cons, (uc_mem _ _ _ _ C). destruct (decide (i = idx)) as [->|]; naive_solver.
    + rewrite (uc_mem _ _ _ _ C). split; [|naive_solver]. intros H. right. split; [|done]. intros ->. by apply (Hno b').
Qed.

(** A slot whose link does not matter. *)
Lemma uchains_next l' idx v : (forall b, idx ∉ ch b) -> (forall b i, on_bucket l' b i <-> on_bucket l b i) ->
  uchains hd (<[idx:=v]> nx) l' ch.
Proof using C.
  intros Hn Hl. split; [apply (uc_head _ _ _ _ C)| |apply (uc_nodup _ _ _ _ C)|].
  - intros b. apply linked_insert; [apply Hn|apply (uc_link _ _ _ _ C)].
  - intros b i. rewrite Hl. apply (uc_mem _ _ _ _ C).
Qed.

Lemma uchains_ext l' : (forall b i, on_bucket l' b i <-> on_bucket l b i) -> uchains hd nx l' ch.
Proof using C.
  intros Hl. split; [apply (uc_head _ _ _ _ C)|apply (uc_link _ _ _ _ C)|apply (uc_nodup _ _ _ _ C)|].
  intros b i. rewrite Hl. apply (uc_mem _ _ _ _ C).
Qed.

Lemma uchains_same l' ch' : (forall b, ch' b = ch b) -> (forall b i, on_bucket l' b i <-> on_bucket l b i) -> uchains hd nx l' ch'.
Proof using C.
  intros Hc Hl. split; intros b; rewrite ?Hc; [apply (uc_head _ _ _ _ C)|apply (uc_link _ _ _ _ C)|apply (uc_nodup _ _ _ _ C)|].
  intros i. rewrite Hl. apply (uc_mem _ _ _ _ C).
Qed.

(** A slot taken off its chain; [nx'] bridges it. *)
Lemma uchains_cut hd' nx' l' b idx : idx ∈ ch b ->
  (forall b', hd'.[b'] = if decide (b' = b) then first_of (filter (fun i => i <> idx) (ch b)) else hd.[b']) ->
  linked nx' (filter (fun i => i <> idx) (ch b)) ->
  (forall i, i ∉ ch b -> nx'.[i] = nx.[i]) ->
  (forall b' i, on_bucket l' b' i <-> i <> idx /\ on_bucket l b' i) ->
  uchains hd' nx' l' (fun b' => filter (fun i => i <> idx) (ch b')).
Proof using C.
  intros Hin Hh Hk Hnx Hl. assert (forall b', b' <> b -> filter (fun i => i <> idx) (ch b') = ch b') as Hother.
  { intros b' Hb. apply filter_all. intros x Hx ->. apply Hb. by eapply bucket_disjoint. }
  split.
  - intros b'. rewrite Hh. case_decide as Eb; [by rewrite Eb|]. rewrite Hother by done. apply (uc_head _ _ _ _ C).
  - intros b'. destruct (decide (b' = b)) as [->|Hb]; [exact Hk|]. rewrite Hother by done.
    eapply linked_ext; [|apply (uc_link _ _ _ _ C)]. intros i Hi. apply Hnx. intros Hi'. apply Hb. by eapply bucket_disjoint.
  - intros b'. apply list.NoDup_filter, (uc_nodup _ _ _ _ C).
  - intros b' i. rewrite list_elem_of_filter, Hl, (uc_mem _ _ _ _ C). done.
Qed.
End Chains.

(** ** Operations *)

Lemma index_del_frame gw idx :
  gw_clients (user_index_del gw idx) = gw_clients gw /\ gw_fd_map (user_index_del gw idx) = gw_fd_map gw /\
  gw_free_stack (user_index_del gw idx) = gw_free_stack gw /\ gw_online_count (user_index_del gw idx) = gw_online_count gw.
Proof.
  unfold user_index_del. destruct (at_ (gw_clients gw) idx) as [c|]; [|done]. destruct (nonempty _); [|done]. cbn zeta.
  destruct (_ <? 0); [done|]. by destruct (_ =? idx).
Qed.

Lemma index_del_ok gw idx c l' ch : uchains (gw_user_head gw) (gw_user_next gw) (gw_clients gw) ch ->
  client_count gw <= MK_GW_MAX_CLIENTS -> at_ (gw_clients gw) idx = Some c -> gc_online c = true ->
  (forall b i, on_bucket l' b i <-> i <> idx /\ on_bucket (gw_clients gw) b i) ->
  uchains (gw_user_head (user_index_del gw idx)) (gw_user_next (user_index_del gw idx)) l' (fun b => filter (fun i => i <> idx) (ch b)).
Proof.
  intros C Hmax Hc Ho Hl. unfold user_index_del. rewrite Hc. destruct (nonempty (gc_user_id c)) eqn:Hu.
  2:{ assert (forall b i, on_bucket (gw_clients gw) b i -> i <> idx) as Hno by (intros b i (d & Hd & _ & Hn & _) ->; congruence).
      assert (forall b, filter (fun i => i <> idx) (ch b) = ch b) as Ef.
      { intros b. apply filter_all. intros i Hi. apply (uc_mem _ _ _ _ C) in Hi. by eapply Hno. }
      apply (uchains_same C); [exact Ef|]. intros b i. rewrite Hl. split; [tauto|]. intros H. split; [by eapply Hno|done]. }
  cbn zeta. set (b := user_bucket (gc_user_id c)). assert (idx ∈ ch b) as Hin by (apply (uc_mem _ _ _ _ C); by exists c).
  rewrite (uc_head _ _ _ _ C b). pose proof (uc_nodup _ _ _ _ C b) as Hnd. pose proof (uc_link _ _ _ _ C b) as Hlk.
  pose proof (bucket_nonneg C b) as Hpos. pose proof (bucket_length C b) as Hlen.
  destruct (ch b) as [|h rest] eqn:Eb; [by apply elem_of_nil in Hin|]. unfold first_of. cbn [head default from_option id].
  apply list.Forall_cons in Hpos as [Hh Hpos]. apply list.NoDup_cons in Hnd as [Hn1 Hn2]. destruct Hlk as [Hl1 Hl2].
  destruct (Z.ltb_spec h 0); [lia|].
  destruct (Z.eqb_spec h idx) as [->|Hne]; cbn [gw_user_head gw_user_next set_user_index].
  - assert (filter (fun i => i <> idx) (idx :: rest) = rest) as Ef.
    { rewrite filter_cons_False by tauto. apply filter_all. by intros x Hx ->. }
    apply (uchains_cut C _ _ l' b idx); rewrite ?Eb, ?Ef; [by left| | | |exact Hl].
    + intros b'. case_decide as E; [by rewrite E, cell_insert_eq|by rewrite cell_insert_ne].
    + by apply linked_insert.
    + intros i Hi. rewrite cell_insert_ne; [done|]. intros ->. apply Hi. by left.
  - apply list.elem_of_cons in Hin as [->|Hin]; [done|]. unfold client_count, MK_GW_MAX_CLIENTS in *. cbn in Hlen.
    destruct (unlink_walk_ok (nx:=gw_user_next gw) idx rest h (Z.to_nat 4096) Hin) as [R1 R2]; [by constructor|done|lia|by split|].
    rewrite Hl1. apply (uchains_cut C _ _ l' b idx); rewrite ?Eb; [by right| | | |exact Hl].
    + intros b'. case_decide as E; [|done]. rewrite E, (uc_head _ _ _ _ C), Eb. by rewrite filter_cons_True.
    + rewrite filter_cons_True by done. exact R1.
    + exact R2.
Qed.

Lemma at_upd {A} (f : A -> A) (l : list A) i j : 0 <= i ->
  at_ (upd_at f i l) j = if decide (j = i) then f <$> at_ l i else at_ l j.
Proof.
  intros Hi. case_decide as E; [subst|by apply at_upd_ne]. destruct (at_ l i) as [x|] eqn:Ex; [by apply at_upd_eq|].
  unfold at_, upd_at in *. destruct (i <? 0); [done|]. rewrite list_lookup_alter_eq. by rewrite Ex.
Qed.

Lemma online_upd l i c d f : at_ l i = Some c -> f c = d ->
  (online_total (upd_at f i l) + (if gc_online c then 1 else 0) = online_total l + (if gc_online d then 1 else 0))%nat.
Proof.
  intros Hi <-. destruct (at_split _ _ _ Hi) as (l1 & l2 & -> & ->). rewrite upd_at_app. unfold online_total.
  rewrite !list.filter_app, !length_app. cbn [app]. rewrite !filter_cons.
  destruct (gc_online c), (gc_online (f c)); repeat case_decide; try done; cbn; lia.
Qed.

Lemma in_fd_map_neq gw fd idx fd' : fd <> fd' -> (gw_fd_map (fd_map_set gw fd idx)).[fd'] = (gw_fd_map gw).[fd'].
Proof. intros H. unfold fd_map_set. destruct (in_fd_map fd); [|done]. cbn. by rewrite cell_insert_ne. Qed.

(** A session that ends frees its slot and leaves the others as they are. *)
Lemma release_ok gw idx c : gw_ok gw -> at_ (gw_clients gw) idx = Some c -> gc_online c = true ->
  gw_ok (client_release gw idx c) /\ gw_clients (client_release gw idx c) = upd_at gone_client idx (gw_clients gw) /\
  forall ch, uchains (gw_user_head gw) (gw_user_next gw) (gw_clients gw) ch ->
    uchains (gw_user_head (client_release gw idx c)) (gw_user_next (client_release gw idx c)) (gw_clients (client_release gw idx c))
      (fun b => filter (fun i => i <> idx) (ch b)).
Proof.
  intros O Hc Ho. pose proof (at_lt _ _ _ Hc) as Hi. pose proof (go_max _ O) as Hmax. destruct (index_del_frame gw idx) as (F1 & F2 & F3 & F4).
  assert (0 <= gc_fd c) as Hfd by (by eapply (go_fd _ O)). unfold client_release.
  rewrite (proj2 (Z.leb_le 0 (gc_fd c))) by done.
  assert (gw_clients (fd_map_clear (user_index_del gw idx) (gc_fd c)) = gw_clients gw /\
          gw_free_stack (fd_map_clear (user_index_del gw idx) (gc_fd c)) = gw_free_stack gw /\
          gw_online_count (fd_map_clear (user_index_del gw idx) (gc_fd c)) = gw_online_count gw /\
          gw_user_head (fd_map_clear (user_index_del gw idx) (gc_fd c)) = gw_user_head (user_index_del gw idx) /\
          gw_user_next (fd_map_clear (user_index_del gw idx) (gc_fd c)) = gw_user_next (user_index_del gw idx)) as (G1 & G2 & G3 & G4 & G5)
    by (unfold fd_map_clear; destruct (in_fd_map _); cbn; by rewrite ?F1, ?F3, ?F4).
  rewrite G1, G2, G3. unfold client_count, MK_GW_MAX_CLIENTS in *.
  assert (idx ∉ gw_free_stack gw) as Hnf by (intros (d & Hd & Hoff)%(go_free _ O); congruence).
  assert (Z.of_nat (length (gw_free_stack gw)) < 4096) as Hfree.
  { enough (length (idx :: gw_free_stack gw) <= length (gw_clients gw))%nat by (cbn in *; lia).
    rewrite <- (Nat2Z.id (length (gw_clients gw))), <- (length_seqZ 0 (Z.of_nat (length (gw_clients gw)))).
    apply submseteq_length, NoDup_submseteq; [constructor; [done|apply (go_free_nodup _ O)]|].
    intros i [->|Hin]%list.elem_of_cons; apply elem_of_seqZ; [lia|]. apply (go_free _ O) in Hin as (d & Hd & _). apply at_lt in Hd. lia. }
  rewrite (proj2 (Z.ltb_lt _ _)) by done. rewrite i16_small by lia.
  pose proof (online_upd _ _ _ _ gone_client Hc eq_refl) as Hcnt. rewrite Ho in Hcnt. cbn [gone_client gc_online] in Hcnt.
  pose proof (go_count _ O) as Hn.
  assert (forall j d, at_ (upd_at gone_client idx (gw_clients gw)) j = Some d -> gc_online d = true -> j <> idx /\ at_ (gw_clients gw) j = Some d) as Hon.
  { intros j d Hj Hd. rewrite at_upd in Hj by lia. case_decide; [|done]. rewrite Hc in Hj. cbn in Hj. by simplify_eq. }
  assert (forall ch, uchains (gw_user_head gw) (gw_user_next gw) (gw_clients gw) ch ->
    uchains (gw_user_head (user_index_del gw idx)) (gw_user_next (user_index_del gw idx)) (upd_at gone_client idx (gw_clients gw))
      (fun b => filter (fun i => i <> idx) (ch b))) as Hch.
  { intros ch C. apply (index_del_ok gw idx c _ ch C Hmax Hc Ho). intros b i. unfold on_bucket. split.
    + intros (d & Hd & Hod & Hr). apply Hon in Hd as [Hne Hd]; [|done]. split; [done|]. by exists d.
    + intros [Hne (d & Hd & Hr)]. exists d. rewrite at_upd by lia. by rewrite decide_False. }
  split_and!; [|done|intros ch C; cbn; rewrite G4, G5; by apply Hch].
  split; cbn [gw_clients gw_free_stack gw_fd_map gw_online_count set_free set_clients client_count gw_user_head gw_user_next].
  - unfold client_count. cbn. rewrite length_upd_at. done.
  - constructor; [done|apply (go_free_nodup _ O)].
  - intros i. rewrite list.elem_of_cons, (go_free _ O), at_upd by lia. case_decide as E.
    + subst. rewrite Hc. cbn. split; [intros _; eauto|by left].
    + split; [by intros [?|?]|by right].
  - intros i d Hd Hod. apply Hon in Hd as [_ Hd]; [|done]. by eapply (go_fd _ O).
  - intros i j d e Hd He Hod Hoe. apply Hon in Hd as [_ Hd]; [|done]. apply Hon in He as [_ He]; [|done]. by eapply (go_fds _ O).
  - intros i d Hd Hod Hm. apply Hon in Hd as [Hne Hd]; [|done].
    assert (gc_fd d <> gc_fd c) as Hdc by (intros E; apply Hne; by eapply (go_fds _ O)).
    unfold fd_map_clear. destruct (in_fd_map (gc_fd c)); cbn; rewrite ?cell_insert_ne by done; rewrite F2; by eapply (go_map _ O).
  - intros i d Hd Hup. rewrite at_upd in Hd by lia. case_decide; [|by eapply (go_plain _ O)]. rewrite Hc in Hd. cbn in Hd. by simplify_eq.
  - rewrite Hn. destruct (Z.ltb_spec 0 (Z.of_nat (online_total (gw_clients gw)))); lia.
  - rewrite G4, G5. destruct (go_chains _ O) as [ch C]. eexists. by apply Hch.
Qed.

(** A slot that is not online is filled for a socket that no client has. *)
Section Place.
Context (gw : miku_msggw) (O : gw_ok gw) (l' : list gw_client) (free : list Z) (idx fd now : Z).
Context (Hat : forall j, at_ l' j = if decide (j = idx) then Some (fresh_client fd now) else at_ (gw_clients gw) j).
Context (Hlen : Z.of_nat (length l') <= MK_GW_MAX_CLIENTS) (Hidx : 0 <= idx < MK_GW_MAX_CLIENTS).
Context (Hoff : forall c, at_ (gw_clients gw) idx = Some c -> gc_online c = false).
Context (Hnd : NoDup free) (Hfree : forall i, i ∈ free <-> i <> idx /\ i ∈ gw_free_stack gw).
Context (Hfd : 0 <= fd) (Hnew : forall i c, at_ (gw_clients gw) i = Some c -> gc_online c = true -> gc_fd c <> fd).
Context (Hcnt : online_total l' = S (online_total (gw_clients gw))).

Lemma place_old j d : at_ l' j = Some d -> j <> idx -> at_ (gw_clients gw) j = Some d.
Proof using Hat. intros Hj Hne. rewrite Hat in Hj. by rewrite decide_False in Hj. Qed.

Lemma place_client_ok :
  gw_ok (fd_map_set (set_free free (gw_online_count gw + 1)
           (set_user_index (gw_user_head gw) (<[idx := -1]> (gw_user_next gw)) (set_clients l' gw))) fd idx).
Proof using All.
  assert (forall d, at_ l' idx = Some d -> d = fresh_client fd now) as Hself.
  { intros d Hd. rewrite Hat, decide_True in Hd by done. by injection Hd as <-. }
  set (g := set_free _ _ _).
  assert (gw_clients (fd_map_set g fd idx) = l' /\ gw_free_stack (fd_map_set g fd idx) = free /\
          gw_online_count (fd_map_set g fd idx) = gw_online_count gw + 1 /\ gw_user_head (fd_map_set g fd idx) = gw_user_head gw /\
          gw_user_next (fd_map_set g fd idx) = <[idx := -1]> (gw_user_next gw)) as (G1 & G2 & G3 & G4 & G5)
    by (unfold fd_map_set; destruct (in_fd_map fd); done).
  split; rewrite ?G1, ?G2, ?G3, ?G4, ?G5.
  - unfold client_count. by rewrite G1.
  - done.
  - intros i. rewrite Hfree, (go_free _ O). split.
    + intros (Hne & c & Hc & Ho). exists c. by rewrite Hat, decide_False.
    + intros (c & Hc & Ho). destruct (decide (i = idx)) as [->|Hne]; [apply Hself in Hc as ->; done|].
      split; [done|]. exists c. split; [by apply place_old|done].
  - intros i c Hc Ho. destruct (decide (i = idx)) as [->|Hne]; [by apply Hself in Hc as ->|]. by eapply (go_fd _ O), Ho; apply place_old.
  - intros i j c d Hc Hd Ho Ho' E. destruct (decide (i = idx)) as [->|Hi], (decide (j = idx)) as [->|Hj]; [done| | |].
    + apply Hself in Hc as ->. destruct (Hnew j d); [by apply place_old|done|done].
    + apply Hself in Hd as ->. destruct (Hnew i c); [by apply place_old|done|done].
    + eapply (go_fds _ O); [by apply place_old|by apply place_old|done|done|done].
  - intros i c Hc Ho Hin. destruct (decide (i = idx)) as [->|Hi].
    + apply Hself in Hc as ->. cbn in *. unfold fd_map_set. rewrite Hin. cbn. rewrite cell_insert_eq. apply i16_small.
      unfold MK_GW_MAX_CLIENTS in Hidx. lia.
    + apply place_old in Hc; [|done]. rewrite in_fd_map_neq by (symmetry; by eapply Hnew). by eapply (go_map _ O).
  - intros i c Hc Hu. destruct (decide (i = idx)) as [->|Hi]; [by apply Hself in Hc as ->|]. by eapply (go_plain _ O), Hu; apply place_old.
  - rewrite (go_count _ O), Hcnt. lia.
  - destruct (go_chains _ O) as [ch C]. exists ch. apply (uchains_next C).
    + intros b (c & Hc & Ho & _)%(uc_mem _ _ _ _ C). apply Hoff in Hc. congruence.
    + intros b i. unfold on_bucket. split.
      * intros (c & Hc & Ho & Hn & Hb). destruct (decide (i = idx)) as [->|Hi]; [by apply Hself in Hc as ->|].
        exists c. split; [by apply place_old|done].
      * intros (c & Hc & Ho & Hr). exists c. split; [|done]. rewrite Hat, decide_False; [done|]. intros ->. apply Hoff in Hc. congruence.
Qed.
End Place.

Lemma at_snoc_upd {A} (l : list A) x j :
  at_ (l ++ [x]) j = if decide (j = Z.of_nat (length l)) then Some x else at_ l j.
Proof.
  case_decide as E; [subst; apply at_snoc|]. unfold at_. destruct (Z.ltb_spec j 0); [done|].
  destruct (decide (Z.to_nat j < length l)%nat); [by rewrite lookup_app_l|].
  rewrite !lookup_ge_None_2; [done|lia|rewrite length_app; cbn; lia].
Qed.

(** A new socket gets a slot, or all of them are online. *)
Lemma find_or_add_client_ok gw fd now idx gw' : gw_ok gw -> 0 <= fd -> find_or_add_client gw fd now = (idx, gw') ->
  gw_ok gw' /\
  (find_client_by_fd gw fd = -1 -> idx <> -1 ->
   (forall j, at_ (gw_clients gw') j = if decide (j = idx) then Some (fresh_client fd now) else at_ (gw_clients gw) j) /\
   (forall c, at_ (gw_clients gw) idx = Some c -> gc_online c = false)).
Proof.
  intros O Hfd E. unfold find_or_add_client in E. destruct (find_client_ok gw fd O) as [(c & Hc & Hf & Ho)|[Hn Hnone]].
  { pose proof (at_lt _ _ _ Hc). rewrite (proj2 (Z.leb_le 0 _)) in E by lia. injection E as <- <-. split; [done|]. lia. }
  rewrite Hn in E. cbn [Z.leb Z.compare] in E. change (0 <=? -1) with false in E. cbn iota in E.
  pose proof (go_max _ O) as Hmax. destruct (gw_free_stack gw) as [|i free] eqn:Ef.
  - destruct (Z.leb_spec MK_GW_MAX_CLIENTS (client_count gw)); injection E as <- <-; [by split|].
    assert (forall j, at_ (gw_clients gw ++ [fresh_client fd now]) j =
              if decide (j = client_count gw) then Some (fresh_client fd now) else at_ (gw_clients gw) j) as Hat by (intros j; apply at_snoc_upd).
    assert (forall c, at_ (gw_clients gw) (client_count gw) = Some c -> gc_online c = false) as Hoff.
    { intros c Hc. apply at_lt in Hc. unfold client_count in Hc. lia. }
    split.
    + eapply (place_client_ok gw O _ []); [exact Hat| |unfold client_count in *; lia|exact Hoff|constructor| |done|exact Hnone|].
      * rewrite length_app. unfold client_count, MK_GW_MAX_CLIENTS in *. cbn. lia.
      * intros i. rewrite Ef. split; [by intros ?%elem_of_nil|by intros [_ ?]].
      * unfold online_total. rewrite list.filter_app, length_app, filter_cons_True, filter_nil by done. cbn [length]. lia.
    + intros _ _. split; [|exact Hoff]. intros j. rewrite <- Hat. unfold fd_map_set. by destruct (in_fd_map fd).
  - assert (i ∈ gw_free_stack gw) as Hin by (rewrite Ef; by left). apply (go_free _ O) in Hin as (c & Hc & Hoff).
    pose proof (at_lt _ _ _ Hc) as Hi. pose proof (go_free_nodup _ O) as Hnd. rewrite Ef in Hnd. apply list.NoDup_cons in Hnd as [Hni Hnd].
    assert (forall j, at_ (upd_at (fun _ => fresh_client fd now) i (gw_clients gw)) j =
              if decide (j = i) then Some (fresh_client fd now) else at_ (gw_clients gw) j) as Hat.
    { intros j. rewrite at_upd by lia. by rewrite Hc. }
    assert (forall d, at_ (gw_clients gw) i = Some d -> gc_online d = false) as Hoff' by congruence.
    injection E as <- <-. split.
    + eapply (place_client_ok gw O _ free); [exact Hat| |unfold client_count in *; lia|exact Hoff'|exact Hnd| |done|exact Hnone|].
      * by rewrite length_upd_at.
      * intros j. rewrite Ef, list.elem_of_cons. split; [|naive_solver]. intros Hj. split; [|by right]. by intros ->.
      * pose proof (online_upd _ _ _ _ (fun _ => fresh_client fd now) Hc eq_refl) as Hk. rewrite Hoff in Hk. cbn in Hk. lia.
    + intros _ _. split; [|exact Hoff']. intros j. rewrite <- Hat. unfold fd_map_set. by destruct (in_fd_map fd).
Qed.

(** A slot rewritten in place, with its socket and presence. *)
Lemma rewrite_ok gw f idx c hd nx : gw_ok gw -> at_ (gw_clients gw) idx = Some c ->
  gc_fd (f c) = gc_fd c -> gc_online (f c) = gc_online c -> (gc_upgraded (f c) = false -> gc_user_id (f c) = "") ->
  (exists ch, uchains hd nx (upd_at f idx (gw_clients gw)) ch) ->
  gw_ok (set_user_index hd nx (set_clients (upd_at f idx (gw_clients gw)) gw)).
Proof.
  intros O Hc Hfd Hon Hup Hch. pose proof (at_lt _ _ _ Hc) as Hi.
  assert (forall j d, at_ (upd_at f idx (gw_clients gw)) j = Some d ->
            exists e, at_ (gw_clients gw) j = Some e /\ gc_fd d = gc_fd e /\ gc_online d = gc_online e /\ (d = e \/ j = idx /\ d = f c)) as Hd.
  { intros j d Hj. rewrite at_upd in Hj by lia. case_decide; [|by exists d; auto]. subst. rewrite Hc in Hj. cbn in Hj. simplify_eq. eauto 10. }
  split; cbn [gw_clients gw_free_stack gw_fd_map gw_online_count set_clients set_user_index gw_user_head gw_user_next].
  - unfold client_count. cbn. rewrite length_upd_at. apply (go_max _ O).
  - apply (go_free_nodup _ O).
  - intros i. rewrite (go_free _ O), at_upd by lia. case_decide as E; [|done]. subst. rewrite Hc. cbn. split.
    + intros (d & ? & ?). simplify_eq. exists (f d). by rewrite Hon.
    + intros (d & ? & ?). simplify_eq. exists c. by rewrite <- Hon.
  - intros i d (e & He & -> & -> & _)%Hd. by apply (go_fd _ O i).
  - intros i j d e (d' & H1 & -> & -> & _)%Hd (e' & H2 & -> & -> & _)%Hd. by apply (go_fds _ O).
  - intros i d (e & He & -> & -> & _)%Hd. by apply (go_map _ O).
  - intros i d (e & He & _ & _ & [->|[-> ->]])%Hd; [by apply (go_plain _ O i)|done].
  - rewrite (go_count _ O). pose proof (online_upd _ _ _ _ f Hc eq_refl) as Hn. rewrite Hon in Hn. lia.
  - done.
Qed.

Lemma set_background_ok gw idx b : gw_ok gw -> gw_ok (miku_msggw_set_background_nolock gw idx b).2.
Proof.
  intros O. unfold miku_msggw_set_background_nolock, slot_of. destruct (_ || _); [done|].
  destruct (at_ (gw_clients gw) idx) as [c|] eqn:Hc; [|done]. pose proof (at_lt _ _ _ Hc). cbn [snd]. set (f := fun c => GwClient _ _ _ _ _ _ b).
  change (gw_ok (set_user_index (gw_user_head gw) (gw_user_next gw) (set_clients (upd_at f idx (gw_clients gw)) gw))).
  eapply (rewrite_ok gw f); [done|exact Hc|done|done|exact (go_plain _ O idx c Hc)|]. destruct (go_chains _ O) as [ch C]. exists ch.
  apply (uchains_ext C). intros b' i. unfold on_bucket. rewrite at_upd by lia. case_decide as E; [|done]. subst i. rewrite Hc. cbn [fmap option_fmap option_map].
  split; intros (d & Hd & Hr); injection Hd as <-; eexists; (split; [reflexivity|exact Hr]).
Qed.

(** A handshake puts the session on the chain of its user. *)
Lemma upgrade_ok gw idx c uid platform : gw_ok gw -> at_ (gw_clients gw) idx = Some c -> gc_online c = true -> gc_upgraded c = false ->
  (String.length uid <= 63)%nat -> gw_ok (client_upgrade gw idx uid platform).
Proof.
  intros O Hc Ho Hup Hlen. pose proof (at_lt _ _ _ Hc) as Hi. pose proof (go_max _ O) as Hmax. pose proof (go_plain _ O _ _ Hc Hup) as Hp.
  destruct (go_chains _ O) as [ch C]. unfold client_upgrade, user_index_add.
  assert (forall b i, on_bucket (gw_clients gw) b i -> i <> idx) as Hno by (intros b i (d & Hd & _ & Hn & _) ->; rewrite Hc in Hd; injection Hd as <-; by rewrite Hp in Hn).
  destruct (nonempty uid) eqn:Hu.
  - cbn zeta. rewrite i16_small by (unfold client_count, MK_GW_MAX_CLIENTS in *; lia). cbn [gw_user_head gw_user_next set_clients].
    eapply (rewrite_ok gw (with_session uid platform)); [done|exact Hc|done|done|done|]. eexists. apply (uchains_push C).
    + lia.
    + intros b' Hin. apply (uc_mem _ _ _ _ C) in Hin. by apply Hno in Hin.
    + intros b' i. unfold on_bucket at 1. rewrite at_upd by lia. case_decide as E.
      * subst. rewrite Hc. cbn [fmap option_fmap option_map]. split; [intros (d & Hd & ? & ? & <-); injection Hd as <-; cbn; rewrite strn_short by done; by left|].
        intros [[_ ->]|[? _]]; [|done]. eexists. split_and!; [done|done| |]; cbn; by rewrite strn_short.
      * split; [intros H; right; done|]. by intros [[? _]|[_ H]].
  - change (gw_ok (set_user_index (gw_user_head gw) (gw_user_next gw) (set_clients (upd_at (with_session uid platform) idx (gw_clients gw)) gw))).
    eapply (rewrite_ok gw (with_session uid platform)); [done|exact Hc|done|done|done|]. exists ch. apply (uchains_ext C).
    intros b i. unfold on_bucket. rewrite at_upd by lia. case_decide as E; [|done]. subst. rewrite Hc. cbn [fmap option_fmap option_map].
    split; intros (d & Hd & _ & Hn & _); injection Hd as <-; cbn in Hn; [rewrite strn_short in Hn by done; by rewrite Hu in Hn|by rewrite Hp in Hn].
Qed.

Lemma set_msgs_ok gw i o : gw_ok gw -> gw_ok (set_msgs i o gw).
Proof. intros O. destruct O. by split. Qed.

Lemma set_seq_ok gw s : gw_ok gw -> gw_ok (set_seq s gw).
Proof. intros O. destruct O. by split. Qed.

(** ** The sessions of a user *)

Lemma NoDup_omap_inj {A B} (f : A -> option B) (l : list A) : NoDup l ->
  (forall x y z, x ∈ l -> y ∈ l -> f x = Some z -> f y = Some z -> x = y) -> NoDup (omap f l).
Proof.
  induction 1 as [|x l Hx Hl IH]; intros Hinj; [constructor|]. cbn. assert (NoDup (omap f l)) as IHl.
  { apply IH. intros y y' z Hy Hy'. apply Hinj; by right. }
  destruct (f x) as [b|] eqn:E; [|done]. constructor; [|done]. intros (y & Hy & Ey)%list_elem_of_omap.
  apply Hx. rewrite (Hinj x y b); [done|by left|by right|done|done].
Qed.

Lemma session_of_true u c : session_of u c = true <-> gc_online c = true /\ gc_upgraded c = true /\ gc_user_id c = u.
Proof. unfold session_of, connected. rewrite !andb_true_iff, streq_eq. tauto. Qed.

Lemma fds_nodup gw (P : gw_client -> Prop) `{forall c, Decision (P c)} : gw_ok gw -> (forall c, P c -> gc_online c = true) ->
  NoDup (gc_fd <$> filter P (gw_clients gw)).
Proof.
  intros O HP. pose proof (go_fds _ O) as Hinj. generalize dependent (gw_clients gw). intros l. clear O.
  induction l as [|c l IH]; intros Hinj; [constructor|]. assert (NoDup (gc_fd <$> filter P l)) as IHl.
  { apply IH. intros i j d e Hd He. pose proof (at_lt _ _ _ Hd). pose proof (at_lt _ _ _ He). intros Ho Ho' E.
    enough (i + 1 = j + 1) by lia. eapply Hinj; [rewrite at_cons_S by lia; exact Hd|rewrite at_cons_S by lia; exact He|done|done|done]. }
  rewrite filter_cons. case_decide as Ec; [|done]. cbn. constructor; [|done]. intros (d & Hd & Hin)%list_elem_of_fmap.
  apply list_elem_of_filter in Hin as [Pd Hin]. apply list_elem_of_lookup in Hin as [k Hk].
  assert (at_ (c :: l) (Z.of_nat k + 1) = Some d) as Hk' by (rewrite at_cons_S by lia; by rewrite at_of_nat).
  assert (0 = Z.of_nat k + 1) by (apply (Hinj 0 _ c d); [done|exact Hk'|by apply HP|by apply HP|done]). lia.
Qed.

(** The walk over the bucket reaches every session of the user once. *)
Lemma user_fds_ok gw u : gw_ok gw -> nonempty u = true ->
  user_fds gw u ≡ₚ gc_fd <$> filter (fun c => session_of u c = true) (gw_clients gw).
Proof.
  intros O Hu. destruct (go_chains _ O) as [ch C]. pose proof (go_max _ O) as Hmax. unfold user_fds, bucket_walk.
  rewrite (bucket_walk_ok C) by (unfold client_count in Hmax; lia). apply NoDup_Permutation.
  - apply NoDup_omap_inj; [apply (uc_nodup _ _ _ _ C)|]. intros i j fd _ _ Hi Hj.
    destruct (at_ (gw_clients gw) i) as [c|] eqn:Ei; [|done]. destruct (at_ (gw_clients gw) j) as [d|] eqn:Ej; [|done].
    destruct (session_of u c) eqn:Sc, (session_of u d) eqn:Sd; simplify_eq. apply session_of_true in Sc as (? & _), Sd as (? & _).
    eapply (go_fds _ O); [exact Ei|exact Ej|done|done|done].
  - apply fds_nodup; [done|]. intros c Hc. by apply session_of_true in Hc as [? _].
  - intros fd. rewrite list_elem_of_omap, list_elem_of_fmap. split.
    + intros (i & _ & Hi). destruct (at_ (gw_clients gw) i) as [c|] eqn:Ei; [|done]. destruct (session_of u c) eqn:Sc; simplify_eq.
      exists c. split; [done|]. apply list_elem_of_filter. split; [done|]. apply at_Some in Ei as [_ Ei]. by eapply list_elem_of_lookup_2.
    + intros (c & -> & Hin). apply list_elem_of_filter in Hin as [Sc Hin]. apply list_elem_of_lookup in Hin as [k Hk].
      exists (Z.of_nat k). rewrite at_of_nat, Hk, Sc. split; [|done]. apply (uc_mem _ _ _ _ C). apply session_of_true in Sc as (Ho & _ & <-).
      exists c. by rewrite at_of_nat.
Qed.
