(* ===== verification/GwSend.v ===== *)
(** * Message gateway: writing to sessions and ending them (gateway/msggateway/miku_msggateway.c)

    [gateway] is what the gateway process shares between its event loop and
    its admin thread: the connection table, the services that the context of
    the opcode handlers points to (None where the pointer may be NULL), the
    revoked tokens, and the log of what was done to the sockets.  The functions
    of this file run under the gateway's recursive mutex: they are functions on
    [gateway].  The presence callback and the subscription callback are the
    ones that the program installs. *)
From Stdlib Require Import Ascii String.
From S2P Require Import Prelude Hash ProbeIndex ChainIndex Json JsonText JsonEscape Models Friend Group Conversation MsgStore Bytes Token.
From S2P Require Import WebSocket WsSub GwTable Auth.
#[local] Open Scope string_scope.
#[local] Open Scope list_scope.
#[local] Open Scope Z_scope.

Definition MK_WS_OP_GET_NEWEST_SEQ : Z := 1001.
Definition MK_WS_OP_PULL_MSG_BY_SEQ : Z := 1002.
Definition MK_WS_OP_SEND_MSG : Z := 1003.
Definition MK_WS_OP_SEND_SIGNAL_MSG : Z := 1004.
Definition MK_WS_OP_PULL_MSG : Z := 1005.
Definition MK_WS_OP_GET_CONV_MAX_READ_SEQ : Z := 1006.
Definition MK_WS_OP_PULL_CONV_LAST_MSG : Z := 1007.
Definition MK_WS_OP_PUSH_MSG : Z := 2001.
Definition MK_WS_OP_KICK_ONLINE : Z := 2002.
Definition MK_WS_OP_LOGOUT : Z := 2003.
Definition MK_WS_OP_SET_BACKGROUND : Z := 2004.
Definition MK_WS_OP_SUB_USER_STATUS : Z := 2005.
Definition MK_WS_OP_DATA_ERROR : Z := 3001.

(** Bytes handed to a socket, and a socket closed. *)
Inductive gw_event := GwWrite (fd : Z) (b : bytes) | GwClosed (fd : Z).

Record gateway := Gateway {
  gx_table : miku_msggw;
  gx_sub : option miku_ws_sub;
  gx_store : option msg_store;
  gx_group : option miku_group_service;
  gx_conv : option miku_conv_service;
  gx_friend : option miku_friend_service;
  gx_revokes : revokes;
  gx_log : list gw_event }.

Definition with_table (t : miku_msggw) (w : gateway) : gateway :=
  Gateway t (gx_sub w) (gx_store w) (gx_group w) (gx_conv w) (gx_friend w) (gx_revokes w) (gx_log w).
Definition with_sub (s : option miku_ws_sub) (w : gateway) : gateway :=
  Gateway (gx_table w) s (gx_store w) (gx_group w) (gx_conv w) (gx_friend w) (gx_revokes w) (gx_log w).
Definition with_store (s : option msg_store) (w : gateway) : gateway :=
  Gateway (gx_table w) (gx_sub w) s (gx_group w) (gx_conv w) (gx_friend w) (gx_revokes w) (gx_log w).
Definition with_group (g : option miku_group_service) (w : gateway) : gateway :=
  Gateway (gx_table w) (gx_sub w) (gx_store w) g (gx_conv w) (gx_friend w) (gx_revokes w) (gx_log w).
Definition with_conv (c : option miku_conv_service) (w : gateway) : gateway :=
  Gateway (gx_table w) (gx_sub w) (gx_store w) (gx_group w) c (gx_friend w) (gx_revokes w) (gx_log w).
Definition with_friend (f : option miku_friend_service) (w : gateway) : gateway :=
  Gateway (gx_table w) (gx_sub w) (gx_store w) (gx_group w) (gx_conv w) f (gx_revokes w) (gx_log w).
Definition with_revokes (r : revokes) (w : gateway) : gateway :=
  Gateway (gx_table w) (gx_sub w) (gx_store w) (gx_group w) (gx_conv w) (gx_friend w) r (gx_log w).
Definition with_log (l : list gw_event) (w : gateway) : gateway :=
  Gateway (gx_table w) (gx_sub w) (gx_store w) (gx_group w) (gx_conv w) (gx_friend w) (gx_revokes w) l.

(** ** Writing *)

Definition log_write (fd : Z) (b : option bytes) (w : gateway) : gateway :=
  match b with Some b => with_log (gx_log w ++ [GwWrite fd b]) w | None => w end.

Definition to_bytes (t : text) : bytes := byte_of <$> t.

(** The status of the write is not looked at. *)
Definition send_text (fd : Z) (t : text) (w : gateway) : gateway := log_write fd (miku_ws_send_text (to_bytes t)) w.

Definition count_out (n : Z) (w : gateway) : gateway :=
  with_table (set_msgs (gw_msgs_in (gx_table w)) (gw_msgs_out (gx_table w) + n) (gx_table w)) w.

Definition send_all (fds : list Z) (t : text) (w : gateway) : Z * gateway :=
  let n := Z.of_nat (length fds) in (n, count_out n (foldl (fun w fd => send_text fd t w) w fds)).

Definition miku_msggw_broadcast_nolock (w : gateway) (msg : text) : Z * gateway := send_all (all_fds (gx_table w)) msg w.

Definition miku_msggw_send_to_user_nolock (w : gateway) (user_id : string) (msg : text) : Z * gateway :=
  send_all (user_fds (gx_table w) user_id) msg w.

(** The envelope; None when it does not fit the buffer of 8192 bytes. *)
Definition op_text (opcode : Z) (payload : text) : option text :=
  let t := raw_object [("reqIdentifier", fmt_lld opcode); ("data", payload)] in
  if 8192 <=? tlen t then None else Some t.

Definition miku_msggw_send_op_to_user_nolock (w : gateway) (user_id : string) (opcode : Z) (payload : text) : Z * gateway :=
  match op_text opcode payload with
  | None => (-1, w)
  | Some t => miku_msggw_send_to_user_nolock w user_id t
  end.

Definition miku_msggw_send_op_nolock (w : gateway) (client_idx opcode : Z) (payload : text) : Z * gateway :=
  match slot_of (gx_table w) client_idx with
  | None => (-1, w)
  | Some c =>
      if negb (connected c) then (-1, w)
      else match op_text opcode payload with
           | None => (-1, w)
           | Some t => (0, count_out 1 (send_text (gc_fd c) t w))
           end
  end.

Definition miku_msggw_broadcast_op_nolock (w : gateway) (opcode : Z) (payload : text) : Z * gateway :=
  match op_text opcode payload with
  | None => (-1, w)
  | Some t => miku_msggw_broadcast_nolock w t
  end.

(** ** Presence (gateway/msggateway/miku_msggw_ws_ops.c) *)

Definition miku_msggw_ws_sub_notify (subscriber : string) (payload : text) (w : gateway) : gateway :=
  (miku_msggw_send_op_to_user_nolock w subscriber MK_WS_OP_SUB_USER_STATUS payload).2.

Definition miku_msggw_ws_on_presence (user_id : string) (platform : Z) (online : bool) (w : gateway) : gateway :=
  match gx_sub w with
  | None => w
  | Some sub =>
      foldl (fun w '(u, payload) => miku_msggw_ws_sub_notify u payload w) w
        (if online then miku_ws_sub_user_online sub user_id platform else miku_ws_sub_user_offline sub user_id)
  end.

(** ** Ending sessions *)

Definition log_close (fd : Z) (w : gateway) : gateway := with_log (gx_log w ++ [GwClosed fd]) w.

Definition client_offline (w : gateway) (idx : Z) : gateway :=
  match slot_of (gx_table w) idx with
  | None => w
  | Some c =>
      if negb (gc_online c) then w
      else
        let w := if nonempty (gc_user_id c) then miku_msggw_ws_on_presence (gc_user_id c) (gc_platform c) false w else w in
        let w := with_table (client_release (gx_table w) idx c) w in
        if 0 <=? gc_fd c then log_close (gc_fd c) w else w
  end.

Definition kick_payload : text := literal "{'reason':'forced offline'}".

Definition close_frame (fd : Z) (reason : string) (w : gateway) : gateway :=
  log_write fd (miku_ws_send_close 1000 (txt reason)) w.

Definition kick_matches (user_id : string) (platform : Z) (c : gw_client) : bool :=
  gc_online c && streq (gc_user_id c) user_id && ((platform <? 0) || (gc_platform c =? platform)).

Definition kick_one (w : gateway) (idx fd : Z) : gateway :=
  let w := (miku_msggw_send_op_nolock w idx MK_WS_OP_KICK_ONLINE kick_payload).2 in
  client_offline (close_frame fd "kicked" w) idx.

(** The walk over the bucket; the link is read before the session ends. *)
Fixpoint kick_loop (fuel : nat) (w : gateway) (user_id : string) (platform idx kicked : Z) : Z * gateway :=
  match fuel with
  | O => (kicked, w)
  | S fuel' =>
      if idx <? 0 then (kicked, w)
      else
        let next := (gw_user_next (gx_table w)).[idx] in
        match at_ (gw_clients (gx_table w)) idx with
        | Some c =>
            if kick_matches user_id platform c
            then kick_loop fuel' (kick_one w idx (gc_fd c)) user_id platform next (kicked + 1)
            else kick_loop fuel' w user_id platform next kicked
        | None => kick_loop fuel' w user_id platform next kicked
        end
  end.

Definition miku_msggw_kick_user_nolock (w : gateway) (user_id : string) (platform : Z) : Z * gateway :=
  kick_loop (S (Z.to_nat MK_GW_MAX_CLIENTS)) w user_id platform (gw_user_head (gx_table w)).[user_bucket user_id] 0.

Definition miku_msggw_disconnect_client_nolock (w : gateway) (client_idx : Z) : Z * gateway :=
  match slot_of (gx_table w) client_idx with
  | None => (-1, w)
  | Some c =>
      if negb (gc_online c) then (0, w)
      else
        let w := if gc_upgraded c then close_frame (gc_fd c) "logout" w else w in
        (0, client_offline w client_idx)
  end.

(** The listening socket and the poller are left out. *)
Definition miku_msggw_stop (w : gateway) : gateway :=
  let w := for_range (client_count (gx_table w))
             (fun w i => match at_ (gw_clients (gx_table w)) i with
                         | Some c => if gc_online c then client_offline w i else w
                         | None => w
                         end) w in
  let t := gx_table w in
  with_table (MsgGw [] ∅ ∅ ∅ [] 0 (gw_msgs_in t) (gw_msgs_out t) (gw_seq t)) w.

(** ** Envelopes *)

(** The opcode and the data of an envelope; None is the status -1. *)
Definition miku_msggw_unwrap_op_data (envelope_json : string) : option (Z * text) :=
  j ← miku_json_parse_str (Some envelope_json);
  let op := jint (Some j) "reqIdentifier" in
  if op <=? 0 then None
  else match miku_json_get (Some j) (Some "data") with
       | Some d => Some (i32 op, miku_json_stringify (Some d))
       | None => Some (i32 op, str "{}")
       end.

(** ** What writing changes *)

(** [w'] is [w] after frames were written to sockets that satisfy [P]: only
    the counters and the log differ. *)
Definition wrote (P : Z -> bytes -> Prop) (w w' : gateway) : Prop :=
  exists i o evs, w' = with_log (gx_log w ++ evs) (with_table (set_msgs i o (gx_table w)) w) /\
    Forall (fun e => exists fd b, e = GwWrite fd b /\ P fd b) evs.

Section Wrote.
Context {P : Z -> bytes -> Prop}.

Lemma wrote_refl w : wrote P w w.
Proof.
  exists (gw_msgs_in (gx_table w)), (gw_msgs_out (gx_table w)), []. rewrite app_nil_r. split; [|done]. by destruct w as [[]].
Qed.

Lemma wrote_trans w1 w2 w3 : wrote P w1 w2 -> wrote P w2 w3 -> wrote P w1 w3.
Proof.
  intros (i & o & e & -> & He) (i' & o' & e' & -> & He'). exists i', o', (e ++ e'). cbn. rewrite app_assoc.
  split; [done|]. by apply list.Forall_app.
Qed.

Lemma wrote_write fd b w : (forall x, b = Some x -> P fd x) -> wrote P w (log_write fd b w).
Proof.
  intros H. destruct b as [b|]; [|apply wrote_refl]. exists (gw_msgs_in (gx_table w)), (gw_msgs_out (gx_table w)), [GwWrite fd b].
  split; [by destruct w as [[]]|]. constructor; [|done]. exists fd, b. by split; [|apply H].
Qed.

Lemma wrote_count n w : wrote P w (count_out n w).
Proof. exists (gw_msgs_in (gx_table w)), (gw_msgs_out (gx_table w) + n), []. by rewrite app_nil_r. Qed.

Lemma wrote_foldl {A} (f : gateway -> A -> gateway) l : (forall w x, x ∈ l -> wrote P w (f w x)) -> forall w, wrote P w (foldl f w l).
Proof.
  induction l as [|x l IH]; intros Hf w; [apply wrote_refl|]. cbn. eapply wrote_trans; [apply Hf; by left|].
  apply IH. intros v y Hy. apply Hf. by right.
Qed.

Lemma wrote_send_all fds t w : (forall fd b, fd ∈ fds -> miku_ws_send_text (to_bytes t) = Some b -> P fd b) ->
  wrote P w (send_all fds t w).2.
Proof.
  intros H. unfold send_all. cbn [snd]. eapply wrote_trans; [|apply wrote_count]. apply wrote_foldl. intros v fd Hfd.
  apply wrote_write. intros b. by apply H.
Qed.
End Wrote.

Lemma wrote_mono (P Q : Z -> bytes -> Prop) w w' : (forall fd b, P fd b -> Q fd b) -> wrote P w w' -> wrote Q w w'.
Proof.
  intros H (i & o & e & -> & He). exists i, o, e. split; [done|]. eapply list.Forall_impl; [exact He|]. intros x (fd & b & -> & Hp). eauto.
Qed.

Lemma wrote_clients P w w' : wrote P w w' -> gw_clients (gx_table w') = gw_clients (gx_table w).
Proof. by intros (i & o & e & -> & _). Qed.

Lemma wrote_presence u p online w : wrote (fun _ _ => True) w (miku_msggw_ws_on_presence u p online w).
Proof.
  unfold miku_msggw_ws_on_presence. destruct (gx_sub w); [|apply wrote_refl]. apply wrote_foldl. intros v [s t] _.
  unfold miku_msggw_ws_sub_notify, miku_msggw_send_op_to_user_nolock. destruct (op_text _ t); [|apply wrote_refl].
  by apply wrote_send_all.
Qed.
