(* ===== verification/GwOps.v ===== *)
(** * Message gateway: opcodes (gateway/msggateway/miku_msggw_ws_ops.c)

    The handlers of the client's requests, as programs of atomic actions on
    [gateway] (Atomic.v): one action per locked region of the table or of a
    service, since the admin thread delivers messages and changes groups and
    blacklists at the same time.  [mongo] answers the requests of a message
    store that is backed by a database; identifiers and clock readings that a
    delivery draws are its [draws].  A result None is undefined behaviour of
    the message store (excluded by its invariant, MsgStoreInv.v). *)
From Stdlib Require Import Ascii String.
From S2P Require Import Prelude Hash ProbeIndex ChainIndex Json JsonText JsonEscape Models Friend Group GroupRpc Conversation.
From S2P Require Import MsgStore ImMessage Bytes Token Atomic MsgService WebSocket WsSub Auth GwTable GwSend.
#[local] Open Scope string_scope.
#[local] Open Scope list_scope.
#[local] Open Scope Z_scope.

(** ** Fields of a message *)

Definition im_set_send (v : string) (m : miku_im_msg) : miku_im_msg :=
  ImMsg (im_msg_id m) (im_client_msg_id m) v (im_recv_id m) (im_group_id m) (im_conversation_id m) (im_content_type m)
        (im_conversation_type m) (im_seq m) (im_send_time m) (im_create_time m) (im_sender_platform m) (im_content m)
        (im_sender_nickname m) (im_sender_face_url m) (im_is_read m) (im_status m).
Definition im_set_peer (recv group : string) (m : miku_im_msg) : miku_im_msg :=
  ImMsg (im_msg_id m) (im_client_msg_id m) (im_send_id m) recv group (im_conversation_id m) (im_content_type m)
        (im_conversation_type m) (im_seq m) (im_send_time m) (im_create_time m) (im_sender_platform m) (im_content m)
        (im_sender_nickname m) (im_sender_face_url m) (im_is_read m) (im_status m).
Definition im_set_conv (v : string) (m : miku_im_msg) : miku_im_msg :=
  ImMsg (im_msg_id m) (im_client_msg_id m) (im_send_id m) (im_recv_id m) (im_group_id m) v (im_content_type m)
        (im_conversation_type m) (im_seq m) (im_send_time m) (im_create_time m) (im_sender_platform m) (im_content m)
        (im_sender_nickname m) (im_sender_face_url m) (im_is_read m) (im_status m).
Definition im_set_types (ct cv : Z) (m : miku_im_msg) : miku_im_msg :=
  ImMsg (im_msg_id m) (im_client_msg_id m) (im_send_id m) (im_recv_id m) (im_group_id m) (im_conversation_id m) ct
        cv (im_seq m) (im_send_time m) (im_create_time m) (im_sender_platform m) (im_content m)
        (im_sender_nickname m) (im_sender_face_url m) (im_is_read m) (im_status m).
Definition im_set_stamp (id : string) (n st ct : Z) (m : miku_im_msg) : miku_im_msg :=
  ImMsg id (im_client_msg_id m) (im_send_id m) (im_recv_id m) (im_group_id m) (im_conversation_id m) (im_content_type m)
        (im_conversation_type m) n st ct (im_sender_platform m) (im_content m)
        (im_sender_nickname m) (im_sender_face_url m) (im_is_read m) (im_status m).
Definition im_set_content (v : string) (m : miku_im_msg) : miku_im_msg :=
  ImMsg (im_msg_id m) (im_client_msg_id m) (im_send_id m) (im_recv_id m) (im_group_id m) (im_conversation_id m) (im_content_type m)
        (im_conversation_type m) (im_seq m) (im_send_time m) (im_create_time m) (im_sender_platform m) v
        (im_sender_nickname m) (im_sender_face_url m) (im_is_read m) (im_status m).

(** [if (!im->conversation_type) ...]. *)
Definition im_infer_type (m : miku_im_msg) : miku_im_msg :=
  if im_conversation_type m =? 0 then
    if nonempty (im_group_id m) then im_set_types (im_content_type m) MK_IM_CONV_GROUP m
    else if nonempty (im_recv_id m) then im_set_types (im_content_type m) MK_IM_CONV_SINGLE m else m
  else m.

Definition im_is_group (m : miku_im_msg) : bool := (im_conversation_type m =? MK_IM_CONV_GROUP) || nonempty (im_group_id m).

Definition miku_msggw_ws_resolve_conv (conversation_id group_id send_id recv_id : option string) : string :=
  miku_conversation_id_resolve 128 conversation_id group_id send_id recv_id.

(** ** Helpers *)

Notation gprog := (prog gateway).

(** A loop over a list of calls. *)
Fixpoint each {A} (f : A -> gprog unit) (l : list A) : gprog unit :=
  match l with
  | [] => Ret tt
  | x :: l' => f x ≫= fun _ => each f l'
  end.

Definition reply_json (client_idx opcode : Z) (json : text) : gprog Z :=
  atomic (fun w => miku_msggw_send_op_nolock w client_idx opcode json).

Definition send_op_to_user (user_id : string) (opcode : Z) (payload : text) : gprog Z :=
  atomic (fun w => miku_msggw_send_op_to_user_nolock w user_id opcode payload).

(** The text of a pushed message. *)
Definition im_text (m : miku_im_msg) : text := miku_json_stringify (miku_im_msg_to_json (Some m)).

Definition push_im_to_user (user_id : string) (m : miku_im_msg) : gprog unit :=
  if nonempty user_id then send_op_to_user user_id MK_WS_OP_PUSH_MSG (im_text m) ≫= fun _ => Ret tt else Ret tt.

Definition peek_max_seq (cid : string) : gprog Z := rd (fun w => miku_msggw_peek_max_seq (gx_table w) (Some cid)).
Definition get_user_read (uid cid : string) : gprog Z := rd (fun w => miku_msggw_get_user_read (gx_table w) (Some uid) (Some cid)).
Definition set_user_read (uid cid : string) (n : Z) : gprog Z :=
  atomic (fun w => let '(rc, t) := miku_msggw_set_user_read (gx_table w) (Some uid) (Some cid) n in (rc, with_table t w)).
Definition alloc_seq (cid : string) : gprog (option Z) :=
  atomic (fun w => let '(n, t) := miku_msggw_alloc_seq (gx_table w) (Some cid) in (n, with_table t w)).

Definition fill_read_seq_entry (uid cid : string) (map : json) : gprog json :=
  if negb (nonempty cid) then Ret map
  else
    max_seq ← peek_max_seq cid;
    has_read ← (if nonempty uid then get_user_read uid cid else Ret 0);
    Ret (jset map cid (miku_ji (miku_ji miku_json_create_object "maxSeq" max_seq) "hasReadSeq" has_read)).

(** Whether [uid] may read [conv], by the service that its prefix selects. *)
Definition may_access (w : gateway) (uid conv : string) : bool :=
  if prefixed "si_" conv then
    match gx_friend w with Some f => negb (miku_friend_may_access_si_conv f (Some uid) (Some conv) =? 0) | None => false end
  else if prefixed "sg_" conv then
    match gx_group w with Some g => miku_group_is_member g (Some (sdrop 3 conv)) (Some uid) | None => false end
  else
    match gx_conv w with Some c => (miku_conv_get c (Some uid) (Some conv)).1 =? 0 | None => false end.

Definition ws_may_access_conv (uid conv : string) : gprog bool :=
  if negb (nonempty uid) || negb (nonempty conv) then Ret false else rd (fun w => may_access w uid conv).

(** ** Delivery *)

Definition fanout_one_member (m : miku_im_msg) (user_id : string) : gprog unit :=
  if nonempty (im_send_id m) && streq user_id (im_send_id m) then Ret tt
  else send_op_to_user user_id MK_WS_OP_PUSH_MSG (im_text m) ≫= fun _ => Ret tt.

(** The members of a group in the order of its list; none without the service. *)
Definition group_members (w : gateway) (gid : string) : option (list string) :=
  (fun g => fst <$> miku_group_foreach_member g (Some gid)) <$> gx_group w.

Definition fanout_send_msg (m : miku_im_msg) : gprog unit :=
  group ← (if im_is_group m && nonempty (im_group_id m) then rd (fun w => group_members w (im_group_id m)) else Ret None);
  match group with
  | Some members => each (fanout_one_member m) members
  | None =>
      if nonempty (im_recv_id m) && negb (streq (im_recv_id m) (im_send_id m))
      then push_im_to_user (im_recv_id m) m else Ret tt
  end.

Definition conv_touch (owner cid : string) (conv_type : Z) (peer group : option string) (send_time : Z) (content : string) (bump : bool)
    : gprog unit :=
  atomic (fun w => (tt, match gx_conv w with
                        | Some c => with_conv (Some (miku_conv_touch_on_send c (Some owner) (Some cid) conv_type peer group
                                                       send_time (Some content) bump)) w
                        | None => w
                        end)).

Definition ws_upsert_group_member_conv (m : miku_im_msg) (conv user_id : string) : gprog unit :=
  conv_touch user_id conv MK_IM_CONV_GROUP None (Some (im_group_id m)) (im_send_time m) (im_content m)
             (negb (streq user_id (im_send_id m))).

Definition ws_touch_convs_on_send (m : miku_im_msg) (conv : string) : gprog unit :=
  wired ← rd (fun w => match gx_conv w with Some _ => true | None => false end);
  if negb wired || negb (nonempty conv) || negb (nonempty (im_send_id m)) then Ret tt
  else if im_is_group m && nonempty (im_group_id m) then
    members ← rd (fun w => default [] (group_members w (im_group_id m)));
    each (ws_upsert_group_member_conv m conv) members ≫= fun _ =>
    conv_touch (im_send_id m) conv MK_IM_CONV_GROUP None (Some (im_group_id m)) (im_send_time m) (im_content m) false
  else if nonempty (im_recv_id m) then
    conv_touch (im_send_id m) conv MK_IM_CONV_SINGLE (Some (im_recv_id m)) None (im_send_time m) (im_content m) false ≫= fun _ =>
    if negb (streq (im_recv_id m) (im_send_id m))
    then conv_touch (im_recv_id m) conv MK_IM_CONV_SINGLE (Some (im_send_id m)) None (im_send_time m) (im_content m) true
    else Ret tt
  else Ret tt.

(** The identifiers and the clock readings of one delivery. *)
Record draws := Draws {
  dr_msg_id : string; dr_client_id : string; dr_store_id : string; dr_now : Z; dr_sent : Z; dr_stored : Z }.

(** Single chat needs the friend service, no blacklist entry in either
    direction and friendship in both. *)
Definition single_gate (m : miku_im_msg) : gprog bool :=
  if nonempty (im_recv_id m) && negb (nonempty (im_group_id m)) then
    wired ← rd (fun w => match gx_friend w with Some _ => true | None => false end);
    if negb wired then Ret false
    else
      let ask (f : miku_friend_service -> bool) : gprog bool :=
        rd (fun w => match gx_friend w with Some s => f s | None => false end) in
      b1 ← ask (fun s => miku_friend_is_black s (Some (im_send_id m)) (Some (im_recv_id m)));
      b2 ← (if (b1 : bool) then Ret true else ask (fun s => miku_friend_is_black s (Some (im_recv_id m)) (Some (im_send_id m))));
      if (b2 : bool) then Ret false
      else ask (fun s => miku_friend_is_mutual s (Some (im_send_id m)) (Some (im_recv_id m)))
  else Ret true.

(** Group chat: the sender is a member where the group service is wired. *)
Definition group_gate (m : miku_im_msg) : gprog bool :=
  if nonempty (im_group_id m)
  then rd (fun w => match gx_group w with
                    | Some g => miku_group_is_member g (Some (im_group_id m)) (Some (im_send_id m))
                    | None => true
                    end)
  else Ret true.

(** The message with its canonical conversation and its types. *)
Definition im_canonical (m : miku_im_msg) : miku_im_msg :=
  let conv := miku_msggw_ws_resolve_conv None (Some (im_group_id m)) (Some (im_send_id m)) (Some (im_recv_id m)) in
  let m := im_infer_type (im_set_conv conv m) in
  if im_content_type m <=? 0 then im_set_types MK_IM_MSG_TYPE_TEXT (im_conversation_type m) m else m.

Definition store_insert (m : miku_im_msg) (conv : string) (d : draws) : gprog (option string) :=
  atomic (fun w =>
    match gx_store w with
    | None => (Some "", w)
    | Some s =>
        match miku_msg_store_insert s (Some conv) (Some (im_send_id m)) (im_content_type m) (Some (im_content m))
                (im_send_time m) (im_seq m) (dr_store_id d) (dr_stored d) with
        | Some (_, _, s') => (Some (strn 63 (dr_store_id d)), with_store (Some s') w)
        | None => (None, w)
        end
    end).

(** What follows the gates. *)
Definition deliver_accepted (m : miku_im_msg) (d : draws) : gprog (option (Z * miku_im_msg)) :=
  let conv := im_conversation_id m in
  let m := miku_im_msg_generate_id m (dr_msg_id d) (dr_client_id d) (dr_now d) in
  seq ← alloc_seq conv;
  match seq with
  | None => Ret (Some (-1, m))
  | Some n =>
      let st := if im_send_time m <=? 0 then dr_sent d else im_send_time m in
      let m := im_set_stamp (im_msg_id m) n st (if im_create_time m <=? 0 then st else im_create_time m) m in
      stored ← store_insert m conv d;
      match stored with
      | None => Ret None
      | Some id =>
          let m := if nonempty id then im_set_stamp (strn 63 id) (im_seq m) (im_send_time m) (im_create_time m) m else m in
          fanout_send_msg m ≫= fun _ => ws_touch_convs_on_send m conv ≫= fun _ => Ret (Some (0, m))
      end
  end.

(** The status and the message as the caller sees it. *)
Definition miku_msggw_ws_deliver_msg (m : miku_im_msg) (d : draws) : gprog (option (Z * miku_im_msg)) :=
  let m := im_canonical m in
  if negb (miku_im_msg_validate (Some m) =? 0) then Ret (Some (-1, m))
  else
    ok1 ← single_gate m;
    if negb ok1 then Ret (Some (-1, m))
    else
      ok2 ← group_gate m;
      if negb ok2 then Ret (Some (-1, m)) else deliver_accepted m d.

(** ** Opcodes *)

Definition ok_reply : text := literal "{'errCode':0}".
Definition no_seq_reply : text := literal "{'errCode':0,'conversationID':'','maxSeq':0}".
Definition no_msgs_reply : text := literal "{'errCode':0,'msgs':[]}".
Definition no_read_reply : text := literal "{'errCode':0,'conversationID':'','hasReadSeq':0}".

Definition seq_reply (conv key : string) (n : Z) : text :=
  (snprintf 512 (raw_object [("errCode", fmt_lld 0); ("conversationID", esc_field conv 256); (key, fmt_lld n)])).1.

Definition op_conv (data : json) : string := strn 127 (default "" (jstr (Some data) "conversationID")).

Definition client_user (client_idx : Z) : gprog string :=
  rd (fun w => default "" (miku_msggw_get_client_user_id_nolock (gx_table w) client_idx 64)).

Definition answered (p : gprog Z) : gprog (option unit) := p ≫= fun _ => Ret (Some tt).

Definition op_get_newest_seq (client_idx opcode : Z) (uid : string) (data : json) : gprog (option unit) :=
  let conv := op_conv data in
  ok ← (if nonempty conv then ws_may_access_conv uid conv else Ret true);
  if negb ok then answered (reply_json client_idx opcode no_seq_reply)
  else if negb (nonempty conv) then answered (reply_json client_idx opcode no_seq_reply)
  else seq ← peek_max_seq conv; answered (reply_json client_idx opcode (seq_reply conv "maxSeq" seq)).

Section Mongo.
Context (mongo : db_request -> option text).

(** The messages of a conversation as the store lists them. *)
Definition store_list (conv : string) (lo hi : Z) (w : gateway) : option text :=
  match gx_store w with
  | None => Some (str "[]")
  | Some s =>
      match miku_msg_store_find_by_conv s (Some conv) lo hi with
      | None => None
      | Some (Json _ t) => Some t
      | Some (Rc _) => Some (str "[]")
      | Some (AskDb q) => Some (default (str "[]") (mongo q))
      end
  end.

Definition msgs_reply (msgs : text) : text := raw_object [("errCode", fmt_lld 0); ("msgs", msgs)].

Definition op_pull (client_idx opcode : Z) (uid : string) (data : json) : gprog (option unit) :=
  let conv := op_conv data in
  let b := jint (Some data) "beginSeq" in
  let begin_seq := if b =? 0 then jint (Some data) "startSeq" else b in
  let end_seq := jint (Some data) "endSeq" in
  ok ← ws_may_access_conv uid conv;
  if negb ok then answered (reply_json client_idx opcode no_msgs_reply)
  else
    msgs ← rd (store_list conv begin_seq end_seq);
    match msgs with
    | None => Ret None
    | Some t => answered (reply_json client_idx opcode (msgs_reply t))
    end.

Definition op_pull_last (client_idx opcode : Z) (uid : string) (data : json) : gprog (option unit) :=
  let conv := op_conv data in
  ok ← ws_may_access_conv uid conv;
  if negb ok then answered (reply_json client_idx opcode no_msgs_reply)
  else
    max_seq ← peek_max_seq conv;
    msgs ← (if 0 <? max_seq then rd (store_list conv max_seq max_seq) else Ret (Some (str "[]")));
    match msgs with
    | None => Ret None
    | Some t => answered (reply_json client_idx opcode (msgs_reply t))
    end.

(** The message of a request, sent by the user of the session. *)
Definition op_message (uid : string) (data : json) : miku_im_msg :=
  let m := default miku_im_msg_init (miku_im_msg_from_json (Some data)) in
  if nonempty uid then im_set_send (strn 63 uid) m else m.

(** A read receipt before it is sent on: the read position, and the receivers
    completed from the conversation. *)
Definition receipt (uid conv : string) (rs : Z) (m : miku_im_msg) : miku_im_msg :=
  let m := im_set_stamp (im_msg_id m) rs (im_send_time m) (im_create_time m) m in
  let m := if nonempty (im_content m) then m else im_set_content "read" m in
  let m := if negb (nonempty (im_group_id m)) && prefixed "sg_" conv
           then im_set_types (im_content_type m) MK_IM_CONV_GROUP (im_set_peer (im_recv_id m) (strn 63 (sdrop 3 conv)) m) else m in
  let m := if negb (nonempty (im_recv_id m)) && negb (nonempty (im_group_id m))
           then let self := if nonempty uid then uid else im_send_id m in
                im_set_peer (default "" (miku_conversation_si_peer (Some conv) (Some self) 64)) (im_group_id m) m
           else m in
  im_infer_type m.

Definition op_read_receipt (client_idx opcode : Z) (uid : string) (has_read_seq : Z) (m : miku_im_msg) : gprog (option unit) :=
  let conv := miku_msggw_ws_resolve_conv (Some (im_conversation_id m)) (Some (im_group_id m)) (Some (im_send_id m)) (Some (im_recv_id m)) in
  let m := im_infer_type (if nonempty (im_conversation_id m) then m else im_set_conv conv m) in
  ok ← ws_may_access_conv uid conv;
  if negb ok then answered (reply_json client_idx opcode no_read_reply)
  else
    let rs := if 0 <? has_read_seq then has_read_seq else im_seq m in
    (if (0 <? rs) && nonempty uid then set_user_read uid conv rs else Ret 0) ≫= fun _ =>
    fanout_send_msg (receipt uid conv rs m) ≫= fun _ =>
    answered (reply_json client_idx opcode (seq_reply conv "hasReadSeq" rs)).

Definition sent_reply (m : miku_im_msg) : text :=
  (snprintf 512 (raw_object [("errCode", fmt_lld 0); ("clientMsgID", esc_field (im_client_msg_id m) 128);
     ("serverMsgID", esc_field (im_msg_id m) 128); ("sendTime", fmt_lld (im_send_time m)); ("seq", fmt_lld (im_seq m))])).1.

Definition op_send_msg (client_idx opcode : Z) (uid : string) (data : json) (d : draws) : gprog (option unit) :=
  let m := op_message uid data in
  if im_content_type m =? MK_IM_MSG_TYPE_READ
  then op_read_receipt client_idx opcode uid (jint (Some data) "hasReadSeq") m
  else
    let conv := miku_msggw_ws_resolve_conv None (Some (im_group_id m)) (Some (im_send_id m)) (Some (im_recv_id m)) in
    r ← miku_msggw_ws_deliver_msg (im_infer_type (im_set_conv conv m)) d;
    match r with
    | None => Ret None
    | Some (rc, m) =>
        if negb (rc =? 0) then answered (reply_json client_idx opcode (literal "{'errCode':1001,'errMsg':'invalid message'}"))
        else answered (reply_json client_idx opcode (sent_reply m))
    end.

(** One conversation of a request for read positions. *)
Definition read_entry (uid : string) (map : json) (cid : option string) : gprog json :=
  if given cid then
    ok ← ws_may_access_conv uid (default "" cid);
    if (ok : bool) then fill_read_seq_entry uid (default "" cid) map else Ret map
  else Ret map.

Fixpoint read_entries (uid : string) (map : json) (cids : list (option string)) : gprog json :=
  match cids with
  | [] => Ret map
  | c :: cids => map ← read_entry uid map c; read_entries uid map cids
  end.

Definition op_get_max_read_seq (client_idx opcode : Z) (uid : string) (data : json) : gprog (option unit) :=
  let ids := match miku_json_get (Some data) (Some "conversationIDs") with
             | None => miku_json_get (Some data) (Some "conversationIDList")
             | v => v
             end in
  let one := jstr (Some data) "conversationID" in
  map ← match ids with
        | Some (JArr _) => read_entries uid miku_json_create_object (json_strings ids)
        | _ => read_entry uid miku_json_create_object one
        end;
  let mark_seq := jint (Some data) "hasReadSeq" in
  mark ← (if given one && (0 <? mark_seq) && nonempty uid then ws_may_access_conv uid (default "" one) else Ret false);
  map ← (if (mark : bool) then
           set_user_read uid (default "" one) mark_seq ≫= fun _ => fill_read_seq_entry uid (default "" one) map
         else Ret map);
  answered (reply_json client_idx opcode
          (miku_json_stringify (Some (jset (miku_ji miku_json_create_object "errCode" 0) "maxReadSeqs" map)))).

Definition op_sub_user_status (client_idx opcode : Z) (uid : string) (data : json) : gprog (option unit) :=
  let target := jstr (Some data) "userID" in
  let action := jstr (Some data) "action" in
  if negb (nonempty uid) then answered (reply_json client_idx opcode (literal "{'errCode':401,'errMsg':'authentication required'}"))
  else if negb (given target) || negb (given action)
  then answered (reply_json client_idx opcode (literal "{'errCode':400,'errMsg':'missing userID or action'}"))
  else
    let a := default "" action in
    wired ← rd (fun w => match gx_sub w with Some _ => true | None => false end);
    let change (f : miku_ws_sub -> option string -> option string -> Z * miku_ws_sub) : gprog unit :=
      atomic (fun w => (tt, match gx_sub w with Some s => with_sub (Some (f s (Some uid) target).2) w | None => w end)) in
    if negb wired then answered (reply_json client_idx opcode ok_reply)
    else if streq a "subscribe" then
      ok ← (if streq uid (default "" target) then Ret true
            else rd (fun w => match gx_friend w with Some f => miku_friend_is_mutual f (Some uid) target | None => false end));
      (if (ok : bool) then change miku_ws_sub_subscribe else Ret tt) ≫= fun _ => answered (reply_json client_idx opcode ok_reply)
    else if streq a "unsubscribe" then
      change miku_ws_sub_unsubscribe ≫= fun _ => answered (reply_json client_idx opcode ok_reply)
    else answered (reply_json client_idx opcode (literal "{'errCode':400,'errMsg':'invalid action'}")).

Definition set_background (client_idx : Z) (b : bool) : gprog Z :=
  atomic (fun w => let '(rc, t) := miku_msggw_set_background_nolock (gx_table w) client_idx b in (rc, with_table t w)).

Definition disconnect_client (client_idx : Z) : gprog Z := atomic (fun w => miku_msggw_disconnect_client_nolock w client_idx).

Definition miku_msggw_ws_on_opcode (client_idx opcode : Z) (data : json) (d : draws) : gprog (option unit) :=
  uid ← client_user client_idx;
  if opcode =? MK_WS_OP_GET_NEWEST_SEQ then op_get_newest_seq client_idx opcode uid data
  else if (opcode =? MK_WS_OP_PULL_MSG_BY_SEQ) || (opcode =? MK_WS_OP_PULL_MSG) then op_pull client_idx opcode uid data
  else if opcode =? MK_WS_OP_SEND_MSG then op_send_msg client_idx opcode uid data d
  else if opcode =? MK_WS_OP_PULL_CONV_LAST_MSG then op_pull_last client_idx opcode uid data
  else if opcode =? MK_WS_OP_SEND_SIGNAL_MSG then answered (reply_json client_idx opcode ok_reply)
  else if opcode =? MK_WS_OP_GET_CONV_MAX_READ_SEQ then op_get_max_read_seq client_idx opcode uid data
  else if (opcode =? MK_WS_OP_PUSH_MSG) || (opcode =? MK_WS_OP_KICK_ONLINE) then Ret (Some tt)
  else if opcode =? MK_WS_OP_LOGOUT then
    reply_json client_idx opcode ok_reply ≫= fun _ => answered (disconnect_client client_idx)
  else if opcode =? MK_WS_OP_SET_BACKGROUND then
    set_background client_idx (negb (i32 (jint (Some data) "isBackground") =? 0)) ≫= fun _ =>
    answered (reply_json client_idx opcode ok_reply)
  else if opcode =? MK_WS_OP_SUB_USER_STATUS then op_sub_user_status client_idx opcode uid data
  else if opcode =? MK_WS_OP_DATA_ERROR then Ret (Some tt)
  else answered (reply_json client_idx opcode (literal "{'errCode':404,'errMsg':'unknown opcode'}")).
End Mongo.
