(* ===== verification/GwIo.v ===== *)
(** * Message gateway: connections and admin requests
    (gateway/msggateway/miku_msggateway.c, cmd/miku-msggateway/main.c)

    The events of the poller and the requests of the admin port.  What the
    kernel does is an argument: the result of a read, whether a write
    succeeds, the bytes that arrive on a session, the sockets that are
    accepted.  An event of the loop runs under the gateway's mutex: up to the
    first frame it is one action; the handlers of the frames are interleaved
    with other programs at every action, which allows more than the mutex
    does. *)
From Stdlib Require Import Ascii String.
From S2P Require Import Prelude Hash ProbeIndex ChainIndex Json JsonText JsonEscape Models Friend Group Conversation.
From S2P Require Import MsgStore ImMessage Bytes Token Atomic WebSocket WsServer WsSub Auth ApiCore GwTable GwSend GwOps.
#[local] Open Scope string_scope.
#[local] Open Scope list_scope.
#[local] Open Scope Z_scope.

(** ** Handshake *)

(** [again] tells EAGAIN and EWOULDBLOCK from other errors. *)
Inductive read_result := ReadFail (again : bool) | ReadBytes (b : bytes).
Inductive write_result := WriteFail (again : bool) | WriteOk.

Fixpoint skip_spaces (s : bytes) : bytes :=
  match s with
  | c :: s' => if c =? 32 then skip_spaces s' else s
  | [] => []
  end.

(** The first occurrence of [p]: how much precedes it, and what follows it. *)
Fixpoint cut_str (p s : bytes) : option (nat * bytes) :=
  if starts p s then Some (O, drop (length p) s)
  else match s with
       | [] => None
       | _ :: s' => '(n, r) ← cut_str p s'; Some (S n, r)
       end.

Definition first_some {A} (l : list (option A)) : option A :=
  foldr (fun x r => match x with Some _ => x | None => r end) None l.

Definition sec_key (buf : bytes) : option bytes :=
  rest ← first_some [after_str (txt "Sec-WebSocket-Key: ") buf; after_str (txt "sec-websocket-key: ") buf];
  k ← before_chr 13 (skip_spaces rest);
  if 128 <=? blen k then None else Some k.

(** [while ( *te && *te != ' ' && *te != '&' && *te != '\r')]. *)
Fixpoint query_value (s : bytes) : bytes :=
  match s with
  | c :: s' => if (c =? 32) || (c =? 38) || (c =? 13) then [] else c :: query_value s'
  | [] => []
  end.

Definition fits_token (t : bytes) : option bytes := if (0 <? blen t) && (blen t <? 512) then Some t else None.

(** The token of the request line, which ends at the first CR. *)
Definition query_token (buf : bytes) : option bytes :=
  '(n, _) ← cut_str (txt "GET ") buf;
  let q := drop n buf in
  '(off, rest) ← cut_str (txt "token=") q;
  line ← before_chr 13 q;
  if (off <? length line)%nat then fits_token (query_value rest) else None.

(** The token of a header, with or without "Bearer ". *)
Definition header_token (buf : bytes) : option bytes :=
  rest ← first_some ((fun name => after_str (10 :: txt name) buf) <$> ["token: "; "Token: "; "Authorization: "; "authorization: "]);
  let th := skip_spaces rest in
  let th := if starts (txt "Bearer ") th then drop 7 th else th in
  t ← before_chr 13 th;
  fits_token t.

Definition request_token (buf : bytes) : option string :=
  (fun t => string_of_list_ascii (chr <$> t)) <$> first_some [query_token buf; header_token buf].

Definition deny (msg : string) : bytes :=
  txt "HTTP/1.1 401 Unauthorized" ++ CRLF ++ txt "Content-Type: application/json" ++ CRLF ++ txt "Connection: close" ++ CRLF ++
  txt "Content-Length: 47" ++ CRLF ++ CRLF ++ to_bytes (literal "{'errCode':401,'errMsg':'" ++ str msg ++ literal "'}").

(** The user and the platform of the session, or the failure, and whether
    [errno] is EAGAIN then. *)
Inductive upgrade := Upgraded (uid : string) (platform : Z) | NotUpgraded (again : bool).

(** With the bytes that are written, if any. *)
Definition do_ws_upgrade (r : revokes) (secret : string) (now : Z) (rr : read_result) (wr : write_result) : upgrade * option bytes :=
  match rr with
  | ReadFail again => (NotUpgraded again, None)
  | ReadBytes [] => (NotUpgraded false, None)
  | ReadBytes b =>
      let buf := c_str b in
      let refuse (msg : string) := (NotUpgraded match wr with WriteFail again => again | WriteOk => false end, Some (deny msg)) in
      match sec_key buf with
      | None => (NotUpgraded false, None)
      | Some key =>
          match request_token buf with
          | None => refuse "token required"
          | Some token =>
              match miku_token_verify_ex r (Some token) (Some secret) 64 now with
              | None => refuse "invalid token"
              | Some (uid, platform, _) =>
                  match miku_ws_handshake key 64 with
                  | Some (0, Some acc) =>
                      match wr with
                      | WriteOk => (Upgraded (strn 63 uid) platform, Some (switching acc))
                      | WriteFail again => (NotUpgraded again, Some (switching acc))
                      end
                  | _ => (NotUpgraded false, None)
                  end
              end
          end
      end
  end.

(** The socket: what [read] gives before the handshake, the outcome of the
    write of the handshake, and the bytes that arrive on a session. *)
Record socket_io := SocketIo { so_read : read_result; so_write : write_result; so_stream : bytes }.

(** The user secret and the clock. *)
Record gw_env := GwEnv { ge_secret : string; ge_now : Z }.

Definition session_start (w : gateway) (idx : Z) (uid : string) (platform : Z) : gateway :=
  miku_msggw_ws_on_presence uid platform true (with_table (client_upgrade (gx_table w) idx uid platform) w).

(** The handshake of the socket in a slot, and what follows it: [keep] tells
    whether the connection stays open for a failure with EAGAIN. *)
Definition handshake (e : gw_env) (keep : bool) (idx fd : Z) (io : socket_io) (w : gateway) : gateway :=
  let '(u, out) := do_ws_upgrade (gx_revokes w) (ge_secret e) (ge_now e) (so_read io) (so_write io) in
  let w := log_write fd out w in
  match u with
  | Upgraded uid platform => session_start w idx uid platform
  | NotUpgraded again => if keep && again then w else client_offline w idx
  end.

(** ** Frames *)

Definition to_text (b : bytes) : text := chr <$> b.

Definition slot_fd (idx : Z) (w : gateway) : Z :=
  match at_ (gw_clients (gx_table w)) idx with Some c => gc_fd c | None => -1 end.

Definition count_in (w : gateway) : gateway :=
  with_table (set_msgs (gw_msgs_in (gx_table w) + 1) (gw_msgs_out (gx_table w)) (gx_table w)) w.

Section Frames.
Context (mongo : db_request -> option text).

(** A text frame: an opcode goes to its handler, anything else is only logged. *)
Definition on_text (idx : Z) (p : bytes) (d : draws) : gprog (option unit) :=
  atomic (fun w => (tt, count_in w)) ≫= fun _ =>
  match miku_json_parse (Some (to_text p)) with
  | None => Ret (Some tt)
  | Some j =>
      let req_op := jint (Some j) "reqIdentifier" in
      if 0 <? req_op
      then miku_msggw_ws_on_opcode mongo idx (i32 req_op) (default j (miku_json_get (Some j) (Some "data"))) d
      else Ret (Some tt)
  end.

(** The frames in [s] until one is empty, incomplete or refused; every frame
    takes at least two bytes.  The bytes that were not read are returned. *)
Fixpoint frames_loop (fuel : nat) (idx : Z) (f : miku_ws_frame) (s : bytes) (ds : nat -> draws) (n : nat) : gprog (option bytes) :=
  match fuel with
  | O => Ret (Some s)
  | S fuel' =>
      fd ← rd (slot_fd idx);
      if fd <? 0 then Ret (Some s)
      else match miku_ws_frame_read f s with
           | None => Ret (Some s)
           | Some (rc, f, s) =>
               if rc <=? 0 then Ret (Some s)
               else
                 let p := default [] (payload f) in
                 if (opcode f =? MK_WS_TEXT) && (0 <? payload_len f) then
                   r ← on_text idx p (ds n);
                   match r with
                   | None => Ret None
                   | Some _ => frames_loop fuel' idx f s ds (S n)
                   end
                 else if opcode f =? MK_WS_PING then
                   atomic (fun w => (tt, log_write fd (miku_ws_send_pong p) w)) ≫= fun _ => frames_loop fuel' idx f s ds (S n)
                 else if opcode f =? MK_WS_CLOSE then
                   atomic (fun w => (tt, client_offline w idx)) ≫= fun _ => Ret (Some s)
                 else frames_loop fuel' idx f s ds (S n)
           end
  end.

Definition read_client_frames (idx : Z) (s : bytes) (ds : nat -> draws) : gprog (option bytes) :=
  frames_loop (S (length s)) idx miku_ws_frame_create s ds 0.

(** ** Events *)

Record io_events := IoEvents { ev_error : bool; ev_read : bool }.

Definition slot_upgraded (idx : Z) (w : gateway) : bool :=
  match at_ (gw_clients (gx_table w)) idx with Some c => gc_upgraded c | None => false end.

(** What an event does before frames are read, and the slot to read from:
    the connection is looked up and changed under the mutex. *)
Definition on_client_io_locked (e : gw_env) (fd : Z) (ev : io_events) (io : socket_io) (w : gateway) : option Z * gateway :=
  let idx := find_client_by_fd (gx_table w) fd in
  if idx <? 0 then (None, log_close fd w)
  else if ev_error ev then (None, client_offline w idx)
  else if negb (ev_read ev) then (None, w)
  else if negb (slot_upgraded idx w) then (None, handshake e false idx (slot_fd idx w) io w)
  else (Some idx, w).

Definition on_client_io (e : gw_env) (fd : Z) (ev : io_events) (io : socket_io) (ds : nat -> draws) : gprog (option unit) :=
  idx ← atomic (on_client_io_locked e fd ev io);
  match idx with
  | None => Ret (Some tt)
  | Some idx => r ← read_client_frames idx (so_stream io) ds; Ret (match r with Some _ => Some tt | None => None end)
  end.

(** One accepted socket; [registered] is the outcome of adding it to the poller. *)
Record accepted := Accepted { ac_fd : Z; ac_registered : bool; ac_io : socket_io }.

Definition accept_one (e : gw_env) (a : accepted) (w : gateway) : gateway :=
  let '(idx, t) := find_or_add_client (gx_table w) (ac_fd a) (ge_now e) in
  if idx <? 0 then log_close (ac_fd a) w
  else
    let w := with_table t w in
    if negb (ac_registered a) then client_offline w idx
    else handshake e true idx (ac_fd a) (ac_io a) w.

(** The kernel hands out a descriptor that no connection has. *)
Definition fd_free (w : gateway) (fd : Z) : bool := (0 <=? fd) && (find_client_by_fd (gx_table w) fd <? 0).

Definition on_listen_io (e : gw_env) (l : list accepted) : gprog (option unit) :=
  each (fun a => atomic (fun w => (tt, if fd_free w (ac_fd a) then accept_one e a w else w))) l ≫= fun _ => Ret (Some tt).

(** ** The admin port (cmd/miku-msggateway/main.c) *)

Definition internal_req_authorized (env : option string) (req : http_request) : bool :=
  match rq_headers req with
  | None => false
  | Some h =>
      match first_some [h !! "X-Internal-Secret"; h !! "x-internal-secret"] with
      | Some s => streq s (miku_internal_secret env)
      | None => false
      end
  end.

Definition internal_reject : http_response := HttpResponse 403 (literal "{'errCode':403,'errMsg':'internal secret required'}").

Definition req_json (req : http_request) : option json :=
  match rq_body req with [] => None | b => miku_json_parse_str (Some (cstr b)) end.

Definition field63 (j : option json) (key : string) : string := strn 63 (default "" (jstr j key)).

Definition handle_internal_kick (env : option string) (now : Z) (req : http_request) : gprog http_response :=
  if negb (internal_req_authorized env req) then Ret internal_reject
  else
    let j := req_json req in
    let uid := field63 j "userID" in
    let platform := match miku_json_get j (Some "platformID") with Some p => i32 (miku_json_int (Some p)) | None => -1 end in
    kicked ← (if nonempty uid then
                atomic (fun w => (tt, with_revokes (miku_token_revoke (gx_revokes w) (Some uid) platform now).2 w)) ≫= fun _ =>
                atomic (fun w => miku_msggw_kick_user_nolock w uid platform)
              else Ret 0);
    Ret (HttpResponse 200 (snprintf 128 (raw_object [("errCode", fmt_lld 0); ("errMsg", quoted []); ("kicked", fmt_lld kicked)])).1).

(** The action is "add" unless the request gives another. *)
Definition req_action (j : option json) : string :=
  let a := jstr j "action" in if given a then strn 15 (default "" a) else "add".

Definition status_response (rc : Z) : http_response :=
  HttpResponse 200 (snprintf 128 (raw_object [("errCode", fmt_lld (if rc =? 0 then 0 else 500)); ("errMsg", quoted [])])).1.

Definition handle_internal_group_member (env : option string) (now : Z) (req : http_request) : gprog http_response :=
  if negb (internal_req_authorized env req) then Ret internal_reject
  else
    let j := req_json req in
    let gid := field63 j "groupID" in
    let uid := field63 j "userID" in
    let role := let r := jint j "role" in if r =? 0 then 20 else i32 r in
    rc ← (if nonempty gid && nonempty uid then
            atomic (fun w =>
              match gx_group w with
              | None => (-1, w)
              | Some g =>
                  let '(rc, g) := if streq (req_action j) "remove" then miku_group_remove_member g (Some gid) (Some uid)
                                  else miku_group_add_member g now (Some gid) (Some uid) role in
                  (rc, with_group (Some g) w)
              end)
          else Ret (-1));
    Ret (status_response rc).

Definition handle_internal_blacklist (env : option string) (now : Z) (req : http_request) : gprog http_response :=
  if negb (internal_req_authorized env req) then Ret internal_reject
  else
    let j := req_json req in
    let owner := field63 j "ownerUserID" in
    let blocked := strn 63 (default "" (first_some [jstr j "blockUserID"; jstr j "friendUserID"])) in
    rc ← (if nonempty owner && nonempty blocked then
            atomic (fun w =>
              match gx_friend w with
              | None => (-1, w)
              | Some f =>
                  let '(rc, f) := if streq (req_action j) "remove" then miku_friend_remove_black f (Some owner) (Some blocked)
                                  else miku_friend_add_black f now (Some owner) (Some blocked) in
                  (rc, with_friend (Some f) w)
              end)
          else Ret (-1));
    Ret (status_response rc).

(** The message of a push request. *)
Definition push_message (j : json) : miku_im_msg :=
  let m := default miku_im_msg_init (miku_im_msg_from_json (Some j)) in
  if im_content_type m <=? 0 then
    let mt := jint (Some j) "msgType" in
    im_set_types (if 0 <? mt then i32 mt else MK_IM_MSG_TYPE_TEXT) (im_conversation_type m) m
  else m.

Definition push_failed : http_response := HttpResponse 200 (literal "{'errCode':500,'errMsg':'deliver failed'}").

Definition handle_internal_push_msg (env : option string) (req : http_request) (d : draws) : gprog (option http_response) :=
  if negb (internal_req_authorized env req) then Ret (Some internal_reject)
  else
    match req_json req with
    | None => Ret (Some push_failed)
    | Some j =>
        r ← miku_msggw_ws_deliver_msg (push_message j) d;
        match r with
        | None => Ret None
        | Some (rc, m) =>
            if rc =? 0 then
              Ret (Some (HttpResponse 200 (snprintf 256 (raw_object [("errCode", fmt_lld 0); ("serverMsgID", quoted (str (im_msg_id m)));
                                 ("seq", fmt_lld (im_seq m)); ("sendTime", fmt_lld (im_send_time m))])).1))
            else Ret (Some push_failed)
        end
    end.
End Frames.

(** The state that the program starts with. *)
Definition gateway_create : gateway :=
  Gateway miku_msggw_create (Some miku_ws_sub_create) (Some (miku_msg_store_create false)) (Some miku_group_service_create)
    (Some miku_conv_service_create) (Some miku_friend_service_create) miku_token_revoke_clear [].

(** ** The program *)

(** An event of the loop or a request of the admin thread. *)
Inductive gw_request :=
  | ClientIo (now fd : Z) (ev : io_events) (io : socket_io) (ds : nat -> draws)
  | Listen (now : Z) (l : list accepted)
  | Kick (now : Z) (req : http_request)
  | GroupMember (now : Z) (req : http_request)
  | Blacklist (now : Z) (req : http_request)
  | PushMsg (req : http_request) (d : draws).

(** [secret] is the user secret and [env] the variable of the internal secret. *)
Definition gw_program (mongo : db_request -> option text) (secret : string) (env : option string) (r : gw_request) : gprog unit :=
  let finish {A} (p : gprog A) : gprog unit := p ≫= fun _ => Ret tt in
  match r with
  | ClientIo now fd ev io ds => finish (on_client_io mongo (GwEnv secret now) fd ev io ds)
  | Listen now l => finish (on_listen_io (GwEnv secret now) l)
  | Kick now req => finish (handle_internal_kick env now req)
  | GroupMember now req => finish (handle_internal_group_member env now req)
  | Blacklist now req => finish (handle_internal_blacklist env now req)
  | PushMsg req d => finish (handle_internal_push_msg env req d)
  end.
