(* ===== verification/GwInv.v ===== *)
(** * Message gateway: invariants of every interleaving

    [GwInvariant] lists the elementary changes that the gateway makes to its
    state.  A property that survives each of them holds in every state that
    the event loop and the admin thread can reach, however their actions
    interleave ([gateway_invariant]).  [GwGuarantee] is the same for what each
    step of a run guarantees ([gateway_guarantee]).  The instances: the
    connection table is well formed, a step starts a session only for a token
    that its socket presented and that verifies at that step, and (GwDeliver.v)
    the friend service of the stand-alone program stays empty. *)
From Stdlib Require Import Ascii String.
From S2P Require Import Prelude Hash ProbeIndex ChainIndex SlotChains Seq Json JsonText JsonEscape Models OwnedTable Friend Group GroupRpc Conversation.
From S2P Require Import MsgStore ImMessage Bytes Token Atomic MsgService WebSocket WsServer WsSub Auth ApiCore GwTable GwSend GwOps GwIo.
#[local] Open Scope string_scope.
#[local] Open Scope list_scope.
#[local] Open Scope Z_scope.

(** What a request gives a connection to read before it is a session: the
    socket [fd] presents the bytes [b] at the time [now]. *)
Definition presents (r : gw_request) (now fd : Z) (b : bytes) : Prop :=
  match r with
  | ClientIo now' fd' _ io _ => now' = now /\ fd' = fd /\ so_read io = ReadBytes b
  | Listen now' l => now' = now /\ exists a, a ∈ l /\ ac_fd a = fd /\ so_read (ac_io a) = ReadBytes b
  | _ => False
  end.

(** The handshakes of a run with the requests [rs]. *)
Definition presented (rs : list gw_request) (now fd : Z) (b : bytes) : Prop := exists r, r ∈ rs /\ presents r now fd b.

(** The bytes that the socket [fd] presented (in one of the handshakes [H])
    carry a token that verifies for the user and the platform, against the
    secret, the clock of the handshake and the revocations [r]. *)
Definition genuine (H : Z -> Z -> bytes -> Prop) (secret : string) (r : revokes) (fd : Z) (uid : string) (platform : Z) : Prop :=
  exists now b token ts, H now fd b /\ request_token (c_str b) = Some token /\
    miku_token_verify_ex r (Some token) (Some secret) 64 now = Some (uid, platform, ts).

Lemma length_of_text (t : text) : String.length (string_of_list_ascii t) = length t.
Proof. induction t as [|c t IH]; cbn; [done|by rewrite IH]. Qed.

Lemma token_uid t cap uid p ts nonce sig : token_fields t cap = Some (uid, p, ts, nonce, sig) ->
  nonempty uid = true /\ Z.of_nat (String.length uid) < cap.
Proof.
  unfold token_fields. destruct (negb _); [done|]. destruct (cut_at _ _) as [[u t1]|]; [|done]. cbn.
  destruct ((tlen u =? 0) || (cap <=? tlen u)) eqn:E; [done|]. apply orb_false_iff in E as [E1 E2].
  destruct (sscanf_d t1) as [d1|]; [|done]. cbn. destruct (cut_at _ t1) as [[u2 t2]|]; [|done]. cbn. destruct (sscanf_lld t2) as [d2|]; [|done]. cbn.
  destruct (cut_at _ t2) as [[u3 t3]|]; [|done]. cbn. destruct (cut_at _ t3) as [[n t4]|]; [|done]. cbn. destruct (_ || _); [done|].
  destruct (sscanf_llx t4) as [d3|]; [|done]. cbn. intros [= <- _ _ _ _]. apply Z.eqb_neq in E1. apply Z.leb_gt in E2. unfold tlen in *. split.
  - by destruct u.
  - by rewrite length_of_text.
Qed.

Lemma verify_uid r token secret now uid p ts : miku_token_verify_ex r (Some token) (Some secret) 64 now = Some (uid, p, ts) ->
  nonempty uid = true /\ (String.length uid <= 63)%nat.
Proof.
  unfold miku_token_verify_ex. cbn [Z.eqb]. destruct (token_fields _ _) as [[[[[u p'] t'] n] sg]|] eqn:E; [|done]. cbn.
  destruct (negb _); [done|]. destruct (_ <? _); [done|]. destruct (is_revoked _ _ _ _); [done|]. intros [= -> -> ->].
  apply token_uid in E as [? ?]. split; [done|lia].
Qed.

(** A handshake succeeds only with a token in the bytes that were read which
    verifies against the revocations of that moment. *)
Lemma upgraded_verified r secret now rr wr uid p out : do_ws_upgrade r secret now rr wr = (Upgraded uid p, out) ->
  exists b token ts, rr = ReadBytes b /\ request_token (c_str b) = Some token /\
    miku_token_verify_ex r (Some token) (Some secret) 64 now = Some (uid, p, ts).
Proof.
  destruct rr as [|[|b0 b]]; [done|done|]. unfold do_ws_upgrade. cbn zeta. intros E. exists (b0 :: b). revert E. generalize (c_str (b0 :: b)). intros buf.
  destruct (sec_key buf) as [key|]; [|done]. destruct (request_token buf) as [token|]; [|done].
  destruct (miku_token_verify_ex _ _ _ _ _) as [[[u q] ts]|] eqn:E; [|done].
  destruct (miku_ws_handshake key 64) as [[[| |] [acc|]]|]; try done. destruct wr; [done|]. intros [= <- -> _].
  pose proof (verify_uid _ _ _ _ _ _ _ E) as [_ Hl]. rewrite strn_short by done. eauto.
Qed.

(** The elementary changes.  A session starts ([gi_upgrade]) in the slot of a
    connection whose handshake is genuine. *)
Class GwInvariant (H : Z -> Z -> bytes -> Prop) (secret : string) (I : gateway -> Prop) : Prop := {
  gi_ok : forall w, I w -> gw_ok (gx_table w);
  gi_log : forall w l, I w -> I (with_log l w);
  gi_count : forall w i o, I w -> I (with_table (set_msgs i o (gx_table w)) w);
  gi_seq : forall w s, I w -> I (with_table (set_seq s (gx_table w)) w);
  gi_background : forall w idx b, I w -> I (with_table (miku_msggw_set_background_nolock (gx_table w) idx b).2 w);
  gi_release : forall w idx c, I w -> at_ (gw_clients (gx_table w)) idx = Some c -> gc_online c = true ->
    I (with_table (client_release (gx_table w) idx c) w);
  gi_accept : forall w fd now idx t, I w -> 0 <= fd -> find_or_add_client (gx_table w) fd now = (idx, t) -> I (with_table t w);
  gi_upgrade : forall w idx c uid platform, I w -> at_ (gw_clients (gx_table w)) idx = Some c -> gc_online c = true ->
    gc_upgraded c = false -> (String.length uid <= 63)%nat -> genuine H secret (gx_revokes w) (gc_fd c) uid platform ->
    I (with_table (client_upgrade (gx_table w) idx uid platform) w);
  gi_sub : forall w s, I w -> I (with_sub s w);
  gi_store : forall w s, I w -> I (with_store s w);
  gi_conv : forall w c, I w -> I (with_conv c w);
  gi_group : forall w g, I w -> I (with_group g w);
  gi_black : forall w f b, I w -> gx_friend w = Some f -> I (with_friend (Some (FriendService (friends f) b)) w) }.

(** What an action guarantees: an invariant [J w0] holds along the changes that
    it makes from [w0], and gives [G w0] of the state in which it ends.  The
    other kind of action records a revocation. *)
Class GwGuarantee (H : Z -> Z -> bytes -> Prop) (secret : string) (I : gateway -> Prop) (J G : gateway -> gateway -> Prop) : Prop := {
  ga_inv :: forall w0, GwInvariant H secret (J w0);
  ga_start : forall w, I w -> J w w;
  ga_end : forall w0 w, J w0 w -> G w0 w;
  ga_keep : forall w0 w, G w0 w -> I w;
  ga_revokes : forall w r, I w -> G w (with_revokes r w) }.

Definition keeps (I : gateway -> Prop) (G : gateway -> gateway -> Prop) {A} (p : gprog A) : Prop :=
  forall h, safe I (fun _ => G) (fun _ _ => True) h p.

Section Keeps.
Context {I : gateway -> Prop} {G : gateway -> gateway -> Prop}.

Lemma gkeeps_ret {A} (a : A) : keeps I G (Ret a).
Proof. by intros h. Qed.

Lemma gkeeps_act {A} (f : gateway -> A * gateway) : (forall w, I w -> G w (f w).2) -> keeps I G (atomic f).
Proof. intros Hf h w Hw. split; [by apply Hf|done]. Qed.

Lemma gkeeps_bind {A B} (p : gprog A) (g : A -> gprog B) : keeps I G p -> (forall a, keeps I G (g a)) -> keeps I G (p ≫= g).
Proof. intros Hp Hg h. apply safe_bind. eapply safe_mono; [apply Hp|]. intros h' a _. apply Hg. Qed.

Lemma gkeeps_each {A} (f : A -> gprog unit) l : (forall x, x ∈ l -> keeps I G (f x)) -> keeps I G (each f l).
Proof.
  induction l as [|x l IH]; intros Hf; cbn; [apply gkeeps_ret|]. apply gkeeps_bind; [apply Hf; by left|]. intros _. apply IH.
  intros y Hy. apply Hf. by right.
Qed.

Lemma gkeeps_if {A} (b : bool) (p q : gprog A) : keeps I G p -> keeps I G q -> keeps I G (if b then p else q).
Proof. by destruct b. Qed.
End Keeps.

Create HintDb keeps discriminated.
#[export] Hint Resolve gkeeps_ret : keeps.

(** Splits a program into its actions. *)
Ltac keeps_step :=
  match goal with
  | |- keeps _ _ (mbind _ _) => apply gkeeps_bind; [|intros ?]
  | |- keeps _ _ (prog_bind _ _) => apply gkeeps_bind; [|intros ?]
  | |- keeps _ _ (if ?b then _ else _) => apply gkeeps_if
  | |- keeps _ _ (match ?x with _ => _ end) => destruct x
  | |- keeps _ _ (let _ := _ in _) => cbn zeta
  | |- _ => solve [auto with keeps nocore]
  end.
Ltac keeps_auto := intros; repeat (cbn zeta; keeps_step).

Section Invariant.
Context {H : Z -> Z -> bytes -> Prop} {secret : string} {I : gateway -> Prop} {HI : GwInvariant H secret I}.

(** ** Under the mutex *)

Lemma inv_write fd b w : I w -> I (log_write fd b w).
Proof using HI. destruct b; [apply gi_log|done]. Qed.

Lemma inv_send_all fds t w : I w -> I (send_all fds t w).2.
Proof using HI.
  intros Hw. unfold send_all, count_out. cbn [snd]. apply gi_count. apply foldl_inv; [done|]. intros v fd _. apply inv_write.
Qed.

Lemma inv_send_op_to_user w u op t : I w -> I (miku_msggw_send_op_to_user_nolock w u op t).2.
Proof using HI. intros Hw. unfold miku_msggw_send_op_to_user_nolock. destruct (op_text op t); [by apply inv_send_all|done]. Qed.

Lemma inv_send_op w idx op t : I w -> I (miku_msggw_send_op_nolock w idx op t).2.
Proof using HI.
  intros Hw. unfold miku_msggw_send_op_nolock. destruct (slot_of _ _) as [c|]; [|done]. destruct (negb _); [done|].
  destruct (op_text op t); [|done]. cbn [snd]. unfold count_out. apply gi_count. by apply inv_write.
Qed.

Lemma inv_presence u p online w : I w -> I (miku_msggw_ws_on_presence u p online w).
Proof using HI.
  intros Hw. unfold miku_msggw_ws_on_presence. destruct (gx_sub w); [|done]. apply foldl_inv; [done|].
  intros v [s t] _. apply inv_send_op_to_user.
Qed.

Lemma inv_offline w idx : I w -> I (client_offline w idx).
Proof using HI.
  intros Hw. unfold client_offline. unfold slot_of. destruct (_ || _); [done|].
  destruct (at_ (gw_clients (gx_table w)) idx) as [c|] eqn:Hc; [|done].
  destruct (gc_online c) eqn:Ho; [|done]. cbn [negb].
  set (w1 := if nonempty _ then _ else _). assert (I w1) as H1 by (subst w1; destruct (nonempty _); [by apply inv_presence|done]).
  assert (at_ (gw_clients (gx_table w1)) idx = Some c) as Hc1.
  { subst w1. destruct (nonempty _); [|done]. by rewrite (wrote_clients _ _ _ (wrote_presence _ _ _ _)). }
  pose proof (gi_release w1 idx c H1 Hc1 Ho) as H2. destruct (0 <=? gc_fd c); [by apply gi_log|done].
Qed.

Lemma inv_kick_loop fuel : forall w u p idx k, I w -> I (kick_loop fuel w u p idx k).2.
Proof using HI.
  induction fuel as [|fuel IH]; intros w u p idx k Hw; cbn [kick_loop]; [done|]. destruct (idx <? 0); [done|]. cbn zeta.
  destruct (at_ _ idx) as [c|]; [|by apply IH]. destruct (kick_matches u p c); [|by apply IH]. apply IH. unfold kick_one, close_frame.
  apply inv_offline, inv_write, inv_send_op, Hw.
Qed.

Lemma inv_disconnect w idx : I w -> I (miku_msggw_disconnect_client_nolock w idx).2.
Proof using HI.
  intros Hw. unfold miku_msggw_disconnect_client_nolock. destruct (slot_of _ _) as [c|]; [|done]. destruct (negb _); [done|]. cbn [snd].
  apply inv_offline. destruct (gc_upgraded c); [by apply inv_write|done].
Qed.

Lemma inv_handshake e keep idx fd io w c : ge_secret e = secret -> (forall b, so_read io = ReadBytes b -> H (ge_now e) (gc_fd c) b) ->
  I w -> at_ (gw_clients (gx_table w)) idx = Some c -> gc_online c = true -> gc_upgraded c = false -> I (handshake e keep idx fd io w).
Proof using HI.
  intros He Hh Hw Hc Ho Hu. unfold handshake. destruct (do_ws_upgrade _ _ _ _ _) as [u out] eqn:E.
  assert (I (log_write fd out w)) as H1 by (by apply inv_write). destruct u as [uid p|again].
  - apply upgraded_verified in E as (b & token & ts & Hb & Ht & E). rewrite He in E. apply inv_presence.
    assert (gx_table (log_write fd out w) = gx_table w /\ gx_revokes (log_write fd out w) = gx_revokes w) as [Et Er] by (by destruct out).
    rewrite Et, <- Et. pose proof (verify_uid _ _ _ _ _ _ _ E) as [_ Hl]. eapply gi_upgrade; [done|rewrite Et; exact Hc|done|done|done|].
    rewrite Er. exists (ge_now e), b, token, ts. auto.
  - destruct (keep && again); [done|by apply inv_offline].
Qed.

Lemma inv_client_io e fd ev io w : ge_secret e = secret -> (forall b, so_read io = ReadBytes b -> H (ge_now e) fd b) ->
  I w -> I (on_client_io_locked e fd ev io w).2.
Proof using HI.
  intros He Hh Hw. unfold on_client_io_locked. cbn zeta. destruct (Z.ltb_spec (find_client_by_fd (gx_table w) fd) 0); [by apply gi_log|].
  destruct (ev_error ev); [by apply inv_offline|]. destruct (ev_read ev); [|done]. cbn [negb].
  destruct (find_client_ok (gx_table w) fd (gi_ok w Hw)) as [(c & Hc & Hfd & Ho)|[Hn _]]; [|lia].
  unfold slot_upgraded. rewrite Hc. destruct (gc_upgraded c) eqn:Hu; [done|]. cbn [negb snd]. eapply inv_handshake; [done| |done..].
  by rewrite Hfd.
Qed.

Lemma inv_accept e a w : ge_secret e = secret -> (forall b, so_read (ac_io a) = ReadBytes b -> H (ge_now e) (ac_fd a) b) ->
  fd_free w (ac_fd a) = true -> I w -> I (accept_one e a w).
Proof using HI.
  intros He Hh Hf Hw. apply andb_true_iff in Hf as [H1 H2]. apply Z.leb_le in H1. apply Z.ltb_lt in H2. unfold accept_one.
  destruct (find_or_add_client _ _ _) as [idx t] eqn:E. destruct (find_or_add_client_ok _ _ _ _ _ (gi_ok w Hw) H1 E) as [_ Hadd].
  assert (find_client_by_fd (gx_table w) (ac_fd a) = -1) as Hn.
  { destruct (find_client_ok (gx_table w) (ac_fd a) (gi_ok w Hw)) as [(c & Hc & _)|[? _]]; [apply at_lt in Hc; lia|done]. }
  pose proof (gi_accept w _ _ _ _ Hw H1 E) as Hw'. destruct (Z.ltb_spec idx 0); [by apply gi_log|].
  destruct (ac_registered a); [|by apply inv_offline]. destruct (Hadd Hn) as [Hat _]; [lia|].
  eapply inv_handshake; [done| |done|cbn; rewrite Hat; by rewrite decide_True|done|done]. exact Hh.
Qed.
End Invariant.

Section Guarantee.
Context {H : Z -> Z -> bytes -> Prop} {secret : string} {I : gateway -> Prop} {J G : gateway -> gateway -> Prop} {HG : GwGuarantee H secret I J G}.

Lemma gkeeps_rd {A} (f : gateway -> A) : keeps I G (rd f).
Proof using HG. intros h w Hw. split; [by apply ga_end, ga_start|done]. Qed.

(** An action that is made of the elementary changes. *)
Lemma gkeeps_atomic {A} (f : gateway -> A * gateway) : (forall w0 w, J w0 w -> J w0 (f w).2) -> keeps I G (atomic f).
Proof using HG. intros Hf. apply gkeeps_act. intros w Hw. by apply ga_end, Hf, ga_start. Qed.
#[local] Hint Resolve gkeeps_rd : keeps.

(** ** Handlers *)

Lemma gkeeps_reply idx op t : keeps I G (reply_json idx op t).
Proof using HG. apply gkeeps_atomic. intros w0 w. apply inv_send_op. Qed.

Lemma keeps_send_user u op t : keeps I G (send_op_to_user u op t).
Proof using HG. apply gkeeps_atomic. intros w0 w. apply inv_send_op_to_user. Qed.

Lemma keeps_set_read u c n : keeps I G (set_user_read u c n).
Proof using HG.
  apply gkeeps_atomic. intros w0 w Hw. unfold miku_msggw_set_user_read. destruct (miku_seq_set_user_read _ _ _ _). by apply gi_seq.
Qed.

Lemma keeps_alloc c : keeps I G (alloc_seq c).
Proof using HG. apply gkeeps_atomic. intros w0 w Hw. unfold miku_msggw_alloc_seq. destruct (miku_seq_next _ _). by apply gi_seq. Qed.

Lemma keeps_touch o c ty p g st t b : keeps I G (conv_touch o c ty p g st t b).
Proof using HG. apply gkeeps_atomic. intros w0 w Hw. cbn [snd]. destruct (gx_conv w); [by apply gi_conv|done]. Qed.

Lemma keeps_insert m c d : keeps I G (store_insert m c d).
Proof using HG.
  apply gkeeps_atomic. intros w0 w Hw. destruct (gx_store w); [|done]. destruct (miku_msg_store_insert _ _ _ _ _ _ _ _ _) as [[[a o] s]|]; [|done].
  by apply gi_store.
Qed.

Lemma keeps_background idx b : keeps I G (set_background idx b).
Proof using HG.
  apply gkeeps_atomic. intros w0 w Hw. pose proof (gi_background (I:=J w0) w idx b Hw) as Hb. by destruct (miku_msggw_set_background_nolock _ _ _).
Qed.

Lemma keeps_disconnect idx : keeps I G (disconnect_client idx).
Proof using HG. apply gkeeps_atomic. intros w0 w. apply inv_disconnect. Qed.

#[local] Hint Resolve gkeeps_reply keeps_send_user keeps_set_read keeps_alloc keeps_touch keeps_insert keeps_background keeps_disconnect : keeps.

Lemma keeps_access u c : keeps I G (ws_may_access_conv u c).
Proof using HG. unfold ws_may_access_conv. keeps_auto. Qed.

Lemma keeps_answered p : keeps I G p -> keeps I G (answered p).
Proof using HG. intros Hp. unfold answered. keeps_auto. Qed.
#[local] Hint Resolve keeps_access keeps_answered : keeps.

Lemma keeps_fanout m : keeps I G (fanout_send_msg m).
Proof using HG.
  unfold fanout_send_msg. keeps_auto.
  - apply gkeeps_each. intros u _. unfold fanout_one_member. keeps_auto.
  - unfold push_im_to_user. keeps_auto.
Qed.

Lemma keeps_touch_convs m c : keeps I G (ws_touch_convs_on_send m c).
Proof using HG.
  unfold ws_touch_convs_on_send. keeps_auto. apply gkeeps_each. intros u _. unfold ws_upsert_group_member_conv. keeps_auto.
Qed.
#[local] Hint Resolve keeps_fanout keeps_touch_convs : keeps.

Lemma keeps_deliver m d : keeps I G (miku_msggw_ws_deliver_msg m d).
Proof using HG. unfold miku_msggw_ws_deliver_msg, single_gate, group_gate, deliver_accepted. keeps_auto. Qed.
#[local] Hint Resolve keeps_deliver : keeps.

Lemma keeps_fill u c m : keeps I G (fill_read_seq_entry u c m).
Proof using HG. unfold fill_read_seq_entry, peek_max_seq, get_user_read. keeps_auto. Qed.
#[local] Hint Resolve keeps_fill : keeps.

Lemma keeps_entry u m c : keeps I G (read_entry u m c).
Proof using HG. unfold read_entry. keeps_auto. Qed.
#[local] Hint Resolve keeps_entry : keeps.

Lemma keeps_entries u cs : forall m, keeps I G (read_entries u m cs).
Proof using HG. induction cs as [|c cs IH]; intros m; cbn [read_entries]; keeps_auto. Qed.
#[local] Hint Resolve keeps_entries : keeps.

Lemma keeps_opcode mongo idx op data d : keeps I G (miku_msggw_ws_on_opcode mongo idx op data d).
Proof using HG.
  unfold miku_msggw_ws_on_opcode, client_user, op_get_newest_seq, op_pull, op_send_msg, op_read_receipt, op_pull_last,
    op_get_max_read_seq, op_sub_user_status, peek_max_seq.
  keeps_auto.
  all: apply gkeeps_atomic; intros w0 w Hw; cbn [snd]; destruct (gx_sub w); [by apply gi_sub|done].
Qed.

Lemma keeps_text mongo idx p d : keeps I G (on_text mongo idx p d).
Proof using HG.
  unfold on_text. keeps_auto; [|apply keeps_opcode]. apply gkeeps_atomic. intros w0 w Hw. cbn [snd]. by apply gi_count.
Qed.
#[local] Hint Resolve keeps_text : keeps.

Lemma keeps_frames mongo fuel : forall idx f s ds n, keeps I G (frames_loop mongo fuel idx f s ds n).
Proof using HG.
  induction fuel as [|fuel IH]; intros idx f s ds n; cbn [frames_loop]; keeps_auto; apply gkeeps_atomic; intros w0 w Hw; cbn [snd].
  - by apply inv_write.
  - by apply inv_offline.
Qed.

Lemma keeps_program mongo env r : (forall now fd b, presents r now fd b -> H now fd b) -> keeps I G (gw_program mongo secret env r).
Proof using HG.
  intros Hr. destruct r as [now fd ev io ds|now l|now req|now req|now req|req d]; cbn [gw_program].
  - apply gkeeps_bind; [|intros; apply gkeeps_ret]. unfold on_client_io. apply gkeeps_bind.
    + apply gkeeps_atomic. intros w0 w. apply inv_client_io; [done|]. intros b Hb. by apply Hr.
    + intros [idx|]; [|apply gkeeps_ret]. apply gkeeps_bind; [apply keeps_frames|intros; apply gkeeps_ret].
  - apply gkeeps_bind; [|intros; apply gkeeps_ret]. unfold on_listen_io. apply gkeeps_bind; [|intros; apply gkeeps_ret].
    apply gkeeps_each. intros a Ha. apply gkeeps_atomic. intros w0 w Hw. cbn [snd]. destruct (fd_free w (ac_fd a)) eqn:Ef; [|done].
    apply inv_accept; [done| |done..]. intros b Hb. apply Hr. split; [done|]. by exists a.
  - unfold handle_internal_kick. keeps_auto.
    + apply gkeeps_act. intros w Hw. by apply ga_revokes.
    + apply gkeeps_atomic. intros w0 w Hw. by apply inv_kick_loop.
  - unfold handle_internal_group_member. keeps_auto. apply gkeeps_atomic. intros w0 w Hw. destruct (gx_group w); [|done].
    destruct (if streq _ _ then _ else _). by apply gi_group.
  - unfold handle_internal_blacklist. keeps_auto. apply gkeeps_atomic. intros w0 w Hw. destruct (gx_friend w) as [f|] eqn:Ef; [|done].
    unfold miku_friend_remove_black, miku_friend_add_black.
    destruct (streq _ _); [destruct (black_remove _ _ _)|destruct (black_add _ _ _ _)]; by apply gi_black.
  - unfold handle_internal_push_msg. keeps_auto.
Qed.
End Guarantee.

(** ** Runs *)

Lemma keeps_programs H secret I J G `{!GwGuarantee H secret I J G} mongo env rs :
  (forall now fd b, presented rs now fd b -> H now fd b) ->
  Forall (safe I (fun _ => G) (fun _ _ => True) []) (gw_program mongo secret env <$> rs).
Proof.
  intros Hrs. apply list.Forall_fmap, list.Forall_forall. intros r Hr. apply keeps_program. intros now fd b Hp. apply Hrs. by exists r.
Qed.

(** Every step of a run satisfies the guarantee. *)
Lemma gateway_guarantee I J G mongo secret env rs ps ps' w0 w w' `{!GwGuarantee (presented rs) secret I J G} :
  rtc pool_step (gw_program mongo secret env <$> rs, w0) (ps, w) -> pool_step (ps, w) (ps', w') -> I w0 -> G w w'.
Proof.
  intros R S Hw. eapply (pool_guarantee I G); [apply ga_keep|exact R|exact S|exact Hw|]. by eapply keeps_programs.
Qed.

(** An invariant that every elementary change and every revocation keeps. *)
#[export] Instance invariant_guarantee H secret I `{!GwInvariant H secret I} :
  (forall w r, I w -> I (with_revokes r w)) -> GwGuarantee H secret I (fun _ => I) (fun _ => I).
Proof. intros Hr. split; auto. Qed.

(** It holds in every state that is reached. *)
Lemma gateway_invariant I mongo secret env rs ps w w' `{!GwInvariant (presented rs) secret I} : (forall w r, I w -> I (with_revokes r w)) ->
  rtc pool_step (gw_program mongo secret env <$> rs, w) (ps, w') -> I w -> I w'.
Proof.
  intros Hr R Hw. pose proof (invariant_guarantee _ _ _ Hr) as HG.
  eapply (pool_safe I (fun _ _ w' => I w')); [done|exact R|exact Hw|]. by eapply (keeps_programs _ _ I (fun _ => I) (fun _ => I)).
Qed.

(** ** The connection table *)

#[export] Instance table_invariant H secret : GwInvariant H secret (fun w => gw_ok (gx_table w)).
Proof.
  split; try done.
  - intros w i o. apply set_msgs_ok.
  - intros w s. apply set_seq_ok.
  - intros w idx b. apply set_background_ok.
  - intros w idx c O Hc Ho. by apply release_ok.
  - intros w fd now idx t O Hfd E. by eapply find_or_add_client_ok.
  - intros w idx c uid p O Hc Ho Hu Hl _. by eapply upgrade_ok.
Qed.

(** ** Sessions *)

(** The slot [i] holds a session of the user on the socket. *)
Definition session_at (w : gateway) (i fd : Z) (uid : string) (platform : Z) : Prop :=
  exists c, at_ (gw_clients (gx_table w)) i = Some c /\ connected c = true /\ gc_fd c = fd /\ gc_user_id c = uid /\ gc_platform c = platform.

(** Every session of [w] is one of [w0] or has a genuine handshake, against
    the revocations of [w0]. *)
Definition sessions_from (H : Z -> Z -> bytes -> Prop) (secret : string) (w0 w : gateway) : Prop :=
  forall i fd uid platform, session_at w i fd uid platform ->
    session_at w0 i fd uid platform \/ genuine H secret (gx_revokes w0) fd uid platform.

Lemma accept_connected gw fd now idx t j c : gw_ok gw -> find_or_add_client gw fd now = (idx, t) ->
  at_ (gw_clients t) j = Some c -> connected c = true -> at_ (gw_clients gw) j = Some c.
Proof.
  intros O E Hj Hc. unfold find_or_add_client in E. destruct (0 <=? _); [by simplify_eq|].
  assert (forall l g, gw_clients (fd_map_set (set_free l (gw_online_count gw + 1) g) fd idx) = gw_clients g) as Hfd
    by (intros; unfold fd_map_set; by destruct (in_fd_map fd)).
  destruct (gw_free_stack gw) as [|i free] eqn:Ef.
  - destruct (MK_GW_MAX_CLIENTS <=? client_count gw); [by simplify_eq|]. injection E as <- <-. rewrite Hfd in Hj. cbn in Hj.
    rewrite at_snoc_upd in Hj. case_decide; [|done]. by simplify_eq.
  - injection E as <- <-. rewrite Hfd in Hj. cbn in Hj. assert (i ∈ gw_free_stack gw) as Hi by (rewrite Ef; by left).
    apply (go_free _ O) in Hi as (d & Hd & _). pose proof (at_lt _ _ _ Hd). rewrite at_upd in Hj by lia.
    case_decide; [|done]. rewrite Hd in Hj. injection Hj as <-; by cbn in Hc.
Qed.

Lemma session_at_mono w w' i fd uid p : (forall c, at_ (gw_clients (gx_table w)) i = Some c -> connected c = true ->
    exists d, at_ (gw_clients (gx_table w')) i = Some d /\ connected d = true /\ gc_fd d = gc_fd c /\ gc_user_id d = gc_user_id c /\ gc_platform d = gc_platform c) ->
  session_at w i fd uid p -> session_at w' i fd uid p.
Proof. intros Hm (c & Hc & Hcon & E1 & E2 & E3). destruct (Hm c Hc Hcon) as (d & Hd & Hdon & F1 & F2 & F3). exists d. split_and!; congruence. Qed.

Lemma sessions_from_mono H secret w0 w w' : sessions_from H secret w0 w ->
  (forall i fd uid p, session_at w' i fd uid p -> session_at w i fd uid p) -> sessions_from H secret w0 w'.
Proof. intros Hf Hm i fd uid p Hs. by apply Hf, Hm. Qed.

(** Along an action the revocations stay and no session starts without its
    handshake. *)
Definition sessions_kept (H : Z -> Z -> bytes -> Prop) (secret : string) (w0 w : gateway) : Prop :=
  gw_ok (gx_table w) /\ gx_revokes w = gx_revokes w0 /\ sessions_from H secret w0 w.

#[export] Instance sessions_invariant H secret w0 : GwInvariant H secret (sessions_kept H secret w0).
Proof.
  split; try (by intros w l (O & E & F)).
  - by intros w (O & _).
  - intros w i o (O & E & F). split; [by apply set_msgs_ok|done].
  - intros w s (O & E & F). split; [by apply set_seq_ok|done].
  - intros w idx b (O & E & F). split_and!; [by apply set_background_ok|done|]. apply (sessions_from_mono _ _ _ _ _ F). intros i fd u p.
    apply session_at_mono. intros c. cbn. unfold miku_msggw_set_background_nolock, slot_of.
    destruct (_ || _); [by exists c|]. destruct (at_ _ idx) as [d|] eqn:Hd; [|by exists c]. pose proof (at_lt _ _ _ Hd). cbn. rewrite at_upd by lia.
    case_decide as Ei; [|by exists c]. subst. rewrite Hd. intros [= <-] Hcon. by exists d.
  - intros w idx c (O & E & F) Hc Ho. destruct (release_ok _ _ _ O Hc Ho) as (O' & Er & _). split_and!; [done|done|].
    apply (sessions_from_mono _ _ _ _ _ F). intros i fd u p. apply session_at_mono. intros d. cbn [gx_table with_table]. rewrite Er.
    pose proof (at_lt _ _ _ Hc). rewrite at_upd by lia. case_decide; [|by exists d]. rewrite Hc. by intros [= <-].
  - intros w fd now idx t (O & E & F) Hfd Ea. split_and!; [by eapply find_or_add_client_ok|done|]. apply (sessions_from_mono _ _ _ _ _ F).
    intros i fd' u p. apply session_at_mono. intros c Hc Hcon. exists c. by rewrite (accept_connected _ _ _ _ _ _ _ O Ea Hc Hcon).
  - intros w idx c uid p (O & E & F) Hc Ho Hu Hl Hg. split_and!; [by eapply upgrade_ok|cbn; done|]. intros i fd u q (d & Hd & Hcon & E1 & E2 & E3).
    pose proof (at_lt _ _ _ Hc) as Hi. cbn [gx_table with_table] in Hd. unfold client_upgrade, user_index_add in Hd.
    assert (i = idx /\ gc_fd d = gc_fd c /\ gc_user_id d = uid /\ gc_platform d = p \/ at_ (gw_clients (gx_table w)) i = Some d) as [(-> & F1 & F2 & F3)|Hd'].
    { destruct (nonempty uid); cbn in Hd; rewrite at_upd in Hd by lia; (case_decide as Ei; [|by right]); left; subst i; rewrite Hc in Hd;
        injection Hd as <-; cbn; by rewrite strn_short. }
    + right. rewrite <- E. subst. rewrite F1. exact Hg.
    + apply F. by exists d.
  - by intros w f b (O & E & F) Ef.
Qed.

#[export] Instance sessions_guarantee H secret :
  GwGuarantee H secret (fun w => gw_ok (gx_table w)) (sessions_kept H secret) (fun w0 w => gw_ok (gx_table w) /\ sessions_from H secret w0 w).
Proof.
  split.
  - apply sessions_invariant.
  - intros w O. split_and!; [done|done|]. intros i fd u p Hs. by left.
  - intros w0 w (O & _ & F). by split.
  - by intros w0 w [O _].
  - intros w r O. split; [done|]. intros i fd u p Hs. by left.
Qed.
