(* ===== verification/GwSafe.v ===== *)
(** * Message gateway: sessions, deliveries and disclosures

    What the invariants of GwInv.v mean for the sessions of the reachable
    states, what a message to a user and a forced logout do to the sockets,
    and when the opcode handlers push a message to a user or show the messages
    of a conversation. *)
From Stdlib Require Import Ascii String.
From S2P Require Import Prelude Hash ProbeIndex ChainIndex SlotChains Seq Json JsonText JsonEscape Models OwnedTable Friend Group GroupRpc Conversation.
From S2P Require Import MsgStore ImMessage Bytes Token Atomic MsgService WebSocket WsServer WsSub Auth ApiCore GwTable GwSend GwOps GwIo GwInv.
#[local] Open Scope string_scope.
#[local] Open Scope list_scope.
#[local] Open Scope Z_scope.

(** ** Ending a session *)

Lemma wrote_table P w w' : wrote P w w' -> exists i o, gx_table w' = set_msgs i o (gx_table w).
Proof. intros (i & o & e & -> & _). by exists i, o. Qed.

Lemma wrote_log P w w' : wrote P w w' -> gx_log w `prefix_of` gx_log w'.
Proof. intros (i & o & e & -> & _). by exists e. Qed.

Lemma wrote_send_op P w idx op t : (forall fd b, P fd b) -> wrote P w (miku_msggw_send_op_nolock w idx op t).2.
Proof.
  intros HP. unfold miku_msggw_send_op_nolock. destruct (slot_of _ _); [|apply wrote_refl]. destruct (negb _); [apply wrote_refl|].
  destruct (op_text op t); [|apply wrote_refl]. cbn [snd]. eapply wrote_trans; [|apply wrote_count]. by apply wrote_write.
Qed.

(** [w'] is [w] with the session in slot [idx] ended. *)
Definition ended (w : gateway) (idx : Z) (c : gw_client) (w' : gateway) : Prop :=
  gw_ok (gx_table w') /\ gw_clients (gx_table w') = upd_at gone_client idx (gw_clients (gx_table w)) /\
  (forall ch, uchains (gw_user_head (gx_table w)) (gw_user_next (gx_table w)) (gw_clients (gx_table w)) ch ->
    uchains (gw_user_head (gx_table w')) (gw_user_next (gx_table w')) (gw_clients (gx_table w')) (fun b => filter (fun i => i <> idx) (ch b))) /\
  gx_log w `prefix_of` gx_log w' /\ GwClosed (gc_fd c) ∈ gx_log w'.

Lemma offline_ended w0 w idx c P : wrote P w0 w -> gw_ok (gx_table w0) -> at_ (gw_clients (gx_table w0)) idx = Some c -> gc_online c = true ->
  ended w0 idx c (client_offline w idx).
Proof.
  intros W0 O Hc Ho. pose proof (at_lt _ _ _ Hc). unfold client_offline, slot_of, client_count.
  rewrite (wrote_clients _ _ _ W0). destruct (Z.ltb_spec idx 0); [lia|]. destruct (Z.leb_spec (Z.of_nat (length (gw_clients (gx_table w0)))) idx); [lia|].
  cbn [orb]. rewrite Hc, Ho. cbn [negb]. set (w1 := if nonempty _ then _ else _).
  assert (wrote (fun _ _ => True) w0 w1) as W1.
  { eapply wrote_trans; [eapply wrote_mono, W0; done|]. subst w1. destruct (nonempty _); [apply wrote_presence|apply wrote_refl]. }
  pose proof (wrote_log _ _ _ W1) as L1. destruct (wrote_table _ _ _ W1) as (i & o & Et).
  assert (gw_ok (gx_table w1)) as O1 by (rewrite Et; by apply set_msgs_ok).
  assert (at_ (gw_clients (gx_table w1)) idx = Some c) as Hc1 by (by rewrite Et).
  destruct (release_ok _ _ _ O1 Hc1 Ho) as (R1 & R2 & R3). rewrite (proj2 (Z.leb_le 0 (gc_fd c))) by (by eapply (go_fd _ O)).
  cbn [gx_log log_close with_log with_table gx_table]. split_and!; cbn [gx_log log_close with_log with_table gx_table].
  - exact R1.
  - by rewrite R2, Et.
  - intros ch C. apply R3. by rewrite Et.
  - etrans; [exact L1|]. by eexists.
  - apply elem_of_app. right. by left.
Qed.

Lemma kick_one_ended w idx c : gw_ok (gx_table w) -> at_ (gw_clients (gx_table w)) idx = Some c -> gc_online c = true ->
  ended w idx c (kick_one w idx (gc_fd c)).
Proof.
  intros O Hc Ho. unfold kick_one. eapply (offline_ended _ _ _ _ (fun _ _ => True)); [|done|done|done].
  eapply wrote_trans; [by apply wrote_send_op|]. by apply wrote_write.
Qed.

(** ** Forced logout *)

Definition kicked_client (u : string) (p : Z) (c : gw_client) : gw_client := if kick_matches u p c then gone_client c else c.

Lemma upd_at_fmap {A} (f g : A -> A) i l c : at_ l i = Some c -> f (g c) = f c -> f <$> upd_at g i l = f <$> l.
Proof.
  intros Hi E. destruct (at_split _ _ _ Hi) as (l1 & l2 & -> & ->). rewrite upd_at_app, !fmap_app, !fmap_cons. by rewrite E.
Qed.

Lemma filter_no_match {A} (P : A -> Prop) `{forall x, Decision (P x)} (l : list A) : (forall x, x ∈ l -> ~ P x) -> filter P l = [].
Proof.
  induction l as [|x l IH]; intros Hl; [done|]. rewrite filter_cons_False by (apply Hl; by left). apply IH. intros y Hy. apply Hl. by right.
Qed.

Lemma linked_suffix nx (pre l : list Z) : linked nx (pre ++ l) -> linked nx l.
Proof. induction pre as [|x pre IH]; [done|]. cbn. intros [_ H]. by apply IH. Qed.

(** The rest of the walk: [l] is what is left of the chain. *)
Lemma kick_loop_ok u p l : nonempty u = true -> forall fuel w pre ch k n w', (length l < fuel)%nat -> gw_ok (gx_table w) ->
  uchains (gw_user_head (gx_table w)) (gw_user_next (gx_table w)) (gw_clients (gx_table w)) ch ->
  ch (user_bucket u) = pre ++ l -> (forall i c, i ∈ pre -> at_ (gw_clients (gx_table w)) i = Some c -> kick_matches u p c = false) ->
  kick_loop fuel w u p (first_of l) k = (n, w') ->
  gw_ok (gx_table w') /\ gw_clients (gx_table w') = kicked_client u p <$> gw_clients (gx_table w) /\
  n = k + Z.of_nat (length (filter (fun c => kick_matches u p c = true) (gw_clients (gx_table w)))) /\
  gx_log w `prefix_of` gx_log w' /\
  (forall i c, at_ (gw_clients (gx_table w)) i = Some c -> kick_matches u p c = true -> GwClosed (gc_fd c) ∈ gx_log w').
Proof.
  intros Hu. induction l as [|idx l IH]; intros fuel w pre ch k n w' Hf O C Ech Hpre E; (destruct fuel as [|fuel]; [cbn in Hf; lia|]).
  - cbn in E. injection E as <- <-. rewrite app_nil_r in Ech.
    assert (forall i c, at_ (gw_clients (gx_table w)) i = Some c -> kick_matches u p c = false) as Hno.
    { intros i c Hc. apply not_true_iff_false. intros Ek. pose proof Ek as Em. unfold kick_matches in Em. apply andb_prop in Em as [Em _].
      apply andb_prop in Em as [Ho Es]. apply streq_eq in Es. rewrite (Hpre i c) in Ek; [done| |done]. rewrite <- Ech. apply (uc_mem _ _ _ _ C).
      exists c. by rewrite Es. }
    split_and!; [done| | |done|].
    + symmetry. rewrite <- (list_fmap_id (gw_clients (gx_table w))) at 2. apply list_fmap_ext. intros i c Hc. rewrite <- at_of_nat in Hc.
      unfold kicked_client. by rewrite (Hno _ _ Hc).
    + enough (filter (fun c => kick_matches u p c = true) (gw_clients (gx_table w)) = []) as -> by (cbn; lia).
      apply filter_no_match. intros c Hin Hk. apply list_elem_of_lookup in Hin as [i Hi]. rewrite <- at_of_nat in Hi.
      by rewrite (Hno _ _ Hi) in Hk.
    + intros i c Hc Hk. by rewrite (Hno _ _ Hc) in Hk.
  - assert (idx ∈ ch (user_bucket u)) as Hin by (rewrite Ech; apply elem_of_app; right; by left).
    apply (uc_mem _ _ _ _ C) in Hin as (c & Hc & Ho & _ & _). pose proof (at_lt _ _ _ Hc) as Hi.
    cbn [kick_loop] in E. unfold first_of in E. cbn [head default from_option id] in E. rewrite (proj2 (Z.ltb_ge _ _)) in E by lia.
    cbn zeta in E. rewrite Hc in E.
    pose proof (uc_link _ _ _ _ C (user_bucket u)) as Hlk. rewrite Ech in Hlk. apply linked_suffix in Hlk as [Hnext _].
    rewrite Hnext in E. pose proof (uc_nodup _ _ _ _ C (user_bucket u)) as Hnd. rewrite Ech in Hnd. apply list.NoDup_app in Hnd as (_ & Hdis & Hnd).
    apply list.NoDup_cons in Hnd as [Hidx _]. destruct (kick_matches u p c) eqn:Ek.
    + pose proof (kick_one_ended w idx c O Hc Ho) as (O1 & C1 & U1 & L1 & M1).
      assert (kick_matches u p (gone_client c) = false) as Eg by (unfold kick_matches; done).
      destruct (IH fuel (kick_one w idx (gc_fd c)) pre (fun b => filter (fun i => i <> idx) (ch b)) (k + 1) n w') as (R1 & R2 & R3 & R4 & R5).
      * cbn in Hf. lia.
      * done.
      * by apply U1.
      * rewrite Ech, list.filter_app, filter_cons_False by tauto. rewrite !filter_all; [done| |].
        -- by intros x Hx ->.
        -- intros x Hx ->. apply (Hdis _ Hx). by left.
      * intros i d Hin. rewrite C1, at_upd by lia. case_decide as Ei; [|by apply Hpre]. subst. rewrite Hc. intros [= <-]. exact Eg.
      * exact E.
      * split_and!; [done| | |by etrans|].
        -- rewrite R2, C1. apply (upd_at_fmap _ _ _ _ c Hc). unfold kicked_client. by rewrite Eg, Ek.
        -- rewrite R3, C1. destruct (at_split _ _ _ Hc) as (l1 & l2 & El & ->). rewrite El, upd_at_app, !list.filter_app, !length_app.
           rewrite filter_cons_False by (rewrite Eg; done). rewrite filter_cons_True by done. cbn [length]. lia.
        -- intros i d Hd Hk. destruct (decide (i = idx)) as [->|Hne].
           ++ rewrite Hc in Hd. injection Hd as <-. destruct R4 as [e ->]. apply elem_of_app. by left.
           ++ apply (R5 i d); [|done]. rewrite C1, at_upd by lia. by rewrite decide_False.
    + destruct (IH fuel w (pre ++ [idx]) ch k n w') as (R1 & R2 & R3 & R4 & R5); [cbn in Hf; lia|done|done| | |exact E|done].
      * by rewrite <- app_assoc.
      * intros i d [Hin|Hin]%elem_of_app; [by apply Hpre|]. apply list_elem_of_singleton in Hin as ->. rewrite Hc. by intros [= <-].
Qed.

(** ** Reachable states *)

(** A run from the start: the programs of the requests [rs], of which [ps] are
    left, have brought the gateway to [w]. *)
Definition run_to (mongo : db_request -> option text) (secret : string) (env : option string) (rs : list gw_request) (ps : list (gprog unit))
    (w : gateway) : Prop :=
  rtc pool_step (gw_program mongo secret env <$> rs, gateway_create) (ps, w).

(** A state that the event loop and the admin thread can reach from the start. *)
Definition reachable (mongo : db_request -> option text) (secret : string) (env : option string) (w : gateway) : Prop :=
  exists rs ps, run_to mongo secret env rs ps w.

Lemma gateway_create_ok : gw_ok (gx_table gateway_create).
Proof. exact gw_create_ok. Qed.

Lemma reachable_ok mongo secret env w : reachable mongo secret env w -> gw_ok (gx_table w).
Proof. intros (rs & ps & R). by exact (gateway_invariant (fun w => gw_ok (gx_table w)) _ _ _ _ _ _ _ (fun _ _ O => O) R gateway_create_ok). Qed.

(** One request after the other. *)
Definition run_all (mongo : db_request -> option text) (secret : string) (env : option string) (rs : list gw_request) (w : gateway) : gateway :=
  foldl (fun w r => (run (gw_program mongo secret env r) w).2) w rs.

Lemma run_all_pool mongo secret env rs : forall pre w,
  exists ps, rtc pool_step (pre ++ (gw_program mongo secret env <$> rs), w) (ps, run_all mongo secret env rs w).
Proof.
  induction rs as [|r rs IH]; intros pre w; [exists (pre ++ []); apply rtc_refl|].
  destruct (IH (pre ++ [Ret (run (gw_program mongo secret env r) w).1]) (run (gw_program mongo secret env r) w).2) as [ps R].
  exists ps. cbn [run_all foldl]. etrans; [|exact R]. rewrite <- app_assoc. cbn [app fmap list_fmap].
  eapply transitivity; [apply (pool_run _ (length pre)); by rewrite list_lookup_middle|]. rewrite insert_app_r_alt, Nat.sub_diag by done. apply rtc_refl.
Qed.

Lemma run_all_reachable mongo secret env rs : reachable mongo secret env (run_all mongo secret env rs gateway_create).
Proof. destruct (run_all_pool mongo secret env rs [] gateway_create) as [ps R]. by exists rs, ps. Qed.

(** ** Frames that are written *)

Lemma tlen_bytes t : blen (to_bytes t) = tlen t.
Proof. unfold blen, to_bytes, tlen. by rewrite length_fmap. Qed.

Lemma send_text_some d : blen d <= 4082 -> is_Some (miku_ws_send_text d).
Proof.
  intros H. unfold miku_ws_send_text, ws_send_frame. destruct (Z.ltb_spec (4096 - 14) (blen d)); [lia|].
  unfold miku_ws_frame_encode, hdr_size. cbn [payload payload_len masked].
  destruct ((4096 <? _) || (4096 - _ <? _)) eqn:E.
  { exfalso. apply orb_true_iff in E as [E|E]; apply Z.ltb_lt in E; destruct (65535 <? blen d), (125 <? blen d); lia. }
  cbn [default]. unfold id. rewrite slice_all. cbn. eauto.
Qed.

Lemma send_all_log fds t w : gx_log (send_all fds t w).2 =
  gx_log w ++ match miku_ws_send_text (to_bytes t) with Some b => (fun fd => GwWrite fd b) <$> fds | None => [] end.
Proof.
  unfold send_all, count_out. cbn [snd gx_log with_table]. revert w.
  induction fds as [|fd fds IH]; intros w; cbn [foldl]; [destruct (miku_ws_send_text _); by rewrite app_nil_r|].
  rewrite IH. unfold send_text, log_write. destruct (miku_ws_send_text (to_bytes t)); [|done]. cbn. by rewrite <- app_assoc.
Qed.

(** ** Properties of the reachable states *)

Section Reachable.
Context {mongo : db_request -> option text} {secret : string} {env : option string}.

(** C13: In every state that the event loop and the admin thread can reach,
    however they interleave, the connection table is well formed: at most 4096
    slots, the gauge counts the online ones, the socket of an online client
    finds its slot, and the walk over a user's bucket meets every session of
    the user exactly once. *)
Theorem gw_table_ok w : reachable mongo secret env w ->
  let t := gx_table w in
  client_count t <= MK_GW_MAX_CLIENTS /\
  miku_msggw_client_count_nolock t = Z.of_nat (length (filter (fun c => gc_online c = true) (gw_clients t))) /\
  (forall i c, at_ (gw_clients t) i = Some c -> gc_online c = true -> 0 <= gc_fd c /\ find_client_by_fd t (gc_fd c) = i) /\
  (forall u, nonempty u = true -> user_fds t u ≡ₚ gc_fd <$> filter (fun c => session_of u c = true) (gw_clients t)).
Proof.
  intros R t. pose proof (reachable_ok _ _ _ _ R) as O. split_and!; [apply (go_max _ O)|apply (go_count _ O)| |].
  - intros i c Hc Ho. split; [by apply (go_fd _ O i)|by eapply find_client_iff].
  - intros u Hu. by apply user_fds_ok.
Qed.

(** C12: Every session comes from its own handshake.  Take any run of the event
    loop and the admin thread, and any of its steps, from [w] to [w'].  A slot
    that holds a session after the step (of a user, on a platform, on a socket)
    held the same session before it; or the bytes that this socket presented in
    a handshake of the run carry a token that verifies, with the server's
    secret and the clock of the handshake, for exactly this user and platform,
    and against the revocations in force at that step.  In particular the
    session has a user name of at most 63 characters, and none starts for a
    token that is forged, expired or revoked. *)
Theorem gw_sessions_genuine rs ps ps' w w' i fd uid platform :
  run_to mongo secret env rs ps w -> pool_step (ps, w) (ps', w') ->
  session_at w' i fd uid platform ->
  session_at w i fd uid platform \/
  (genuine (presented rs) secret (gx_revokes w) fd uid platform /\ nonempty uid = true /\ (String.length uid <= 63)%nat).
Proof.
  intros R S Hs. destruct (gateway_guarantee _ _ _ _ _ _ _ _ _ _ _ _ R S gateway_create_ok) as [_ F].
  destruct (F _ _ _ _ Hs) as [|Hg]; [by left|]. right. split; [done|]. destruct Hg as (now & b & token & ts & _ & _ & E). by eapply verify_uid.
Qed.

(** C25: What a push to a user does, on every branch: an envelope of 8192 bytes
    or more is refused with -1 and nothing changes; otherwise the number of
    the user's sessions is returned and the connections stay as they are, but
    a frame is written, one to each session, only when the envelope has at most
    4082 bytes. *)
Theorem gw_push_exact w u op payload : reachable mongo secret env w -> nonempty u = true ->
  let '(n, w') := miku_msggw_send_op_to_user_nolock w u op payload in
  let sessions := gc_fd <$> filter (fun c => session_of u c = true) (gw_clients (gx_table w)) in
  match op_text op payload with
  | None => n = -1 /\ w' = w
  | Some t =>
      n = Z.of_nat (length sessions) /\ gw_clients (gx_table w') = gw_clients (gx_table w) /\
      exists fds, fds ≡ₚ sessions /\
        if tlen t <=? 4082
        then exists b, miku_ws_send_text (to_bytes t) = Some b /\ gx_log w' = gx_log w ++ ((fun fd => GwWrite fd b) <$> fds)
        else gx_log w' = gx_log w
  end.
Proof.
  intros R Hu. pose proof (reachable_ok _ _ _ _ R) as O. unfold miku_msggw_send_op_to_user_nolock.
  destruct (op_text op payload) as [t|]; [|done]. unfold miku_msggw_send_to_user_nolock.
  pose proof (user_fds_ok (gx_table w) u O Hu) as Hp. set (fds := user_fds (gx_table w) u) in *.
  destruct (send_all fds t w) as [n w'] eqn:E. assert (n = Z.of_nat (length fds)) as -> by (unfold send_all in E; by injection E as <- _).
  assert (w' = (send_all fds t w).2) as -> by (by rewrite E).
  split_and!; [by rewrite Hp|by apply (wrote_clients (fun _ _ => True)), wrote_send_all|]. exists fds. split; [done|].
  rewrite send_all_log. destruct (Z.leb_spec (tlen t) 4082).
  - destruct (send_text_some (to_bytes t)) as [b ->]; [by rewrite tlen_bytes|]. eauto.
  - unfold miku_ws_send_text, ws_send_frame. rewrite tlen_bytes, (proj2 (Z.ltb_lt _ _)) by lia. by rewrite app_nil_r.
Qed.

(** C14: A forced logout ends every session of the user on the platform (on
    every platform for a negative one) and no other session, closes its socket,
    and returns how many there were; the table stays well formed. *)
Theorem gw_kick_complete w u p : reachable mongo secret env w -> nonempty u = true ->
  let '(n, w') := miku_msggw_kick_user_nolock w u p in
  let hit := filter (fun c => kick_matches u p c = true) (gw_clients (gx_table w)) in
  gw_ok (gx_table w') /\ n = Z.of_nat (length hit) /\
  gw_clients (gx_table w') = (fun c => if kick_matches u p c then gone_client c else c) <$> gw_clients (gx_table w) /\
  (forall c, c ∈ hit -> GwClosed (gc_fd c) ∈ gx_log w') /\
  (forall c, c ∈ gw_clients (gx_table w') -> kick_matches u p c = false).
Proof.
  intros R Hu. pose proof (reachable_ok _ _ _ _ R) as O. unfold miku_msggw_kick_user_nolock.
  destruct (go_chains _ O) as [ch C]. rewrite (uc_head _ _ _ _ C). destruct (kick_loop _ _ _ _ _ _) as [n w'] eqn:E.
  pose proof (bucket_length C (user_bucket u)) as Hl. pose proof (go_max _ O) as Hmax. unfold client_count, MK_GW_MAX_CLIENTS in *.
  destruct (kick_loop_ok u p (ch (user_bucket u)) Hu (S (Z.to_nat 4096)) w [] ch 0 n w') as (R1 & R2 & R3 & _ & R5);
    [lia|done|done|done|by intros i c ?%elem_of_nil|exact E|].
  split_and!; [done|by rewrite R3|exact R2| |].
  - intros c Hc. apply list_elem_of_filter in Hc as [Hk Hc]. apply list_elem_of_lookup in Hc as [i Hi]. rewrite <- at_of_nat in Hi. by apply (R5 _ _ Hi).
  - rewrite R2. intros c (d & -> & _)%list_elem_of_fmap. unfold kicked_client. destruct (kick_matches u p d) eqn:Ek; [done|exact Ek].
Qed.
End Reachable.

(** ** Examples *)

Definition ex_secret : string := "s".
Definition ex_mongo : db_request -> option text := fun _ => None.

Definition ex_token (uid : string) (p : Z) : bytes :=
  match miku_token_create (Some uid) p (Some ex_secret) 256 "0123456789abcdef" 1000 with Some t => to_bytes t | None => [] end.
Definition ex_hello (uid : string) (p : Z) : bytes :=
  txt "GET /?token=" ++ ex_token uid p ++ txt " HTTP/1.1" ++ CRLF ++ txt "Sec-WebSocket-Key: abc" ++ CRLF ++ CRLF.
Definition ex_accept (fd : Z) (uid : string) (p : Z) : accepted := Accepted fd true (SocketIo (ReadBytes (ex_hello uid p)) WriteOk []).

(** alice on two devices, bob on one. *)
Definition ex_listen : gw_request := Listen 2000 [ex_accept 7 "alice" 1; ex_accept 8 "bob" 1; ex_accept 9 "alice" 2].
Definition ex_gw : gateway := run_all ex_mongo ex_secret None [ex_listen] gateway_create.

Lemma ex_reachable : reachable ex_mongo ex_secret None ex_gw.
Proof. apply run_all_reachable. Qed.

Lemma gw_table_ok_witness : user_fds (gx_table ex_gw) "alice" ≡ₚ [7; 9] /\ miku_msggw_client_count_nolock (gx_table ex_gw) = 3.
Proof.
  destruct (gw_table_ok ex_gw ex_reachable) as (_ & H2 & _ & H4). split.
  - rewrite (H4 "alice" eq_refl). assert (gc_fd <$> filter (fun c => session_of "alice" c = true) (gw_clients (gx_table ex_gw)) = [7; 9]) as -> by (vm_compute; reflexivity).
    reflexivity.
  - rewrite H2. vm_compute. reflexivity.
Defined.

(** The first step of the listening socket starts alice's session. *)
Lemma gw_sessions_genuine_witness : genuine (presented [ex_listen]) ex_secret (gx_revokes gateway_create) 7 "alice" 1.
Proof.
  assert (exists ps' w', pool_step (gw_program ex_mongo ex_secret None <$> [ex_listen], gateway_create) (ps', w') /\ session_at w' 0 7 "alice" 1)
    as (ps' & w' & S & Hs).
  { eexists _, _. split; [apply (pool_act _ _ 0%nat); reflexivity|]. eexists. split; [vm_compute; reflexivity|]. repeat split. }
  destruct (gw_sessions_genuine [ex_listen] _ _ _ _ 0 7 "alice" 1 (rtc_refl _ _) S Hs) as [(c & Hc & _)|[H _]]; [discriminate Hc|exact H].
Defined.

(** The payload that makes the envelope too long for a frame but not for the
    buffer of the envelope. *)
Definition ex_payload (n : Z) : text := repeat "x"%char (Z.to_nat n).

Lemma gw_push_exact_witness :
  (exists b, gx_log (miku_msggw_send_op_to_user_nolock ex_gw "bob" 2001 (str "{}")).2 = gx_log ex_gw ++ [GwWrite 8 b]) /\
  (miku_msggw_send_op_to_user_nolock ex_gw "bob" 2001 (ex_payload 5000)).1 = 1 /\
  gx_log (miku_msggw_send_op_to_user_nolock ex_gw "bob" 2001 (ex_payload 5000)).2 = gx_log ex_gw /\
  (miku_msggw_send_op_to_user_nolock ex_gw "bob" 2001 (ex_payload 9000)).1 = -1.
Proof.
  assert (gc_fd <$> filter (fun c => session_of "bob" c = true) (gw_clients (gx_table ex_gw)) = [8]) as Es by (vm_compute; reflexivity).
  pose proof (gw_push_exact ex_gw "bob" 2001 (str "{}") ex_reachable eq_refl) as H1.
  pose proof (gw_push_exact ex_gw "bob" 2001 (ex_payload 5000) ex_reachable eq_refl) as H2.
  pose proof (gw_push_exact ex_gw "bob" 2001 (ex_payload 9000) ex_reachable eq_refl) as H3.
  assert ((fun t => tlen t <=? 4082) <$> op_text 2001 (str "{}") = Some true) as L1 by (vm_compute; reflexivity).
  assert ((fun t => tlen t <=? 4082) <$> op_text 2001 (ex_payload 5000) = Some false) as L2 by (vm_compute; reflexivity).
  assert ((fun t => tlen t <=? 4082) <$> op_text 2001 (ex_payload 9000) = None) as L3 by (vm_compute; reflexivity).
  destruct (miku_msggw_send_op_to_user_nolock ex_gw "bob" 2001 (str "{}")) as [n1 w1].
  destruct (miku_msggw_send_op_to_user_nolock ex_gw "bob" 2001 (ex_payload 5000)) as [n2 w2].
  destruct (miku_msggw_send_op_to_user_nolock ex_gw "bob" 2001 (ex_payload 9000)) as [n3 w3].
  cbn [fst snd]. cbv zeta in H1, H2, H3.
  destruct (op_text 2001 (str "{}")) as [t1|]; [|discriminate L1]. injection L1 as L1. rewrite L1, Es in H1.
  destruct (op_text 2001 (ex_payload 5000)) as [t2|]; [|discriminate L2]. injection L2 as L2. rewrite L2, Es in H2.
  destruct (op_text 2001 (ex_payload 9000)) as [t3|]; [discriminate L3|].
  destruct H1 as (_ & _ & fds & Hp & b & _ & Hl). apply Permutation_singleton_r in Hp. rewrite Hp in Hl.
  split; [exists b; exact Hl|]. destruct H2 as (N2 & _ & fds2 & _ & Hl2). split; [exact N2|]. split; [exact Hl2|]. exact (proj1 H3).
Defined.

Lemma gw_kick_complete_witness :
  (miku_msggw_kick_user_nolock ex_gw "alice" 2).1 = 1 /\ GwClosed 9 ∈ gx_log (miku_msggw_kick_user_nolock ex_gw "alice" 2).2.
Proof.
  pose proof (gw_kick_complete ex_gw "alice" 2 ex_reachable eq_refl) as H.
  destruct (miku_msggw_kick_user_nolock ex_gw "alice" 2) as [n w]. destruct H as (_ & -> & _ & H & _). cbn [fst snd]. split.
  - vm_compute. reflexivity.
  - assert (exists c, filter (fun c => kick_matches "alice" 2 c = true) (gw_clients (gx_table ex_gw)) = [c] /\ gc_fd c = 9) as (c & E & <-)
      by (eexists; vm_compute; auto).
    apply H. rewrite E. by left.
Defined.
