(* ===== verification/GwDeliver.v ===== *)
(** * Message gateway: who is written to

    The guarantees of the opcode handlers under every interleaving, in the
    program logic of Atomic.v: a message that a client sends is pushed only to
    its receiver or to the members of its group, after the checks of the
    friendship, of both blacklists or of the sender's membership succeeded;
    the messages of a conversation go only to a client that may read it.  The
    checks are made on states that were observed earlier in the same request. *)
From Stdlib Require Import Ascii String.
From S2P Require Import Prelude Hash ProbeIndex ChainIndex SlotChains Seq Json JsonText JsonEscape Models OwnedTable Friend Group GroupRpc Conversation.
From S2P Require Import MsgStore ImMessage Bytes Token Atomic MsgService WebSocket WsServer WsSub Auth ApiCore GwTable GwSend GwOps GwIo GwInv GwSafe.
#[local] Open Scope string_scope.
#[local] Open Scope list_scope.
#[local] Open Scope Z_scope.

(** The action wrote the given frames and closed nothing. *)
Definition writes_only (P : Z -> bytes -> Prop) (w w' : gateway) : Prop :=
  exists evs, gx_log w' = gx_log w ++ evs /\ Forall (fun e => exists fd b, e = GwWrite fd b /\ P fd b) evs.

(** [b] is the frame of the envelope. *)
Definition frame_of (op : Z) (payload : text) (b : bytes) : Prop :=
  exists t, op_text op payload = Some t /\ miku_ws_send_text (to_bytes t) = Some b.

Lemma writes_none P w w' : gx_log w' = gx_log w -> writes_only P w w'.
Proof. intros E. exists []. by rewrite app_nil_r. Qed.

Lemma wrote_writes P w w' : wrote P w w' -> writes_only P w w'.
Proof. intros (i & o & e & -> & He). by exists e. Qed.

Lemma writes_mono (P Q : Z -> bytes -> Prop) w w' : (forall fd b, P fd b -> Q fd b) -> writes_only P w w' -> writes_only Q w w'.
Proof.
  intros H (e & E & He). exists e. split; [done|]. eapply list.Forall_impl; [exact He|]. intros x (fd & b & -> & Hp). eauto.
Qed.

Lemma reply_writes w idx op t :
  writes_only (fun fd b => fd = slot_fd idx w /\ frame_of op t b) w (miku_msggw_send_op_nolock w idx op t).2.
Proof.
  unfold miku_msggw_send_op_nolock, slot_of, slot_fd. destruct (_ || _); [by apply writes_none|].
  destruct (at_ _ idx) as [c|]; [|by apply writes_none]. destruct (negb _); [by apply writes_none|].
  destruct (op_text op t) as [x|] eqn:E; [|by apply writes_none]. cbn [snd]. apply wrote_writes.
  eapply wrote_trans; [|apply wrote_count]. apply wrote_write. intros b Hb. split; [done|]. by exists x.
Qed.

Lemma push_writes w u op t :
  writes_only (fun fd b => fd ∈ user_fds (gx_table w) u /\ frame_of op t b) w (miku_msggw_send_op_to_user_nolock w u op t).2.
Proof.
  unfold miku_msggw_send_op_to_user_nolock. destruct (op_text op t) as [x|] eqn:E; [|by apply writes_none].
  apply wrote_writes, wrote_send_all. intros fd b Hin Hb. split; [done|]. by exists x.
Qed.

(** ** Checks *)

(** What was observed of the friend and the group service. *)
Definition saw_friend (h : list gateway) (P : miku_friend_service -> Prop) : Prop := exists v f, v ∈ h /\ gx_friend v = Some f /\ P f.
Definition saw_group (h : list gateway) (P : miku_group_service -> Prop) : Prop := exists v g, v ∈ h /\ gx_group v = Some g /\ P g.

(** [u] may get a message from [s] to [r] or to the group [g]. *)
Definition may_push (h : list gateway) (s r g u : string) : Prop :=
  u <> s /\
  if nonempty g then
    saw_group h (fun G => miku_group_is_member G (Some g) (Some s) = true) /\
    saw_group h (fun G => u ∈ fst <$> miku_group_foreach_member G (Some g))
  else
    u = r /\ saw_friend h (fun F => miku_friend_is_black F (Some s) (Some r) = false) /\
    saw_friend h (fun F => miku_friend_is_black F (Some r) (Some s) = false) /\
    saw_friend h (fun F => miku_friend_is_mutual F (Some s) (Some r) = true).

(** The checks for a message that has passed the gates. *)
Definition cleared (h : list gateway) (s r g : string) : Prop :=
  if nonempty g then saw_group h (fun G => miku_group_is_member G (Some g) (Some s) = true)
  else nonempty r = true ->
    saw_friend h (fun F => miku_friend_is_black F (Some s) (Some r) = false) /\
    saw_friend h (fun F => miku_friend_is_black F (Some r) (Some s) = false) /\
    saw_friend h (fun F => miku_friend_is_mutual F (Some s) (Some r) = true).

Lemma saw_friend_app h k P : saw_friend h P -> saw_friend (h ++ k) P.
Proof. intros (v & f & Hv & H). exists v, f. split; [apply elem_of_app; by left|done]. Qed.
Lemma saw_group_app h k P : saw_group h P -> saw_group (h ++ k) P.
Proof. intros (v & f & Hv & H). exists v, f. split; [apply elem_of_app; by left|done]. Qed.
Lemma saw_friend_last h v f (P : miku_friend_service -> Prop) : gx_friend v = Some f -> P f -> saw_friend (h ++ [v]) P.
Proof. intros Hf HP. exists v, f. split; [apply elem_of_app; right; by left|done]. Qed.
Lemma saw_group_last h v g (P : miku_group_service -> Prop) : gx_group v = Some g -> P g -> saw_group (h ++ [v]) P.
Proof. intros Hf HP. exists v, g. split; [apply elem_of_app; right; by left|done]. Qed.

Lemma cleared_app h k s r g : cleared h s r g -> cleared (h ++ k) s r g.
Proof.
  intros H. unfold cleared in *. destruct (nonempty g); [exact (saw_group_app _ _ _ H)|]. intros Hr. destruct (H Hr) as (H1 & H2 & H3).
  exact (conj (saw_friend_app _ _ _ H1) (conj (saw_friend_app _ _ _ H2) (saw_friend_app _ _ _ H3))).
Qed.

(** ** Delivery *)

Section Deliver.
Context (s r g content : string).

(** The message that is delivered. *)
Definition same_message (m : miku_im_msg) : Prop :=
  im_send_id m = s /\ im_recv_id m = r /\ im_group_id m = g /\ im_content m = content.

(** The services are wired, as the programs do it. *)
Definition wired (w : gateway) : Prop := is_Some (gx_group w) /\ is_Some (gx_friend w).

(** Every frame is a push of the message to a session of a user who may get it. *)
Definition pushes (h : list gateway) (w w' : gateway) : Prop :=
  writes_only (fun fd b => exists u m, fd ∈ user_fds (gx_table w) u /\ may_push h s r g u /\ same_message m /\
    frame_of MK_WS_OP_PUSH_MSG (im_text m) b) w w'.

Abbreviation psafe := (safe wired pushes).

Lemma psafe_rd {A} (Q : list gateway -> A -> Prop) h f : (forall w, wired w -> Q (h ++ [w]) (f w)) -> psafe Q h (rd f).
Proof using Type. intros HQ w Hw. split; [by apply writes_none|]. by apply HQ. Qed.

Lemma psafe_silent {A} (Q : list gateway -> A -> Prop) h f :
  (forall w, gx_log (f w).2 = gx_log w) -> (forall w, wired w -> Q (h ++ [w]) (f w).1) -> psafe Q h (atomic f).
Proof using Type. intros Hf HQ w Hw. split; [by apply writes_none|]. by apply HQ. Qed.

Lemma psafe_push h u m : (forall w, may_push (h ++ [w]) s r g u) -> same_message m ->
  psafe (fun _ _ => True) h (send_op_to_user u MK_WS_OP_PUSH_MSG (im_text m)).
Proof using Type.
  intros Hu Hm w Hw. split; [|done]. eapply writes_mono; [|apply push_writes]. intros fd b [Hin Hb]. exists u, m. split_and!; done.
Qed.

Lemma psafe_each {A} (f : A -> gprog unit) l : forall h,
  (forall x k, x ∈ l -> psafe (fun _ _ => True) (h ++ k) (f x)) -> psafe (fun _ _ => True) h (each f l).
Proof using Type.
  induction l as [|x l IH]; intros h Hf; [done|]. cbn [each]. apply safe_bind. pose proof (Hf x [] ltac:(by left)) as H0. rewrite app_nil_r in H0.
  eapply safe_mono; [exact H0|]. intros k z _. apply IH. intros y k' Hy. rewrite <- app_assoc. apply Hf. by right.
Qed.

Lemma psafe_member m h u : same_message m -> nonempty g = true ->
  saw_group h (fun G => miku_group_is_member G (Some g) (Some s) = true) ->
  saw_group h (fun G => u ∈ fst <$> miku_group_foreach_member G (Some g)) ->
  psafe (fun _ _ => True) h (fanout_one_member m u).
Proof using Type.
  intros Hm Hg H1 H2. unfold fanout_one_member. rewrite (proj1 Hm). destruct (nonempty s && streq u s) eqn:Eu; [done|].
  apply safe_bind. eapply safe_mono; [apply psafe_push; [|done]|done]. intros v. unfold may_push. rewrite Hg.
  split; [|exact (conj (saw_group_app _ _ _ H1) (saw_group_app _ _ _ H2))]. intros ->. rewrite streq_refl, andb_true_r in Eu.
  destruct H1 as (v1 & g1 & _ & _ & H1). unfold miku_group_is_member, group_is_member_nolock, given in H1.
  rewrite Eu, andb_false_r in H1. done.
Qed.

Lemma psafe_fanout m h : same_message m -> cleared h s r g -> psafe (fun _ _ => True) h (fanout_send_msg m).
Proof using Type.
  intros Hm Hc. pose proof Hm as (Es & Er & Eg & _). unfold fanout_send_msg. apply safe_bind. rewrite Es, Er, Eg. unfold cleared in Hc.
  unfold im_is_group. rewrite Eg. destruct (nonempty g) eqn:Hg.
  - rewrite orb_true_r. cbn [andb]. apply psafe_rd. intros w [[G HG] _]. unfold group_members. rewrite HG. cbn [fmap option_fmap option_map].
    apply psafe_each. intros u k Hu. apply psafe_member; [done|done|exact (saw_group_app _ _ _ (saw_group_app _ _ _ Hc))|].
    exact (saw_group_app _ _ _ (saw_group_last _ _ _ _ HG Hu)).
  - rewrite andb_false_r. cbn [safe]. destruct (nonempty r && negb (streq r s)) eqn:Er2; [|done].
    apply andb_true_iff in Er2 as [Hr Hne]. unfold push_im_to_user. rewrite Hr. apply safe_bind. eapply safe_mono; [apply psafe_push; [|done]|done].
    intros v. unfold may_push. rewrite Hg. destruct (Hc Hr) as (C1 & C2 & C3).
    split; [|exact (conj eq_refl (conj (saw_friend_app _ _ _ C1) (conj (saw_friend_app _ _ _ C2) (saw_friend_app _ _ _ C3))))].
    intros ->. by rewrite streq_refl in Hne.
Qed.

(** The gates leave what they saw in the history. *)
Lemma psafe_single m h : same_message m ->
  psafe (fun h ok => ok = true -> nonempty g = false -> cleared h s r g) h (single_gate m).
Proof using Type.
  intros (Es & Er & Eg & _). unfold single_gate. rewrite Es, Er, Eg. destruct (nonempty g) eqn:Hg; [rewrite andb_false_r; done|].
  destruct (nonempty r) eqn:Hr; cbn [andb negb]; [|cbn; intros _ _; unfold cleared; rewrite Hg; congruence].
  apply safe_bind, psafe_rd. intros w _. destruct (gx_friend w) as [F|]; [|done]. cbn [negb].
  apply safe_bind, psafe_rd. intros w1 [_ [F1 E1]]. rewrite E1.
  destruct (miku_friend_is_black F1 (Some s) (Some r)) eqn:B1; [done|].
  apply safe_bind, psafe_rd. intros w2 [_ [F2 E2]]. rewrite E2.
  destruct (miku_friend_is_black F2 (Some r) (Some s)) eqn:B2; [done|]. apply psafe_rd. intros w3 [_ [F3 E3]]. rewrite E3.
  intros B3 _. unfold cleared. rewrite Hg. intros _. refine (conj _ (conj _ (saw_friend_last _ _ _ _ E3 B3))).
  - exact (saw_friend_app _ _ _ (saw_friend_app _ _ _ (saw_friend_last _ _ _ _ E1 B1))).
  - exact (saw_friend_app _ _ _ (saw_friend_last _ _ _ _ E2 B2)).
Qed.

Lemma psafe_group m h : same_message m -> (nonempty g = false -> cleared h s r g) ->
  psafe (fun h ok => ok = true -> cleared h s r g) h (group_gate m).
Proof using Type.
  intros (Es & Er & Eg & _) Hc. unfold group_gate. rewrite Es, Eg. destruct (nonempty g) eqn:Hg; [|intros _; by apply Hc].
  apply psafe_rd. intros w [[G EG] _]. rewrite EG. intros B. unfold cleared. rewrite Hg. exact (saw_group_last _ _ _ _ EG B).
Qed.

Lemma psafe_touch o c ty p gr st t b h : psafe (fun _ _ => True) h (conv_touch o c ty p gr st t b).
Proof using Type. apply psafe_silent; [|done]. intros w. cbn. by destruct (gx_conv w). Qed.

Lemma psafe_touch_convs m c h : psafe (fun _ _ => True) h (ws_touch_convs_on_send m c).
Proof using Type.
  unfold ws_touch_convs_on_send. apply safe_bind, psafe_rd. intros w _. destruct (_ || _ || _); [done|]. destruct (_ && _).
  - apply safe_bind, psafe_rd. intros w1 _. apply safe_bind. eapply safe_mono; [apply psafe_each; intros u k _; apply psafe_touch|].
    intros k z _. apply psafe_touch.
  - destruct (nonempty _); [|done]. apply safe_bind. eapply safe_mono; [apply psafe_touch|]. intros k z _. destruct (negb _); [apply psafe_touch|done].
Qed.

Lemma psafe_accepted m d h : same_message m -> cleared h s r g ->
  psafe (fun _ res => match res with Some (0, m') => same_message m' | _ => True end) h (deliver_accepted m d).
Proof using Type.
  intros Hm Hc. unfold deliver_accepted. cbn zeta. apply safe_bind, psafe_silent.
  { intros w. unfold miku_msggw_alloc_seq. by destruct (miku_seq_next _ _). }
  intros w _. match goal with |- context [match ?x with Some _ => _ | None => _ end] => destruct x as [n|] end; [|done]. set (m1 := im_set_stamp _ _ _ _ _). assert (same_message m1) as H1 by done.
  clearbody m1. apply safe_bind, psafe_silent.
  { intros v. unfold store_insert. destruct (gx_store v) as [st|]; [|done]. by destruct (miku_msg_store_insert _ _ _ _ _ _ _ _ _) as [[[a o] s']|]. }
  intros v _. match goal with |- context [match ?x with Some _ => _ | None => _ end] => destruct x as [id|] end; [|done]. set (m2 := if nonempty id then _ else m1).
  assert (same_message m2) as H2 by (subst m2; by destruct (nonempty id)). clearbody m2.
  apply safe_bind. eapply safe_mono; [apply (psafe_fanout m2); [done|exact (cleared_app _ _ _ _ _ (cleared_app _ _ _ _ _ Hc))]|].
  intros k z _. apply safe_bind. eapply safe_mono; [apply psafe_touch_convs|]. intros k' z' _. exact H2.
Qed.

Lemma same_canonical m : same_message m -> same_message (im_canonical m).
Proof using Type.
  intros Hm. unfold im_canonical, im_infer_type. cbn zeta. repeat case_match; done.
Qed.

Lemma psafe_deliver m d h : same_message m ->
  psafe (fun _ res => match res with Some (0, m') => same_message m' | _ => True end) h (miku_msggw_ws_deliver_msg m d).
Proof using Type.
  intros Hm%same_canonical. unfold miku_msggw_ws_deliver_msg. cbn zeta. generalize dependent (im_canonical m). clear m. intros m Hm.
  destruct (negb (_ =? 0)); [done|]. apply safe_bind. eapply safe_mono; [apply (psafe_single m), Hm|]. intros k1 ok1 H1.
  destruct ok1; [|done]. cbn [negb]. apply safe_bind. eapply safe_mono; [apply (psafe_group m _ Hm); by apply H1|]. intros k2 ok2 H2.
  destruct ok2; [|done]. cbn [negb]. apply psafe_accepted; [done|by apply H2].
Qed.
End Deliver.

(** ** Sending *)

Lemma safe_weaken {W A} (I : W -> Prop) (G G' : list W -> W -> W -> Prop) (Q : list W -> A -> Prop) (p : prog W A) : forall h,
  (forall h w w', G h w w' -> G' h w w') -> safe I G Q h p -> safe I G' Q h p.
Proof.
  induction p as [a|B f k IH]; intros h HG Hs; [done|]. intros w Hw. destruct (Hs w Hw). split; [by apply HG|by apply IH].
Qed.

(** The user of a slot. *)
Definition slot_user (idx : Z) (w : gateway) : string := default "" (miku_msggw_get_client_user_id_nolock (gx_table w) idx 64).

(** A frame of a request to send [m]: the answer on the client's own socket,
    or a push of [m] to a session of a user who may get it. *)
Definition send_frame (idx : Z) (m : miku_im_msg) (h : list gateway) (w : gateway) (fd : Z) (b : bytes) : Prop :=
  fd = slot_fd idx w \/
  exists u m', fd ∈ user_fds (gx_table w) u /\ may_push h (im_send_id m) (im_recv_id m) (im_group_id m) u /\
    same_message (im_send_id m) (im_recv_id m) (im_group_id m) (im_content m) m' /\ frame_of MK_WS_OP_PUSH_MSG (im_text m') b.

Lemma ssafe_reply I m idx op t h : safe I (fun h w w' => writes_only (send_frame idx m h w) w w') (fun _ _ => True) h (answered (reply_json idx op t)).
Proof.
  apply safe_bind. intros w _. split; [|done]. eapply writes_mono; [|apply reply_writes]. intros fd b [-> _]. by left.
Qed.

Lemma ssafe_send idx uid data d h : im_content_type (op_message uid data) <> MK_IM_MSG_TYPE_READ ->
  safe wired (fun h w w' => writes_only (send_frame idx (op_message uid data) h w) w w') (fun _ _ => True) h
    (op_send_msg idx MK_WS_OP_SEND_MSG uid data d).
Proof.
  intros Hr. unfold op_send_msg. cbn zeta. rewrite (proj2 (Z.eqb_neq _ _)) by done. set (m := op_message uid data).
  set (m1 := im_infer_type _). assert (same_message (im_send_id m) (im_recv_id m) (im_group_id m) (im_content m) m1) as Hm.
  { subst m1. unfold im_infer_type. repeat case_match; done. }
  clearbody m1. apply safe_bind. eapply safe_mono.
  - eapply safe_weaken; [|apply (psafe_deliver _ _ _ _ m1 d _ Hm)]. intros k w w' H. eapply writes_mono; [|exact H].
    intros fd b (u & m' & H1 & H2 & H3 & H4). right. by exists u, m'.
  - intros k [[rc m']|] _; [|done]. destruct (negb _); apply ssafe_reply.
Qed.

Lemma strn_twice n s : strn n (strn n s) = strn n s.
Proof. apply strn_short. rewrite strn_length. lia. Qed.

Lemma content_type_user uid data : im_content_type (op_message uid data) = im_content_type (op_message "" data).
Proof. unfold op_message. by destruct (nonempty uid). Qed.

(** C10: Whatever the other threads do between the actions of a request to send
    a message (one that is not a read receipt), every frame it causes is its
    answer on the client's own socket, or a push of that message, with the
    session's user as the sender, to a session of its receiver, after neither
    of the two had blocked the other and both were friends, or to a session of
    a member of its group, after the sender was a member. *)
Theorem gw_send_gated mongo idx data d v ws res tr i w w' :
  exec (miku_msggw_ws_on_opcode mongo idx MK_WS_OP_SEND_MSG data d) (v :: ws) = Some (res, tr) ->
  Forall wired (v :: ws) -> im_content_type (op_message "" data) <> MK_IM_MSG_TYPE_READ -> tr !! i = Some (w, w') ->
  let m := op_message (slot_user idx v) data in
  (nonempty (slot_user idx v) = true -> im_send_id m = slot_user idx v) /\
  writes_only (send_frame idx m (v :: take i ws) w) w w'.
Proof.
  intros E Hw Hr Hi m. apply list.Forall_cons in Hw as [_ Hw]. split.
  - intros Hu. subst m. unfold op_message. rewrite Hu. unfold im_set_send. cbn [im_send_id]. unfold slot_user in *.
    unfold miku_msggw_get_client_user_id_nolock in *. destruct (slot_of _ _) as [c|]; [|done].
    destruct (gc_online c && nonempty (gc_user_id c)); [|done]. cbn [default id]. apply (strn_twice 63).
  - unfold miku_msggw_ws_on_opcode, client_user in E. cbn in E. fold (slot_user idx v) in E.
    destruct (exec _ ws) as [[a tr0]|] eqn:E0; [|done]. cbn in E. injection E as -> <-. destruct i as [|i]; cbn in Hi; [injection Hi as <- <-; by apply writes_none|].
    rewrite <- (content_type_user (slot_user idx v)) in Hr.
    pose proof (safe_exec _ _ _ _ _ _ _ _ (ssafe_send idx (slot_user idx v) data d [v] Hr) Hw E0) as [_ H]. by apply (H i).
Qed.

(** ** Reading *)

Definition is_pull (op : Z) : bool :=
  (op =? MK_WS_OP_PULL_MSG_BY_SEQ) || (op =? MK_WS_OP_PULL_MSG) || (op =? MK_WS_OP_PULL_CONV_LAST_MSG).

(** The answer to a request for the messages of [conv]: an empty list, or what
    the store listed after the user's access was checked. *)
Definition pull_frame (mongo : db_request -> option text) (idx op : Z) (uid conv : string) (h : list gateway) (w : gateway) (fd : Z) (b : bytes) : Prop :=
  fd = slot_fd idx w /\
  (frame_of op no_msgs_reply b \/
   (exists v1 v2 lo hi t, v1 ∈ h /\ may_access v1 uid conv = true /\ nonempty uid = true /\ nonempty conv = true /\
      v2 ∈ h /\ store_list mongo conv lo hi v2 = Some t /\ frame_of op (msgs_reply t) b)).

Section Pull.
Context (mongo : db_request -> option text) (idx op : Z) (uid conv : string).

Abbreviation dsafe := (safe (fun _ => True) (fun h w w' => writes_only (pull_frame mongo idx op uid conv h w) w w')).

Lemma dsafe_rd {A} (Q : list gateway -> A -> Prop) h f : (forall w, Q (h ++ [w]) (f w)) -> dsafe Q h (rd f).
Proof using Type. intros HQ w _. split; [by apply writes_none|]. by apply HQ. Qed.

Lemma dsafe_answer h t :
  t = no_msgs_reply \/ (exists v1 v2 lo hi x, v1 ∈ h /\ may_access v1 uid conv = true /\ nonempty uid = true /\ nonempty conv = true /\
                         v2 ∈ h /\ store_list mongo conv lo hi v2 = Some x /\ t = msgs_reply x) ->
  dsafe (fun _ _ => True) h (answered (reply_json idx op t)).
Proof using Type.
  intros Ht. apply safe_bind. intros w _. split; [|done]. eapply writes_mono; [|apply reply_writes]. intros fd b [-> Hb]. split; [done|].
  destruct Ht as [->|(v1 & v2 & lo & hi & x & H1 & H2 & H3 & H4 & H5 & H6 & ->)]; [by left|right].
  exists v1, v2, lo, hi, x. split_and!; try done; apply elem_of_app; by left.
Qed.

(** The access check leaves the state that allowed the access. *)
Lemma dsafe_access h :
  dsafe (fun h ok => ok = true -> exists v, v ∈ h /\ may_access v uid conv = true /\ nonempty uid = true /\ nonempty conv = true) h
    (ws_may_access_conv uid conv).
Proof using Type.
  unfold ws_may_access_conv. destruct (nonempty uid) eqn:Hu; [|done]. destruct (nonempty conv) eqn:Hc; [|done]. cbn [negb orb].
  apply dsafe_rd. intros w Hw. exists w. split_and!; [apply elem_of_app; right; by left|done|done|done].
Qed.

(** Listing after the check, and the answer. *)
Lemma dsafe_list h lo hi : (exists v, v ∈ h /\ may_access v uid conv = true /\ nonempty uid = true /\ nonempty conv = true) ->
  dsafe (fun _ _ => True) h (rd (store_list mongo conv lo hi) ≫= fun msgs =>
    match msgs with Some t => answered (reply_json idx op (msgs_reply t)) | None => Ret None end).
Proof using Type.
  intros (v & Hv & H). apply safe_bind, dsafe_rd. intros w. destruct (store_list mongo conv lo hi w) as [t|] eqn:Et; [|done].
  apply dsafe_answer. right. exists v, w, lo, hi, t. destruct H as (H1 & H2 & H3). split_and!; try done.
  - apply elem_of_app. by left.
  - apply elem_of_app. right. by left.
Qed.
End Pull.

Lemma dsafe_pull mongo idx op uid data h :
  safe (fun _ => True) (fun h w w' => writes_only (pull_frame mongo idx op uid (op_conv data) h w) w w') (fun _ _ => True) h
    (if op =? MK_WS_OP_PULL_CONV_LAST_MSG then op_pull_last mongo idx op uid data else op_pull mongo idx op uid data).
Proof.
  destruct (op =? MK_WS_OP_PULL_CONV_LAST_MSG).
  - unfold op_pull_last. cbn zeta. apply safe_bind. eapply safe_mono; [apply dsafe_access|]. intros k [] Hok; cbn [negb]; [|apply dsafe_answer; by left].
    apply safe_bind, dsafe_rd. intros w. destruct (0 <? _); [|apply safe_bind; cbn [safe]; apply dsafe_answer; by left].
    apply dsafe_list. destruct (Hok eq_refl) as (v & Hv & H). exists v. split; [apply elem_of_app; by left|done].
  - unfold op_pull. cbn zeta. apply safe_bind. eapply safe_mono; [apply dsafe_access|]. intros k [] Hok; cbn [negb]; [|apply dsafe_answer; by left].
    apply dsafe_list. by apply Hok.
Qed.

(** C11: Whatever the other threads do, a request for the messages of a
    conversation writes only to the client's own socket, and what it shows is
    an empty list, or the listing of that conversation after the session's
    user could read it: as a mutual friend with no blacklist entry, as a member
    of the group, or as the owner of an entry of the conversation. *)
Theorem gw_pull_gated mongo idx op data d v ws res tr i w w' :
  is_pull op = true -> exec (miku_msggw_ws_on_opcode mongo idx op data d) (v :: ws) = Some (res, tr) -> tr !! i = Some (w, w') ->
  writes_only (pull_frame mongo idx op (slot_user idx v) (op_conv data) (v :: take i ws) w) w w'.
Proof.
  intros Hp E Hi. unfold miku_msggw_ws_on_opcode, client_user in E. cbn [mbind prog_mbind prog_bind rd exec fst snd] in E. fold (slot_user idx v) in E.
  assert (forall x y z t, (if op =? MK_WS_OP_GET_NEWEST_SEQ then x else
     if (op =? MK_WS_OP_PULL_MSG_BY_SEQ) || (op =? MK_WS_OP_PULL_MSG) then op_pull mongo idx op (slot_user idx v) data
     else if op =? MK_WS_OP_SEND_MSG then y else
     if op =? MK_WS_OP_PULL_CONV_LAST_MSG then z else t) =
     (if op =? MK_WS_OP_PULL_CONV_LAST_MSG then z else op_pull mongo idx op (slot_user idx v) data)) as Hop.
  { intros x y z t. unfold is_pull, MK_WS_OP_PULL_MSG_BY_SEQ, MK_WS_OP_PULL_MSG, MK_WS_OP_PULL_CONV_LAST_MSG, MK_WS_OP_GET_NEWEST_SEQ, MK_WS_OP_SEND_MSG in *.
    destruct (Z.eqb_spec op 1002), (Z.eqb_spec op 1005), (Z.eqb_spec op 1007), (Z.eqb_spec op 1001), (Z.eqb_spec op 1003); try lia; done. }
  rewrite Hop in E. destruct (exec _ ws) as [[a tr0]|] eqn:E0; [|done]. cbn in E. injection E as -> <-.
  destruct i as [|i]; cbn in Hi; [injection Hi as <- <-; by apply writes_none|].
  pose proof (safe_exec _ _ _ _ _ _ _ _ (dsafe_pull mongo idx op (slot_user idx v) data [v]) (list.Forall_true _ ws (fun _ => Logic.I)) E0) as [_ H].
  by apply (H i).
Qed.

(** ** The stand-alone program *)

(** The services that the program starts with and never drops. *)
Definition friendless (w : gateway) : Prop := exists f, gx_friend w = Some f /\ friends f = empty_table.

Lemma no_mutual f a b : friends f = empty_table -> miku_friend_is_mutual f (Some a) (Some b) = false.
Proof. destruct f as [fr bl]. cbn. intros ->. unfold miku_friend_is_mutual. by destruct (given (Some a) && given (Some b)). Qed.

Lemma refused_safe m d h : nonempty (im_recv_id m) = true -> nonempty (im_group_id m) = false ->
  safe friendless (fun _ w w' => w' = w) (fun _ res => exists m', res = Some (-1, m')) h (miku_msggw_ws_deliver_msg m d).
Proof.
  intros Hr Hg. unfold miku_msggw_ws_deliver_msg. cbn zeta. assert (im_recv_id (im_canonical m) = im_recv_id m /\ im_group_id (im_canonical m) = im_group_id m) as [E1 E2].
  { unfold im_canonical, im_infer_type. cbn zeta. split; repeat case_match; done. }
  destruct (negb (_ =? 0)); [by eexists|]. apply safe_bind. unfold single_gate. rewrite E1, E2, Hr, Hg. cbn [andb negb].
  apply safe_bind. intros w (f & Hf & _). split; [done|]. cbn [safe]. rewrite Hf. cbn [negb].
  apply safe_bind. intros w1 (f1 & Hf1 & _). split; [done|]. cbn [safe]. rewrite Hf1.
  apply safe_bind. eapply (safe_mono _ _ (fun _ (b : bool) => True)).
  { destruct (miku_friend_is_black _ _ _); [done|]. intros w2 _. by split. }
  intros k b2 _. destruct b2; [by eexists|]. intros w3 (f3 & Hf3 & E3). split; [done|]. cbn [safe]. rewrite Hf3.
  rewrite no_mutual by done. by eexists.
Qed.

(** The friend service stays wired. *)
#[export] Instance wired_invariant H secret : GwInvariant H secret (fun w => gw_ok (gx_table w) /\ friendless w).
Proof.
  split; try (by intros w l [O G]).
  - by intros w [O G].
  - intros w i o [O G]. split; [by apply set_msgs_ok|done].
  - intros w s [O G]. split; [by apply set_seq_ok|done].
  - intros w idx b [O G]. split; [by apply set_background_ok|done].
  - intros w idx c [O G] Hc Ho. split; [by apply release_ok|done].
  - intros w fd now idx t [O G] Hfd E. split; [by eapply find_or_add_client_ok|done].
  - intros w idx c uid p [O G] Hc Ho Hu Hl Hg. split; [by eapply upgrade_ok|done].
  - intros w f b [O (f' & Hf & E)] Ef. split; [done|]. eexists. split; [done|]. cbn. congruence.
Qed.

Lemma reachable_friendless mongo secret env w : reachable mongo secret env w -> friendless w.
Proof.
  intros (rs & ps & R). refine (proj2 (gateway_invariant (fun w => gw_ok (gx_table w) /\ friendless w) _ _ _ _ _ _ _ _ R _)); [done|].
  split; [apply gateway_create_ok|]. by eexists.
Qed.

(** C26: In the stand-alone gateway program no single chat is delivered: its
    friend service starts empty and no event or admin request adds a friend,
    so that every message to a receiver is refused with -1 and changes nothing,
    whatever clients and admin callers did before and do meanwhile. *)
Theorem gw_single_chat_refused mongo secret env m d ws res tr :
  Forall (reachable mongo secret env) ws -> exec (miku_msggw_ws_deliver_msg m d) ws = Some (res, tr) ->
  nonempty (im_recv_id m) = true -> nonempty (im_group_id m) = false ->
  (exists m', res = Some (-1, m')) /\ Forall (fun x => x.2 = x.1) tr.
Proof.
  intros Hws E Hr Hg. assert (Forall friendless ws) as Hf by (eapply list.Forall_impl; [exact Hws|]; intros w; apply reachable_friendless).
  destruct (safe_exec _ _ _ _ _ _ _ _ (refused_safe m d [] Hr Hg) Hf E) as [H1 H2]. split; [done|].
  apply list.Forall_lookup. intros i [w w'] Hi. by apply (H2 i w w').
Qed.

(** ** Examples *)

Definition ex_post (body : string) : http_request :=
  HttpRequest "/internal" (Some {[ "X-Internal-Secret" := "openIMInternal789" ]}) (literal body).

Definition ex_data (body : string) : json := default JNull (miku_json_parse (Some (literal body))).

(** alice is in g1 with carol, bob in g2. *)
Definition ex_chat : gateway :=
  run_all ex_mongo ex_secret None
    [ex_listen; Listen 2000 [ex_accept 10 "carol" 1];
     GroupMember 1 (ex_post "{'groupID':'g1','userID':'alice'}"); GroupMember 2 (ex_post "{'groupID':'g1','userID':'carol'}");
     GroupMember 3 (ex_post "{'groupID':'g2','userID':'bob'}")] gateway_create.

Definition ex_draws : draws := Draws "id1" "id2" "id3" 5 5 5.

Definition ex_group_msg : json := ex_data "{'groupID':'g1','content':'hi','contentType':101}".

(** Whether the [i]th action of a run writes to a socket. *)
Definition action_writes {A} (r : option (A * list (gateway * gateway))) (i : nat) : bool :=
  match r with
  | Some (_, tr) => match tr !! i with Some (w, w') => bool_decide (length (gx_log w) < length (gx_log w'))%nat | None => false end
  | None => false
  end.

Lemma action_writes_true {A} (r : option (A * list (gateway * gateway))) i : action_writes r i = true ->
  exists a tr w w', r = Some (a, tr) /\ tr !! i = Some (w, w') /\ gx_log w <> gx_log w'.
Proof.
  destruct r as [[a tr]|]; cbn; [|done]. destruct (tr !! i) as [[w w']|] eqn:E; [|done]. intros H%bool_decide_eq_true.
  exists a, tr, w, w'. split_and!; [done|done|]. intros El. rewrite El in H. lia.
Qed.

Definition ex_wired (w : gateway) : bool := match gx_group w, gx_friend w with Some _, Some _ => true | _, _ => false end.

Lemma ex_wired_repeat w n : ex_wired w = true -> Forall wired (repeat w n).
Proof.
  intros H. induction n as [|n IH]; constructor; [|exact IH]. unfold ex_wired in H. split; destruct (gx_group w), (gx_friend w); eauto; done.
Qed.

(** The push to carol. *)
Lemma gw_send_gated_witness : exists w w', gx_log w <> gx_log w' /\
  im_send_id (op_message (slot_user 0 ex_chat) ex_group_msg) = slot_user 0 ex_chat /\
  writes_only (send_frame 0 (op_message (slot_user 0 ex_chat) ex_group_msg) (ex_chat :: take 5 (repeat ex_chat 11)) w) w w'.
Proof.
  assert (action_writes (exec (miku_msggw_ws_on_opcode ex_mongo 0 MK_WS_OP_SEND_MSG ex_group_msg ex_draws) (ex_chat :: repeat ex_chat 11)) 5 = true)
    as H by (vm_compute; reflexivity).
  apply action_writes_true in H as (a & tr & w & w' & E & Hi & Hw). exists w, w'. split; [exact Hw|].
  assert (ex_wired ex_chat = true) as Hx by (vm_compute; reflexivity).
  assert (nonempty (slot_user 0 ex_chat) = true) as Hu by (vm_compute; reflexivity).
  assert ((im_content_type (op_message "" ex_group_msg) =? MK_IM_MSG_TYPE_READ) = false) as Ht%Z.eqb_neq by (vm_compute; reflexivity).
  destruct (gw_send_gated ex_mongo 0 ex_group_msg ex_draws ex_chat (repeat ex_chat 11) a tr 5 w w' E (ex_wired_repeat ex_chat 12 Hx) Ht Hi) as [H1 H2].
  exact (conj (H1 Hu) H2).
Defined.

Definition ex_pull : json := ex_data "{'conversationID':'sg_g1'}".

Lemma gw_pull_gated_witness : exists w w', gx_log w <> gx_log w' /\
  writes_only (pull_frame ex_mongo 0 MK_WS_OP_PULL_MSG (slot_user 0 ex_chat) (op_conv ex_pull) (ex_chat :: take 3 (repeat ex_chat 3)) w) w w'.
Proof.
  assert (action_writes (exec (miku_msggw_ws_on_opcode ex_mongo 0 MK_WS_OP_PULL_MSG ex_pull ex_draws) (ex_chat :: repeat ex_chat 3)) 3 = true)
    as H by (vm_compute; reflexivity).
  apply action_writes_true in H as (a & tr & w & w' & E & Hi & Hw). exists w, w'. split; [exact Hw|].
  exact (gw_pull_gated ex_mongo 0 MK_WS_OP_PULL_MSG ex_pull ex_draws ex_chat (repeat ex_chat 3) a tr 3 w w' eq_refl E Hi).
Defined.

Definition ex_single : miku_im_msg := op_message "alice" (ex_data "{'recvID':'bob','content':'hi','contentType':101}").

Lemma gw_single_chat_refused_witness :
  exists res tr, exec (miku_msggw_ws_deliver_msg ex_single ex_draws) (repeat ex_gw 4) = Some (res, tr) /\
    (exists m', res = Some (-1, m')) /\ length tr = 4%nat.
Proof.
  assert (match exec (miku_msggw_ws_deliver_msg ex_single ex_draws) (repeat ex_gw 4) with Some (_, tr) => length tr | None => O end = 4%nat) as H
    by (vm_compute; reflexivity).
  destruct (exec _ _) as [[res tr]|] eqn:E; [|discriminate H]. exists res, tr. split; [reflexivity|].
  assert (nonempty (im_recv_id ex_single) = true /\ nonempty (im_group_id ex_single) = false) as [H1 H2] by (vm_compute; auto).
  split; [|exact H].
  refine (proj1 (gw_single_chat_refused ex_mongo ex_secret None ex_single ex_draws (repeat ex_gw 4) res tr _ E H1 H2)).
  repeat constructor; apply ex_reachable.
Defined.

(** A read receipt is not a message: it is checked against the conversation it
    names, and sent on to the group it names.  alice, who is not a member of
    g2, sends bob a text of her choice. *)
Definition ex_receipt : json := ex_data "{'conversationID':'sg_g1','groupID':'g2','content':'spam','contentType':302,'hasReadSeq':1}".

Definition is_write_to (fd : Z) (e : gw_event) : bool := match e with GwWrite x _ => x =? fd | GwClosed _ => false end.

Example read_receipt_bypass :
  let w' := (run (miku_msggw_ws_on_opcode ex_mongo 0 MK_WS_OP_SEND_MSG ex_receipt ex_draws) ex_chat).2 in
  match gx_group ex_chat with Some g => miku_group_is_member g (Some "g2") (Some "alice") | None => true end = false /\
  existsb (is_write_to 8) (drop (length (gx_log ex_chat)) (gx_log w')) = true.
Proof. vm_compute. split; reflexivity. Qed.
