(* ===== verification/HashMap.v ===== *)
(** * String map (foundation/miku_hashmap.c)

    Open addressing with tombstones: a deleted entry keeps its slot, and the
    table is rebuilt, twice as large when the live entries need it, once three
    quarters of its slots have been used.  Releasing keys and values is not
    modelled.  [hashmap_refines] says that any sequence of operations behaves as
    on a finite map; in particular the loops end, since a slot is always free. *)
From S2P Require Import Prelude Hash.
#[local] Open Scope Z_scope.

Section HashMap.
Context {V : Type}.

Inductive hm_entry := HmEmpty | HmOccupied (key : string) (val : V) | HmDeleted.

(** The capacity is the length of the table. *)
Record miku_hashmap := HashMap { hm_entries : list hm_entry; hm_count : Z; hm_used : Z }.

Definition hm_cap (t : list hm_entry) : Z := Z.of_nat (length t).
Definition hm_slot (cap : Z) (key : string) : Z := Z.land (fnv1a_64 key) (cap - 1).
Definition hm_next (cap h : Z) : Z := Z.land (h + 1) (cap - 1).

Definition hm_is_occupied (e : hm_entry) : bool := match e with HmOccupied _ _ => true | _ => false end.
Definition hm_is_empty (e : hm_entry) : bool := match e with HmEmpty => true | _ => false end.

Definition hm_at (t : list hm_entry) (h : Z) : hm_entry := default HmEmpty (at_ t h).

(** [while (entries[h].state == HM_OCCUPIED) h = (h + 1) & (cap - 1)]; None
    when the table is full and the loop does not end. *)
Fixpoint open_slot (fuel : nat) (t : list hm_entry) (h : Z) : option Z :=
  match fuel with
  | O => None
  | S fuel' => if hm_is_occupied (hm_at t h) then open_slot fuel' t (hm_next (hm_cap t) h) else Some h
  end.

Definition set_entry (t : list hm_entry) (h : Z) (e : hm_entry) : list hm_entry := upd_at (fun _ => e) h t.

(** One entry of the old table moved to the new one. *)
Definition move_entry (acc : option (list hm_entry)) (e : hm_entry) : option (list hm_entry) :=
  ne ← acc;
  match e with
  | HmOccupied k _ => h ← open_slot (length ne) ne (hm_slot (hm_cap ne) k); Some (set_entry ne h e)
  | _ => Some ne
  end.

Definition hm_resize (map : miku_hashmap) : option miku_hashmap :=
  let cap := hm_cap (hm_entries map) in
  let newcap := if cap * 3 <=? hm_count map * 4 then cap * 2 else cap in
  ne ← foldl move_entry (Some (repeat HmEmpty (Z.to_nat newcap))) (hm_entries map);
  Some (HashMap ne (hm_count map) (hm_count map)).

(** [while (cap < initial_cap) cap *= 2]: 64 doublings exceed a size. *)
Fixpoint grow_cap (fuel : nat) (cap initial_cap : Z) : Z :=
  match fuel with
  | O => cap
  | S fuel' => if cap <? initial_cap then grow_cap fuel' (cap * 2) initial_cap else cap
  end.

Definition miku_hashmap_create (initial_cap : Z) : miku_hashmap :=
  HashMap (repeat HmEmpty (Z.to_nat (grow_cap 64 16 initial_cap))) 0 0.

(** The slot of the key, from [h] on, until an empty slot. *)
Fixpoint find_slot (fuel : nat) (t : list hm_entry) (key : string) (h : Z) : option Z :=
  match fuel with
  | O => None
  | S fuel' =>
      match hm_at t h with
      | HmEmpty => None
      | HmOccupied k _ => if streq k key then Some h else find_slot fuel' t key (hm_next (hm_cap t) h)
      | HmDeleted => find_slot fuel' t key (hm_next (hm_cap t) h)
      end
  end.

Definition find_key (t : list hm_entry) (key : string) : option Z :=
  find_slot (length t) t key (hm_slot (hm_cap t) key).

(** None is a loop that does not end. *)
Definition miku_hashmap_put (map : miku_hashmap) (key : string) (val : V) : option miku_hashmap :=
  map ← (if hm_cap (hm_entries map) * 3 <=? hm_used map * 4 then hm_resize map else Some map);
  let t := hm_entries map in
  match find_key t key with
  | Some h => Some (HashMap (set_entry t h (HmOccupied key val)) (hm_count map) (hm_used map))
  | None =>
      h ← open_slot (length t) t (hm_slot (hm_cap t) key);
      Some (HashMap (set_entry t h (HmOccupied key val)) (hm_count map + 1)
                    (if hm_is_empty (hm_at t h) then hm_used map + 1 else hm_used map))
  end.

Definition miku_hashmap_get (map : miku_hashmap) (key : string) : option V :=
  h ← find_key (hm_entries map) key;
  match hm_at (hm_entries map) h with HmOccupied _ v => Some v | _ => None end.

Definition miku_hashmap_del (map : miku_hashmap) (key : string) : Z * miku_hashmap :=
  match find_key (hm_entries map) key with
  | Some h => (0, HashMap (set_entry (hm_entries map) h HmDeleted) (hm_count map - 1) (hm_used map))
  | None => (-1, map)
  end.

Definition miku_hashmap_size (map : miku_hashmap) : Z := hm_count map.

Definition live_entry (e : hm_entry) : option (string * V) := match e with HmOccupied k v => Some (k, v) | _ => None end.

(** The calls of the callback, in the order of the slots. *)
Definition miku_hashmap_foreach (map : miku_hashmap) : list (string * V) := omap live_entry (hm_entries map).

(** ** Invariant *)

Definition hm_pos (t : list hm_entry) (h d : Z) : Z := (h + d) mod hm_cap t.

(** The probe for a key whose home is [h] arrives at [i]. *)
Definition reaches (t : list hm_entry) (h i : Z) : Prop :=
  exists d, 0 <= d < hm_cap t /\ i = hm_pos t h d /\ forall j, 0 <= j < d -> hm_at t (hm_pos t h j) <> HmEmpty.

Record hm_table_ok (t : list hm_entry) (M : gmap string V) : Prop := {
  to_pow : exists k, 4 <= k /\ hm_cap t = 2 ^ k;
  to_key : forall i k v, at_ t i = Some (HmOccupied k v) -> M !! k = Some v /\ reaches t (hm_slot (hm_cap t) k) i;
  to_has : forall k v, M !! k = Some v -> exists i, at_ t i = Some (HmOccupied k v);
  to_inj : forall i j k v w, at_ t i = Some (HmOccupied k v) -> at_ t j = Some (HmOccupied k w) -> i = j }.

Definition occupied_total (t : list hm_entry) : Z := Z.of_nat (length (filter (fun e => hm_is_occupied e = true) t)).
Definition used_total (t : list hm_entry) : Z := Z.of_nat (length (filter (fun e => hm_is_empty e = false) t)).

Record map_ok (m : miku_hashmap) (M : gmap string V) : Prop := {
  mo_table : hm_table_ok (hm_entries m) M;
  mo_count : hm_count m = occupied_total (hm_entries m);
  mo_used : hm_used m = used_total (hm_entries m);
  mo_load : (hm_used m - 1) * 4 < hm_cap (hm_entries m) * 3 }.

(** ** Slots *)

Lemma hm_pow_pos k : 4 <= k -> 16 <= 2 ^ k.
Proof. intros Hk. change 16 with (2 ^ 4). apply Z.pow_le_mono_r; lia. Qed.

Section Table.
Context {t : list hm_entry} {k : Z} (Hk : 4 <= k) (Hcap : hm_cap t = 2 ^ k).

Lemma hm_cap_pos : 16 <= hm_cap t.
Proof using Hk Hcap. rewrite Hcap. by apply hm_pow_pos. Qed.

Lemma hm_next_slot_ok h d : hm_next (hm_cap t) (hm_pos t h d) = hm_pos t h (d + 1).
Proof using Hk Hcap.
  pose proof hm_cap_pos. unfold hm_next, hm_pos. rewrite Hcap, land_mask by lia. rewrite Zplus_mod_idemp_l. f_equal. lia.
Qed.

Lemma hm_home_slot key : hm_slot (hm_cap t) key = hm_pos t (hm_slot (hm_cap t) key) 0.
Proof using Hk Hcap.
  pose proof hm_cap_pos. unfold hm_pos, hm_slot. rewrite Z.add_0_r, Hcap, land_mask by lia. by rewrite Zmod_mod.
Qed.

Lemma hm_slot_bound h d : 0 <= hm_pos t h d < hm_cap t.
Proof using Hk Hcap. pose proof hm_cap_pos. apply Z.mod_pos_bound. lia. Qed.

Lemma hm_slot_at h d : exists e, at_ t (hm_pos t h d) = Some e /\ hm_at t (hm_pos t h d) = e.
Proof using Hk Hcap.
  destruct (at_is_Some t (hm_pos t h d)) as [e He]; [apply hm_slot_bound|]. exists e. unfold hm_at. by rewrite He.
Qed.

(** Every slot is on the probe from any slot. *)
Lemma hm_slot_surj h i : 0 <= i < hm_cap t -> exists d, 0 <= d < hm_cap t /\ i = hm_pos t h d.
Proof using Hk Hcap.
  intros Hi. pose proof hm_cap_pos. exists ((i - h) mod hm_cap t). split; [apply Z.mod_pos_bound; lia|]. unfold hm_pos.
  rewrite Zplus_mod_idemp_r. replace (h + (i - h)) with i by lia. by rewrite Z.mod_small.
Qed.

Lemma hm_slot_inj h d d' : 0 <= d < hm_cap t -> 0 <= d' < hm_cap t -> hm_pos t h d = hm_pos t h d' -> d = d'.
Proof using Hk Hcap.
  intros Hd Hd' E. pose proof hm_cap_pos. unfold hm_pos in E.
  assert ((h + d - h) mod hm_cap t = (h + d' - h) mod hm_cap t) as E2 by (rewrite Zminus_mod, E, <- Zminus_mod; done).
  replace (h + d - h) with d in E2 by lia. replace (h + d' - h) with d' in E2 by lia. by rewrite !Z.mod_small in E2.
Qed.

(** The first slot that is not occupied. *)
Lemma open_slot_ok h : forall fuel d, 0 <= d -> (exists d', d <= d' < d + Z.of_nat fuel /\ hm_is_occupied (hm_at t (hm_pos t h d')) = false) ->
  exists d', d <= d' < d + Z.of_nat fuel /\ open_slot fuel t (hm_pos t h d) = Some (hm_pos t h d') /\
    hm_is_occupied (hm_at t (hm_pos t h d')) = false /\ forall j, d <= j < d' -> hm_is_occupied (hm_at t (hm_pos t h j)) = true.
Proof using Hk Hcap.
  induction fuel as [|fuel IH]; intros d Hd (d1 & Hb & Hf); [lia|]. cbn [open_slot].
  destruct (hm_is_occupied (hm_at t (hm_pos t h d))) eqn:E.
  - rewrite hm_next_slot_ok. destruct (IH (d + 1)) as (d' & B & H1 & H2 & H3); [lia| |].
    + exists d1. split; [|done]. destruct (decide (d1 = d)) as [->|]; [congruence|lia].
    + exists d'. split_and!; [lia|lia|done|done|]. intros j Hj. destruct (decide (j = d)) as [->|]; [done|]. apply H3. lia.
  - exists d. split_and!; [lia|lia|done|done|]. lia.
Qed.

(** The search, before its target. *)
Lemma find_slot_ok key h i v : at_ t i = Some (HmOccupied key v) -> forall d, 0 <= d < hm_cap t -> i = hm_pos t h d ->
  (forall j, 0 <= j < d -> hm_at t (hm_pos t h j) <> HmEmpty) ->
  (forall j w, at_ t j = Some (HmOccupied key w) -> j = i) ->
  forall fuel e, 0 <= e <= d -> d < e + Z.of_nat fuel -> find_slot fuel t key (hm_pos t h e) = Some i.
Proof using Hk Hcap.
  intros Hi d Hd Ei Hne Hu fuel. induction fuel as [|fuel IH]; intros e He Hf; [lia|]. cbn [find_slot].
  destruct (hm_slot_at h e) as (x & Hx & ->). destruct (decide (e = d)) as [->|Hed].
  - rewrite <- Ei in Hx. rewrite Hi in Hx. injection Hx as <-. rewrite streq_refl. by rewrite Ei.
  - destruct x as [|k' v'|].
    + exfalso. apply (Hne e); [lia|]. unfold hm_at. by rewrite Hx.
    + destruct (streq k' key) eqn:Es; [apply streq_eq in Es as ->; apply Hu in Hx; by rewrite Hx|]. rewrite hm_next_slot_ok. apply IH; lia.
    + rewrite hm_next_slot_ok. apply IH; lia.
Qed.

Lemma find_slot_none key h : (forall j w, at_ t j <> Some (HmOccupied key w)) -> forall fuel e, 0 <= e -> find_slot fuel t key (hm_pos t h e) = None.
Proof using Hk Hcap.
  intros Hno fuel. induction fuel as [|fuel IH]; intros e He; [done|]. cbn [find_slot]. destruct (hm_slot_at h e) as (x & Hx & ->).
  destruct x as [|k' v'|]; [done| |].
  - destruct (streq k' key) eqn:Es; [apply streq_eq in Es as ->; by apply Hno in Hx|]. rewrite hm_next_slot_ok. apply IH. lia.
  - rewrite hm_next_slot_ok. apply IH. lia.
Qed.
End Table.

(** ** One entry changed *)

Lemma hm_cap_set t p e : hm_cap (set_entry t p e) = hm_cap t.
Proof. unfold hm_cap, set_entry. by rewrite length_upd_at. Qed.

Lemma hm_at_set t p e j : 0 <= p < hm_cap t -> at_ (set_entry t p e) j = if decide (j = p) then Some e else at_ t j.
Proof.
  intros Hp. unfold set_entry. case_decide as E; [subst|by apply at_upd_ne; lia].
  destruct (at_is_Some t p Hp) as [x Hx]. by rewrite (at_upd_eq _ _ _ _ Hx).
Qed.

Lemma hm_at_entry t p e j : 0 <= p < hm_cap t -> hm_at (set_entry t p e) j = if decide (j = p) then e else hm_at t j.
Proof. intros Hp. unfold hm_at. rewrite hm_at_set by done. by case_decide. Qed.

Lemma reaches_set t p e h i : 0 <= p < hm_cap t -> e <> HmEmpty -> reaches t h i -> reaches (set_entry t p e) h i.
Proof.
  intros Hp He (d & Hd & -> & Hne). unfold reaches, hm_pos in *. rewrite hm_cap_set. exists d.
  split_and!; [lia|lia|done|]. intros j Hj. rewrite hm_at_entry by done. case_decide; [done|]. by apply Hne.
Qed.

Lemma hm_total_set (P : hm_entry -> bool) t p e x : at_ t p = Some x ->
  Z.of_nat (length (filter (fun e => P e = true) (set_entry t p e))) =
  Z.of_nat (length (filter (fun e => P e = true) t)) - (if P x then 1 else 0) + (if P e then 1 else 0).
Proof.
  intros Hp. destruct (at_split _ _ _ Hp) as (l1 & l2 & -> & ->). unfold set_entry. rewrite upd_at_app, !list.filter_app, !length_app.
  rewrite !filter_cons. destruct (P x), (P e); repeat case_decide; try done; cbn [length]; lia.
Qed.

Lemma hm_total_empty t : used_total t = Z.of_nat (length (filter (fun e => negb (hm_is_empty e) = true) t)).
Proof. unfold used_total. do 2 f_equal. apply list_filter_iff. intros e. destruct (hm_is_empty e); cbn; split; done. Qed.

Lemma hm_occupied_set t p e x : at_ t p = Some x ->
  occupied_total (set_entry t p e) = occupied_total t - (if hm_is_occupied x then 1 else 0) + (if hm_is_occupied e then 1 else 0).
Proof. apply hm_total_set. Qed.

Lemma hm_used_set t p e x : at_ t p = Some x ->
  used_total (set_entry t p e) = used_total t - (if hm_is_empty x then 0 else 1) + (if hm_is_empty e then 0 else 1).
Proof. intros Hp. rewrite !hm_total_empty, (hm_total_set (fun e => negb (hm_is_empty e)) _ _ _ _ Hp). by destruct (hm_is_empty x), (hm_is_empty e). Qed.

Lemma find_key_spec t M key : hm_table_ok t M ->
  match M !! key with
  | Some v => exists i, find_key t key = Some i /\ at_ t i = Some (HmOccupied key v)
  | None => find_key t key = None
  end.
Proof.
  intros O. destruct (to_pow _ _ O) as (k & Hk & Hcap). unfold find_key. rewrite (hm_home_slot Hk Hcap key). destruct (M !! key) as [v|] eqn:E.
  - destruct (to_has _ _ O _ _ E) as [i Hi]. exists i. split; [|done]. destruct (to_key _ _ O _ _ _ Hi) as [_ (d & Hd & Ei & Hne)].
    eapply (find_slot_ok Hk Hcap); [exact Hi|exact Hd|exact Ei|exact Hne| |lia|unfold hm_cap in Hd; lia].
    intros j w Hj. by eapply (to_inj _ _ O).
  - apply (find_slot_none Hk Hcap); [|lia]. intros j w Hj. destruct (to_key _ _ O _ _ _ Hj) as [Hm _]. congruence.
Qed.

(** The value of a key replaced. *)
Lemma hm_replace_ok t M i key v v0 : hm_table_ok t M -> at_ t i = Some (HmOccupied key v0) -> hm_table_ok (set_entry t i (HmOccupied key v)) (<[key:=v]> M).
Proof.
  intros O Hi. pose proof (at_lt _ _ _ Hi) as Hb. split.
  - rewrite hm_cap_set. apply (to_pow _ _ O).
  - intros j k w. rewrite hm_at_set, hm_cap_set by done. case_decide as E.
    + intros [= -> ->]. rewrite lookup_insert_eq. split; [done|]. subst. apply reaches_set; [done|done|]. by apply (to_key _ _ O) in Hi as [_ ?].
    + intros Hj. destruct (to_key _ _ O _ _ _ Hj) as [Hm Hr]. split; [|by apply reaches_set].
      rewrite lookup_insert_ne; [done|]. intros <-. apply E. by eapply (to_inj _ _ O).
  - intros k w. destruct (decide (k = key)) as [->|Hne].
    + rewrite lookup_insert_eq. intros [= <-]. exists i. by rewrite hm_at_set, decide_True.
    + rewrite lookup_insert_ne by done. intros [j Hj]%(to_has _ _ O). exists j. rewrite hm_at_set, decide_False; [done| |done]. intros ->. congruence.
  - intros j j' k w w'. rewrite !hm_at_set by done. repeat case_decide; subst; [done| | |by apply (to_inj _ _ O)].
    + intros [= -> _] Hj. by eapply (to_inj _ _ O).
    + intros Hj [= -> _]. by eapply (to_inj _ _ O).
Qed.

(** A new key put into a slot on its probe. *)
Lemma hm_insert_ok t M p key v : hm_table_ok t M -> M !! key = None -> 0 <= p < hm_cap t -> hm_is_occupied (hm_at t p) = false ->
  reaches t (hm_slot (hm_cap t) key) p -> hm_table_ok (set_entry t p (HmOccupied key v)) (<[key:=v]> M).
Proof.
  intros O HM Hp Hf Hr. assert (forall j k w, at_ t j = Some (HmOccupied k w) -> k <> key) as Hno.
  { intros j k w Hj ->. apply (to_key _ _ O) in Hj as [? _]. congruence. }
  split.
  - rewrite hm_cap_set. apply (to_pow _ _ O).
  - intros j k w. rewrite hm_at_set, hm_cap_set by done. case_decide as E.
    + intros [= -> ->]. rewrite lookup_insert_eq. subst. split; [done|]. by apply reaches_set.
    + intros Hj. destruct (to_key _ _ O _ _ _ Hj) as [Hm Hj']. split; [|by apply reaches_set].
      rewrite lookup_insert_ne; [done|]. intros ->. by eapply Hno.
  - intros k w. destruct (decide (k = key)) as [->|Hne].
    + rewrite lookup_insert_eq. intros [= <-]. exists p. by rewrite hm_at_set, decide_True.
    + rewrite lookup_insert_ne by done. intros [j Hj]%(to_has _ _ O). exists j. rewrite hm_at_set, decide_False; [done| |done].
      intros ->. unfold hm_at in Hf. by rewrite Hj in Hf.
  - intros j j' k w w'. rewrite !hm_at_set by done. repeat case_decide; subst; [done| | |by apply (to_inj _ _ O)].
    + intros [= -> _] Hj. by apply Hno in Hj.
    + intros Hj [= -> _]. by apply Hno in Hj.
Qed.

Lemma hm_delete_ok t M i key v0 : hm_table_ok t M -> at_ t i = Some (HmOccupied key v0) -> hm_table_ok (set_entry t i HmDeleted) (delete key M).
Proof.
  intros O Hi. pose proof (at_lt _ _ _ Hi) as Hb. split.
  - rewrite hm_cap_set. apply (to_pow _ _ O).
  - intros j k w. rewrite hm_at_set, hm_cap_set by done. case_decide as E; [done|]. intros Hj. destruct (to_key _ _ O _ _ _ Hj) as [Hm Hr].
    split; [|by apply reaches_set]. rewrite lookup_delete_ne; [done|]. intros <-. apply E. by eapply (to_inj _ _ O).
  - intros k w [Hne Hm]%lookup_delete_Some. apply (to_has _ _ O) in Hm as [j Hj]. exists j. rewrite hm_at_set, decide_False; [done| |done].
    intros ->. rewrite Hi in Hj. by injection Hj as ->.
  - intros j j' k w w'. rewrite !hm_at_set by done. repeat case_decide; try done. apply (to_inj _ _ O).
Qed.

(** A slot that is not occupied is found when the table is not full. *)
Lemma free_found t M key : hm_table_ok t M -> used_total t < hm_cap t ->
  exists p x, open_slot (length t) t (hm_slot (hm_cap t) key) = Some p /\ 0 <= p < hm_cap t /\ at_ t p = Some x /\ hm_at t p = x /\
    hm_is_occupied x = false /\ reaches t (hm_slot (hm_cap t) key) p.
Proof.
  intros O Hu. destruct (to_pow _ _ O) as (k & Hk & Hcap). set (h := hm_slot (hm_cap t) key).
  assert (exists i, 0 <= i < hm_cap t /\ hm_at t i = HmEmpty) as (i & Hi & He).
  { unfold used_total, hm_cap in Hu. clear -Hu. induction t as [|e t IH]; [cbn in Hu; lia|]. destruct e as [|k v|].
    - exists 0. split; [unfold hm_cap; cbn; lia|done].
    - rewrite filter_cons_True in Hu by done. cbn [length] in Hu. destruct IH as (i & Hi & E); [lia|]. exists (i + 1).
      split; [unfold hm_cap in *; cbn [length]; lia|]. unfold hm_at, at_ in *. destruct (Z.ltb_spec i 0), (Z.ltb_spec (i + 1) 0); try lia.
      by replace (Z.to_nat (i + 1)) with (S (Z.to_nat i)) by lia.
    - rewrite filter_cons_True in Hu by done. cbn [length] in Hu. destruct IH as (i & Hi & E); [lia|]. exists (i + 1).
      split; [unfold hm_cap in *; cbn [length]; lia|]. unfold hm_at, at_ in *. destruct (Z.ltb_spec i 0), (Z.ltb_spec (i + 1) 0); try lia.
      by replace (Z.to_nat (i + 1)) with (S (Z.to_nat i)) by lia. }
  destruct (hm_slot_surj Hk Hcap h i Hi) as (d & Hd & ->). destruct (open_slot_ok Hk Hcap h (length t) 0) as (d' & Hb & H1 & H2 & H3).
  - lia.
  - exists d. split; [unfold hm_cap in Hd; lia|by rewrite He].
  - destruct (hm_slot_at Hk Hcap h d') as (x & Hx & Ex). exists (hm_pos t h d'), x. unfold h in *. rewrite <- (hm_home_slot Hk Hcap key) in H1.
    split_and!; [exact H1|apply (hm_slot_bound Hk Hcap)|apply (hm_slot_bound Hk Hcap)|done|done|by rewrite <- Ex|].
    exists d'. split_and!; [lia|unfold hm_cap; lia|done|]. intros j Hj Hje. specialize (H3 j ltac:(lia)). by rewrite Hje in H3.
Qed.

(** ** Rebuilding *)

Abbreviation occs := (omap live_entry).

Definition add_all (M : gmap string V) (l : list (string * V)) : gmap string V := foldl (fun M kv => <[kv.1:=kv.2]> M) M l.

Lemma add_all_lookup l : forall M k, NoDup l.*1 -> add_all M l !! k = match (list_to_map l : gmap string V) !! k with Some v => Some v | None => M !! k end.
Proof.
  induction l as [|[k0 v0] l IH]; intros M k Hnd; [done|]. cbn in Hnd. apply list.NoDup_cons in Hnd as [Hk Hnd]. cbn [add_all foldl fst snd].
  fold (add_all (<[k0:=v0]> M) l). rewrite IH by done. cbn [list_to_map foldr fst snd].
  destruct (decide (k = k0)) as [->|Hne].
  - rewrite lookup_insert_eq. rewrite (not_elem_of_list_to_map_1 l k0) by done. by rewrite lookup_insert_eq.
  - by rewrite !(lookup_insert_ne _ _ _ _ (not_eq_sym Hne)).
Qed.

Lemma hm_at_shift {A} (x : A) l i : 0 <= i -> at_ (x :: l) (i + 1) = at_ l i.
Proof.
  intros Hi. unfold at_. destruct (Z.ltb_spec i 0), (Z.ltb_spec (i + 1) 0); try lia. by replace (Z.to_nat (i + 1)) with (S (Z.to_nat i)) by lia.
Qed.

Lemma elem_occs k v t : (k, v) ∈ occs t <-> exists i, at_ t i = Some (HmOccupied k v).
Proof.
  rewrite list_elem_of_omap. split.
  - intros (e & He & El). destruct e; cbn in El; simplify_eq. apply list_elem_of_lookup in He as [i Hi]. exists (Z.of_nat i). by rewrite at_of_nat.
  - intros [i Hi]. exists (HmOccupied k v). split; [|done]. apply at_Some in Hi as [_ Hi]. by eapply list_elem_of_lookup_2.
Qed.

Lemma occs_nodup t : (forall i j k v w, at_ t i = Some (HmOccupied k v) -> at_ t j = Some (HmOccupied k w) -> i = j) -> NoDup (occs t).*1.
Proof.
  induction t as [|e t IH]; intros Hinj; [constructor|]. assert (NoDup (occs t).*1) as Hnd.
  { apply IH. intros i j k v w Hi Hj. pose proof (at_lt _ _ _ Hi). pose proof (at_lt _ _ _ Hj). enough (i + 1 = j + 1) by lia.
    eapply (Hinj _ _ k v w); by rewrite hm_at_shift by lia. }
  destruct e as [|k v|]; cbn; [done| |done]. constructor; [|done]. intros ((k' & w) & Hk & Hin)%list_elem_of_fmap. cbn in Hk. subst k'.
  apply elem_occs in Hin as [i Hi]. pose proof (at_lt _ _ _ Hi). enough (0 = i + 1) by lia. eapply (Hinj _ _ k v w); [done|]. by rewrite hm_at_shift by lia.
Qed.

Lemma occs_total t : occupied_total t = Z.of_nat (length (occs t)).
Proof.
  unfold occupied_total. f_equal. induction t as [|e t IH]; [done|]. destruct e as [|k v|].
  - by rewrite filter_cons_False.
  - rewrite filter_cons_True by done. cbn [length omap list_omap live_entry]. by rewrite IH.
  - by rewrite filter_cons_False.
Qed.

Lemma hm_move_ok l : forall t M, hm_table_ok t M -> (forall i, at_ t i <> Some HmDeleted) -> used_total t = occupied_total t ->
  occupied_total t + Z.of_nat (length (occs l)) < hm_cap t -> NoDup (occs l).*1 -> (forall k v, (k, v) ∈ occs l -> M !! k = None) ->
  exists t', foldl move_entry (Some t) l = Some t' /\ hm_table_ok t' (add_all M (occs l)) /\ hm_cap t' = hm_cap t /\
    used_total t' = occupied_total t' /\ occupied_total t' = occupied_total t + Z.of_nat (length (occs l)).
Proof.
  induction l as [|e l IH]; intros t M O Hd Hu Hc Hnd Hf.
  { exists t. split_and!; [done|done|done|done|cbn; lia]. }
  destruct e as [|k v|]; cbn [foldl]; [by apply IH| |by apply IH]. cbn in Hc, Hnd, Hf.
  change (move_entry (Some t) (HmOccupied k v)) with (h ← open_slot (length t) t (hm_slot (hm_cap t) k); Some (set_entry t h (HmOccupied k v))).
  apply list.NoDup_cons in Hnd as [Hk Hnd]. destruct (free_found t M k O) as (p & x & -> & Hp & Hx & Ex & Hox & Hr); [lia|]. cbn [mbind option_bind].
  assert (x = HmEmpty) as -> by (destruct x; [done|done|by apply Hd in Hx]).
  assert (M !! k = None) as HM by (apply (Hf k v); by left).
  pose proof (hm_occupied_set t p (HmOccupied k v) _ Hx) as Ho. pose proof (hm_used_set t p (HmOccupied k v) _ Hx) as Hus. cbn in Ho, Hus.
  destruct (IH (set_entry t p (HmOccupied k v)) (<[k:=v]> M)) as (t' & H1 & H2 & H3 & H4 & H5).
  - apply hm_insert_ok; try done. by rewrite Ex.
  - intros i. rewrite hm_at_set by done. case_decide; [done|apply Hd].
  - lia.
  - rewrite hm_cap_set. lia.
  - done.
  - intros k' v' Hin. rewrite lookup_insert_ne; [apply (Hf k' v'); by right|]. intros <-. apply Hk. apply list_elem_of_fmap. by exists (k, v').
  - exists t'. rewrite hm_cap_set in H3. split_and!; [exact H1|exact H2|done|done|cbn [omap list_omap live_entry length]; lia].
Qed.

Lemma hm_repeat_empty n i : at_ (repeat HmEmpty n) i = None \/ at_ (repeat HmEmpty n) i = Some HmEmpty.
Proof.
  destruct (at_ (repeat HmEmpty n) i) as [e|] eqn:E; [right|by left]. apply at_Some in E as [_ E].
  apply list_elem_of_lookup_2, list_elem_of_In, repeat_spec in E. by rewrite E.
Qed.

Lemma hm_fresh_ok k : 4 <= k -> hm_table_ok (repeat HmEmpty (Z.to_nat (2 ^ k))) ∅ /\ used_total (repeat HmEmpty (Z.to_nat (2 ^ k))) = 0 /\
  occupied_total (repeat HmEmpty (Z.to_nat (2 ^ k))) = 0 /\ hm_cap (repeat HmEmpty (Z.to_nat (2 ^ k))) = 2 ^ k.
Proof.
  intros Hk. pose proof (hm_pow_pos k Hk). set (n := Z.to_nat (2 ^ k)).
  assert (hm_cap (repeat HmEmpty n) = 2 ^ k) as Hcap by (unfold hm_cap; rewrite repeat_length; lia).
  assert (forall i k v, at_ (repeat HmEmpty n) i <> Some (HmOccupied k v)) as Hno by (intros i k' v; destruct (hm_repeat_empty n i) as [-> | ->]; done).
  split_and!; [split| | |done].
  - by exists k.
  - intros i k' v Hi. by apply Hno in Hi.
  - intros k' v Hv. by rewrite lookup_empty in Hv.
  - intros i j k' v w Hi. by apply Hno in Hi.
  - unfold used_total. clear. induction n as [|n IH]; [done|]. cbn [repeat]. rewrite filter_cons_False by done. exact IH.
  - unfold occupied_total. clear. induction n as [|n IH]; [done|]. cbn [repeat]. rewrite filter_cons_False by done. exact IH.
Qed.

Lemma hm_resize_ok m M : map_ok m M -> exists m', hm_resize m = Some m' /\ map_ok m' M /\ hm_used m' * 4 < hm_cap (hm_entries m') * 3.
Proof.
  intros [O Hc Hu Hl]. destruct (to_pow _ _ O) as (k & Hk & Hcap). unfold hm_resize. cbn zeta. pose proof (hm_pow_pos k Hk).
  set (t := hm_entries m) in *. assert (exists k', 4 <= k' /\ (if hm_cap t * 3 <=? hm_count m * 4 then hm_cap t * 2 else hm_cap t) = 2 ^ k' /\
    hm_count m * 4 < 2 ^ k' * 3) as (k' & Hk' & -> & Hroom).
  { assert (occupied_total t <= used_total t) as Hou.
    { unfold occupied_total, used_total. apply inj_le. clear. induction t as [|e t IH]; [done|]. rewrite !filter_cons.
      destruct e; repeat case_decide; try done; cbn [length]; lia. }
    destruct (Z.leb_spec (hm_cap t * 3) (hm_count m * 4)).
    - exists (k + 1). rewrite Z.pow_add_r, Hcap by lia. split_and!; [lia|lia|]. rewrite Hcap in *. lia.
    - exists k. rewrite <- Hcap. split_and!; [lia|done|lia]. }
  destruct (hm_fresh_ok k' Hk') as (F1 & F2 & F3 & F4). set (t0 := repeat HmEmpty _) in *. pose proof (occs_nodup t (to_inj _ _ O)) as Hnd.
  assert (0 <= hm_count m) by (rewrite Hc; unfold occupied_total; lia).
  destruct (hm_move_ok t t0 ∅ F1) as (t' & -> & H2 & H3 & H4 & H5).
  - intros i. destruct (hm_repeat_empty (Z.to_nat (2 ^ k')) i) as [E|E]; unfold t0; rewrite E; done.
  - by rewrite F2, F3.
  - rewrite F3, F4, <- occs_total, <- Hc. lia.
  - done.
  - intros. apply lookup_empty.
  - cbn [mbind option_bind]. eexists. split; [reflexivity|]. rewrite F3, <- occs_total, <- Hc in H5.
    assert (add_all ∅ (occs t) = M) as EM.
    { apply map_eq. intros x. rewrite add_all_lookup by done. destruct ((list_to_map (occs t) : gmap string V) !! x) as [v|] eqn:E.
      - apply elem_of_list_to_map_2, elem_occs in E as [i Hi]. by apply (to_key _ _ O) in Hi as [-> _].
      - rewrite lookup_empty. destruct (M !! x) as [v|] eqn:Ex; [|done]. apply (to_has _ _ O) in Ex as Hi. apply elem_occs in Hi.
        apply not_elem_of_list_to_map_2 in E. destruct E. apply list_elem_of_fmap. by exists (x, v). }
    rewrite EM in H2. split; [split; cbn; [done|lia|lia|rewrite H3, F4; lia]|cbn; rewrite H3, F4; lia].
Qed.

(** ** Operations *)

Lemma hm_put_ok m M key v : map_ok m M -> exists m', miku_hashmap_put m key v = Some m' /\ map_ok m' (<[key:=v]> M).
Proof.
  intros Hm. unfold miku_hashmap_put.
  assert (exists m1, (if hm_cap (hm_entries m) * 3 <=? hm_used m * 4 then hm_resize m else Some m) = Some m1 /\ map_ok m1 M /\
            hm_used m1 * 4 < hm_cap (hm_entries m1) * 3) as (m1 & -> & [O Hc Hu Hl] & Hload).
  { destruct (Z.leb_spec (hm_cap (hm_entries m) * 3) (hm_used m * 4)); [by apply hm_resize_ok|]. exists m. split_and!; [done|done|lia]. }
  cbn [mbind option_bind]. pose proof (find_key_spec (hm_entries m1) M key O) as Hf. destruct (M !! key) as [v0|] eqn:E.
  - destruct Hf as (i & -> & Hi). eexists. split; [reflexivity|]. pose proof (hm_occupied_set _ i (HmOccupied key v) _ Hi) as Ho.
    pose proof (hm_used_set _ i (HmOccupied key v) _ Hi) as Hus. cbn in Ho, Hus.
    split; cbn [hm_entries hm_count hm_used]; [by eapply hm_replace_ok|lia|lia|rewrite hm_cap_set; lia].
  - rewrite Hf. destruct (to_pow _ _ O) as (k & Hk & Hcap). pose proof (hm_pow_pos k Hk).
    destruct (free_found (hm_entries m1) M key O) as (p & x & -> & Hp & Hx & Ex & Hox & Hr); [lia|]. cbn [mbind option_bind].
    eexists. split; [reflexivity|]. pose proof (hm_occupied_set _ p (HmOccupied key v) _ Hx) as Ho.
    pose proof (hm_used_set _ p (HmOccupied key v) _ Hx) as Hus. cbn in Ho, Hus. rewrite Ex.
    split; cbn [hm_entries hm_count hm_used]; [apply hm_insert_ok; [done|done|done|by rewrite Ex|done]|rewrite Hox in Ho; lia| |rewrite hm_cap_set];
      destruct (hm_is_empty x); lia.
Qed.

Lemma hm_get_ok m M key : map_ok m M -> miku_hashmap_get m key = M !! key.
Proof.
  intros [O _ _ _]. unfold miku_hashmap_get. pose proof (find_key_spec (hm_entries m) M key O) as Hf. destruct (M !! key) as [v|].
  - destruct Hf as (i & -> & Hi). cbn. unfold hm_at. by rewrite Hi.
  - by rewrite Hf.
Qed.

Lemma hm_del_ok m M key : map_ok m M ->
  (miku_hashmap_del m key).1 = (if decide (is_Some (M !! key)) then 0 else -1) /\ map_ok (miku_hashmap_del m key).2 (delete key M).
Proof.
  intros [O Hc Hu Hl]. unfold miku_hashmap_del. pose proof (find_key_spec (hm_entries m) M key O) as Hf. destruct (M !! key) as [v|] eqn:E.
  - destruct Hf as (i & -> & Hi). rewrite decide_True by eauto. split; [done|]. pose proof (hm_occupied_set _ i HmDeleted _ Hi) as Ho.
    pose proof (hm_used_set _ i HmDeleted _ Hi) as Hus. cbn in Ho, Hus.
    split; cbn [hm_entries hm_count hm_used snd]; [by eapply hm_delete_ok|lia|lia|rewrite hm_cap_set; lia].
  - rewrite Hf, decide_False by (by intros [? ?]). split; [done|]. by rewrite delete_id.
Qed.

Lemma foreach_perm m M : map_ok m M -> miku_hashmap_foreach m ≡ₚ map_to_list M.
Proof.
  intros [O _ _ _]. unfold miku_hashmap_foreach. apply NoDup_Permutation.
  - eapply NoDup_fmap_1, occs_nodup, (to_inj _ _ O).
  - apply NoDup_map_to_list.
  - intros [k v]. rewrite elem_occs, elem_of_map_to_list. split; [|apply (to_has _ _ O)]. intros [i Hi]. by apply (to_key _ _ O) in Hi as [? _].
Qed.

Lemma hm_size_ok m M : map_ok m M -> miku_hashmap_size m = Z.of_nat (size M).
Proof.
  intros Hm. unfold miku_hashmap_size. rewrite (mo_count _ _ Hm), occs_total. f_equal. rewrite <- length_map_to_list.
  apply Permutation_length, (foreach_perm m M Hm).
Qed.

Lemma grow_cap_pow n fuel : forall k, 4 <= k -> exists k', 4 <= k' /\ grow_cap fuel (2 ^ k) n = 2 ^ k'.
Proof.
  induction fuel as [|fuel IH]; intros k Hk; [by exists k|]. cbn [grow_cap]. destruct (2 ^ k <? n); [|by exists k].
  replace (2 ^ k * 2) with (2 ^ (k + 1)) by (rewrite Z.pow_add_r by lia; done). apply IH. lia.
Qed.

Lemma hashmap_create_ok n : map_ok (miku_hashmap_create n) ∅.
Proof.
  destruct (grow_cap_pow n 64 4 ltac:(lia)) as (k & Hk & E). unfold miku_hashmap_create. change (2 ^ 4) with 16 in E. rewrite E.
  destruct (hm_fresh_ok k Hk) as (F1 & F2 & F3 & F4). pose proof (hm_pow_pos k Hk). split; cbn [hm_entries hm_count hm_used]; [done|done|done|rewrite F4; lia].
Qed.

(** ** Specification *)

Inductive hm_op := HmPut (key : string) (v : V) | HmDel (key : string) | HmGet (key : string) | HmSize.

(** What a call returns: a status, or a value. *)
Inductive hm_answer := HmStatus (rc : Z) | HmValue (v : option V).

Definition hm_step (m : miku_hashmap) (o : hm_op) : option (hm_answer * miku_hashmap) :=
  match o with
  | HmPut k v => m ← miku_hashmap_put m k v; Some (HmStatus 0, m)
  | HmDel k => let '(rc, m) := miku_hashmap_del m k in Some (HmStatus rc, m)
  | HmGet k => Some (HmValue (miku_hashmap_get m k), m)
  | HmSize => Some (HmStatus (miku_hashmap_size m), m)
  end.

Definition hm_ref_step (M : gmap string V) (o : hm_op) : hm_answer * gmap string V :=
  match o with
  | HmPut k v => (HmStatus 0, <[k:=v]> M)
  | HmDel k => (HmStatus (if decide (is_Some (M !! k)) then 0 else -1), delete k M)
  | HmGet k => (HmValue (M !! k), M)
  | HmSize => (HmStatus (Z.of_nat (size M)), M)
  end.

Fixpoint hm_run (m : miku_hashmap) (ops : list hm_op) : option (list hm_answer * miku_hashmap) :=
  match ops with
  | [] => Some ([], m)
  | o :: ops => '(a, m) ← hm_step m o; '(l, m) ← hm_run m ops; Some (a :: l, m)
  end.

Fixpoint hm_ref_run (M : gmap string V) (ops : list hm_op) : list hm_answer * gmap string V :=
  match ops with
  | [] => ([], M)
  | o :: ops => let '(a, M) := hm_ref_step M o in let '(l, M) := hm_ref_run M ops in (a :: l, M)
  end.

Lemma hm_step_ok m M o : map_ok m M -> exists m', hm_step m o = Some ((hm_ref_step M o).1, m') /\ map_ok m' (hm_ref_step M o).2.
Proof.
  intros Hm. destruct o as [k v|k|k|]; cbn [hm_step hm_ref_step fst snd].
  - destruct (hm_put_ok m M k v Hm) as (m' & -> & H'). by exists m'.
  - destruct (hm_del_ok m M k Hm) as [H1 H2]. destruct (miku_hashmap_del m k) as [rc m']. cbn in *. subst. by exists m'.
  - rewrite (hm_get_ok m M k Hm). by exists m.
  - rewrite (hm_size_ok m M Hm). by exists m.
Qed.

(** C36: The map is a finite map: after any sequence of insertions, deletions and
    lookups, with the table growing and being rebuilt as it fills, every call
    has returned what the same call returns on a finite map, no loop runs for
    ever, and a traversal visits each binding once. *)
Theorem hashmap_refines n ops :
  exists m, hm_run (miku_hashmap_create n) ops = Some ((hm_ref_run ∅ ops).1, m) /\
    miku_hashmap_foreach m ≡ₚ map_to_list (hm_ref_run ∅ ops).2.
Proof.
  enough (forall m M, map_ok m M -> exists m', hm_run m ops = Some ((hm_ref_run M ops).1, m') /\ map_ok m' (hm_ref_run M ops).2) as H.
  { destruct (H _ _ (hashmap_create_ok n)) as (m & E & Hm). exists m. split; [done|by apply foreach_perm]. }
  induction ops as [|o ops IH]; intros m M Hm; [by exists m|]. cbn [hm_run hm_ref_run].
  destruct (hm_step_ok m M o Hm) as (m1 & -> & H1). cbn [mbind option_bind]. destruct (hm_ref_step M o) as [a M1]. cbn [fst snd] in *.
  destruct (IH m1 M1 H1) as (m2 & -> & H2). destruct (hm_ref_run M1 ops) as [l M2]. by exists m2.
Qed.
End HashMap.

Arguments hm_entry V : clear implicits.
Arguments miku_hashmap V : clear implicits.
Arguments hm_op V : clear implicits.

(** ** Interface

    What the clients of the map (the HTTP headers, the route table, the cache)
    rely on: the lookups after an insertion or a deletion, and a traversal that visits every binding
    once, in an order that is not specified. *)

Class StringMap (M : Type -> Type) := {
  sm_create : forall V, Z -> M V;
  sm_put : forall V, M V -> string -> V -> M V;
  sm_get : forall V, M V -> string -> option V;
  sm_del : forall V, M V -> string -> M V;
  sm_bindings : forall V, M V -> list (string * V);
  sm_get_create : forall V n k, sm_get V (sm_create V n) k = None;
  sm_get_put : forall V (m : M V) k v k', sm_get V (sm_put V m k v) k' = if decide (k = k') then Some v else sm_get V m k';
  sm_get_del : forall V (m : M V) k k', sm_get V (sm_del V m k) k' = if decide (k = k') then None else sm_get V m k';
  sm_bindings_get : forall V (m : M V) k v, (k, v) ∈ sm_bindings V m <-> sm_get V m k = Some v;
  sm_bindings_nodup : forall V (m : M V), NoDup (sm_bindings V m).*1 }.

Arguments sm_create {M _ V} n.
Arguments sm_put {M _ V} m k v.
Arguments sm_get {M _ V} m k.
Arguments sm_del {M _ V} m k.
Arguments sm_bindings {M _ V} m.

(** The tables that the operations produce. *)
Definition string_map (V : Type) : Type := { m : miku_hashmap V | exists M, map_ok m M }.

Lemma put_fine {V} (s : string_map V) k v : exists m, miku_hashmap_put (proj1_sig s) k v = Some m /\ exists M, map_ok m M.
Proof. destruct s as [m [M Hm]]. destruct (hm_put_ok m M k v Hm) as (m' & E & H'). by eauto. Qed.

Definition string_map_create {V} (n : Z) : string_map V := exist _ (miku_hashmap_create n) (ex_intro _ ∅ (hashmap_create_ok n)).

(** [miku_hashmap_put] on such a table, where it returns. *)
Definition string_map_put {V} (s : string_map V) (k : string) (v : V) : string_map V :=
  match miku_hashmap_put (proj1_sig s) k v as o return (exists m, o = Some m /\ exists M, map_ok m M) -> string_map V with
  | Some m => fun H => exist _ m (let '(ex_intro _ _ (conj E H)) := H in eq_ind_r (fun x => exists M, map_ok x M) H (Some_inj _ _ E))
  | None => fun H => False_rect _ (let '(ex_intro _ _ (conj E _)) := H in eq_ind None (fun o => match o with None => True | Some _ => False end) I _ E)
  end (put_fine s k v).

Lemma string_map_put_eq {V} (s : string_map V) k v : miku_hashmap_put (proj1_sig s) k v = Some (proj1_sig (string_map_put s k v)).
Proof.
  unfold string_map_put. destruct (put_fine s k v) as (m & E & H). revert E. generalize (put_fine s k v).
  intros e E. destruct (miku_hashmap_put (proj1_sig s) k v) as [m'|]; [done|]. by destruct e as (? & ? & ?).
Qed.

Definition string_map_del {V} (s : string_map V) (k : string) : string_map V :=
  exist _ (miku_hashmap_del (proj1_sig s) k).2
    (let '(ex_intro _ M Hm) := proj2_sig s in ex_intro _ (delete k M) (proj2 (hm_del_ok (proj1_sig s) M k Hm))).

#[export] Program Instance string_map_class : StringMap string_map := {
  sm_create V n := string_map_create n;
  sm_put V s k v := string_map_put s k v;
  sm_get V s k := miku_hashmap_get (proj1_sig s) k;
  sm_del V s k := string_map_del s k;
  sm_bindings V s := miku_hashmap_foreach (proj1_sig s) }.
Next Obligation. intros V n k. etransitivity; [exact (hm_get_ok _ ∅ k (hashmap_create_ok n))|apply lookup_empty]. Qed.
Next Obligation.
  intros V s k v k'. pose proof (string_map_put_eq s k v) as E. destruct (proj2_sig s) as [M Hm].
  destruct (hm_put_ok _ M k v Hm) as (m & E' & H). rewrite E' in E. injection E as E. subst m.
  rewrite (hm_get_ok _ _ k' H), (hm_get_ok _ _ k' Hm). by rewrite lookup_insert.
Qed.
Next Obligation.
  intros V s k k'. destruct (proj2_sig s) as [M Hm]. unfold string_map_del. cbn [proj1_sig].
  rewrite (hm_get_ok _ _ k' (proj2 (hm_del_ok _ M k Hm))), (hm_get_ok _ _ k' Hm). by rewrite lookup_delete.
Qed.
Next Obligation.
  intros V s k v. destruct (proj2_sig s) as [M Hm]. rewrite (hm_get_ok _ _ k Hm), (foreach_perm _ _ Hm). apply elem_of_map_to_list.
Qed.
Next Obligation.
  intros V s. destruct (proj2_sig s) as [M Hm]. rewrite (foreach_perm _ _ Hm). apply NoDup_fst_map_to_list.
Qed.
