(* ===== verification/Uuid.v ===== *)
(** * Identifiers (foundation/miku_uuid.c)

    A version-4 identifier is cut from a pool of 4096 random bytes, refilled
    when fewer than 16 are left; without a source of randomness the bytes come
    from a xorshift generator seeded by the clock.  The bytes the kernel
    returns, the clock and the address that seeds the generator are arguments
    of the call. *)
From Stdlib Require Import Ascii.
From S2P Require Import Prelude Hash Json JsonText Bytes.
#[local] Open Scope list_scope.
#[local] Open Scope Z_scope.

Definition MK_UUID_POOL_SZ : Z := 4096.

(** The pool of a thread; it starts empty. *)
Record uuid_pool := UuidPool { mk_uuid_pool : bytes; mk_uuid_pool_pos : Z }.

Definition empty_pool : uuid_pool := UuidPool (replicate 4096 0) MK_UUID_POOL_SZ.

(** What a call finds: the bytes [getrandom] or /dev/urandom fill the pool
    with, if they do, and the seed of the last resort. *)
Record uuid_source := UuidSource { us_fill : option bytes; us_nsec : Z; us_sec : Z; us_addr : Z }.

(** One byte of the generator: the new state and the byte. *)
Definition xorshift (s : Z) : Z * Z :=
  let s := Z.lxor s (Z.shiftr s 12) in
  let s := Z.lxor s (u64 (Z.shiftl s 25)) in
  let s := Z.lxor s (Z.shiftr s 27) in
  (s, u8 (Z.shiftr (u64 (s * 2685821657736338717)) 33)).

Fixpoint xorshift_bytes (n : nat) (s : Z) : bytes :=
  match n with
  | O => []
  | S n' => let '(s, b) := xorshift s in b :: xorshift_bytes n' s
  end.

Definition fallback_bytes (src : uuid_source) (len : nat) : bytes :=
  xorshift_bytes len
    (Z.lxor (Z.lxor (u64 (us_nsec src * 6364136223846793005)) (u64 (us_sec src * 1442695040888963407))) (u64 (us_addr src))).

(** [out[6] = (out[6] & 0x0F) | 0x40; out[8] = (out[8] & 0x3F) | 0x80]. *)
Definition stamp (out : bytes) : bytes :=
  upd_at (fun b => Z.lor (Z.land b 63) 128) 8 (upd_at (fun b => Z.lor (Z.land b 15) 64) 6 out).

(** The 16 bytes before the version is stamped on them, and the pool after. *)
Definition draw (p : uuid_pool) (src : uuid_source) : bytes * uuid_pool :=
  let p := if MK_UUID_POOL_SZ <? mk_uuid_pool_pos p + 16 then
             match us_fill src with Some b => UuidPool b 0 | None => p end
           else p in
  if MK_UUID_POOL_SZ <? mk_uuid_pool_pos p + 16 then (fallback_bytes src 16, p)
  else (take 16 (drop (Z.to_nat (mk_uuid_pool_pos p)) (mk_uuid_pool p)),
        UuidPool (mk_uuid_pool p) (mk_uuid_pool_pos p + 16)).

Definition miku_uuid_generate_bytes (p : uuid_pool) (src : uuid_source) : bytes * uuid_pool :=
  let '(out, p) := draw p src in (stamp out, p).

Definition hex2 (b : Z) : text := [hex_digit (Z.shiftr b 4); hex_digit (Z.land b 15)].

(** The loop from byte [i] on: a dash after the bytes 3, 5, 7 and 9. *)
Fixpoint uuid_chars (i : Z) (bs : bytes) : text :=
  match bs with
  | [] => []
  | b :: bs => hex2 b ++ (if (i =? 3) || (i =? 5) || (i =? 7) || (i =? 9) then ["-"%char] else []) ++ uuid_chars (i + 1) bs
  end.

Definition miku_uuid_generate (p : uuid_pool) (src : uuid_source) : text * uuid_pool :=
  let '(bytes, p) := miku_uuid_generate_bytes p src in (uuid_chars 0 bytes, p).

(** ** Shape *)

Definition pool_ok (p : uuid_pool) : Prop :=
  length (mk_uuid_pool p) = 4096%nat /\ Forall is_byte (mk_uuid_pool p) /\ 0 <= mk_uuid_pool_pos p.

Definition source_ok (src : uuid_source) : Prop :=
  forall b, us_fill src = Some b -> length b = 4096%nat /\ Forall is_byte b.

Lemma empty_pool_ok : pool_ok empty_pool.
Proof. split_and!; [done|apply list.Forall_replicate; unfold is_byte; lia|done]. Qed.

Lemma xorshift_bytes_ok n : forall s, length (xorshift_bytes n s) = n /\ Forall is_byte (xorshift_bytes n s).
Proof.
  induction n as [|n IH]; intros s; [by split|]. cbn [xorshift_bytes]. destruct (xorshift s) as [s' b] eqn:E.
  destruct (IH s') as [Hl Hf]. split; [cbn; by rewrite Hl|]. constructor; [|done]. injection E as _ <-. apply u8_byte.
Qed.

Lemma fallback_bytes_ok src n : length (fallback_bytes src n) = n /\ Forall is_byte (fallback_bytes src n).
Proof. apply xorshift_bytes_ok. Qed.

Lemma draw_ok p src : pool_ok p -> source_ok src ->
  length (draw p src).1 = 16%nat /\ Forall is_byte (draw p src).1 /\ pool_ok (draw p src).2.
Proof.
  intros Hp Hs. unfold draw.
  set (p' := if MK_UUID_POOL_SZ <? mk_uuid_pool_pos p + 16 then match us_fill src with Some b => UuidPool b 0 | None => p end else p).
  assert (pool_ok p') as (Hl & Hf & Hpos).
  { unfold p'. destruct (MK_UUID_POOL_SZ <? _); [|done]. destruct (us_fill src) as [b|] eqn:E; [|done]. destruct (Hs b E). by split_and!. }
  unfold MK_UUID_POOL_SZ in *. destruct (Z.ltb_spec 4096 (mk_uuid_pool_pos p' + 16)); cbn [fst snd].
  - destruct (fallback_bytes_ok src 16) as [F1 F2]. exact (conj F1 (conj F2 (conj Hl (conj Hf Hpos)))).
  - split_and!; [rewrite length_take, length_drop; lia|by apply list.Forall_take, list.Forall_drop|].
    split_and!; cbn; [done|done|lia].
Qed.

(** The bytes [b0 .. b15] of a draw, spelt out. *)
Lemma sixteen {A} (l : list A) : length l = 16%nat -> exists b0 b1 b2 b3 b4 b5 b6 b7 b8 b9 b10 b11 b12 b13 b14 b15,
  l = [b0; b1; b2; b3; b4; b5; b6; b7; b8; b9; b10; b11; b12; b13; b14; b15].
Proof. intros Hl. do 16 (destruct l as [|? l]; [done|]). destruct l; [|done]. repeat eexists. Qed.

Definition hex_pair_ok (b : Z) : bool :=
  bool_decide (omap hex_val (hex2 b) = [b / 16; b mod 16]) && negb (existsb (Ascii.eqb "-") (hex2 b)).

Lemma hex2_ok b : is_byte b -> omap hex_val (hex2 b) = [b / 16; b mod 16] /\ "-"%char ∉ hex2 b.
Proof.
  intros Hb. assert (forallb hex_pair_ok (seqZ 0 256) = true) as Hall by (vm_compute; reflexivity).
  rewrite forallb_forall in Hall. specialize (Hall b). rewrite <- list_elem_of_In, elem_of_seqZ in Hall. unfold is_byte in Hb.
  apply andb_prop in Hall as [H1%bool_decide_eq_true H2]; [|lia]. split; [done|]. intros Hin.
  apply negb_true_iff in H2. rewrite <- not_true_iff_false, existsb_exists in H2. apply H2. exists "-"%char. by rewrite <- list_elem_of_In.
Qed.

(** The bytes that the characters of an identifier spell. *)
Definition uuid_value (t : text) : list Z := omap hex_val t.

Lemma uuid_chars_value bs : Forall is_byte bs -> forall i, uuid_value (uuid_chars i bs) = mjoin ((fun b => [b / 16; b mod 16]) <$> bs).
Proof.
  induction 1 as [|b bs Hb Hf IH]; intros i; [done|]. cbn [uuid_chars fmap list_fmap mjoin list_join]. unfold uuid_value in *.
  rewrite !omap_app, IH, (proj1 (hex2_ok b Hb)). by destruct ((i =? 3) || (i =? 5) || (i =? 7) || (i =? 9)).
Qed.

Lemma stamp_bytes out : Forall is_byte out -> Forall is_byte (stamp out).
Proof.
  intros Hf. unfold stamp, upd_at. apply list.Forall_alter; [apply list.Forall_alter; [done|]|]; intros b _ _; unfold is_byte.
  - change 256 with (2 ^ 8). apply lor_bound; [lia| |lia]. change 15 with (2 ^ 4 - 1). rewrite land_mask by lia. pose proof (Z.mod_pos_bound b (2 ^ 4)). lia.
  - change 256 with (2 ^ 8). apply lor_bound; [lia| |lia]. change 63 with (2 ^ 6 - 1). rewrite land_mask by lia. pose proof (Z.mod_pos_bound b (2 ^ 6)). lia.
Qed.

Definition version_ok (b : Z) : bool := bool_decide (Z.lor (Z.land b 15) 64 / 16 = 4).
Definition variant_ok (b : Z) : bool := bool_decide (8 <= Z.lor (Z.land b 63) 128 / 16 <= 11).

Lemma stamp_nibbles b : is_byte b -> Z.lor (Z.land b 15) 64 / 16 = 4 /\ 8 <= Z.lor (Z.land b 63) 128 / 16 <= 11.
Proof.
  intros Hb. assert (forallb (fun b => version_ok b && variant_ok b) (seqZ 0 256) = true) as Hall by (vm_compute; reflexivity).
  rewrite forallb_forall in Hall. specialize (Hall b). rewrite <- list_elem_of_In, elem_of_seqZ in Hall. unfold is_byte in Hb.
  apply andb_prop in Hall as [H1%bool_decide_eq_true H2%bool_decide_eq_true]; [done|lia].
Qed.

(** Every identifier has the form of a version-4 UUID: 36 characters, dashes at
    the positions 8, 13, 18 and 23, at the other positions 32 hexadecimal digits
    that spell the stamped bytes, version digit 4 and variant digit 8 to b; with
    randomness or without. *)
Theorem uuid_shape p src : pool_ok p -> source_ok src ->
  let t := (miku_uuid_generate p src).1 in
  length t = 36%nat /\ (forall i, i ∈ [8; 13; 18; 23]%nat -> t !! i = Some "-"%char) /\
  uuid_value t = mjoin ((fun b => [b / 16; b mod 16]) <$> (miku_uuid_generate_bytes p src).1) /\
  length (uuid_value t) = 32%nat /\
  uuid_value t !! 12%nat = Some 4 /\ (exists v, uuid_value t !! 16%nat = Some v /\ 8 <= v <= 11).
Proof.
  intros Hp Hs. cbv zeta. destruct (draw_ok p src Hp Hs) as (Hl & Hf & _). unfold miku_uuid_generate, miku_uuid_generate_bytes.
  destruct (draw p src) as [out p']. cbn [fst] in *. pose proof (stamp_bytes out Hf) as Hs'.
  rewrite uuid_chars_value by done. destruct (sixteen out Hl) as (b0 & b1 & b2 & b3 & b4 & b5 & b6 & b7 & b8 & b9 & b10 & b11 & b12 & b13 & b14 & b15 & ->).
  split_and!; [done| |done|done| |].
  - intros i Hi. repeat (apply elem_of_cons in Hi as [->|Hi]; [done|]). by apply elem_of_nil in Hi.
  - change (Some (Z.lor (Z.land b6 15) 64 / 16) = Some 4). f_equal. apply stamp_nibbles. do 6 (apply list.Forall_cons in Hf as [_ Hf]). by apply list.Forall_cons in Hf as [? _].
  - exists (Z.lor (Z.land b8 63) 128 / 16). split; [reflexivity|]. apply stamp_nibbles. do 8 (apply list.Forall_cons in Hf as [_ Hf]). by apply list.Forall_cons in Hf as [? _].
Qed.

(** ** The pool *)

Fixpoint draws (p : uuid_pool) (srcs : list uuid_source) : bytes :=
  match srcs with
  | [] => []
  | src :: srcs => let '(out, p) := draw p src in out ++ draws p srcs
  end.

Lemma draws_from b k srcs : length b = 4096%nat -> forall pos, 0 <= pos -> length srcs = k -> pos + 16 * Z.of_nat k <= 4096 ->
  draws (UuidPool b pos) srcs = take (16 * k) (drop (Z.to_nat pos) b).
Proof.
  intros Hb. revert k. induction srcs as [|src srcs IH]; intros k pos Hpos <- Hk; [done|]. cbn [draws length] in *.
  unfold draw, MK_UUID_POOL_SZ. cbn [mk_uuid_pool_pos mk_uuid_pool].
  destruct (Z.ltb_spec 4096 (pos + 16)); [lia|]. cbn [mk_uuid_pool_pos mk_uuid_pool].
  destruct (Z.ltb_spec 4096 (pos + 16)); [lia|].
  rewrite (IH (length srcs) (pos + 16)) by lia.
  replace (Z.to_nat (pos + 16)) with (Z.to_nat pos + 16)%nat by lia. rewrite <- drop_drop.
  replace (16 * S (length srcs))%nat with (16 + 16 * length srcs)%nat by lia. by rewrite take_take_drop.
Qed.

(** No random byte is used twice: the identifiers drawn after a refill are cut,
    one after the other, from the bytes of that refill. *)
Theorem uuid_pool_once p src srcs b :
  us_fill src = Some b -> length b = 4096%nat -> MK_UUID_POOL_SZ < mk_uuid_pool_pos p + 16 -> (length srcs < 256)%nat ->
  draws p (src :: srcs) = take (16 * S (length srcs)) b.
Proof.
  intros Hf Hb Hp Hn. transitivity (draws (UuidPool b 0) (src :: srcs)).
  - cbn [draws]. unfold draw. rewrite Hf. destruct (Z.ltb_spec MK_UUID_POOL_SZ (mk_uuid_pool_pos p + 16)); [done|lia].
  - rewrite (draws_from b (S (length srcs))); [done|done|lia|done|lia].
Qed.

Definition ex_fill : bytes := (fun i => Z.land (i * 37 + 11) 255) <$> seqZ 0 4096.
Definition ex_source : uuid_source := UuidSource (Some ex_fill) 0 0 0.
Definition ex_dry : uuid_source := UuidSource None 123456789 1700000000 4096.

Example uuid_dry_text : length (miku_uuid_generate empty_pool ex_dry).1 = 36%nat.
Proof. vm_compute. reflexivity. Qed.

Lemma ex_source_ok : source_ok ex_source.
Proof.
  intros b [= <-]. split; [by vm_compute|]. apply list.Forall_fmap, list.Forall_forall. intros i _. cbn. unfold is_byte.
  change 255 with (2 ^ 8 - 1). rewrite land_mask by lia. pose proof (Z.mod_pos_bound (i * 37 + 11) (2 ^ 8)). lia.
Qed.

Lemma uuid_shape_witness : length (miku_uuid_generate empty_pool ex_source).1 = 36%nat.
Proof. exact (proj1 (uuid_shape empty_pool ex_source empty_pool_ok ex_source_ok)). Defined.

Lemma uuid_pool_once_witness : draws empty_pool [ex_source; ex_source] = take 32 ex_fill.
Proof. apply (uuid_pool_once empty_pool ex_source [ex_source] ex_fill); [reflexivity|vm_compute; reflexivity|reflexivity|cbn; lia]. Defined.
