(* ===== verification/Http.v ===== *)
(** * HTTP messages (protocol/miku_http.c)

    The request parser and the response serializer.  A buffer is a list of
    characters; the fields that point into it are the characters they cover.
    Header names and values are C strings, kept in a string map whose
    operations are those of [StringMap]; a traversal gives the headers in no
    particular order.

    [http_response_framed] reads a serialized response back and finds the
    headers and the body it was made of, whatever bytes the header values hold;
    [http_request_roundtrip] says that a request written in the usual form is
    parsed into its parts. *)
From Stdlib Require Import Ascii String.
From S2P Require Import Prelude Hash HashMap Json JsonText FriendRpc Token TokenSpec.
#[local] Open Scope string_scope.
#[local] Open Scope list_scope.
#[local] Open Scope Z_scope.

Definition CR : ascii := "013".
Definition LF : ascii := "010".
Definition crlf : text := [CR; LF].
Definition crlf2 : text := crlf ++ crlf.

(** The values of [miku_http_method_t]; a request that was not parsed has 0. *)
Definition MK_HTTP_GET : Z := 1.
Definition MK_HTTP_POST : Z := 2.
Definition MK_HTTP_PUT : Z := 3.
Definition MK_HTTP_DELETE : Z := 4.
Definition MK_HTTP_PATCH : Z := 5.
Definition MK_HTTP_HEAD : Z := 6.
Definition MK_HTTP_OPTIONS : Z := 7.

Definition miku_http_method_name (method : Z) : string :=
  if method =? MK_HTTP_GET then "GET"
  else if method =? MK_HTTP_POST then "POST"
  else if method =? MK_HTTP_PUT then "PUT"
  else if method =? MK_HTTP_DELETE then "DELETE"
  else if method =? MK_HTTP_PATCH then "PATCH"
  else if method =? MK_HTTP_HEAD then "HEAD"
  else if method =? MK_HTTP_OPTIONS then "OPTIONS"
  else "UNKNOWN".

(** [len == n && strncasecmp(s, name, n) == 0]. *)
Definition is_word (s : text) (name : string) : bool := bool_decide (to_lower <$> s = to_lower <$> str name).

Definition miku_http_method_from_str (s : text) : Z :=
  if is_word s "GET" then MK_HTTP_GET
  else if is_word s "POST" then MK_HTTP_POST
  else if is_word s "PUT" then MK_HTTP_PUT
  else if is_word s "DELETE" then MK_HTTP_DELETE
  else if is_word s "PATCH" then MK_HTTP_PATCH
  else if is_word s "HEAD" then MK_HTTP_HEAD
  else if is_word s "OPTIONS" then MK_HTTP_OPTIONS
  else MK_HTTP_GET.

Definition miku_http_status_text (status : Z) : string :=
  if status =? 200 then "OK"
  else if status =? 201 then "Created"
  else if status =? 204 then "No Content"
  else if status =? 301 then "Moved Permanently"
  else if status =? 302 then "Found"
  else if status =? 304 then "Not Modified"
  else if status =? 400 then "Bad Request"
  else if status =? 401 then "Unauthorized"
  else if status =? 403 then "Forbidden"
  else if status =? 404 then "Not Found"
  else if status =? 405 then "Method Not Allowed"
  else if status =? 429 then "Too Many Requests"
  else if status =? 500 then "Internal Server Error"
  else if status =? 502 then "Bad Gateway"
  else if status =? 503 then "Service Unavailable"
  else "Unknown".

(** [memmem(t, w)]: where [w] first occurs. *)
Fixpoint memmem (w t : text) : option nat :=
  if starts_with w t then Some O
  else match t with [] => None | _ :: t => S <$> memmem w t end.

Definition cons_line (c : ascii) (ls : list text) : list text :=
  match ls with l :: ls => (c :: l) :: ls | [] => [[c]] end.

(** The header block cut at every CR LF. *)
Fixpoint header_lines (p : text) : list text :=
  match p with
  | [] => [[]]
  | c :: q =>
      match q with
      | d :: r => if Ascii.eqb c CR && Ascii.eqb d LF then [] :: header_lines r else cons_line c (header_lines q)
      | [] => [[c]]
      end
  end.

(** [while (vlen > 0 && val[0] == ' ')]. *)
Fixpoint skip_blanks (t : text) : text :=
  match t with
  | c :: t' => if Ascii.eqb c " " then skip_blanks t' else t
  | [] => []
  end.

Definition lowercase (s : string) : string := string_of_list_ascii (to_lower <$> str s).

Section Http.
Context {M : Type -> Type} {SM : StringMap M}.

Record miku_http_request := HttpReq {
  hq_method : Z; hq_path : text; hq_query_string : text; hq_body : text; hq_version : Z; hq_headers : M string }.

Record miku_http_response := HttpResp { hs_status : Z; hs_body : text; hs_headers : M string }.

(** ** Requests *)

Definition miku_http_request_create : miku_http_request := HttpReq 0 [] [] [] 11 (sm_create 16).

(** None is false: the line has fewer than two spaces. *)
Definition parse_request_line (req : miku_http_request) (line : text) : option miku_http_request :=
  '(m, rest) ← cut_at " " line;
  if nil_b rest then None
  else
    '(p, _) ← cut_at " " rest;
    let method := miku_http_method_from_str m in
    match cut_at "?" p with
    | Some (p, q) => Some (HttpReq method p q (hq_body req) (hq_version req) (hq_headers req))
    | None => Some (HttpReq method p (hq_query_string req) (hq_body req) (hq_version req) (hq_headers req))
    end.

(** A line without a colon changes nothing (the caller ignores the result). *)
Definition parse_header (req : miku_http_request) (line : text) : miku_http_request :=
  match cut_at ":" line with
  | None => req
  | Some (k, v) =>
      HttpReq (hq_method req) (hq_path req) (hq_query_string req) (hq_body req) (hq_version req)
              (sm_put (hq_headers req) (lowercase (cstr k)) (cstr (skip_blanks v)))
  end.

(** The loop over the lines: the first is the request line, the empty ones are
    skipped.  The request keeps what was stored before a failure. *)
Fixpoint parse_lines (req : miku_http_request) (line_count : nat) (ls : list text) : bool * miku_http_request :=
  match ls with
  | [] => (true, req)
  | l :: ls =>
      if nil_b l then parse_lines req (S line_count) ls
      else
        match line_count with
        | O => match parse_request_line req l with
               | None => (false, req)
               | Some req => parse_lines req 1 ls
               end
        | S _ => parse_lines (parse_header req l) (S line_count) ls
        end
  end.

Definition with_body (req : miku_http_request) (b : text) : miku_http_request :=
  HttpReq (hq_method req) (hq_path req) (hq_query_string req) b (hq_version req) (hq_headers req).

Definition miku_http_request_parse (req : miku_http_request) (data : text) : Z * miku_http_request :=
  match memmem crlf2 data with
  | None => (0, req)
  | Some hdr_len =>
      let '(ok, req) := parse_lines req 0 (header_lines (take hdr_len data)) in
      if ok then
        (i32 (Z.of_nat hdr_len + 4),
         if (hdr_len + 4 <? length data)%nat then with_body req (drop (hdr_len + 4) data) else req)
      else (-1, req)
  end.

(** ** Responses *)

Definition miku_http_response_create : miku_http_response := HttpResp 200 [] (sm_create 8).

Definition put_header (resp : miku_http_response) (k v : string) : miku_http_response :=
  HttpResp (hs_status resp) (hs_body resp) (sm_put (hs_headers resp) k v).

Definition set_status (resp : miku_http_response) (status : Z) : miku_http_response :=
  HttpResp status (hs_body resp) (hs_headers resp).

Definition miku_http_response_set_json (resp : miku_http_response) (json : text) : miku_http_response :=
  put_header (HttpResp (hs_status resp) (str (cstr json)) (hs_headers resp)) "Content-Type" "application/json".

Definition header_is_safe (s : string) : bool :=
  forallb (fun c => negb (Ascii.eqb c CR || Ascii.eqb c LF)) (str s).

Definition header_text (h : string * string) : text := str h.1 ++ str ": " ++ str h.2.

(** One header of the traversal; dropped when it holds a CR or LF. *)
Definition add_header_cb (s : text) (h : string * string) : text :=
  if header_is_safe h.1 && header_is_safe h.2 then s ++ header_text h ++ crlf else s.

Definition status_line (resp : miku_http_response) : text :=
  str "HTTP/1.1 " ++ fmt_lld (hs_status resp) ++ str " " ++ str (miku_http_status_text (hs_status resp)).

Definition length_line (resp : miku_http_response) : text :=
  str "Content-Length: " ++ fmt_lld (Z.of_nat (length (hs_body resp))).

Definition miku_http_response_serialize (resp : miku_http_response) : text :=
  let s := status_line resp ++ crlf in
  let s := foldl add_header_cb s (sm_bindings (hs_headers resp)) in
  s ++ length_line resp ++ crlf ++ crlf ++ hs_body resp.

(** ** Lines *)

Definition one_line (l : text) : Prop := l <> [] /\ CR ∉ l.

(** Lines, each ended by CR LF. *)
Definition joined (ls : list text) : text := mjoin ((fun l => l ++ crlf) <$> ls).

Lemma joined_cons l ls : joined (l :: ls) = l ++ crlf ++ joined ls.
Proof. unfold joined. cbn [fmap list_fmap mjoin list_join]. by rewrite <- app_assoc. Qed.

Lemma crlf2_head l t : CR ∉ l -> l <> [] -> starts_with crlf2 (l ++ t) = false.
Proof.
  intros Hl Hn. destruct l as [|c l]; [done|]. apply bool_decide_eq_false. cbn. intros E. injection E as E _. subst.
  apply Hl, list_elem_of_here.
Qed.

Lemma memmem_line l t : CR ∉ l -> memmem crlf2 (l ++ crlf ++ t) = (fun i => length l + i)%nat <$> memmem crlf2 (crlf ++ t).
Proof.
  induction l as [|c l IH]; intros Hl; [symmetry; apply option_fmap_id|].
  apply not_elem_of_cons in Hl as [Hc Hl]. cbn [app memmem].
  pose proof (crlf2_head [c] (l ++ crlf ++ t)) as E. cbn [app] in E. rewrite E; [|set_solver|done].
  rewrite IH by done. by destruct (memmem crlf2 (crlf ++ t)).
Qed.

Lemma memmem_crlf l t : one_line l -> memmem crlf2 (crlf ++ l ++ t) = (fun i => 2 + i)%nat <$> memmem crlf2 (l ++ t).
Proof.
  intros [Hn Hl]. cbn [crlf app memmem]. destruct l as [|c l]; [done|]. apply not_elem_of_cons in Hl as [Hc _].
  replace (starts_with crlf2 (CR :: LF :: (c :: l) ++ t)) with false
    by (symmetry; apply bool_decide_eq_false; unfold crlf2; cbn; intros [= E]; congruence).
  replace (starts_with crlf2 (LF :: (c :: l) ++ t)) with false by (symmetry; apply bool_decide_eq_false; cbn; done).
  by destruct (memmem crlf2 ((c :: l) ++ t)).
Qed.

Lemma memmem_end t : memmem crlf2 (crlf ++ crlf ++ t) = Some 0%nat.
Proof. done. Qed.

(** The blank line after some lines is the first one. *)
Lemma memmem_joined ls l t : Forall one_line (ls ++ [l]) ->
  memmem crlf2 (joined ls ++ l ++ crlf2 ++ t) = Some (length (joined ls ++ l)).
Proof.
  induction ls as [|x ls IH]; intros Hf.
  - apply list.Forall_cons in Hf as [[_ Hl] _]. change (joined []) with (@nil ascii). cbn [app]. change (crlf2 ++ t) with (crlf ++ crlf ++ t). rewrite memmem_line by done.
    rewrite memmem_end. cbn. f_equal. lia.
  - apply list.Forall_cons in Hf as [Hx Hf]. specialize (IH Hf). unfold joined in *. cbn [fmap list_fmap mjoin list_join app].
    rewrite <- !app_assoc, memmem_line by apply Hx.
    set (rest := mjoin ((fun l => l ++ crlf) <$> ls) ++ l ++ crlf2 ++ t) in *.
    assert (exists y k, one_line y /\ rest = y ++ k) as (y & k & Hy & Ey).
    { unfold rest. destruct ls as [|y ls]; cbn [fmap list_fmap mjoin list_join app] in *; apply list.Forall_cons in Hf as [Hy _];
        [by exists l, (crlf2 ++ t)|]. exists y. eexists. split; [done|]. by rewrite <- !app_assoc. }
    rewrite Ey, memmem_crlf, <- Ey, IH by done. change (length crlf) with 2%nat. cbn [fmap option_fmap option_map]. f_equal. rewrite !length_app. change (length crlf) with 2%nat. reflexivity.
Qed.

Lemma lines_line l : CR ∉ l -> header_lines l = [l].
Proof.
  induction l as [|c l IH]; intros Hl; [done|]. apply not_elem_of_cons in Hl as [Hc Hl]. cbn [header_lines].
  destruct l as [|d l]; [done|]. replace (Ascii.eqb c CR) with false by (symmetry; apply Ascii.eqb_neq; congruence).
  cbn [andb]. by rewrite IH.
Qed.

Lemma lines_crlf l t : CR ∉ l -> header_lines (l ++ crlf ++ t) = l :: header_lines t.
Proof.
  induction l as [|c l IH]; intros Hl; [done|]. apply not_elem_of_cons in Hl as [Hc Hl]. cbn [app header_lines].
  rewrite IH by done. replace (Ascii.eqb c CR) with false by (symmetry; apply Ascii.eqb_neq; congruence).
  by destruct l.
Qed.

(** Cutting joined lines gives the lines. *)
Lemma lines_joined ls l : Forall one_line (ls ++ [l]) -> header_lines (joined ls ++ l) = ls ++ [l].
Proof.
  induction ls as [|x ls IH]; intros Hf; apply list.Forall_cons in Hf as [[_ Hx] Hf]; [by apply lines_line|].
  rewrite joined_cons, <- !app_assoc, lines_crlf by done. by rewrite IH.
Qed.

(** ** Serialized responses *)

Definition safe_header (h : string * string) : Prop := header_is_safe h.1 && header_is_safe h.2 = true.

#[export] Instance safe_header_dec h : Decision (safe_header h).
Proof. apply _. Defined.

Lemma add_headers_joined hs s : foldl add_header_cb s hs = s ++ joined (header_text <$> filter safe_header hs).
Proof.
  revert s. induction hs as [|h hs IH]; intros s; [by rewrite app_nil_r|]. cbn [foldl]. rewrite IH. unfold add_header_cb.
  rewrite filter_cons. unfold safe_header at 2. case_decide as E; [|by destruct (header_is_safe h.1 && header_is_safe h.2)].
  rewrite E. cbn [fmap list_fmap joined mjoin list_join]. unfold joined. by rewrite <- !app_assoc.
Qed.

Lemma safe_no_cr s : header_is_safe s = true -> CR ∉ str s.
Proof.
  unfold header_is_safe. intros Hs Hin. rewrite forallb_forall in Hs. specialize (Hs CR ltac:(by apply list_elem_of_In)). by vm_compute in Hs.
Qed.

Lemma no_cr_app (a b : text) : CR ∉ a -> CR ∉ b -> CR ∉ a ++ b.
Proof. rewrite elem_of_app. tauto. Qed.

(** A character that is neither a digit nor the sign is in no number. *)
Definition not_digit (c : ascii) : bool := forallb (fun d => negb (Ascii.eqb (digit d) c)) [0;1;2;3;4;5;6;7;8;9].

Lemma digit_not c d : not_digit c = true -> 0 <= d < 10 -> digit d <> c.
Proof.
  intros Hc Hd E. unfold not_digit in Hc. rewrite forallb_forall in Hc. specialize (Hc d).
  rewrite E, Ascii.eqb_refl in Hc. assert (In d [0;1;2;3;4;5;6;7;8;9]) as Hin by (cbn; lia). by specialize (Hc Hin).
Qed.

Lemma dec_digits_not c fuel : not_digit c = true -> forall n, 0 <= n -> c ∉ dec_digits fuel n.
Proof.
  intros Hc. induction fuel as [|fuel IH]; intros n Hn; [by intros ?%elem_of_nil|]. cbn [dec_digits]. destruct (Z.ltb_spec n 10).
  - rewrite list_elem_of_singleton. intros E. by apply (digit_not c n).
  - rewrite elem_of_app, list_elem_of_singleton. intros [Hin|E]; [by apply (IH (n / 10)); [apply Z.div_pos; lia|]|].
    by apply (digit_not c (n mod 10)); [|apply Z.mod_pos_bound; lia|].
Qed.

Lemma fmt_not c z : not_digit c = true -> c <> "-"%char -> c ∉ fmt_lld z.
Proof.
  intros Hc Hm. unfold fmt_lld. destruct (Z.ltb_spec z 0); [|by apply dec_digits_not]. apply not_elem_of_cons.
  split; [done|apply dec_digits_not; [done|lia]].
Qed.

Lemma fmt_no_cr z : CR ∉ fmt_lld z.
Proof. by apply fmt_not. Qed.

Lemma literal_no_cr t : forallb (fun c => negb (Ascii.eqb c CR)) t = true -> CR ∉ t.
Proof. intros Ht Hin. rewrite forallb_forall in Ht. specialize (Ht CR ltac:(by apply list_elem_of_In)). done. Qed.

Lemma status_text_no_cr z : CR ∉ str (miku_http_status_text z).
Proof. unfold miku_http_status_text. repeat case_match; by apply literal_no_cr. Qed.

Lemma response_lines_ok resp :
  Forall one_line ((status_line resp :: (header_text <$> filter safe_header (sm_bindings (hs_headers resp)))) ++ [length_line resp]).
Proof.
  apply list.Forall_app. split; [apply list.Forall_cons; split|apply list.Forall_singleton].
  - split; [done|]. unfold status_line. repeat apply no_cr_app;
      [by apply literal_no_cr|apply fmt_no_cr|by apply literal_no_cr|apply status_text_no_cr].
  - apply list.Forall_fmap, list.Forall_forall. intros h [Hs _]%list_elem_of_filter. apply andb_prop in Hs as [H1 H2]. cbn. split.
    + unfold header_text. destruct (str h.1); done.
    + unfold header_text. repeat apply no_cr_app; [by apply safe_no_cr|by apply literal_no_cr|by apply safe_no_cr].
  - split; [done|]. unfold length_line. apply no_cr_app; [by apply literal_no_cr|apply fmt_no_cr].
Qed.

Lemma serialize_joined resp :
  miku_http_response_serialize resp =
  joined (status_line resp :: (header_text <$> filter safe_header (sm_bindings (hs_headers resp)))) ++ length_line resp ++ crlf2 ++ hs_body resp.
Proof.
  unfold miku_http_response_serialize. cbv zeta. rewrite add_headers_joined. unfold joined, crlf2. cbn [fmap list_fmap mjoin list_join].
  by rewrite <- !app_assoc.
Qed.

(** C18: A response cannot be split: cutting the bytes of any response at the first
    blank line and the part before it at the line ends gives the status line,
    one line for each header without CR and LF, each stored header at most
    once, the length of the body, and after the blank line the body.  No
    header value adds a line or ends the headers. *)
Theorem http_response_framed resp :
  let out := miku_http_response_serialize resp in
  exists i, memmem crlf2 out = Some i /\
    header_lines (take i out) =
      (status_line resp :: (header_text <$> filter safe_header (sm_bindings (hs_headers resp)))) ++ [length_line resp] /\
    NoDup (filter safe_header (sm_bindings (hs_headers resp))).*1 /\
    (forall k v, (k, v) ∈ filter safe_header (sm_bindings (hs_headers resp)) <->
       sm_get (hs_headers resp) k = Some v /\ header_is_safe k = true /\ header_is_safe v = true) /\
    drop (i + 4) out = hs_body resp.
Proof.
  cbv zeta. pose proof (response_lines_ok resp) as Hf. rewrite serialize_joined.
  set (ls := status_line resp :: (header_text <$> filter safe_header (sm_bindings (hs_headers resp)))) in *.
  exists (length (joined ls ++ length_line resp)). split_and!.
  - by apply memmem_joined.
  - rewrite app_assoc, take_app_length. by apply lines_joined.
  - apply NoDup_fmap_filter, sm_bindings_nodup.
  - intros k v. rewrite list_elem_of_filter, sm_bindings_get. unfold safe_header. cbn [fst snd]. rewrite andb_true_iff. tauto.
  - rewrite (app_assoc (joined ls)), drop_app. rewrite drop_ge by lia. cbn [app].
    replace (_ + 4 - _)%nat with 4%nat by lia. done.
Qed.

(** ** Parsed requests *)

Definition target_text (path : text) (query : option text) : text :=
  path ++ match query with Some q => "?"%char :: q | None => [] end.

Definition request_line (m : Z) (path : text) (query : option text) : text :=
  str (miku_http_method_name m) ++ (" "%char :: target_text path query ++ (" "%char :: str "HTTP/1.1")).

(** A request as a client writes it. *)
Definition request_text (m : Z) (path : text) (query : option text) (hs : list (string * string)) (body : text) : text :=
  joined (request_line m path query :: (header_text <$> hs)) ++ crlf ++ body.

Definition clean_header (h : string * string) : Prop :=
  ":"%char ∉ str h.1 /\ CR ∉ str h.1 /\ no_nul h.1 /\ CR ∉ str h.2 /\ no_nul h.2 /\ head (str h.2) <> Some " "%char.

#[export] Instance clean_header_dec h : Decision (clean_header h).
Proof. unfold clean_header, no_nul. apply _. Defined.

Lemma joined_snoc ls l t : joined (ls ++ [l]) ++ crlf ++ t = joined ls ++ l ++ crlf2 ++ t.
Proof.
  induction ls as [|x ls IH].
  - change ([] ++ [l]) with [l]. rewrite joined_cons. unfold crlf2. by rewrite <- !app_assoc.
  - change ((x :: ls) ++ [l]) with (x :: (ls ++ [l])). rewrite !joined_cons, <- !app_assoc. by rewrite IH.
Qed.

Lemma cut_at_none c t : c ∉ t -> cut_at c t = None.
Proof.
  induction t as [|x t IH]; intros Hc; [done|]. apply not_elem_of_cons in Hc as [Hx Hc]. cbn [cut_at].
  rewrite (proj2 (Ascii.eqb_neq x c)) by congruence. by rewrite IH.
Qed.

Lemma method_name_roundtrip m : 1 <= m <= 7 ->
  miku_http_method_from_str (str (miku_http_method_name m)) = m /\ CR ∉ str (miku_http_method_name m) /\
  " "%char ∉ str (miku_http_method_name m).
Proof.
  intros Hm. assert (m ∈ [1;2;3;4;5;6;7]) as Hin by (rewrite !elem_of_cons; lia).
  repeat (apply elem_of_cons in Hin as [->|Hin]; [split_and!; [by vm_compute|by apply literal_no_cr|by apply (bool_decide_unpack _)]|]).
  by apply elem_of_nil in Hin.
Qed.

Lemma parse_request_line_ok req m path query : 1 <= m <= 7 -> " "%char ∉ path -> "?"%char ∉ path ->
  (forall q, query = Some q -> " "%char ∉ q) ->
  parse_request_line req (request_line m path query) =
  Some (HttpReq m path (default (hq_query_string req) query) (hq_body req) (hq_version req) (hq_headers req)).
Proof.
  intros Hm Hp Hq Hqs. destruct (method_name_roundtrip m Hm) as (Em & _ & Hs). unfold parse_request_line, request_line.
  rewrite cut_at_app by done. cbn [mbind option_bind].
  assert (nil_b (target_text path query ++ (" "%char :: str "HTTP/1.1")) = false) as -> by (destruct (target_text path query); done).
  assert (" "%char ∉ target_text path query) as Ht.
  { unfold target_text. rewrite elem_of_app. intros [?|Hin]; [done|]. destruct query as [q|]; [|by apply elem_of_nil in Hin].
    apply elem_of_cons in Hin as [?|Hin]; [done|by apply (Hqs q)]. }
  rewrite cut_at_app by done. cbn [mbind option_bind]. rewrite Em. unfold target_text. destruct query as [q|].
  - by rewrite cut_at_app.
  - by rewrite app_nil_r, cut_at_none.
Qed.

Lemma parse_header_ok req h : clean_header h ->
  parse_header req (header_text h) =
  HttpReq (hq_method req) (hq_path req) (hq_query_string req) (hq_body req) (hq_version req)
          (sm_put (hq_headers req) (lowercase h.1) h.2).
Proof.
  intros (H1 & _ & H2 & _ & H3 & H4). unfold parse_header, header_text.
  change (str ": ") with (":"%char :: str " "). cbn [app]. rewrite cut_at_app by done.
  assert (skip_blanks (str " " ++ str h.2) = str h.2) as ->.
  { cbn. destruct (str h.2) as [|c t] eqn:E; [done|]. cbn in H4 |- *. rewrite (proj2 (Ascii.eqb_neq c " ")) by congruence. done. }
  by rewrite !cstr_str.
Qed.

Definition put_all (m : M string) (hs : list (string * string)) : M string :=
  foldl (fun m h => sm_put m (lowercase h.1) h.2) m hs.

Lemma parse_headers_ok hs n : Forall clean_header hs -> forall req,
  parse_lines req (S n) (header_text <$> hs) =
  (true, HttpReq (hq_method req) (hq_path req) (hq_query_string req) (hq_body req) (hq_version req) (put_all (hq_headers req) hs)).
Proof.
  intros Hf. revert n. induction Hf as [|h hs Hh Hf IH]; intros n req; [by destruct req|]. cbn [fmap list_fmap parse_lines].
  assert (nil_b (header_text h) = false) as -> by (unfold header_text; by destruct (str h.1)).
  rewrite parse_header_ok by done. apply IH.
Qed.

Lemma put_all_get hs : forall m k, sm_get (put_all m hs) k =
  match list.last (filter (fun h => lowercase h.1 = k) hs) with Some h => Some h.2 | None => sm_get m k end.
Proof.
  induction hs as [|h hs IH]; intros m k; [done|]. unfold put_all in *. cbn [foldl]. rewrite IH, filter_cons, sm_get_put.
  case_decide as E.
  - rewrite list.last_cons. by destruct (list.last _).
  - done.
Qed.

Lemma clean_line h : clean_header h -> one_line (header_text h).
Proof.
  intros (_ & H1 & _ & H2 & _). unfold header_text. split; [by destruct (str h.1)|].
  repeat apply no_cr_app; [done|by apply literal_no_cr|done].
Qed.

(** C34: A request in the form clients write, a method, a target with or without a
    query, headers and a body of any bytes, is parsed into these parts: the
    headers are found under their lower-case names, the last of two with the
    same name counts, and the result is the length of the head. *)
Theorem http_request_roundtrip m path query hs body :
  1 <= m <= 7 -> " "%char ∉ path -> "?"%char ∉ path -> CR ∉ path ->
  (forall q, query = Some q -> " "%char ∉ q /\ CR ∉ q) -> Forall clean_header hs ->
  exists req,
    miku_http_request_parse miku_http_request_create (request_text m path query hs body) =
      (i32 (Z.of_nat (length (request_text m path query hs []))), req) /\
    hq_method req = m /\ hq_path req = path /\ hq_query_string req = default [] query /\ hq_body req = body /\
    forall k, sm_get (hq_headers req) k = snd <$> list.last (filter (fun h => lowercase h.1 = k) hs).
Proof.
  intros Hm Hp1 Hp2 Hp3 Hq Hf. set (ls := request_line m path query :: (header_text <$> hs)).
  assert (Forall one_line ls) as Hls.
  { apply list.Forall_cons. split; [|apply list.Forall_fmap; eapply list.Forall_impl; [exact Hf|intros h; apply clean_line]].
    destruct (method_name_roundtrip m Hm) as (_ & Hc & _). unfold request_line, target_text. split; [by destruct (str _)|].
    apply no_cr_app; [done|]. apply not_elem_of_cons. split; [done|]. apply no_cr_app; [apply no_cr_app; [done|]|by apply literal_no_cr].
    destruct query as [q|]; [|by intros ?%elem_of_nil]. apply not_elem_of_cons. split; [done|by apply (Hq q)]. }
  destruct (exists_last (l := ls)) as (ls' & l & El); [done|]. fold ls. unfold request_text, miku_http_request_parse. fold ls.
  rewrite El in *. rewrite !joined_snoc, memmem_joined by done.
  rewrite app_assoc, take_app_length, lines_joined, <- El by done. unfold ls at 1. cbn [parse_lines].
  assert (nil_b (request_line m path query) = false) as -> by (unfold request_line; by destruct (str _)).
  rewrite parse_request_line_ok by (try done; intros q E; by apply (Hq q)). rewrite parse_headers_ok by done.
  cbn [hq_method hq_path hq_query_string hq_body hq_version hq_headers miku_http_request_create].
  eexists. split.
  - f_equal. f_equal. rewrite app_nil_r, !length_app. change (length crlf2) with 4%nat. lia.
  - rewrite drop_app, drop_ge by lia. replace (_ + 4 - _)%nat with 4%nat by lia. cbn [app].
    change (drop 4 (crlf2 ++ body)) with body.
    assert (hq_body (if (length (joined ls' ++ l) + 4 <? length ((joined ls' ++ l) ++ crlf2 ++ body))%nat
      then with_body (HttpReq m path (default [] query) [] 11 (put_all (sm_create 16) hs)) body
      else HttpReq m path (default [] query) [] 11 (put_all (sm_create 16) hs)) = body) as Hb.
    { destruct (Nat.ltb_spec (length (joined ls' ++ l) + 4) (length ((joined ls' ++ l) ++ crlf2 ++ body))) as [|Hlt]; [done|].
      rewrite (length_app _ (crlf2 ++ body)), length_app in Hlt. change (length crlf2) with 4%nat in Hlt. destruct body; [done|cbn in Hlt; lia]. }
    split_and!; [by case_match|by case_match|by case_match|exact Hb|].
    intros k. transitivity (sm_get (put_all (sm_create 16) hs) k); [by case_match|]. rewrite put_all_get, sm_get_create. by destruct (list.last _).
Qed.
End Http.

Arguments miku_http_request M : clear implicits.
Arguments miku_http_response M : clear implicits.

(** ** Examples *)

Definition ex_headers : list (string * string) := [("Token", "abc"); ("Content-Length", "2"); ("token", "xyz")].

Lemma http_request_roundtrip_witness : exists req : miku_http_request string_map,
  miku_http_request_parse miku_http_request_create (request_text 2 (str "/msg/send") (Some (str "a=1")) ex_headers (str "{}")) = (74, req) /\
  hq_path req = str "/msg/send" /\ sm_get (hq_headers req) "token" = Some "xyz".
Proof.
  destruct (http_request_roundtrip (M := string_map) 2 (str "/msg/send") (Some (str "a=1")) ex_headers (str "{}"))
    as (req & E & _ & E1 & _ & _ & E2); [lia|by apply (bool_decide_unpack _); vm_compute..| | |].
  - intros q [= <-]. split; by apply (bool_decide_unpack _); vm_compute.
  - by apply (bool_decide_unpack _); vm_compute.
  - exists req. split; [exact E|]. split; [exact E1|]. rewrite E2. by vm_compute.
Defined.

(** A header value with a line end is not written. *)
Definition ex_response : miku_http_response string_map :=
  put_header (put_header miku_http_response_create "X-A" "1") "X-B" (String CR (String LF "Set-Cookie: s=1")).

Example injected_header_dropped : header_lines (take 44 (miku_http_response_serialize ex_response)) =
  [str "HTTP/1.1 200 OK"; str "X-A: 1"; str "Content-Length: 0"; []].
Proof. vm_compute. reflexivity. Qed.
