(* ===== verification/Middleware.v ===== *)
(** * HTTP middleware (protocol/miku_middleware.c, cmd/miku-api/main.c)

    A middleware looks at the request, may change the response and decides
    whether the request goes on.  Its context pointer is an argument; so are
    the clock, the revoked tokens, the secret in the environment and the
    identifier that [miku_uuid_generate] returns.  Log lines are not modelled.

    [auth_gate_exact] says which requests pass the authentication and what the
    others are answered; [request_id_clean] that the identifier echoed in the
    response cannot break its headers. *)
From Stdlib Require Import Ascii String.
From S2P Require Import Prelude Hash HashMap Json JsonText FriendRpc Token TokenSpec Bytes Uuid Http.
#[local] Open Scope string_scope.
#[local] Open Scope list_scope.
#[local] Open Scope Z_scope.

Inductive mw_result := MK_MW_CONTINUE | MK_MW_STOP.

Definition is_stop (r : mw_result) : bool := match r with MK_MW_STOP => true | MK_MW_CONTINUE => false end.

(** [miku_auth_mw_cfg_t]. *)
Record auth_mw_cfg := AuthMwCfg { am_secret : option string; am_enabled : bool }.

(** [miku_rate_limit_cfg_t]. *)
Record rate_limit_cfg := RateLimitCfg { rl_window_ms : Z; rl_max_requests : Z; rl_on : bool }.

(** ** Counters (foundation/miku_stats.c) *)

Record miku_stats := MikuStats {
  ms_requests_total : Z; ms_requests_failed : Z; ms_connections_active : Z; ms_connections_total : Z;
  ms_bytes_sent : Z; ms_bytes_recv : Z }.

Definition miku_stats_init : miku_stats := MikuStats 0 0 0 0 0 0.

Definition miku_stats_request_inc (s : miku_stats) : miku_stats :=
  MikuStats (i64 (ms_requests_total s + 1)) (ms_requests_failed s) (ms_connections_active s) (ms_connections_total s)
            (ms_bytes_sent s) (ms_bytes_recv s).

Definition miku_stats_fail_inc (s : miku_stats) : miku_stats :=
  MikuStats (ms_requests_total s) (i64 (ms_requests_failed s + 1)) (ms_connections_active s) (ms_connections_total s)
            (ms_bytes_sent s) (ms_bytes_recv s).

Definition miku_stats_conn_open (s : miku_stats) : miku_stats :=
  MikuStats (ms_requests_total s) (ms_requests_failed s) (i64 (ms_connections_active s + 1)) (i64 (ms_connections_total s + 1))
            (ms_bytes_sent s) (ms_bytes_recv s).

Definition miku_stats_conn_close (s : miku_stats) : miku_stats :=
  MikuStats (ms_requests_total s) (ms_requests_failed s) (i64 (ms_connections_active s - 1)) (ms_connections_total s)
            (ms_bytes_sent s) (ms_bytes_recv s).

Definition miku_stats_bytes_sent (s : miku_stats) (n : Z) : miku_stats :=
  MikuStats (ms_requests_total s) (ms_requests_failed s) (ms_connections_active s) (ms_connections_total s)
            (i64 (ms_bytes_sent s + n)) (ms_bytes_recv s).

Definition miku_stats_bytes_recv (s : miku_stats) (n : Z) : miku_stats :=
  MikuStats (ms_requests_total s) (ms_requests_failed s) (ms_connections_active s) (ms_connections_total s)
            (ms_bytes_sent s) (i64 (ms_bytes_recv s + n)).

(** What the middleware reads from the process. *)
Record mw_env := MwEnv { me_revokes : revokes; me_now : Z; me_secret : option string; me_uuid : string }.

Section Middleware.
Context {M : Type -> Type} {SM : StringMap M}.

Definition miku_mw_cors (req : miku_http_request M) (resp : miku_http_response M) : mw_result * miku_http_response M :=
  let resp := put_header resp "Access-Control-Allow-Origin" "*" in
  let resp := put_header resp "Access-Control-Allow-Methods" "POST, GET, OPTIONS" in
  let resp := put_header resp "Access-Control-Allow-Headers" "Content-Type, token, operationID" in
  if hq_method req =? MK_HTTP_OPTIONS then (MK_MW_STOP, set_status resp 204) else (MK_MW_CONTINUE, resp).

(** Limiting is left to the handlers: the counter is disabled. *)
Definition miku_mw_rate_limit (cfg : option rate_limit_cfg) (req : miku_http_request M) (resp : miku_http_response M) : mw_result * miku_http_response M :=
  (MK_MW_CONTINUE, resp).

Definition miku_mw_logging (req : miku_http_request M) (resp : miku_http_response M) : mw_result * miku_http_response M := (MK_MW_CONTINUE, resp).

Definition miku_mw_stats (s : option miku_stats) (req : miku_http_request M) (resp : miku_http_response M) : mw_result * miku_http_response M * option miku_stats :=
  (MK_MW_CONTINUE, resp, miku_stats_request_inc <$> s).

Definition path_equals (req : miku_http_request M) (s : string) : bool := bool_decide (hq_path req = str s).

Definition is_public_auth_path (req : miku_http_request M) : bool :=
  path_equals req "/auth/user_token" || path_equals req "/auth/admin_token".

Definition error_body (code : Z) (msg : string) : text :=
  miku_json_stringify (Some (miku_jerr miku_json_create_object code msg)).

Definition auth_reject (resp : miku_http_response M) (msg : string) : miku_http_response M :=
  miku_http_response_set_json (set_status resp 401) (error_body 401 msg).

(** The token header, under its three names. *)
Definition header_token (req : miku_http_request M) : option string :=
  match sm_get (hq_headers req) "token" with
  | Some t => Some t
  | None =>
      match sm_get (hq_headers req) "Token" with
      | Some t => Some t
      | None => sm_get (hq_headers req) "authorization"
      end
  end.

(** [if (strncmp(token, "Bearer ", 7) == 0) token += 7]. *)
Definition strip_bearer (token : string) : string :=
  if starts_with (str "Bearer ") (str token) then string_of_list_ascii (drop 7 (str token)) else token.

Definition mw_secret (env : mw_env) (cfg : auth_mw_cfg) : string :=
  match am_secret cfg with Some s => s | None => miku_token_default_secret (me_secret env) end.

Definition miku_mw_auth (env : mw_env) (cfg : option auth_mw_cfg) (req : miku_http_request M) (resp : miku_http_response M) : mw_result * miku_http_response M :=
  match cfg with
  | None => (MK_MW_CONTINUE, resp)
  | Some cfg =>
      if negb (am_enabled cfg) then (MK_MW_CONTINUE, resp)
      else if is_public_auth_path req then (MK_MW_CONTINUE, resp)
      else if path_equals req "/admin/health" then (MK_MW_CONTINUE, resp)
      else if path_equals req "/version" then (MK_MW_CONTINUE, resp)
      else
        let token := header_token req in
        if negb (given token) then (MK_MW_STOP, auth_reject resp "token is missing or invalid")
        else
          match miku_token_verify (me_revokes env) (Some (strip_bearer (default "" token))) (Some (mw_secret env cfg)) 128 (me_now env) with
          | None => (MK_MW_STOP, auth_reject resp "token is missing or invalid")
          | Some _ => (MK_MW_CONTINUE, resp)
          end
  end.

(** The printable characters at the start of the value, at most 63. *)
Fixpoint copy_printable (n : nat) (t : text) : text :=
  match n, t with
  | S n', c :: t' => if (code c <? 32) || (126 <? code c) then [] else c :: copy_printable n' t'
  | _, _ => []
  end.

Definition request_id (env : mw_env) (req : miku_http_request M) : string :=
  let existing := match sm_get (hq_headers req) "operationid" with
                  | Some v => Some v
                  | None => sm_get (hq_headers req) "x-request-id"
                  end in
  let rid := match existing with Some v => string_of_list_ascii (copy_printable 63 (str v)) | None => "" end in
  if nonempty rid then rid else me_uuid env.

Definition miku_mw_request_id (env : mw_env) (req : miku_http_request M) (resp : miku_http_response M) : mw_result * miku_http_response M :=
  (MK_MW_CONTINUE, put_header resp "X-Request-ID" (request_id env req)).

(** ** Authentication *)

(** The paths that need no token. *)
Definition open_path (req : miku_http_request M) : Prop :=
  hq_path req ∈ str <$> ["/auth/user_token"; "/auth/admin_token"; "/admin/health"; "/version"].

#[export] Instance open_path_dec req : Decision (open_path req).
Proof. apply _. Defined.

(** The request carries a token that verifies under the configured secret. *)
Definition authenticated (env : mw_env) (cfg : auth_mw_cfg) (req : miku_http_request M) : Prop :=
  exists t uid, header_token req = Some t /\ t <> "" /\
    miku_token_verify (me_revokes env) (Some (strip_bearer t)) (Some (mw_secret env cfg)) 128 (me_now env) = Some uid.

Lemma open_path_spec req :
  is_public_auth_path req || path_equals req "/admin/health" || path_equals req "/version" = bool_decide (open_path req).
Proof.
  destruct (decide (open_path req)) as [Hd|Hd]; [rewrite (bool_decide_eq_true_2 _ Hd)|rewrite (bool_decide_eq_false_2 _ Hd)];
    unfold open_path in Hd; unfold is_public_auth_path, path_equals; cbn [fmap list_fmap] in Hd; rewrite !elem_of_cons, elem_of_nil in Hd.
  - rewrite !orb_true_iff, !bool_decide_eq_true. tauto.
  - rewrite !orb_false_iff, !bool_decide_eq_false. tauto.
Qed.

Lemma error_body_plain : str (cstr (error_body 401 "token is missing or invalid")) = error_body 401 "token is missing or invalid".
Proof. vm_compute. reflexivity. Qed.

Lemma auth_reject_ok resp :
  let reject := auth_reject resp "token is missing or invalid" in
  hs_status reject = 401 /\ hs_body reject = error_body 401 "token is missing or invalid" /\
  sm_get (hs_headers reject) "Content-Type" = Some "application/json".
Proof.
  split; [reflexivity|]. split; [exact error_body_plain|]. unfold auth_reject, miku_http_response_set_json, put_header. cbn [hs_headers].
  rewrite sm_get_put. by rewrite decide_True.
Qed.

(** With the check enabled, a request passes, and the response is untouched,
    exactly when its path is one of the four open ones or it carries a token
    that verifies under the configured secret; every other request is stopped
    with status 401 and the JSON error. *)
Theorem auth_gate_exact env cfg req resp : am_enabled cfg = true ->
  (miku_mw_auth env (Some cfg) req resp = (MK_MW_CONTINUE, resp) /\ (open_path req \/ authenticated env cfg req)) \/
  (exists resp', miku_mw_auth env (Some cfg) req resp = (MK_MW_STOP, resp') /\ ~ open_path req /\ ~ authenticated env cfg req /\
     hs_status resp' = 401 /\ hs_body resp' = error_body 401 "token is missing or invalid" /\
     sm_get (hs_headers resp') "Content-Type" = Some "application/json").
Proof.
  intros He. unfold miku_mw_auth. rewrite He. cbn [negb]. pose proof (open_path_spec req) as Ho.
  destruct (is_public_auth_path req); [left; split; [done|left; by apply (bool_decide_eq_true_1 (open_path req))]|].
  destruct (path_equals req "/admin/health"); [left; split; [done|left; by apply (bool_decide_eq_true_1 (open_path req))]|].
  destruct (path_equals req "/version"); [left; split; [done|left; by apply (bool_decide_eq_true_1 (open_path req))]|].
  symmetry in Ho. apply bool_decide_eq_false in Ho.
  destruct (auth_reject_ok resp) as (R1 & R2 & R3). set (reject := auth_reject resp _) in *.
  assert (~ authenticated env cfg req -> exists resp', (MK_MW_STOP, reject) = (MK_MW_STOP, resp') /\ ~ open_path req /\
    ~ authenticated env cfg req /\ hs_status resp' = 401 /\ hs_body resp' = error_body 401 "token is missing or invalid" /\
    sm_get (hs_headers resp') "Content-Type" = Some "application/json") as Hr.
  { intros Ha. exists reject. exact (conj eq_refl (conj Ho (conj Ha (conj R1 (conj R2 R3))))). }
  clearbody reject. unfold authenticated in *. destruct (header_token req) as [t|]; [|right; apply Hr; intros (? & ? & E & _); discriminate E].
  cbn [given default]. destruct (decide (t = "")) as [->|Hne].
  - right. apply Hr. intros (t & ? & [= <-] & Hn & _). exact (Hn eq_refl).
  - assert (nonempty t = true) as -> by (unfold nonempty; by rewrite streq_neq). cbn [negb].
    change (default "" (Some t)) with t. destruct (miku_token_verify _ _ _ _ _) as [uid|] eqn:Ev.
    + left. split; [reflexivity|]. right. exists t, uid. exact (conj eq_refl (conj Hne Ev)).
    + right. apply Hr. intros (t' & uid & [= <-] & _ & Ev'). discriminate (eq_trans (eq_sym Ev) Ev').
Qed.

(** ** Request identifiers *)

Definition plain_char (c : ascii) : bool := (32 <=? code c) && (code c <=? 126).

Lemma plain_safe t : forallb plain_char t = true -> header_is_safe (string_of_list_ascii t) = true.
Proof.
  intros Ht. unfold header_is_safe, str. rewrite list_ascii_of_string_of_list_ascii. rewrite forallb_forall in *. intros c Hc.
  specialize (Ht c Hc). apply negb_true_iff, orb_false_iff. split; apply Ascii.eqb_neq; intros ->; by vm_compute in Ht.
Qed.

Lemma copy_printable_ok n : forall t, forallb plain_char (copy_printable n t) = true /\ (length (copy_printable n t) <= n)%nat.
Proof.
  induction n as [|n IH]; intros [|c t]; cbn [copy_printable]; try (split; [done|cbn; lia]).
  destruct ((code c <? 32) || (126 <? code c)) eqn:E; [split; [done|cbn; lia]|]. destruct (IH t) as [H1 H2].
  apply orb_false_iff in E as [E1%Z.ltb_ge E2%Z.ltb_ge]. split; [|cbn [length]; lia]. cbn [forallb]. rewrite H1, andb_true_r.
  apply andb_true_intro. split; apply Z.leb_le; lia.
Qed.

Lemma copy_printable_id n t : forallb plain_char t = true -> (length t <= n)%nat -> copy_printable n t = t.
Proof.
  revert t. induction n as [|n IH]; intros [|c t] Ht Hn; cbn [length] in *; try done; [lia|]. cbn [forallb] in Ht.
  apply andb_prop in Ht as [Hc Ht]. apply andb_prop in Hc as [H1%Z.leb_le H2%Z.leb_le]. cbn [copy_printable].
  destruct (Z.ltb_spec (code c) 32), (Z.ltb_spec 126 (code c)); try lia. cbn [orb]. rewrite IH by (done || lia). done.
Qed.

Lemma hex2_plain b : is_byte b -> forallb plain_char (hex2 b) = true.
Proof.
  intros Hb. assert (forallb (fun b => forallb plain_char (hex2 b)) (seqZ 0 256) = true) as Hall by (vm_compute; reflexivity).
  rewrite forallb_forall in Hall. apply Hall. rewrite <- list_elem_of_In, elem_of_seqZ. unfold is_byte in Hb. lia.
Qed.

Lemma uuid_plain bs : Forall is_byte bs -> forall i, forallb plain_char (uuid_chars i bs) = true.
Proof.
  induction 1 as [|b bs Hb Hf IH]; intros i; [done|]. cbn [uuid_chars]. rewrite !forallb_app, hex2_plain, IH by done.
  by destruct ((i =? 3) || (i =? 5) || (i =? 7) || (i =? 9)).
Qed.

(** The identifier in the response is one the headers can carry: printable and
    not too long, so that it is written; the client's own identifier is echoed
    unchanged when it is printable and at most 63 characters long, and a fresh
    one is generated when there is none. *)
Theorem request_id_clean env req resp p src : pool_ok p -> source_ok src ->
  str (me_uuid env) = (miku_uuid_generate p src).1 ->
  let resp' := (miku_mw_request_id env req resp).2 in
  exists rid, sm_get (hs_headers resp') "X-Request-ID" = Some rid /\
    ("X-Request-ID", rid) ∈ filter safe_header (sm_bindings (hs_headers resp')) /\
    (1 <= length (str rid) <= 63)%nat /\ forallb plain_char (str rid) = true /\
    (forall v, sm_get (hq_headers req) "operationid" = Some v -> forallb plain_char (str v) = true ->
       (1 <= length (str v) <= 63)%nat -> rid = v) /\
    (sm_get (hq_headers req) "operationid" = None -> sm_get (hq_headers req) "x-request-id" = None -> rid = me_uuid env).
Proof.
  intros Hp Hs Hu. cbv zeta. exists (request_id env req). unfold miku_mw_request_id, put_header. cbn [snd hs_headers].
  destruct (uuid_shape p src Hp Hs) as (Hlen & _). rewrite <- Hu in Hlen.
  assert (forallb plain_char (str (me_uuid env)) = true) as Hup.
  { rewrite Hu. destruct (draw_ok p src Hp Hs) as (_ & Hf & _). unfold miku_uuid_generate, miku_uuid_generate_bytes.
    destruct (draw p src) as [out p']. apply uuid_plain, stamp_bytes, Hf. }
  assert ((1 <= length (str (request_id env req)) <= 63)%nat /\ forallb plain_char (str (request_id env req)) = true) as [Hl Hpl].
  { unfold request_id. set (e := match sm_get _ "operationid" with Some v => Some v | None => _ end). clearbody e.
    assert ((1 <= length (str (me_uuid env)) <= 63)%nat /\ forallb plain_char (str (me_uuid env)) = true) as Hm by (rewrite Hlen; split; [lia|done]).
    destruct e as [v|]; [|exact Hm]. destruct (copy_printable_ok 63 (str v)) as [H1 H2].
    set (c := copy_printable 63 (str v)) in *. clearbody c. destruct (nonempty (string_of_list_ascii c)) eqn:En; [|exact Hm].
    unfold str. rewrite list_ascii_of_string_of_list_ascii. split; [|exact H1]. split; [|exact H2].
    destruct c; [done|cbn; lia]. }
  assert (header_is_safe (request_id env req) = true) as Hsafe.
  { rewrite <- (string_of_list_ascii_of_string (request_id env req)). by apply plain_safe. }
  assert (sm_get (sm_put (hs_headers resp) "X-Request-ID" (request_id env req)) "X-Request-ID" = Some (request_id env req)) as Hg
    by (by rewrite sm_get_put, decide_True).
  split; [exact Hg|]. split; [|split; [exact Hl|split; [exact Hpl|split]]].
  - apply list_elem_of_filter. split; [|by apply sm_bindings_get]. unfold safe_header. cbn [fst snd]. by rewrite Hsafe.
  - intros v Ev Hv Hvl. unfold request_id. rewrite Ev, copy_printable_id by (done || lia).
    unfold str. rewrite string_of_list_ascii_of_string. destruct v; [cbn in Hvl; lia|done].
  - intros E1 E2. unfold request_id. by rewrite E1, E2.
Qed.
End Middleware.
