(* ===== verification/HttpConns.v ===== *)
(** * HTTP server: connection table (protocol/miku_http_server.c)

    The open connections with the time of their last activity, an array kept
    dense by moving its last element, and an index from descriptors to
    positions.  The arrays grow as needed.  [conn_table_refines] relates the
    table to a map from descriptors to times. *)
From S2P Require Import Prelude Hash.
#[local] Open Scope list_scope.
#[local] Open Scope Z_scope.

Definition MIKU_HTTP_FD_MAP : Z := 65536.

(** [conn_fds] and [conn_last_active] up to [conn_count], and [conn_fd_map]. *)
Record conn_table := ConnTable { ct_conns : list (Z * Z); ct_map : gmap Z Z }.

Definition empty_conns : conn_table := ConnTable [] ∅.

Definition conn_count (t : conn_table) : Z := Z.of_nat (length (ct_conns t)).

Definition in_map (fd : Z) : bool := (0 <=? fd) && (fd <? MIKU_HTTP_FD_MAP).

Definition conn_fd_map_set (m : gmap Z Z) (fd idx : Z) : gmap Z Z := if in_map fd then <[fd := i16 idx]> m else m.
Definition conn_fd_map_clear (m : gmap Z Z) (fd : Z) : gmap Z Z := if in_map fd then <[fd := -1]> m else m.

Definition conn_fd_map_get (t : conn_table) (fd : Z) : Z :=
  if negb (in_map fd) then -1
  else
    let idx := (ct_map t).[fd] in
    if (idx <? 0) || (conn_count t <=? idx) || negb (bool_decide (fst <$> at_ (ct_conns t) idx = Some fd)) then -1 else idx.

Definition set_active (now : Z) (c : Z * Z) : Z * Z := (c.1, now).

Definition conn_track_add (now : Z) (t : conn_table) (fd : Z) : conn_table :=
  let existing := conn_fd_map_get t fd in
  if 0 <=? existing then ConnTable (upd_at (set_active now) existing (ct_conns t)) (ct_map t)
  else ConnTable (ct_conns t ++ [(fd, now)]) (conn_fd_map_set (ct_map t) fd (conn_count t)).

(** [for (i = 0; i < conn_count; i++) if (conn_fds[i] == fd) break]. *)
Fixpoint scan_conns (l : list (Z * Z)) (i fd : Z) : Z :=
  match l with
  | [] => i
  | c :: l => if c.1 =? fd then i else scan_conns l (i + 1) fd
  end.

Definition remove_at (t : conn_table) (fd i : Z) : conn_table :=
  let m := conn_fd_map_clear (ct_map t) fd in
  let last := conn_count t - 1 in
  match at_ (ct_conns t) last with
  | Some moved =>
      if i =? last then ConnTable (take (Z.to_nat last) (ct_conns t)) m
      else ConnTable (take (Z.to_nat last) (upd_at (fun _ => moved) i (ct_conns t))) (conn_fd_map_set m moved.1 i)
  | None => t
  end.

Definition conn_track_remove (t : conn_table) (fd : Z) : conn_table :=
  let i := conn_fd_map_get t fd in
  if i <? 0 then
    let i := scan_conns (ct_conns t) 0 fd in
    if conn_count t <=? i then t else remove_at t fd i
  else remove_at t fd i.

Definition conn_track_touch (now : Z) (t : conn_table) (fd : Z) : conn_table :=
  let i := conn_fd_map_get t fd in
  if 0 <=? i then ConnTable (upd_at (set_active now) i (ct_conns t)) (ct_map t)
  else conn_track_add now t fd.

(** The sweep from index [k - 1] down to 0: the table after it and the
    descriptors closed, in order. *)
Fixpoint sweep_from (now timeout_ms : Z) (k : nat) (t : conn_table) : conn_table * list Z :=
  match k with
  | O => (t, [])
  | S i =>
      match ct_conns t !! i with
      | Some (fd, last_active) =>
          if timeout_ms <? now - last_active then
            let '(t, fds) := sweep_from now timeout_ms i (conn_track_remove t fd) in (t, fd :: fds)
          else sweep_from now timeout_ms i t
      | None => sweep_from now timeout_ms i t
      end
  end.

Definition conn_sweep_idle (now idle_timeout_sec : Z) (t : conn_table) : conn_table * list Z :=
  if idle_timeout_sec <=? 0 then (t, []) else sweep_from now (idle_timeout_sec * 1000) (length (ct_conns t)) t.

(** ** Invariant *)

(** Descriptors below the bound: the limit of open files of the process. *)
Definition fd_ok (fd : Z) : Prop := 0 <= fd < 32768.

Record conns_ok (t : conn_table) : Prop := {
  co_nodup : NoDup (ct_conns t).*1;
  co_range : Forall fd_ok (ct_conns t).*1;
  co_index : forall i fd a, at_ (ct_conns t) i = Some (fd, a) -> (ct_map t).[fd] = i }.

(** The table as a map from descriptors to the time of their last activity. *)
Definition conns_map (t : conn_table) : gmap Z Z := list_to_map (ct_conns t).

Lemma conns_lookup t fd a : conns_ok t -> conns_map t !! fd = Some a <-> (fd, a) ∈ ct_conns t.
Proof. intros H. symmetry. apply elem_of_list_to_map, co_nodup, H. Qed.

Lemma elem_at {A} (l : list A) x : x ∈ l <-> exists i, at_ l i = Some x.
Proof.
  rewrite list_elem_of_lookup. split.
  - intros [i Hi]. exists (Z.of_nat i). by rewrite at_of_nat.
  - intros [i [? Hi]%at_Some]. eauto.
Qed.

Lemma fd_in_map fd : fd_ok fd -> in_map fd = true.
Proof. unfold fd_ok, in_map, MIKU_HTTP_FD_MAP. intros ?. apply andb_true_intro. split; [apply Z.leb_le|apply Z.ltb_lt]; lia. Qed.

Lemma map_fd_ok t i fd a : conns_ok t -> at_ (ct_conns t) i = Some (fd, a) -> fd_ok fd.
Proof.
  intros H E. pose proof (co_range _ H) as Hf. rewrite list.Forall_forall in Hf. apply Hf. apply list_elem_of_fmap.
  exists (fd, a). split; [done|]. apply elem_at. eauto.
Qed.

Lemma few_fds l : NoDup l -> Forall fd_ok l -> Z.of_nat (length l) <= 32768.
Proof.
  intros Hn Hr. assert (l ⊆ seqZ 0 32768) as Hs.
  { intros fd Hfd. rewrite list.Forall_forall in Hr. apply Hr in Hfd. apply elem_of_seqZ. unfold fd_ok in Hfd. lia. }
  pose proof (submseteq_length _ _ (NoDup_submseteq _ _ Hn Hs)) as Hl. rewrite length_seqZ in Hl. lia.
Qed.

(** The index finds a connection that is in the table, and only that. *)
Lemma map_get_found t i fd a : conns_ok t -> at_ (ct_conns t) i = Some (fd, a) -> conn_fd_map_get t fd = i.
Proof.
  intros H E. pose proof (at_lt _ _ _ E). unfold conn_fd_map_get. rewrite fd_in_map by (by eapply map_fd_ok). cbn [negb].
  rewrite (co_index _ H _ _ _ E), E. cbn [fmap option_fmap option_map fst]. rewrite bool_decide_eq_true_2 by done.
  unfold conn_count. destruct (Z.ltb_spec i 0); [lia|]. destruct (Z.leb_spec (Z.of_nat (length (ct_conns t))) i); [lia|]. done.
Qed.

Lemma map_get_missing t fd : fd ∉ (ct_conns t).*1 -> conn_fd_map_get t fd = -1.
Proof.
  intros H. unfold conn_fd_map_get. destruct (in_map fd); [|done]. cbn [negb].
  destruct (_ <? 0); [done|]. destruct (conn_count t <=? _); [done|]. cbn [orb]. rewrite bool_decide_eq_false_2; [done|].
  intros E. apply H. destruct (at_ _ _) as [c|] eqn:Ec; [|done]. injection E as <-. apply list_elem_of_fmap.
  exists c. split; [done|]. apply elem_at. eauto.
Qed.

Lemma scan_missing l fd : forall i, fd ∉ l.*1 -> scan_conns l i fd = i + Z.of_nat (length l).
Proof.
  induction l as [|c l IH]; intros i H; cbn [scan_conns]; [cbn; lia|]. cbn in H. apply not_elem_of_cons in H as [H1 H2].
  destruct (Z.eqb_spec c.1 fd); [congruence|]. rewrite IH by done. cbn [length]. lia.
Qed.

Lemma present_cases t fd : (exists i a, at_ (ct_conns t) i = Some (fd, a)) \/ fd ∉ (ct_conns t).*1.
Proof.
  destruct (decide (fd ∈ (ct_conns t).*1)) as [H|H]; [|by right]. left.
  apply list_elem_of_fmap in H as ([fd' a] & -> & H). apply elem_at in H as [i Hi]. eauto.
Qed.

(** ** Operations *)

Lemma conn_update_ok t now i fd a : conns_ok t -> at_ (ct_conns t) i = Some (fd, a) ->
  let t' := ConnTable (upd_at (set_active now) i (ct_conns t)) (ct_map t) in
  conns_ok t' /\ conns_map t' = <[fd := now]> (conns_map t).
Proof.
  intros H E. cbv zeta. pose proof (at_lt _ _ _ E). assert ((upd_at (set_active now) i (ct_conns t)).*1 = (ct_conns t).*1) as Ef.
  { apply fmap_upd_at; [done|lia]. }
  assert (conns_ok (ConnTable (upd_at (set_active now) i (ct_conns t)) (ct_map t))) as H'.
  { split; cbn [ct_conns ct_map]; rewrite ?Ef; [apply H|apply H|]. intros j fd' a' Ej.
    destruct (decide (j = i)) as [->|Hne].
    - rewrite (at_upd_eq _ _ _ _ E) in Ej. injection Ej as <- <-. by apply (co_index _ H _ _ a).
    - rewrite at_upd_ne in Ej by lia. by apply (co_index _ H _ _ a'). }
  split; [done|]. apply map_eq. intros k. apply option_eq. intros x. rewrite conns_lookup by done. cbn [ct_conns].
  rewrite lookup_insert_Some, conns_lookup by done. rewrite !elem_at. split.
  - intros [j Hj]. destruct (decide (j = i)) as [->|Hne].
    + rewrite (at_upd_eq _ _ _ _ E) in Hj. injection Hj as <- <-. by left.
    + rewrite at_upd_ne in Hj by lia. right. split; [|eauto]. intros <-. apply Hne.
      transitivity ((ct_map t).[fd]); [symmetry; by apply (co_index _ H _ _ x)|by apply (co_index _ H _ _ a)].
  - intros [[<- <-]|[Hne [j Hj]]].
    + exists i. by rewrite (at_upd_eq _ _ _ _ E).
    + exists j. rewrite at_upd_ne; [done| |lia]. intros <-. rewrite E in Hj. by injection Hj as -> _.
Qed.

Lemma conn_append_ok t now fd : conns_ok t -> fd_ok fd -> fd ∉ (ct_conns t).*1 ->
  let t' := ConnTable (ct_conns t ++ [(fd, now)]) (conn_fd_map_set (ct_map t) fd (conn_count t)) in
  conns_ok t' /\ conns_map t' = <[fd := now]> (conns_map t).
Proof.
  intros H Hfd Hn. cbv zeta. assert (conns_ok (ConnTable (ct_conns t ++ [(fd, now)]) (conn_fd_map_set (ct_map t) fd (conn_count t)))) as H'.
  { assert (NoDup (ct_conns t ++ [(fd, now)]).*1) as N by (rewrite fmap_app; apply NoDup_snoc; [apply H|done]).
    assert (Forall fd_ok (ct_conns t ++ [(fd, now)]).*1) as F
      by (rewrite fmap_app; apply list.Forall_app; split; [apply H|by apply list.Forall_singleton]).
    split; cbn [ct_conns ct_map]; [done|done|]. pose proof (few_fds _ N F) as Hl. rewrite length_fmap, length_app in Hl. cbn in Hl.
    intros i fd' a' Hi. pose proof (at_lt _ _ _ Hi) as Hlt. rewrite length_app in Hlt. cbn [length] in Hlt.
    unfold conn_fd_map_set. rewrite fd_in_map by done. destruct (decide (i = Z.of_nat (length (ct_conns t)))) as [->|Hne].
    - rewrite at_snoc in Hi. injection Hi as <- <-. rewrite cell_insert_eq. unfold conn_count. apply i16_small. lia.
    - rewrite at_app_l in Hi by lia. rewrite cell_insert_ne; [by apply (co_index _ H _ _ a')|]. intros <-. apply Hn.
      apply list_elem_of_fmap. exists (fd, a'). split; [done|]. apply elem_at. eauto. }
  split; [done|]. apply map_eq. intros k. apply option_eq. intros x. rewrite conns_lookup by done. cbn [ct_conns].
  rewrite lookup_insert_Some, conns_lookup, elem_of_app, list_elem_of_singleton by done. split.
  - intros [Hin|[= -> ->]]; [|by left]. right. split; [|done]. intros <-. apply Hn. apply list_elem_of_fmap. by exists (fd, x).
  - intros [[<- <-]|[_ ?]]; [by right|by left].
Qed.

(** A descriptor is added, or its time renewed. *)
Lemma conn_add_ok t now fd : conns_ok t -> fd_ok fd ->
  conns_ok (conn_track_add now t fd) /\ conns_map (conn_track_add now t fd) = <[fd := now]> (conns_map t).
Proof.
  intros H Hfd. unfold conn_track_add. destruct (present_cases t fd) as [(i & a & E)|Hn].
  - rewrite (map_get_found t i fd a) by done. pose proof (at_lt _ _ _ E). destruct (Z.leb_spec 0 i); [|lia]. by apply (conn_update_ok t now i fd a).
  - rewrite map_get_missing by done. by apply conn_append_ok.
Qed.

Lemma conn_touch_ok t now fd : conns_ok t -> fd_ok fd ->
  conns_ok (conn_track_touch now t fd) /\ conns_map (conn_track_touch now t fd) = <[fd := now]> (conns_map t).
Proof.
  intros H Hfd. unfold conn_track_touch. destruct (present_cases t fd) as [(i & a & E)|Hn].
  - rewrite (map_get_found t i fd a) by done. pose proof (at_lt _ _ _ E). destruct (Z.leb_spec 0 i); [|lia]. by apply (conn_update_ok t now i fd a).
  - rewrite map_get_missing by done. by apply conn_add_ok.
Qed.

(** The array after the element at [i] is taken out: the last element, if it is
    another one, takes its place. *)
Lemma remove_at_list t fd i a : at_ (ct_conns t) i = Some (fd, a) ->
  exists l1 l2, ct_conns t = l1 ++ (fd, a) :: l2 /\ i = Z.of_nat (length l1) /\
    ((l2 = [] /\ remove_at t fd i = ConnTable l1 (conn_fd_map_clear (ct_map t) fd)) \/
     (exists l3 c, l2 = l3 ++ [c] /\
        remove_at t fd i = ConnTable (l1 ++ c :: l3) (conn_fd_map_set (conn_fd_map_clear (ct_map t) fd) c.1 i))).
Proof.
  intros E. destruct (at_split _ _ _ E) as (l1 & l2 & El & Ei). exists l1, l2. split_and!; [done|done|].
  unfold remove_at, conn_count. rewrite El. destruct l2 as [|x l2 _] using rev_ind.
  - left. split; [done|]. rewrite length_app. cbn [length].
    replace (Z.of_nat (length l1 + 1) - 1) with (Z.of_nat (length l1)) by lia. rewrite at_snoc, Ei, Z.eqb_refl, Nat2Z.id.
    by rewrite take_app_length.
  - right. exists l2, x. split; [done|].
    replace (Z.of_nat (length (l1 ++ (fd, a) :: l2 ++ [x])) - 1) with (Z.of_nat (length (l1 ++ (fd, a) :: l2)))
      by (rewrite !length_app; cbn [length]; rewrite length_app; cbn; lia).
    replace (l1 ++ (fd, a) :: l2 ++ [x]) with ((l1 ++ (fd, a) :: l2) ++ [x]) by (by rewrite <- app_assoc).
    rewrite at_snoc. destruct (Z.eqb_spec i (Z.of_nat (length (l1 ++ (fd, a) :: l2)))) as [Ec|_];
      [rewrite length_app in Ec; cbn in Ec; lia|].
    f_equal. rewrite Nat2Z.id, <- app_assoc. cbn [app]. rewrite Ei, upd_at_app.
    replace (l1 ++ x :: l2 ++ [x]) with ((l1 ++ x :: l2) ++ [x]) by (by rewrite <- app_assoc).
    rewrite take_app_length'; [done|]. rewrite !length_app. done.
Qed.

Lemma clear_other m fd k : fd <> k -> (conn_fd_map_clear m fd).[k] = m.[k].
Proof. intros H. unfold conn_fd_map_clear. destruct (in_map fd); [by apply cell_insert_ne|done]. Qed.

Lemma remove_at_perm t fd i a : at_ (ct_conns t) i = Some (fd, a) -> ct_conns t ≡ₚ (fd, a) :: ct_conns (remove_at t fd i).
Proof.
  intros E. destruct (remove_at_list t fd i a E) as (l1 & l2 & -> & _ & [[-> ->]|(l3 & c & -> & ->)]); cbn [ct_conns].
  - symmetry. apply Permutation_cons_append.
  - rewrite <- Permutation_middle. constructor. by rewrite (Permutation_app_comm l3 [c]).
Qed.

(** Positions below [i] keep their element; what is at [i] or above was above. *)
Lemma remove_at_below t fd i a : at_ (ct_conns t) i = Some (fd, a) ->
  (forall j, j < i -> at_ (ct_conns (remove_at t fd i)) j = at_ (ct_conns t) j) /\
  (forall j x, at_ (ct_conns (remove_at t fd i)) j = Some x ->
     (j <> i /\ at_ (ct_conns t) j = Some x) \/ (j = i /\ (exists j', i < j' /\ at_ (ct_conns t) j' = Some x) /\
       ct_map (remove_at t fd i) = conn_fd_map_set (conn_fd_map_clear (ct_map t) fd) x.1 i)).
Proof.
  intros E. destruct (remove_at_list t fd i a E) as (l1 & l2 & -> & -> & [[-> ->]|(l3 & c & -> & ->)]); cbn [ct_conns ct_map]; split.
  - intros j Hj. destruct (decide (0 <= j)); [by rewrite at_app_l by lia|]. unfold at_. destruct (Z.ltb_spec j 0); [done|lia].
  - intros j x Hx. pose proof (at_lt _ _ _ Hx). left. split; [lia|]. rewrite at_app_l by lia. exact Hx.
  - intros j Hj. destruct (decide (0 <= j)); [by rewrite !at_app_l by lia|]. unfold at_. destruct (Z.ltb_spec j 0); [done|lia].
  - intros j x Hx. pose proof (at_lt _ _ _ Hx) as Hlt.
    assert (at_ (upd_at (fun _ => c) (Z.of_nat (length l1)) (l1 ++ (fd, a) :: l3 ++ [c])) j = Some x) as Hu.
    { rewrite upd_at_app. replace (l1 ++ c :: l3 ++ [c]) with ((l1 ++ c :: l3) ++ [c]) by (by rewrite <- app_assoc). rewrite at_app_l by lia. exact Hx. }
    destruct (decide (j = Z.of_nat (length l1))) as [->|Hne].
    + right. rewrite (at_upd_eq _ _ _ (fd, a)) in Hu by (by rewrite at_of_nat, lookup_app_r, Nat.sub_diag by lia). injection Hu as <-.
      split_and!; [done| |done]. exists (Z.of_nat (length (l1 ++ (fd, a) :: l3))). split; [rewrite length_app; cbn; lia|].
      replace (l1 ++ (fd, a) :: l3 ++ [c]) with ((l1 ++ (fd, a) :: l3) ++ [c]) by (by rewrite <- app_assoc). apply at_snoc.
    + left. split; [done|]. by rewrite at_upd_ne in Hu by lia.
Qed.

Lemma same_entry t i j fd a b : conns_ok t -> at_ (ct_conns t) i = Some (fd, a) -> at_ (ct_conns t) j = Some (fd, b) -> i = j.
Proof. intros H E1 E2. by rewrite <- (co_index _ H _ _ _ E1), <- (co_index _ H _ _ _ E2). Qed.

Lemma conn_remove_at_ok t fd i a : conns_ok t -> at_ (ct_conns t) i = Some (fd, a) ->
  conns_ok (remove_at t fd i) /\ conns_map (remove_at t fd i) = delete fd (conns_map t).
Proof.
  intros H E. pose proof (remove_at_perm t fd i a E) as Hp. pose proof (co_nodup _ H) as N. rewrite Hp in N. cbn in N.
  apply list.NoDup_cons in N as [Hfd N]. pose proof (co_range _ H) as F. rewrite Hp in F. cbn in F. apply list.Forall_cons in F as [_ F].
  assert (conns_ok (remove_at t fd i)) as H'.
  { split; [done|done|]. intros j k x Hj. pose proof (at_lt _ _ _ E) as Hi.
    assert (k <> fd) as Hk by (intros ->; apply Hfd, list_elem_of_fmap; exists (fd, x); split; [done|apply elem_at; eauto]).
    destruct (remove_at_below t fd i a E) as [_ Hb]. destruct (Hb _ _ Hj) as [[Hne Ho]|(-> & [j' [_ Ho]] & Em)].
    - pose proof (co_index _ H _ _ _ Ho) as Hx. destruct (remove_at_list t fd i a E) as (l1 & l2 & El & Ei & [[_ Er]|(l3 & c & El2 & Er)]);
        rewrite Er; cbn [ct_map]; [by rewrite clear_other|].
      unfold conn_fd_map_set. destruct (in_map c.1); [|by rewrite clear_other]. rewrite cell_insert_ne; [by rewrite clear_other|].
      intros Ec. rewrite Er in Hj. cbn [ct_conns] in Hj. rewrite Er in N. cbn [ct_conns] in N.
      assert (at_ (l1 ++ c :: l3).*1 i = Some k) as H1 by (rewrite at_fmap, Ei, at_of_nat, lookup_app_r, Nat.sub_diag by lia; cbn; by rewrite Ec).
      assert (at_ (l1 ++ c :: l3).*1 j = Some k) as H2 by (by rewrite at_fmap, Hj).
      apply at_Some in H1 as [? H1], H2 as [? H2]. pose proof (NoDup_lookup _ _ _ _ N H1 H2). lia.
    - rewrite Em. unfold conn_fd_map_set. cbn [fst]. rewrite fd_in_map by (by apply (map_fd_ok t j' k x)). rewrite cell_insert_eq.
      apply i16_small. pose proof (few_fds _ (co_nodup _ H) (co_range _ H)) as Hl. rewrite length_fmap in Hl. lia. }
  split; [done|]. apply map_eq. intros k. apply option_eq. intros x. rewrite conns_lookup, lookup_delete_Some, conns_lookup by done.
  rewrite Hp at 1. rewrite elem_of_cons. split.
  - intros Hin. split; [|by right]. intros <-. apply Hfd, list_elem_of_fmap. by exists (fd, x).
  - intros [Hne [[= ? ?]|?]]; [by subst|done].
Qed.

(** A descriptor is removed; nothing happens when it is not there. *)
Lemma conn_remove_ok t fd : conns_ok t ->
  conns_ok (conn_track_remove t fd) /\ conns_map (conn_track_remove t fd) = delete fd (conns_map t).
Proof.
  intros H. unfold conn_track_remove. destruct (present_cases t fd) as [(i & a & E)|Hn].
  - rewrite (map_get_found t i fd a) by done. pose proof (at_lt _ _ _ E). destruct (Z.ltb_spec i 0); [lia|]. by apply (conn_remove_at_ok t fd i a).
  - rewrite map_get_missing, scan_missing by done. unfold conn_count. cbn [Z.ltb Z.compare].
    destruct (Z.leb_spec (Z.of_nat (length (ct_conns t))) (0 + Z.of_nat (length (ct_conns t)))); [|lia]. split; [done|].
    symmetry. apply delete_id. destruct (conns_map t !! fd) as [a|] eqn:E; [|done]. exfalso. apply Hn.
    apply conns_lookup in E; [|done]. apply list_elem_of_fmap. by exists (fd, a).
Qed.

(** ** Idle connections *)

Definition fresh (now timeout_ms a : Z) : Prop := now - a <= timeout_ms.

#[export] Instance fresh_dec now timeout_ms a : Decision (fresh now timeout_ms a).
Proof. unfold fresh. apply _. Defined.

Lemma sweep_ok now tm k : forall t, conns_ok t ->
  (forall j x, Z.of_nat k <= j -> at_ (ct_conns t) j = Some x -> fresh now tm x.2) ->
  let '(t', fds) := sweep_from now tm k t in
  conns_ok t' /\ conns_map t' = filter (fun fa => fresh now tm fa.2) (conns_map t) /\
  forall fd, fd ∈ fds <-> exists a, conns_map t !! fd = Some a /\ tm < now - a.
Proof.
  induction k as [|i IH]; intros t H Hf; cbn [sweep_from].
  - assert (forall fd a, conns_map t !! fd = Some a -> fresh now tm a) as Hall.
    { intros fd a Hl%conns_lookup; [|done]. apply elem_at in Hl as [j Hj]. apply (Hf j (fd, a)); [|done]. apply at_lt in Hj. lia. }
    split_and!; [done| |].
    + symmetry. apply map_filter_id. intros fd a. apply Hall.
    + intros fd. split; [by intros ?%elem_of_nil|]. intros (a & Ha & Hlt). apply Hall in Ha. unfold fresh in Ha. lia.
  - destruct (ct_conns t !! i) as [[fd a]|] eqn:E.
    + rewrite <- at_of_nat in E. destruct (Z.ltb_spec tm (now - a)) as [Hidle|Hfresh].
      * assert (conn_track_remove t fd = remove_at t fd (Z.of_nat i)) as Er.
        { unfold conn_track_remove. rewrite (map_get_found t (Z.of_nat i) fd a) by done. destruct (Z.ltb_spec (Z.of_nat i) 0); [lia|done]. }
        rewrite Er. destruct (conn_remove_at_ok t fd _ a H E) as [H' Em]. destruct (remove_at_below t fd _ a E) as [_ Hb].
        specialize (IH (remove_at t fd (Z.of_nat i)) H'). destruct (sweep_from now tm i (remove_at t fd (Z.of_nat i))) as [t' fds].
        destruct IH as (R1 & R2 & R3).
        { intros j x Hj Hx. destruct (Hb _ _ Hx) as [[Hne Ho]|(-> & [j' [Hj' Ho]] & _)]; [apply (Hf j); [lia|done]|apply (Hf j'); [lia|done]]. }
        rewrite Em in R2, R3. assert (conns_map t !! fd = Some a) as Ha by (apply conns_lookup; [done|]; apply elem_at; eauto).
        split_and!; [done| |].
        -- rewrite R2, map_filter_delete. apply delete_id. apply map_lookup_filter_None. right. rewrite Ha. intros ? [= <-]. unfold fresh. cbn. lia.
        -- intros g. rewrite elem_of_cons, R3. split.
           ++ intros [->|(b & Hb' & ?)]; [by exists a|]. exists b. by apply lookup_delete_Some in Hb' as [_ ?].
           ++ intros (b & Hb' & Hlt). destruct (decide (g = fd)) as [->|Hne]; [by left|right]. exists b. by rewrite lookup_delete_ne.
      * apply IH; [done|]. intros j x Hj Hx. destruct (decide (j = Z.of_nat i)) as [->|]; [|apply (Hf j); [lia|done]].
        rewrite E in Hx. by injection Hx as <-.
    + apply IH; [done|]. intros j x Hj Hx. apply (Hf j); [|done]. destruct (decide (j = Z.of_nat i)) as [->|]; [|lia].
      rewrite at_of_nat in Hx. congruence.
Qed.

(** ** Refinement *)

Inductive conn_op := OpAdd (now fd : Z) | OpTouch (now fd : Z) | OpRemove (fd : Z) | OpSweep (now idle_timeout_sec : Z).

Definition conn_step (t : conn_table) (o : conn_op) : conn_table :=
  match o with
  | OpAdd now fd => conn_track_add now t fd
  | OpTouch now fd => conn_track_touch now t fd
  | OpRemove fd => conn_track_remove t fd
  | OpSweep now s => (conn_sweep_idle now s t).1
  end.

(** The same on a map. *)
Definition conn_ref (m : gmap Z Z) (o : conn_op) : gmap Z Z :=
  match o with
  | OpAdd now fd | OpTouch now fd => <[fd := now]> m
  | OpRemove fd => delete fd m
  | OpSweep now s => if s <=? 0 then m else filter (fun fa => fresh now (s * 1000) fa.2) m
  end.

Definition op_fd_ok (o : conn_op) : Prop :=
  match o with OpAdd _ fd | OpTouch _ fd => fd_ok fd | OpRemove _ | OpSweep _ _ => True end.

Lemma conn_sweep_ok t now s : conns_ok t ->
  conns_ok (conn_sweep_idle now s t).1 /\ conns_map (conn_sweep_idle now s t).1 = conn_ref (conns_map t) (OpSweep now s) /\
  forall fd, fd ∈ (conn_sweep_idle now s t).2 <-> 0 < s /\ exists a, conns_map t !! fd = Some a /\ s * 1000 < now - a.
Proof.
  intros H. unfold conn_sweep_idle. cbn [conn_ref]. destruct (Z.leb_spec s 0) as [Hs|Hs]; cbn [fst snd].
  - split_and!; [done|done|]. intros fd. split; [by intros ?%elem_of_nil|lia].
  - pose proof (sweep_ok now (s * 1000) (length (ct_conns t)) t H) as Hk.
    destruct (sweep_from now (s * 1000) (length (ct_conns t)) t) as [t' fds]. destruct Hk as (H1 & H2 & H3).
    { intros j x Hj Hx. apply at_lt in Hx. lia. }
    split_and!; [done|done|]. intros fd. rewrite H3. tauto.
Qed.

Lemma conn_step_ok t o : conns_ok t -> op_fd_ok o ->
  conns_ok (conn_step t o) /\ conns_map (conn_step t o) = conn_ref (conns_map t) o.
Proof.
  intros H Ho. destruct o as [now fd|now fd|fd|now s]; cbn [conn_step conn_ref];
    [by apply conn_add_ok|by apply conn_touch_ok|by apply conn_remove_ok|]. by destruct (conn_sweep_ok t now s H) as (? & ? & _).
Qed.

(** C35: The connection table is a map from descriptors to times: after any sequence
    of accepted connections, activity, closed connections and sweeps it holds
    what the map holds, and a sweep closes the idle connections and no other,
    for descriptors below 32768. *)
Theorem conn_table_refines ops now s : Forall op_fd_ok ops ->
  let t := foldl conn_step empty_conns ops in
  let m := foldl conn_ref ∅ ops in
  conns_map t = m /\ NoDup (ct_conns t).*1 /\
  forall fd, fd ∈ (conn_sweep_idle now s t).2 <-> 0 < s /\ exists a, m !! fd = Some a /\ s * 1000 < now - a.
Proof.
  intros Hops. cbv zeta. enough (forall t m, conns_ok t -> conns_map t = m ->
    conns_ok (foldl conn_step t ops) /\ conns_map (foldl conn_step t ops) = foldl conn_ref m ops) as Hr.
  { destruct (Hr empty_conns ∅) as [H E]; [split; [apply base.NoDup_nil_2|by apply list.Forall_nil|by intros [] ? ?]|done|]. split_and!; [done|apply H|].
    intros fd. rewrite <- E. by apply conn_sweep_ok. }
  induction Hops as [|o ops Ho Hops IH]; intros t m H E; cbn [foldl]; [done|]. destruct (conn_step_ok t o H Ho) as [H1 E1].
  apply IH; [done|]. by rewrite E1, E.
Qed.

Definition ex_ops : list conn_op := [OpAdd 1000 5; OpAdd 1000 6; OpAdd 1500 7; OpRemove 5; OpTouch 40000 6].

Lemma conn_table_refines_witness : (conn_sweep_idle 41000 30 (foldl conn_step empty_conns ex_ops)).2 = [7] /\
  conns_map (foldl conn_step empty_conns ex_ops) = foldl conn_ref ∅ ex_ops.
Proof.
  split; [vm_compute; reflexivity|]. apply (conn_table_refines ex_ops 41000 30).
  repeat (apply list.Forall_cons; split; [cbn; unfold fd_ok; lia || exact I|]). constructor.
Defined.

(** A descriptor outside the index is added again by every activity. *)
Example large_fd_duplicated :
  ct_conns (conn_track_touch 3 (conn_track_touch 2 (conn_track_add 1 empty_conns 65536) 65536) 65536) = [(65536, 1); (65536, 2); (65536, 3)].
Proof. vm_compute. reflexivity. Qed.
