(* ===== verification/HttpServer.v ===== *)
(** * HTTP server (protocol/miku_http_server.c)

    [handle_client] is the handler of a readable connection: it reads until a
    whole request is there, runs the middleware and the handler of the route
    and writes the response.  What the reads return is an argument; the writes
    to the socket, the registrations with the event loop and the handler that
    runs are recorded as events, in order.  The state [S] that handlers and
    middleware change, and the counters, are threaded through.  The build
    without TLS is modelled, and the clock is read once per event.

    [http_serves] follows a request cut into reads of any size to its response;
    [partial_request_dropped] shows what happens when the reads stop before the
    request is complete; [http_handler_authenticated] ties the routes to the
    authentication. *)
From Stdlib Require Import Ascii String.
From S2P Require Import Prelude Hash HashMap Json JsonText Models FriendRpc Token TokenSpec Http Middleware HttpConns.
#[local] Open Scope string_scope.
#[local] Open Scope list_scope.
#[local] Open Scope Z_scope.

Definition MAX_ROUTES : Z := 256.
Definition MAX_MIDDLEWARE : Z := 16.
Definition READ_CHUNK : Z := 8192.
Definition READ_INIT : Z := READ_CHUNK * 2.
Definition MIKU_DEFAULT_MAX_BODY : Z := 1048576.

(** ** [strtoul(s, NULL, 10)] *)

Definition strtoul10 (s : string) : Z :=
  let t := skip_space (str s) in
  let '(neg, t) := match t with
                   | c :: t' => if Ascii.eqb c "-" then (true, t') else if Ascii.eqb c "+" then (false, t') else (false, t)
                   | [] => (false, [])
                   end in
  let v := digits_val (span_digits t).1 in
  if ULLONG_MAX <? v then ULLONG_MAX else if neg : bool then u64 (- v) else v.

(** What a read of the socket returns: data (none of it: the peer has closed),
    nothing yet, or an error. *)
Inductive read_result := RdData (t : text) | RdAgain | RdError.

Inductive http_event :=
  | HvWrite (fd : Z) (t : text)
  | HvClose (fd : Z)
  | HvIoDel (fd : Z)
  | HvIoAdd (fd : Z)
  | HvCall (route : Z).

Section HttpServer.
Context {M : Type -> Type} {SM : StringMap M} {S : Type}.

(** The counters the server shares with the middleware, and the state of the
    handlers. *)
Definition shared : Type := (miku_stats * S)%type.

Definition middleware_fn : Type :=
  mw_env -> shared -> miku_http_request M -> miku_http_response M -> mw_result * miku_http_response M * shared.

Definition handler_fn : Type :=
  mw_env -> shared -> miku_http_request M -> miku_http_response M -> miku_http_response M * shared.

Record http_route := HttpRoute { rt_method : string; rt_path : string; rt_handler : handler_fn }.

Record miku_http_server := HttpServer {
  sv_routes : list http_route;
  sv_route_map : M Z;
  sv_middleware : list middleware_fn;
  sv_running : bool;
  sv_max_body : Z;
  sv_keep_alive : bool;
  sv_idle_timeout_sec : Z;
  sv_conns : conn_table }.

Definition miku_http_server_create : miku_http_server :=
  HttpServer [] (sm_create 256) [] false MIKU_DEFAULT_MAX_BODY true 30 empty_conns.

(** ** Set-up *)

Definition route_key (method path : string) : string := strn 511 (method +:+ " " +:+ path).

Definition miku_http_server_route (srv : miku_http_server) (method path : string) (fn : handler_fn) : Z * miku_http_server :=
  let idx := Z.of_nat (length (sv_routes srv)) in
  if MAX_ROUTES <=? idx then (-1, srv)
  else (0, HttpServer (sv_routes srv ++ [HttpRoute method path fn])
                      (sm_put (sv_route_map srv) (route_key method path) (idx + 1))
                      (sv_middleware srv) (sv_running srv) (sv_max_body srv) (sv_keep_alive srv)
                      (sv_idle_timeout_sec srv) (sv_conns srv)).

Definition miku_http_server_route_count (srv : miku_http_server) : Z := Z.of_nat (length (sv_routes srv)).

Definition miku_http_server_use (srv : miku_http_server) (mw : middleware_fn) : Z * miku_http_server :=
  if MAX_MIDDLEWARE <=? Z.of_nat (length (sv_middleware srv)) then (-1, srv)
  else (0, HttpServer (sv_routes srv) (sv_route_map srv) (sv_middleware srv ++ [mw]) (sv_running srv) (sv_max_body srv)
                      (sv_keep_alive srv) (sv_idle_timeout_sec srv) (sv_conns srv)).

Definition miku_http_server_set_max_body (srv : miku_http_server) (max_bytes : Z) : miku_http_server :=
  HttpServer (sv_routes srv) (sv_route_map srv) (sv_middleware srv) (sv_running srv) max_bytes (sv_keep_alive srv)
             (sv_idle_timeout_sec srv) (sv_conns srv).

Definition miku_http_server_set_idle_timeout (srv : miku_http_server) (seconds : Z) : miku_http_server :=
  HttpServer (sv_routes srv) (sv_route_map srv) (sv_middleware srv) (sv_running srv) (sv_max_body srv) (sv_keep_alive srv)
             seconds (sv_conns srv).

Definition miku_http_server_stop (srv : miku_http_server) : miku_http_server :=
  HttpServer (sv_routes srv) (sv_route_map srv) (sv_middleware srv) false (sv_max_body srv) (sv_keep_alive srv)
             (sv_idle_timeout_sec srv) (sv_conns srv).

Definition set_conns (srv : miku_http_server) (t : conn_table) : miku_http_server :=
  HttpServer (sv_routes srv) (sv_route_map srv) (sv_middleware srv) (sv_running srv) (sv_max_body srv) (sv_keep_alive srv)
             (sv_idle_timeout_sec srv) t.

Definition on_stats (f : miku_stats -> miku_stats) (st : shared) : shared := (f st.1, st.2).

(** ** One request *)

Definition http_content_length (req : miku_http_request M) : Z :=
  match sm_get (hq_headers req) "content-length" with
  | Some cl => if nonempty cl then strtoul10 cl else 0
  | None => 0
  end.

Definition step_result : Type := (miku_http_server * shared * list http_event)%type.

(** [conn_track_remove; stats_conn_close; close; miku_io_del]; the paths that
    answer 400 do not count the connection as closed. *)
Definition drop_client (counted : bool) (srv : miku_http_server) (st : shared) (fd : Z) (out : list http_event) : step_result :=
  (set_conns srv (conn_track_remove (sv_conns srv) fd),
   if counted then on_stats miku_stats_conn_close st else st,
   out ++ [HvClose fd; HvIoDel fd]).

(** An error response without a body. *)
Definition bare_response (status : string) : text :=
  str "HTTP/1.1 " ++ str status ++ crlf ++ str "Connection: close" ++ crlf ++ str "Content-Length: 0" ++ crlf ++ crlf.

Definition bad_request (srv : miku_http_server) (st : shared) (fd : Z) : step_result :=
  drop_client false srv st fd [HvWrite fd (bare_response "400 Bad Request")].

Definition too_large (srv : miku_http_server) (st : shared) (fd : Z) : step_result :=
  drop_client true srv st fd [HvWrite fd (bare_response "413 Payload Too Large")].

(** The capacity of the buffer before a read; None when it would exceed the
    limit. *)
Definition grow_buffer (srv : miku_http_server) (cap n : Z) : option Z :=
  if cap <? n + READ_CHUNK + 1 then
    let ncap := cap * 2 in
    let ncap := if ncap <? n + READ_CHUNK + 1 then n + READ_CHUNK + 1 else ncap in
    if (0 <? sv_max_body srv) && (u64 (sv_max_body srv + 8192) <? ncap) then None else Some ncap
  else Some cap.

(** The read loop.  [need] is [need_total] once the head has been parsed.  It
    ends with a whole request in the buffer, or with the connection's fate. *)
Fixpoint read_loop (now : Z) (fd : Z) (srv : miku_http_server) (st : shared) (cap : Z) (buf : text) (need : option Z)
    (reads : list read_result) : step_result + (miku_http_server * shared * text * Z) :=
  match grow_buffer srv cap (Z.of_nat (length buf)) with
  | None => inl (too_large srv st fd)
  | Some cap =>
      match reads with
      | [] | RdAgain :: _ => inl (set_conns srv (conn_track_touch now (sv_conns srv) fd), st, [])
      | RdError :: _ | RdData [] :: _ => inl (drop_client true srv st fd [])
      | RdData data :: reads =>
          let buf := buf ++ data in
          let n := Z.of_nat (length buf) in
          let srv := set_conns srv (conn_track_touch now (sv_conns srv) fd) in
          let st := on_stats (fun s => miku_stats_bytes_recv s (Z.of_nat (length data))) st in
          match need with
          | Some need_total =>
              if need_total <=? n then inr (srv, st, buf, need_total) else read_loop now fd srv st cap buf need reads
          | None =>
              match memmem crlf2 buf with
              | None =>
                  if 65536 <? n then
                    inl (drop_client true srv st fd [HvWrite fd (bare_response "431 Request Header Fields Too Large")])
                  else read_loop now fd srv st cap buf None reads
              | Some _ =>
                  let '(parsed, req) := miku_http_request_parse miku_http_request_create buf in
                  if parsed <=? 0 then inl (bad_request srv st fd)
                  else
                    let cl := http_content_length req in
                    if (0 <? sv_max_body srv) && (sv_max_body srv <? cl) then inl (too_large srv st fd)
                    else
                      let need_total := u64 (parsed + cl) in
                      if need_total <=? n then inr (srv, st, buf, need_total)
                      else read_loop now fd srv st cap buf (Some need_total) reads
              end
          end
      end
  end.

Fixpoint run_middleware (env : mw_env) (mws : list middleware_fn) (st : shared) (req : miku_http_request M) (resp : miku_http_response M)
    : bool * miku_http_response M * shared :=
  match mws with
  | [] => (true, resp, st)
  | mw :: mws =>
      let '(r, resp, st) := mw env st req resp in
      if is_stop r then (false, resp, st) else run_middleware env mws st req resp
  end.

(** The route of the table, then the first route that matches. *)
Fixpoint scan_routes (rs : list http_route) (i : Z) (method : string) (path : text) : option Z :=
  match rs with
  | [] => None
  | r :: rs => if strcase_eq method (rt_method r) && bool_decide (path = str (rt_path r)) then Some i
               else scan_routes rs (i + 1) method path
  end.

Definition find_route (srv : miku_http_server) (req : miku_http_request M) : option Z :=
  let method := miku_http_method_name (hq_method req) in
  let key := route_key method (cstr (hq_path req)) in
  let idx := match sm_get (sv_route_map srv) key with Some v => v - 1 | None => -1 end in
  if (0 <=? idx) && (idx <? Z.of_nat (length (sv_routes srv))) then Some idx
  else scan_routes (sv_routes srv) 0 method (hq_path req).

Definition route_missing (resp : miku_http_response M) : miku_http_response M :=
  miku_http_response_set_json (set_status resp 404) (error_body 404 "route not found").

Definition dispatch (env : mw_env) (srv : miku_http_server) (st : shared) (req : miku_http_request M) (resp : miku_http_response M)
    : miku_http_response M * shared * list http_event :=
  match find_route srv req with
  | Some i =>
      match at_ (sv_routes srv) i with
      | Some r => let '(resp, st) := rt_handler r env st req resp in (resp, st, [HvCall i])
      | None => (route_missing resp, st, [])
      end
  | None => (route_missing resp, st, [])
  end.

(** The headers are always there, so that the setting is never consulted. *)
Definition wants_close (req : miku_http_request M) : bool :=
  match sm_get (hq_headers req) "connection" with
  | Some conn => negb (strcase_eq conn "keep-alive")
  | None => true
  end.

Definition clamp_body (req : miku_http_request M) : miku_http_request M :=
  let cl := http_content_length req in
  if (0 <? cl) && (cl <? Z.of_nat (length (hq_body req))) then with_body req (take (Z.to_nat cl) (hq_body req)) else req.

(** The middleware, the route and the response. *)
Definition answer (env : mw_env) (fd : Z) (srv : miku_http_server) (st : shared) (req : miku_http_request M) : step_result :=
  let close := wants_close req in
  let '(go, resp, st) := run_middleware env (sv_middleware srv) st req miku_http_response_create in
  let '(resp, st, ran) := if go : bool then dispatch env srv st req resp else (resp, st, []) in
  let resp := put_header resp "Connection" (if close then "close" else "keep-alive") in
  let out := miku_http_response_serialize resp in
  let st := on_stats (fun s => miku_stats_bytes_sent s (Z.of_nat (length out))) st in
  if close then drop_client true srv st fd (ran ++ [HvWrite fd out])
  else (srv, st, ran ++ [HvWrite fd out]).

Definition serve (env : mw_env) (fd : Z) (srv : miku_http_server) (st : shared) (buf : text) (need_total : Z) : step_result :=
  let '(parsed, req) := miku_http_request_parse miku_http_request_create
                          (if 0 <? need_total then take (Z.to_nat need_total) buf else buf) in
  if parsed <=? 0 then bad_request srv st fd else answer env fd srv st (clamp_body req).

Definition handle_client (env : mw_env) (fd : Z) (srv : miku_http_server) (st : shared) (reads : list read_result) : step_result :=
  match read_loop (me_now env) fd srv st READ_INIT [] None reads with
  | inl r => r
  | inr (srv, st, buf, need_total) => serve env fd srv st buf need_total
  end.

(** ** The event loop *)

(** The descriptors that [accept] returns before it would block. *)
Definition accept_conn (now : Z) (srv : miku_http_server) (st : shared) (fds : list Z) : step_result :=
  foldl (fun '(srv, st, out) fd =>
           (set_conns srv (conn_track_add now (sv_conns srv) fd), on_stats miku_stats_conn_open st, out ++ [HvIoAdd fd]))
        (srv, st, []) fds.

(** [close; miku_io_del; stats_conn_close; conn_track_remove] for each. *)
Definition sweep_idle (now : Z) (srv : miku_http_server) (st : shared) : step_result :=
  let '(t, fds) := conn_sweep_idle now (sv_idle_timeout_sec srv) (sv_conns srv) in
  (set_conns srv t, foldl (fun st _ => on_stats miku_stats_conn_close st) st fds, fds ≫= (fun fd => [HvClose fd; HvIoDel fd])).

(** ** Reading a request *)

(** What one read changes. *)
Definition receive (now fd : Z) (x : miku_http_server * shared) (data : text) : miku_http_server * shared :=
  (set_conns x.1 (conn_track_touch now (sv_conns x.1) fd),
   on_stats (fun s => miku_stats_bytes_recv s (Z.of_nat (length data))) x.2).

Lemma receive_config now fd x data : sv_max_body (receive now fd x data).1 = sv_max_body x.1.
Proof. done. Qed.

(** The buffer may grow to hold [n] characters.  This is sufficient, not
    necessary: the buffer doubles, so that the limit of the server lies between
    this bound and twice as much. *)
Definition room (srv : miku_http_server) (n : Z) : Prop :=
  n <= 8192 \/ sv_max_body srv = 0 \/ (2 * n + 8192 <= sv_max_body srv /\ sv_max_body srv < 2 ^ 63).

Lemma grow_room srv cap n total : room srv total -> 0 <= n < total -> 16384 <= cap ->
  exists cap', grow_buffer srv cap n = Some cap' /\ 16384 <= cap'.
Proof.
  intros Hr Hn Hc. unfold grow_buffer, READ_CHUNK. destruct (Z.ltb_spec cap (n + 8192 + 1)); [|by exists cap].
  cbv zeta. set (ncap := if cap * 2 <? n + 8192 + 1 then n + 8192 + 1 else cap * 2).
  assert (16384 <= ncap <= 2 * (n + 8192)) as Hcap by (unfold ncap; destruct (Z.ltb_spec (cap * 2) (n + 8192 + 1)); lia).
  destruct Hr as [Hr|[Hr|[Hr Hr2]]]; [lia|rewrite Hr; eexists; split; [reflexivity|lia]|].
  rewrite uwrap_small by lia. destruct (Z.ltb_spec (sv_max_body srv + 8192) ncap); [lia|]. rewrite andb_false_r.
  eexists; split; [reflexivity|lia].
Qed.

Lemma memmem_starts t : starts_with crlf2 t = true <-> exists u, t = crlf2 ++ u.
Proof.
  unfold starts_with. rewrite bool_decide_eq_true. split.
  - intros E. exists (drop 4 t). rewrite <- E at 1. symmetry. apply take_drop.
  - intros [u ->]. reflexivity.
Qed.

(** The first blank line of a text is that of its prefixes that contain it. *)
Lemma memmem_prefix h : forall a b, memmem crlf2 (a ++ b) = Some h ->
  memmem crlf2 a = (if (h + 4 <=? length a)%nat then Some h else None).
Proof.
  induction h as [|h IH]; intros a b E.
  - assert (starts_with crlf2 (a ++ b) = true) as Hs.
    { destruct (a ++ b) as [|c t] eqn:Eab; [done|]. cbn [memmem] in E. destruct (starts_with crlf2 (c :: t)); [done|]. by destruct (memmem crlf2 t). }
    apply memmem_starts in Hs as [u Hu]. destruct (Nat.leb_spec (0 + 4) (length a)) as [Hl|Hl].
    + do 4 (destruct a as [|? a]; [cbn in Hl; lia|]). cbn in Hu. injection Hu as -> -> -> -> _. reflexivity.
    + do 4 (destruct a as [|? a]; [cbn in Hu; simplify_eq; reflexivity|]). cbn in Hl; lia.
  - destruct a as [|c a]; [done|]. cbn [app memmem] in E |- *. destruct (starts_with crlf2 (c :: a ++ b)) eqn:Es; [done|].
    destruct (starts_with crlf2 (c :: a)) eqn:Es'.
    { exfalso. apply memmem_starts in Es' as [u Hu]. rewrite app_comm_cons, Hu, <- app_assoc in Es. rewrite (proj2 (memmem_starts _)) in Es by eauto. done. }
    destruct (memmem crlf2 (a ++ b)) as [h'|] eqn:E'; [|done]. injection E as E. subst h'. rewrite (IH _ _ E').
    cbn [length]. destruct (Nat.leb_spec (h + 4) (length a)), (Nat.leb_spec (Datatypes.S h + 4) (Datatypes.S (length a))); first [done|lia].
Qed.

Lemma read_rest now fd rest total : forall chunks srv st cap buf, chunks <> [] -> Forall (fun c => c <> []) chunks ->
  room srv total -> 16384 <= cap -> total = Z.of_nat (length (buf ++ mjoin chunks)) ->
  read_loop now fd srv st cap buf (Some total) ((RdData <$> chunks) ++ rest) =
  inr ((foldl (receive now fd) (srv, st) chunks).1, (foldl (receive now fd) (srv, st) chunks).2, buf ++ mjoin chunks, total).
Proof.
  induction chunks as [|c chunks IH]; intros srv st cap buf Hne Hf Hr Hc Ht; [done|]. apply list.Forall_cons in Hf as [Hcn Hf].
  cbn [mjoin list_join] in Ht |- *. rewrite app_assoc in Ht |- *.
  assert (0 < Z.of_nat (length c)) as Hpos by (destruct c; [done|cbn; lia]).
  assert (Z.of_nat (length buf) < total) as Hlt by (rewrite Ht, !length_app; lia).
  cbn [fmap list_fmap app read_loop]. destruct (grow_room srv cap (Z.of_nat (length buf)) total Hr ltac:(lia) Hc) as (cap' & -> & Hc').
  destruct c as [|x c]; [done|]. cbv zeta. set (c' := x :: c) in *. destruct (Z.leb_spec total (Z.of_nat (length (buf ++ c')))) as [Hd|Hd].
  - destruct chunks as [|d chunks]; [cbn [mjoin list_join]; by rewrite app_nil_r|].
    apply list.Forall_cons in Hf as [Hdn _]. rewrite Ht in Hd. cbn [mjoin list_join] in Hd. rewrite !length_app in Hd. destruct d; [done|]. cbn [length] in Hd. lia.
  - apply (IH _ _ cap' (buf ++ c')); try done. intros ->. cbn [mjoin list_join] in Ht. rewrite app_nil_r in Ht. lia.
Qed.

(** A request that the parser accepts, with nothing after its body. *)
Record whole_request (R : text) (parsed : Z) (req : miku_http_request M) : Prop := {
  wr_parse : miku_http_request_parse miku_http_request_create R = (parsed, req);
  wr_ok : 0 < parsed;
  wr_size : Z.of_nat (length R) < 2 ^ 31;
  wr_length : parsed + http_content_length req = Z.of_nat (length R) }.

Lemma parse_shape R parsed req : whole_request R parsed req ->
  exists h rq, memmem crlf2 R = Some h /\ parse_lines miku_http_request_create 0 (header_lines (take h R)) = (true, rq) /\
    parsed = Z.of_nat h + 4 /\ (h + 4 <= length R)%nat /\ req = (if (h + 4 <? length R)%nat then with_body rq (drop (h + 4) R) else rq).
Proof.
  intros [E Hp Hs Hl]. unfold miku_http_request_parse in E. destruct (memmem crlf2 R) as [h|] eqn:Em; [|injection E as <- _; lia].
  pose proof (memmem_prefix h R []) as Hpre. rewrite app_nil_r, Em in Hpre. specialize (Hpre eq_refl).
  destruct (Nat.leb_spec (h + 4) (length R)) as [Hle|]; [|done].
  destruct (parse_lines _ 0 _) as [[|] rq] eqn:Ep; [|injection E as <- _; lia]. injection E as <- <-.
  exists h, rq. split_and!; try done. apply i32_small. lia.
Qed.

Lemma parse_prefix R parsed req a b : whole_request R parsed req -> R = a ++ b -> parsed <= Z.of_nat (length a) ->
  exists req', miku_http_request_parse miku_http_request_create a = (parsed, req') /\ hq_headers req' = hq_headers req.
Proof.
  intros Hw -> Ha. destruct (parse_shape _ _ _ Hw) as (h & rq & Em & Ep & -> & Hl & ->). destruct Hw as [_ _ Hs _].
  unfold miku_http_request_parse. rewrite (memmem_prefix h a b Em). destruct (Nat.leb_spec (h + 4) (length a)); [|lia].
  rewrite take_app_le in Ep by lia. rewrite Ep. rewrite i32_small by (rewrite length_app in Hs; lia).
  eexists. split; [reflexivity|]. by repeat case_match.
Qed.

Lemma content_length_headers r1 r2 : hq_headers r1 = hq_headers r2 -> http_content_length r1 = http_content_length r2.
Proof. unfold http_content_length. by intros ->. Qed.

(** The limits a request must keep to. *)
Definition within_limits (srv : miku_http_server) (R : text) (parsed : Z) (req : miku_http_request M) : Prop :=
  room srv (Z.of_nat (length R)) /\ parsed <= 65536 /\ (sv_max_body srv = 0 \/ http_content_length req <= sv_max_body srv).

Lemma read_whole now fd rest R parsed req : whole_request R parsed req ->
  forall chunks srv st cap buf, chunks <> [] -> Forall (fun c => c <> []) chunks -> within_limits srv R parsed req -> 16384 <= cap ->
  R = buf ++ mjoin chunks ->
  read_loop now fd srv st cap buf None ((RdData <$> chunks) ++ rest) =
  inr ((foldl (receive now fd) (srv, st) chunks).1, (foldl (receive now fd) (srv, st) chunks).2, R, Z.of_nat (length R)).
Proof.
  intros Hw. destruct (parse_shape _ _ _ Hw) as (h & rq & Em & _ & Eh & Hhl & _). pose proof (wr_size _ _ _ Hw) as Hsz.
  induction chunks as [|c chunks IH]; intros srv st cap buf Hne Hf Hlim Hc HR; [done|]. apply list.Forall_cons in Hf as [Hcn Hf].
  cbn [mjoin list_join] in HR. rewrite app_assoc in HR.
  assert (0 < Z.of_nat (length c)) as Hpos by (destruct c; [done|cbn; lia]).
  assert (Z.of_nat (length R) = Z.of_nat (length (buf ++ c)) + Z.of_nat (length (mjoin chunks))) as HL by (rewrite HR, length_app, Nat2Z.inj_add; reflexivity).
  pose proof (length_app buf c) as Hbc. destruct Hlim as (Hr & Hhead & Hmax).
  cbn [fmap list_fmap app read_loop].
  destruct (grow_room srv cap (Z.of_nat (length buf)) _ Hr ltac:(lia) Hc) as (cap' & -> & Hc').
  destruct c as [|x c]; [done|]. cbv zeta. set (c' := x :: c) in *.
  rewrite HR in Em. rewrite (memmem_prefix h (buf ++ c') (mjoin chunks) Em).
  destruct (Nat.leb_spec (h + 4) (length (buf ++ c'))) as [Hge|Hlt].
  - destruct (parse_prefix R parsed req (buf ++ c') (mjoin chunks) Hw HR ltac:(lia)) as (req' & -> & Hh).
    rewrite (content_length_headers req' req Hh). destruct (Z.leb_spec parsed 0); [lia|].
    assert ((0 <? sv_max_body srv) && (sv_max_body srv <? http_content_length req) = false) as Hmb.
    { destruct Hmax as [->|?]; [done|]. apply andb_false_intro2, Z.ltb_ge. lia. }
    cbn [sv_max_body set_conns] in Hmb |- *. rewrite Hmb. rewrite (wr_length _ _ _ Hw). rewrite (uwrap_small 64) by lia.
    destruct (Z.leb_spec (Z.of_nat (length R)) (Z.of_nat (length (buf ++ c')))) as [Hd|Hd].
    + assert (chunks = []) as ->. { destruct chunks as [|d chunks]; [done|]. apply list.Forall_cons in Hf as [Hdn _]. destruct d; [done|]. cbn [mjoin list_join] in HL. rewrite !length_app in HL. cbn [length] in HL. lia. }
      cbn [mjoin list_join] in HR. rewrite app_nil_r in HR. by rewrite <- HR.
    + rewrite read_rest; [rewrite HR; reflexivity| |done|done|done|rewrite HR; reflexivity]. intros ->. cbn [mjoin list_join length] in HL. lia.
  - destruct (Z.ltb_spec 65536 (Z.of_nat (length (buf ++ c')))); [lia|].
    apply (IH _ _ cap' (buf ++ c')); [|done|done|done|done]. intros ->. cbn [mjoin list_join length] in HL. lia.
Qed.

(** ** What a complete request gets *)

Lemma parse_lines_body ls : forall req n b rq, parse_lines req n ls = (b, rq) -> hq_body rq = hq_body req.
Proof.
  induction ls as [|l ls IH]; intros req n b rq E; cbn [parse_lines] in E; [by injection E as _ <-|].
  destruct (nil_b l); [by eapply IH|]. destruct n as [|n].
  - destruct (parse_request_line req l) as [r|] eqn:Er; [|by injection E as _ <-]. rewrite (IH _ _ _ _ E).
    unfold parse_request_line in Er. destruct (cut_at _ l) as [[m rest]|]; [|done]. cbn [mbind option_bind] in Er.
    destruct (nil_b rest); [done|]. destruct (cut_at _ rest) as [[p q]|]; [|done]. cbn [mbind option_bind] in Er.
    destruct (cut_at _ p) as [[p1 p2]|]; by injection Er as <-.
  - rewrite (IH _ _ _ _ E). unfold parse_header. by repeat case_match.
Qed.

Lemma clamp_whole R parsed req : whole_request R parsed req -> clamp_body req = req.
Proof.
  intros Hw. destruct (parse_shape _ _ _ Hw) as (h & rq & _ & Ep & Eh & Hl & Er). pose proof (wr_length _ _ _ Hw) as HL.
  unfold clamp_body. cbv zeta. assert (hq_body rq = []) as Hb by (apply (parse_lines_body _ _ _ _ _ Ep)).
  destruct (Nat.ltb_spec (h + 4) (length R)).
  - assert (hq_body req = drop (h + 4) R) as -> by (by rewrite Er).
    rewrite length_drop. destruct (Z.ltb_spec (http_content_length req) (Z.of_nat (length R - (h + 4)))); [lia|]. by rewrite andb_false_r.
  - destruct (Z.ltb_spec 0 (http_content_length req)); [lia|done].
Qed.

(** The events of an answer: the handler that ran, if one did, one response,
    and the end of the connection unless it is kept. *)
Lemma answer_events env fd srv st req : exists ran resp,
  (answer env fd srv st req).2 =
    ran ++ [HvWrite fd (miku_http_response_serialize resp)] ++ (if wants_close req then [HvClose fd; HvIoDel fd] else []) /\
  (ran = [] \/ exists i, ran = [HvCall i] /\ find_route srv req = Some i) /\
  sm_get (hs_headers resp) "Connection" = Some (if wants_close req then "close" else "keep-alive").
Proof.
  unfold answer. destruct (run_middleware _ _ _ _ _) as [[go resp] st1].
  assert (exists resp' st' ran, (if go : bool then dispatch env srv st1 req resp else (resp, st1, [])) = (resp', st', ran) /\
    (ran = [] \/ exists i, ran = [HvCall i] /\ find_route srv req = Some i)) as (resp' & st' & ran & -> & Hran).
  { destruct go; [|eexists _, _, _; by eauto]. unfold dispatch. destruct (find_route srv req) as [i|]; [|eexists _, _, _; by eauto].
    destruct (at_ (sv_routes srv) i) as [r|]; [|eexists _, _, _; by eauto].
    destruct (rt_handler r env st1 req resp) as [resp' st']. eexists _, _, _. split; [reflexivity|]. right. by exists i. }
  cbv zeta. exists ran, (put_header resp' "Connection" (if wants_close req then "close" else "keep-alive")).
  split; [|split; [exact Hran|unfold put_header; cbn [hs_headers]; rewrite sm_get_put; by rewrite decide_True]].
  destruct (wants_close req); cbn [snd drop_client]; [by rewrite <- app_assoc|reflexivity].
Qed.

(** C17: A request is answered however the network cuts it: when the pieces read
    make up one request, within the limits of the server, the result is that of
    the middleware and the handler on the parsed request, the client gets
    exactly one response, and the connection is closed unless the client asked
    to keep it. *)
Theorem http_serves env fd srv st chunks rest parsed req :
  whole_request (mjoin chunks) parsed req -> within_limits srv (mjoin chunks) parsed req -> Forall (fun c => c <> []) chunks ->
  let after := foldl (receive (me_now env) fd) (srv, st) chunks in
  handle_client env fd srv st ((RdData <$> chunks) ++ rest) = answer env fd after.1 after.2 req /\
  exists ran resp, (handle_client env fd srv st ((RdData <$> chunks) ++ rest)).2 =
    ran ++ [HvWrite fd (miku_http_response_serialize resp)] ++ (if wants_close req then [HvClose fd; HvIoDel fd] else []) /\
    (ran = [] \/ exists i, ran = [HvCall i]) /\
    sm_get (hs_headers resp) "Connection" = Some (if wants_close req then "close" else "keep-alive").
Proof.
  intros Hw Hl Hf. cbv zeta. destruct (parse_shape _ _ _ Hw) as (h & _ & _ & _ & _ & Hh & _).
  assert (handle_client env fd srv st ((RdData <$> chunks) ++ rest) =
    answer env fd (foldl (receive (me_now env) fd) (srv, st) chunks).1 (foldl (receive (me_now env) fd) (srv, st) chunks).2 req) as E.
  { unfold handle_client. rewrite (read_whole _ _ _ _ _ _ Hw); [|by intros ->; cbn in Hh; lia|done|done|done|done].
    unfold serve. destruct (Z.ltb_spec 0 (Z.of_nat (length (mjoin chunks)))); [|lia]. rewrite Nat2Z.id, firstn_all, (wr_parse _ _ _ Hw).
    pose proof (wr_ok _ _ _ Hw). destruct (Z.leb_spec parsed 0); [lia|]. by rewrite (clamp_whole _ _ _ Hw). }
  split; [exact E|]. rewrite E. destruct (answer_events env fd (foldl (receive (me_now env) fd) (srv, st) chunks).1
    (foldl (receive (me_now env) fd) (srv, st) chunks).2 req) as (ran & resp & H1 & H2 & H3).
  exists ran, resp. split; [exact H1|]. split; [|exact H3]. destruct H2 as [->|(i & -> & _)]; [by left|right; by exists i].
Qed.


(** ** What an incomplete request gets *)

(** The connection is kept, and nothing of what was read. *)
Definition kept (now fd : Z) (x : miku_http_server * shared) : step_result :=
  (set_conns x.1 (conn_track_touch now (sv_conns x.1) fd), x.2, []).

Lemma read_part_rest now fd total : forall chunks srv st cap buf, Forall (fun c => c <> []) chunks ->
  room srv total -> 16384 <= cap -> Z.of_nat (length (buf ++ mjoin chunks)) < total ->
  read_loop now fd srv st cap buf (Some total) ((RdData <$> chunks) ++ [RdAgain]) =
  inl (kept now fd (foldl (receive now fd) (srv, st) chunks)).
Proof.
  induction chunks as [|c chunks IH]; intros srv st cap buf Hf Hr Hc Ht; cbn [mjoin list_join] in Ht; rewrite !length_app in Ht;
    cbn [fmap list_fmap app read_loop]; (assert (0 <= Z.of_nat (length buf) < total) as Hn by lia);
    (destruct (grow_room srv cap (Z.of_nat (length buf)) total Hr Hn Hc) as (cap' & -> & Hc')); [done|].
  apply list.Forall_cons in Hf as [Hcn Hf]. destruct c as [|x c]; [done|]. cbv zeta. set (c' := x :: c) in *.
  rewrite length_app. destruct (Z.leb_spec total (Z.of_nat (length buf + length c'))); [lia|].
  apply (IH _ _ cap' (buf ++ c')); try done. rewrite !length_app, <- Nat.add_assoc. exact Ht.
Qed.

Lemma read_part now fd R missing parsed req : whole_request R parsed req -> missing <> [] ->
  forall chunks srv st cap buf, Forall (fun c => c <> []) chunks -> within_limits srv R parsed req -> 16384 <= cap ->
  R = (buf ++ mjoin chunks) ++ missing ->
  read_loop now fd srv st cap buf None ((RdData <$> chunks) ++ [RdAgain]) = inl (kept now fd (foldl (receive now fd) (srv, st) chunks)).
Proof.
  intros Hw Hm. destruct (parse_shape _ _ _ Hw) as (h & rq & Em & _ & Eh & Hhl & _). pose proof (wr_size _ _ _ Hw) as Hsz.
  assert (0 < Z.of_nat (length missing)) as Hmp by (destruct missing; [done|cbn; lia]).
  induction chunks as [|c chunks IH]; intros srv st cap buf Hf Hlim Hc HR; pose proof (f_equal length HR) as HL;
    cbn [mjoin list_join] in HR, HL; rewrite !length_app in HL; cbn [fmap list_fmap app read_loop];
    (assert (0 <= Z.of_nat (length buf) < Z.of_nat (length R)) as Hn by lia);
    (destruct (grow_room srv cap (Z.of_nat (length buf)) _ (proj1 Hlim) Hn Hc) as (cap' & -> & Hc')); [done|].
  apply list.Forall_cons in Hf as [Hcn Hf]. destruct Hlim as (Hr & Hhead & Hmax).
  destruct c as [|x c]; [done|]. cbv zeta. set (c' := x :: c) in *. rewrite app_assoc, <- (app_assoc (buf ++ c')) in HR.
  rewrite HR in Em. rewrite (memmem_prefix h _ _ Em). pose proof (length_app buf c') as Hbc.
  destruct (Nat.leb_spec (h + 4) (length (buf ++ c'))) as [Hge|Hlt].
  - destruct (parse_prefix R parsed req (buf ++ c') _ Hw HR ltac:(lia)) as (req' & -> & Hh).
    rewrite (content_length_headers req' req Hh). destruct (Z.leb_spec parsed 0); [lia|].
    assert ((0 <? sv_max_body srv) && (sv_max_body srv <? http_content_length req) = false) as Hmb.
    { destruct Hmax as [->|?]; [done|]. apply andb_false_intro2, Z.ltb_ge. lia. }
    cbn [sv_max_body set_conns] in Hmb |- *. rewrite Hmb. rewrite (wr_length _ _ _ Hw). rewrite (uwrap_small 64) by lia.
    destruct (Z.leb_spec (Z.of_nat (length R)) (Z.of_nat (length (buf ++ c')))) as [Hd|Hd]; [lia|].
    apply (read_part_rest now fd _ chunks); [done|done|done|]. rewrite !length_app, HL.
    rewrite Nat.add_assoc, (Nat2Z.inj_add _ (length missing)). apply Z.lt_add_pos_r. exact Hmp.
  - destruct (Z.ltb_spec 65536 (Z.of_nat (length (buf ++ c')))); [lia|].
    apply (IH _ _ cap' (buf ++ c')); [done|done|done|]. by rewrite <- app_assoc.
Qed.

(** C19: A request is lost when a read finds no more data before its end: the bytes
    read so far are discarded, nothing is answered, and the connection stays
    open; when the rest arrives it is taken for the start of a request. *)
Theorem partial_request_dropped env fd srv st chunks missing parsed req :
  whole_request (mjoin chunks ++ missing) parsed req -> missing <> [] ->
  within_limits srv (mjoin chunks ++ missing) parsed req -> Forall (fun c => c <> []) chunks ->
  handle_client env fd srv st ((RdData <$> chunks) ++ [RdAgain]) =
  kept (me_now env) fd (foldl (receive (me_now env) fd) (srv, st) chunks).
Proof.
  intros Hw Hm Hl Hf. unfold handle_client. rewrite (read_part _ _ _ missing _ _ Hw Hm); [done|done|done|done|done].
Qed.

(** ** Routes *)

(** Every entry of the route table leads to a route with that key. *)
Definition routes_ok (srv : miku_http_server) : Prop :=
  forall k v, sm_get (sv_route_map srv) k = Some v ->
    exists r, at_ (sv_routes srv) (v - 1) = Some r /\ route_key (rt_method r) (rt_path r) = k.

(** The servers that the set-up functions produce. *)
Inductive built : miku_http_server -> Prop :=
| built_create : built miku_http_server_create
| built_route srv m p fn : built srv -> built (miku_http_server_route srv m p fn).2
| built_use srv mw : built srv -> built (miku_http_server_use srv mw).2
| built_max_body srv n : built srv -> built (miku_http_server_set_max_body srv n)
| built_idle_timeout srv n : built srv -> built (miku_http_server_set_idle_timeout srv n)
| built_conns srv t : built srv -> built (set_conns srv t).

Lemma built_routes srv : built srv -> routes_ok srv.
Proof.
  induction 1 as [|srv m p fn _ IH|srv mw _ IH|srv n _ IH|srv n _ IH|srv t _ IH]; try exact IH.
  - intros k v. cbn. by rewrite sm_get_create.
  - unfold miku_http_server_route. cbv zeta. destruct (MAX_ROUTES <=? _); [exact IH|]. cbn [snd]. intros k v. cbn [sv_route_map sv_routes].
    rewrite sm_get_put. case_decide as E.
    + intros [= <-]. eexists. rewrite Z.add_simpl_r, at_snoc. split; [reflexivity|]. exact E.
    + intros (r & Hr & Hk)%IH. exists r. split; [|done]. rewrite at_app_l; [done|]. apply at_lt in Hr. lia.
  - unfold miku_http_server_use. destruct (MAX_MIDDLEWARE <=? _); exact IH.
Qed.

Lemma scan_routes_spec rs : forall i0 method path i, scan_routes rs i0 method path = Some i ->
  exists r, at_ rs (i - i0) = Some r /\ path = str (rt_path r) /\ i0 <= i.
Proof.
  induction rs as [|r rs IH]; intros i0 method path i E; cbn [scan_routes] in E; [done|].
  destruct (strcase_eq method (rt_method r)) eqn:Em; cbn [andb] in E; [destruct (bool_decide (path = str (rt_path r))) eqn:Ep|].
  - injection E as <-. exists r. rewrite Z.sub_diag. split_and!; [done|by apply bool_decide_eq_true in Ep|lia].
  - destruct (IH _ _ _ _ E) as (r' & H1 & H2 & H3). exists r'. split_and!; [|done|lia].
    apply at_Some in H1 as [_ H1]. apply at_Some. split; [lia|]. replace (Z.to_nat (i - i0)) with (Datatypes.S (Z.to_nat (i - (i0 + 1)))) by lia. done.
  - destruct (IH _ _ _ _ E) as (r' & H1 & H2 & H3). exists r'. split_and!; [|done|lia].
    apply at_Some in H1 as [_ H1]. apply at_Some. split; [lia|]. replace (Z.to_nat (i - i0)) with (Datatypes.S (Z.to_nat (i - (i0 + 1)))) by lia. done.
Qed.

Lemma string_length s : String.length s = length (str s).
Proof. induction s as [|c s IH]; [done|]. cbn. by rewrite IH. Qed.

Lemma key_eq m p m' p' : " "%char ∉ str m -> " "%char ∉ str m' -> m +:+ " " +:+ p = m' +:+ " " +:+ p' -> m = m' /\ p = p'.
Proof.
  intros H1 H2 E. apply (f_equal str) in E. rewrite !str_app in E. change (str " ") with [" "%char] in E. cbn [app] in E.
  pose proof (cut_at_app " " (str m) (str p) H1) as C1. pose proof (cut_at_app " " (str m') (str p') H2) as C2.
  rewrite E, C2 in C1. injection C1 as E1 E2. split; by apply str_inj.
Qed.

Lemma short_key k s : strn 511 s = k -> (String.length k < 511)%nat -> s = k.
Proof.
  intros <- H. rewrite strn_length in H. symmetry. apply strn_short. lia.
Qed.

Lemma method_name_word m : " "%char ∉ str (miku_http_method_name m) /\ (String.length (miku_http_method_name m) <= 7)%nat.
Proof. unfold miku_http_method_name. repeat case_match; split; first [by apply (bool_decide_unpack _)|cbn; lia]. Qed.

(** A request for one of the open paths reaches only a route for that path. *)
Lemma open_path_route srv req i r : routes_ok srv -> open_path req -> find_route srv req = Some i -> at_ (sv_routes srv) i = Some r ->
  " "%char ∉ str (rt_method r) -> str (rt_path r) = hq_path req.
Proof.
  intros Ho Hp. unfold find_route. cbv zeta.
  assert (exists p, hq_path req = str p /\ cstr (str p) = p /\ (String.length p <= 20)%nat) as (p & Ep & Ec & El).
  { unfold open_path in Hp. apply list_elem_of_fmap in Hp as (p & Ep & Hin). exists p. split; [done|]. clear Ep.
    repeat (apply elem_of_cons in Hin as [->|Hin]; [split; [by vm_compute|cbn; lia]|]). by apply elem_of_nil in Hin. }
  rewrite Ep, Ec. destruct (method_name_word (hq_method req)) as [Hw Hl]. set (name := miku_http_method_name (hq_method req)) in *.
  assert (String.length (name +:+ " " +:+ p) < 511)%nat as Hshort by (rewrite string_length in *; rewrite !str_app, !length_app; cbn [length str list_ascii_of_string]; lia).
  destruct (sm_get (sv_route_map srv) (route_key name p)) as [v|] eqn:Ev; cbn [Z.leb Z.compare andb].
  - destruct (Ho _ _ Ev) as (r' & Hr' & Hk). pose proof (at_lt _ _ _ Hr') as Hb.
    destruct (Z.leb_spec 0 (v - 1)); [|lia]. destruct (Z.ltb_spec (v - 1) (Z.of_nat (length (sv_routes srv)))); [|lia].
    intros [= <-] Hr Hm. rewrite Hr' in Hr. injection Hr as <-. unfold route_key in Hk. rewrite (strn_short 511 (name +:+ " " +:+ p)) in Hk by lia.
    apply short_key in Hk; [|done]. by destruct (key_eq _ _ _ _ Hm Hw Hk) as [_ ->].
  - intros (r' & Hr' & Hpath & _)%scan_routes_spec Hr Hm. rewrite Z.sub_0_r in Hr'. rewrite Hr' in Hr. by injection Hr as <-.
Qed.

(** ** Authentication of the handlers *)

Definition no_call (evs : list http_event) : Prop := forall i, HvCall i ∉ evs.

Definition same_config (srv srv' : miku_http_server) : Prop :=
  sv_routes srv' = sv_routes srv /\ sv_route_map srv' = sv_route_map srv /\ sv_middleware srv' = sv_middleware srv.

Lemma no_call_dec evs : forallb (fun e => match e with HvCall _ => false | _ => true end) evs = true -> no_call evs.
Proof. intros H i Hi. rewrite forallb_forall in H. by specialize (H _ (proj1 (list_elem_of_In _ _) Hi)). Qed.

(** The bytes that arrive before the reads stop. *)
Fixpoint data_of (reads : list read_result) : text :=
  match reads with RdData t :: reads => t ++ data_of reads | _ => [] end.

Lemma read_loop_config now fd reads : forall srv st cap buf need,
  match read_loop now fd srv st cap buf need reads with
  | inl r => no_call r.2
  | inr (srv', _, buf', _) => same_config srv srv' /\ exists rest, buf ++ data_of reads = buf' ++ rest
  end.
Proof.
  induction reads as [|rd reads IH]; intros srv st cap buf need; cbn [read_loop]; destruct (grow_buffer _ _ _) as [cap'|];
    try (by apply no_call_dec). destruct rd as [[|x data]| |]; try (by apply no_call_dec). cbv zeta.
  assert (forall t st cap need, match read_loop now fd (set_conns srv t) st cap (buf ++ x :: data) need reads with
    | inl r => no_call r.2
    | inr (srv', _, buf', _) => same_config srv srv' /\ exists rest, buf ++ data_of (RdData (x :: data) :: reads) = buf' ++ rest end) as IH'.
  { intros t st0 cap0 need0. specialize (IH (set_conns srv t) st0 cap0 (buf ++ x :: data) need0). cbn [data_of]. rewrite app_assoc.
    by destruct (read_loop _ _ _ _ _ _ _ reads) as [|[[[? ?] ?] ?]]. }
  assert (same_config srv (set_conns srv (conn_track_touch now (sv_conns srv) fd)) /\
    exists rest, buf ++ data_of (RdData (x :: data) :: reads) = (buf ++ x :: data) ++ rest) as Hnow.
  { split; [by split_and!|]. exists (data_of reads). cbn [data_of]. by rewrite <- app_assoc. }
  destruct need as [total|].
  - destruct (total <=? _); [exact Hnow|apply IH'].
  - destruct (memmem crlf2 _); [|destruct (65536 <? _); [by apply no_call_dec|apply IH']].
    destruct (miku_http_request_parse _ _) as [parsed req]. destruct (parsed <=? 0); [by apply no_call_dec|].
    destruct (_ && _); [by apply no_call_dec|]. destruct (_ <=? _); [exact Hnow|apply IH'].
Qed.

(** A middleware that touches neither the counters nor the handlers' state. *)
Definition lift_mw (f : mw_env -> miku_http_request M -> miku_http_response M -> mw_result * miku_http_response M) : middleware_fn :=
  fun env st req resp => let '(r, resp) := f env req resp in (r, resp, st).

Lemma run_middleware_all env mws req : forall st resp resp' st' mw, run_middleware env mws st req resp = (true, resp', st') -> mw ∈ mws ->
  exists st1 resp1, (mw env st1 req resp1).1.1 = MK_MW_CONTINUE.
Proof.
  induction mws as [|m mws IH]; intros st resp resp' st' mw E Hin; [by apply elem_of_nil in Hin|]. cbn [run_middleware] in E.
  destruct (m env st req resp) as [[r resp1] st1] eqn:Em. destruct r; [|done]. apply elem_of_cons in Hin as [->|Hin]; [|exact (IH _ _ _ _ _ E Hin)].
  exists st, resp. by rewrite Em.
Qed.

(** The request is what the parser makes of the first bytes of the reads. *)
Definition sent_in (reads : list read_result) (req : miku_http_request M) : Prop :=
  exists n, req = clamp_body (miku_http_request_parse miku_http_request_create (take n (data_of reads))).2.

Lemma handler_request env fd srv st reads i : HvCall i ∈ (handle_client env fd srv st reads).2 ->
  exists req srv' st0 resp st1, same_config srv srv' /\ find_route srv' req = Some i /\ sent_in reads req /\
    run_middleware env (sv_middleware srv') st0 req miku_http_response_create = (true, resp, st1).
Proof.
  unfold handle_client. pose proof (read_loop_config (me_now env) fd reads srv st READ_INIT [] None) as Hc.
  destruct (read_loop _ _ _ _ _ _ _ _) as [r|[[[srv' st'] buf] total]]; [intros Hin; by apply Hc in Hin|].
  destruct Hc as [Hc [rest Hrest]]. cbn [app] in Hrest. unfold serve.
  match goal with |- context [miku_http_request_parse _ ?x] => assert (exists n, x = take n (data_of reads)) as [n ->] end.
  { rewrite Hrest. destruct (0 <? total); [|exists (length buf); by rewrite take_app_length].
    exists (length (take (Z.to_nat total) buf)). rewrite <- (take_drop (Z.to_nat total) buf) at 3. by rewrite <- app_assoc, take_app_length. }
  assert (sent_in reads (clamp_body (miku_http_request_parse miku_http_request_create (take n (data_of reads))).2)) as Hsent by (by exists n).
  destruct (miku_http_request_parse _ _) as [parsed req]. destruct (parsed <=? 0).
  { intros Hin. exfalso. revert Hin. by apply no_call_dec. }
  cbn [snd] in Hsent. set (q := clamp_body req) in *. intros Hin. unfold answer in Hin. destruct (run_middleware _ _ _ _ _) as [[go resp] st1] eqn:Er.
  exists q, srv', st', resp, st1. split; [done|].
  assert (go = true /\ find_route srv' q = Some i) as [-> Hfr]; [|done].
  revert Hin. cbv zeta. destruct go.
  - unfold dispatch. destruct (find_route srv' q) as [j|]; [destruct (at_ (sv_routes srv') j) as [r|];
      [destruct (rt_handler r env st1 q resp) as [resp' st2]|]|];
      destruct (wants_close q); unfold drop_client; cbn [snd app]; rewrite !elem_of_cons, elem_of_nil; intuition congruence.
  - destruct (wants_close q); unfold drop_client; cbn [snd app]; rewrite !elem_of_cons, elem_of_nil; intuition congruence.
Qed.

(** C16: With the authentication among the middleware and enabled, no handler of a
    route other than the four that the code leaves open (/auth/user_token,
    /auth/admin_token, /admin/health, /version) ever runs for a request without
    a token that verifies; whatever the client sends, in whatever pieces.  The
    wiki lists /auth/parse_token, /admin/metrics and /prometheus* as open too,
    the README and the API description /admin/metrics: the code closes them. *)
Theorem http_handler_authenticated env fd srv st reads cfg i r :
  built srv -> am_enabled cfg = true -> lift_mw (fun env => miku_mw_auth env (Some cfg)) ∈ sv_middleware srv ->
  HvCall i ∈ (handle_client env fd srv st reads).2 -> at_ (sv_routes srv) i = Some r -> " "%char ∉ str (rt_method r) ->
  rt_path r ∉ ["/auth/user_token"; "/auth/admin_token"; "/admin/health"; "/version"] ->
  exists req, sent_in reads req /\ find_route srv req = Some i /\ authenticated env cfg req.
Proof.
  intros Hb He Hmw Hcall Hr Hm Hp. destruct (handler_request _ _ _ _ _ _ Hcall) as (req & srv' & st0 & resp & st1 & (C1 & C2 & C3) & Hf & Hsent & Hrun).
  assert (find_route srv req = Some i) as Hf' by (unfold find_route in *; by rewrite <- C1, <- C2).
  exists req. split; [exact Hsent|]. split; [exact Hf'|]. rewrite C3 in Hrun. destruct (run_middleware_all _ _ _ _ _ _ _ _ Hrun Hmw) as (st2 & resp2 & Hgo).
  unfold lift_mw in Hgo. destruct (auth_gate_exact env cfg req resp2 He) as [[_ [Hopen|Ha]]|(resp' & Es & _)]; [|exact Ha|].
  - exfalso. pose proof (open_path_route srv req i r (built_routes srv Hb) Hopen Hf' Hr Hm) as Epath. unfold open_path in Hopen.
    rewrite <- Epath in Hopen. apply list_elem_of_fmap in Hopen as (p & Estr & Hin). apply str_inj in Estr. subst p. by apply Hp.
  - rewrite Es in Hgo. done.
Qed.
End HttpServer.

Arguments miku_http_server M S : clear implicits.
Arguments middleware_fn M S : clear implicits.
Arguments handler_fn M S : clear implicits.

(** ** Examples *)

Definition ex_cfg : auth_mw_cfg := AuthMwCfg (Some "secret") true.
Definition ex_pong : handler_fn string_map unit := fun _ st _ resp => (miku_http_response_set_json resp (str "{}"), st).
Definition ex_open_server : miku_http_server string_map unit := (miku_http_server_route miku_http_server_create "GET" "/ping" ex_pong).2.
Definition ex_http_server : miku_http_server string_map unit :=
  (miku_http_server_use ex_open_server (lift_mw (fun env => miku_mw_auth env (Some ex_cfg)))).2.

Definition ex_token : string := cstr (default [] (miku_token_create (Some "alice") 1 (Some "secret") 256 "0123456789abcdef" 1000)).
Definition ex_env : mw_env := MwEnv (Revokes [] ∅) 2000 None "00000000-0000-4000-8000-000000000000".
Definition ex_state : miku_stats * unit := (miku_stats_init, tt).

Definition ex_get : text := request_text 1 (str "/ping") None [("Token", ex_token)] [].
Definition ex_chunks : list text := [take 10 ex_get; take 30 (drop 10 ex_get); drop 40 ex_get].

Definition ex_parsed : Z := Z.of_nat (length ex_get).
Definition ex_req : miku_http_request string_map := (miku_http_request_parse miku_http_request_create ex_get).2.

Lemma ex_whole : whole_request ex_get ex_parsed ex_req.
Proof.
  assert ((miku_http_request_parse (M := string_map) miku_http_request_create ex_get).1 = ex_parsed) as E by (vm_compute; reflexivity).
  split; [unfold ex_req; rewrite <- E; apply surjective_pairing|vm_compute; reflexivity..].
Qed.

Lemma ex_limits (srv : miku_http_server string_map unit) : sv_max_body srv = MIKU_DEFAULT_MAX_BODY -> within_limits srv ex_get ex_parsed ex_req.
Proof.
  intros E. split_and!.
  - left. apply Z.leb_le. vm_compute. reflexivity.
  - apply Z.leb_le. vm_compute. reflexivity.
  - right. rewrite E. apply Z.leb_le. vm_compute. reflexivity.
Qed.

Lemma http_serves_witness :
  (handle_client ex_env 5 ex_http_server ex_state (RdData <$> ex_chunks ++ [])).2 =
  (answer ex_env 5 (foldl (receive 2000 5) (ex_http_server, ex_state) ex_chunks).1 (foldl (receive 2000 5) (ex_http_server, ex_state) ex_chunks).2 ex_req).2.
Proof.
  assert (mjoin ex_chunks = ex_get) as Ej by (vm_compute; reflexivity).
  rewrite fmap_app. refine (f_equal snd (proj1 (http_serves ex_env 5 ex_http_server ex_state ex_chunks [] ex_parsed ex_req _ _ _))).
  - rewrite Ej. exact ex_whole.
  - rewrite Ej. apply ex_limits. reflexivity.
  - apply (bool_decide_unpack _). vm_compute. reflexivity.
Defined.

Lemma partial_request_dropped_witness :
  handle_client ex_env 5 ex_http_server ex_state ((RdData <$> take 2 ex_chunks) ++ [RdAgain]) =
  kept 2000 5 (foldl (receive 2000 5) (ex_http_server, ex_state) (take 2 ex_chunks)).
Proof.
  assert (mjoin (take 2 ex_chunks) ++ drop 40 ex_get = ex_get) as Ej by (vm_compute; reflexivity).
  refine (partial_request_dropped ex_env 5 ex_http_server ex_state (take 2 ex_chunks) (drop 40 ex_get) ex_parsed ex_req _ _ _ _).
  - rewrite Ej. exact ex_whole.
  - vm_compute. discriminate.
  - rewrite Ej. apply ex_limits. reflexivity.
  - apply (bool_decide_unpack _). vm_compute. reflexivity.
Defined.

Lemma http_handler_authenticated_witness : exists req,
  sent_in (RdData <$> ex_chunks) req /\ find_route ex_http_server req = Some 0 /\ authenticated ex_env ex_cfg req.
Proof.
  refine (http_handler_authenticated ex_env 5 ex_http_server ex_state (RdData <$> ex_chunks) ex_cfg 0
    (HttpRoute "GET" "/ping" ex_pong) _ _ _ _ _ _ _).
  - exact (built_use _ _ (built_route _ _ _ _ built_create)).
  - reflexivity.
  - apply list_elem_of_singleton. reflexivity.
  - apply head_Some_elem_of. vm_compute. reflexivity.
  - reflexivity.
  - apply (bool_decide_unpack _). vm_compute. reflexivity.
  - apply (bool_decide_unpack _). vm_compute. reflexivity.
Defined.

(** A request that arrives in two events is answered with an error. *)
Example split_request_rejected :
  let '(srv, st, out1) := handle_client ex_env 5 ex_open_server ex_state [RdData (str "GET /ping HT")] in
  out1 = [] /\
  (handle_client ex_env 5 srv st [RdData (str "TP/1.1" ++ crlf2)]).2 =
    [HvWrite 5 (bare_response "400 Bad Request"); HvClose 5; HvIoDel 5].
Proof. vm_compute. split; reflexivity. Qed.

(** After a request that is not understood the connection still counts as active. *)
Example bad_request_counted :
  let '(srv, st, _) := accept_conn 1000 ex_open_server ex_state [5] in
  let '(srv, st, _) := handle_client ex_env 5 srv st [RdData (str "hello" ++ crlf2)] in
  ct_conns (sv_conns srv) = [] /\ ms_connections_active st.1 = 1.
Proof. vm_compute. split; reflexivity. Qed.
