(* ===== verification/HttpClient.v ===== *)
(** * HTTP client (protocol/miku_http_client.c)

    The processes post JSON to one another.  Name resolution, connecting and
    the deadline belong to the operating system: what the socket gives back
    before the peer closes or the deadline passes is an argument, absent when
    no connection is made or the request cannot be written.

    [client_request_understood] says that the server's parser takes what the
    client writes for one complete request with the path, the secret and the
    payload it was given. *)
From Stdlib Require Import Ascii String.
From S2P Require Import Prelude Hash HashMap Json JsonText JsonEscape Models FriendRpc Token TokenSpec Http Middleware HttpConns HttpServer.
#[local] Open Scope string_scope.
#[local] Open Scope list_scope.
#[local] Open Scope Z_scope.

Definition MIKU_INTERNAL_SECRET_HEADER : string := "X-Internal-Secret".

(** [atoi]. *)
Definition atoi (t : text) : Z := default 0 (sscanf_d t).

(** Host, port and path; None is -1.  The buffers hold 256 and 512 characters. *)
Definition parse_http_url (url : string) : option (string * Z * string) :=
  if negb (starts_with (str "http://") (str url)) then None
  else
    let p := drop 7 (str url) in
    let slash := cut_at "/" p in
    let path := match slash with Some (_, rest) => strn 511 (string_of_list_ascii ("/"%char :: rest)) | None => "/" end in
    let hlen := match slash with Some (h, _) => length h | None => length p end in
    let '(host, port) := match cut_at ":" p with
                         | Some (h, rest) => if (length h <? hlen)%nat then (h, atoi rest) else (take hlen p, 80)
                         | None => (take hlen p, 80)
                         end in
    if nil_b host || (256 <=? tlen host) then None else Some (string_of_list_ascii host, port, path).

Definition client_text (path host : string) (port : Z) (payload : string) (secret : option string) : text :=
  str "POST " ++ str path ++ str " HTTP/1.1" ++ crlf ++
  str "Host: " ++ str host ++ str ":" ++ fmt_lld port ++ crlf ++
  str "Content-Type: application/json" ++ crlf ++
  str "Content-Length: " ++ fmt_lld (tlen (str payload)) ++ crlf ++
  match secret with Some s => str MIKU_INTERNAL_SECRET_HEADER ++ str ": " ++ str s ++ crlf | None => [] end ++
  str "Connection: close" ++ crlf ++
  str "User-Agent: miku-http-client/0.1" ++ crlf ++
  crlf ++ str payload.

(** The bytes of the request, with the secret of the deployment or without;
    None when they do not fit the buffer of 8192. *)
Definition request_bytes (path host : string) (port : Z) (payload : string) (secret : option string) : option text :=
  let t := client_text path host port payload secret in if 8192 <=? tlen t then None else Some t.

Fixpoint skip_word (t : text) : text :=
  match t with
  | c :: t' => if is_space c then t else skip_word t'
  | [] => []
  end.

(** [sscanf(buf, "HTTP/%*s %d", &status)]; None unless it returns 1. *)
Definition scan_status (buf : text) : option Z :=
  if negb (starts_with (str "HTTP/") buf) then None
  else
    let w := skip_space (drop 5 buf) in
    if nil_b w then None else sscanf_d (skip_space (skip_word w)).

(** What the caller gets from the bytes received: the status of the call and
    the body of the response, cut to the caller's buffer. *)
Definition read_response (received : text) (resp_cap : Z) : Z * string :=
  let buf := str (cstr (take 1023 received)) in
  match scan_status buf with
  | None => (-1, "")
  | Some status =>
      if (status <? 200) || (300 <=? status) then (-1, "")
      else (0, match memmem crlf2 buf with
               | Some i => strn (Z.to_nat (resp_cap - 1)) (string_of_list_ascii (drop (i + 4) buf))
               | None => ""
               end)
  end.

(** [net] is what the socket returns for the bytes that are written. *)
Definition post_json_resp_impl (net : string -> Z -> text -> option text) (url payload : string) (resp_cap : Z) (secret : option string) : Z * string :=
  match parse_http_url url with
  | None => (-1, "")
  | Some (host, port, path) =>
      match request_bytes path host port payload secret with
      | None => (-1, "")
      | Some t => match net host port t with
                  | None => (-1, "")
                  | Some received => read_response received resp_cap
                  end
      end
  end.

Definition miku_http_post_json_resp net url payload resp_cap : Z * string := post_json_resp_impl net url payload resp_cap None.

Definition miku_http_post_json_internal_resp net (env : option string) url payload resp_cap : Z * string :=
  post_json_resp_impl net url payload resp_cap (Some (miku_internal_secret env)).

Definition miku_http_post_json net url payload : Z := (miku_http_post_json_resp net url payload 0).1.

Definition miku_http_post_json_internal net (env : option string) url payload : Z := (miku_http_post_json_internal_resp net env url payload 0).1.

(** ** The request on the wire *)

Definition request_headers (host : string) (port : Z) (payload : string) (secret : option string) : list (string * string) :=
  [("Host", string_of_list_ascii (str host ++ str ":" ++ fmt_lld port)); ("Content-Type", "application/json");
   ("Content-Length", string_of_list_ascii (fmt_lld (tlen (str payload))))] ++
  match secret with Some s => [(MIKU_INTERNAL_SECRET_HEADER, s)] | None => [] end ++
  [("Connection", "close"); ("User-Agent", "miku-http-client/0.1")].

Lemma str_back t : str (string_of_list_ascii t) = t.
Proof. apply list_ascii_of_string_of_list_ascii. Qed.

Lemma client_text_lines path host port payload secret :
  client_text path host port payload secret =
  request_text MK_HTTP_POST (str path) None (request_headers host port payload secret) (str payload).
Proof.
  unfold client_text, request_text, request_headers, request_line, target_text, header_text.
  destruct secret as [s|]; cbn [app fmap list_fmap fst snd]; rewrite !joined_cons, !str_back, !app_nil_r, <- !app_assoc;
    cbn [app]; rewrite <- ?app_assoc; reflexivity.
Qed.

(** A text that can be a header value as it is. *)
Definition clean_value (s : string) : Prop := CR ∉ str s /\ no_nul s /\ head (str s) <> Some " "%char.

#[export] Instance clean_value_dec s : Decision (clean_value s).
Proof. unfold clean_value, no_nul. apply _. Defined.

Lemma fmt_head z : exists c t, fmt_lld z = c :: t /\ (c = "-"%char \/ exists d, 0 <= d < 10 /\ c = digit d).
Proof.
  unfold fmt_lld. destruct (Z.ltb_spec z 0); [eexists _, _; split; [reflexivity|by left]|].
  assert (forall fuel n, 0 <= n -> exists c t, dec_digits (S fuel) n = c :: t /\ exists d, 0 <= d < 10 /\ c = digit d) as Hd.
  { induction fuel as [|fuel IH]; intros n Hn; cbn [dec_digits]; destruct (Z.ltb_spec n 10);
      [by eexists _, []; eauto|eexists _, []; split; [reflexivity|]; exists (n mod 10); split; [apply Z.mod_pos_bound; lia|done]|by eexists _, []; eauto|].
    destruct (IH (n / 10) ltac:(apply Z.div_pos; lia)) as (c & t & E & Hc). cbn [dec_digits] in E. rewrite E. by eexists _, _. }
  destruct (Hd 19%nat z ltac:(lia)) as (c & t & E & Hc). exists c, t. split; [exact E|by right].
Qed.

Lemma fmt_value_clean z : clean_value (string_of_list_ascii (fmt_lld z)).
Proof.
  unfold clean_value, no_nul. rewrite str_back. split_and!; [apply fmt_no_cr|by apply fmt_not|].
  destruct (fmt_head z) as (c & t & -> & [->|(d & Hd & ->)]); [done|]. cbn [head]. intros [= E].
  assert (d ∈ [0;1;2;3;4;5;6;7;8;9]) as Hin by (rewrite !elem_of_cons; lia).
  repeat (apply elem_of_cons in Hin as [->|Hin]; [done|]). by apply elem_of_nil in Hin.
Qed.

Lemma host_value_clean host port : clean_value host -> host <> "" -> clean_value (string_of_list_ascii (str host ++ str ":" ++ fmt_lld port)).
Proof.
  intros (H1 & H2 & H3) Hne. unfold clean_value, no_nul in *. rewrite str_back. split_and!.
  - repeat apply no_cr_app; [done|by apply literal_no_cr|apply fmt_no_cr].
  - rewrite !elem_of_app. intros [?|[?|?]]; [done|by apply (bool_decide_unpack (NUL ∉ str ":")) in H|]. by apply (fmt_not NUL port).
  - destruct host as [|c host]; [done|]. exact H3.
Qed.

Lemma value_clean_header k v : clean_header (k, "") -> clean_value v -> clean_header (k, v).
Proof. intros (H1 & H2 & H3 & _) (V1 & V2 & V3). by split_and!. Qed.

Lemma request_headers_clean host port payload secret :
  clean_value host -> host <> "" -> (forall s, secret = Some s -> clean_value s) -> Forall clean_header (request_headers host port payload secret).
Proof.
  intros Hh Hne Hs. unfold request_headers.
  apply list.Forall_app. split; [|apply list.Forall_app; split].
  - repeat (apply list.Forall_cons; split); [| | |by apply list.Forall_nil]; apply value_clean_header;
      try (by apply (bool_decide_unpack _)); [by apply host_value_clean|apply fmt_value_clean].
  - destruct secret as [s|]; [|by apply list.Forall_nil]. apply list.Forall_singleton, value_clean_header; [by apply (bool_decide_unpack _)|by apply Hs].
  - by apply (bool_decide_unpack _).
Qed.

Lemma strtoul_fmt n : 0 <= n < 2 ^ 31 -> strtoul10 (string_of_list_ascii (fmt_lld n)) = n.
Proof.
  intros Hn. destruct (fmt_lld_shape n) as (sg & ds & E & Hs & Hd & Hl); [unfold LLONG_MIN, LLONG_MAX; lia|].
  unfold strtoul10. rewrite str_back, E.
  assert (sg = [] /\ digits_val ds = n) as [-> Hv].
  { destruct Hs as [?|[-> Hv]]; [done|]. exfalso. unfold fmt_lld in E. destruct (Z.ltb_spec n 0); [lia|].
    destruct (dec_digits_ok 20 n) as (Hall & _); [lia|]. rewrite E in Hall. apply list.Forall_cons in Hall as [Hc _]. done. }
  cbn [app]. pose proof (span_digits_run ds [] Hd I) as Hr. rewrite app_nil_r in Hr.
  destruct ds as [|c ds]; [cbn in Hl; lia|]. pose proof Hd as Hd'. apply list.Forall_cons in Hd' as [Hc _].
  assert (is_space c = false /\ Ascii.eqb c "-" = false /\ Ascii.eqb c "+" = false) as (C1 & C2 & C3).
  { unfold is_digit in Hc. apply andb_prop in Hc as [H1%Z.leb_le H2%Z.leb_le]. split_and!.
    - unfold is_space. destruct (Z.eqb_spec (code c) 32); [lia|]. destruct (Z.leb_spec 9 (code c)), (Z.leb_spec (code c) 13); done || lia.
    - apply Ascii.eqb_neq. intros ->. by vm_compute in H1.
    - apply Ascii.eqb_neq. intros ->. by vm_compute in H1. }
  cbn [skip_space]. rewrite C1, C2, C3, Hr. cbn [fst]. rewrite Hv. unfold ULLONG_MAX. destruct (Z.ltb_spec 18446744073709551615 n); [lia|done].
Qed.

Section Wire.
Context {M : Type -> Type} {SM : StringMap M} {S : Type}.

(** What the client writes is a request for the server: for a path, host and
    secret without the characters that end a line or a field, the bytes are one
    complete request that keeps to the server's limits, a POST to the path with
    the payload as its body, the secret under its header, and the wish to close
    the connection. *)
Theorem client_request_understood path host port payload secret t :
  request_bytes path host port payload secret = Some t ->
  " "%char ∉ str path -> "?"%char ∉ str path -> CR ∉ str path -> clean_value host -> host <> "" ->
  (forall s, secret = Some s -> clean_value s) ->
  exists parsed (req : miku_http_request M), whole_request t parsed req /\
    (forall srv : miku_http_server M S, 8192 <= sv_max_body srv -> within_limits srv t parsed req) /\
    hq_method req = MK_HTTP_POST /\ hq_path req = str path /\ hq_body req = str payload /\ wants_close req = true /\
    sm_get (hq_headers req) "X-Internal-Secret" = None /\ sm_get (hq_headers req) "x-internal-secret" = secret.
Proof.
  intros Hb Hp1 Hp2 Hp3 Hh Hne Hs. unfold request_bytes in Hb. destruct (Z.leb_spec 8192 (tlen (client_text path host port payload secret))) as [|Hl]; [done|].
  injection Hb as <-. rewrite client_text_lines in *. set (hs := request_headers host port payload secret) in *.
  destruct (http_request_roundtrip (M := M) MK_HTTP_POST (str path) None hs (str payload)) as (req & E & E1 & E2 & _ & E4 & E5);
    [unfold MK_HTTP_POST; lia|done|done|done|done|by apply request_headers_clean|].
  assert (length (request_text MK_HTTP_POST (str path) None hs (str payload)) =
    (length (request_text MK_HTTP_POST (str path) None hs []) + length (str payload))%nat) as Hlen.
  { unfold request_text. rewrite app_nil_r, !length_app. lia. }
  unfold tlen in *. assert (0 < length (request_text MK_HTTP_POST (str path) None hs []))%nat as Hpos by (unfold request_text; rewrite joined_cons, !length_app; cbn; lia).
  assert (http_content_length req = Z.of_nat (length (str payload))) as Hcl.
  { unfold http_content_length. rewrite E5. unfold hs, request_headers, tlen.
    set (v := fmt_lld (Z.of_nat (length (str payload)))). set (w := string_of_list_ascii (str host ++ _)).
    transitivity (if nonempty (string_of_list_ascii v) then strtoul10 (string_of_list_ascii v) else 0); [destruct secret; reflexivity|].
    unfold v. rewrite strtoul_fmt by lia. destruct (fmt_head (Z.of_nat (length (str payload)))) as (c & r & -> & _). done. }
  rewrite i32_small in E by lia. exists (Z.of_nat (length (request_text MK_HTTP_POST (str path) None hs []))), req.
  split; [split; [exact E|lia|lia|lia]|]. split; [intros srv Hm; split_and!; [left; lia|lia|right; lia]|].
  split; [exact E1|]. split; [exact E2|]. split; [exact E4|]. unfold wants_close. rewrite !E5. unfold hs, request_headers.
  set (v := string_of_list_ascii (fmt_lld _)). set (w := string_of_list_ascii (str host ++ _)). by destruct secret.
Qed.
End Wire.
