(* ===== verification/ApiMain.v ===== *)
(** * The API program and the gateway's admin port
    (cmd/miku-api/main.c, cmd/miku-msggateway/main.c)

    The API process tells the gateway process of logouts, of changes to groups
    and black lists and of sent messages, by posting JSON to the gateway's
    admin port.  The callbacks of the API print the bodies; the handlers of the
    admin port (in [GwIo]) read them.  The two ends are put together here, with
    the HTTP client and server between them: [kick_arrives] and
    [blacklist_arrives] follow a call to the program that runs at the other
    end.  [api_chain] is the middleware of the API server, with the secret that
    the program fixes. *)
From Stdlib Require Import Ascii String.
From S2P Require Import Prelude Hash HashMap Json JsonText JsonEscape Models Friend FriendRpc Group Conversation MsgStore MsgStoreSpec ImMessage.
From S2P Require Import Bytes Token TokenSpec Atomic WebSocket WsServer WsSub Auth ApiCore GwTable GwSend GwOps GwIo.
From S2P Require Import Http Middleware HttpConns HttpServer HttpClient.
#[local] Open Scope string_scope.
#[local] Open Scope list_scope.
#[local] Open Scope Z_scope.

(** ** The API program *)

(** [snprintf(g_kick_url, 128, "http://127.0.0.1:%d/internal/kick", ws_port + 1)] and the like. *)
Definition internal_url (ws_port : Z) (what : string) : string :=
  cstr (snprintf 128 (str "http://127.0.0.1:" ++ fmt_lld (ws_port + 1) ++ str "/internal/" ++ str what)).1.

(** The bodies, as C strings; None is an early return. *)
Definition kick_body (user_id : string) (platform : Z) : string :=
  cstr (snprintf 320 (raw_object [("userID", esc_field user_id 256); ("platformID", fmt_lld platform)])).1.

Definition group_member_body (group_id user_id : string) (role : Z) (remove : bool) : option string :=
  if remove then
    cstr <$> miku_json_build_str_obj 768 [("groupID", Some group_id); ("userID", Some user_id); ("action", Some "remove")]
  else
    Some (cstr (snprintf 768 (raw_object [("groupID", esc_field group_id 256); ("userID", esc_field user_id 256);
                                          ("role", fmt_lld role); ("action", quoted (str "add"))])).1).

Definition blacklist_body (owner blocked : string) (remove : bool) : option string :=
  cstr <$> miku_json_build_str_obj 768 [("ownerUserID", Some owner); ("blockUserID", Some blocked);
                                        ("action", Some (if remove then "remove" else "add"))].

(** What the callbacks post: the address and the body. *)
Definition api_kick_user (ws_port : Z) (user_id : string) (platform : Z) : option (string * string) :=
  Some (internal_url ws_port "kick", kick_body user_id platform).

Definition api_group_member (ws_port : Z) (group_id user_id : string) (role : Z) (remove : bool) : option (string * string) :=
  b ← group_member_body group_id user_id role remove; Some (internal_url ws_port "group_member", b).

Definition api_blacklist (ws_port : Z) (owner blocked : string) (remove : bool) : option (string * string) :=
  b ← blacklist_body owner blocked remove; Some (internal_url ws_port "blacklist", b).

(** The message with what the gateway assigned to it. *)
Definition adopt (rj : option json) (im : miku_im_msg) : miku_im_msg :=
  let seq := jint rj "seq" in
  let st := jint rj "sendTime" in
  let smid := jstr rj "serverMsgID" in
  ImMsg (if given smid then strn 63 (default "" smid) else im_msg_id im) (im_client_msg_id im) (im_send_id im) (im_recv_id im)
        (im_group_id im) (im_conversation_id im) (im_content_type im) (im_conversation_type im)
        (if 0 <? seq then seq else im_seq im) (if 0 <? st then st else im_send_time im)
        (im_create_time im) (im_sender_platform im) (im_content im) (im_sender_nickname im) (im_sender_face_url im)
        (im_is_read im) (im_status im).

(** None is -1. *)
Definition api_msg_sent (net : string -> Z -> text -> option text) (env : option string) (ws_port : Z) (im : miku_im_msg) : option miku_im_msg :=
  j ← miku_im_msg_to_json (Some im);
  let '(rc, resp) := miku_http_post_json_internal_resp net env (internal_url ws_port "push_msg") (cstr (miku_json_stringify (Some j))) 512 in
  if negb (rc =? 0) then None
  else if nonempty resp then
    match miku_json_parse_str (Some resp) with
    | None => Some im
    | Some rj => if negb (jint (Some rj) "errCode" =? 0) then None else Some (adopt (Some rj) im)
    end
  else Some im.

Section Programs.
Context {M : Type -> Type} {SM : StringMap M} {S : Type}.

Definition count_api_request : middleware_fn M S := fun _ st req resp =>
  let '(r, resp, s) := miku_mw_stats (Some st.1) req resp in (r, resp, (default st.1 s, st.2)).

(** The secret is fixed in the program. *)
Definition auth_cfg : auth_mw_cfg := AuthMwCfg (Some "openIM123") true.
Definition rl_cfg : rate_limit_cfg := RateLimitCfg 60000 100 true.

(** The middleware of the API server, in the order of [miku_http_server_use]. *)
Definition api_chain : list (middleware_fn M S) :=
  [lift_mw (fun _ => miku_mw_cors); lift_mw miku_mw_request_id; lift_mw (fun _ => miku_mw_logging);
   lift_mw (fun env => miku_mw_auth env (Some auth_cfg)); count_api_request; lift_mw (fun _ => miku_mw_rate_limit (Some rl_cfg))].

Definition api_server (routes : list (string * string * handler_fn M S)) : miku_http_server M S :=
  let srv := foldl (fun srv mw => (miku_http_server_use srv mw).2) miku_http_server_create (take 5 api_chain) in
  let srv := foldl (fun srv '(m, p, fn) => (miku_http_server_route srv m p fn).2) srv routes in
  foldl (fun srv mw => (miku_http_server_use srv mw).2) srv (drop 5 api_chain).

(** ** The admin port *)

Definition admin_server (kick group_member blacklist push_msg : handler_fn M S) : miku_http_server M S :=
  let srv := (miku_http_server_route miku_http_server_create "POST" "/internal/kick" kick).2 in
  let srv := (miku_http_server_route srv "POST" "/internal/group_member" group_member).2 in
  let srv := (miku_http_server_route srv "POST" "/internal/blacklist" blacklist).2 in
  (miku_http_server_route srv "POST" "/internal/push_msg" push_msg).2.
End Programs.

(** The request as the handlers see it. *)
Definition api_view {M} {SM : StringMap M} (req : miku_http_request M) : http_request :=
  HttpRequest (cstr (hq_path req)) (Some (list_to_map (sm_bindings (hq_headers req)))) (hq_body req).

(** A program of the admin port as a handler: it runs to its end. *)
Definition admin_handler {M} {SM : StringMap M} (p : Z -> http_request -> gprog http_response) : handler_fn M gateway :=
  fun env st req resp =>
    let '(r, w) := run (p (me_now env) (api_view req)) st.2 in
    (set_status (miku_http_response_set_json resp (rs_body r)) (rs_status r), (st.1, w)).

Definition gateway_admin {M} {SM : StringMap M} (secret : option string) (push_msg : handler_fn M gateway) : miku_http_server M gateway :=
  admin_server (admin_handler (fun now => handle_internal_kick secret now)) (admin_handler (fun now => handle_internal_group_member secret now))
               (admin_handler (fun now => handle_internal_blacklist secret now)) push_msg.

(** ** Bodies *)

Lemma hex_digit_some d : 0 <= d < 16 -> hex_digit d <> NUL.
Proof.
  intros Hd. assert (d ∈ [0;1;2;3;4;5;6;7;8;9;10;11;12;13;14;15]) as Hin by (rewrite !elem_of_cons; lia).
  repeat (apply elem_of_cons in Hin as [->|Hin]; [by vm_compute|]). by apply elem_of_nil in Hin.
Qed.

Lemma code_bound c : 0 <= code c < 256.
Proof. destruct c as [[] [] [] [] [] [] [] []]; vm_compute; split; congruence. Qed.

Lemma escape_loop_no_nul p : forall pos cap, NUL ∉ escape_loop p pos cap.
Proof.
  induction p as [|c p IH]; intros pos cap; cbn [escape_loop]; [by intros ?%elem_of_nil|].
  destruct (Ascii.eqb c NUL) eqn:En; cbn [orb]; [by intros ?%elem_of_nil|]. apply Ascii.eqb_neq in En.
  destruct (negb (pos + 2 <? cap)); [by intros ?%elem_of_nil|]. destruct (Ascii.eqb c QUOTE || Ascii.eqb c "\").
  { destruct (cap <=? pos + 2); [by intros ?%elem_of_nil|]. rewrite !not_elem_of_cons. split_and!; [done|congruence|apply IH]. }
  destruct (code c <? 32); [|rewrite not_elem_of_cons; split; [congruence|apply IH]].
  destruct (cap <=? pos + 6); [by intros ?%elem_of_nil|]. rewrite elem_of_app. intros [Hin|Hin]; [|by apply IH in Hin].
  pose proof (code_bound c). unfold u_esc in Hin. rewrite !elem_of_cons, elem_of_nil in Hin.
  pose proof (hex_digit_some (code c / 16)). pose proof (hex_digit_some (code c mod 16) ltac:(apply Z.mod_pos_bound; lia)).
  assert (0 <= code c / 16 < 16) by (split; [apply Z.div_pos; lia|apply Z.div_lt_upper_bound; lia]).
  destruct Hin as [?|[?|[?|[?|[?|[?|?]]]]]]; try done; naive_solver.
Qed.

Definition printed (kt : string * text) : Prop := NUL ∉ str kt.1 /\ NUL ∉ kt.2.

Lemma raw_object_no_nul l : Forall printed l -> NUL ∉ raw_object l.
Proof.
  intros H. unfold raw_object. rewrite not_elem_of_cons, elem_of_app. split; [done|]. intros [Hin|Hin];
    [|apply list_elem_of_singleton in Hin; done]. revert Hin. generalize true. induction H as [|[k t] l [H1 H2] _ IH]; intros b;
    [by intros ?%elem_of_nil|]. cbn [raw_members]. unfold quoted. cbn [app]. rewrite !elem_of_app, !elem_of_cons, !elem_of_app, !elem_of_cons, !elem_of_app, !elem_of_nil.
  cbn [fst snd] in *. intros [Hin|[?|[[?|[?|?]]|[?|[?|?]]]]]; try done; [|by apply (IH false)].
  destruct b; [by apply elem_of_nil in Hin|]. apply list_elem_of_singleton in Hin. done.
Qed.

Lemma esc_field_printed k s cap : NUL ∉ str k -> printed (k, esc_field s cap).
Proof.
  intros Hk. split; [done|]. cbn [snd]. unfold esc_field, quoted, miku_json_escape_str. rewrite not_elem_of_cons, elem_of_app, list_elem_of_singleton.
  split; [done|]. intros [Hin|?]; [by apply escape_loop_no_nul in Hin|done].
Qed.

Lemma fmt_printed k z : NUL ∉ str k -> printed (k, fmt_lld z).
Proof. intros Hk. split; [done|by apply fmt_not]. Qed.

(** A text without NUL is a C string. *)
Lemma cstr_text t : NUL ∉ t -> str (cstr t) = t.
Proof.
  induction t as [|c t IH]; intros H; [done|]. apply not_elem_of_cons in H as [H1 H2]. cbn [cstr].
  rewrite (proj2 (Ascii.eqb_neq c NUL)) by congruence. change (str (String c (cstr t))) with (c :: str (cstr t)). by rewrite IH.
Qed.

(** The parser reads back an object printed by hand. *)
Lemma body_parsed l vs : Forall printed l -> Forall2 pair_reads l vs -> l <> [] -> NoDup vs.*1 -> Z.of_nat (length vs) < 2 ^ 27 ->
  exists v, miku_json_parse_str (Some (cstr (raw_object l))) = Some v /\ obj_is v (list_to_map vs).
Proof.
  intros Hp H Hne Hnd Hlen. destruct (raw_object_reads l vs H Hne Hnd Hlen) as (v & R & O). exists v. split; [|exact O].
  unfold miku_json_parse_str, miku_json_parse. cbn [fmap option_fmap option_map]. rewrite cstr_text by (by apply raw_object_no_nul).
  pose proof (R (parse_fuel (raw_object l)) [] I) as P. rewrite app_nil_r in P. rewrite P; [done|]. unfold parse_fuel. lia.
Qed.

Lemma build_text cap kvs t : miku_json_build_str_obj cap kvs = Some t -> t = raw_object (pair_text <$> kvs).
Proof.
  unfold miku_json_build_str_obj. destruct (cap <? 3); [done|]. destruct (foldl _ _ _) as [[out f]|] eqn:E; [|done].
  cbn [mbind option_bind]. destruct (cap <? _); [done|]. intros [= <-]. apply build_pairs_text in E. by subst out.
Qed.

(** Strings of at most 85 characters are read back as they are. *)
Lemma build_parsed cap kvs t : miku_json_build_str_obj cap kvs = Some t -> kvs <> [] -> NoDup kvs.*1 -> Z.of_nat (length kvs) < 2 ^ 27 ->
  Forall (fun kv => plain kv.1 /\ no_nul (default "" kv.2) /\ (String.length (default "" kv.2) <= 85)%nat) kvs ->
  exists v, miku_json_parse_str (Some (cstr t)) = Some v /\ obj_is v (list_to_map ((fun kv => (kv.1, JStr (default "" kv.2))) <$> kvs)).
Proof.
  intros ->%build_text Hne Hnd Hlen Hf. apply body_parsed.
  - apply list.Forall_fmap. eapply list.Forall_impl; [exact Hf|]. intros [k s] ([Hk _] & _). by apply esc_field_printed.
  - apply Forall2_fmap_l, Forall2_fmap_r, list.Forall_Forall2_diag. eapply list.Forall_impl; [exact Hf|]. intros [k s] (Hk & Hs & Hl).
    cbn [fst snd pair_text] in *. apply pair_reads_intro; [done|]. destruct (esc_field_reads _ 512 Hs ltac:(lia)) as (n & R & F).
    rewrite F in R by lia. exact R.
  - by destruct kvs.
  - rewrite <- list_fmap_compose. exact Hnd.
  - by rewrite length_fmap.
Qed.

Lemma kick_length (a b : text) : length (raw_object [("userID", a); ("platformID", b)]) = (25 + length a + length b)%nat.
Proof. unfold raw_object, quoted. cbn. rewrite !length_app. cbn. rewrite !length_app. cbn. lia. Qed.

Lemma kick_body_text user platform :
  kick_body user platform = cstr (raw_object [("userID", esc_field user 256); ("platformID", fmt_lld platform)]).
Proof.
  unfold kick_body, snprintf. cbn [fst]. rewrite take_ge; [done|]. rewrite kick_length.
  pose proof (esc_field_length user 256 ltac:(lia)). pose proof (fmt_lld_length platform). unfold tlen in *.
  change (Z.to_nat (320 - 1)) with 319%nat. lia.
Qed.

(** ** Addresses *)

Lemma internal_url_parts ws_port what : 0 <= ws_port < 65535 -> (String.length what <= 20)%nat -> no_nul what ->
  parse_http_url (internal_url ws_port what) = Some ("127.0.0.1", ws_port + 1, "/internal/" +:+ what).
Proof.
  intros Hp Hl Hn. rewrite string_length in Hl. set (f := fmt_lld (ws_port + 1)).
  assert (str (internal_url ws_port what) = str "http://127.0.0.1:" ++ f ++ str "/internal/" ++ str what) as E.
  { unfold internal_url, snprintf. cbn [fst]. pose proof (fmt_lld_length (ws_port + 1)) as Hf. unfold tlen in Hf.
    rewrite take_ge by (rewrite !length_app; change (length (str "http://127.0.0.1:")) with 17%nat; change (length (str "/internal/")) with 10%nat;
      change (Z.to_nat (128 - 1)) with 127%nat; lia).
    apply cstr_text. rewrite !elem_of_app. intros [H|[H|[H|H]]]; [|by apply (fmt_not NUL (ws_port + 1)) in H| |by apply Hn].
    - revert H. by apply (bool_decide_unpack _).
    - revert H. by apply (bool_decide_unpack _). }
  unfold parse_http_url. rewrite E.
  replace (starts_with (str "http://") (str "http://127.0.0.1:" ++ f ++ str "/internal/" ++ str what)) with true by reflexivity.
  cbn [negb]. change (drop 7 (str "http://127.0.0.1:" ++ f ++ str "/internal/" ++ str what))
    with (str "127.0.0.1:" ++ f ++ str "/internal/" ++ str what).
  assert (cut_at "/" (str "127.0.0.1:" ++ f ++ str "/internal/" ++ str what) = Some (str "127.0.0.1:" ++ f, str "internal/" ++ str what)) as E1.
  { change (str "/internal/" ++ str what) with ("/"%char :: (str "internal/" ++ str what)). rewrite app_assoc. apply cut_at_app.
    rewrite elem_of_app. intros [H|H]; [revert H; by apply (bool_decide_unpack _)|by apply (fmt_not "/" (ws_port + 1)) in H]. }
  assert (cut_at ":" (str "127.0.0.1:" ++ f ++ str "/internal/" ++ str what) = Some (str "127.0.0.1", f ++ str "/internal/" ++ str what)) as E2.
  { change (str "127.0.0.1:" ++ f ++ str "/internal/" ++ str what) with (str "127.0.0.1" ++ (":"%char :: (f ++ str "/internal/" ++ str what))).
    apply cut_at_app. by apply (bool_decide_unpack _). }
  rewrite E1, E2. cbv zeta. rewrite length_app.
  destruct (Nat.ltb_spec (length (str "127.0.0.1")) (length (str "127.0.0.1:") + length f)) as [_|Hlt]; [|cbn in Hlt; lia].
  assert (atoi (f ++ str "/internal/" ++ str what) = ws_port + 1) as ->.
  { unfold atoi, f. rewrite sscanf_d_fmt; [done|lia|]. cbn. done. }
  change (nil_b (str "127.0.0.1") || (256 <=? tlen (str "127.0.0.1"))) with false. cbn iota.
  f_equal. f_equal. rewrite strn_short.
  - apply str_inj. rewrite str_back, str_app. reflexivity.
  - rewrite string_length, str_back. cbn [length]. rewrite length_app. change (length (str "internal/")) with 9%nat. lia.
Qed.

Section Arrival.
Context {M : Type -> Type} {SM : StringMap M}.

Lemma view_header (req : miku_http_request M) k : (list_to_map (sm_bindings (hq_headers req)) : gmap string string) !! k = sm_get (hq_headers req) k.
Proof.
  apply option_eq. intros v. rewrite <- elem_of_list_to_map by apply sm_bindings_nodup. apply sm_bindings_get.
Qed.

Lemma view_authorized secret (req : miku_http_request M) :
  sm_get (hq_headers req) "X-Internal-Secret" = None -> sm_get (hq_headers req) "x-internal-secret" = Some (miku_internal_secret secret) ->
  internal_req_authorized secret (api_view req) = true.
Proof.
  intros H1 H2. unfold internal_req_authorized, api_view. cbn [rq_headers]. rewrite !view_header, H1, H2. apply streq_refl.
Qed.

Lemma receive_state now fd chunks : forall (srv : miku_http_server M gateway) st,
  (foldl (receive now fd) (srv, st) chunks).2.2 = st.2 /\ same_config srv (foldl (receive now fd) (srv, st) chunks).1.
Proof.
  induction chunks as [|c chunks IH]; intros srv st; [by split_and!|]. cbn [foldl]. unfold receive at 2 4. cbn [fst snd].
  destruct (IH (set_conns srv (conn_track_touch now (sv_conns srv) fd)) (on_stats (fun s => miku_stats_bytes_recv s (Z.of_nat (length c))) st)) as [H1 H2].
  split; [exact H1|]. exact H2.
Qed.

(** The routes of the admin port. *)
Lemma admin_routes (k g b p : handler_fn M gateway) (srv : miku_http_server M gateway) req i what :
  same_config (admin_server k g b p) srv -> hq_method req = MK_HTTP_POST ->
  hq_path req = str ("/internal/" +:+ what) ->
  (i, what) ∈ [(0, "kick"); (1, "group_member"); (2, "blacklist"); (3, "push_msg")] ->
  find_route srv req = Some i.
Proof.
  intros (C1 & C2 & C3) Hm Hp Hin. unfold find_route. rewrite Hm, Hp, C1, C2. cbv zeta.
  assert (sv_route_map (admin_server k g b p) =
    sm_put (sm_put (sm_put (sm_put (sm_create 256) (route_key "POST" "/internal/kick") 1) (route_key "POST" "/internal/group_member") 2)
      (route_key "POST" "/internal/blacklist") 3) (route_key "POST" "/internal/push_msg") 4) as -> by reflexivity.
  change (length (sv_routes (admin_server k g b p))) with 4%nat. rewrite !sm_get_put.
  repeat (apply elem_of_cons in Hin as [[= -> ->]|Hin]; [vm_compute; reflexivity|]). by apply elem_of_nil in Hin.
Qed.
End Arrival.

(** ** From the call to the gateway's state *)

(** The bytes that posting a body to an address writes, with the secret. *)
Definition wire (secret : option string) (url body : string) : option text :=
  '(host, port, path) ← parse_http_url url; request_bytes path host port body (Some (miku_internal_secret secret)).

Section EndToEnd.
Context {M : Type -> Type} {SM : StringMap M}.
Variable (secret : option string) (push_msg : handler_fn M gateway) (menv : mw_env) (fd : Z) (tbl : conn_table).
Variable (stats : miku_stats) (w : gateway) (chunks : list text) (rest : list read_result) (ws_port : Z).
Hypothesis secret_clean : clean_value (miku_internal_secret secret).
Hypothesis port_ok : 0 <= ws_port < 65535.
Hypothesis chunks_full : Forall (fun c => c <> []) chunks.

(** The gateway's state after the admin port has read the chunks. *)
Definition after_post : gateway :=
  (handle_client menv fd (set_conns (gateway_admin secret push_msg) tbl) (stats, w) ((RdData <$> chunks) ++ rest)).1.2.2.

Lemma answer_state (srv : miku_http_server M gateway) st req i r p :
  sv_middleware srv = [] -> find_route srv req = Some i -> at_ (sv_routes srv) i = Some r -> rt_handler r = admin_handler p ->
  (answer menv fd srv st req).1.2.2 = (run (p (me_now menv) (api_view req)) st.2).2.
Proof.
  intros H1 H2 H3 H4. unfold answer. rewrite H1. cbn [run_middleware]. unfold dispatch. rewrite H2, H3, H4. unfold admin_handler.
  destruct (run (p (me_now menv) (api_view req)) st.2) as [resp w']. destruct (wants_close req); reflexivity.
Qed.

(** A body posted to one of the addresses reaches its program, authorized. *)
Lemma post_arrives what i body p :
  (i, what) ∈ [(0, "kick"); (1, "group_member"); (2, "blacklist"); (3, "push_msg")] ->
  (exists r, at_ (sv_routes (gateway_admin secret push_msg)) i = Some r /\ rt_handler r = admin_handler p) ->
  wire secret (internal_url ws_port what) body = Some (mjoin chunks) ->
  exists req : http_request, internal_req_authorized secret req = true /\ rq_body req = str body /\
    after_post = (run (p (me_now menv) req) w).2.
Proof.
  intros Hin (r & Hr & Hp) Hw. unfold wire in Hw.
  assert ((String.length what <= 20)%nat /\ no_nul what) as [Hl Hn].
  { clear -Hin. repeat (apply elem_of_cons in Hin as [[= _ ->]|Hin]; [split; [cbn; lia|by apply (bool_decide_unpack _)]|]). by apply elem_of_nil in Hin. }
  rewrite internal_url_parts in Hw by done. cbn [mbind option_bind] in Hw.
  assert (" "%char ∉ str ("/internal/" +:+ what) /\ "?"%char ∉ str ("/internal/" +:+ what) /\ CR ∉ str ("/internal/" +:+ what)) as (P1 & P2 & P3).
  { clear -Hin. repeat (apply elem_of_cons in Hin as [[= _ ->]|Hin]; [split_and!; by apply (bool_decide_unpack _)|]). by apply elem_of_nil in Hin. }
  destruct (client_request_understood (M := M) (S := gateway) _ _ _ _ _ _ Hw P1 P2 P3) as (parsed & req & Hwr & Hlim & Q1 & Q2 & Q3 & _ & Q5 & Q6);
    [by apply (bool_decide_unpack _)|done|by intros ? [= <-]|].
  exists (api_view req). split; [by apply view_authorized|]. split; [exact Q3|].
  unfold after_post. set (srv := set_conns (gateway_admin secret push_msg) tbl).
  destruct (http_serves menv fd srv (stats, w) chunks rest parsed req Hwr) as [-> _]; [apply Hlim; vm_compute; discriminate|done|].
  destruct (receive_state (me_now menv) fd chunks srv (stats, w)) as [Hs Hc]. cbn [snd] in Hs.
  assert (same_config (gateway_admin secret push_msg) (foldl (receive (me_now menv) fd) (srv, (stats, w)) chunks).1) as Hc' by exact Hc.
  cbv zeta. destruct Hc' as (C1 & C2 & C3). set (after := foldl (receive (me_now menv) fd) (srv, (stats, w)) chunks) in *.
  pose proof (answer_state after.1 after.2 req i r p C3 (admin_routes _ _ _ _ _ _ _ _ (conj C1 (conj C2 C3)) Q1 Q2 Hin)
    (eq_trans (f_equal (fun l => at_ l i) C1) Hr) Hp) as E.
  exact (eq_trans E (f_equal (fun x => (run (p (me_now menv) (api_view req)) x).2) Hs)).
Qed.

Lemma cstr_no_nul t : no_nul (cstr t).
Proof.
  unfold no_nul. induction t as [|c t IH]; cbn [cstr]; [by intros ?%elem_of_nil|]. destruct (Ascii.eqb c NUL) eqn:E; [by intros ?%elem_of_nil|].
  apply Ascii.eqb_neq in E. change (str (String c (cstr t))) with (c :: str (cstr t)). rewrite not_elem_of_cons. split; [congruence|done].
Qed.

Lemma req_json_body (req : http_request) t v : rq_body req = str (cstr t) -> miku_json_parse_str (Some (cstr t)) = Some v -> req_json req = Some v.
Proof.
  intros Hb Hv. unfold req_json. rewrite Hb. destruct (str (cstr t)) as [|c u] eqn:E.
  - exfalso. unfold miku_json_parse_str in Hv. cbn [fmap option_fmap option_map] in Hv. rewrite E in Hv. discriminate.
  - rewrite <- E, cstr_str by apply cstr_no_nul. exact Hv.
Qed.

(** C15: A logout at the API reaches the sessions: when the API process revokes the
    tokens of a user whose id has 1 to 42 characters and no NUL, with an
    internal secret that can stand in a header and a port below 65535, then
    what it posts, when it fits the client's buffer, makes the gateway process
    revoke the same user's tokens on the same platform and close the sessions.
    The request may reach the gateway in any number of pieces,
    but all of them must be there when the gateway handles the event: a request
    that it finds incomplete is lost ([HttpServer.partial_request_dropped]). *)
Theorem kick_arrives user platform url body :
  no_nul user -> (0 < String.length user <= 42)%nat -> -2147483648 <= platform < 2147483648 ->
  api_kick_user ws_port user platform = Some (url, body) -> wire secret url body = Some (mjoin chunks) ->
  after_post =
    (miku_msggw_kick_user_nolock (GwSend.with_revokes (miku_token_revoke (gx_revokes w) (Some user) platform (me_now menv)).2 w) user platform).2.
Proof.
  intros Hu Hl Hpl [= <- <-] Hw. destruct (post_arrives "kick" 0 _ (fun now => handle_internal_kick secret now) ltac:(by apply (bool_decide_unpack _)) ltac:(by eexists) Hw)
    as (req & Ha & Hb & ->).
  destruct (esc_field_reads user 256 Hu ltac:(lia)) as (k & R & F). specialize (F ltac:(lia)). rewrite F in R.
  destruct (body_parsed [("userID", esc_field user 256); ("platformID", fmt_lld platform)] [("userID", JStr user); ("platformID", JInt platform)])
    as (v & Ev & Hv).
  { repeat (apply list.Forall_cons; split); [apply esc_field_printed|apply fmt_printed|by apply list.Forall_nil]; by apply (bool_decide_unpack _). }
  { repeat apply List.Forall2_cons; [apply pair_reads_intro; [apply plain_bool; vm_compute; reflexivity|exact R]| |apply List.Forall2_nil].
    apply pair_reads_intro; [apply plain_bool; vm_compute; reflexivity|]. apply reads_int. unfold LLONG_MIN, LLONG_MAX. lia. }
  { done. } { by apply (bool_decide_unpack _). } { done. }
  rewrite <- kick_body_text in Ev.
  assert (req_json req = Some v) as Ej by exact (req_json_body req _ v Hb Ev).
  unfold handle_internal_kick. rewrite Ha, Ej. cbn [negb].
  assert (field63 (Some v) "userID" = user) as ->.
  { unfold field63, jstr. rewrite (obj_is_get _ _ _ Hv). cbn. apply strn_short. lia. }
  rewrite (obj_is_get _ _ _ Hv). change (list_to_map _ !! "platformID") with (Some (JInt platform)).
  cbn [miku_json_int]. rewrite i32_small by lia.
  assert (nonempty user = true) as -> by (destruct user; [cbn in Hl; lia|done]).
  unfold atomic. cbn [mbind prog_mbind prog_bind run].
  match goal with |- context [miku_msggw_kick_user_nolock ?a ?b ?c] => destruct (miku_msggw_kick_user_nolock a b c) end. reflexivity.
Qed.

Lemma short_field v m k s : obj_is v m -> m !! k = Some (JStr s) -> (String.length s <= 63)%nat -> field63 (Some v) k = s.
Proof. intros Hv Hk Hl. unfold field63, jstr. rewrite (obj_is_get _ _ _ Hv), Hk. cbn. by apply strn_short. Qed.

(** A change of a black list at the API is made by the gateway too, on its own
    copy of the friend service. *)
Theorem blacklist_arrives owner blocked remove url body f :
  no_nul owner -> (0 < String.length owner <= 63)%nat -> no_nul blocked -> (0 < String.length blocked <= 63)%nat ->
  api_blacklist ws_port owner blocked remove = Some (url, body) -> wire secret url body = Some (mjoin chunks) -> gx_friend w = Some f ->
  after_post = GwSend.with_friend (Some (if remove : bool then miku_friend_remove_black f (Some owner) (Some blocked)
                                         else miku_friend_add_black f (me_now menv) (Some owner) (Some blocked)).2) w.
Proof.
  intros Ho Hol Hb Hbl Ha Hw Hf. unfold api_blacklist, blacklist_body in Ha.
  destruct (miku_json_build_str_obj 768 _) as [t|] eqn:Et; [|done]. injection Ha as <- <-.
  destruct (build_parsed _ _ _ Et) as (v & Ev & Hv).
  { done. } { by apply (bool_decide_unpack _). } { done. }
  { repeat (apply list.Forall_cons; split); [split; [apply plain_bool; vm_compute; reflexivity|cbn; split; [done|lia]]..| |by apply list.Forall_nil].
    split; [apply plain_bool; vm_compute; reflexivity|]. destruct remove; (split; [by apply (bool_decide_unpack _)|cbn; lia]). }
  cbn [fmap list_fmap fst snd default] in Hv.
  destruct (post_arrives "blacklist" 2 _ (fun now => handle_internal_blacklist secret now) ltac:(by apply (bool_decide_unpack _)) ltac:(by eexists) Hw)
    as (req & Hauth & Hbody & ->).
  assert (req_json req = Some v) as Ej by exact (req_json_body req _ v Hbody Ev).
  unfold handle_internal_blacklist. rewrite Hauth, Ej. cbn [negb].
  rewrite (short_field v _ "ownerUserID" owner Hv) by (done || lia).
  assert (strn 63 (default "" (first_some [jstr (Some v) "blockUserID"; jstr (Some v) "friendUserID"])) = blocked) as ->.
  { unfold jstr. rewrite (obj_is_get _ _ "blockUserID" Hv). cbn. apply strn_short. lia. }
  assert (streq (req_action (Some v)) "remove" = remove) as ->.
  { unfold req_action, jstr. rewrite (obj_is_get _ _ "action" Hv). by destruct remove. }
  assert (nonempty owner = true) as -> by (destruct owner; [cbn in Hol; lia|done]).
  assert (nonempty blocked = true) as -> by (destruct blocked; [cbn in Hbl; lia|done]).
  cbn [andb]. unfold atomic. cbn [mbind prog_mbind prog_bind run]. rewrite Hf.
  destruct remove; [destruct (miku_friend_remove_black f (Some owner) (Some blocked))|destruct (miku_friend_add_black f (me_now menv) (Some owner) (Some blocked))];
    reflexivity.
Qed.
End EndToEnd.

(** ** Examples *)

Definition ex_menv : mw_env := MwEnv (Revokes [] ∅) 5000 None "00000000-0000-4000-8000-000000000000".
Definition ex_push : handler_fn string_map gateway := fun _ st _ resp => (resp, st).
Definition ex_kick_wire : text := default [] (wire None (internal_url 10001 "kick") (kick_body "alice" 2)).
Definition ex_pieces : list text := [take 40 ex_kick_wire; drop 40 ex_kick_wire].

Lemma ex_secret_clean : clean_value (miku_internal_secret None).
Proof. by apply (bool_decide_unpack _). Qed.

Lemma kick_arrives_witness :
  after_post (M := string_map) None ex_push ex_menv 7 empty_conns miku_stats_init gateway_create ex_pieces [] =
  (miku_msggw_kick_user_nolock (GwSend.with_revokes (miku_token_revoke (gx_revokes gateway_create) (Some "alice") 2 5000).2 gateway_create) "alice" 2).2.
Proof.
  assert (forallb (fun c => negb (nil_b c)) ex_pieces = true) as Hp by (vm_compute; reflexivity).
  refine (kick_arrives None ex_push ex_menv 7 empty_conns miku_stats_init gateway_create ex_pieces [] 10001 ex_secret_clean _ _ "alice" 2 _ _ _ _ _ eq_refl _).
  - lia.
  - rewrite forallb_forall in Hp. apply list.Forall_forall. intros c Hc%list_elem_of_In%Hp. by destruct c.
  - by apply (bool_decide_unpack _).
  - cbn. lia.
  - lia.
  - vm_compute. reflexivity.
Defined.

Definition ex_black_wire : text := default [] (b ← blacklist_body "alice" "bob" false; wire None (internal_url 10001 "blacklist") b).
Definition ex_black_pieces : list text := [take 9 ex_black_wire; take 100 (drop 9 ex_black_wire); drop 109 ex_black_wire].

Lemma blacklist_arrives_witness :
  after_post (M := string_map) None ex_push ex_menv 7 empty_conns miku_stats_init gateway_create ex_black_pieces [] =
  GwSend.with_friend (Some (miku_friend_add_black miku_friend_service_create 5000 (Some "alice") (Some "bob")).2) gateway_create.
Proof.
  assert (forallb (fun c => negb (nil_b c)) ex_black_pieces = true) as Hp by (vm_compute; reflexivity).
  refine (blacklist_arrives None ex_push ex_menv 7 empty_conns miku_stats_init gateway_create ex_black_pieces [] 10001 ex_secret_clean _ _
    "alice" "bob" false _ (default "" (blacklist_body "alice" "bob" false)) _ _ _ _ _ _ _ _).
  - lia.
  - rewrite forallb_forall in Hp. apply list.Forall_forall. intros c Hc%list_elem_of_In%Hp. by destruct c.
  - by apply (bool_decide_unpack _).
  - cbn. lia.
  - by apply (bool_decide_unpack _).
  - cbn. lia.
  - reflexivity.
  - vm_compute. reflexivity.
  - reflexivity.
Defined.

Definition mw_request (path token : string) : miku_http_request string_map :=
  HttpReq MK_HTTP_POST (str path) [] [] 11 (sm_put (sm_create 16) "token" token).

(** An administrator's token, as the API issues it, does not pass the
    middleware of the API program: it is signed with the administrators'
    secret, and the program checks with the users'. *)
Example admin_token_stopped :
  let tok := cstr (default [] (miku_admin_token_create (Some "imAdmin") None 256 "0123456789abcdef" 4000)) in
  nonempty tok = true /\ (miku_mw_auth ex_menv (Some auth_cfg) (mw_request "/admin/restart" tok) miku_http_response_create).1 = MK_MW_STOP.
Proof. vm_compute. split; reflexivity. Qed.

(** Nor does a user's token once the deployment sets a secret of its own. *)
Example env_secret_ignored :
  let env := Some "deployment-secret" in
  let tok := cstr (default [] (miku_token_create (Some "alice") 1 (Some (miku_token_default_secret env)) 256 "0123456789abcdef" 4000)) in
  (miku_mw_auth (MwEnv (Revokes [] ∅) 5000 env "u") (Some auth_cfg) (mw_request "/msg/send_msg" tok) miku_http_response_create).1 = MK_MW_STOP.
Proof. vm_compute. reflexivity. Qed.
