(* ===== verification/Ring.v ===== *)
(** * Ring buffers

    A queue in an array: [h] is the index of its first element, [t] of the first
    free place, [n] the number of elements; both indexes go around the end of
    the array.  The channel and the transfer queue are such buffers. *)
From S2P Require Import Prelude.
#[local] Open Scope list_scope.
#[local] Open Scope Z_scope.

Definition rcap {A} (buf : list A) : Z := Z.of_nat (length buf).

(** [i = (i + 1) % cap]. *)
Definition rnext {A} (buf : list A) (i : Z) : Z := (i + 1) mod rcap buf.

(** The buffer holds the queue [q]. *)
Record ring_ok {A} (buf : list A) (h t n : Z) (q : list A) : Prop := {
  rg_cap : 0 < rcap buf;
  rg_head : 0 <= h < rcap buf;
  rg_tail : t = (h + n) mod rcap buf;
  rg_len : n = Z.of_nat (length q);
  rg_fits : n <= rcap buf;
  rg_vals : forall i v, at_ q i = Some v -> at_ buf ((h + i) mod rcap buf) = Some v }.

Lemma ring_inj c h i j : 0 < c -> 0 <= i < c -> 0 <= j < c -> (h + i) mod c = (h + j) mod c -> i = j.
Proof.
  intros Hc Hi Hj E. pose proof (Z.div_mod (h + i) c ltac:(lia)) as D1. pose proof (Z.div_mod (h + j) c ltac:(lia)) as D2.
  rewrite E in D1. set (a := (h + i) / c) in *. set (b := (h + j) / c) in *.
  assert (i - j = c * (a - b)) as D by (rewrite Z.mul_sub_distr_l; lia).
  destruct (decide (a - b = 0)) as [E0|E0]; [rewrite E0 in D; lia|]. nia.
Qed.

Section Ring.
Context {A : Type}.
Implicit Types (buf q : list A) (v : A).

Lemma rcap_upd f i buf : rcap (upd_at f i buf) = rcap buf.
Proof. unfold rcap. by rewrite length_upd_at. Qed.

Lemma ring_empty buf : 0 < rcap buf -> ring_ok buf 0 0 0 [].
Proof.
  intros Hc. split; [done|lia|by rewrite Z.mod_0_l by lia|done|lia|]. intros i v. unfold at_. by destruct (i <? 0).
Qed.

Lemma ring_push buf h t n q v : ring_ok buf h t n q -> n < rcap buf ->
  ring_ok (upd_at (fun _ => v) t buf) h (rnext buf t) (n + 1) (q ++ [v]).
Proof.
  intros [Hc Hh Ht Hl Hf Hv] Hroom. unfold rnext. split; rewrite ?rcap_upd; [done|done| |rewrite length_app; cbn; lia|lia|].
  - rewrite Ht, Zplus_mod_idemp_l. f_equal. lia.
  - assert (0 <= t < rcap buf) as Hb by (rewrite Ht; apply Z.mod_pos_bound; lia).
    intros i w Hi. pose proof (at_lt _ _ _ Hi) as Hi'. rewrite length_app in Hi'. cbn [length] in Hi'.
    destruct (decide (i = Z.of_nat (length q))) as [->|Hne].
    + rewrite at_snoc in Hi. injection Hi as <-. rewrite <- Hl, <- Ht.
      destruct (at_is_Some buf t Hb) as [x Hx]. by rewrite (at_upd_eq _ _ _ _ Hx).
    + rewrite at_app_l in Hi by lia. rewrite at_upd_ne; [by apply Hv| |lia]. rewrite Ht. intros E. apply ring_inj in E; lia.
Qed.

Lemma ring_first buf h t n q v : ring_ok buf h t n (v :: q) -> at_ buf h = Some v.
Proof. intros [Hc Hh _ _ _ Hv]. specialize (Hv 0 v). rewrite Z.add_0_r, Z.mod_small in Hv by lia. by apply Hv. Qed.

(** Taking the first element out; its place may be overwritten. *)
Lemma ring_pop buf h t n q v f : ring_ok buf h t n (v :: q) -> ring_ok (upd_at f h buf) (rnext buf h) t (n - 1) q.
Proof.
  intros [Hc Hh Ht Hl Hf Hv]. cbn [length] in Hl. unfold rnext. split; rewrite ?rcap_upd; [done|apply Z.mod_pos_bound; lia| |lia|lia|].
  - rewrite Ht, Zplus_mod_idemp_l. f_equal. lia.
  - intros i w Hi. pose proof (at_lt _ _ _ Hi) as Hb. rewrite Zplus_mod_idemp_l.
    assert (at_ (v :: q) (i + 1) = Some w) as Hi'.
    { apply at_Some in Hi as [? Hi]. apply at_Some. split; [lia|]. by replace (Z.to_nat (i + 1)) with (S (Z.to_nat i)) by lia. }
    replace (h + 1 + i) with (h + (i + 1)) by lia. rewrite at_upd_ne; [by apply Hv| |lia].
    intros E. assert ((h + 0) mod rcap buf = (h + (i + 1)) mod rcap buf) as E' by (rewrite Z.add_0_r, Z.mod_small by lia; lia).
    apply ring_inj in E'; lia.
Qed.

(** The first element in place. *)
Lemma ring_set_first buf h t n v q w : ring_ok buf h t n (v :: q) -> ring_ok (upd_at (fun _ => w) h buf) h t n (w :: q).
Proof.
  intros O. pose proof (ring_first _ _ _ _ _ _ O) as H0. destruct O as [Hc Hh Ht Hl Hf Hv]. cbn [length] in Hl. split; rewrite ?rcap_upd; try done.
  intros i x Hi. pose proof (at_lt _ _ _ Hi) as Hb. cbn [length] in Hb. destruct (decide (i = 0)) as [->|Hne].
  - injection Hi as <-. rewrite Z.add_0_r, Z.mod_small by lia. by rewrite (at_upd_eq _ _ _ _ H0).
  - assert (at_ (v :: q) i = Some x) as Hi'.
    { apply at_Some in Hi as [? Hi]. apply at_Some. split; [done|]. by replace (Z.to_nat i) with (S (Z.to_nat (i - 1))) in * by lia. }
    rewrite at_upd_ne; [by apply Hv| |lia]. intros E.
    assert ((h + 0) mod rcap buf = (h + i) mod rcap buf) as E' by (rewrite Z.add_0_r, Z.mod_small by lia; lia). apply ring_inj in E'; lia.
Qed.

Lemma ring_pop_keep buf h t n q v : ring_ok buf h t n (v :: q) -> ring_ok buf (rnext buf h) t (n - 1) q.
Proof.
  intros O. pose proof (ring_pop _ _ _ _ _ _ (fun x => x) O) as R. replace (upd_at (fun x => x) h buf) with buf in R; [done|].
  unfold upd_at. symmetry. generalize (Z.to_nat h). clear. induction buf as [|x l IH]; intros [|k]; cbn; [done..|]. by rewrite IH.
Qed.
End Ring.
