(* ===== verification/Channel.v ===== *)
(** * Bounded channel (runtime/miku_channel.c)

    A ring buffer of pointers with a mutex and two conditions.  Each operation
    runs under the mutex: the state changes in one step when the operation goes
    through, and the caller sleeps, leaving the state as it is, while the
    buffer is full or empty and the channel is open.  A thread that is woken
    tests the condition again, so that an interleaving of threads is a sequence
    of such steps.  The initial test of [closed] in send is made without the
    mutex; it can only refuse a send to a channel that is closed.

    [channel_fifo] says that the values received are those sent, in order and
    without loss; [channel_progress] which operations can go through. *)
From S2P Require Import Prelude Ring.
#[local] Open Scope list_scope.
#[local] Open Scope Z_scope.

Section Channel.
Context {V : Type}.

(** A pointer; None is NULL, which can be sent as well. *)
Definition ptr : Type := option V.

Record miku_channel := Channel {
  ch_buf : list ptr; ch_head : Z; ch_tail : Z; ch_count : Z; ch_closed : bool }.

Definition ch_cap (ch : miku_channel) : Z := rcap (ch_buf ch).

Definition miku_channel_create (capacity : Z) : miku_channel :=
  Channel (replicate (Z.to_nat (if 0 <? capacity then capacity else 1)) None) 0 0 0 false.

(** What a call does under the mutex: wait, or return with a new state. *)
Inductive outcome (A : Type) := Wait | Return (a : A) (ch : miku_channel).
#[global] Arguments Wait {A}.
#[global] Arguments Return {A} a ch.

Definition miku_channel_send (ch : miku_channel) (val : ptr) : outcome Z :=
  if (ch_cap ch <=? ch_count ch) && negb (ch_closed ch) then Wait
  else if ch_closed ch then Return (-1) ch
  else Return 0 (Channel (upd_at (fun _ => val) (ch_tail ch) (ch_buf ch)) (ch_head ch)
                         (rnext (ch_buf ch) (ch_tail ch)) (ch_count ch + 1) (ch_closed ch)).

Definition miku_channel_recv (ch : miku_channel) : outcome ptr :=
  if (ch_count ch =? 0) && negb (ch_closed ch) then Wait
  else if ch_count ch =? 0 then Return None ch
  else Return (mjoin (at_ (ch_buf ch) (ch_head ch)))
              (Channel (upd_at (fun _ => None) (ch_head ch) (ch_buf ch)) (rnext (ch_buf ch) (ch_head ch))
                       (ch_tail ch) (ch_count ch - 1) (ch_closed ch)).

Definition miku_channel_len (ch : miku_channel) : Z := ch_count ch.

Definition miku_channel_closed (ch : miku_channel) : bool := ch_closed ch.

Definition miku_channel_close (ch : miku_channel) : miku_channel :=
  Channel (ch_buf ch) (ch_head ch) (ch_tail ch) (ch_count ch) true.

(** ** Steps *)

(** What a thread got done; a receive that finds the channel empty and closed
    returns NULL without a value. *)
Inductive ch_event :=
  | EvSent (v : ptr)
  | EvRefused (v : ptr)
  | EvReceived (v : ptr)
  | EvDrained
  | EvClosed.

Inductive ch_step : miku_channel -> ch_event -> miku_channel -> Prop :=
| step_sent ch v ch' : miku_channel_send ch v = Return 0 ch' -> ch_step ch (EvSent v) ch'
| step_refused ch v ch' : miku_channel_send ch v = Return (-1) ch' -> ch_step ch (EvRefused v) ch'
| step_received ch v ch' : miku_channel_len ch <> 0 -> miku_channel_recv ch = Return v ch' -> ch_step ch (EvReceived v) ch'
| step_drained ch ch' : miku_channel_len ch = 0 -> miku_channel_recv ch = Return None ch' -> ch_step ch EvDrained ch'
| step_close ch : ch_step ch EvClosed (miku_channel_close ch).

Inductive ch_run : miku_channel -> list ch_event -> miku_channel -> Prop :=
| run_nil ch : ch_run ch [] ch
| run_snoc ch es ch1 e ch2 : ch_run ch es ch1 -> ch_step ch1 e ch2 -> ch_run ch (es ++ [e]) ch2.

Definition sent (es : list ch_event) : list ptr := omap (fun e => match e with EvSent v => Some v | _ => None end) es.
Definition received (es : list ch_event) : list ptr := omap (fun e => match e with EvReceived v => Some v | _ => None end) es.

(** ** Invariant *)

Definition ch_ok (ch : miku_channel) (q : list ptr) : Prop := ring_ok (ch_buf ch) (ch_head ch) (ch_tail ch) (ch_count ch) q.

Lemma ch_create_cap n : ch_cap (miku_channel_create n) = Z.max 1 n.
Proof. unfold ch_cap, rcap, miku_channel_create. cbn. rewrite length_replicate. destruct (Z.ltb_spec 0 n); lia. Qed.

Lemma ch_create_ok n : ch_ok (miku_channel_create n) [].
Proof. apply ring_empty. pose proof (ch_create_cap n) as E. unfold ch_cap in E. rewrite E. lia. Qed.

Lemma ch_send_ok ch q v ch' : ch_ok ch q -> miku_channel_send ch v = Return 0 ch' -> ch_ok ch' (q ++ [v]) /\ ch_closed ch = false /\ ch_closed ch' = false.
Proof.
  intros O. unfold miku_channel_send. destruct (Z.leb_spec (ch_cap ch) (ch_count ch)) as [|Hroom], (ch_closed ch) eqn:Ec; cbn [andb negb]; try done.
  intros [= <-]. split; [|done]. by apply ring_push.
Qed.

Lemma ch_recv_ok ch q v ch' : ch_ok ch q -> miku_channel_len ch <> 0 -> miku_channel_recv ch = Return v ch' ->
  exists q', q = v :: q' /\ ch_ok ch' q' /\ ch_closed ch' = ch_closed ch.
Proof.
  intros O Hn. unfold miku_channel_len in Hn. unfold miku_channel_recv. rewrite (proj2 (Z.eqb_neq _ _) Hn). cbn [andb].
  intros [= Ev <-]. destruct q as [|x q]; [by pose proof (rg_len _ _ _ _ _ O)|]. rewrite (ring_first _ _ _ _ _ _ O) in Ev. cbn in Ev. subst x.
  exists q. split; [done|]. split; [by eapply ring_pop|done].
Qed.

Lemma ch_recv_none ch q ch' : ch_ok ch q -> miku_channel_len ch = 0 -> miku_channel_recv ch = Return None ch' -> q = [] /\ ch' = ch /\ ch_closed ch = true.
Proof.
  intros O H0. unfold miku_channel_len in H0. unfold miku_channel_recv. pose proof (rg_len _ _ _ _ _ O) as Hl. rewrite H0 in *.
  destruct (ch_closed ch); cbn; [|done]. intros [= <-]. split; [|done]. destruct q; [done|cbn in Hl; lia].
Qed.

Lemma ch_step_cap ch e ch' : ch_step ch e ch' -> ch_cap ch' = ch_cap ch.
Proof.
  intros Hs. unfold ch_cap, rcap. inversion Hs as [? v ? Hv|? v ? Hv|? v ? ? Hv|? ? ? Hv|?]; subst; try done;
    unfold miku_channel_send, miku_channel_recv in Hv; repeat case_match; simplify_eq; cbn; by rewrite ?length_upd_at.
Qed.

Lemma ch_run_ok n es ch : ch_run (miku_channel_create n) es ch ->
  exists q, ch_ok ch q /\ sent es = received es ++ q /\ (EvClosed ∈ es <-> ch_closed ch = true) /\ ch_cap ch = Z.max 1 n.
Proof.
  remember (miku_channel_create n) as ch0 eqn:E0. induction 1 as [ch|ch es ch1 e ch2 _ IH Hs].
  { subst. exists []. split; [apply ch_create_ok|]. split; [done|]. split; [|apply ch_create_cap]. split; [by intros ?%elem_of_nil|done]. }
  destruct (IH E0) as (q & O & Eq & Hcl & Hcap). rewrite (ch_step_cap _ _ _ Hs). unfold sent, received in *. rewrite !omap_app.
  setoid_rewrite elem_of_app. setoid_rewrite list_elem_of_singleton.
  inversion Hs as [? v ? Hv|? v ? Hv|? v ? Hn Hv|? ? Hn Hv|?]; subst; cbn [omap list_omap]; rewrite ?app_nil_r.
  - destruct (ch_send_ok _ _ _ _ O Hv) as (O' & C1 & C2). exists (q ++ [v]). split; [done|]. split; [by rewrite Eq, app_assoc|].
    rewrite Hcl, C1, C2. intuition congruence.
  - exists q. assert (ch2 = ch1) as ->. { unfold miku_channel_send in Hv. repeat case_match; by simplify_eq. }
    split; [done|]. split; [done|]. rewrite Hcl. intuition congruence.
  - destruct (ch_recv_ok _ _ _ _ O Hn Hv) as (q' & -> & O' & C). exists q'. split; [done|]. split; [by rewrite Eq, <- app_assoc|].
    rewrite Hcl, C. intuition congruence.
  - destruct (ch_recv_none _ _ _ O Hn Hv) as (-> & -> & C). exists []. split; [done|]. split; [by rewrite Eq, app_nil_r|]. rewrite Hcl. intuition congruence.
  - exists q. split; [exact O|]. split; [done|]. split; [tauto|done].
Qed.

(** A channel is a queue: in every interleaving of sends, receives and closing,
    the values received are the first of those sent, in the order they were
    sent, and what is missing is in the buffer, never more than the capacity. *)
Theorem channel_fifo n es ch : ch_run (miku_channel_create n) es ch ->
  exists q, sent es = received es ++ q /\ miku_channel_len ch = Z.of_nat (length q) /\ miku_channel_len ch <= Z.max 1 n.
Proof.
  intros Hr. destruct (ch_run_ok n es ch Hr) as (q & O & Eq & _ & Hcap). exists q. split; [done|]. split; [apply (rg_len _ _ _ _ _ O)|].
  rewrite <- Hcap. apply (rg_fits _ _ _ _ _ O).
Qed.

(** Nobody sleeps in vain: a send waits only while the buffer is full, a
    receive only while it is empty, and neither once the channel is closed;
    after closing nothing is sent any more and what is left is received. *)
Theorem channel_progress n es ch v : ch_run (miku_channel_create n) es ch ->
  (miku_channel_send ch v = Wait <-> EvClosed ∉ es /\ miku_channel_len ch = Z.max 1 n) /\
  (miku_channel_recv ch = Wait <-> EvClosed ∉ es /\ sent es = received es) /\
  (EvClosed ∈ es -> miku_channel_send ch v = Return (-1) ch) /\
  (forall w l, sent es = received es ++ w :: l -> exists ch', miku_channel_recv ch = Return w ch').
Proof.
  intros Hr. destruct (ch_run_ok n es ch Hr) as (q & O & Eq & Hcl & Hcap). unfold miku_channel_len. rewrite Hcl, <- Hcap.
  pose proof (rg_fits _ _ _ _ _ O) as Hf. fold (ch_cap ch) in Hf. pose proof (rg_len _ _ _ _ _ O) as Hl.
  split; [|split; [|split]].
  - unfold miku_channel_send. destruct (Z.leb_spec (ch_cap ch) (ch_count ch)), (ch_closed ch); cbn; split; try done; try lia; naive_solver lia.
  - assert (sent es = received es <-> ch_count ch = 0) as ->.
    { rewrite Eq, Hl. split; [|destruct q; [by rewrite app_nil_r|done]].
      intros E. rewrite <- (app_nil_r (received es)) in E at 2. apply app_inv_head in E. by rewrite E. }
    unfold miku_channel_recv. destruct (Z.eqb_spec (ch_count ch) 0), (ch_closed ch); cbn; naive_solver.
  - intros Hc. unfold miku_channel_send. rewrite Hc. by destruct (_ <=? _).
  - intros w l E. rewrite Eq in E. apply app_inv_head in E. subst q. cbn [length] in Hl. unfold miku_channel_recv.
    destruct (Z.eqb_spec (ch_count ch) 0); [lia|]. cbn [andb]. rewrite (ring_first _ _ _ _ _ _ O). cbn. eauto.
Qed.
End Channel.
