(* ===== verification/SessionCache.v ===== *)
(** * Session cache (storage/miku_session_cache.c)

    The token and the presence of every (user, platform) pair: 4096 slots with
    a stack of the free ones and an index of the pairs that is rebuilt whenever
    a slot is taken or released.  When all slots are taken, a cursor that goes
    around the slots chooses the one to give up.  With a Redis client the
    changes are written there too; what the Redis server behind the client does
    is outside the sources, and the commands are arguments ([redis_ops]).

    [session_cache_refines]: the slots are a finite map with a bounded number of
    keys, and checking a token reads that map. *)
From S2P Require Import Prelude Hash ProbeIndex KeyedMap JsonText JsonEscape Models.
#[local] Open Scope string_scope.
#[local] Open Scope list_scope.
#[local] Open Scope Z_scope.

Definition MK_SESS_CAP : Z := 4096.
Definition MK_SESS_HASH : Z := 8192.

Record sess_slot := SessSlot {
  ss_used : bool; ss_user_id : string; ss_platform : Z; ss_token : string;
  ss_expire_ms : Z; ss_online : bool; ss_conn_addr : string }.

(** [memset(slot, 0)]. *)
Definition zero_slot : sess_slot := SessSlot false "" 0 "" 0 false "".

(** The commands of the Redis client that the cache sends. *)
Record redis_ops (R : Type) := RedisOps {
  rd_set : R -> text -> text -> Z -> Z * R;
  rd_get : R -> text -> option text;
  rd_del : R -> text -> Z * R;
  rd_hset : R -> text -> text -> text -> Z * R;
  rd_hdel : R -> text -> text -> Z * R }.
Arguments rd_set {R}.
Arguments rd_get {R}.
Arguments rd_del {R}.
Arguments rd_hset {R}.
Arguments rd_hdel {R}.

(** The free stack is a list, its top first. *)
Record sess_table := SessTable {
  sc_slots : list sess_slot; sc_free : list Z; sc_pair_hash : gmap Z Z; sc_evict_cursor : Z }.

Definition pair_bucket (user_id : string) (platform : Z) : Z :=
  mask_slot MK_SESS_HASH (Z.lxor (fnv1a_64 user_id) (u64 (u32 platform * golden))).

Definition slot_used (l : list sess_slot) (i : Z) : bool :=
  match at_ l i with Some s => ss_used s | None => false end.

Definition slot_home (l : list sess_slot) (i : Z) : Z :=
  match at_ l i with Some s => pair_bucket (ss_user_id s) (ss_platform s) | None => 0 end.

Definition pair_hash_rebuild (c : sess_table) : sess_table :=
  SessTable (sc_slots c) (sc_free c)
    (for_range MK_SESS_CAP
       (fun t slot => if slot_used (sc_slots c) slot then scan_insert MK_SESS_HASH t (slot_home (sc_slots c) slot) slot else t) ∅)
    (sc_evict_cursor c).

Definition slot_is (l : list sess_slot) (user_id : string) (platform slot : Z) : bool :=
  match at_ l slot with
  | Some s => ss_used s && (ss_platform s =? platform) && streq (ss_user_id s) user_id
  | None => false
  end.

Definition pair_find (c : sess_table) (user_id : string) (platform : Z) : Z :=
  scan_find MK_SESS_HASH (sc_pair_hash c) (slot_is (sc_slots c) user_id platform) (pair_bucket user_id platform).

Definition set_used (b : bool) (s : sess_slot) : sess_slot :=
  SessSlot b (ss_user_id s) (ss_platform s) (ss_token s) (ss_expire_ms s) (ss_online s) (ss_conn_addr s).

(** [used = 0], and the slot goes on the free stack if that has room. *)
Definition release (c : sess_table) (slot : Z) : sess_table :=
  SessTable (upd_at (set_used false) slot (sc_slots c))
    (if Z.of_nat (length (sc_free c)) <? MK_SESS_CAP then slot :: sc_free c else sc_free c)
    (sc_pair_hash c) (sc_evict_cursor c).

(** None: the free stack is read below its bottom. *)
Definition pop_free (c : sess_table) : option (Z * sess_table) :=
  match sc_free c with
  | slot :: free => Some (slot, SessTable (sc_slots c) free (sc_pair_hash c) (sc_evict_cursor c))
  | [] => None
  end.

Definition alloc_slot (c : sess_table) : option (Z * sess_table) :=
  let c :=
    if 0 <? Z.of_nat (length (sc_free c)) then c
    else
      let slot := sc_evict_cursor c in
      let c := SessTable (sc_slots c) (sc_free c) (sc_pair_hash c) ((sc_evict_cursor c + 1) mod MK_SESS_CAP) in
      if slot_used (sc_slots c) slot then pair_hash_rebuild (release c slot) else c in
  match pop_free c with
  | Some (slot, c) =>
      Some (slot, SessTable (upd_at (fun _ => set_used true zero_slot) slot (sc_slots c)) (sc_free c) (sc_pair_hash c) (sc_evict_cursor c))
  | None => None
  end.

Definition upd_slot (c : sess_table) (i : Z) (f : sess_slot -> sess_slot) : sess_table :=
  SessTable (upd_at f i (sc_slots c)) (sc_free c) (sc_pair_hash c) (sc_evict_cursor c).

Definition name_slot (user_id : string) (platform : Z) (s : sess_slot) : sess_slot :=
  SessSlot (ss_used s) (strn 63 user_id) platform (ss_token s) (ss_expire_ms s) (ss_online s) (ss_conn_addr s).

Definition slot_for (c : sess_table) (user_id : string) (platform : Z) : option (Z * sess_table) :=
  let idx := pair_find c user_id platform in
  if idx <? 0 then
    match alloc_slot c with
    | Some (idx, c) => Some (idx, pair_hash_rebuild (upd_slot c idx (name_slot user_id platform)))
    | None => None
    end
  else Some (idx, c).

Definition sess_table_create : sess_table :=
  SessTable (replicate (Z.to_nat MK_SESS_CAP) zero_slot) (seqZ 0 MK_SESS_CAP) ∅ 0.

Definition store_token (token : string) (expire : Z) (s : sess_slot) : sess_slot :=
  SessSlot (ss_used s) (ss_user_id s) (ss_platform s) (strn 255 token) expire (ss_online s) (ss_conn_addr s).

Definition store_online (conn_addr : option string) (s : sess_slot) : sess_slot :=
  SessSlot (ss_used s) (ss_user_id s) (ss_platform s) (ss_token s) (ss_expire_ms s) true
    (match conn_addr with Some a => strn 127 a | None => ss_conn_addr s end).

Definition store_offline (s : sess_slot) : sess_slot :=
  SessSlot (ss_used s) (ss_user_id s) (ss_platform s) (ss_token s) (ss_expire_ms s) false (ss_conn_addr s).

(** ** The parts under the lock *)

Definition expire_at (now ttl_ms : Z) : Z := if 0 <? ttl_ms then i64 (now + ttl_ms) else 0.

Definition local_set_token (c : sess_table) (u token : string) (platform ttl_ms now : Z) : option sess_table :=
  match slot_for c u platform with
  | Some (i, c) => Some (upd_slot c i (store_token token (expire_at now ttl_ms)))
  | None => None
  end.

Definition token_valid (u token : string) (now : Z) (s : sess_slot) : bool :=
  ss_used s && streq (ss_user_id s) u && negb ((0 <? ss_expire_ms s) && (ss_expire_ms s <? now)) && streq (ss_token s) token.

Definition local_validate (c : sess_table) (u token : string) (now : Z) : bool :=
  existsb (token_valid u token now) (sc_slots c).

Definition local_remove_token (c : sess_table) (u : string) (platform : Z) : sess_table :=
  let idx := pair_find c u platform in
  if 0 <=? idx then pair_hash_rebuild (release c idx) else c.

Definition remove_user (u : string) (acc : sess_table * bool) (i : Z) : sess_table * bool :=
  let '(c, changed) := acc in
  match at_ (sc_slots c) i with
  | Some s => if ss_used s && streq (ss_user_id s) u then (release c i, true) else (c, changed)
  | None => (c, changed)
  end.

Definition local_remove_all (c : sess_table) (u : string) : sess_table :=
  let '(c, changed) := for_range MK_SESS_CAP (remove_user u) (c, false) in
  if changed then pair_hash_rebuild c else c.

Definition local_set_online (c : sess_table) (u : string) (platform : Z) (conn_addr : option string) : option sess_table :=
  match slot_for c u platform with
  | Some (i, c) => Some (upd_slot c i (store_online conn_addr))
  | None => None
  end.

Definition local_set_offline (c : sess_table) (u : string) (platform : Z) : sess_table :=
  let idx := pair_find c u platform in
  if 0 <=? idx then upd_slot c idx store_offline else c.

(** The loop that prints the platforms; it stops when the buffer of 512 bytes
    has less than 16 left. *)
Definition print_platform (u : string) (acc : text * bool) (s : sess_slot) : text * bool :=
  let '(buf, first) := acc in
  if (tlen buf + 16 <? 512) && ss_used s && ss_online s && streq (ss_user_id s) u then
    let buf := if first then buf else buf ++ str "," in
    (buf ++ (snprintf (512 - tlen buf) (fmt_lld (ss_platform s))).1, false)
  else acc.

Definition miku_session_get_online (c : sess_table) (user_id : option string) : option text :=
  match user_id with
  | None => None
  | Some u =>
      let '(buf, _) := foldl (print_platform u) (str "[", true) (sc_slots c) in
      Some (if tlen buf <? 511 then buf ++ str "]" else buf)
  end.

(** ** Operations, with the Redis client *)

Section Redis.
Context {R : Type} (ops : redis_ops R).

(** [sc_redis] is None when the cache was created without a client. *)
Record miku_session_cache := SessionCache { sc_table : sess_table; sc_redis : option R }.

Definition miku_session_cache_create (redis : option R) : miku_session_cache := SessionCache sess_table_create redis.

Definition token_key (u : string) (platform : Z) : text :=
  (snprintf 256 (str "miku:token:" ++ str u ++ str ":" ++ fmt_lld platform)).1.

Definition online_key (u : string) : text := (snprintf 256 (str "miku:online:" ++ str u)).1.

(** None: undefined behaviour in the slots. *)
Definition miku_session_set_token (c : miku_session_cache) (user_id token : option string) (platform ttl_ms now : Z) : option (Z * miku_session_cache) :=
  match user_id, token with
  | Some u, Some tok =>
      if negb (nonempty u) then Some (-1, c)
      else match local_set_token (sc_table c) u tok platform ttl_ms now with
           | None => None
           | Some t =>
               Some match sc_redis c with
                    | None => (0, SessionCache t None)
                    | Some r =>
                        let val := (snprintf 512 (raw_object [("token", esc_field tok 256); ("platform", fmt_lld platform)])).1 in
                        let '(rc, r) := rd_set ops r (token_key u platform) val ttl_ms in
                        (rc, SessionCache t (Some r))
                    end
           end
  | _, _ => Some (-1, c)
  end.

Definition redis_validate (r : R) (u token : string) : bool :=
  existsb (fun plat => match rd_get ops r (token_key u plat) with Some val => has_sub (str token) val | None => false end) (seqZ 1 8).

Definition miku_session_validate_token (c : miku_session_cache) (user_id token : option string) (now : Z) : Z :=
  match user_id, token with
  | Some u, Some tok =>
      if local_validate (sc_table c) u tok now then 0
      else match sc_redis c with
           | None => -1
           | Some r => if redis_validate r u tok then 0 else -1
           end
  | _, _ => -1
  end.

Definition miku_session_remove_token (c : miku_session_cache) (user_id : option string) (platform : Z) : Z * miku_session_cache :=
  match user_id with
  | None => (-1, c)
  | Some u =>
      let t := local_remove_token (sc_table c) u platform in
      match sc_redis c with
      | None => (0, SessionCache t None)
      | Some r => let '(rc, r) := rd_del ops r (token_key u platform) in (rc, SessionCache t (Some r))
      end
  end.

Definition miku_session_remove_all (c : miku_session_cache) (user_id : option string) : Z * miku_session_cache :=
  match user_id with
  | None => (-1, c)
  | Some u =>
      let t := local_remove_all (sc_table c) u in
      match sc_redis c with
      | None => (0, SessionCache t None)
      | Some r => (0, SessionCache t (Some (foldl (fun r plat => (rd_del ops r (token_key u plat)).2) r (seqZ 1 8))))
      end
  end.

Definition miku_session_set_online (c : miku_session_cache) (user_id : option string) (platform : Z) (conn_addr : option string) (now : Z)
    : option (Z * miku_session_cache) :=
  match user_id with
  | None => Some (-1, c)
  | Some u =>
      if negb (nonempty u) then Some (-1, c)
      else match local_set_online (sc_table c) u platform conn_addr with
           | None => None
           | Some t =>
               Some match sc_redis c with
                    | None => (0, SessionCache t None)
                    | Some r =>
                        let val := (snprintf 128 (str (default "unknown" conn_addr) ++ str ":" ++ fmt_lld now)).1 in
                        let '(rc, r) := rd_hset ops r (online_key u) (fmt_lld platform) val in
                        (rc, SessionCache t (Some r))
                    end
           end
  end.

Definition miku_session_set_offline (c : miku_session_cache) (user_id : option string) (platform : Z) : Z * miku_session_cache :=
  match user_id with
  | None => (-1, c)
  | Some u =>
      let t := local_set_offline (sc_table c) u platform in
      match sc_redis c with
      | None => (0, SessionCache t None)
      | Some r => let '(rc, r) := rd_hdel ops r (online_key u) (fmt_lld platform) in (rc, SessionCache t (Some r))
      end
  end.
End Redis.

(** ** Reference: a finite map of sessions *)

Record session := Session { se_token : string; se_expire : Z; se_online : bool; se_addr : string }.

Definition new_session : session := Session "" 0 false "".

Definition sess_key (s : sess_slot) : string * Z := (ss_user_id s, ss_platform s).
Definition sess_val (s : sess_slot) : session := Session (ss_token s) (ss_expire_ms s) (ss_online s) (ss_conn_addr s).

(** The sessions in the slots. *)
Definition sessions (c : sess_table) : gmap (string * Z) session :=
  kmap sess_key sess_val (filter (fun s => ss_used s = true) (sc_slots c)).

Inductive sess_op :=
  | OSetToken (u token : string) (platform ttl_ms now : Z)
  | ORemoveToken (u : string) (platform : Z)
  | ORemoveAll (u : string)
  | OSetOnline (u : string) (platform : Z) (conn_addr : option string)
  | OSetOffline (u : string) (platform : Z).

(** Room for the key [k]: a key that is present, or room for a new one, leaves
    the others alone; otherwise one session is given up. *)
Definition make_room (m m' : gmap (string * Z) session) (k : string * Z) : Prop :=
  if decide (is_Some (m !! k) \/ Z.of_nat (size m) < MK_SESS_CAP) then m' = m
  else exists k', is_Some (m !! k') /\ m' = delete k' m.

Definition sess_spec (m : gmap (string * Z) session) (op : sess_op) (m' : gmap (string * Z) session) : Prop :=
  match op with
  | OSetToken u token platform ttl_ms now =>
      exists m1, make_room m m1 (u, platform) /\
        let v := default new_session (m1 !! (u, platform)) in
        m' = <[(u, platform) := Session (strn 255 token) (expire_at now ttl_ms) (se_online v) (se_addr v)]> m1
  | ORemoveToken u platform => m' = delete (u, platform) m
  | ORemoveAll u => m' = filter (fun kv => kv.1.1 <> u) m
  | OSetOnline u platform conn_addr =>
      exists m1, make_room m m1 (u, platform) /\
        let v := default new_session (m1 !! (u, platform)) in
        m' = <[(u, platform) := Session (se_token v) (se_expire v) true (match conn_addr with Some a => strn 127 a | None => se_addr v end)]> m1
  | OSetOffline u platform =>
      m' = alter (fun v => Session (se_token v) (se_expire v) false (se_addr v)) (u, platform) m
  end.

Inductive sess_run : gmap (string * Z) session -> list sess_op -> gmap (string * Z) session -> Prop :=
| sess_run_nil m : sess_run m [] m
| sess_run_snoc m ops m1 op m2 : sess_run m ops m1 -> sess_spec m1 op m2 -> sess_run m (ops ++ [op]) m2.

(** The operations on the slots. *)
Definition sess_step (c : sess_table) (op : sess_op) : option sess_table :=
  match op with
  | OSetToken u token platform ttl_ms now => local_set_token c u token platform ttl_ms now
  | ORemoveToken u platform => Some (local_remove_token c u platform)
  | ORemoveAll u => Some (local_remove_all c u)
  | OSetOnline u platform conn_addr => local_set_online c u platform conn_addr
  | OSetOffline u platform => Some (local_set_offline c u platform)
  end.

(** User ids fit their buffer. *)
Definition sess_fits (op : sess_op) : Prop :=
  match op with
  | OSetToken u _ _ _ _ | ORemoveToken u _ | ORemoveAll u | OSetOnline u _ _ | OSetOffline u _ => fits 63 u
  end.

(** ** Invariant *)

(** The slots and the free stack. *)
Record slots_ok (l : list sess_slot) (free : list Z) (m : gmap (string * Z) session) : Prop := {
  sk_len : Z.of_nat (length l) = MK_SESS_CAP;
  sk_nodup : NoDup free;
  sk_free : forall i, i ∈ free <-> exists s, at_ l i = Some s /\ ss_used s = false;
  sk_uniq : forall i j s s', at_ l i = Some s -> at_ l j = Some s' -> ss_used s = true -> ss_used s' = true -> sess_key s = sess_key s' -> i = j;
  sk_map : forall k v, m !! k = Some v <-> exists i s, at_ l i = Some s /\ ss_used s = true /\ sess_key s = k /\ sess_val s = v }.

Record sess_ok (c : sess_table) (m : gmap (string * Z) session) : Prop := {
  so_slots : slots_ok (sc_slots c) (sc_free c) m;
  so_index : indexed MK_SESS_HASH (sc_pair_hash c) (slot_home (sc_slots c)) (fun i => slot_used (sc_slots c) i = true);
  so_cursor : 0 <= sc_evict_cursor c < MK_SESS_CAP }.

#[local] Instance sess_hash_pow2 : Pow2 MK_SESS_HASH.
Proof. exists 13. split; [lia|done]. Qed.

Lemma session_bucket_bound u p : 0 <= pair_bucket u p < MK_SESS_HASH.
Proof. apply (mask_slot_bound 13). lia. Qed.

Lemma slot_home_bound l i : 0 <= slot_home l i < MK_SESS_HASH.
Proof. unfold slot_home. destruct (at_ l i); [apply session_bucket_bound|done]. Qed.

Lemma slot_used_true l i : slot_used l i = true <-> exists s, at_ l i = Some s /\ ss_used s = true.
Proof. unfold slot_used. destruct (at_ l i) as [s|]; naive_solver. Qed.

Lemma live_bound l i : Z.of_nat (length l) = MK_SESS_CAP -> slot_used l i = true -> 0 <= i < MK_SESS_CAP.
Proof. intros Hl (s & Hs & _)%slot_used_true. apply at_lt in Hs. lia. Qed.

Lemma rebuild_index c : Z.of_nat (length (sc_slots c)) = MK_SESS_CAP ->
  indexed MK_SESS_HASH (sc_pair_hash (pair_hash_rebuild c)) (slot_home (sc_slots c)) (fun i => slot_used (sc_slots c) i = true).
Proof.
  intros Hl. unfold pair_hash_rebuild. cbn [sc_pair_hash]. set (l := sc_slots c) in *.
  apply (indexed_ext _ (slot_home l) _ (fun i => slot_used l i = true /\ i < MK_SESS_CAP)); [|done|].
  { intros v. split; [tauto|]. intros Hv. split; [done|]. by apply (live_bound l v Hl). }
  apply (for_range_ind (fun n t => indexed MK_SESS_HASH t (slot_home l) (fun i => slot_used l i = true /\ i < n))); [done| |].
  - apply (indexed_ext _ (slot_home l) _ (fun _ => False)); [|done|apply indexed_empty].
    intros v. split; [done|]. intros [Hv Hn]. apply (live_bound l v Hl) in Hv. lia.
  - intros i t Hi I. destruct (slot_used l i) eqn:Eu.
    + assert (size t <= Z.to_nat i)%nat as Hsz.
      { apply (indexed_vals_bound I). intros v [Hv Hn]. apply (live_bound l v Hl) in Hv. lia. }
      destruct (scan_miss I (fun _ => false) (slot_home l i)) as [p Ep]; [apply slot_home_bound|unfold MK_SESS_CAP, MK_SESS_HASH in *; lia|done|].
      unfold scan_insert. rewrite Ep. destruct (indexed_insert I _ p i (slot_home_bound l i) Ep) as [_ I']; [lia|lia|].
      revert I'. apply indexed_ext; [|done]. intros v. split; [intros [[? ?]| ->]; (split; [done|lia])|].
      intros [Hv Hn]. destruct (decide (v = i)); [by right|left; split; [done|lia]].
    + revert I. apply indexed_ext; [|done]. intros v. split; [intros [? ?]; split; [done|lia]|].
      intros [Hv Hn]. split; [done|]. destruct (decide (v = i)) as [->|]; [congruence|lia].
Qed.

Lemma sess_size c m : sess_ok c m -> Z.of_nat (size (sc_pair_hash c)) < MK_SESS_HASH.
Proof.
  intros O. assert (size (sc_pair_hash c) <= Z.to_nat MK_SESS_CAP)%nat.
  { apply (indexed_vals_bound (so_index _ _ O)). intros v Hv. apply (live_bound _ v (sk_len _ _ _ (so_slots _ _ O))) in Hv. unfold MK_SESS_CAP in *. lia. }
  unfold MK_SESS_CAP, MK_SESS_HASH in *. lia.
Qed.

Lemma slot_is_true l u p i : slot_is l u p i = true <-> exists s, at_ l i = Some s /\ ss_used s = true /\ sess_key s = (u, p).
Proof.
  unfold slot_is, sess_key. destruct (at_ l i) as [s|]; [|naive_solver]. rewrite !andb_true_iff, Z.eqb_eq, streq_eq. naive_solver.
Qed.

(** A lookup finds the slot of its pair. *)
Lemma sess_find_ok c m u p : sess_ok c m ->
  match m !! (u, p) with
  | Some v => exists s, 0 <= pair_find c u p /\ at_ (sc_slots c) (pair_find c u p) = Some s /\ ss_used s = true /\ sess_key s = (u, p) /\ sess_val s = v
  | None => pair_find c u p = -1
  end.
Proof.
  intros O. unfold pair_find, scan_find. destruct (m !! (u, p)) as [v|] eqn:E.
  - apply (sk_map _ _ _ (so_slots _ _ O)) in E as (i & s & Hs & Hu & Hk & Hv).
    destruct (scan_hit (so_index _ _ O) (slot_is (sc_slots c) u p) (pair_bucket u p) i) as (q & -> & _).
    + apply session_bucket_bound.
    + apply slot_used_true. eauto.
    + unfold slot_home. rewrite Hs. unfold sess_key in Hk. by simplify_eq.
    + apply slot_is_true. eauto.
    + intros w _ (s' & Hs' & Hu' & Hk')%slot_is_true. eapply (sk_uniq _ _ _ (so_slots _ _ O)); eauto. congruence.
    + exists s. pose proof (at_lt _ _ _ Hs). split_and!; try done; lia.
  - destruct (scan_miss (so_index _ _ O) (slot_is (sc_slots c) u p) (pair_bucket u p)) as [q ->];
      [apply session_bucket_bound|by eapply sess_size| |done].
    intros w _. apply not_true_iff_false. intros (s & Hs & Hu & Hk)%slot_is_true.
    assert (m !! (u, p) = Some (sess_val s)); [|congruence]. apply (sk_map _ _ _ (so_slots _ _ O)). eauto 6.
Qed.

Lemma at_upd_Some (f : sess_slot -> sess_slot) i l s j x : at_ l i = Some s ->
  at_ (upd_at f i l) j = Some x <-> (j = i /\ x = f s) \/ (j <> i /\ at_ l j = Some x).
Proof.
  intros Hs. pose proof (at_lt _ _ _ Hs) as Hb. destruct (decide (j = i)) as [->|Hne].
  - rewrite (at_upd_eq f i l s Hs). naive_solver.
  - rewrite at_upd_ne by (lia || done). naive_solver.
Qed.

Lemma session_free_room l free m i : slots_ok l free m -> 0 <= i < MK_SESS_CAP -> i ∉ free -> Z.of_nat (length free) < MK_SESS_CAP.
Proof.
  intros O Hi Hn. assert (length (i :: free) <= length (seqZ 0 MK_SESS_CAP))%nat as H; [|rewrite length_seqZ in H; cbn [length] in H; unfold MK_SESS_CAP in *; lia].
  apply submseteq_length, NoDup_submseteq; [apply list.NoDup_cons; split; [done|apply O]|].
  intros j [->|(s & Hs & _)%(sk_free _ _ _ O)]%elem_of_cons; apply elem_of_seqZ; [lia|].
  apply at_lt in Hs. rewrite (sk_len _ _ _ O) in Hs. lia.
Qed.

Lemma used_not_free l free m i s : slots_ok l free m -> at_ l i = Some s -> ss_used s = true -> i ∉ free.
Proof. intros O Hs Hu (s' & Hs' & Hf)%(sk_free _ _ _ O). congruence. Qed.

(** The session of a used slot. *)
Lemma sess_lookup l free m i s : slots_ok l free m -> at_ l i = Some s -> ss_used s = true -> m !! sess_key s = Some (sess_val s).
Proof. intros O Hs Hu. apply (sk_map _ _ _ O). eauto 6. Qed.

Lemma release_slots l free m i s : slots_ok l free m -> at_ l i = Some s -> ss_used s = true ->
  slots_ok (upd_at (set_used false) i l) (if Z.of_nat (length free) <? MK_SESS_CAP then i :: free else free) (delete (sess_key s) m).
Proof.
  intros O Hs Hu. pose proof (used_not_free _ _ _ _ _ O Hs Hu) as Hnf. pose proof (at_lt _ _ _ Hs) as Hb. rewrite (sk_len _ _ _ O) in Hb.
  rewrite (proj2 (Z.ltb_lt _ _) (session_free_room _ _ _ _ O Hb Hnf)).
  pose proof (at_upd_Some (set_used false) i l s) as U. split.
  - rewrite length_upd_at. apply O.
  - apply list.NoDup_cons. split; [done|apply O].
  - intros j. rewrite elem_of_cons, (sk_free _ _ _ O). split.
    + intros [->|(s' & Hs' & Hf)]; [exists (set_used false s); split; [by apply U; [|left]|done]|].
      exists s'. split; [|done]. apply U; [done|]. right. split; [|done]. intros ->. congruence.
    + intros (x & [[-> ->]|[Hne Hx]]%U & Hf); [by left| |done]. right. eauto.
  - intros j1 j2 s1 s2 [[-> ->]|[N1 H1]]%U [[-> ->]|[N2 H2]]%U U1 U2; try done. by eapply (sk_uniq _ _ _ O).
  - intros k v. rewrite lookup_delete_Some, (sk_map _ _ _ O). split.
    + intros (Hk & j & x & Hx & Hxu & <- & <-). exists j, x. split; [|done]. apply U; [done|]. right. split; [|done]. intros ->. congruence.
    + intros (j & x & [[-> ->]|[Hne Hx]]%U & Hxu & <- & <-); [done| |done]. split; [|by eauto 6].
      intros E. apply Hne. symmetry. by eapply (sk_uniq _ _ _ O).
Qed.

Lemma claim_slots l free m i s' : slots_ok l (i :: free) m -> ss_used s' = true -> m !! sess_key s' = None ->
  slots_ok (upd_at (fun _ => s') i l) free (<[sess_key s' := sess_val s']> m).
Proof.
  intros O Hu Hm. destruct (proj1 (sk_free _ _ _ O i) ltac:(by left)) as (s & Hs & Hf).
  pose proof (at_upd_Some (fun _ => s') i l s) as U. pose proof (sk_nodup _ _ _ O) as [Hni Hnd]%list.NoDup_cons.
  assert (forall j x, at_ l j = Some x -> ss_used x = true -> sess_key x <> sess_key s') as Hfresh.
  { intros j x Hx Hxu E. apply (sess_lookup _ _ _ _ _ O Hx) in Hxu. congruence. }
  split.
  - rewrite length_upd_at. apply O.
  - done.
  - intros j. split.
    + intros Hj. destruct (proj1 (sk_free _ _ _ O j) ltac:(by right)) as (x & Hx & Hxf). exists x. split; [|done].
      apply U; [done|]. right. split; [|done]. by intros ->.
    + intros (x & [[-> ->]|[Hne Hx]]%U & Hxf); [congruence| |done].
      assert (j ∈ i :: free) as [|]%elem_of_cons by (apply (sk_free _ _ _ O); eauto); done.
  - intros j1 j2 s1 s2 [[-> ->]|[N1 H1]]%U [[-> ->]|[N2 H2]]%U U1 U2 E; try done.
    + by destruct (Hfresh _ _ H2 U2).
    + by destruct (Hfresh _ _ H1 U1).
    + by eapply (sk_uniq _ _ _ O).
  - intros k v. rewrite lookup_insert_Some, (sk_map _ _ _ O). split.
    + intros [[<- <-]|(Hk & j & x & Hx & Hxu & <- & <-)]; [exists i, s'; split; [by apply U; [|left]|done]|].
      exists j, x. split; [|done]. apply U; [done|]. right. split; [|done]. intros ->. congruence.
    + intros (j & x & [[-> ->]|[Hne Hx]]%U & Hxu & <- & <-); [by left| |done]. right. split; [|by eauto 6].
      intros E. by destruct (Hfresh _ _ Hx Hxu).
Qed.

Lemma update_slots l free m i s f : slots_ok l free m -> at_ l i = Some s -> ss_used s = true ->
  ss_used (f s) = true -> sess_key (f s) = sess_key s -> slots_ok (upd_at f i l) free (<[sess_key s := sess_val (f s)]> m).
Proof.
  intros O Hs Hu Hfu Hfk. pose proof (at_upd_Some f i l s) as U. split.
  - rewrite length_upd_at. apply O.
  - apply O.
  - intros j. rewrite (sk_free _ _ _ O). split; intros (x & Hx & Hf).
    + exists x. split; [|done]. apply U; [done|]. right. split; [|done]. intros ->. congruence.
    + apply U in Hx as [[-> ->]|[Hne Hx]]; [congruence| |done]. eauto.
  - intros j1 j2 s1 s2 [[-> ->]|[N1 H1]]%U [[-> ->]|[N2 H2]]%U U1 U2 E; try done; rewrite ?Hfk in E; by eapply (sk_uniq _ _ _ O).
  - intros k v. rewrite lookup_insert_Some, (sk_map _ _ _ O). split.
    + intros [[<- <-]|(Hk & j & x & Hx & Hxu & <- & <-)]; [exists i, (f s); split; [by apply U; [|left]|done]|].
      exists j, x. split; [|done]. apply U; [done|]. right. split; [|done]. intros ->. congruence.
    + intros (j & x & [[-> ->]|[Hne Hx]]%U & Hxu & <- & <-); [by left| |done]. right. split; [|by eauto 6].
      intros E. apply Hne. symmetry. by eapply (sk_uniq _ _ _ O).
Qed.

Lemma NoDup_fmap_filter_keys {A B} (f : A -> B) (P : A -> Prop) `{forall x, Decision (P x)} (l : list A) :
  (forall i j x y, l !! i = Some x -> l !! j = Some y -> P x -> P y -> f x = f y -> i = j) -> NoDup (f <$> filter P l).
Proof.
  induction l as [|x l IH]; intros Hu; [constructor|].
  assert (NoDup (f <$> filter P l)) as IH'.
  { apply IH. intros i j y z Hi Hj Py Pz E. specialize (Hu (S i) (S j) y z Hi Hj Py Pz E). lia. }
  destruct (decide (P x)) as [Px|Px]; [rewrite filter_cons_True by done|by rewrite filter_cons_False by done].
  rewrite fmap_cons. apply list.NoDup_cons. split; [|done]. intros (y & E & Hy)%list_elem_of_fmap.
  apply list_elem_of_filter in Hy as [Py [n Hn]%list_elem_of_lookup]. by specialize (Hu O (S n) x y eq_refl Hn Px Py E).
Qed.

(** The slots determine the map. *)
Lemma slots_map c m : slots_ok (sc_slots c) (sc_free c) m ->
  sessions c = m /\ size m = length (filter (fun s => ss_used s = true) (sc_slots c)).
Proof.
  intros O. set (l := filter (fun s => ss_used s = true) (sc_slots c)).
  assert (NoDup (sess_key <$> l)) as Hnd.
  { unfold l. clear l. pose proof (sk_uniq _ _ _ O) as Hu. revert Hu. clear. generalize (sc_slots c). intros l Hu.
    apply NoDup_fmap_filter_keys. intros i j s s' Hi Hj Us Us' E. apply (Nat2Z.inj i j). apply (Hu _ _ s s'); rewrite ?at_of_nat; done. }
  assert (sessions c = m) as E.
  { apply map_eq. intros k. apply option_eq. intros v. unfold sessions. rewrite (sk_map _ _ _ O). fold l. split.
    - intros (i & s & Hs & <- & <-)%(kmap_lookup_Some _ _ _ _ _ Hnd). apply at_Some in Hs as [_ Hs]. apply list_elem_of_lookup_2 in Hs.
      apply list_elem_of_filter in Hs as [Hu Hs]. apply list_elem_of_lookup in Hs as [n Hn]. exists (Z.of_nat n), s. by rewrite at_of_nat.
    - intros (i & s & Hs & Hu & <- & <-). apply at_Some in Hs as [_ Hs]. apply list_elem_of_lookup_2 in Hs.
      assert (s ∈ l) as Hl by (by apply list_elem_of_filter). apply list_elem_of_lookup in Hl as [n Hn].
      apply (kmap_at _ _ _ (Z.of_nat n)); [done|]. by rewrite at_of_nat. }
  split; [done|]. rewrite <- E. by apply kmap_size.
Qed.

Lemma sess_full c m : slots_ok (sc_slots c) (sc_free c) m ->
  match sc_free c with
  | [] => Z.of_nat (size m) = MK_SESS_CAP /\ forall i, 0 <= i < MK_SESS_CAP -> slot_used (sc_slots c) i = true
  | _ :: _ => Z.of_nat (size m) < MK_SESS_CAP
  end.
Proof.
  intros O. destruct (slots_map c m O) as [_ Hsz]. pose proof (sk_len _ _ _ O) as Hl. pose proof (sk_free _ _ _ O) as Hf.
  destruct (sc_free c) as [|i free].
  - assert (forall i s, at_ (sc_slots c) i = Some s -> ss_used s = true) as Hall.
    { intros i s Hs. destruct (ss_used s) eqn:Eu; [done|]. assert (i ∈ []) as H%elem_of_nil by (apply Hf; eauto). done. }
    split.
    + rewrite Hsz, filter_all; [done|]. intros s [n Hn]%list_elem_of_lookup. apply (Hall (Z.of_nat n)). by rewrite at_of_nat.
    + intros i Hi. rewrite <- Hl in Hi. destruct (at_is_Some _ _ Hi) as [s Hs]. apply slot_used_true. eauto.
  - destruct (proj1 (Hf i) ltac:(by left)) as (s & Hs & Hu). apply at_Some in Hs as [_ Hs]. apply list_elem_of_lookup_2 in Hs.
    rewrite Hsz, <- Hl. assert (length (filter (fun s => ss_used s = true) (sc_slots c)) < length (sc_slots c))%nat; [|lia].
    eapply (length_filter_lt _ _ s); [done|congruence].
Qed.

Lemma sess_rebuild c m : slots_ok (sc_slots c) (sc_free c) m -> 0 <= sc_evict_cursor c < MK_SESS_CAP -> sess_ok (pair_hash_rebuild c) m.
Proof. intros O Hc. split; [done|exact (rebuild_index c (sk_len _ _ _ O))|done]. Qed.

Lemma sess_upd c m i s f : sess_ok c m -> at_ (sc_slots c) i = Some s -> ss_used s = true ->
  ss_used (f s) = true -> sess_key (f s) = sess_key s -> sess_ok (upd_slot c i f) (<[sess_key s := sess_val (f s)]> m).
Proof.
  intros O Hs Hu Hfu Hfk. pose proof (at_upd_Some f i (sc_slots c) s) as U. pose proof (at_lt _ _ _ Hs) as Hb.
  split; [apply update_slots; try done; apply O| |apply O].
  cbn [sc_slots sc_pair_hash upd_slot]. apply (indexed_ext _ (slot_home (sc_slots c)) _ (fun i => slot_used (sc_slots c) i = true)); [| |apply O].
  - intros j. unfold slot_used. destruct (decide (j = i)) as [->|Hne]; [by rewrite (at_upd_eq _ _ _ _ Hs), Hs, Hu, Hfu|].
    by rewrite at_upd_ne by (lia || done).
  - intros j _. unfold slot_home. destruct (decide (j = i)) as [->|Hne]; [|by rewrite at_upd_ne by (lia || done)].
    rewrite (at_upd_eq _ _ _ _ Hs), Hs. unfold sess_key in Hfk. by injection Hfk as -> ->.
Qed.

Lemma sess_release c m i s : sess_ok c m -> at_ (sc_slots c) i = Some s -> ss_used s = true ->
  sess_ok (pair_hash_rebuild (release c i)) (delete (sess_key s) m).
Proof. intros O Hs Hu. apply sess_rebuild; [by apply release_slots; [apply O| |]|apply O]. Qed.

Lemma room_keep m k : is_Some (m !! k) \/ Z.of_nat (size m) < MK_SESS_CAP -> make_room m m k.
Proof. intros H. unfold make_room. by rewrite decide_True. Qed.

Lemma room_evict m k k' : m !! k = None -> Z.of_nat (size m) = MK_SESS_CAP -> is_Some (m !! k') -> make_room m (delete k' m) k.
Proof. intros Hk Hs H. unfold make_room. rewrite decide_False; [eauto|]. rewrite Hk. intros [[? ?]|?]; [done|lia]. Qed.

#[local] Strategy 1000 [for_range].

(** What the allocation of a slot leaves: a free slot in hand. *)
Lemma session_alloc_ok c m u p : sess_ok c m -> m !! (u, p) = None ->
  exists i c1 m1, make_room m m1 (u, p) /\ m1 !! (u, p) = None /\ slots_ok (sc_slots c1) (i :: sc_free c1) m1 /\
    0 <= sc_evict_cursor c1 < MK_SESS_CAP /\
    alloc_slot c = Some (i, SessTable (upd_at (fun _ => set_used true zero_slot) i (sc_slots c1)) (sc_free c1) (sc_pair_hash c1) (sc_evict_cursor c1)).
Proof.
  intros O Hm. pose proof (sess_full c m (so_slots _ _ O)) as F. pose proof (so_cursor _ _ O) as Hc. unfold alloc_slot.
  destruct (sc_free c) as [|i free] eqn:Ef; cbn [length].
  - destruct F as [Fs Fu]. cbn [Z.of_nat Z.ltb Z.compare sc_slots]. rewrite (Fu _ Hc). pose proof (Fu _ Hc) as (s & Hs & Hu)%slot_used_true.
    set (c0 := SessTable _ _ _ _). assert (slots_ok (sc_slots c0) (sc_free c0) m) as O0 by (cbn; rewrite <- Ef; apply O).
    pose proof (release_slots _ _ _ _ _ O0 Hs Hu) as O1. exists (sc_evict_cursor c), (SessTable (sc_slots (release c0 (sc_evict_cursor c))) []
      (sc_pair_hash (pair_hash_rebuild (release c0 (sc_evict_cursor c)))) ((sc_evict_cursor c + 1) mod MK_SESS_CAP)), (delete (sess_key s) m).
    split; [apply room_evict; [done|done|by rewrite (sess_lookup _ _ _ _ _ O0 Hs Hu)]|].
    split; [by rewrite lookup_delete_None; right|]. split; [exact O1|]. split; [cbn [sc_evict_cursor]; apply Z.mod_pos_bound; reflexivity|].
    unfold pop_free, pair_hash_rebuild, release, c0. cbn [sc_slots sc_free sc_pair_hash sc_evict_cursor length]. change (Z.of_nat 0 <? MK_SESS_CAP) with true. reflexivity.
  - exists i, (SessTable (sc_slots c) free (sc_pair_hash c) (sc_evict_cursor c)), m.
    split_and!; try done; [apply room_keep; by right|cbn; rewrite <- Ef; apply O|apply Hc|apply Hc|].
    rewrite (proj2 (Z.ltb_lt _ _)) by lia. unfold pop_free. by rewrite Ef.
Qed.

Lemma upd_at_twice {A} (f g : A -> A) i l : upd_at f i (upd_at g i l) = upd_at (fun x => f (g x)) i l.
Proof. unfold upd_at. generalize (Z.to_nat i). clear i. induction l as [|x l IH]; intros [|n]; cbn; [done..|]. f_equal. apply IH. Qed.

Lemma slot_for_ok c m u p : sess_ok c m -> fits 63 u ->
  exists i c1 m1 s, slot_for c u p = Some (i, c1) /\ make_room m m1 (u, p) /\
    sess_ok c1 (<[(u, p) := default new_session (m1 !! (u, p))]> m1) /\
    at_ (sc_slots c1) i = Some s /\ ss_used s = true /\ sess_key s = (u, p) /\ sess_val s = default new_session (m1 !! (u, p)).
Proof.
  intros O Hf. pose proof (sess_find_ok c m u p O) as F. unfold slot_for. destruct (m !! (u, p)) as [v|] eqn:Em.
  - destruct F as (s & H0 & Hs & Hu & Hk & Hv). rewrite (proj2 (Z.ltb_ge _ _) H0).
    exists (pair_find c u p), c, m, s. rewrite Em. cbn [default]. split; [done|]. split; [apply room_keep; left; rewrite Em; eauto|].
    split; [by rewrite insert_id|done].
  - rewrite F. cbn [Z.ltb Z.compare]. destruct (session_alloc_ok c m u p O Em) as (i & c1 & m1 & Hr & Hm1 & O1 & Hc & ->).
    set (s := SessSlot true u p "" 0 false ""). unfold upd_slot. cbn [sc_slots sc_free sc_pair_hash sc_evict_cursor].
    rewrite upd_at_twice. cbv beta.
    assert (name_slot u p (set_used true zero_slot) = s) as -> by (unfold name_slot; cbn; by rewrite strn_short).
    exists i, (pair_hash_rebuild (SessTable (upd_at (fun _ => s) i (sc_slots c1)) (sc_free c1) (sc_pair_hash c1) (sc_evict_cursor c1))), m1, s.
    rewrite Hm1. cbn [default]. split; [done|]. split; [done|]. split; [|].
    + apply sess_rebuild; [|done]. cbn [sc_slots sc_free]. by apply (claim_slots _ _ _ _ s O1).
    + split; [|done]. cbn [sc_slots pair_hash_rebuild]. destruct (proj1 (sk_free _ _ _ O1 i) ltac:(by left)) as (x & Hx & _). by rewrite (at_upd_eq _ _ _ _ Hx).
Qed.

Lemma remove_all_ok c m u : sess_ok c m -> sess_ok (local_remove_all c u) (filter (fun kv => kv.1.1 <> u) m).
Proof.
  intros O. unfold local_remove_all.
  set (P := fun n (p : sess_table * bool) => let '(c', changed) := p in exists m', slots_ok (sc_slots c') (sc_free c') m' /\
    sc_evict_cursor c' = sc_evict_cursor c /\ (changed = false -> c' = c) /\ m' ⊆ m /\
    (forall k, k.1 <> u -> m' !! k = m !! k) /\ (forall i s, at_ (sc_slots c') i = Some s -> i < n -> ss_used s = true -> ss_user_id s <> u)).
  assert (P MK_SESS_CAP (for_range MK_SESS_CAP (remove_user u) (c, false))) as H.
  { apply for_range_ind; [done| |].
    - exists m. split_and!; try done; [apply O|]. intros i s Hs Hi. apply at_lt in Hs. lia.
    - intros i [c' ch] Hi (m' & O' & Hc & Hch & Hsub & Hk & Hdone). unfold remove_user. rewrite <- (sk_len _ _ _ O') in Hi.
      destruct (at_is_Some _ _ Hi) as [s Hs]. rewrite Hs.
      destruct (ss_used s) eqn:Eu; cbn [andb]; [destruct (streq (ss_user_id s) u) eqn:Es|].
      + apply streq_eq in Es. exists (delete (sess_key s) m'). split; [by apply release_slots|]. split; [done|]. split; [done|].
        split; [etrans; [apply delete_subseteq|done]|]. split.
        * intros k Hku. rewrite lookup_delete_ne; [by apply Hk|]. intros <-. by apply Hku.
        * intros j x [[-> ->]|[Hne Hx]]%(at_upd_Some _ _ _ _ _ _ Hs) Hj Hu'; [done|]. apply (Hdone j x); [done|lia|done].
      + exists m'. split_and!; try done. intros j x Hx Hj Hu'. destruct (decide (j = i)) as [->|]; [|apply (Hdone j x); [done|lia|done]].
        intros E. rewrite Hs in Hx. injection Hx as <-. by rewrite E, streq_refl in Es.
      + exists m'. split_and!; try done. intros j x Hx Hj Hu'. destruct (decide (j = i)) as [->|]; [congruence|apply (Hdone j x); [done|lia|done]]. }
  destruct (for_range MK_SESS_CAP (remove_user u) (c, false)) as [c' ch]. destruct H as (m' & O' & Hc & Hch & Hsub & Hk & Hdone).
  assert (filter (fun kv => kv.1.1 <> u) m = m') as ->.
  { apply map_eq. intros k. apply option_eq. intros v. rewrite map_lookup_filter_Some. cbn. split.
    - intros [Hv Hku]. by rewrite Hk.
    - intros Hv. split; [by eapply lookup_weaken|]. apply (sk_map _ _ _ O') in Hv as (i & s & Hs & Hu & <- & _).
      apply (Hdone i s Hs); [|done]. apply at_lt in Hs. rewrite (sk_len _ _ _ O') in Hs. lia. }
  destruct ch; [|rewrite (Hch eq_refl) in *; by split; [|apply O|apply O]].
  apply sess_rebuild; [done|]. rewrite Hc. apply O.
Qed.

Lemma alter_Some_insert (g : session -> session) (m : gmap (string * Z) session) k v : m !! k = Some v -> alter g k m = <[k := g v]> m.
Proof.
  intros Hv. apply map_eq. intros k'. destruct (decide (k = k')) as [<-|Hne].
  - by rewrite lookup_alter_eq, lookup_insert_eq, Hv.
  - by rewrite lookup_alter_ne, lookup_insert_ne.
Qed.

Lemma alter_None_id (g : session -> session) (m : gmap (string * Z) session) k : m !! k = None -> alter g k m = m.
Proof.
  intros Hv. apply map_eq. intros k'. destruct (decide (k = k')) as [<-|Hne]; [by rewrite lookup_alter_eq, Hv|by rewrite lookup_alter_ne].
Qed.

(** Every operation is defined and does what the map does. *)
Lemma sess_step_ok c m op : sess_ok c m -> sess_fits op ->
  exists c' m', sess_step c op = Some c' /\ sess_spec m op m' /\ sess_ok c' m'.
Proof.
  intros O Hf. destruct op as [u tok p ttl now|u p|u|u p a|u p]; cbn [sess_step sess_spec].
  - destruct (slot_for_ok c m u p O Hf) as (i & c1 & m1 & s & E & Hr & O1 & Hs & Hu & Hk & Hv).
    unfold local_set_token. rewrite E. eexists _, _. split; [done|]. split; [by exists m1|].
    pose proof (sess_upd c1 _ i s (store_token tok (expire_at now ttl)) O1 Hs Hu Hu eq_refl) as R.
    rewrite Hk, insert_insert_eq in R. rewrite <- Hv. exact R.
  - eexists _, _. split; [done|]. split; [done|]. pose proof (sess_find_ok c m u p O) as F. unfold local_remove_token.
    destruct (m !! (u, p)) as [v|] eqn:Em.
    + destruct F as (s & H0 & Hs & Hu & Hk & _). rewrite (proj2 (Z.leb_le _ _) H0), <- Hk. by apply sess_release.
    + rewrite F. cbn. by rewrite delete_id.
  - eexists _, _. split; [done|]. split; [done|]. by apply remove_all_ok.
  - destruct (slot_for_ok c m u p O Hf) as (i & c1 & m1 & s & E & Hr & O1 & Hs & Hu & Hk & Hv).
    unfold local_set_online. rewrite E. eexists _, _. split; [done|]. split; [by exists m1|].
    pose proof (sess_upd c1 _ i s (store_online a) O1 Hs Hu Hu eq_refl) as R.
    rewrite Hk, insert_insert_eq in R. rewrite <- Hv. exact R.
  - eexists _, _. split; [done|]. split; [done|]. pose proof (sess_find_ok c m u p O) as F. unfold local_set_offline.
    destruct (m !! (u, p)) as [v|] eqn:Em.
    + destruct F as (s & H0 & Hs & Hu & Hk & Hv). rewrite (proj2 (Z.leb_le _ _) H0).
      pose proof (sess_upd c m _ s store_offline O Hs Hu Hu eq_refl) as R. rewrite Hk in R.
      rewrite (alter_Some_insert _ _ _ _ Em), <- Hv. exact R.
    + rewrite F. cbn. by rewrite (alter_None_id _ _ _ Em).
Qed.

Lemma create_sess_ok : sess_ok sess_table_create ∅.
Proof.
  assert (forall i s, at_ (sc_slots sess_table_create) i = Some s -> s = zero_slot) as Hz.
  { intros i s [_ Hs]%at_Some. by apply lookup_replicate in Hs as [-> _]. }
  split; [split| |done].
  - unfold sess_table_create. cbn [sc_slots]. by rewrite length_replicate.
  - apply NoDup_seqZ.
  - intros i. unfold sess_table_create. cbn [sc_free]. rewrite elem_of_seqZ. split.
    + intros Hi. destruct (at_is_Some (sc_slots sess_table_create) i) as [s Hs].
      { cbn [sc_slots sess_table_create]. rewrite length_replicate. unfold MK_SESS_CAP in *. lia. }
      exists s. split; [exact Hs|]. by rewrite (Hz _ _ Hs).
    + intros (s & Hs & _). apply at_lt in Hs. cbn [sc_slots sess_table_create] in Hs. rewrite length_replicate in Hs. unfold MK_SESS_CAP in *. lia.
  - intros i j s s' Hi _ Hu. by rewrite (Hz _ _ Hi) in Hu.
  - intros k v. rewrite lookup_empty. split; [done|]. intros (i & s & Hs & Hu & _). by rewrite (Hz _ _ Hs) in Hu.
  - apply (indexed_ext _ (fun _ => 0) _ (fun _ => False)); [|done|apply indexed_empty].
    intros i. split; [done|]. intros (s & Hs & Hu)%slot_used_true. by rewrite (Hz _ _ Hs) in Hu.
Qed.

(** ** Theorems *)

(** A session that accepts a token at a given time. *)
Definition accepts (token : string) (now : Z) (v : session) : Prop :=
  se_token v = token /\ (se_expire v <= 0 \/ now <= se_expire v).

Lemma validate_ok c m u token now : sess_ok c m ->
  local_validate c u token now = true <-> exists p v, m !! (u, p) = Some v /\ accepts token now v.
Proof.
  intros O. unfold local_validate, accepts. rewrite existsb_exists. split.
  - intros (s & Hs & Hv). unfold token_valid in Hv. rewrite !andb_true_iff, !streq_eq, negb_true_iff, andb_false_iff, !Z.ltb_ge in Hv.
    destruct Hv as (((Hu & Hk) & He) & Ht). apply list_elem_of_In, list_elem_of_lookup in Hs as [n Hn].
    exists (ss_platform s), (sess_val s). split; [|done]. apply (sk_map _ _ _ (so_slots _ _ O)). exists (Z.of_nat n), s.
    rewrite at_of_nat. split_and!; try done. unfold sess_key. by rewrite Hk.
  - intros (p & v & (i & s & Hs & Hu & Hk & <-)%(sk_map _ _ _ (so_slots _ _ O)) & Ht & He). exists s. apply at_Some in Hs as [_ Hs].
    split; [apply list_elem_of_In; by apply list_elem_of_lookup_2 in Hs|]. unfold sess_key in Hk. injection Hk as Hk1 Hk2.
    unfold token_valid. rewrite !andb_true_iff, !streq_eq, negb_true_iff, andb_false_iff, !Z.ltb_ge. done.
Qed.

(** The slots after a sequence of operations; None: undefined behaviour. *)
Definition sess_exec (ops : list sess_op) : option sess_table :=
  foldl (fun o op => match o with Some c => sess_step c op | None => None end) (Some sess_table_create) ops.

Lemma sess_exec_ok ops : Forall sess_fits ops ->
  exists c m, sess_exec ops = Some c /\ sess_run ∅ ops m /\ sess_ok c m.
Proof.
  induction ops as [|op ops IH] using rev_ind; [exists sess_table_create, ∅; split_and!; [done|constructor|apply create_sess_ok]|].
  intros [Hf Hop]%list.Forall_app. destruct (IH Hf) as (c & m & E & Hr & O). apply list.Forall_cons in Hop as [Hop _].
  destruct (sess_step_ok c m op O Hop) as (c' & m' & E' & Hs & O'). exists c', m'. split; [|split; [by econstructor|done]].
  unfold sess_exec in *. by rewrite foldl_app, E.
Qed.

(** The session cache is a finite map from (user, platform) to sessions that
    holds at most 4096 keys: after any operations on user ids that fit their
    buffer, no slot was read outside the table, the slots hold the map that the
    reference semantics gives (which gives up a session only for a new key when
    4096 are taken), and a token is accepted exactly when some platform of the
    user has it and it has not expired. *)
Theorem session_cache_refines ops : Forall sess_fits ops ->
  exists c m, sess_exec ops = Some c /\ sess_run ∅ ops m /\ sessions c = m /\ Z.of_nat (size m) <= MK_SESS_CAP /\
    forall u token now, local_validate c u token now = true <-> exists p v, m !! (u, p) = Some v /\ accepts token now v.
Proof.
  intros Hf. destruct (sess_exec_ok ops Hf) as (c & m & E & Hr & O). exists c, m. split; [done|]. split; [done|].
  destruct (slots_map c m (so_slots _ _ O)) as [Em Hsz]. split; [done|]. split; [|intros; by apply validate_ok].
  rewrite Hsz, <- (sk_len _ _ _ (so_slots _ _ O)). apply Nat2Z.inj_le, length_filter.
Qed.

Lemma session_cache_refines_witness :
  exists c m, sess_exec [OSetToken "u" "t" 1 0 5; OSetOnline "u" 2 None; ORemoveToken "u" 1] = Some c /\
    sess_run ∅ [OSetToken "u" "t" 1 0 5; OSetOnline "u" 2 None; ORemoveToken "u" 1] m /\ sessions c = m /\ Z.of_nat (size m) <= MK_SESS_CAP /\
    forall u token now, local_validate c u token now = true <-> exists p v, m !! (u, p) = Some v /\ accepts token now v.
Proof. apply session_cache_refines. repeat constructor. Defined.

(** A token that was set is accepted until it expires, unless the user has
    removed it, and a user without sessions has no valid token. *)
Theorem session_token_lifecycle ops u p token ttl now later : Forall sess_fits ops -> fits 63 u -> fits 255 token ->
  exists c, sess_exec (ops ++ [OSetToken u token p ttl now]) = Some c /\
    (ttl <= 0 \/ later <= i64 (now + ttl) -> local_validate c u token later = true) /\
    exists c', sess_exec (ops ++ [OSetToken u token p ttl now; ORemoveAll u]) = Some c' /\ forall tok t, local_validate c' u tok t = false.
Proof.
  intros Hf Hu Ht. destruct (sess_exec_ok ops Hf) as (c0 & m0 & E0 & _ & O0).
  destruct (sess_step_ok c0 m0 (OSetToken u token p ttl now) O0 Hu) as (c & m & E & (m1 & _ & Em) & O). exists c.
  split; [unfold sess_exec in *; by rewrite foldl_app, E0|]. split.
  - intros Hl. apply (validate_ok c m); [done|]. exists p. rewrite Em, lookup_insert_eq. eexists. split; [done|]. split; cbn.
    + by apply strn_short.
    + unfold expire_at. destruct (Z.ltb_spec 0 ttl); [right|left]; lia.
  - pose proof (remove_all_ok c m u O) as O'. exists (local_remove_all c u). split; [unfold sess_exec in *; rewrite foldl_app, E0; cbn [foldl]; by rewrite E|].
    intros tok t. apply not_true_iff_false. rewrite (validate_ok _ _ _ _ _ O'). intros (q & v & Hv & _).
    by apply map_lookup_filter_Some in Hv as [_ Hv].
Qed.

(** With a Redis client the stored text is searched for the token: pieces of
    the text that are not tokens are accepted, here the name of a field. *)
Example redis_accepts_fragment :
  let ops := RedisOps (list (text * text)) (fun r k v _ => (0, (k, v) :: r))
    (fun r k => snd <$> List.find (fun kv => bool_decide (kv.1 = k)) r) (fun r _ => (0, r)) (fun r _ _ _ => (0, r)) (fun r _ _ => (0, r)) in
  match miku_session_set_token ops (miku_session_cache_create (Some [])) (Some "alice") (Some "s3cret") 1 0 0 with
  | Some (0, c) => miku_session_validate_token ops c (Some "alice") (Some "platform") 0
  | _ => 1
  end = 0.
Proof. vm_compute. reflexivity. Qed.

(** A user who is online without a token is accepted with the empty token. *)
Example online_accepts_empty :
  match sess_exec [OSetOnline "alice" 1 None] with Some c => local_validate c "alice" "" 0 | None => false end = true.
Proof. vm_compute. reflexivity. Qed.

(** A user id that is longer than its buffer is never found again: setting its
    token twice takes two slots, and removing it removes neither. *)
Example long_id_duplicates :
  let u := "0123456789012345678901234567890123456789012345678901234567890123" in
  match sess_exec [OSetToken u "t" 1 0 0; OSetToken u "t" 1 0 0; ORemoveToken u 1; ORemoveAll u] with
  | Some c => length (filter (fun s => ss_used s = true) (sc_slots c))
  | None => O
  end = 2%nat.
Proof. vm_compute. reflexivity. Qed.
