(* ===== verification/Cache.v ===== *)
(** * Least-recently-used cache (storage/miku_cache.c)

    Entries on a doubly linked list between two sentinels, the most recently
    used first, and a hash map from keys to entries.  The heap is one finite map
    per pointer field, indexed by address; reading a field of an entry that was
    freed, or was never allocated, is None; so is writing a field of one.  The values that the cache passes to
    its [val_free] function are logged in the order of the calls.

    [lru_refines]: the structure is a list of entries, and no freed entry is
    touched.  [cache_ownership]: the cache frees or hands back every value that
    was put, once. *)
From S2P Require Import Prelude Hash HashMap.
#[local] Open Scope string_scope.
#[local] Open Scope list_scope.
#[local] Open Scope Z_scope.

Section Cache.
Context {M : Type -> Type} `{StringMap M} {V : Type}.
(** Whether [val_free] was given. *)
Context (val_free : bool).

Record miku_cache_entry := Entry { ce_key : string; ce_val : option V; ce_expire_ms : Z }.

Record cache_heap := CacheHeap { ch_next : gmap Z Z; ch_prev : gmap Z Z; ch_ent : gmap Z miku_cache_entry }.

(** The addresses of [cache->head] and [cache->tail]. *)
Definition HEAD : Z := 0.
Definition TAIL : Z := 1.

(** [c_fresh] is an address that was never used. *)
Record miku_cache := Cache {
  c_map : M Z; c_heap : cache_heap; c_capacity : Z; c_size : Z; c_fresh : Z; c_freed : list V }.

Definition set_heap (c : miku_cache) (h : cache_heap) : miku_cache :=
  Cache (c_map c) h (c_capacity c) (c_size c) (c_fresh c) (c_freed c).

Definition set_map (c : miku_cache) (m : M Z) : miku_cache :=
  Cache m (c_heap c) (c_capacity c) (c_size c) (c_fresh c) (c_freed c).

Definition add_size (c : miku_cache) (d : Z) : miku_cache :=
  Cache (c_map c) (c_heap c) (c_capacity c) (c_size c + d) (c_fresh c) (c_freed c).

Definition unlink_entry (h : cache_heap) (e : Z) : option cache_heap :=
  p ← ch_prev h !! e;
  n ← ch_next h !! e;
  _ ← ch_next h !! p;
  _ ← ch_prev h !! n;
  Some (CacheHeap (<[p := n]> (ch_next h)) (<[n := p]> (ch_prev h)) (ch_ent h)).

Definition push_front (h : cache_heap) (e : Z) : option cache_heap :=
  f ← ch_next h !! HEAD;
  _ ← ch_prev h !! f;
  Some (CacheHeap (<[HEAD := e]> (<[e := f]> (ch_next h))) (<[f := e]> (<[e := HEAD]> (ch_prev h))) (ch_ent h)).

Definition move_to_front (h : cache_heap) (e : Z) : option cache_heap :=
  h ← unlink_entry h e;
  push_front h e.

Definition freed_val (v : option V) : list V := if val_free then match v with Some v => [v] | None => [] end else [].

(** The value goes to [val_free]; the entry is gone. *)
Definition free_entry (c : miku_cache) (e : Z) : option miku_cache :=
  if (e =? HEAD) || (e =? TAIL) then Some c
  else
    x ← ch_ent (c_heap c) !! e;
    Some (Cache (c_map c)
            (CacheHeap (delete e (ch_next (c_heap c))) (delete e (ch_prev (c_heap c))) (delete e (ch_ent (c_heap c))))
            (c_capacity c) (c_size c) (c_fresh c) (c_freed c ++ freed_val (ce_val x))).

Definition miku_cache_create (capacity : Z) : miku_cache :=
  Cache (sm_create (if 0 <? capacity then capacity else 64))
    (CacheHeap {[HEAD := TAIL]} {[TAIL := HEAD]} ∅) (if 0 <? capacity then capacity else 1024) 0 2 [].

Definition expired (x : miku_cache_entry) (now : Z) : bool := (0 <? ce_expire_ms x) && (ce_expire_ms x <? now).

(** Unlink, remove from the map, free, [size--]. *)
Definition drop_entry (c : miku_cache) (e : Z) (key : string) : option miku_cache :=
  h ← unlink_entry (c_heap c) e;
  c ← free_entry (set_map (set_heap c h) (sm_del (c_map c) key)) e;
  Some (add_size c (-1)).

(** The result is the value; [Some None] is NULL. *)
Definition miku_cache_get (c : miku_cache) (key : string) (now : Z) : option (option V * miku_cache) :=
  match sm_get (c_map c) key with
  | None => Some (None, c)
  | Some e =>
      x ← ch_ent (c_heap c) !! e;
      if expired x now then
        c ← drop_entry c e key;
        Some (None, c)
      else
        h ← move_to_front (c_heap c) e;
        Some (ce_val x, set_heap c h)
  end.

Fixpoint evict_lru (fuel : nat) (c : miku_cache) : option miku_cache :=
  if c_capacity c <=? c_size c then
    victim ← ch_prev (c_heap c) !! TAIL;
    if victim =? HEAD then Some c
    else match fuel with
         | O => None
         | S fuel =>
             x ← ch_ent (c_heap c) !! victim;
             c ← drop_entry c victim (ce_key x);
             evict_lru fuel c
         end
  else Some c.

Definition expire_ms (ttl_ms now : Z) : Z := if 0 <? ttl_ms then i64 (now + ttl_ms) else 0.

Definition miku_cache_put (c : miku_cache) (key : string) (val : option V) (ttl_ms now : Z) : option (Z * miku_cache) :=
  match sm_get (c_map c) key with
  | Some e =>
      x ← ch_ent (c_heap c) !! e;
      let h := CacheHeap (ch_next (c_heap c)) (ch_prev (c_heap c)) (<[e := Entry (ce_key x) val (expire_ms ttl_ms now)]> (ch_ent (c_heap c))) in
      h ← move_to_front h e;
      Some (0, Cache (c_map c) h (c_capacity c) (c_size c) (c_fresh c) (c_freed c ++ freed_val (ce_val x)))
  | None =>
      c ← evict_lru (Z.to_nat (c_size c)) c;
      let e := c_fresh c in
      let h := CacheHeap (ch_next (c_heap c)) (ch_prev (c_heap c)) (<[e := Entry key val (expire_ms ttl_ms now)]> (ch_ent (c_heap c))) in
      h ← push_front h e;
      Some (0, Cache (sm_put (c_map c) key e) h (c_capacity c) (c_size c + 1) (e + 1) (c_freed c))
  end.

Definition miku_cache_put_permanent (c : miku_cache) (key : string) (val : option V) (now : Z) : option (Z * miku_cache) :=
  miku_cache_put c key val 0 now.

(** The value is not freed: [val = NULL] before [free_entry]. *)
Definition miku_cache_del (c : miku_cache) (key : string) : option (bool * miku_cache) :=
  match sm_get (c_map c) key with
  | None => Some (false, c)
  | Some e =>
      h ← unlink_entry (c_heap c) e;
      x ← ch_ent h !! e;
      let h := CacheHeap (ch_next h) (ch_prev h) (<[e := Entry (ce_key x) None (ce_expire_ms x)]> (ch_ent h)) in
      c ← free_entry (set_map (set_heap c h) (sm_del (c_map c) key)) e;
      Some (true, add_size c (-1))
  end.

Definition miku_cache_size (c : miku_cache) : Z := c_size c.

Fixpoint expire_walk (fuel : nat) (c : miku_cache) (now e evicted : Z) : option (Z * miku_cache) :=
  if e =? HEAD then Some (evicted, c)
  else match fuel with
       | O => None
       | S fuel =>
           prev ← ch_prev (c_heap c) !! e;
           x ← ch_ent (c_heap c) !! e;
           if expired x now then
             c ← drop_entry c e (ce_key x);
             expire_walk fuel c now prev (evicted + 1)
           else expire_walk fuel c now prev evicted
       end.

Definition miku_cache_evict_expired (c : miku_cache) (now : Z) : option (Z * miku_cache) :=
  e ← ch_prev (c_heap c) !! TAIL;
  expire_walk (Z.to_nat (c_size c)) c now e 0.

Fixpoint clear_walk (fuel : nat) (c : miku_cache) (e : Z) : option miku_cache :=
  if e =? TAIL then Some c
  else match fuel with
       | O => None
       | S fuel =>
           next ← ch_next (c_heap c) !! e;
           c ← free_entry c e;
           clear_walk fuel c next
       end.

Definition miku_cache_clear (c : miku_cache) : option miku_cache :=
  e ← ch_next (c_heap c) !! HEAD;
  c ← clear_walk (Z.to_nat (c_size c)) c e;
  Some (Cache (sm_create (c_capacity c))
          (CacheHeap (<[HEAD := TAIL]> (ch_next (c_heap c))) (<[TAIL := HEAD]> (ch_prev (c_heap c))) (ch_ent (c_heap c)))
          (c_capacity c) 0 (c_fresh c) (c_freed c)).

(** ** Reference: a list of entries, the most recently used first *)

Definition has_key (k : string) (x : miku_cache_entry) : bool := streq (ce_key x) k.
Definition find_entry (k : string) (l : list miku_cache_entry) : option miku_cache_entry := List.find (has_key k) l.
Definition without (k : string) (l : list miku_cache_entry) : list miku_cache_entry := filter (fun x => ce_key x <> k) l.
Definition freed_vals (l : list miku_cache_entry) : list V := mjoin (freed_val ∘ ce_val <$> l).

Inductive cache_op :=
  | CGet (k : string) (now : Z)
  | CPut (k : string) (v : option V) (ttl_ms now : Z)
  | CDel (k : string)
  | CSize
  | CEvictExpired (now : Z)
  | CClear.

Inductive cache_res := RVal (v : option V) | RInt (z : Z) | RBool (b : bool) | RUnit.

(** The entries and the log of freed values. *)
Definition spec_step (cap : Z) (s : list miku_cache_entry * list V) (op : cache_op) : cache_res * (list miku_cache_entry * list V) :=
  let '(l, fr) := s in
  match op with
  | CGet k now =>
      match find_entry k l with
      | None => (RVal None, s)
      | Some x => if expired x now then (RVal None, (without k l, fr ++ freed_val (ce_val x))) else (RVal (ce_val x), (x :: without k l, fr))
      end
  | CPut k v ttl_ms now =>
      let e := Entry k v (expire_ms ttl_ms now) in
      match find_entry k l with
      | Some x => (RInt 0, (e :: without k l, fr ++ freed_val (ce_val x)))
      | None => let n := Z.to_nat (cap - 1) in (RInt 0, (e :: take n l, fr ++ freed_vals (reverse (drop n l))))
      end
  | CDel k => (RBool (bool_decide (is_Some (find_entry k l))), (without k l, fr))
  | CSize => (RInt (Z.of_nat (length l)), s)
  | CEvictExpired now =>
      let out := filter (fun x => expired x now = true) l in
      (RInt (Z.of_nat (length out)), (filter (fun x => expired x now = false) l, fr ++ freed_vals (reverse out)))
  | CClear => (RUnit, ([], fr ++ freed_vals l))
  end.

Definition cache_step (c : miku_cache) (op : cache_op) : option (cache_res * miku_cache) :=
  match op with
  | CGet k now => '(v, c) ← miku_cache_get c k now; Some (RVal v, c)
  | CPut k v ttl_ms now => '(rc, c) ← miku_cache_put c k v ttl_ms now; Some (RInt rc, c)
  | CDel k => '(b, c) ← miku_cache_del c k; Some (RBool b, c)
  | CSize => Some (RInt (miku_cache_size c), c)
  | CEvictExpired now => '(n, c) ← miku_cache_evict_expired c now; Some (RInt n, c)
  | CClear => c ← miku_cache_clear c; Some (RUnit, c)
  end.

(** ** The linked list *)

(** [next] and [prev] link the addresses of [xs] in this order. *)
Fixpoint path (nx pv : gmap Z Z) (xs : list Z) : Prop :=
  match xs with
  | a :: ((b :: _) as t) => nx !! a = Some b /\ pv !! b = Some a /\ path nx pv t
  | _ => True
  end.

Lemma path_app nx pv xs a ys : path nx pv (xs ++ a :: ys) <-> path nx pv (xs ++ [a]) /\ path nx pv (a :: ys).
Proof.
  induction xs as [|x xs IH]; [cbn [app path]; tauto|]. destruct xs as [|y xs]; [cbn; tauto|].
  cbn [app path] in *. tauto.
Qed.

Lemma path_ext_l nx pv nx' pv' xs p : (forall x, x ∈ xs -> nx' !! x = nx !! x) -> (forall x, x ∈ xs ++ [p] -> pv' !! x = pv !! x) ->
  path nx pv (xs ++ [p]) -> path nx' pv' (xs ++ [p]).
Proof.
  induction xs as [|x xs IH]; intros Hn Hp; [done|].
  assert (path nx pv (xs ++ [p]) -> path nx' pv' (xs ++ [p])) as IH'.
  { apply IH; intros z Hz; [apply Hn; by right|apply Hp; by right]. }
  destruct (xs ++ [p]) as [|y t] eqn:E; [by destruct xs|]. cbn [app]. rewrite E. cbn [path]. intros (H1 & H2 & H3).
  rewrite Hn by (by left). rewrite Hp by (rewrite <- app_comm_cons, E; right; by left). split_and!; [done|done|]. by apply IH'.
Qed.

Lemma path_ext_r nx pv nx' pv' n ys : (forall x, x ∈ n :: ys -> nx' !! x = nx !! x) -> (forall x, x ∈ ys -> pv' !! x = pv !! x) ->
  path nx pv (n :: ys) -> path nx' pv' (n :: ys).
Proof.
  revert n. induction ys as [|y ys IH]; intros n Hn Hp; [done|]. cbn [path]. intros (H1 & H2 & H3).
  rewrite Hn by (by left). rewrite Hp by (by left). split_and!; [done..|]. apply IH; [| |done]; intros z Hz; [apply Hn|apply Hp]; by right.
Qed.

(** The addresses of a list of entries, with the sentinels. *)
Definition ring (q : list (Z * miku_cache_entry)) : list Z := HEAD :: q.*1 ++ [TAIL].

Record heap_ok (h : cache_heap) (q : list (Z * miku_cache_entry)) : Prop := {
  ho_path : path (ch_next h) (ch_prev h) (ring q);
  ho_nodup : NoDup (ring q);
  ho_ent : forall a x, (a, x) ∈ q -> ch_ent h !! a = Some x }.

Lemma ring_mid q1 a x q2 : exists xs p n ys, HEAD :: q1.*1 = xs ++ [p] /\ q2.*1 ++ [TAIL] = n :: ys /\
  ring (q1 ++ (a, x) :: q2) = xs ++ p :: a :: n :: ys /\ ring (q1 ++ q2) = xs ++ p :: n :: ys.
Proof.
  destruct (exists_last (l := HEAD :: q1.*1)) as (xs & p & E1); [done|]. destruct (q2.*1 ++ [TAIL]) as [|n ys] eqn:E2; [by destruct (q2.*1)|].
  exists xs, p, n, ys. split; [done|]. split; [done|]. unfold ring. rewrite !fmap_app, fmap_cons. cbn [fst].
  rewrite <- !app_assoc, <- app_comm_cons, E2, !app_comm_cons, E1, <- !app_assoc. done.
Qed.

Lemma unlink_ok h q1 a x q2 : heap_ok h (q1 ++ (a, x) :: q2) ->
  exists h', unlink_entry h a = Some h' /\ heap_ok h' (q1 ++ q2) /\ ch_ent h' = ch_ent h /\ a ∉ ring (q1 ++ q2).
Proof.
  intros [Hp Hn He]. destruct (ring_mid q1 a x q2) as (xs & p & n & ys & _ & _ & E1 & E2). rewrite E1 in *.
  pose proof Hp as [Hl Hpr]%path_app. destruct Hpr as (Hpa & Hap & Han & Hna & Hr).
  assert (NoDup (a :: xs ++ p :: n :: ys)) as [Ha Hnd]%list.NoDup_cons.
  { revert Hn. apply NoDup_Permutation_proper. rewrite (Permutation_middle xs). by rewrite (Permutation_swap a p). }
  pose proof Hnd as (_ & Hxs & Hpr)%list.NoDup_app. apply list.NoDup_cons in Hpr as [Hpn Hnr]. apply list.NoDup_cons in Hnr as [Hny _].
  assert (p ∉ xs) as Hpx by (intros Hin; apply (Hxs _ Hin); by left).
  assert (n ∉ xs) as Hnx by (intros Hin; apply (Hxs _ Hin); right; by left).
  assert (is_Some (ch_next h !! p)) as [y Hy] by eauto.
  eexists. split; [unfold unlink_entry; rewrite Hap; cbn; rewrite Han; cbn; rewrite Hpa; cbn; by rewrite Hna|].
  split; [|split; [done|by rewrite E2]]. split; cbn [ch_next ch_prev ch_ent].
  - rewrite E2. apply path_app. split; [|cbn [path]; split_and!; [by rewrite lookup_insert_eq..|]].
    + revert Hl. apply path_ext_l; intros z Hz; rewrite lookup_insert_ne; try done; [by intros ->|].
      intros ->. apply elem_of_app in Hz as [Hz|Hz]; [done|]. apply list_elem_of_singleton in Hz as ->. apply Hpn. by left.
    + revert Hr. apply path_ext_r; intros z Hz; rewrite lookup_insert_ne; try done; by intros ->.
  - by rewrite E2.
  - intros b y' Hb. apply He. apply elem_of_app in Hb as [Hb|Hb]; apply elem_of_app; [by left|right; by right].
Qed.

Lemma free_heap_ok h q a : heap_ok h q -> a ∉ ring q ->
  heap_ok (CacheHeap (delete a (ch_next h)) (delete a (ch_prev h)) (delete a (ch_ent h))) q.
Proof.
  intros [Hp Hn He] Ha. split; cbn [ch_next ch_prev ch_ent]; [|done|].
  - revert Hp. apply path_ext_r; intros z Hz; rewrite lookup_delete_ne; try done; intros ->; apply Ha; [done|by right].
  - intros b y Hb. rewrite lookup_delete_ne; [by apply He|]. intros ->. apply Ha. right. apply elem_of_app. left.
    apply list_elem_of_fmap. by exists (b, y).
Qed.

Lemma push_ok h q a x : heap_ok h q -> a ∉ ring q -> ch_ent h !! a = Some x ->
  exists h', push_front h a = Some h' /\ heap_ok h' ((a, x) :: q) /\ ch_ent h' = ch_ent h.
Proof.
  intros [Hp Hn He] Ha Hx. unfold ring in *. destruct (q.*1 ++ [TAIL]) as [|f ys] eqn:E; [by destruct (q.*1)|].
  destruct Hp as (H1 & H2 & H3). pose proof Hn as [Hh Hf]%list.NoDup_cons. apply list.NoDup_cons in Hf as [Hf _].
  apply not_elem_of_cons in Ha as [Ha0 Ha]. pose proof Ha as [Haf Hay]%not_elem_of_cons.
  eexists. split; [unfold push_front; rewrite H1; cbn; by rewrite H2|]. split; [|done]. split; cbn [ch_next ch_prev ch_ent].
  - unfold ring. rewrite fmap_cons. cbn [fst app]. rewrite E. cbn [path]. rewrite lookup_insert_eq.
    rewrite (lookup_insert_ne _ f a), lookup_insert_eq by done. rewrite (lookup_insert_ne _ HEAD a), lookup_insert_eq by done.
    rewrite lookup_insert_eq. split_and!; try done. revert H3. apply path_ext_r; intros z Hz; rewrite !lookup_insert_ne; try done; intros <-; done.
  - unfold ring. rewrite fmap_cons. cbn [fst app]. rewrite E. apply list.NoDup_cons in Hn as [? ?].
    apply list.NoDup_cons. split; [by apply not_elem_of_cons|]. by apply list.NoDup_cons.
  - intros b y [Eb|Hb]%elem_of_cons; [by simplify_eq|by apply He].
Qed.

(** ** The cache *)

Definition pkey (p : Z * miku_cache_entry) : string := ce_key p.2.

Record cache_ok (cap : Z) (c : miku_cache) (q : list (Z * miku_cache_entry)) : Prop := {
  ca_heap : heap_ok (c_heap c) q;
  ca_keys : NoDup (pkey <$> q);
  ca_map : forall k a, sm_get (c_map c) k = Some a <-> exists x, (a, x) ∈ q /\ ce_key x = k;
  ca_size : c_size c = Z.of_nat (length q);
  ca_cap : c_capacity c = cap;
  ca_fresh : forall a, a ∈ ring q -> a < c_fresh c }.

Lemma ring_sub q1 p q2 a : a ∈ ring (q1 ++ q2) -> a ∈ ring (q1 ++ p :: q2).
Proof.
  unfold ring. rewrite !fmap_app, fmap_cons, !elem_of_cons, !elem_of_app, !elem_of_cons. tauto.
Qed.

Lemma ring_entry q a x : (a, x) ∈ q -> a ∈ ring q.
Proof. intros Ha. right. apply elem_of_app. left. apply list_elem_of_fmap. by exists (a, x). Qed.

Lemma entry_addr h q a x : heap_ok h q -> (a, x) ∈ q -> a <> HEAD /\ a <> TAIL.
Proof.
  intros O Ha. assert (a ∈ q.*1) as Hq by (apply list_elem_of_fmap; by exists (a, x)). pose proof (ho_nodup _ _ O) as Hn. unfold ring in Hn.
  apply list.NoDup_cons in Hn as [Hh Hn]. apply list.NoDup_app in Hn as (_ & Hn & _). split; intros ->.
  - apply Hh, elem_of_app. by left.
  - apply (Hn _ Hq). by left.
Qed.

Lemma keys_middle (q1 : list (Z * miku_cache_entry)) a x q2 : NoDup (pkey <$> q1 ++ (a, x) :: q2) -> ce_key x ∉ pkey <$> q1 ++ q2 /\ NoDup (pkey <$> q1 ++ q2).
Proof.
  intros Hn. assert (NoDup (ce_key x :: (pkey <$> q1 ++ q2))) as Hn'; [|by apply list.NoDup_cons in Hn'].
  revert Hn. apply NoDup_Permutation_proper. rewrite !fmap_app, fmap_cons. change (pkey (a, x)) with (ce_key x). apply Permutation_middle.
Qed.

Lemma elem_key (q : list (Z * miku_cache_entry)) a x : (a, x) ∈ q -> ce_key x ∈ pkey <$> q.
Proof. intros Ha. apply list_elem_of_fmap. by exists (a, x). Qed.

(** Taking an entry out of the list and the map. *)
Lemma take_out cap c q1 a x q2 h' n fr : cache_ok cap c (q1 ++ (a, x) :: q2) -> heap_ok h' (q1 ++ q2) -> n = c_size c - 1 ->
  cache_ok cap (Cache (sm_del (c_map c) (ce_key x)) h' (c_capacity c) n (c_fresh c) fr) (q1 ++ q2).
Proof.
  intros O Hh ->. destruct (keys_middle _ _ _ _ (ca_keys _ _ _ O)) as [Hk Hn]. split; cbn [c_heap c_map c_size c_capacity c_fresh]; try done.
  - intros k b. rewrite sm_get_del. case_decide as E.
    + split; [done|]. intros (y & Hy & <-). exfalso. apply Hk. rewrite E. by eapply elem_key.
    + rewrite (ca_map _ _ _ O). split; intros (y & Hy & <-); exists y; (split; [|done]).
      * rewrite elem_of_app, elem_of_cons in Hy. rewrite elem_of_app. destruct Hy as [|[Ey|]]; [by left| |by right]. by simplify_eq.
      * rewrite elem_of_app in Hy. rewrite elem_of_app, elem_of_cons. tauto.
  - rewrite (ca_size _ _ _ O), !length_app. cbn [length]. lia.
  - apply O.
  - intros b Hb. apply O. by apply ring_sub.
Qed.

Lemma drop_entry_ok cap c q1 a x q2 : cache_ok cap c (q1 ++ (a, x) :: q2) ->
  exists c', drop_entry c a (ce_key x) = Some c' /\ cache_ok cap c' (q1 ++ q2) /\ c_freed c' = c_freed c ++ freed_val (ce_val x).
Proof.
  intros O. destruct (unlink_ok _ _ _ _ _ (ca_heap _ _ _ O)) as (h & E & Hh & He & Ha).
  assert ((a, x) ∈ q1 ++ (a, x) :: q2) as Hin by (apply elem_of_app; right; by left).
  destruct (entry_addr _ _ _ _ (ca_heap _ _ _ O) Hin) as [N1 N2]. pose proof (ho_ent _ _ (ca_heap _ _ _ O) a x Hin) as Hx.
  eexists. split; [|split].
  - unfold drop_entry. rewrite E. cbn [mbind option_bind]. unfold free_entry. rewrite (proj2 (Z.eqb_neq _ _) N1), (proj2 (Z.eqb_neq _ _) N2).
    cbn [orb set_map set_heap c_heap]. rewrite He, Hx. done.
  - unfold add_size. cbn [c_map c_heap c_capacity c_size c_fresh c_freed set_map set_heap]. eapply take_out; [done| |lia].
    rewrite <- He. by apply free_heap_ok.
  - done.
Qed.

Lemma front_ok cap c q1 a x q2 : cache_ok cap c (q1 ++ (a, x) :: q2) ->
  exists h, move_to_front (c_heap c) a = Some h /\ cache_ok cap (set_heap c h) ((a, x) :: q1 ++ q2).
Proof.
  intros O. destruct (unlink_ok _ _ _ _ _ (ca_heap _ _ _ O)) as (h & E & Hh & He & Ha).
  assert ((a, x) ∈ q1 ++ (a, x) :: q2) as Hin by (apply elem_of_app; right; by left).
  pose proof (ho_ent _ _ (ca_heap _ _ _ O) a x Hin) as Hx. rewrite <- He in Hx.
  destruct (push_ok h _ a x Hh Ha Hx) as (h' & E' & Hh' & _). exists h'. split; [unfold move_to_front; by rewrite E|].
  assert ((a, x) :: q1 ++ q2 ≡ₚ q1 ++ (a, x) :: q2) as P by apply Permutation_middle.
  split; cbn [c_heap c_map c_size c_capacity c_fresh set_heap]; [done| | | |apply O|].
  - rewrite P. apply O.
  - intros k b. setoid_rewrite P. apply O.
  - rewrite P. apply O.
  - intros b Hb. apply O. unfold ring in *. rewrite elem_of_cons, elem_of_app in *. by rewrite P in Hb.
Qed.

Lemma find_split k (q1 : list (Z * miku_cache_entry)) a x q2 : NoDup (pkey <$> q1 ++ (a, x) :: q2) -> ce_key x = k ->
  find_entry k (q1 ++ (a, x) :: q2).*2 = Some x /\ without k (q1 ++ (a, x) :: q2).*2 = (q1 ++ q2).*2.
Proof.
  intros Hn <-. destruct (keys_middle _ _ _ _ Hn) as [Hk _]. split.
  - assert (ce_key x ∉ pkey <$> q1) as Hk1 by (intros Hin; apply Hk; rewrite fmap_app, elem_of_app; by left). clear Hn Hk.
    induction q1 as [|[b y] q1 IH]; cbn; [unfold has_key; by rewrite streq_refl|]. unfold has_key at 1. cbn in Hk1.
    apply not_elem_of_cons in Hk1 as [Hy Hk1]. rewrite streq_neq by (intros E; by apply Hy). by apply IH.
  - unfold without. rewrite !fmap_app, fmap_cons, list.filter_app. rewrite filter_cons_False by (intros Hx; by apply Hx). rewrite <- list.filter_app, <- fmap_app.
    apply filter_all. intros y (p & -> & Hp)%list_elem_of_fmap E. apply Hk. rewrite <- E. apply list_elem_of_fmap. by exists p.
Qed.

Lemma find_none k (l : list miku_cache_entry) : find_entry k l = None <-> k ∉ ce_key <$> l.
Proof.
  induction l as [|y l IH]; cbn; [split; [intros _ ?%elem_of_nil|]; done|]. rewrite not_elem_of_cons, <- IH. unfold has_key at 1.
  destruct (streq (ce_key y) k) eqn:E; [apply streq_eq in E; naive_solver|]. split; [|tauto]. intros Hl. split; [|done]. intros ->. by rewrite streq_refl in E.
Qed.

Lemma pkey_snd (q : list (Z * miku_cache_entry)) : pkey <$> q = ce_key <$> q.*2.
Proof. by rewrite <- list_fmap_compose. Qed.

(** What a lookup of the map says about the list. *)
Lemma lookup_ok cap c q k : cache_ok cap c q ->
  match sm_get (c_map c) k with
  | Some a => exists q1 x q2, q = q1 ++ (a, x) :: q2 /\ ce_key x = k /\ find_entry k q.*2 = Some x /\ without k q.*2 = (q1 ++ q2).*2 /\ ch_ent (c_heap c) !! a = Some x
  | None => find_entry k q.*2 = None
  end.
Proof.
  intros O. destruct (sm_get (c_map c) k) as [a|] eqn:E.
  - apply (ca_map _ _ _ O) in E as (x & Hx & Hk). pose proof (ho_ent _ _ (ca_heap _ _ _ O) _ _ Hx) as He.
    apply list_elem_of_split in Hx as (q1 & q2 & ->). exists q1, x, q2. destruct (find_split k q1 a x q2 (ca_keys _ _ _ O) Hk). by split_and!.
  - apply find_none. rewrite <- pkey_snd. intros ([a x] & -> & Hx)%list_elem_of_fmap.
    assert (sm_get (c_map c) (pkey (a, x)) = Some a); [|congruence]. apply (ca_map _ _ _ O). by exists x.
Qed.

(** The address before the tail sentinel when the entries [q] come before it. *)
Definition last_addr (q : list (Z * miku_cache_entry)) : Z := default HEAD (list.last q.*1).

Lemma last_addr_snoc q a x : last_addr (q ++ [(a, x)]) = a.
Proof. unfold last_addr. rewrite fmap_app. cbn. by rewrite last_snoc. Qed.

(** The [prev] pointer of the first address after [q]. *)
Lemma prev_of h q q' : heap_ok h (q ++ q') -> ch_prev h !! default TAIL (head q'.*1) = Some (last_addr q).
Proof.
  intros O. pose proof (ho_path _ _ O) as Hp. unfold ring in Hp. rewrite fmap_app, <- app_assoc in Hp.
  destruct (q'.*1 ++ [TAIL]) as [|n ys] eqn:E; [by destruct (q'.*1)|].
  assert (default TAIL (head q'.*1) = n) as -> by (destruct (q'.*1); cbn in *; by simplify_eq).
  destruct q as [|[a x] q _] using rev_ind; [apply Hp|]. rewrite last_addr_snoc. rewrite fmap_app in Hp. cbn [fmap list_fmap fst] in Hp.
  rewrite <- app_assoc in Hp. cbn [app] in Hp. rewrite app_comm_cons in Hp. apply path_app in Hp as [_ Hp]. apply Hp.
Qed.

Lemma last_is_head h q : heap_ok h q -> last_addr q = HEAD -> q = [].
Proof.
  intros O. destruct q as [|[a x] q _] using rev_ind; [done|]. rewrite last_addr_snoc. intros ->.
  destruct (entry_addr _ _ HEAD x O) as [? _]; [apply elem_of_app; right; by left|done].
Qed.

Lemma freed_vals_cons x l : freed_vals (x :: l) = freed_val (ce_val x) ++ freed_vals l.
Proof. done. Qed.

Lemma freed_vals_app l1 l2 : freed_vals (l1 ++ l2) = freed_vals l1 ++ freed_vals l2.
Proof. unfold freed_vals. by rewrite fmap_app, join_app. Qed.

Lemma evict_lru_ok cap q : 0 < cap -> forall c fuel, cache_ok cap c q -> (length q <= fuel)%nat ->
  exists c', evict_lru fuel c = Some c' /\ cache_ok cap c' (take (Z.to_nat (cap - 1)) q) /\
    c_freed c' = c_freed c ++ freed_vals (reverse (drop (Z.to_nat (cap - 1)) q).*2).
Proof.
  intros Hcap. induction q as [|[a x] q IH] using rev_ind; intros c fuel O Hf; pose proof (ca_size _ _ _ O) as Hs; pose proof (ca_cap _ _ _ O) as Hc.
  - exists c. rewrite take_nil, drop_nil. cbn. rewrite app_nil_r. split; [|done]. cbn in Hs. assert (c_size c < c_capacity c) as Hroom by lia.
    destruct fuel; cbn [evict_lru]; by rewrite (proj2 (Z.leb_gt _ _) Hroom).
  - rewrite length_app in Hs, Hf. cbn [length] in Hs, Hf. destruct (Z.leb_spec (c_capacity c) (c_size c)) as [Hfull|Hroom].
    + destruct fuel as [|fuel]; [lia|]. cbn [evict_lru]. rewrite (proj2 (Z.leb_le _ _) Hfull).
      pose proof (prev_of (c_heap c) (q ++ [(a, x)]) []) as Hp. rewrite app_nil_r in Hp. cbn [fmap list_fmap head default] in Hp. rewrite (Hp (ca_heap _ _ _ O)), last_addr_snoc.
      assert ((a, x) ∈ q ++ [(a, x)]) as Hin by (apply elem_of_app; right; by left).
      destruct (entry_addr _ _ _ _ (ca_heap _ _ _ O) Hin) as [N1 _]. cbn [mbind option_bind]. rewrite (proj2 (Z.eqb_neq _ _) N1).
      rewrite (ho_ent _ _ (ca_heap _ _ _ O) a x Hin). cbn [mbind option_bind]. destruct (drop_entry_ok cap c q a x [] O) as (c1 & -> & O1 & Hf1).
      rewrite app_nil_r in O1. cbn [mbind option_bind]. destruct (IH c1 fuel O1 ltac:(lia)) as (c' & -> & O' & Hf'). exists c'. split; [done|].
      rewrite take_app_le, drop_app_le by lia. split; [done|]. rewrite Hf', Hf1, fmap_app, reverse_app. cbn [fmap list_fmap reverse]. rewrite <- app_assoc. done.
    + exists c. rewrite take_ge, drop_ge by (rewrite length_app; cbn; lia). cbn. rewrite app_nil_r. split; [|done].
      destruct fuel; cbn [evict_lru]; by rewrite (proj2 (Z.leb_gt _ _) Hroom).
Qed.

Lemma expire_walk_ok cap now q : forall kept c fuel evicted, cache_ok cap c (q ++ kept) -> (length q <= fuel)%nat ->
  exists c', expire_walk fuel c now (last_addr q) evicted = Some (evicted + Z.of_nat (length (filter (fun x => expired x now = true) q.*2)), c') /\
    cache_ok cap c' (filter (fun p => expired p.2 now = false) q ++ kept) /\
    c_freed c' = c_freed c ++ freed_vals (reverse (filter (fun x => expired x now = true) q.*2)).
Proof.
  induction q as [|[a x] q IH] using rev_ind; intros kept c fuel evicted O Hf.
  - exists c. rewrite Z.add_0_r. cbn [fmap list_fmap filter list_filter app reverse]. unfold freed_vals. cbn. rewrite app_nil_r. split; [|done]. by destruct fuel.
  - rewrite length_app in Hf. cbn [length] in Hf. destruct fuel as [|fuel]; [lia|]. rewrite <- app_assoc in O. cbn [app] in O.
    assert ((a, x) ∈ q ++ (a, x) :: kept) as Hin by (apply elem_of_app; right; by left).
    destruct (entry_addr _ _ _ _ (ca_heap _ _ _ O) Hin) as [N1 _]. cbn [expire_walk]. rewrite last_addr_snoc, (proj2 (Z.eqb_neq _ _) N1).
    pose proof (prev_of (c_heap c) q ((a, x) :: kept) (ca_heap _ _ _ O)) as Hp. change (ch_prev (c_heap c) !! a = Some (last_addr q)) in Hp. rewrite Hp.
    cbn [mbind option_bind]. rewrite (ho_ent _ _ (ca_heap _ _ _ O) a x Hin). cbn [mbind option_bind].
    rewrite fmap_app, !list.filter_app. cbn [fmap list_fmap snd].
    destruct (expired x now) eqn:Ex.
    + destruct (drop_entry_ok cap c q a x kept O) as (c1 & -> & O1 & Hf1). cbn [mbind option_bind].
      destruct (IH kept c1 fuel (evicted + 1) O1 ltac:(lia)) as (c' & -> & O' & Hf'). exists c'.
      rewrite !filter_cons_True, !filter_nil, filter_cons_False, filter_nil, app_nil_r by (cbn; congruence). split; [|split; [done|]].
      * do 2 f_equal. rewrite length_app. cbn [length]. lia.
      * rewrite Hf', Hf1, reverse_app, <- app_assoc. done.
    + destruct (IH ((a, x) :: kept) c fuel evicted O ltac:(lia)) as (c' & -> & O' & Hf'). exists c'.
      rewrite filter_cons_False, filter_nil, filter_cons_True, filter_nil, app_nil_r, <- app_assoc by (cbn; congruence). done.
Qed.

Lemma clear_walk_ok q : forall c fuel, path (ch_next (c_heap c)) (ch_prev (c_heap c)) (q.*1 ++ [TAIL]) -> NoDup (q.*1 ++ [TAIL]) -> HEAD ∉ q.*1 ->
  (forall a x, (a, x) ∈ q -> ch_ent (c_heap c) !! a = Some x) -> (length q <= fuel)%nat ->
  exists h, clear_walk fuel c (default TAIL (head q.*1)) = Some (Cache (c_map c) h (c_capacity c) (c_size c) (c_fresh c) (c_freed c ++ freed_vals q.*2)).
Proof.
  induction q as [|[a x] q IH]; intros c fuel Hp Hn Hh He Hf.
  - exists (c_heap c). cbn. unfold freed_vals. cbn. rewrite app_nil_r. by destruct fuel, c.
  - cbn [length] in Hf. destruct fuel as [|fuel]; [lia|]. cbn [fmap list_fmap fst head default id] in *. cbn [clear_walk].
    apply not_elem_of_cons in Hh as [N1 Hh]. cbn [app] in Hp, Hn. apply list.NoDup_cons in Hn as [Ha Hn].
    assert (a <> TAIL) as N2 by (intros ->; apply Ha, elem_of_app; right; by left). rewrite (proj2 (Z.eqb_neq _ _) N2).
    destruct (q.*1 ++ [TAIL]) as [|n ys] eqn:E; [by destruct (q.*1)|].
    assert (default TAIL (head q.*1) = n) as Eh by (destruct (q.*1); cbn in *; by simplify_eq). destruct Hp as (H1 & _ & Hp).
    rewrite H1. cbn [mbind option_bind]. unfold free_entry. rewrite (proj2 (Z.eqb_neq a HEAD)), (proj2 (Z.eqb_neq a TAIL)) by done.
    cbn [orb]. rewrite (He a x) by (by left). cbn [mbind option_bind]. rewrite <- Eh.
    edestruct (IH (Cache (c_map c) (CacheHeap (delete a (ch_next (c_heap c))) (delete a (ch_prev (c_heap c))) (delete a (ch_ent (c_heap c))))
      (c_capacity c) (c_size c) (c_fresh c) (c_freed c ++ freed_val (ce_val x))) fuel) as (h & ->); cbn [c_heap ch_next ch_prev ch_ent c_map c_capacity c_size c_fresh c_freed].
    + revert Hp. apply path_ext_r; intros z Hz; rewrite lookup_delete_ne; try done; intros <-; apply Ha; [done|by right].
    + done.
    + done.
    + intros b y Hb. rewrite lookup_delete_ne; [apply He; by right|]. intros <-. apply Ha. rewrite <- E, elem_of_app. left. apply list_elem_of_fmap. by exists (a, y).
    + lia.
    + exists h. by rewrite freed_vals_cons, <- app_assoc.
Qed.

(** ** Steps *)

Definition cap_of (capacity : Z) : Z := if 0 <? capacity then capacity else 1024.

Lemma cap_of_pos capacity : 0 < cap_of capacity.
Proof. unfold cap_of. destruct (Z.ltb_spec 0 capacity); lia. Qed.

Lemma cache_create_ok capacity : cache_ok (cap_of capacity) (miku_cache_create capacity) [].
Proof.
  split; cbn [miku_cache_create c_heap c_map c_size c_capacity c_fresh]; [split| | |done|done|].
  - split; [|split]; [apply lookup_singleton_eq..|done].
  - apply list.NoDup_cons. split; [intros E%list_elem_of_singleton; discriminate E|apply NoDup_singleton].
  - by intros a x ?%elem_of_nil.
  - constructor.
  - intros k a. rewrite sm_get_create. split; [done|]. by intros (x & ?%elem_of_nil & _).
  - intros a [->|Ha]%elem_of_cons; [done|]. by apply list_elem_of_singleton in Ha as ->.
Qed.

Lemma set_val_ok cap c q1 a x q2 x' fr : cache_ok cap c (q1 ++ (a, x) :: q2) -> ce_key x' = ce_key x ->
  cache_ok cap (Cache (c_map c) (CacheHeap (ch_next (c_heap c)) (ch_prev (c_heap c)) (<[a := x']> (ch_ent (c_heap c))))
    (c_capacity c) (c_size c) (c_fresh c) fr) (q1 ++ (a, x') :: q2).
Proof.
  intros [[Hp Hn He] Hk Hm Hs Hc Hf] Ek.
  assert (ring (q1 ++ (a, x') :: q2) = ring (q1 ++ (a, x) :: q2)) as Er by (unfold ring; by rewrite !fmap_app, !fmap_cons).
  assert (pkey <$> q1 ++ (a, x') :: q2 = pkey <$> q1 ++ (a, x) :: q2) as Ep by (rewrite !fmap_app, !fmap_cons; unfold pkey at 2 5; cbn; by rewrite Ek).
  split; cbn [c_heap c_map c_size c_capacity c_fresh]; rewrite ?Er, ?Ep; try done; [split; cbn [ch_next ch_prev ch_ent]; rewrite ?Er; try done| |].
  - intros b y. rewrite elem_of_app, elem_of_cons. intros Hb. destruct (decide (b = a)) as [->|Hne].
    + rewrite lookup_insert_eq. assert (a ∉ (q1 ++ q2).*1) as Ha.
      { unfold ring in Hn. apply list.NoDup_cons in Hn as [_ Hn]. apply list.NoDup_app in Hn as [Hn _]. rewrite fmap_app, fmap_cons in Hn. cbn [fst] in Hn.
        rewrite fmap_app. assert (NoDup (a :: q1.*1 ++ q2.*1)) as H1; [|by apply list.NoDup_cons in H1 as [? _]].
        revert Hn. apply NoDup_Permutation_proper, Permutation_middle. }
      destruct Hb as [Hb|[Eb|Hb]]; [|by simplify_eq|]; exfalso; apply Ha, list_elem_of_fmap; exists (a, y); (split; [done|]); apply elem_of_app; tauto.
    + rewrite lookup_insert_ne by done. apply He. rewrite elem_of_app, elem_of_cons. destruct Hb as [|[Eb|]]; [tauto| |tauto]. by simplify_eq.
  - intros k b. rewrite Hm. split; intros (y & Hy & <-); rewrite elem_of_app, elem_of_cons in Hy.
    + destruct Hy as [Hy|[Ey|Hy]]; [exists y| injection Ey as -> ->; exists x'|exists y]; (split; [rewrite elem_of_app, elem_of_cons; tauto|done]).
    + destruct Hy as [Hy|[Ey|Hy]]; [exists y| injection Ey as -> ->; exists x|exists y]; (split; [rewrite elem_of_app, elem_of_cons; tauto|done]).
  - rewrite Hs, !length_app. done.
Qed.

Lemma cache_insert_ok cap c q k v : cache_ok cap c q -> k ∉ pkey <$> q ->
  exists h, push_front (CacheHeap (ch_next (c_heap c)) (ch_prev (c_heap c)) (<[c_fresh c := v]> (ch_ent (c_heap c)))) (c_fresh c) = Some h /\
    (ce_key v = k -> cache_ok cap (Cache (sm_put (c_map c) k (c_fresh c)) h (c_capacity c) (c_size c + 1) (c_fresh c + 1) (c_freed c)) ((c_fresh c, v) :: q)).
Proof.
  intros [[Hp Hn He] Hk Hm Hs Hc Hf] Hfresh. assert (c_fresh c ∉ ring q) as Hring by (intros Hin%Hf; lia).
  set (h0 := CacheHeap _ _ _). assert (heap_ok h0 q) as H0.
  { split; try done. intros a x Hx. cbn [ch_ent h0]. rewrite lookup_insert_ne; [by apply He|]. intros <-. apply Hring. by eapply ring_entry. }
  destruct (push_ok h0 q (c_fresh c) v H0 Hring) as (h & E & Hh & _); [apply lookup_insert_eq|]. exists h. split; [done|]. intros Ek.
  split; cbn [c_heap c_map c_size c_capacity c_fresh]; try done.
  - rewrite fmap_cons. apply list.NoDup_cons. split; [|done]. unfold pkey at 1. cbn. by rewrite Ek.
  - intros k' a. rewrite sm_get_put. case_decide as E'.
    + subst k'. split; [intros [= <-]; exists v; split; [by left|done]|]. intros (x & [Ex|Hx]%elem_of_cons & Hkx); [by simplify_eq|].
      exfalso. apply Hfresh. rewrite <- Hkx. by eapply elem_key.
    + rewrite Hm. split; intros (x & Hx & Hkx); exists x; (split; [|done]); [by right|]. apply elem_of_cons in Hx as [Ex|]; [|done]. simplify_eq.
  - rewrite Hs. cbn [length]. lia.
  - intros a [->|Ha]%elem_of_cons; [assert (HEAD < c_fresh c) by (apply Hf; by left); lia|]. cbn [fmap list_fmap fst app] in Ha.
    apply elem_of_cons in Ha as [->|Ha]; [lia|]. assert (a < c_fresh c); [|lia]. apply Hf. by right.
Qed.

Lemma take_keys (q : list (Z * miku_cache_entry)) n : (pkey <$> take n q) ⊆ (pkey <$> q).
Proof. intros k (p & -> & Hp)%list_elem_of_fmap. apply list_elem_of_fmap. exists p. split; [done|]. by eapply subseteq_take. Qed.

(** A step of the cache from the entries [q], with the reference. *)
Definition simulates (cap : Z) (c : miku_cache) (q : list (Z * miku_cache_entry)) (op : cache_op) : Prop :=
  exists r c' q', cache_step c op = Some (r, c') /\ cache_ok cap c' q' /\ (Z.of_nat (length q') <= cap) /\
    spec_step cap (q.*2, c_freed c) op = (r, (q'.*2, c_freed c')).

Section Step.
Context {cap : Z} {c : miku_cache} {q : list (Z * miku_cache_entry)} (Hcap : 0 < cap) (O : cache_ok cap c q) (Hl : Z.of_nat (length q) <= cap).

Lemma get_sim k now : simulates cap c q (CGet k now).
Proof using O Hl.
  unfold simulates. cbn [cache_step spec_step]. unfold miku_cache_get. pose proof (lookup_ok cap c q k O) as F. destruct (sm_get (c_map c) k) as [a|].
  - destruct F as (q1 & x & q2 & -> & Hk & -> & -> & Hx). rewrite Hx. cbn [mbind option_bind]. rewrite length_app in Hl. cbn [length] in Hl.
    destruct (expired x now).
    + destruct (drop_entry_ok cap c q1 a x q2 O) as (c' & E & O' & Hf). rewrite Hk in E. rewrite E. exists (RVal None), c', (q1 ++ q2).
      split_and!; [done..| |by rewrite Hf]. rewrite length_app. lia.
    + destruct (front_ok cap c q1 a x q2 O) as (h & -> & O'). exists (RVal (ce_val x)), (set_heap c h), ((a, x) :: q1 ++ q2).
      split_and!; [done..| |done]. cbn [length]. rewrite length_app. lia.
  - rewrite F. exists (RVal None), c, q. done.
Qed.

Lemma put_sim k v ttl now : simulates cap c q (CPut k v ttl now).
Proof using O Hl Hcap.
  unfold simulates. cbn [cache_step spec_step]. unfold miku_cache_put. pose proof (lookup_ok cap c q k O) as F. destruct (sm_get (c_map c) k) as [a|].
  - destruct F as (q1 & x & q2 & -> & Hk & -> & -> & Hx). rewrite Hx. cbn [mbind option_bind]. rewrite length_app in Hl. cbn [length] in Hl.
    set (x' := Entry (ce_key x) v (expire_ms ttl now)).
    pose proof (set_val_ok cap c q1 a x q2 x' (c_freed c ++ freed_val (ce_val x)) O eq_refl) as O1.
    destruct (front_ok cap _ q1 a x' q2 O1) as (h & E & O'). cbn [c_heap] in E. rewrite E. cbn [mbind option_bind].
    eexists _, _, ((a, x') :: q1 ++ q2). split; [done|]. split; [exact O'|]. split; [cbn [length]; rewrite length_app; lia|].
    unfold x'. by rewrite Hk.
  - rewrite F. destruct (evict_lru_ok cap q Hcap c (Z.to_nat (c_size c)) O) as (c1 & -> & O1 & Hf); [rewrite (ca_size _ _ _ O); lia|].
    cbn [mbind option_bind]. set (x := Entry k v (expire_ms ttl now)).
    assert (k ∉ pkey <$> take (Z.to_nat (cap - 1)) q) as Hk.
    { intros Hin%take_keys. rewrite pkey_snd in Hin. by apply find_none in F. }
    destruct (cache_insert_ok cap c1 _ k x O1 Hk) as (h & -> & O'). cbn [mbind option_bind].
    eexists _, _, (_ :: _). split; [done|]. split; [by apply O'|]. split; [cbn [length]; rewrite length_take; lia|].
    cbn [fmap list_fmap snd c_freed]. by rewrite Hf, !fmap_take, !fmap_drop.
Qed.

Lemma del_sim k : simulates cap c q (CDel k).
Proof using O Hl.
  unfold simulates. cbn [cache_step spec_step]. unfold miku_cache_del. pose proof (lookup_ok cap c q k O) as F. destruct (sm_get (c_map c) k) as [a|].
  - destruct F as (q1 & x & q2 & -> & Hk & -> & -> & Hx). rewrite length_app in Hl. cbn [length] in Hl.
    destruct (unlink_ok _ _ _ _ _ (ca_heap _ _ _ O)) as (h & -> & Hh & He & Ha). cbn [mbind option_bind]. rewrite He, Hx. cbn [mbind option_bind].
    destruct (entry_addr _ _ a x (ca_heap _ _ _ O)) as [N1 N2]; [apply elem_of_app; right; by left|].
    unfold free_entry. rewrite (proj2 (Z.eqb_neq _ _) N1), (proj2 (Z.eqb_neq _ _) N2). cbn [orb set_map set_heap c_heap ch_ent]. rewrite lookup_insert_eq.
    cbn [mbind option_bind]. eexists _, _, (q1 ++ q2). split; [done|]. split; [|split; [rewrite length_app; lia|]].
    + unfold add_size. cbn [c_map c_heap c_capacity c_size c_fresh c_freed ch_next ch_prev set_map set_heap]. rewrite <- Hk. eapply take_out; [done| |lia].
      rewrite delete_insert_eq, <- He. by apply free_heap_ok.
    + cbn [add_size c_freed ce_val freed_val]. unfold freed_val. destruct val_free; by rewrite app_nil_r.
  - rewrite F. exists (RBool false), c, q. split_and!; [done..|]. f_equal. unfold without. f_equal. apply filter_all. intros x Hx E.
    apply find_none in F. apply F. rewrite <- E. apply list_elem_of_fmap. eauto.
Qed.

Lemma evict_expired_sim now : simulates cap c q (CEvictExpired now).
Proof using O Hl.
  unfold simulates. cbn [cache_step spec_step]. unfold miku_cache_evict_expired.
  pose proof (prev_of (c_heap c) q []) as Hp. rewrite app_nil_r in Hp. change (default TAIL (head ([] : list (Z * miku_cache_entry)).*1)) with TAIL in Hp.
  rewrite (Hp (ca_heap _ _ _ O)). cbn [mbind option_bind].
  destruct (expire_walk_ok cap now q [] c (Z.to_nat (c_size c)) 0) as (c' & -> & O' & Hf); [by rewrite app_nil_r|rewrite (ca_size _ _ _ O); lia|].
  cbn [mbind option_bind]. rewrite app_nil_r in O'. eexists _, c', _. split; [done|]. split; [exact O'|].
  split; [pose proof (length_filter (fun p => expired p.2 now = false) q); lia|]. rewrite Hf. f_equal. f_equal.
  clear. induction q as [|[a x] l IH]; [done|]. cbn [fmap list_fmap snd]. destruct (expired x now) eqn:E.
  - rewrite !filter_cons_False by (cbn; congruence). apply IH.
  - rewrite !filter_cons_True by done. cbn [fmap list_fmap snd]. f_equal. apply IH.
Qed.

Lemma clear_sim : simulates cap c q CClear.
Proof using O Hl Hcap.
  unfold simulates. cbn [cache_step spec_step]. unfold miku_cache_clear. pose proof (ca_heap _ _ _ O) as [Hp Hn He]. unfold ring in Hp, Hn.
  apply list.NoDup_cons in Hn as [Hh Hn]. assert (path (ch_next (c_heap c)) (ch_prev (c_heap c)) (q.*1 ++ [TAIL]) /\ ch_next (c_heap c) !! HEAD = Some (default TAIL (head q.*1))) as [Hp' Hfirst].
  { destruct (q.*1 ++ [TAIL]) as [|n ys] eqn:E; [by destruct (q.*1)|]. destruct Hp as (H1 & _ & H2). split; [done|]. rewrite H1. f_equal.
    destruct (q.*1); cbn in *; by simplify_eq. }
  rewrite Hfirst. cbn [mbind option_bind]. destruct (clear_walk_ok q c (Z.to_nat (c_size c)) Hp' Hn) as (h & ->); [|done|rewrite (ca_size _ _ _ O); lia|].
  { intros Hin. apply Hh, elem_of_app. by left. }
  cbn [mbind option_bind]. eexists _, _, []. split; [done|]. split; [|split; [cbn; lia|done]].
  split; cbn [c_heap c_map c_size c_capacity c_fresh]; [split; cbn [ch_next ch_prev ch_ent]| | |done|apply O|].
  - split; [|split]; [apply lookup_insert_eq..|done].
  - apply list.NoDup_cons. split; [intros E%list_elem_of_singleton; discriminate E|apply NoDup_singleton].
  - by intros a x ?%elem_of_nil.
  - constructor.
  - intros k a. rewrite sm_get_create. split; [done|]. by intros (x & ?%elem_of_nil & _).
  - intros a Ha. apply O. apply elem_of_cons in Ha as [->|Ha]; [by left|]. right. apply elem_of_app. by right.
Qed.

Lemma step_sim op : simulates cap c q op.
Proof using O Hl Hcap.
  destruct op; [apply get_sim|apply put_sim|apply del_sim| |apply evict_expired_sim|apply clear_sim].
  unfold simulates. cbn [cache_step spec_step]. unfold miku_cache_size. rewrite (ca_size _ _ _ O). exists (RInt (Z.of_nat (length q))), c, q.
  by rewrite length_fmap.
Qed.
End Step.

(** ** Theorems *)

(** The results and the state after a sequence of operations; None: an entry
    that was freed is used. *)
Definition cache_run (c : miku_cache) (ops : list cache_op) : option (list cache_res * miku_cache) :=
  foldl (fun o op => '(rs, c) ← o; '(r, c) ← cache_step c op; Some (rs ++ [r], c)) (Some ([], c)) ops.

(** The values that a step takes over from its caller, and those of deleted
    entries, which stay with the caller. *)
Definition put_val (op : cache_op) : option V := match op with CPut _ v _ _ => v | _ => None end.
Definition taken_val (l : list miku_cache_entry) (op : cache_op) : list V :=
  match op with
  | CDel k => match find_entry k l with Some x => match ce_val x with Some v => [v] | None => [] end | None => [] end
  | _ => []
  end.

Definition spec_run (cap : Z) (ops : list cache_op) : list cache_res * (list miku_cache_entry * list V) * list V :=
  foldl (fun '(rs, s, tk) op => let '(r, s') := spec_step cap s op in (rs ++ [r], s', tk ++ taken_val s.1 op)) ([], ([], []), []) ops.

Lemma cache_run_ok capacity ops : exists rs c q tk, cache_run (miku_cache_create capacity) ops = Some (rs, c) /\
  cache_ok (cap_of capacity) c q /\ Z.of_nat (length q) <= cap_of capacity /\ spec_run (cap_of capacity) ops = (rs, (q.*2, c_freed c), tk).
Proof.
  induction ops as [|op ops IH] using rev_ind.
  { exists [], (miku_cache_create capacity), [], []. split_and!; [done|apply cache_create_ok|pose proof (cap_of_pos capacity); cbn; lia|done]. }
  destruct IH as (rs & c & q & tk & E & O & Hl & Es). destruct (step_sim (cap_of_pos capacity) O Hl op) as (r & c' & q' & E' & O' & Hl' & Es').
  exists (rs ++ [r]), c', q', (tk ++ taken_val q.*2 op). unfold cache_run, spec_run in *. rewrite !foldl_app. cbn [foldl]. rewrite E, Es. cbn [mbind option_bind].
  rewrite E', Es'. done.
Qed.

(** The cache is a list of entries, the most recently used first, with at most
    as many entries as its capacity: whatever the operations, no freed entry is
    used, and the results and the values that are freed are those of the list:
    a hit moves the entry to the front, a new key drops the entries at the back,
    an expired entry is dropped when it is read or evicted. *)
Theorem lru_refines capacity ops : exists rs c l tk, cache_run (miku_cache_create capacity) ops = Some (rs, c) /\
  spec_run (cap_of capacity) ops = (rs, (l, c_freed c), tk) /\ miku_cache_size c = Z.of_nat (length l) /\ miku_cache_size c <= cap_of capacity /\
  NoDup (ce_key <$> l).
Proof.
  destruct (cache_run_ok capacity ops) as (rs & c & q & tk & E & O & Hl & Es). exists rs, c, q.*2, tk. unfold miku_cache_size. rewrite (ca_size _ _ _ O).
  split_and!; [done|done|by rewrite length_fmap|done|]. rewrite <- pkey_snd. apply O.
Qed.

Lemma perm_rotate {A} (a b d : list A) : a ++ b ++ d ≡ₚ d ++ a ++ b.
Proof. rewrite (app_assoc a b d). apply Permutation_app_comm. Qed.

Lemma freed_vals_perm l l' : l ≡ₚ l' -> freed_vals l ≡ₚ freed_vals l'.
Proof. unfold freed_vals. induction 1; cbn; [done|by apply Permutation_app|rewrite !app_assoc; f_equiv; apply Permutation_app_comm|by etrans]. Qed.

Lemma find_perm k l x : NoDup (ce_key <$> l) -> find_entry k l = Some x -> l ≡ₚ x :: without k l.
Proof.
  induction l as [|y l IH]; [done|]. rewrite fmap_cons. intros [Hy Hn]%list.NoDup_cons. unfold find_entry, without in *. cbn [List.find]. unfold has_key at 1. destruct (streq (ce_key y) k) eqn:E.
  - intros [= ->]. apply streq_eq in E. rewrite filter_cons_False by (intros Hx; by apply Hx). rewrite filter_all; [done|].
    intros z Hz Ez. apply Hy. rewrite E, <- Ez. by apply list_elem_of_fmap_2.
  - intros Hf. rewrite filter_cons_True by (intros Ek; rewrite Ek, streq_refl in E; done). rewrite Permutation_swap. f_equiv. by apply IH.
Qed.

Lemma filter_expired_perm now (l : list miku_cache_entry) :
  l ≡ₚ filter (fun x => expired x now = true) l ++ filter (fun x => expired x now = false) l.
Proof.
  induction l as [|x l IH]; [done|]. destruct (expired x now) eqn:E.
  - rewrite filter_cons_True, filter_cons_False by congruence. cbn. by f_equiv.
  - rewrite filter_cons_False, filter_cons_True by congruence. rewrite <- Permutation_middle. by f_equiv.
Qed.

(** What a step of the reference does with the values. *)
Lemma spec_step_vals cap l fr op r l' fr' : val_free = true -> NoDup (ce_key <$> l) -> spec_step cap (l, fr) op = (r, (l', fr')) ->
  fr' ++ freed_vals l' ++ taken_val l op ≡ₚ fr ++ freed_vals l ++ match put_val op with Some v => [v] | None => [] end.
Proof.
  intros Hv Hn. assert (forall x : miku_cache_entry, freed_val (ce_val x) = match ce_val x with Some v => [v] | None => [] end) as Hfv by (intros x; unfold freed_val; by rewrite Hv).
  destruct op as [k now|k v ttl now|k| |now|]; cbn [spec_step put_val taken_val]; rewrite ?app_nil_r.
  - destruct (find_entry k l) as [x|] eqn:F; [|intros [= <- <- <-]; done]. pose proof (freed_vals_perm _ _ (find_perm k l x Hn F)) as P.
    destruct (expired x now); intros [= <- <- <-]; rewrite P, freed_vals_cons; by rewrite ?app_assoc.
  - destruct (find_entry k l) as [x|] eqn:F; intros [= <- <- <-]; rewrite freed_vals_cons, ?Hfv; cbn [ce_val].
    + pose proof (freed_vals_perm _ _ (find_perm k l x Hn F)) as P. rewrite P, freed_vals_cons, ?Hfv.
      set (n := match v with Some v => [v] | None => [] end). set (o := match ce_val x with Some v => [v] | None => [] end).
      rewrite <- !app_assoc. do 2 f_equiv. apply Permutation_app_comm.
    + rewrite <- (take_drop (Z.to_nat (cap - 1)) l) at 3. rewrite freed_vals_app.
      rewrite (freed_vals_perm _ _ (reverse_Permutation (drop (Z.to_nat (cap - 1)) l))). set (n := match v with Some v => [v] | None => [] end).
      rewrite <- !app_assoc. f_equiv. apply perm_rotate.
  - intros [= <- <- <-]. destruct (find_entry k l) as [x|] eqn:F.
    + pose proof (freed_vals_perm _ _ (find_perm k l x Hn F)) as P. rewrite P, freed_vals_cons, Hfv. f_equiv. apply Permutation_app_comm.
    + rewrite app_nil_r. f_equiv. unfold without. rewrite filter_all; [done|]. intros x Hx E. apply find_none in F. apply F. rewrite <- E. by apply list_elem_of_fmap_2.
  - by intros [= <- <- <-].
  - intros [= <- <- <-]. rewrite (freed_vals_perm _ _ (filter_expired_perm now l)) at 1. rewrite freed_vals_app.
    rewrite (freed_vals_perm _ _ (reverse_Permutation _)). by rewrite app_assoc.
  - intros [= <- <- <-]. unfold freed_vals at 2. cbn. by rewrite app_nil_r.
Qed.

(** The cache owns the values it is given: with a [val_free] function, after any
    operations, the values that were put are those that were freed, those that
    are still held, and those of the entries that were deleted, each once.  So
    nothing is freed twice or lost, and a deleted value stays with the caller. *)
Theorem cache_ownership capacity ops : val_free = true ->
  exists rs c l tk, cache_run (miku_cache_create capacity) ops = Some (rs, c) /\ spec_run (cap_of capacity) ops = (rs, (l, c_freed c), tk) /\
    omap put_val ops ≡ₚ c_freed c ++ omap ce_val l ++ tk.
Proof.
  intros Hv. assert (forall l, freed_vals l = omap ce_val l) as Ho.
  { induction l as [|x l IH]; [done|]. rewrite freed_vals_cons, IH. unfold freed_val. rewrite Hv. cbn. by destruct (ce_val x). }
  cut (forall rs l fr tk, spec_run (cap_of capacity) ops = (rs, (l, fr), tk) -> omap put_val ops ≡ₚ fr ++ freed_vals l ++ tk).
  { intros Hcut. destruct (cache_run_ok capacity ops) as (rs & c & q & tk & E & O & Hl & Es). exists rs, c, q.*2, tk. split; [done|]. split; [done|].
    rewrite <- Ho. by eapply Hcut. }
  induction ops as [|op ops IH] using rev_ind; intros rs l fr tk.
  - intros [= <- <- <- <-]. done.
  - destruct (cache_run_ok capacity ops) as (rs0 & c & q & tk0 & _ & O & _ & Es). unfold spec_run in *. rewrite foldl_app, Es. cbn [foldl fst].
    destruct (spec_step _ _ op) as [r [l' fr']] eqn:E. intros [= <- <- <- <-]. specialize (IH _ _ _ _ Es).
    apply (spec_step_vals _ _ _ _ _ _ _ Hv) in E; [|rewrite <- pkey_snd; apply O]. rewrite omap_app, IH.
    transitivity ((c_freed c ++ freed_vals q.*2 ++ match put_val op with Some v => [v] | None => [] end) ++ tk0).
    + rewrite <- !app_assoc. do 2 f_equiv. cbn. destruct (put_val op); cbn; [apply Permutation_app_comm|by rewrite app_nil_r].
    + rewrite <- E, <- !app_assoc. do 2 f_equiv. apply Permutation_app_comm.
Qed.
End Cache.

(** Two values fit: a third key drops the one that was not read. *)
Example lru_drops_oldest :
  option_map fst (cache_run (M := string_map) true (miku_cache_create 2)
    [CPut "a" (Some 1) 0 0; CPut "b" (Some 2) 0 0; CGet "a" 0; CPut "c" (Some 3) 0 0; CGet "b" 0; CGet "a" 0; CSize]) =
  Some [RInt 0; RInt 0; RVal (Some 1); RInt 0; RVal None; RVal (Some 1); RInt 2].
Proof. vm_compute. reflexivity. Qed.

Lemma cache_ownership_witness :
  exists rs c l tk, cache_run (M := string_map) true (miku_cache_create 1) [CPut "a" (Some 1) 0 0; CPut "b" (Some 2) 0 0; CDel "b"] = Some (rs, c) /\
    spec_run true (cap_of 1) [CPut "a" (Some 1) 0 0; CPut "b" (Some 2) 0 0; CDel "b"] = (rs, (l, c_freed c), tk) /\
    omap put_val [CPut "a" (Some 1) 0 0; CPut "b" (Some 2) 0 0; CDel "b"] ≡ₚ c_freed c ++ omap ce_val l ++ tk.
Proof. apply cache_ownership. reflexivity. Defined.
