(* ===== verification/Discovery.v ===== *)
(** * Service registry (discovery/miku_discovery.c)

    Names of services with their addresses: an array of entries and an index of
    the names by open addressing.  The array doubles when it is full, the index
    when it is half full, with the indexes of the entries as 16-bit integers.

    [discovery_refines]: the registry is a finite map as long as it holds fewer
    than 2^15 services. *)
From S2P Require Import Prelude Hash ProbeIndex KeyedMap Models.
#[local] Open Scope string_scope.
#[local] Open Scope list_scope.
#[local] Open Scope Z_scope.

Definition MK_DISC_HASH : Z := 256.

Record miku_service_entry := ServiceEntry { sv_name : string; sv_host : string; sv_port : Z; sv_lease_id : Z }.

Record miku_discovery := Discovery {
  d_endpoints : string; d_entries : list miku_service_entry; d_entry_cap : Z; d_name_hash : gmap Z Z; d_hash_cap : Z }.

Definition name_slot (name : string) (hash_cap : Z) : Z := mask_slot hash_cap (fnv1a_64 name).

Definition disc_hash_insert (d : miku_discovery) (ei : Z) : miku_discovery :=
  match at_ (d_entries d) ei with
  | Some e => Discovery (d_endpoints d) (d_entries d) (d_entry_cap d)
                (scan_insert (d_hash_cap d) (d_name_hash d) (name_slot (sv_name e) (d_hash_cap d)) (i16 ei)) (d_hash_cap d)
  | None => d
  end.

Definition disc_hash_rebuild (d : miku_discovery) : miku_discovery :=
  for_range (Z.of_nat (length (d_entries d))) disc_hash_insert
    (Discovery (d_endpoints d) (d_entries d) (d_entry_cap d) ∅ (d_hash_cap d)).

Definition name_is (l : list miku_service_entry) (name : string) (ei : Z) : bool :=
  match at_ l ei with Some e => streq (sv_name e) name | None => false end.

Definition disc_hash_find (d : miku_discovery) (name : string) : Z :=
  scan_find (d_hash_cap d) (d_name_hash d) (name_is (d_entries d) name) (name_slot name (d_hash_cap d)).

Definition miku_discovery_create (endpoints : string) : miku_discovery :=
  Discovery (strn 511 endpoints) [] 32 ∅ MK_DISC_HASH.

(** The array grows, and with it the index when it is half full. *)
Definition disc_grow (d : miku_discovery) : miku_discovery :=
  if d_entry_cap d <=? Z.of_nat (length (d_entries d)) then
    let d := Discovery (d_endpoints d) (d_entries d) (d_entry_cap d * 2) (d_name_hash d) (d_hash_cap d) in
    if d_hash_cap d <=? Z.of_nat (length (d_entries d)) * 2 then
      disc_hash_rebuild (Discovery (d_endpoints d) (d_entries d) (d_entry_cap d) (d_name_hash d) (d_hash_cap d * 2))
    else d
  else d.

Definition set_service (host : string) (port ttl_sec : Z) (e : miku_service_entry) : miku_service_entry :=
  ServiceEntry (sv_name e) (strn 127 host) port ttl_sec.

Definition miku_discovery_register (d : miku_discovery) (service_name host : option string) (port ttl_sec : Z) : Z * miku_discovery :=
  match service_name, host with
  | Some name, Some host =>
      let ei := disc_hash_find d name in
      if 0 <=? ei then
        (0, Discovery (d_endpoints d) (upd_at (set_service host port ttl_sec) ei (d_entries d)) (d_entry_cap d) (d_name_hash d) (d_hash_cap d))
      else
        let d := disc_grow d in
        let ei := Z.of_nat (length (d_entries d)) in
        let e := ServiceEntry (strn 63 name) (strn 127 host) port ttl_sec in
        (0, disc_hash_insert (Discovery (d_endpoints d) (d_entries d ++ [e]) (d_entry_cap d) (d_name_hash d) (d_hash_cap d)) ei)
  | _, _ => (-1, d)
  end.

Definition miku_discovery_deregister (d : miku_discovery) (service_name : option string) : Z * miku_discovery :=
  match service_name with
  | None => (-1, d)
  | Some name =>
      let ei := disc_hash_find d name in
      if ei <? 0 then (-1, d)
      else (0, disc_hash_rebuild (Discovery (d_endpoints d) (delete (Z.to_nat ei) (d_entries d)) (d_entry_cap d) (d_name_hash d) (d_hash_cap d)))
  end.

(** The entries that are written to the caller's array. *)
Definition miku_discovery_resolve (d : miku_discovery) (service_name : option string) (max_entries : Z) : list miku_service_entry :=
  match service_name with
  | None => []
  | Some name =>
      if max_entries <=? 0 then []
      else let ei := disc_hash_find d name in
           if ei <? 0 then [] else match at_ (d_entries d) ei with Some e => [e] | None => [] end
  end.

Definition miku_discovery_heartbeat (d : miku_discovery) : Z := 0.

(** ** Reference: a finite map *)

Definition sv_val (e : miku_service_entry) : string * Z * Z := (sv_host e, sv_port e, sv_lease_id e).

Inductive disc_op := Register (name host : string) (port ttl_sec : Z) | Deregister (name : string).

Definition disc_step (d : miku_discovery) (op : disc_op) : Z * miku_discovery :=
  match op with
  | Register name host port ttl => miku_discovery_register d (Some name) (Some host) port ttl
  | Deregister name => miku_discovery_deregister d (Some name)
  end.

Definition disc_spec (m : gmap string (string * Z * Z)) (op : disc_op) : Z * gmap string (string * Z * Z) :=
  match op with
  | Register name host port ttl => (0, <[name := (strn 127 host, port, ttl)]> m)
  | Deregister name => (if decide (is_Some (m !! name)) then 0 else -1, delete name m)
  end.

(** Names fit their buffer. *)
Definition disc_fits (op : disc_op) : Prop := match op with Register name _ _ _ | Deregister name => fits 63 name end.

(** ** Invariant *)

(** The sizes after [k] doublings of the array. *)
Definition cap_after (k : Z) : Z := 32 * 2 ^ k.
Definition hash_after (k : Z) : Z := 2 ^ (6 + Z.max 2 k).

Record disc_ok (d : miku_discovery) : Prop := {
  do_sizes : exists k, 0 <= k <= 10 /\ d_entry_cap d = cap_after k /\ d_hash_cap d = hash_after k;
  do_room : Z.of_nat (length (d_entries d)) <= d_entry_cap d;
  do_index : kindex (sz:=d_hash_cap d) (fun n => name_slot n (d_hash_cap d)) (d_name_hash d) (sv_name <$> d_entries d);
  do_nodup : NoDup (sv_name <$> d_entries d) }.

Lemma hash_pow2 k : 0 <= k <= 10 -> Pow2 (hash_after k).
Proof. intros Hk. exists (6 + Z.max 2 k). split; [lia|done]. Qed.

Lemma disc_pow2 d : disc_ok d -> Pow2 (d_hash_cap d).
Proof. intros O. destruct (do_sizes _ O) as (k & Hk & _ & ->). by apply hash_pow2. Qed.

Lemma name_slot_bound sz n : Pow2 sz -> 0 <= name_slot n sz < sz.
Proof. intros (k & Hk & ->). apply mask_slot_bound. lia. Qed.

Lemma hash_room k : 0 <= k <= 10 -> 2 * cap_after k <= hash_after k /\ hash_after k <= 65536.
Proof.
  intros Hk. unfold cap_after, hash_after. split.
  - replace (2 * (32 * 2 ^ k)) with (2 ^ (6 + k)) by (rewrite Z.pow_add_r by lia; lia). apply Z.pow_le_mono_r; lia.
  - change 65536 with (2 ^ 16). apply Z.pow_le_mono_r; lia.
Qed.

(** The index after a rebuild. *)
Lemma disc_rebuild_ok d : Pow2 (d_hash_cap d) -> Z.of_nat (length (d_entries d)) <= d_hash_cap d -> Z.of_nat (length (d_entries d)) < 32768 ->
  let d' := disc_hash_rebuild d in
  d_entries d' = d_entries d /\ d_entry_cap d' = d_entry_cap d /\ d_hash_cap d' = d_hash_cap d /\
  kindex (sz:=d_hash_cap d) (fun n => name_slot n (d_hash_cap d)) (d_name_hash d') (sv_name <$> d_entries d).
Proof.
  intros Hp Hroom Hb. cbn zeta. unfold disc_hash_rebuild.
  pose proof (kindex_fill (fun n => name_slot n (d_hash_cap d))
    (fun s => d_entries s = d_entries d /\ d_entry_cap s = d_entry_cap d /\ d_hash_cap s = d_hash_cap d) d_name_hash disc_hash_insert (sv_name <$> d_entries d)
    (Discovery (d_endpoints d) (d_entries d) (d_entry_cap d) ∅ (d_hash_cap d))) as F. rewrite length_fmap in F.
  destruct F as [(E1 & E2 & E3) F]; [intros; by apply name_slot_bound|done|done|done| |by split_and!].
  intros s i x (E1 & E2 & E3) Hx. rewrite at_fmap in Hx. unfold disc_hash_insert. rewrite E1. destruct (at_ (d_entries d) i) as [e|] eqn:Ee; [|done].
  cbn in Hx. injection Hx as <-. apply at_lt in Ee. cbn. rewrite E3, i16_small by lia. done.
Qed.

Lemma name_is_kmatch l name ei : name_is l name ei = kmatch (sv_name <$> l) name ei.
Proof. unfold name_is, kmatch. rewrite at_fmap. destruct (at_ l ei); [|done]. apply streq_bool. Qed.

Lemma disc_find_ok d name : disc_ok d ->
  match kmap sv_name sv_val (d_entries d) !! name with
  | Some v => exists e, 0 <= disc_hash_find d name /\ at_ (d_entries d) (disc_hash_find d name) = Some e /\ sv_name e = name /\ sv_val e = v
  | None => disc_hash_find d name < 0 /\ name ∉ sv_name <$> d_entries d
  end.
Proof.
  intros O. pose proof (disc_pow2 d O) as Hp. unfold disc_hash_find, scan_find.
  rewrite (scan_ext _ _ (kmatch (sv_name <$> d_entries d) name)) by (intros; apply name_is_kmatch). fold (scan_find (d_hash_cap d) (d_name_hash d) (kmatch (sv_name <$> d_entries d) name) (name_slot name (d_hash_cap d))).
  destruct (kmap _ _ _ !! name) as [v|] eqn:E.
  - apply kmap_lookup_Some in E as (i & e & He & <- & <-); [|apply O].
    rewrite (kfind_hit (fun n => name_slot n (d_hash_cap d)) ltac:(intros; by apply name_slot_bound) _ _ _ i (do_index _ O) (do_nodup _ O)) by (by rewrite at_fmap, He).
    exists e. apply at_lt in He as ?. split_and!; [lia|done..].
  - assert (name ∉ sv_name <$> d_entries d) as Hn.
    { intros Hin. apply (kmap_is_Some sv_name sv_val) in Hin as [? ?]; [congruence|apply O]. }
    split; [|done]. apply Z.nle_gt. intros Hge. apply Hn. by apply (kfind_nonneg (fun n => name_slot n (d_hash_cap d)) ltac:(intros; by apply name_slot_bound) _ _ name (do_index _ O)).
Qed.

Lemma disc_create_ok e : disc_ok (miku_discovery_create e).
Proof. split; cbn; [exists 0; by split_and!|lia|apply kindex_empty|constructor]. Qed.

Lemma disc_grow_ok d : disc_ok d -> Z.of_nat (length (d_entries d)) < 32767 ->
  disc_ok (disc_grow d) /\ d_entries (disc_grow d) = d_entries d /\ Z.of_nat (length (d_entries d)) < d_entry_cap (disc_grow d).
Proof.
  intros O Hb. unfold disc_grow. destruct (Z.leb_spec (d_entry_cap d) (Z.of_nat (length (d_entries d)))) as [Hfull|Hroom]; [|done].
  destruct (do_sizes _ O) as (k & Hk & Ec & Eh). pose proof (do_room _ O) as Hr. assert (Z.of_nat (length (d_entries d)) = cap_after k) as El by lia.
  assert (k <= 9) as Hk9.
  { destruct (decide (k <= 9)); [done|]. replace k with 10 in El by lia. unfold cap_after in El. change (2 ^ 10) with 1024 in El. lia. }
  assert (d_entry_cap d * 2 = cap_after (k + 1)) as Ec' by (rewrite Ec; unfold cap_after; rewrite Z.pow_add_r by lia; lia).
  assert (0 < cap_after k) as Hpos by (unfold cap_after; pose proof (Z.pow_pos_nonneg 2 k ltac:(lia) ltac:(lia)); lia). cbn [d_hash_cap d_entries d_endpoints d_entry_cap d_name_hash].
  destruct (Z.leb_spec (d_hash_cap d) (Z.of_nat (length (d_entries d)) * 2)) as [Hh|Hh].
  - assert (d_hash_cap d * 2 = hash_after (k + 1)) as Eh'.
    { rewrite Eh, El in Hh. destruct (hash_room k Hk) as [Hrm _]. rewrite Eh. unfold cap_after, hash_after in *.
      assert (2 <= k) as H2. { destruct (decide (2 <= k)); [done|]. exfalso. rewrite Z.max_l in Hh by lia. assert (2 ^ k <= 2 ^ 1) by (apply Z.pow_le_mono_r; lia). change (2 ^ (6 + 2)) with 256 in Hh. lia. }
      rewrite !Z.max_r by lia. replace (6 + (k + 1)) with (6 + k + 1) by lia. rewrite (Z.pow_add_r 2 (6 + k) 1) by lia. lia. }
    set (d0 := Discovery _ _ _ _ _). destruct (hash_room (k + 1) ltac:(lia)) as [Hrm _].
    destruct (disc_rebuild_ok d0) as (E1 & E2 & E3 & I); cbn [d_hash_cap d_entries d0]; [rewrite Eh'; apply hash_pow2; lia|lia|lia|].
    split; [|split; [exact E1|rewrite E2; cbn [d_entry_cap d0]; lia]]. split.
    + exists (k + 1). rewrite E2, E3. cbn [d_entry_cap d_hash_cap d0]. split_and!; [lia|lia|done|done].
    + rewrite E1, E2. cbn [d_entries d_entry_cap d0]. lia.
    + rewrite E1, E3. exact I.
    + rewrite E1. apply O.
  - assert (d_hash_cap d = hash_after (k + 1)) as Eh'.
    { rewrite El, Eh in Hh. rewrite Eh. unfold cap_after, hash_after in *. destruct (decide (k <= 1)); [by rewrite !Z.max_l by lia|].
      exfalso. rewrite Z.max_r in Hh by lia. rewrite Z.pow_add_r in Hh by lia. lia. }
    split; [|split; [done|cbn [d_entry_cap]; lia]]. split; cbn [d_entry_cap d_hash_cap d_entries d_name_hash]; [|lia|apply O..].
    exists (k + 1). split_and!; [lia|lia|done|done].
Qed.

Definition services (d : miku_discovery) : gmap string (string * Z * Z) := kmap sv_name sv_val (d_entries d).

Lemma discovery_register_ok d name host port ttl : disc_ok d -> fits 63 name -> Z.of_nat (length (d_entries d)) < 32767 ->
  exists d', miku_discovery_register d (Some name) (Some host) port ttl = (0, d') /\ disc_ok d' /\
    services d' = <[name := (strn 127 host, port, ttl)]> (services d) /\ (length (d_entries d') <= S (length (d_entries d)))%nat.
Proof.
  intros O Hf Hb. pose proof (disc_find_ok d name O) as F. unfold miku_discovery_register, services in *.
  destruct (kmap sv_name sv_val (d_entries d) !! name) as [v|] eqn:Em.
  - destruct F as (e & H0 & He & Hn & _). rewrite (proj2 (Z.leb_le _ _) H0). eexists. split; [done|]. cbn [d_entries].
    assert (sv_name <$> upd_at (set_service host port ttl) (disc_hash_find d name) (d_entries d) = sv_name <$> d_entries d) as Ek
      by (apply fmap_upd_at; [intros x; cbn; congruence|lia]).
    split; [split; cbn [d_entry_cap d_hash_cap d_entries d_name_hash]; rewrite ?length_upd_at, ?Ek; apply O|].
    split; [|rewrite length_upd_at; lia]. rewrite (kmap_upd _ _ _ _ _ _ (do_nodup _ O) He) by done. by rewrite Hn.
  - destruct F as [Hneg Hn]. rewrite (proj2 (Z.leb_gt _ _) Hneg). destruct (disc_grow_ok d O Hb) as (O1 & E1 & Hroom).
    set (d1 := disc_grow d) in *. set (e := ServiceEntry _ _ _ _). rewrite E1. unfold disc_hash_insert. cbn [d_entries]. rewrite at_snoc.
    cbn [sv_name d_hash_cap d_name_hash d_endpoints d_entry_cap]. assert (sv_name e = name) as Ee by (cbn; by apply strn_short). rewrite i16_small by lia.
    eexists. split; [done|]. pose proof (disc_pow2 _ O1) as Hp. destruct (do_sizes _ O1) as (k & Hk & Ec & Eh).
    destruct (hash_room k Hk) as [Hrm _]. pose proof (do_index _ O1) as I1. rewrite E1 in I1. split.
    + split; cbn [d_entry_cap d_hash_cap d_entries d_name_hash].
      * by exists k.
      * rewrite length_app. cbn. lia.
      * rewrite fmap_app. cbn [fmap list_fmap]. pose proof (kindex_insert (fun n => name_slot n (d_hash_cap d1)) ltac:(intros; by apply name_slot_bound) _ _ (sv_name e) I1) as R.
        rewrite length_fmap in R. apply R. lia.
      * rewrite fmap_app. apply NoDup_snoc; [apply O|]. by rewrite Ee.
    + cbn [d_entries]. split; [|rewrite length_app; cbn; lia]. rewrite kmap_snoc by (by rewrite Ee). by rewrite Ee.
Qed.

Lemma deregister_ok d name : disc_ok d -> Z.of_nat (length (d_entries d)) < 32768 ->
  exists d', miku_discovery_deregister d (Some name) = (if decide (is_Some (services d !! name)) then 0 else -1, d') /\ disc_ok d' /\
    services d' = delete name (services d) /\ (length (d_entries d') <= length (d_entries d))%nat.
Proof.
  intros O Hb. pose proof (disc_find_ok d name O) as F. unfold miku_discovery_deregister, services in *.
  destruct (kmap sv_name sv_val (d_entries d) !! name) as [v|] eqn:Em.
  - destruct F as (e & H0 & He & Hn & _). rewrite (proj2 (Z.ltb_ge _ _) H0), decide_True by eauto. apply at_split in He as (l1 & l2 & El & Ei).
    rewrite Ei, Nat2Z.id. assert (delete (length l1) (d_entries d) = l1 ++ l2) as -> by (rewrite El; apply delete_middle).
    set (d0 := Discovery _ _ _ _ _). pose proof (disc_pow2 d O) as Hp. destruct (do_sizes _ O) as (k & Hk & Ec & Eh).
    destruct (hash_room k Hk) as [Hrm _]. pose proof (do_room _ O) as Hr.
    assert (Z.of_nat (length (l1 ++ l2)) < Z.of_nat (length (d_entries d))) as Hlt by (rewrite El, !length_app; cbn; lia).
    assert (0 < cap_after k) as Hpos by (unfold cap_after; pose proof (Z.pow_pos_nonneg 2 k ltac:(lia) ltac:(lia)); lia).
    destruct (disc_rebuild_ok d0) as (E1 & E2 & E3 & I); cbn [d_hash_cap d_entries d0]; [done|lia|lia|].
    assert (NoDup (sv_name <$> l1 ++ e :: l2)) as Hnd by (rewrite <- El; apply O).
    eexists. split; [done|]. rewrite E1. cbn [d_entries d0]. split; [split; rewrite ?E1, ?E2, ?E3; cbn [d_entries d_entry_cap d_hash_cap d0]|].
    + by exists k.
    + lia.
    + exact I.
    + rewrite fmap_app in *. rewrite fmap_cons, <- Permutation_middle in Hnd. by apply list.NoDup_cons in Hnd as [_ ?].
    + rewrite El, (kmap_remove _ _ l1 e l2 Hnd), Hn. split; [done|]. rewrite !length_app. cbn. lia.
  - destruct F as [Hneg _]. rewrite (proj2 (Z.ltb_lt _ _) Hneg), decide_False by (by intros [? ?]). exists d. split; [done|]. split; [done|]. by rewrite delete_id.
Qed.

(** ** Theorem *)

(** The registry is a finite map: after fewer than 2^15 calls with names that
    fit their buffer, with the array and the index growing as they fill, every
    call returned what the map gives, and a lookup returns the entry of the name
    and nothing else. *)
Theorem discovery_refines endpoints ops name max : Forall disc_fits ops -> Z.of_nat (length ops) < 32768 -> 0 < max ->
  let '(rcs, d) := run_steps disc_step (miku_discovery_create endpoints) ops in
  let '(rcs', m) := run_steps disc_spec ∅ ops in
  rcs = rcs' /\ services d = m /\
  miku_discovery_resolve d (Some name) max =
    match m !! name with Some (host, port, lease) => [ServiceEntry name host port lease] | None => [] end.
Proof.
  intros Hf Hlen Hmax.
  assert (let '(rcs, d) := run_steps disc_step (miku_discovery_create endpoints) ops in let '(rcs', m) := run_steps disc_spec ∅ ops in
    rcs = rcs' /\ services d = m /\ disc_ok d /\ (length (d_entries d) <= length ops)%nat) as H.
  { clear Hmax. induction ops as [|op ops IH] using rev_ind; [split_and!; [done|done|apply disc_create_ok|done]|].
    apply list.Forall_app in Hf as [Hf Hop]. apply list.Forall_cons in Hop as [Hop _]. rewrite length_app in Hlen. cbn [length] in Hlen.
    specialize (IH Hf ltac:(lia)). rewrite !run_steps_snoc. destruct (run_steps disc_step _ ops) as [rcs d], (run_steps disc_spec ∅ ops) as [rcs' m].
    destruct IH as (-> & <- & O & Hl). rewrite length_app. cbn [length]. destruct op as [n h p t|n]; cbn [disc_step disc_spec disc_fits] in *.
    - destruct (discovery_register_ok d n h p t O Hop ltac:(lia)) as (d' & -> & O' & Em & Hl'). split_and!; [done|done|done|lia].
    - destruct (deregister_ok d n O ltac:(lia)) as (d' & -> & O' & Em & Hl'). split_and!; [done|done|done|lia]. }
  destruct (run_steps disc_step _ ops) as [rcs d], (run_steps disc_spec ∅ ops) as [rcs' m]. destruct H as (-> & <- & O & _). split; [done|]. split; [done|].
  pose proof (disc_find_ok d name O) as F. unfold miku_discovery_resolve, services. rewrite (proj2 (Z.leb_gt _ _) Hmax).
  destruct (kmap _ _ _ !! name) as [[[h p] t]|].
  - destruct F as ([n' h' p' t'] & H0 & -> & <- & Hv). rewrite (proj2 (Z.ltb_ge _ _) H0). unfold sv_val in Hv. cbn in *. by simplify_eq.
  - destruct F as [Hneg _]. by rewrite (proj2 (Z.ltb_lt _ _) Hneg).
Qed.

Lemma discovery_refines_witness :
  let ops := [Register "user" "10.0.0.1" 9001 30; Register "user" "10.0.0.2" 9002 30; Deregister "msg"] in
  let '(rcs, d) := run_steps disc_step (miku_discovery_create "e") ops in
  let '(rcs', m) := run_steps disc_spec ∅ ops in
  rcs = rcs' /\ services d = m /\
  miku_discovery_resolve d (Some "user") 1 =
    match m !! "user" with Some (host, port, lease) => [ServiceEntry "user" host port lease] | None => [] end.
Proof. apply discovery_refines; [repeat constructor|reflexivity|reflexivity]. Defined.
