(* ===== verification/Cron.v ===== *)
(** * Scheduled tasks (gateway/crontask/miku_crontask.c and miku_cron_tasks.c)

    The scheduler keeps up to 256 named tasks with their intervals and runs the
    due ones at every tick.  A task is a function on the state [W] of the
    program; the clock is an argument.  The tasks of the repository purge the
    message store and the object store.

    [cron_tick_exact]: a tick runs the due tasks, each once, in their order.
    [cron_spacing]: a task runs at its first tick, then at the first tick of
    every interval, and never twice within one.
    [cron_retention]: what the purge of messages leaves. *)
From S2P Require Import Prelude Hash KeyedMap Models MsgStore MsgStoreInv MsgStoreSpec ObjectStore.
#[local] Open Scope string_scope.
#[local] Open Scope list_scope.
#[local] Open Scope Z_scope.

Definition MK_CRON_MAX_TASKS : Z := 256.

Section Scheduler.
Context {W : Type}.

Record miku_cron_task := CronTask {
  ct_name : string; ct_fn : Z -> W -> W; ct_interval_ms : Z; ct_last_run : Z; ct_run_count : Z; ct_enabled : bool }.

Record miku_crontask := Crontask { ct_tasks : list miku_cron_task; ct_running : bool; ct_total_ticks : Z }.

Definition miku_crontask_create : miku_crontask := Crontask [] false 0.

Definition miku_crontask_start (ct : miku_crontask) : miku_crontask := Crontask (ct_tasks ct) true (ct_total_ticks ct).

Definition miku_crontask_stop (ct : miku_crontask) : miku_crontask := Crontask (ct_tasks ct) false (ct_total_ticks ct).

Definition miku_crontask_add (ct : miku_crontask) (name : option string) (fn : option (Z -> W -> W)) (interval_ms : Z) : Z * miku_crontask :=
  match name, fn with
  | Some name, Some fn =>
      if MK_CRON_MAX_TASKS <=? Z.of_nat (length (ct_tasks ct)) then (-1, ct)
      else (0, Crontask (ct_tasks ct ++ [CronTask (strn 63 name) fn interval_ms 0 0 true]) (ct_running ct) (ct_total_ticks ct))
  | _, _ => (-1, ct)
  end.

(** [tasks[i] = tasks[--task_count]]. *)
Definition fill_with_last (i : nat) (l : list miku_cron_task) : list miku_cron_task :=
  match list.last l with Some t => removelast (<[i := t]> l) | None => l end.

Definition miku_crontask_remove (ct : miku_crontask) (name : option string) : Z * miku_crontask :=
  match name with
  | None => (-1, ct)
  | Some name =>
      match list_find (fun t => streq (ct_name t) name = true) (ct_tasks ct) with
      | Some (i, _) => (0, Crontask (fill_with_last i (ct_tasks ct)) (ct_running ct) (ct_total_ticks ct))
      | None => (-1, ct)
      end
  end.

Definition due (now : Z) (t : miku_cron_task) : bool :=
  ct_enabled t && ((ct_last_run t =? 0) || (ct_interval_ms t <=? i64 (now - ct_last_run t))).

Definition mark_run (now : Z) (t : miku_cron_task) : miku_cron_task :=
  CronTask (ct_name t) (ct_fn t) (ct_interval_ms t) now (i32 (ct_run_count t + 1)) (ct_enabled t).

(** One round of the loop: the state, the tasks so far, the number executed. *)
Definition run_task (now : Z) (acc : W * list miku_cron_task * Z) (t : miku_cron_task) : W * list miku_cron_task * Z :=
  let '(w, ts, executed) := acc in
  if due now t then (ct_fn t now w, ts ++ [mark_run now t], executed + 1) else (w, ts ++ [t], executed).

Definition miku_crontask_tick (ct : miku_crontask) (w : W) (now : Z) : Z * miku_crontask * W :=
  if negb (ct_running ct) then (0, ct, w)
  else
    let '(w, ts, executed) := foldl (run_task now) (w, [], 0) (ct_tasks ct) in
    (executed, Crontask ts (ct_running ct) (i64 (ct_total_ticks ct + 1)), w).

Definition miku_crontask_task_count (ct : miku_crontask) : Z := Z.of_nat (length (ct_tasks ct)).

(** ** Theorems *)

Lemma run_tasks_eq now l : forall w ts n,
  foldl (run_task now) (w, ts, n) l =
  (foldl (fun w t => ct_fn t now w) w (filter (fun t => due now t = true) l),
   ts ++ ((fun t => if due now t then mark_run now t else t) <$> l),
   n + Z.of_nat (length (filter (fun t => due now t = true) l))).
Proof.
  induction l as [|t l IH]; intros w ts n; [cbn; rewrite app_nil_r, Z.add_0_r; done|]. cbn [foldl fmap list_fmap run_task].
  destruct (due now t) eqn:E; rewrite IH, <- app_assoc.
  - rewrite !filter_cons_True by done. cbn [foldl length app]. f_equal. lia.
  - rewrite !filter_cons_False by congruence. done.
Qed.

(** A tick of a running scheduler runs the tasks that are due, in the order of
    the list and each once, counts them and writes down when they ran; the other
    tasks are as before.  A stopped scheduler does nothing. *)
Theorem cron_tick_exact ct w now :
  miku_crontask_tick ct w now =
  if ct_running ct then
    let todo := filter (fun t => due now t = true) (ct_tasks ct) in
    (Z.of_nat (length todo),
     Crontask ((fun t => if due now t then mark_run now t else t) <$> ct_tasks ct) true (i64 (ct_total_ticks ct + 1)),
     foldl (fun w t => ct_fn t now w) w todo)
  else (0, ct, w).
Proof.
  unfold miku_crontask_tick. destruct (ct_running ct) eqn:E; [|done]. cbn [negb]. by rewrite run_tasks_eq.
Qed.

Lemma fill_with_last_perm i l t : l !! i = Some t -> l ≡ₚ t :: fill_with_last i l.
Proof.
  destruct l as [|z l _] using rev_ind; [done|]. unfold fill_with_last. rewrite last_snoc. intros Hi.
  destruct (decide (i < length l)%nat) as [Hlt|Hge].
  - rewrite lookup_app_l in Hi by done. rewrite insert_app_l by done. rewrite removelast_last.
    destruct (list_elem_of_split_length l i t Hi) as (a & b & -> & ->). rewrite insert_app_r_alt, Nat.sub_diag by lia. cbn [insert list_insert].
    rewrite <- app_assoc. cbn [app]. rewrite <- !Permutation_middle. f_equiv.
    by rewrite app_nil_r.
  - assert (i = length l) as -> by (apply lookup_lt_Some in Hi; rewrite length_app in Hi; cbn in Hi; lia).
    rewrite lookup_app_r, Nat.sub_diag in Hi by lia. cbn in Hi. injection Hi as ->. rewrite list_insert_id by (rewrite lookup_app_r, Nat.sub_diag by lia; done).
    rewrite removelast_last. by rewrite <- Permutation_cons_append.
Qed.

(** Removing a name removes one task of it, although the last task moves to its
    place; a name that no task has is an error. *)
Theorem cron_remove_exact ct name :
  let '(rc, ct') := miku_crontask_remove ct (Some name) in
  match list_find (fun t => streq (ct_name t) name = true) (ct_tasks ct) with
  | Some (_, t) => rc = 0 /\ ct_name t = name /\ ct_tasks ct ≡ₚ t :: ct_tasks ct'
  | None => rc = -1 /\ ct' = ct /\ forall t, t ∈ ct_tasks ct -> ct_name t <> name
  end.
Proof.
  unfold miku_crontask_remove. destruct (list_find _ _) as [[i t]|] eqn:E.
  - apply list_find_Some in E as (Hi & Hn & _). split; [done|]. split; [by apply streq_eq|]. by apply fill_with_last_perm.
  - split; [done|]. split; [done|]. intros t Ht En. apply list_find_None in E. rewrite list.Forall_forall in E. apply (E t Ht). by apply streq_eq.
Qed.
End Scheduler.

(** ** Intervals *)

(** A scheduler with one task that writes down when it runs, ticking at [nows]. *)
Definition log_task (now : Z) (log : list Z) : list Z := log ++ [now].

Definition logged_ticks (name : string) (interval : Z) (nows : list Z) : miku_crontask * list Z :=
  foldl (fun '(ct, log) now => let '(_, ct, log) := miku_crontask_tick ct log now in (ct, log))
    (miku_crontask_start (miku_crontask_add miku_crontask_create (Some name) (Some log_task) interval).2, []) nows.

(** Times of a clock that does not go back. *)
Definition clock_times (nows : list Z) : Prop :=
  (forall i now, nows !! i = Some now -> 0 < now < 2 ^ 62) /\
  (forall i j a b, (i < j)%nat -> nows !! i = Some a -> nows !! j = Some b -> a <= b).

Lemma clock_snoc nows now : clock_times (nows ++ [now]) -> clock_times nows /\ 0 < now < 2 ^ 62 /\ forall a, a ∈ nows -> 0 < a <= now.
Proof.
  intros [H1 H2]. split_and!.
  - split; [intros i a Hi; apply (H1 i); by apply lookup_app_l_Some|]. intros i j a b Hij Hi Hj. eapply (H2 i j); [done|by apply lookup_app_l_Some..].
  - apply (H1 (length nows)). by rewrite list_lookup_middle.
  - apply (H1 (length nows)). by rewrite list_lookup_middle.
  - intros a [i Hi]%list_elem_of_lookup. split; [apply (H1 i); by apply lookup_app_l_Some|].
    apply (H2 i (length nows)); [by eapply lookup_lt_Some|by apply lookup_app_l_Some|by rewrite list_lookup_middle].
Qed.

Lemma logged_ok name interval nows : clock_times nows -> 0 <= interval -> exists rc ticks log,
  logged_ticks name interval nows = (Crontask [CronTask (strn 63 name) log_task interval (default 0 (list.last log)) rc true] true ticks, log) /\
  (forall a, a ∈ log -> a ∈ nows) /\
  (forall i a b, log !! i = Some a -> log !! S i = Some b -> interval <= b - a) /\
  (forall now, now ∈ nows -> exists a, a ∈ log /\ a <= now /\ (a = now \/ now - a < interval)).
Proof.
  intros Hc Hi. induction nows as [|now nows IH] using rev_ind.
  { exists 0, 0, []. split_and!; [done|done|by intros i a b ?|by intros a ?%elem_of_nil]. }
  destruct (clock_snoc nows now Hc) as (Hc' & Hnow & Hle). destruct (IH Hc') as (rc & ticks & log & E & Hin & Hsp & Hcov).
  unfold logged_ticks in *. rewrite foldl_app, E. cbn [foldl]. rewrite cron_tick_exact. cbn [ct_running ct_tasks ct_total_ticks].
  set (t := CronTask _ _ _ _ _ _). assert (forall a, list.last log = Some a -> a ∈ log /\ 0 < a <= now) as Hlast.
  { intros a Ha. apply last_Some_elem_of in Ha. split; [done|]. by apply Hle, Hin. }
  assert (due now t = true <-> (forall a, list.last log = Some a -> interval <= now - a)) as Hd.
  { unfold due. cbn [ct_enabled ct_last_run ct_interval_ms t andb]. destruct (list.last log) as [a|] eqn:El; cbn [default from_option id].
    - destruct (Hlast a eq_refl) as [_ Ha]. rewrite (proj2 (Z.eqb_neq a 0)) by lia. cbn [orb].
      rewrite i64_small by lia. rewrite Z.leb_le. split; [by intros ? ? [= <-]|auto].
    - split; [by intros _ ? ?|done]. }
  destruct (due now t) eqn:Ed.
  - rewrite filter_cons_True by done. exists (i32 (rc + 1)), (i64 (ticks + 1)), (log ++ [now]). cbn [filter list_filter foldl fmap list_fmap]. rewrite Ed. rewrite last_snoc.
    split; [done|]. split; [|split].
    + intros a [Ha|Ha]%elem_of_app; apply elem_of_app; [left; by apply Hin|by right].
    + intros i a b Ha Hb. destruct (decide (S i < length log)%nat) as [Hlt|Hge].
      * rewrite lookup_app_l in Ha, Hb by lia. by eapply Hsp.
      * pose proof (lookup_lt_Some _ _ _ Hb) as Hlen. rewrite length_app in Hlen. cbn in Hlen. assert (S i = length log) as El by lia.
        rewrite El, list_lookup_middle in Hb by done. injection Hb as <-. rewrite lookup_app_l in Ha by lia.
        apply Hd; [done|]. rewrite last_lookup. by replace (Nat.pred (length log)) with i by lia.
    + intros b [Hb|Hb]%elem_of_app.
      * destruct (Hcov b Hb) as (a & Ha & Hab & Hr). exists a. split; [apply elem_of_app; by left|done].
      * apply list_elem_of_singleton in Hb as ->. exists now. split; [apply elem_of_app; right; by left|]. split; [lia|by left].
  - rewrite filter_cons_False by congruence. exists rc, (i64 (ticks + 1)), log. cbn [filter list_filter foldl fmap list_fmap]. rewrite Ed.
    split; [done|]. split; [intros a Ha; apply elem_of_app; left; by apply Hin|]. split; [done|].
    intros b [Hb|Hb]%elem_of_app; [by apply Hcov|]. apply list_elem_of_singleton in Hb as ->.
    destruct (list.last log) as [a|] eqn:El.
    + destruct (Hlast a eq_refl) as [Ha ?]. exists a. split; [done|]. split; [lia|]. right. apply Z.nle_gt. intros Hge.
      assert (false = true) as Hff; [|done]. apply Hd. by intros ? [= <-].
    + assert (false = true) as Hff; [|done]. apply Hd. by intros.
Qed.

(** A task keeps to its interval: whatever the times of the ticks, two runs are
    at least the interval apart, and at every tick the task runs or has run less
    than an interval ago. *)
Theorem cron_spacing name interval nows : clock_times nows -> 0 <= interval ->
  let log := (logged_ticks name interval nows).2 in
  (forall i a b, log !! i = Some a -> log !! S i = Some b -> interval <= b - a) /\
  (forall now, now ∈ nows -> exists a, a ∈ log /\ a <= now /\ (a = now \/ now - a < interval)).
Proof. intros Hc Hi. destruct (logged_ok name interval nows Hc Hi) as (rc & ticks & log & -> & _ & H1 & H2). by split. Qed.

Lemma cron_spacing_witness :
  let log := (logged_ticks "deleteMsg" 100 [1000; 1050; 1100; 1250]).2 in
  log = [1000; 1100; 1250] /\
  ((forall i a b, log !! i = Some a -> log !! S i = Some b -> 100 <= b - a) /\
   (forall now, now ∈ [1000; 1050; 1100; 1250] -> exists a, a ∈ log /\ a <= now /\ (a = now \/ now - a < 100))).
Proof.
  split; [vm_compute; reflexivity|]. apply cron_spacing; [|lia]. split.
  - intros [|[|[|[|i]]]] now; cbn; try discriminate; intros [= <-]; lia.
  - intros [|[|[|[|i]]]] [|[|[|[|j]]]] a b Hij; cbn; try discriminate; intros [= <-] [= <-]; lia.
Defined.

(** ** The tasks of the repository *)

Definition MK_MAX_TASK_HISTORY : Z := 64.

Record task_history := TaskHistory { th_name : string; th_last_run_ms : Z; th_run_count : Z }.

(** The stores are shared with the rest of the program; None: not set. *)
Record miku_cron_tasks := CronTasks {
  k_history : list task_history; k_total_msgs_deleted : Z; k_total_s3_files_deleted : Z;
  k_store : option msg_store; k_objects : option miku_object_store }.

Definition miku_cron_tasks_create : miku_cron_tasks := CronTasks [] 0 0 None None.

Definition miku_cron_tasks_set_msg_store (ct : miku_cron_tasks) (store : option msg_store) : miku_cron_tasks :=
  CronTasks (k_history ct) (k_total_msgs_deleted ct) (k_total_s3_files_deleted ct) store (k_objects ct).

Definition miku_cron_tasks_set_object_store (ct : miku_cron_tasks) (store : option miku_object_store) : miku_cron_tasks :=
  CronTasks (k_history ct) (k_total_msgs_deleted ct) (k_total_s3_files_deleted ct) (k_store ct) store.

Definition miku_cron_total_s3_deleted (ct : miku_cron_tasks) : Z := k_total_s3_files_deleted ct.
Definition miku_cron_total_msgs_deleted (ct : miku_cron_tasks) : Z := k_total_msgs_deleted ct.

Definition record_run (now : Z) (name : string) (h : list task_history) : list task_history :=
  match list_find (fun x => streq (th_name x) name = true) h with
  | Some (i, x) => <[i := TaskHistory (th_name x) now (i32 (th_run_count x + 1))]> h
  | None => if Z.of_nat (length h) <? MK_MAX_TASK_HISTORY then h ++ [TaskHistory (strn 63 name) now 1] else h
  end.

(** The number in an answer of the store; in memory it is always one. *)
Definition removed_of (a : answer) : Z := match a with Rc n => n | _ => 0 end.

Definition day_ms : Z := 86400000.

Definition retain_or_30 (days : Z) : Z := if 0 <? days then days else 30.

Definition miku_cron_delete_expired_msgs (ct : miku_cron_tasks) (retain_days now : Z) : Z * miku_cron_tasks :=
  let h := record_run now "deleteMsg" (k_history ct) in
  let cutoff := i64 (now - i64 (retain_or_30 retain_days * day_ms)) in
  let '(removed, store) :=
    match k_store ct with
    | Some s => let '(a, s) := miku_msg_store_purge_older_than s cutoff in (removed_of a, Some s)
    | None => (0, None)
    end in
  (0, CronTasks h (i64 (k_total_msgs_deleted ct + removed)) (k_total_s3_files_deleted ct) store (k_objects ct)).

Definition miku_cron_clear_user_msgs (ct : miku_cron_tasks) (user_id : option string) (now : Z) : Z * miku_cron_tasks :=
  match user_id with
  | None => (-1, ct)
  | Some u =>
      let h := record_run now "clearUserMsg" (k_history ct) in
      let '(removed, store) :=
        match k_store ct with
        | Some s => let '(a, s) := miku_msg_store_clear_user s (Some u) in (removed_of a, Some s)
        | None => (0, None)
        end in
      (0, CronTasks h (i64 (k_total_msgs_deleted ct + removed)) (k_total_s3_files_deleted ct) store (k_objects ct))
  end.

(** [clock] is what the object store reads when it is given no time. *)
Definition miku_cron_clear_s3_files (ct : miku_cron_tasks) (expire_days now clock : Z) : Z * miku_cron_tasks :=
  let h := record_run now "clearS3" (k_history ct) in
  let cutoff := i64 (now - i64 (retain_or_30 expire_days * day_ms)) in
  let '(removed, objects) :=
    match k_objects ct with
    | Some s => let '(n, s) := miku_object_store_purge_expired s clock now cutoff in (n, Some s)
    | None => (0, None)
    end in
  let removed := if removed <? 0 then 0 else removed in
  (0, CronTasks h (k_total_msgs_deleted ct) (i64 (k_total_s3_files_deleted ct + removed)) (k_store ct) objects).

Definition miku_cron_get_last_run (ct : miku_cron_tasks) (task_name : option string) : Z :=
  match task_name with
  | None => 0
  | Some name =>
      match list_find (fun x => streq (th_name x) name = true) (k_history ct) with
      | Some (_, x) => th_last_run_ms x
      | None => 0
      end
  end.

Lemma shows_bound s M : shows s M -> Z.of_nat (size M) <= MK_MSG_MEM_CAP.
Proof.
  intros S. rewrite (shows_size s M S). destruct S as ([B _] & _). rewrite (bo_count _ B). pose proof (slots_length s B). lia.
Qed.

(** The purge of the message store, with the store as the map that it shows:
    what is older than the retention goes, everything else stays, and the
    counter grows by what went. *)
Theorem cron_retention ct s M days now : k_store ct = Some s -> shows s M -> 0 < days < 36500 -> 2 ^ 42 < now < 2 ^ 62 ->
  0 <= k_total_msgs_deleted ct < 2 ^ 62 ->
  exists ct' s', miku_cron_delete_expired_msgs ct days now = (0, ct') /\ k_store ct' = Some s' /\
    let M' := filter (fun xm => now - days * day_ms <= mm_send_time xm.2) M in
    shows s' M' /\ miku_cron_total_msgs_deleted ct' = miku_cron_total_msgs_deleted ct + (Z.of_nat (size M) - Z.of_nat (size M')) /\
    k_objects ct' = k_objects ct.
Proof.
  intros Hs S Hd Hn Ht. unfold miku_cron_delete_expired_msgs. rewrite Hs. unfold retain_or_30. rewrite (proj2 (Z.ltb_lt 0 days)) by lia.
  assert (0 <= days * day_ms < 2 ^ 42) as Hb by (unfold day_ms; lia). rewrite (i64_small (days * day_ms)) by lia. rewrite i64_small by lia.
  set (cutoff := now - days * day_ms). unfold miku_msg_store_purge_older_than.
  destruct (remove_where_ok (fun m => mm_send_time m <? cutoff) s M S) as (s' & E & S'). rewrite E.
  eexists _, s'. split; [reflexivity|]. split; [reflexivity|]. cbn zeta.
  assert (drop_where (fun m => mm_send_time m <? cutoff) M = filter (fun xm => cutoff <= mm_send_time xm.2) M) as Em.
  { apply map_filter_ext. intros x m _. cbn. apply Z.ltb_ge. }
  rewrite <- Em. split; [exact S'|]. split; [|done]. unfold miku_cron_total_msgs_deleted. cbn [k_total_msgs_deleted removed_of]. apply i64_small.
  set (D := drop_where _ M). assert (size D <= size M)%nat as Hle by (apply map_subseteq_size, map_filter_subseteq).
  pose proof (shows_bound s M S) as Hz. unfold MK_MSG_MEM_CAP in Hz. lia.
Qed.

Definition old_and_new : option (answer * msg_store) :=
  '(_, _, s) ← miku_msg_store_insert (miku_msg_store_create false) (Some "c") (Some "a") 1 (Some "old") 1 1 "m1" 1;
  '(a, _, s) ← miku_msg_store_insert s (Some "c") (Some "a") 1 (Some "new") 4398046520000 2 "m2" 1;
  Some (a, s).

Lemma cron_retention_witness :
  exists ct' s', miku_cron_delete_expired_msgs (miku_cron_tasks_set_msg_store miku_cron_tasks_create (Some (miku_msg_store_create false))) 180 (2 ^ 42 + 9000) = (0, ct') /\
    k_store ct' = Some s' /\
    let M' := filter (fun xm => 2 ^ 42 + 9000 - 180 * day_ms <= mm_send_time xm.2) (∅ : gmap string mem_msg) in
    shows s' M' /\ miku_cron_total_msgs_deleted ct' = 0 + (Z.of_nat (size (∅ : gmap string mem_msg)) - Z.of_nat (size M')) /\ k_objects ct' = None.
Proof.
  apply (cron_retention (miku_cron_tasks_set_msg_store miku_cron_tasks_create (Some (miku_msg_store_create false))) (miku_msg_store_create false) ∅ 180 (2 ^ 42 + 9000)).
  - reflexivity.
  - apply create_shows.
  - lia.
  - lia.
  - cbn. lia.
Defined.

(** Of a message from 1970 and a recent one, the purge leaves the recent one. *)
Example purge_leaves_recent :
  match old_and_new with
  | Some (Rc 0, s) =>
      let '(_, ct) := miku_cron_delete_expired_msgs (miku_cron_tasks_set_msg_store miku_cron_tasks_create (Some s)) 180 4398046520001 in
      (miku_cron_total_msgs_deleted ct, option_map miku_msg_store_count (k_store ct), miku_cron_get_last_run ct (Some "deleteMsg"))
  | _ => (0, None, 0)
  end = (1, Some 1, 4398046520001).
Proof. vm_compute. reflexivity. Qed.
