(* ===== verification/Transfer.v ===== *)
(** * Message transfer (gateway/msgtransfer, cmd/miku-msgtransfer/main.c)

    The transfer program takes messages from a queue, gives each the next
    sequence number of its conversation, collects them in batches of 100 and
    hands every batch to its sinks: Redis (a log line), the message store, and
    one push per message.  A batch goes out when it is full or every tenth round.
    A scheduled task purges the same store.

    The calls of the sinks are logged in their order ([pl_out]).  Identifiers of
    stored messages are drawn from a generator, and the clock is an argument.

    [transfer_exactly_once]: every message that was taken into the queue goes to
    the sinks once, in the order of arrival. *)
From Stdlib Require Import Ascii.
From S2P Require Import Prelude Hash ProbeIndex KeyedMap Models Seq Ring MsgStore MsgStoreInv MsgStoreSpec Cron.
#[local] Open Scope string_scope.
#[local] Open Scope list_scope.
#[local] Open Scope Z_scope.

(** ** The queue (miku_msgtransfer.c) *)

Definition MK_MT_QUEUE_SIZE : Z := 16384.

Definition zero_msg : miku_msg := Msg "" "" "" "" "" "" 0 0 "" 0 0 0 0 0 "".

Record miku_msgtransfer := MsgTransfer {
  mt_queue : list miku_msg; mt_head : Z; mt_tail : Z; mt_count : Z; mt_total_processed : Z; mt_running : bool }.

Definition miku_msgtransfer_create : miku_msgtransfer :=
  MsgTransfer (replicate (Z.to_nat MK_MT_QUEUE_SIZE) zero_msg) 0 0 0 0 false.

Definition miku_msgtransfer_start (mt : miku_msgtransfer) : miku_msgtransfer :=
  MsgTransfer (mt_queue mt) (mt_head mt) (mt_tail mt) (mt_count mt) (mt_total_processed mt) true.

Definition miku_msgtransfer_stop (mt : miku_msgtransfer) : miku_msgtransfer :=
  MsgTransfer (mt_queue mt) (mt_head mt) (mt_tail mt) (mt_count mt) (mt_total_processed mt) false.

Definition miku_msgtransfer_enqueue (mt : miku_msgtransfer) (msg : miku_msg) : Z * miku_msgtransfer :=
  if MK_MT_QUEUE_SIZE <=? mt_count mt then (-1, mt)
  else (0, MsgTransfer (upd_at (fun _ => msg) (mt_tail mt) (mt_queue mt)) (mt_head mt) (rnext (mt_queue mt) (mt_tail mt))
             (mt_count mt + 1) (mt_total_processed mt) (mt_running mt)).

(** None: the queue is empty (-1). *)
Definition miku_msgtransfer_dequeue (mt : miku_msgtransfer) : option (miku_msg * miku_msgtransfer) :=
  if mt_count mt =? 0 then None
  else Some (default zero_msg (at_ (mt_queue mt) (mt_head mt)),
             MsgTransfer (mt_queue mt) (rnext (mt_queue mt) (mt_head mt)) (mt_tail mt) (mt_count mt - 1)
               (i64 (mt_total_processed mt + 1)) (mt_running mt)).

Definition miku_msgtransfer_pending (mt : miku_msgtransfer) : Z := mt_count mt.
Definition miku_msgtransfer_total_processed (mt : miku_msgtransfer) : Z := mt_total_processed mt.

(** ** The pipeline (miku_mt_pipeline.c) *)

Definition MK_PIPELINE_BATCH_SIZE : Z := 100.
Definition MK_READ_SEQ_MAX : Z := 4096.
Definition MK_READ_SEQ_HASH : Z := 8192.

Record read_seq_entry := ReadSeqEntry { rs_user_id : string; rs_conv_id : string; rs_seq : Z }.

(** Whether the three callbacks are set, and the used prefixes of the arrays. *)
Record miku_mt_pipeline := Pipeline {
  pl_batch : list miku_msg; pl_seq : miku_seq; pl_to_redis : bool; pl_to_mongo : bool; pl_to_push : bool;
  pl_read_seqs : list read_seq_entry; pl_read_hash : gmap Z Z }.

(** A call of a callback. *)
Inductive pl_out :=
  | ToRedis (msgs : list miku_msg)
  | ToMongo (msgs : list miku_msg)
  | ToPush (user_id conv_id : string) (seq : Z).

Definition read_pair_slot (user_id conv_id : string) : Z := pair_slot_of MK_READ_SEQ_HASH (fnv1a_64 user_id) (fnv1a_64 conv_id).

Definition read_hash_insert (p : miku_mt_pipeline) (ri : Z) : miku_mt_pipeline :=
  match at_ (pl_read_seqs p) ri with
  | Some e => Pipeline (pl_batch p) (pl_seq p) (pl_to_redis p) (pl_to_mongo p) (pl_to_push p) (pl_read_seqs p)
                (scan_insert MK_READ_SEQ_HASH (pl_read_hash p) (read_pair_slot (rs_user_id e) (rs_conv_id e)) (i16 ri))
  | None => p
  end.

Definition read_is (l : list read_seq_entry) (user_id conv_id : string) (ri : Z) : bool :=
  match at_ l ri with Some e => streq (rs_user_id e) user_id && streq (rs_conv_id e) conv_id | None => false end.

Definition read_hash_find (p : miku_mt_pipeline) (user_id conv_id : string) : Z :=
  scan_find MK_READ_SEQ_HASH (pl_read_hash p) (read_is (pl_read_seqs p) user_id conv_id) (read_pair_slot user_id conv_id).

Definition miku_mt_pipeline_create : miku_mt_pipeline := Pipeline [] miku_seq_create false false false [] ∅.

Definition set_batch (p : miku_mt_pipeline) (b : list miku_msg) : miku_mt_pipeline :=
  Pipeline b (pl_seq p) (pl_to_redis p) (pl_to_mongo p) (pl_to_push p) (pl_read_seqs p) (pl_read_hash p).

Definition miku_mt_pipeline_flush (p : miku_mt_pipeline) : list pl_out * miku_mt_pipeline :=
  match pl_batch p with
  | [] => ([], p)
  | batch =>
      ((if pl_to_redis p then [ToRedis batch] else []) ++ (if pl_to_mongo p then [ToMongo batch] else []) ++
       (if pl_to_push p then (fun m => ToPush (send_id m) (recv_id m) (seq m)) <$> batch else []), set_batch p [])
  end.

Definition miku_mt_pipeline_submit (p : miku_mt_pipeline) (msg : miku_msg) : list pl_out * miku_mt_pipeline :=
  let '(out, p) := if MK_PIPELINE_BATCH_SIZE <=? Z.of_nat (length (pl_batch p)) then miku_mt_pipeline_flush p else ([], p) in
  (out, set_batch p (pl_batch p ++ [msg])).

Definition miku_mt_pipeline_pending (p : miku_mt_pipeline) : Z := Z.of_nat (length (pl_batch p)).

Definition miku_mt_pipeline_seq_next (p : miku_mt_pipeline) (conv_id : option string) : Z * miku_mt_pipeline :=
  let cid := if given conv_id then conv_id else Some "default" in
  let '(n, s) := miku_seq_next (pl_seq p) cid in
  (n, Pipeline (pl_batch p) s (pl_to_redis p) (pl_to_mongo p) (pl_to_push p) (pl_read_seqs p) (pl_read_hash p)).

Definition miku_mt_pipeline_on_redis (p : miku_mt_pipeline) (fn : bool) : miku_mt_pipeline :=
  Pipeline (pl_batch p) (pl_seq p) fn (pl_to_mongo p) (pl_to_push p) (pl_read_seqs p) (pl_read_hash p).
Definition miku_mt_pipeline_on_mongo (p : miku_mt_pipeline) (fn : bool) : miku_mt_pipeline :=
  Pipeline (pl_batch p) (pl_seq p) (pl_to_redis p) fn (pl_to_push p) (pl_read_seqs p) (pl_read_hash p).
Definition miku_mt_pipeline_on_push (p : miku_mt_pipeline) (fn : bool) : miku_mt_pipeline :=
  Pipeline (pl_batch p) (pl_seq p) (pl_to_redis p) (pl_to_mongo p) fn (pl_read_seqs p) (pl_read_hash p).

Definition set_read_seqs (p : miku_mt_pipeline) (l : list read_seq_entry) : miku_mt_pipeline :=
  Pipeline (pl_batch p) (pl_seq p) (pl_to_redis p) (pl_to_mongo p) (pl_to_push p) l (pl_read_hash p).

Definition miku_mt_pipeline_process_read_seq (p : miku_mt_pipeline) (user_id conv_id : option string) (has_read_seq : Z) : Z * miku_mt_pipeline :=
  match user_id, conv_id with
  | Some u, Some c =>
      let ri := read_hash_find p u c in
      if 0 <=? ri then (0, set_read_seqs p (upd_at (fun e => ReadSeqEntry (rs_user_id e) (rs_conv_id e) has_read_seq) ri (pl_read_seqs p)))
      else if MK_READ_SEQ_MAX <=? Z.of_nat (length (pl_read_seqs p)) then (-1, p)
      else
        let ri := Z.of_nat (length (pl_read_seqs p)) in
        (0, read_hash_insert (set_read_seqs p (pl_read_seqs p ++ [ReadSeqEntry (strn 63 u) (strn 127 c) has_read_seq])) ri)
  | _, _ => (-1, p)
  end.

Definition miku_mt_pipeline_get_read_seq (p : miku_mt_pipeline) (user_id conv_id : option string) : Z :=
  match user_id, conv_id with
  | Some u, Some c =>
      let ri := read_hash_find p u c in
      if 0 <=? ri then match at_ (pl_read_seqs p) ri with Some e => rs_seq e | None => 0 end else 0
  | _, _ => 0
  end.

(** ** The program (cmd/miku-msgtransfer/main.c) *)

Section Program.
(** The identifiers that the message store draws. *)
Context (gen : Z -> string).

(** [tr_tasks] owns the message store that the pipeline writes to; [tr_drawn]
    counts the identifiers, and [tr_log] is the log of the callbacks. *)
Record transfer := Transfer {
  tr_queue : miku_msgtransfer; tr_pipe : miku_mt_pipeline; tr_cron : @miku_crontask miku_cron_tasks;
  tr_tasks : miku_cron_tasks; tr_tick : Z; tr_drawn : Z; tr_log : list pl_out }.

Definition cron_delete_msg (now : Z) (tasks : miku_cron_tasks) : miku_cron_tasks := (miku_cron_delete_expired_msgs tasks 180 now).2.

(** One message of a batch into the store. *)
Definition persist_one (now : Z) (acc : option (miku_cron_tasks * Z)) (m : miku_msg) : option (miku_cron_tasks * Z) :=
  '(tasks, n) ← acc;
  match k_store tasks with
  | None => Some (tasks, n)
  | Some s =>
      let conv := if nonempty (recv_id m) then recv_id m else send_id m in
      '(_, _, s) ← miku_msg_store_insert s (Some conv) (Some (send_id m)) (i32 (msg_type m)) (Some (content m)) (send_time m) (seq m) (gen n) now;
      Some (miku_cron_tasks_set_msg_store tasks (Some s), n + 1)
  end.

Definition pipeline_to_mongo (now : Z) (msgs : list miku_msg) (tasks : miku_cron_tasks) (drawn : Z) : option (miku_cron_tasks * Z) :=
  foldl (persist_one now) (Some (tasks, drawn)) msgs.

(** A callback; those for Redis and push only log. *)
Definition call_out (now : Z) (acc : option transfer) (o : pl_out) : option transfer :=
  st ← acc;
  match o with
  | ToMongo msgs =>
      '(tasks, n) ← pipeline_to_mongo now msgs (tr_tasks st) (tr_drawn st);
      Some (Transfer (tr_queue st) (tr_pipe st) (tr_cron st) tasks (tr_tick st) n (tr_log st ++ [o]))
  | _ => Some (Transfer (tr_queue st) (tr_pipe st) (tr_cron st) (tr_tasks st) (tr_tick st) (tr_drawn st) (tr_log st ++ [o]))
  end.

Definition with_queue (st : transfer) (q : miku_msgtransfer) : transfer :=
  Transfer q (tr_pipe st) (tr_cron st) (tr_tasks st) (tr_tick st) (tr_drawn st) (tr_log st).
Definition with_pipe (st : transfer) (p : miku_mt_pipeline) : transfer :=
  Transfer (tr_queue st) p (tr_cron st) (tr_tasks st) (tr_tick st) (tr_drawn st) (tr_log st).

Definition set_msg_seq (n : Z) (m : miku_msg) : miku_msg :=
  Msg (server_msg_id m) (client_msg_id m) (send_id m) (recv_id m) (msg_group_id m) (msg_conversation_id m) (session_type m) (msg_type m)
      (content m) n (send_time m) (msg_create_time m) (status m) (is_read m) (msg_ex m).

(** [while (dequeue == 0) { seq; submit; }]. *)
Fixpoint drain (fuel : nat) (now : Z) (st : transfer) : option transfer :=
  match miku_msgtransfer_dequeue (tr_queue st) with
  | None => Some st
  | Some (msg, mt) =>
      match fuel with
      | O => None
      | S fuel =>
          let '(n, p) := miku_mt_pipeline_seq_next (tr_pipe st) (Some (recv_id msg)) in
          let '(out, p) := miku_mt_pipeline_submit p (set_msg_seq n msg) in
          st ← foldl (call_out now) (Some (with_pipe (with_queue st mt) p)) out;
          drain fuel now st
      end
  end.

Definition flush (now : Z) (st : transfer) : option transfer :=
  let '(out, p) := miku_mt_pipeline_flush (tr_pipe st) in
  foldl (call_out now) (Some (with_pipe st p)) out.

(** One round of the main loop. *)
Definition round (now : Z) (st : transfer) : option transfer :=
  let '(_, cron, tasks) := miku_crontask_tick (tr_cron st) (tr_tasks st) now in
  let st := Transfer (tr_queue st) (tr_pipe st) cron tasks (tr_tick st) (tr_drawn st) (tr_log st) in
  st ← drain (Z.to_nat (mt_count (tr_queue st))) now st;
  let st := Transfer (tr_queue st) (tr_pipe st) (tr_cron st) (tr_tasks st) (i32 (tr_tick st + 1)) (tr_drawn st) (tr_log st) in
  if Z.rem (tr_tick st) 10 =? 0 then flush now st else Some st.

Definition transfer_start : transfer :=
  let pipe := miku_mt_pipeline_on_push (miku_mt_pipeline_on_mongo (miku_mt_pipeline_on_redis miku_mt_pipeline_create true) true) true in
  let cron := (miku_crontask_add miku_crontask_create (Some "deleteMsg") (Some cron_delete_msg) 86400000).2 in
  Transfer (miku_msgtransfer_start miku_msgtransfer_create) pipe (miku_crontask_start cron)
    (miku_cron_tasks_set_msg_store miku_cron_tasks_create (Some (miku_msg_store_create false))) 0 0 [].

Inductive tr_event := Enqueue (m : miku_msg) | Round (now : Z).

(** The messages taken into the queue so far, and the state. *)
Definition tr_step (acc : option (list miku_msg * transfer)) (e : tr_event) : option (list miku_msg * transfer) :=
  '(taken, st) ← acc;
  match e with
  | Enqueue m => let '(rc, q) := miku_msgtransfer_enqueue (tr_queue st) m in Some (if rc =? 0 then taken ++ [m] else taken, with_queue st q)
  | Round now => st ← round now st; Some (taken, st)
  end.

Definition tr_run (es : list tr_event) : option (list miku_msg * transfer) := foldl tr_step (Some ([], transfer_start)) es.

(** ** Invariant *)

Definition erase (m : miku_msg) : miku_msg := set_msg_seq 0 m.

(** What the sinks were given. *)
Definition stored (log : list pl_out) : list miku_msg := concat ((fun o => match o with ToMongo ms => ms | _ => [] end) <$> log).
Definition cached (log : list pl_out) : list miku_msg := concat ((fun o => match o with ToRedis ms => ms | _ => [] end) <$> log).
Definition pushed (log : list pl_out) : list (string * string * Z) := omap (fun o => match o with ToPush u c n => Some (u, c, n) | _ => None end) log.
Definition push_of (m : miku_msg) : string * string * Z := (send_id m, recv_id m, seq m).

(** The generator does not repeat itself within its first [N] identifiers. *)
Context (N : Z).
Definition gen_fresh : Prop := forall i j, 0 <= i < N -> 0 <= j < N -> strn 63 (gen i) = strn 63 (gen j) -> i = j.

Definition sent_by_someone (m : miku_msg) : Prop := nonempty (send_id m) = true.

(** The store shows some map, and the identifiers from [n] on are new. *)
Definition store_fine (tasks : miku_cron_tasks) (n : Z) : Prop :=
  exists s M, k_store tasks = Some s /\ shows s M /\ forall i, n <= i < N -> M !! strn 63 (gen i) = None.

Record tr_ok (taken q : list miku_msg) (st : transfer) : Prop := {
  to_ring : ring_ok (mt_queue (tr_queue st)) (mt_head (tr_queue st)) (mt_tail (tr_queue st)) (mt_count (tr_queue st)) q;
  to_size : rcap (mt_queue (tr_queue st)) = MK_MT_QUEUE_SIZE;
  to_order : erase <$> stored (tr_log st) ++ pl_batch (tr_pipe st) ++ q = erase <$> taken;
  to_senders : Forall sent_by_someone (pl_batch (tr_pipe st) ++ q);
  to_store : store_fine (tr_tasks st) (tr_drawn st);
  to_drawn : tr_drawn st = Z.of_nat (length (stored (tr_log st)));
  to_hooks : pl_to_redis (tr_pipe st) = true /\ pl_to_mongo (tr_pipe st) = true /\ pl_to_push (tr_pipe st) = true;
  to_cron : Forall (fun t => ct_fn t = cron_delete_msg) (ct_tasks (tr_cron st));
  to_batch : Z.of_nat (length (pl_batch (tr_pipe st))) <= MK_PIPELINE_BATCH_SIZE;
  to_sinks : cached (tr_log st) = stored (tr_log st) /\ pushed (tr_log st) = push_of <$> stored (tr_log st) }.

Lemma one_lost_sub M M0 x : one_lost M M0 -> M !! x = None -> M0 !! x = None.
Proof. unfold one_lost. destruct (_ <? _); [by intros ->|]. intros (y & _ & ->) Hx. apply lookup_delete_None. by right. Qed.

Lemma persist_ok now msgs : gen_fresh -> Forall sent_by_someone msgs -> forall tasks n, store_fine tasks n -> 0 <= n ->
  n + Z.of_nat (length msgs) <= N -> exists tasks', foldl (persist_one now) (Some (tasks, n)) msgs = Some (tasks', n + Z.of_nat (length msgs)) /\
    store_fine tasks' (n + Z.of_nat (length msgs)).
Proof.
  intros Hg Hs. induction Hs as [|m msgs Hm _ IH]; intros tasks n F Hn HN; [exists tasks; rewrite Z.add_0_r; done|].
  cbn [length] in HN |- *. destruct F as (s & M & Ek & S & Hf). cbn [foldl]. unfold persist_one at 2. cbn [mbind option_bind]. rewrite Ek.
  set (conv := if nonempty (recv_id m) then recv_id m else send_id m).
  assert (nonempty conv = true) as Hc by (unfold conv; destruct (nonempty (recv_id m)) eqn:E; [done|exact Hm]).
  destruct (insert_ok s M conv (send_id m) (content m) (gen n) (i32 (msg_type m)) (send_time m) (seq m) now S Hc (Hf n ltac:(lia)))
    as (nt & s' & M0 & _ & _ & _ & -> & Hl & S' & _). cbn [mbind option_bind]. replace (n + Z.of_nat (Datatypes.S (length msgs))) with (n + 1 + Z.of_nat (length msgs)) by lia. apply IH; [|lia|lia].
  eexists s', _. split; [done|]. split; [exact S'|]. intros i Hi. rewrite lookup_insert_ne; [eapply one_lost_sub; [done|apply Hf; lia]|].
  cbn [fill_msg mm_msg_id]. intros E. apply Hg in E; lia.
Qed.

Lemma stored_app a b : stored (a ++ b) = stored a ++ stored b.
Proof. unfold stored. by rewrite fmap_app, concat_app. Qed.

(** The callbacks change the store and the log only. *)
Lemma call_outs_ok now out : gen_fresh -> forall st, Forall (fun o => match o with ToMongo ms => Forall sent_by_someone ms | _ => True end) out ->
  store_fine (tr_tasks st) (tr_drawn st) -> 0 <= tr_drawn st -> tr_drawn st + Z.of_nat (length (stored out)) <= N ->
  exists tasks, foldl (call_out now) (Some st) out =
      Some (Transfer (tr_queue st) (tr_pipe st) (tr_cron st) tasks (tr_tick st) (tr_drawn st + Z.of_nat (length (stored out))) (tr_log st ++ out)) /\
    store_fine tasks (tr_drawn st + Z.of_nat (length (stored out))).
Proof.
  intros Hg. induction out as [|o out IH]; intros st Ho F H0 HN; [exists (tr_tasks st); cbn; rewrite app_nil_r, Z.add_0_r; by destruct st|].
  apply list.Forall_cons in Ho as [Ho Hout]. cbn [foldl]. unfold call_out at 2. cbn [mbind option_bind].
  replace (tr_log st ++ o :: out) with ((tr_log st ++ [o]) ++ out) by (by rewrite <- app_assoc).
  change (o :: out) with ([o] ++ out) in *. rewrite stored_app, length_app in *. rewrite Nat2Z.inj_add, Z.add_assoc in *.
  destruct o as [ms|ms|u c n].
  - rewrite Z.add_0_r in *. apply (IH (Transfer (tr_queue st) (tr_pipe st) (tr_cron st) (tr_tasks st) (tr_tick st) (tr_drawn st) (tr_log st ++ [ToRedis ms])) Hout F H0 HN).
  - assert (stored [ToMongo ms] = ms) as E0 by (unfold stored; cbn; apply app_nil_r). rewrite E0 in *.
    destruct (persist_ok now ms Hg Ho _ _ F H0 ltac:(lia)) as (tasks & E & F'). unfold pipeline_to_mongo. rewrite E. cbn [mbind option_bind].
    apply (IH (Transfer (tr_queue st) (tr_pipe st) (tr_cron st) tasks (tr_tick st) (tr_drawn st + Z.of_nat (length ms)) (tr_log st ++ [ToMongo ms])) Hout F'); cbn [tr_drawn]; lia.
  - rewrite Z.add_0_r in *. apply (IH (Transfer (tr_queue st) (tr_pipe st) (tr_cron st) (tr_tasks st) (tr_tick st) (tr_drawn st) (tr_log st ++ [ToPush u c n])) Hout F H0 HN).
Qed.

Definition hooked (p : miku_mt_pipeline) : Prop := pl_to_redis p = true /\ pl_to_mongo p = true /\ pl_to_push p = true.

Lemma cached_app a b : cached (a ++ b) = cached a ++ cached b.
Proof. unfold cached. by rewrite fmap_app, concat_app. Qed.

Lemma pushed_app a b : pushed (a ++ b) = pushed a ++ pushed b.
Proof. unfold pushed. by rewrite omap_app. Qed.

Lemma pushes_only (l : list miku_msg) : let out := (fun m => ToPush (send_id m) (recv_id m) (seq m)) <$> l in
  stored out = [] /\ cached out = [] /\ pushed out = push_of <$> l.
Proof. cbn zeta. induction l as [|m l (E1 & E2 & E3)]; [done|]. unfold stored, cached, pushed in *. cbn. rewrite E1, E2, E3. done. Qed.

(** A flush hands the batch to each sink. *)
Lemma flush_out p : hooked p -> exists out, miku_mt_pipeline_flush p = (out, set_batch p []) /\
  stored out = pl_batch p /\ cached out = pl_batch p /\ pushed out = push_of <$> pl_batch p /\
  (Forall sent_by_someone (pl_batch p) -> Forall (fun o => match o with ToMongo ms => Forall sent_by_someone ms | _ => True end) out).
Proof.
  intros (H1 & H2 & H3). unfold miku_mt_pipeline_flush. destruct (pl_batch p) as [|m b] eqn:E.
  - exists []. split_and!; [|done|done|done|constructor]. f_equal. destruct p. cbn in *. by subst.
  - rewrite H1, H2, H3. eexists. split; [done|]. set (l := m :: b). destruct (pushes_only l) as (E1 & E2 & E3).
    rewrite !stored_app, !cached_app, !pushed_app, E1, E2, E3. unfold stored, cached, pushed. cbn [fmap list_fmap concat omap list_omap app]. rewrite !app_nil_r.
    split_and!; try done. intros Hs. apply list.Forall_cons. split; [done|]. apply list.Forall_cons. split; [done|].
    apply list.Forall_forall. intros o (x & -> & _)%list_elem_of_fmap. done.
Qed.

(** The callbacks of a flush, from a state whose pipeline is flushed. *)
Lemma flushed_ok now taken q st p' : gen_fresh -> tr_ok taken q st -> Z.of_nat (length taken) <= N -> pl_to_redis p' = true /\ pl_to_mongo p' = true /\ pl_to_push p' = true ->
  forall b q', q = b ++ q' -> pl_batch p' = b -> Z.of_nat (length b) <= MK_PIPELINE_BATCH_SIZE ->
  forall mt, ring_ok (mt_queue mt) (mt_head mt) (mt_tail mt) (mt_count mt) q' -> rcap (mt_queue mt) = MK_MT_QUEUE_SIZE ->
  forall out, stored out = pl_batch (tr_pipe st) -> cached out = pl_batch (tr_pipe st) -> pushed out = push_of <$> pl_batch (tr_pipe st) ->
  Forall (fun o => match o with ToMongo ms => Forall sent_by_someone ms | _ => True end) out ->
  exists st', foldl (call_out now) (Some (with_pipe (with_queue st mt) p')) out = Some st' /\ tr_ok taken q' st' /\
    tr_queue st' = mt /\ tr_pipe st' = p' /\ tr_tick st' = tr_tick st.
Proof.
  intros Hg O HN Hh b q' -> Hb Hlen mt Hr Hc out E1 E2 E3 Ho.
  pose proof (f_equal length (to_order _ _ _ O)) as Hlo. rewrite !length_fmap, !length_app in Hlo. pose proof (to_drawn _ _ _ O) as Hd.
  destruct (call_outs_ok now out Hg (with_pipe (with_queue st mt) p') Ho (to_store _ _ _ O)) as (tasks & E & F); cbn [tr_drawn with_pipe with_queue]; [lia|rewrite E1; lia|].
  eexists. split; [exact E|]. split; [|done]. destruct (to_sinks _ _ _ O) as [S1 S2]. pose proof (to_senders _ _ _ O) as Hs.
  split; cbn [tr_queue tr_pipe tr_cron tr_tasks tr_drawn tr_log with_pipe with_queue]; try done.
  - rewrite stored_app, E1, Hb, <- app_assoc. apply (to_order _ _ _ O).
  - rewrite Hb. by apply list.Forall_app in Hs as [_ Hs].
  - rewrite stored_app, length_app. cbn [tr_drawn with_pipe with_queue]. lia.
  - apply (to_cron _ _ _ O).
  - by rewrite Hb.
  - by rewrite cached_app, stored_app, pushed_app, E1, E2, E3, S1, S2, fmap_app.
Qed.

Lemma flush_ok now taken q st : gen_fresh -> tr_ok taken q st -> Z.of_nat (length taken) <= N ->
  exists st', flush now st = Some st' /\ tr_ok taken q st' /\ pl_batch (tr_pipe st') = [] /\ tr_tick st' = tr_tick st.
Proof.
  intros Hg O HN. unfold flush. destruct (flush_out (tr_pipe st) (to_hooks _ _ _ O)) as (out & -> & E1 & E2 & E3 & Ho).
  pose proof (to_senders _ _ _ O) as Hs. apply list.Forall_app in Hs as [Hs _].
  destruct (flushed_ok now taken q st (set_batch (tr_pipe st) []) Hg O HN (to_hooks _ _ _ O) [] q eq_refl eq_refl ltac:(done) (tr_queue st)
    (to_ring _ _ _ O) (to_size _ _ _ O) out E1 E2 E3 (Ho Hs)) as (st' & E & O' & _ & Ep & Et).
  exists st'. rewrite Ep. split; [|done]. rewrite <- E. by destruct st.
Qed.

Lemma erase_seq n m : erase (set_msg_seq n m) = erase m.
Proof. done. Qed.

(** One message from the queue into the batch. *)
Lemma take_one now taken m q st : gen_fresh -> tr_ok taken (m :: q) st -> Z.of_nat (length taken) <= N ->
  exists mt n p out p' st', miku_msgtransfer_dequeue (tr_queue st) = Some (m, mt) /\
    miku_mt_pipeline_seq_next (tr_pipe st) (Some (recv_id m)) = (n, p) /\ miku_mt_pipeline_submit p (set_msg_seq n m) = (out, p') /\
    foldl (call_out now) (Some (with_pipe (with_queue st mt) p')) out = Some st' /\ tr_ok taken q st' /\ mt_count (tr_queue st') = mt_count (tr_queue st) - 1 /\
    tr_tick st' = tr_tick st.
Proof.
  intros Hg O HN. pose proof (to_ring _ _ _ O) as R. unfold miku_msgtransfer_dequeue.
  rewrite (proj2 (Z.eqb_neq (mt_count (tr_queue st)) 0)) by (pose proof (rg_len _ _ _ _ _ R) as E; cbn in E; lia).
  rewrite (ring_first _ _ _ _ _ _ R). cbn [default from_option id]. set (mt := MsgTransfer _ _ _ _ _ _).
  unfold miku_mt_pipeline_seq_next. destruct (miku_seq_next _ _) as [n s]. set (p := Pipeline _ _ _ _ _ _ _).
  set (m' := set_msg_seq n m). pose proof (to_hooks _ _ _ O) as Hh. pose proof (ring_pop_keep _ _ _ _ _ _ R) as R'.
  (* the message with its number in place of the first of the queue *)
  assert (forall b, erase <$> b ++ m' :: q = erase <$> b ++ m :: q) as Em by (intros b; by rewrite !fmap_app, !fmap_cons).
  pose proof (to_senders _ _ _ O) as Hs.
  destruct (Z.leb_spec MK_PIPELINE_BATCH_SIZE (Z.of_nat (length (pl_batch (tr_pipe st))))) as [Hfull|Hroom].
  - destruct (flush_out p Hh) as (out & E & E1 & E2 & E3 & Ho). change (pl_batch p) with (pl_batch (tr_pipe st)) in *.
    assert (miku_mt_pipeline_submit p m' = (out, set_batch p [m'])) as Esub.
    { unfold miku_mt_pipeline_submit. change (pl_batch p) with (pl_batch (tr_pipe st)). by rewrite (proj2 (Z.leb_le _ _) Hfull), E. }
    assert (tr_ok taken (m' :: q) (with_queue st (MsgTransfer (upd_at (fun _ => m') (mt_head (tr_queue st)) (mt_queue (tr_queue st))) (mt_head (tr_queue st))
      (mt_tail (tr_queue st)) (mt_count (tr_queue st)) (mt_total_processed (tr_queue st)) (mt_running (tr_queue st))))) as O1.
    { destruct O as [R0 Hc Hor Hse Hst Hd Hk Hcr Hb Hsi]. split; cbn [tr_queue tr_pipe tr_cron tr_tasks tr_drawn tr_log with_queue mt_queue mt_head mt_tail mt_count]; try done.
      - eapply ring_set_first. exact R0.
      - by rewrite rcap_upd.
      - rewrite app_assoc, Em, <- app_assoc. done.
      - rewrite list.Forall_app, list.Forall_cons in *. done. }
    destruct (flushed_ok now taken (m' :: q) _ (set_batch p [m']) Hg O1 HN Hh [m'] q eq_refl eq_refl ltac:(done) mt R' (to_size _ _ _ O) out E1 E2 E3) as (st' & E' & O' & Eq & _ & Et).
    { apply Ho. by apply list.Forall_app in Hs as [? _]. }
    exists mt, n, p, out, (set_batch p [m']), st'. split_and!; try done. rewrite Eq. done.
  - exists mt, n, p, [], (set_batch p (pl_batch (tr_pipe st) ++ [m'])), (with_pipe (with_queue st mt) (set_batch p (pl_batch (tr_pipe st) ++ [m']))).
    assert (miku_mt_pipeline_submit p m' = ([], set_batch p (pl_batch (tr_pipe st) ++ [m']))) as Esub.
    { unfold miku_mt_pipeline_submit. change (pl_batch p) with (pl_batch (tr_pipe st)). by rewrite (proj2 (Z.leb_gt _ _) Hroom). }
    split_and!; try done. destruct O as [R0 Hc Hor Hse Hst Hd Hk Hcr Hb Hsi].
    split; cbn [tr_queue tr_pipe tr_cron tr_tasks tr_drawn tr_log with_queue with_pipe set_batch pl_batch mt mt_queue mt_head mt_tail mt_count]; try done.
    + rewrite <- !app_assoc. cbn [app]. rewrite app_assoc, Em, <- app_assoc. done.
    + rewrite <- app_assoc. cbn [app]. rewrite list.Forall_app, list.Forall_cons in *. done.
    + rewrite length_app. cbn [length]. lia.
Qed.

Lemma drain_ok now taken q : gen_fresh -> Z.of_nat (length taken) <= N -> forall st fuel, tr_ok taken q st -> (length q <= fuel)%nat ->
  exists st', drain fuel now st = Some st' /\ tr_ok taken [] st' /\ tr_tick st' = tr_tick st /\ (q = [] -> st' = st).
Proof.
  intros Hg HN. induction q as [|m q IH]; intros st fuel O Hf.
  - exists st. split; [|done]. assert (miku_msgtransfer_dequeue (tr_queue st) = None) as E.
    { unfold miku_msgtransfer_dequeue. pose proof (rg_len _ _ _ _ _ (to_ring _ _ _ O)) as El. cbn in El. by rewrite El. }
    destruct fuel; cbn [drain]; by rewrite E.
  - cbn [length] in Hf. destruct fuel as [|fuel]; [lia|]. destruct (take_one now taken m q st Hg O HN) as (mt & n & p & out & p' & st' & E1 & E2 & E3 & E4 & O' & _ & Et).
    cbn [drain]. rewrite E1, E2, E3, E4. cbn [mbind option_bind]. rewrite <- Et.
    destruct (IH st' fuel O' ltac:(lia)) as (st2 & E5 & O2 & Et2 & _). by exists st2.
Qed.

Lemma delete_msg_fine now tasks n : store_fine tasks n -> store_fine (cron_delete_msg now tasks) n.
Proof.
  intros (s & M & Ek & S & Hf). unfold cron_delete_msg, miku_cron_delete_expired_msgs. rewrite Ek. unfold miku_msg_store_purge_older_than.
  set (p := fun m => mm_send_time m <? _). destruct (remove_where_ok p s M S) as (s' & -> & S'). exists s', (drop_where p M). split; [done|].
  split; [done|]. intros i Hi. apply map_lookup_filter_None. left. by apply Hf.
Qed.

Lemma tick_fine now taken q st : tr_ok taken q st ->
  let '(_, cron, tasks) := miku_crontask_tick (tr_cron st) (tr_tasks st) now in
  tr_ok taken q (Transfer (tr_queue st) (tr_pipe st) cron tasks (tr_tick st) (tr_drawn st) (tr_log st)).
Proof.
  intros O. rewrite cron_tick_exact. destruct (ct_running (tr_cron st)); [|by destruct O]. destruct O as [R Hc Hor Hse Hst Hd Hk Hcr Hb Hsi].
  split; cbn [tr_queue tr_pipe tr_cron tr_tasks tr_drawn tr_log ct_tasks]; try done.
  - apply foldl_inv; [done|]. intros tasks t Ht F. apply list_elem_of_filter in Ht as [_ Ht]. rewrite list.Forall_forall in Hcr.
    rewrite (Hcr t Ht). by apply delete_msg_fine.
  - apply list.Forall_forall. intros t (t0 & -> & Ht)%list_elem_of_fmap. rewrite list.Forall_forall in Hcr.
    pose proof (Hcr t0 Ht). by destruct (due now t0).
Qed.

Lemma round_ok now taken q st : gen_fresh -> Z.of_nat (length taken) <= N -> tr_ok taken q st -> exists st', round now st = Some st' /\ tr_ok taken [] st' /\
  tr_tick st' = i32 (tr_tick st + 1) /\ (Z.rem (tr_tick st') 10 = 0 \/ (q = [] /\ pl_batch (tr_pipe st) = []) -> pl_batch (tr_pipe st') = []).
Proof.
  intros Hg HN O. unfold round. pose proof (tick_fine now taken q st O) as O1. destruct (miku_crontask_tick _ _ _) as [[x cron] tasks].
  destruct (drain_ok now taken q Hg HN _ (Z.to_nat (mt_count (tr_queue st))) O1) as (st2 & E2 & O2 & Et & Hq).
  { pose proof (rg_len _ _ _ _ _ (to_ring _ _ _ O)). lia. }
  cbn [tr_queue]. rewrite E2. cbn [mbind option_bind tr_tick]. cbn [tr_tick] in Et. rewrite Et.
  set (st3 := Transfer _ _ _ _ _ _ _). assert (tr_ok taken [] st3) as O3 by (by destruct O2).
  destruct (Z.eqb_spec (Z.rem (i32 (tr_tick st + 1)) 10) 0) as [E|Hne].
  - destruct (flush_ok now taken [] st3 Hg O3 HN) as (st' & E' & O' & Hb & Et'). exists st'. by split_and!.
  - exists st3. split_and!; try done. intros [Hz|[-> Hb]]; [done|]. cbn [st3 tr_pipe]. by rewrite (Hq eq_refl).
Qed.

Lemma create_cap : rcap (mt_queue miku_msgtransfer_create) = MK_MT_QUEUE_SIZE.
Proof. unfold rcap, miku_msgtransfer_create. cbn [mt_queue]. rewrite length_replicate. reflexivity. Qed.

Lemma start_ok : tr_ok [] [] transfer_start.
Proof.
  split.
  - apply ring_empty. change (0 < rcap (mt_queue miku_msgtransfer_create)). rewrite create_cap. reflexivity.
  - exact create_cap.
  - done.
  - constructor.
  - exists (miku_msg_store_create false), ∅. split; [done|]. split; [apply create_shows|]. intros i _. apply lookup_empty.
  - done.
  - done.
  - by repeat constructor.
  - done.
  - done.
Qed.

Definition event_ok (e : tr_event) : Prop := match e with Enqueue m => sent_by_someone m | Round _ => True end.

Lemma transfer_run_ok es : gen_fresh -> Z.of_nat (length es) <= N -> Forall event_ok es ->
  exists taken q st, tr_run es = Some (taken, st) /\ tr_ok taken q st /\ (length taken <= length es)%nat.
Proof.
  intros Hg. induction es as [|e es IH] using rev_ind; [intros _ _; exists [], [], transfer_start; split_and!; [done|apply start_ok|done]|].
  rewrite length_app. cbn [length]. intros HN [Hes He]%list.Forall_app. apply list.Forall_cons in He as [He _]. destruct (IH ltac:(lia) Hes) as (taken & q & st & E & O & Hl).
  unfold tr_run in *. rewrite foldl_app, E. cbn [foldl tr_step mbind option_bind]. destruct e as [m|now].
  - unfold miku_msgtransfer_enqueue. destruct (Z.leb_spec MK_MT_QUEUE_SIZE (mt_count (tr_queue st))) as [Hfull|Hroom].
    + exists taken, q, st. split_and!; [by destruct st|done|lia].
    + exists (taken ++ [m]), (q ++ [m]). eexists. split; [done|]. split; [|rewrite length_app; cbn; lia]. destruct O as [R Hc Hor Hse Hst Hd Hk Hcr Hb Hsi].
      split; cbn [tr_queue tr_pipe tr_cron tr_tasks tr_drawn tr_log with_queue mt_queue mt_head mt_tail mt_count]; try done.
      * apply ring_push; [done|]. by rewrite Hc.
      * by rewrite rcap_upd.
      * rewrite !app_assoc, fmap_app, <- app_assoc, Hor. by rewrite <- fmap_app.
      * rewrite app_assoc. apply list.Forall_app. split; [done|]. by apply list.Forall_cons.
  - destruct (round_ok now taken q st Hg ltac:(lia) O) as (st' & -> & O' & _). exists taken, [], st'. split_and!; [done|done|lia].
Qed.

(** ** Theorem *)

(** C21: The transfer program loses, repeats and reorders nothing.  Take any
    sequence of at most [N] arrivals and rounds of the main loop in which every
    message names its sender, and a generator whose first [N] identifiers
    differ.  The program runs on (no call of the store is undefined).  The
    messages that were taken into the queue are those handed to the store, those
    in the batch and those in the queue, in this order and each once, up to the
    sequence numbers they were given; Redis was handed the same messages as the
    store, and there was one push for each.  The batch has at most 100 messages.
    (A message that arrives when the queue holds 16384 is refused, not taken.) *)
Theorem transfer_exactly_once es : gen_fresh -> Z.of_nat (length es) <= N -> Forall event_ok es ->
  exists taken st waiting, tr_run es = Some (taken, st) /\
    erase <$> stored (tr_log st) ++ pl_batch (tr_pipe st) ++ waiting = erase <$> taken /\
    miku_msgtransfer_pending (tr_queue st) = Z.of_nat (length waiting) /\ miku_mt_pipeline_pending (tr_pipe st) <= MK_PIPELINE_BATCH_SIZE /\
    cached (tr_log st) = stored (tr_log st) /\ pushed (tr_log st) = push_of <$> stored (tr_log st).
Proof.
  intros Hg HN He. destruct (transfer_run_ok es Hg HN He) as (taken & q & st & E & O & _). exists taken, st, q. split; [done|]. split; [apply (to_order _ _ _ O)|].
  split; [apply (rg_len _ _ _ _ _ (to_ring _ _ _ O))|]. split; [apply (to_batch _ _ _ O)|apply (to_sinks _ _ _ O)].
Qed.

Lemma rounds_ok nows : gen_fresh -> forall taken q st, Z.of_nat (length taken) <= N -> tr_ok taken q st -> 0 <= tr_tick st < 2147483648 - Z.of_nat (length nows) ->
  exists q' st', foldl tr_step (Some (taken, st)) (Round <$> nows) = Some (taken, st') /\ tr_ok taken q' st' /\ (nows <> [] \/ q = [] -> q' = []) /\
    ((exists k, 1 <= k <= Z.of_nat (length nows) /\ (tr_tick st + k) mod 10 = 0) \/ (q = [] /\ pl_batch (tr_pipe st) = []) -> pl_batch (tr_pipe st') = []).
Proof.
  intros Hg. induction nows as [|now nows IH]; intros taken q st HN O Ht.
  - exists q, st. split_and!; [done|done|by intros [?|?]|]. intros [(k & Hk & _)|[_ H]]; [cbn in Hk; lia|done].
  - cbn [length] in Ht. destruct (round_ok now taken q st Hg HN O) as (st1 & E & O1 & Et & Hb). rewrite i32_small in Et by lia.
    destruct (IH taken [] st1 HN O1 ltac:(lia)) as (q' & st' & E' & O' & Hq' & Hb'). exists q', st'. cbn [fmap list_fmap foldl tr_step mbind option_bind]. rewrite E.
    cbn [mbind option_bind]. split; [done|]. split; [done|]. split; [intros _; apply Hq'; by right|]. cbn [length].
    rewrite Et in Hb, Hb'. rewrite Z.rem_mod_nonneg in Hb by lia. intros [(k & Hk & Hm)|Hq].
    + destruct (decide (k = 1)) as [->|Hne]; [apply Hb'; right; split; [done|]; apply Hb; by left|]. apply Hb'. left. exists (k - 1). split; [lia|].
      by replace (tr_tick st + 1 + (k - 1)) with (tr_tick st + k) by lia.
    + apply Hb'. right. split; [done|]. apply Hb. by right.
Qed.

(** Ten rounds are enough: after ten more rounds without arrivals everything
    that was taken into the queue has gone to the store. *)
Theorem transfer_drains es nows taken st : gen_fresh -> Z.of_nat (length es) <= N -> Forall event_ok es -> tr_run es = Some (taken, st) -> 0 <= tr_tick st < 2147483600 ->
  length nows = 10%nat -> exists st', tr_run (es ++ (Round <$> nows)) = Some (taken, st') /\
    erase <$> stored (tr_log st') = erase <$> taken /\ miku_msgtransfer_pending (tr_queue st') = 0 /\ miku_mt_pipeline_pending (tr_pipe st') = 0.
Proof.
  intros Hg HN He E Ht Hn. destruct (transfer_run_ok es Hg HN He) as (taken' & q & st0 & E0 & O & Hl). rewrite E0 in E. injection E as -> ->.
  destruct (rounds_ok nows Hg taken q st) as (q' & st' & E' & O' & Hq & Hb); [lia|done|lia|]. exists st'. unfold tr_run in *. rewrite foldl_app, E0. split; [done|].
  rewrite Hn in Hb. assert (q' = []) as -> by (apply Hq; left; intros ->; done).
  assert (pl_batch (tr_pipe st') = []) as Eb.
  { apply Hb. left. exists (10 - tr_tick st mod 10). pose proof (Z.mod_pos_bound (tr_tick st) 10 ltac:(lia)). split; [lia|].
    pose proof (Z.div_mod (tr_tick st) 10 ltac:(lia)). replace (tr_tick st + (10 - tr_tick st mod 10)) with ((tr_tick st / 10 + 1) * 10) by lia. apply Z.mod_mul. lia. }
  pose proof (to_order _ _ _ O') as Ho. rewrite Eb, app_nil_r in Ho. unfold miku_mt_pipeline_pending. rewrite Eb.
  split; [done|]. split; [apply (rg_len _ _ _ _ _ (to_ring _ _ _ O'))|done].
Qed.
End Program.

(** Three messages: the first two are stored in the tenth round. *)
Definition sample_gen (i : Z) : string := String (ascii_of_N (Z.to_N (65 + i))) "".

Definition sample_msg (sender receiver : string) : miku_msg := Msg "" "" sender receiver "" "" 1 101 "hi" 0 5 5 0 0 "".

Definition sample_events : list tr_event :=
  [Enqueue (sample_msg "a" "b"); Round 10; Enqueue (sample_msg "c" "b")] ++ (Round <$> [11; 12; 13; 14; 15; 16; 17; 18; 19]) ++ [Enqueue (sample_msg "d" "b")].

Lemma sample_gen_fresh : gen_fresh sample_gen 20.
Proof.
  intros i j Hi Hj E. assert (ascii_of_N (Z.to_N (65 + i)) = ascii_of_N (Z.to_N (65 + j))) as E' by (by injection E).
  apply (f_equal N_of_ascii) in E'. rewrite !N_ascii_embedding in E' by lia. lia.
Qed.

Lemma transfer_exactly_once_witness :
  (match tr_run sample_gen sample_events with
   | Some (taken, st) => (seq <$> stored (tr_log st), mt_count (tr_queue st))
   | None => ([], 0)
   end = ([1; 2], 1)) /\
  exists taken st waiting, tr_run sample_gen sample_events = Some (taken, st) /\
    erase <$> stored (tr_log st) ++ pl_batch (tr_pipe st) ++ waiting = erase <$> taken /\
    miku_msgtransfer_pending (tr_queue st) = Z.of_nat (length waiting) /\ miku_mt_pipeline_pending (tr_pipe st) <= MK_PIPELINE_BATCH_SIZE /\
    cached (tr_log st) = stored (tr_log st) /\ pushed (tr_log st) = push_of <$> stored (tr_log st).
Proof.
  split; [vm_compute; reflexivity|]. apply (transfer_exactly_once sample_gen 20 sample_events sample_gen_fresh); [cbn; lia|repeat constructor].
Defined.

(** ** Read positions *)

Definition rs_key (e : read_seq_entry) : string * string := (rs_user_id e, rs_conv_id e).
Definition rs_hash (k : string * string) : Z := read_pair_slot k.1 k.2.

#[local] Instance read_hash_pow2 : Pow2 MK_READ_SEQ_HASH.
Proof. exists 13. split; [lia|done]. Qed.

Lemma rs_hash_bound k : 0 <= rs_hash k < MK_READ_SEQ_HASH.
Proof. apply (mask_slot_bound 13). lia. Qed.

Definition read_ok (p : miku_mt_pipeline) : Prop := ktable (sz:=MK_READ_SEQ_HASH) rs_key rs_hash MK_READ_SEQ_MAX (pl_read_hash p) (pl_read_seqs p).
Definition read_positions (p : miku_mt_pipeline) : gmap (string * string) Z := kmap rs_key rs_seq (pl_read_seqs p).

Lemma transfer_read_tests l u c : tests rs_key l (u, c) (read_is l u c).
Proof.
  intros ri. unfold read_is. destruct (at_ l ri) as [e|]; [|done]. rewrite !streq_bool. unfold rs_key.
  apply eq_true_iff_eq. rewrite andb_true_iff, !bool_decide_eq_true. split; [by intros [-> ->]|by intros [= -> ->]].
Qed.

Lemma read_find_ok p u c : read_ok p ->
  (exists e, 0 <= read_hash_find p u c /\ at_ (pl_read_seqs p) (read_hash_find p u c) = Some e /\ rs_key e = (u, c) /\ read_positions p !! (u, c) = Some (rs_seq e)) \/
  (read_hash_find p u c = -1 /\ read_positions p !! (u, c) = None /\ (u, c) ∉ rs_key <$> pl_read_seqs p).
Proof.
  intros O. unfold read_hash_find, scan_find. change (read_pair_slot u c) with (rs_hash (u, c)).
  destruct (ktable_find rs_key rs_seq rs_hash MK_READ_SEQ_MAX rs_hash_bound ltac:(done) _ _ (u, c) _ O (transfer_read_tests (pl_read_seqs p) u c))
    as [(q & i & e & F & Hi & Hk & M)|(q & F & M & Hn)]; rewrite F; [left; exists e|right; done].
  pose proof (at_lt _ _ _ Hi). split_and!; [lia|done..].
Qed.

Definition read_spec (m : gmap (string * string) Z) (k : string * string) (n : Z) : Z * gmap (string * string) Z :=
  if decide (is_Some (m !! k) \/ Z.of_nat (size m) < MK_READ_SEQ_MAX) then (0, <[k := n]> m) else (-1, m).

Lemma process_read_ok p u c n : read_ok p -> fits 63 u -> fits 127 c ->
  let '(rc, p') := miku_mt_pipeline_process_read_seq p (Some u) (Some c) n in
  read_ok p' /\ (rc, read_positions p') = read_spec (read_positions p) (u, c) n.
Proof.
  intros O Hu Hc. unfold miku_mt_pipeline_process_read_seq, read_spec. assert (size (read_positions p) = length (pl_read_seqs p)) as Hsz by (apply kmap_size, O).
  destruct (read_find_ok p u c O) as [(e & H0 & He & Hk & M)|(E & M & Hn)].
  - rewrite (proj2 (Z.leb_le _ _) H0), decide_True by (left; rewrite M; eauto).
    set (f := fun e => ReadSeqEntry (rs_user_id e) (rs_conv_id e) n).
    destruct (ktable_upd rs_key rs_seq rs_hash MK_READ_SEQ_MAX _ _ _ e f O He eq_refl) as [T Em]. split; [exact T|].
    f_equal. unfold read_positions. cbn [set_read_seqs pl_read_seqs]. rewrite Em, Hk. done.
  - rewrite E. cbn [Z.leb Z.compare]. destruct (Z.leb_spec MK_READ_SEQ_MAX (Z.of_nat (length (pl_read_seqs p)))) as [Hfull|Hroom].
    + rewrite decide_False; [done|]. rewrite M. intros [[? ?]|?]; [done|lia].
    + rewrite decide_True by (right; lia). set (e := ReadSeqEntry _ _ _). assert (rs_key e = (u, c)) as Ek by (unfold rs_key, e; cbn; by rewrite !strn_short).
      unfold read_hash_insert. cbn [set_read_seqs pl_read_seqs pl_read_hash]. rewrite at_snoc, i16_small by (unfold MK_READ_SEQ_MAX in Hroom; lia).
      destruct (ktable_insert rs_key rs_seq rs_hash MK_READ_SEQ_MAX rs_hash_bound ltac:(done) _ _ e O ltac:(by rewrite Ek) Hroom) as [T Em].
      split; [exact T|]. f_equal. unfold read_positions. cbn [pl_read_seqs]. rewrite Em, Ek. done.
Qed.

(** The read positions of the pipeline are a finite map of at most 4096 pairs:
    a position that was stored is read back, and only a new pair can be refused,
    when 4096 are taken. *)
Theorem read_positions_refine ops u c : Forall (fun o => fits 63 o.1.1 /\ fits 127 o.1.2) ops ->
  let '(rcs, p) := run_steps (fun p o => miku_mt_pipeline_process_read_seq p (Some o.1.1) (Some o.1.2) o.2) miku_mt_pipeline_create ops in
  let '(rcs', m) := run_steps (fun m o => read_spec m o.1 o.2) ∅ ops in
  rcs = rcs' /\ miku_mt_pipeline_get_read_seq p (Some u) (Some c) = default 0 (m !! (u, c)).
Proof.
  intros Hf. assert (let '(rcs, p) := run_steps (fun p o => miku_mt_pipeline_process_read_seq p (Some o.1.1) (Some o.1.2) o.2) miku_mt_pipeline_create ops in
    let '(rcs', m) := run_steps (fun m o => read_spec m o.1 o.2) ∅ ops in rcs = rcs' /\ read_positions p = m /\ read_ok p) as H.
  { induction ops as [|[[u0 c0] n] ops IH] using rev_ind; [split_and!; [done|done|by apply ktable_empty]|].
    apply list.Forall_app in Hf as [Hf Ho]. apply list.Forall_cons in Ho as [[Hu Hc] _]. specialize (IH Hf). rewrite !run_steps_snoc.
    destruct (run_steps _ _ ops) as [rcs p], (run_steps (fun m o => read_spec m o.1 o.2) ∅ ops) as [rcs' m]. destruct IH as (-> & <- & O).
    cbn [fst snd] in *. pose proof (process_read_ok p u0 c0 n O Hu Hc) as P. destruct (miku_mt_pipeline_process_read_seq _ _ _ _) as [rc p']. destruct P as [O' E].
    destruct (read_spec _ _ _) as [rc' m']. by injection E as -> ->. }
  destruct (run_steps _ _ ops) as [rcs p], (run_steps (fun m o => read_spec m o.1 o.2) ∅ ops) as [rcs' m]. destruct H as (-> & <- & O). split; [done|].
  unfold miku_mt_pipeline_get_read_seq. destruct (read_find_ok p u c O) as [(e & H0 & He & _ & M)|(E & M & _)]; rewrite M.
  - by rewrite (proj2 (Z.leb_le _ _) H0), He.
  - by rewrite E.
Qed.
